(* ===== verification/_CoqProject ===== *)
-Q . S2P
Prelude.v
Machine.v
Values.v
Json.v
JsonProps.v
Contract.v
Conditions.v
Templates.v
Verification.v
Validator.v
Outputs.v
Examples.v
ValidatorProps.v
OutputProps.v
GraphProps.v
StoreRows.v
Store.v
StoreOps.v
StoreProps.v
StoreInv.v
StoreRun.v
StoreOnce.v
RuntimeEnv.v
Runtime.v
RuntimeProps.v
RuntimeDemo.v
RuntimeSafety.v
RuntimeLimits.v
RuntimeCalls.v
RuntimeTurns.v
TaskContract.v
Journal.v
JournalProps.v
Workspace.v
WorkspaceProps.v
NodeStart.v
JournalLeases.v
TaskContractProps.v
Fingerprint.v
GatewayState.v
Gateway.v
GatewayApi.v
GatewayInv.v
GatewayKeeps.v
GatewayDurable.v
GatewayCreate.v
GatewayProps.v
GatewayRecovery.v
GatewaySafety.v
Crypto.v
RelayState.v
Relay.v
RelayProps.v
RelayRequests.v
RelaySafety.v
Redact.v
RunPolicy.v
Supervisor.v
SupervisorProps.v
SupervisorSafety.v
Drafts.v
Compiler.v
Builder.v
BuilderApi.v
LibraryProps.v
CompilerProps.v
ApprovalProps.v
BuilderProps.v
EventStream.v
EventStreamProps.v
WorkflowApi.v
WorkflowApiProps.v
Router.v
GatewayClient.v
RouterProps.v
StreamClient.v
Mcp.v
McpProps.v
TaskClient.v
NodeTail.v
