(* ===== verification/Prelude.v ===== *)
(** * A verification development of the Vibe workflow control plane

    The program (TypeScript, src/src/) runs multi-step workflows of coding agents.  A
    workflow specification is validated; a durable runtime executes it step by step by
    creating Agent Tasks through a Gateway, parses and validates the agents' outputs,
    routes on them, and gates completion on evidence the system observed.  Everything
    durable lives in a SQLite control store, written only through atomic composites, so
    that a crash at any point can be recovered from.  This development models the
    validator, the pure functions between an agent's text and a routing decision, the
    control store, the runtime, the workflow compiler and its conversational builder, the
    Agent Gateway, the relay between clients and Nodes, the Node's journal, workspaces and
    leases, and the supervisor of a run on a Node, as executable functions, and proves what
    makes them correct.

    ** Files, in dependency order

    - [Prelude]: results, string tests, character classes, list lemmas, automation.
      [Machine]: the state-and-error monad of the later components, with the class of
      preserved predicates and the tactics that follow a run.
    - [Values], [Json]: JavaScript data values; [JSON.stringify] and [JSON.parse] as
      executable functions.  Strings are UTF-8 byte sequences, numbers exact decimals,
      objects lists of own properties in enumeration order.  [JsonProps]: the round trip.
    - [Contract] (workflow/contract.ts), [Conditions] (conditions.ts, routing.ts),
      [Templates] (validator.ts, prompt-renderer.ts), [Verification]
      (lib/task-verification.ts, lib/agent-task-result.ts, runtime/verifier-profiles.ts).
    - [Validator] (workflow/validator.ts): [validateWorkflowSpec] with every phase.
      [ValidatorProps], [GraphProps]: what an accepted specification guarantees.
    - [Outputs] (output-parser.ts, output-validator.ts, input-values.ts,
      completion-policy.ts, stall-policy.ts, recovery.ts, lib/workspace-lease.ts), with
      [OutputProps].  [Examples] (examples.ts): the built-in specification as data.
    - [StoreRows], [Store], [StoreOps] (control/migrations.ts, serialization.ts,
      records.ts, sqlite-store.ts): rows, a state-and-error monad over the database in
      which [transaction] rolls back, the internal and the public operations.
      [StoreProps]: the preservation class, and that no recording operation undoes a
      recorded fact.  [StoreInv]: gap-free event logs and unique keys in every reachable
      database.  [StoreRun]: inversion of successful runs.  [StoreOnce]: the evolution of
      tasks, and at-most-once effects.
    - [RuntimeEnv], [Runtime] (workflow/runtime.ts, workspace-lease-client.ts): the
      runtime over a parametric environment.  [RuntimeProps]: preservation lifted to the
      runtime's methods.  [RuntimeDemo]: a concrete environment in which the example
      specifications run to completion.  [RuntimeSafety]: what the pump may do.
      [RuntimeLimits]: the task budget.  [RuntimeCalls]: what the pump asks of the Agent
      Task service.  [RuntimeTurns]: the drive loop ends.
    - [Journal] (node-journal/): the run journal of a Node, its subscriptions and the
      workspace leases it grants.  [JournalProps]: logs and subscriptions.
    - [Workspace] (workspace.ts, repo-policy.ts), [WorkspaceProps]: which directories and
      repositories a run may use.
    - [NodeStart] (relay/client.ts handleRunStart, relay/node-lease-dispatch.ts): the
      Node's handlers of run, lease and revision requests.  [JournalLeases]: exclusion.
    - [TaskContract] (lib/agent-task-contract.ts, run-error.ts, request-fingerprint.ts,
      types.ts): tasks, runs, requests and errors as the Gateway's clients see them.
      [TaskContractProps]: accepted requests.  [Fingerprint]: request fingerprints.
    - [GatewayState], [Gateway], [GatewayApi] (lib/agent-gateway.ts): the Agent Gateway.
      Task objects live in a heap; a handler that awaits leaves a [Pending] value with
      what its continuation needs; [react] is one turn of the event loop.  [GatewayInv]:
      the invariant.  [GatewayKeeps], [GatewayCreate], [GatewayProps]: every operation
      keeps it.  [GatewayDurable]: what the Gateway leaves in the database.
      [GatewayRecovery]: what a restart makes of it.  [GatewaySafety]: runs of the
      Gateway and the claims about them.
    - [Crypto] (crypto.ts): canonical JSON and signed envelopes.  [RelayState], [Relay]
      (relay/server.ts, pairing-store.ts, token.ts, reconnect.ts): the relay that connects
      clients and Nodes.  Its [Map]s are lists keyed by JavaScript values, sockets are
      numbers, an uncaught TypeError ends the process.  [RelayProps]: maps and frames of
      the handlers.  [RelayRequests]: requests and answers.  [RelaySafety]: histories of
      inputs and the claims about them.
    - [Redact] (redact.ts), [RunPolicy] (runtime/classify.ts, policy.ts, router.ts,
      codex-sandbox.ts, preauth.ts, agent-env.ts), [Supervisor] (runtime/supervisor.ts,
      handoff.ts, verifier.ts, store.ts, events.ts): one run on a Node.  The supervisor
      records what it learns and does in a log; other processes may change the run's files
      before every access, and every access may throw.  [SupervisorProps]: triples over logs.  [SupervisorSafety]: the
      claims.
    - [Drafts] (control/sqlite-store.ts, migrations.ts): drafts, builder sessions and
      messages next to the workflow tables.  [Compiler] (workflow/compiler/), [Builder]
      (workflow/builder/service.ts), [BuilderApi] (their api.ts): from a request in natural
      language to an approved workflow.  Before every access to the store other users may
      act and the process may die.  [LibraryProps]: the invariant and the store operations.
      [CompilerProps]: rely-guarantee triples.
      [ApprovalProps], [BuilderProps]: the claims.
    - [EventStream] (workflow/event-stream.ts), [WorkflowApi] (workflow/api.ts,
      api-contract.ts): the event stream of a workflow over a store others use, and the
      controllers of the workflow API over the runtime, with [EventStreamProps] and
      [WorkflowApiProps].  [Router] (lib/agent-gateway.ts): authentication and the route of
      every request.  [GatewayClient] (mcp/gateway-client.ts): the client.  [RouterProps]:
      its calls reach their handlers.  [StreamClient]: frames and chunks, and the
      stream and the client together.  [Mcp] (mcp/server.ts, workflow-tools.ts): the tools
      of the MCP server and its dispatch, with [McpProps].  [TaskClient]
      (workflow/task-client.ts, workspace-lease-client.ts): the adapters of the runtime's
      clients, and that the Gateway accepts the runtime's requests as they are; the requests
      over the relay (relay/client.ts), each of which settles once and by its own answer.
    - [NodeTail] (relay/client.ts tailRunEvents): the Node forwards the events of a run,
      journal first.

    ** Correspondence

    A TypeScript function is a Rocq function of the same name; an error thrown is an
    [Err] value with the source's error code; a SQL statement is an operation on the
    tables of [DB] under the constraints of the schema; a call of the runtime to the store
    is [store], before which the environment may change the database, so the theorems hold
    for every interleaving of other users at the awaits.  The validator reports issue
    codes and paths; human-readable messages are left out throughout.

    ** What the theorems show

    - Specifications (C1, C2, C5): accepted specifications route deterministically, an
      output of the declared schema is always routed where the step branches on a required
      enum field,
      referenced step outputs are guaranteed by the dominator computation.
    - Policies and data (C7, C8): the verdict on a completion claim is the one the recorded
      facts call for, validated outputs conform to their schema.
    - The supervisor (C6, C9, C11), for every environment: a supervisor that returns has
      itself written and announced one terminal status, or has found the run stopped after
      an agent returned and left it alone; every launch passed the gates and has its sandbox, and
      completions rest on the last agent's outcome and the verifier's report.
    - Store (C12, C13): monotone evolution, gap-free logs.  Pruning, deletion and an update
      that clears the task of a step are not among the steps.
    - Compiler and builder (C3, C14, C26): drafts are valid only as validated, turns are
      answered once and in order, approval materializes exactly the inspected
      specification, and nothing but approval materializes.
    - Runtime (C16): completion happens only on verified evidence, which was given to the
      store.  [RuntimeSafety.runtime_keeps_store]: every method is a sequence of store
      operations, whatever the environment does.
    - Retries (C17 to C19): the composites, the node's reports and task creation take
      effect at most once, however often they are repeated; the transitions of a workflow
      that may recur are idempotent.
    - The pump (C20 to C22): it stays within the task budget, requests tasks only under the
      identifiers of its recorded steps, and ends after a number of turns the
      specification bounds.
    - The workflow API and its clients (C4, C10, C24, C27, C29, C34): no handler is reached
      without the token; the event stream delivers an exact tail of the
      durable log, and so does the wait of the client, end to end; a request touches only
      the workflow it addresses; every call of the client reaches its handler with its
      identifier and body; the tools of the MCP server do what they declare: read-only ones
      change nothing, and only destructive ones cancel.
    - The Node (C15, C23, C25, C28): a subscription is an exact tail of the run's log as far
      as its replay reaches; workspaces stay under their root; leases are granted exclusively
      and leased runs exclude each other.  [WorkspaceProps.clone_gated]: a repository that
      the policy takes for remote is cloned only from the allowlist.
    - The Gateway (C30 to C33), over [gateway_run]: any sequence of requests, run events,
      answers, timers, failures and restarts, in any order.  Task streams close exactly
      once, admission is bounded, what is published is durable, a restart between turns
      resumes every unfinished task from its row and its log.
    - Requests (C35, C36): accepted requests are well formed, fingerprints identify the
      fields they cover.
    - The relay (C37 to C40), over [runs]: any history of connections, frames and closes.
      Signatures cover an envelope up to key order; with required pairing registered nodes
      have proved their key; answers reach exactly the requester that still waits; a
      request is forwarded to its registered node or refused.

    ** Bounds and fuel

    The graph algorithms take fuel that is proved sufficient: reachability and the depth
    first search one more than the number of steps, the dominator iteration one more than
    the square of it (each pass that changes something removes an element).  The JSON
    parser's fuel is the length of its input.  The loops of the runtime that wait for the
    environment take fuel because they may wait for ever; running out is an error value
    that no [catch] of the model intercepts, and safety properties hold for every amount.
    The Gateway needs no fuel: each wait of its retry loops is a turn of its own.  The
    frames of the client's buffer are at most its characters; its waits take fuel for the
    number of polls, and running out is a failure of its own.

    ** What is not modelled

    SHA-256, [git] and the filesystem of a Node (parameters),
    Ed25519 and key decoding (a parameter), payload encryption, the agents' processes and the Node daemon, the URL parser,
    and the user interfaces.  The run
    records and the process control of the Gateway's local runs are parameters of a turn
    ([World]); a turn of the Gateway is atomic, as in JavaScript, and a restart happens
    between turns or where a turn ends the process.  Property
    reads see own properties only.  [Date.parse] is modelled on the timestamps the store
    accepts.  [JsonProps.json_data], the JSON data of the theorems on texts sent, stored
    and signed (C26, C29, C34, C36, C37), has integers below 10^21 as its numbers.  The route of a task creation carries no
    body: the handler of [GatewayApi] takes the request itself.  Rows that SQLite leaves unordered come in map order.  Pruning and deletion
    are modelled as operations but are not among the steps of the reachability relation. *)

From stdpp Require Export base list gmap strings numbers sorting.
From Stdlib Require Export ZArith Ascii String Lia.

(** ** Results: the value of a call that may throw a structured error *)

Inductive result (E A : Type) : Type :=
  | Ok (a : A)
  | Err (e : E).
Arguments Ok {E A} a.
Arguments Err {E A} e.

Definition is_ok {E A : Type} (r : result E A) : bool :=
  match r with Ok _ => true | Err _ => false end.

Declare Scope vibe_scope.
Delimit Scope vibe_scope with vibe.
Open Scope vibe_scope.
Open Scope string_scope.
Open Scope Z_scope.
Open Scope list_scope.

Definition rbind {E A B : Type} (r : result E A) (k : A -> result E B) : result E B :=
  match r with Ok a => k a | Err e => Err e end.

Notation "'try!' x ':=' r 'in' k" := (rbind r (fun x => k))
  (at level 10, x name, r at level 100, k at level 200) : vibe_scope.

#[global] Arguments Ascii.eqb a b : simpl never.
#[global] Arguments String.eqb s1 s2 : simpl never.

(** [a =s b] is JavaScript's [===] on strings. *)
Notation "a =s b" := (String.eqb a b) (at level 70, no associativity) : vibe_scope.

(** [x ∈b l]: membership of a string in a list of strings ([includes], [Set.has]). *)
Definition str_in (s : string) (l : list string) : bool := existsb (fun t => s =s t) l.
Notation "s ∈b l" := (str_in s l) (at level 70, no associativity) : vibe_scope.

Lemma str_in_spec (s : string) (l : list string) : str_in s l = true <-> In s l.
Proof.
  unfold str_in. rewrite existsb_exists. split.
  - intros (x & Hx & He). apply String.eqb_eq in He. by subst.
  - intros H. exists s. split; [done | apply String.eqb_refl].
Qed.

Lemma str_in_false (s : string) (l : list string) : str_in s l = false <-> ~ In s l.
Proof. rewrite <- str_in_spec. destruct (str_in s l); naive_solver. Qed.

Lemma eqb_str_dec (a b : string) : (a =s b) = bool_decide (a = b).
Proof.
  destruct (a =s b) eqn:E.
  - apply String.eqb_eq in E. by rewrite bool_decide_true.
  - apply String.eqb_neq in E. by rewrite bool_decide_false.
Qed.

(** ** Character classes of the source's regular expressions *)

Definition in_range (lo hi c : ascii) : bool :=
  ((N_of_ascii lo <=? N_of_ascii c) && (N_of_ascii c <=? N_of_ascii hi))%N.
Definition is_lower (c : ascii) : bool := in_range "a" "z" c.
Definition is_upper (c : ascii) : bool := in_range "A" "Z" c.
Definition is_digit (c : ascii) : bool := in_range "0" "9" c.
Definition is_alpha (c : ascii) : bool := is_lower c || is_upper c.
Definition is_one_of (s : string) (c : ascii) : bool :=
  existsb (Ascii.eqb c) (list_ascii_of_string s).

Definition all_chars (p : ascii -> bool) (s : string) : bool :=
  forallb p (list_ascii_of_string s).

(** [/^F R{0,n}$/]: one character of class [first], then at most [n] of class
    [rest].  (JavaScript's [$] without the m flag matches only at the end.) *)
Definition re_ident (first rest : ascii -> bool) (n : Z) (s : string) : bool :=
  match s with
  | EmptyString => false
  | String c r => first c && all_chars rest r && (Z.of_nat (String.length r) <=? n)
  end.

(** [/^F R*$/]. *)
Definition re_word (first rest : ascii -> bool) (s : string) : bool :=
  match s with
  | EmptyString => false
  | String c r => first c && all_chars rest r
  end.

(** [/^[A-Za-z_][A-Za-z0-9_]*$/], the field and input names of references. *)
Definition is_field_name (s : string) : bool :=
  re_word (fun c => is_alpha c || is_one_of "_" c)
          (fun c => is_alpha c || is_digit c || is_one_of "_" c) s.

(** [s.startsWith(p)], returning what follows the prefix. *)
Fixpoint strip_prefix (p s : string) : option string :=
  match p, s with
  | EmptyString, _ => Some s
  | String a p', String b s' => if Ascii.eqb a b then strip_prefix p' s' else None
  | String _ _, EmptyString => None
  end.

Definition starts_with (p s : string) : bool :=
  match strip_prefix p s with Some _ => true | None => false end.

(** [s.includes(p)]. *)
Fixpoint contains (p s : string) : bool :=
  starts_with p s || match s with EmptyString => false | String _ s' => contains p s' end.

(** The text before the first occurrence of the character, and what follows it. *)
Fixpoint split_at_char (c : ascii) (s : string) : option (string * string) :=
  match s with
  | EmptyString => None
  | String a s' =>
      if Ascii.eqb a c then Some (EmptyString, s')
      else match split_at_char c s' with
           | Some (l, r) => Some (String a l, r)
           | None => None
           end
  end.

Lemma append_cons (a : ascii) (p s : string) : String a p +:+ s = String a (p +:+ s).
Proof. done. Qed.

Lemma append_assoc (a b c : string) : (a +:+ b) +:+ c = a +:+ (b +:+ c).
Proof. induction a as [|x a IH]; [done|]. rewrite !append_cons. by rewrite IH. Qed.

Lemma strip_prefix_app (p s : string) : strip_prefix p (p +:+ s) = Some s.
Proof.
  induction p as [|a p IH]; [done|].
  rewrite append_cons. cbn. by rewrite Ascii.eqb_refl.
Qed.

Lemma strip_prefix_Some (p s r : string) : strip_prefix p s = Some r -> s = p +:+ r.
Proof.
  revert s. induction p as [|a p IH]; intros s H; cbn in *.
  - by inversion H.
  - destruct s as [|b s]; [done|]. destruct (Ascii.eqb a b) eqn:E; [|done].
    apply Ascii.eqb_eq in E. subst. by rewrite append_cons, (IH _ H).
Qed.

(** ** Lists *)

Lemma existsb_false {A : Type} (f : A -> bool) (l : list A) :
  existsb f l = false <-> (forall x, In x l -> f x = false).
Proof.
  induction l as [|a l IH]; cbn; [naive_solver|].
  rewrite orb_false_iff, IH. naive_solver.
Qed.

Lemma filter_length_one {A : Type} (f : A -> bool) (l : list A) (x : A) :
  List.filter f l = [x] -> In x l /\ f x = true.
Proof.
  intros H. apply (List.filter_In f x l). rewrite H. by left.
Qed.

Lemma filter_nil {A : Type} (p : A -> bool) (l : list A) : List.filter p l = [] <-> (forall x, In x l -> p x = false).
Proof.
  induction l as [|a l IH]; cbn; [naive_solver|]. destruct (p a) eqn:E.
  - split; [done|]. intros H. by rewrite (H a (or_introl eq_refl)) in E.
  - rewrite IH. naive_solver.
Qed.

(** ** Tables *)

(** [SELECT ... WHERE p] of a table whose rows SQLite leaves unordered. *)
Definition find_row {A : Type} (p : A -> bool) (m : gmap string A) : option A :=
  snd <$> List.find (fun kv => p (snd kv)) (map_to_list m).

Lemma find_row_none {A : Type} (p : A -> bool) (m : gmap string A) : find_row p m = None <-> (forall k r, m !! k = Some r -> p r = false).
Proof.
  unfold find_row. destruct (List.find _ _) as [[k r]|] eqn:E; cbn.
  - apply List.find_some in E as [Hin Hp]. split; [done|]. intros H. apply list_elem_of_In, elem_of_map_to_list in Hin.
    cbn in Hp. by rewrite (H _ _ Hin) in Hp.
  - split; [|done]. intros _ k r Hr. apply (List.find_none _ _ E (k, r)). by apply list_elem_of_In, elem_of_map_to_list.
Qed.

Lemma find_row_some {A : Type} (p : A -> bool) (m : gmap string A) (r : A) : find_row p m = Some r -> exists k, m !! k = Some r /\ p r = true.
Proof.
  unfold find_row. destruct (List.find _ _) as [[k q]|] eqn:E; cbn; [|done]. intros [= ->].
  apply List.find_some in E as [Hin Hp]. exists k. split; [by apply elem_of_map_to_list, list_elem_of_In|done].
Qed.

(** The sequence numbers in descending order. *)
Fixpoint insert_desc (z : Z) (l : list Z) : list Z := match l with [] => [z] | x :: t => if x <=? z then z :: l else x :: insert_desc z t end.
Definition sort_desc (l : list Z) : list Z := fold_right insert_desc [] l.
Definition min_of (l : list Z) : option Z := match l with [] => None | x :: t => Some (fold_left Z.min t x) end.

(** ** Automation *)

(** Split boolean conjunctions and turn boolean tests into propositions. *)
Ltac bsimpl :=
  repeat match goal with
  | H : (_ && _)%bool = true |- _ => apply andb_true_iff in H; destruct H
  | H : (_ || _)%bool = false |- _ => apply orb_false_iff in H; destruct H
  | H : negb _ = true |- _ => apply negb_true_iff in H
  | H : negb _ = false |- _ => apply negb_false_iff in H
  | H : String.eqb _ _ = true |- _ => apply String.eqb_eq in H
  | H : String.eqb _ _ = false |- _ => apply String.eqb_neq in H
  | H : (_ =? _) = true |- _ => apply Z.eqb_eq in H
  | H : (_ =? _) = false |- _ => apply Z.eqb_neq in H
  | H : (_ <? _) = true |- _ => apply Z.ltb_lt in H
  | H : (_ <? _) = false |- _ => apply Z.ltb_ge in H
  | H : (_ <=? _) = true |- _ => apply Z.leb_le in H
  | H : (_ <=? _) = false |- _ => apply Z.leb_gt in H
  end.

(** Case analysis on the scrutinee of a match in the goal or a hypothesis. *)
Ltac dmatch :=
  match goal with
  | |- context [match ?x with _ => _ end] => destruct x eqn:?
  end.
Ltac dmatch_in H :=
  match type of H with
  | context [match ?x with _ => _ end] => destruct x eqn:?
  end.

Create HintDb vibe.
#[export] Hint Resolve String.eqb_refl : vibe.
