(* ===== verification/Machine.v ===== *)
(** * State and errors for the synchronous components

    A computation over a state [S] that may throw an [Er], with the operations the
    components share and the class [Holds I m]: running [m] keeps the invariant [I],
    whether it returns or throws. *)

From S2P Require Import Prelude.

Definition ST (S Er A : Type) : Type := S -> result Er A * S.

Section Operations.
Context {S Er : Type}.

#[global] Instance ST_ret : MRet (ST S Er) := fun A a s => (Ok a, s).
#[global] Instance ST_bind : MBind (ST S Er) := fun A B k m s =>
  match m s with (Ok a, s') => k a s' | (Err e, s') => (Err e, s') end.

Definition raise {A : Type} (e : Er) : ST S Er A := fun s => (Err e, s).
Definition asks {A : Type} (f : S -> A) : ST S Er A := fun s => (Ok (f s), s).
Definition update (f : S -> S) : ST S Er unit := fun s => (Ok tt, f s).
Definition from {A : Type} (r : result Er A) : ST S Er A := fun s => (r, s).
(** [if (!b) throw e]. *)
Definition ensure (b : bool) (e : Er) : ST S Er unit := if b then mret tt else raise e.
Definition obtain {A : Type} (o : option A) (e : Er) : ST S Er A := match o with Some a => mret a | None => raise e end.
(** [if (b) m]. *)
Definition on (b : bool) (m : ST S Er unit) : ST S Er unit := if b then m else mret tt.
(** A SQLite transaction: the state is rolled back when its body throws. *)
Definition atomic {A : Type} (m : ST S Er A) : ST S Er A := fun s =>
  match m s with (Ok a, s') => (Ok a, s') | (Err e, _) => (Err e, s) end.
(** [try { m } catch (e) { h(e) }]. *)
Definition catch {A : Type} (m : ST S Er A) (h : Er -> ST S Er A) : ST S Er A := fun s =>
  match m s with (Ok a, s') => (Ok a, s') | (Err e, s') => h e s' end.
End Operations.

(** ** Invariants *)

Class Holds {S Er : Type} (I : S -> Prop) {A : Type} (m : ST S Er A) : Prop := holds : forall s, I s -> I (snd (m s)).

Section Holds.
Context {S Er : Type} (I : S -> Prop).

#[global] Instance holds_ret {A : Type} (a : A) : Holds I (mret a : ST S Er A).
Proof. by intros s. Qed.
#[global] Instance holds_raise {A : Type} (e : Er) : Holds I (@raise S Er A e).
Proof. by intros s. Qed.
#[global] Instance holds_asks {A : Type} (f : S -> A) : Holds I (asks f : ST S Er A).
Proof. by intros s. Qed.
#[global] Instance holds_from {A : Type} (r : result Er A) : Holds I (from r : ST S Er A).
Proof. by intros s. Qed.
#[global] Instance holds_ensure (b : bool) (e : Er) : Holds I (ensure b e : ST S Er unit).
Proof. intros s. by destruct b. Qed.
#[global] Instance holds_obtain {A : Type} (o : option A) (e : Er) : Holds I (obtain o e : ST S Er A).
Proof. intros s. by destruct o. Qed.
#[global] Instance holds_bind {A B : Type} (m : ST S Er A) (k : A -> ST S Er B) : Holds I m -> (forall a, Holds I (k a)) -> Holds I (m ≫= k).
Proof. intros Hm Hk s Hs. unfold mbind, ST_bind. specialize (Hm s Hs). destruct (m s) as [[a|e] s']; [by apply Hk|done]. Qed.
#[global] Instance holds_on (b : bool) (m : ST S Er unit) : Holds I m -> Holds I (on b m).
Proof. intros H s. destruct b; [apply H|done]. Qed.
#[global] Instance holds_atomic {A : Type} (m : ST S Er A) : Holds I m -> Holds I (atomic m).
Proof. intros H s Hs. unfold atomic. specialize (H s Hs). by destruct (m s) as [[a|e] s']. Qed.
#[global] Instance holds_catch {A : Type} (m : ST S Er A) (h : Er -> ST S Er A) : Holds I m -> (forall e, Holds I (h e)) -> Holds I (catch m h).
Proof. intros Hm Hh s Hs. unfold catch. specialize (Hm s Hs). destruct (m s) as [[a|e] s']; [done|by apply Hh]. Qed.
End Holds.

Ltac head_sym t := lazymatch t with ?f _ => head_sym f | _ => t end.

(** Binds by their instances, matches by case analysis, operations by unfolding. *)
Ltac hold :=
  repeat first
    [ progress intros
    | apply _
    | lazymatch goal with
      | |- Holds _ (atomic _) => apply holds_atomic
      | |- Holds _ (catch _ _) => apply holds_catch
      | |- Holds _ (_ ≫= _) => apply holds_bind
      | |- Holds _ (on _ _) => apply holds_on
      | |- Holds _ (match ?x with _ => _ end) => destruct x eqn:?
      | |- Holds _ (let _ := _ in _) => cbv zeta
      | |- Holds _ ?m => let h := head_sym m in unfold h
      end ].

(** ** Inversion of runs that returned *)

Section Returned.
Context {S Er A B : Type}.
Implicit Types (s : S).

Lemma bind_returned (m : ST S Er A) (k : A -> ST S Er B) s b s' :
  (m ≫= k) s = (Ok b, s') -> exists a s1, m s = (Ok a, s1) /\ k a s1 = (Ok b, s').
Proof. unfold mbind, ST_bind. destruct (m s) as [[a|e] s1]; [|done]. by exists a, s1. Qed.
Lemma atomic_returned (m : ST S Er A) s a s' : atomic m s = (Ok a, s') -> m s = (Ok a, s').
Proof. unfold atomic. by destruct (m s) as [[x|e] s1]. Qed.
Lemma asks_returned (f : S -> A) s a s' : (asks f : ST S Er A) s = (Ok a, s') -> a = f s /\ s' = s.
Proof. by intros [= <- <-]. Qed.
Lemma update_returned (f : S -> S) s u s' : (update f : ST S Er unit) s = (Ok u, s') -> s' = f s.
Proof. by intros [= _ <-]. Qed.
Lemma from_returned (r : result Er A) s a s' : (from r : ST S Er A) s = (Ok a, s') -> r = Ok a /\ s' = s.
Proof. by intros [= -> <-]. Qed.
Lemma ensure_returned (b : bool) (e : Er) s u s' : (ensure b e : ST S Er unit) s = (Ok u, s') -> b = true /\ s' = s.
Proof. destruct b; [|done]. by intros [= _ <-]. Qed.
Lemma obtain_returned (o : option A) (e : Er) s a s' : (obtain o e : ST S Er A) s = (Ok a, s') -> o = Some a /\ s' = s.
Proof. destruct o; [|done]. by intros [= -> <-]. Qed.
End Returned.

(** Break a run that returned into its parts. *)
Ltac invert_run H :=
  lazymatch type of H with
  | (mret _) _ = (Ok _, _) => injection H as ? ?; subst
  | (raise _) _ = (Ok _, _) => discriminate H
  | (ensure _ _) _ = (Ok _, _) => apply ensure_returned in H as [? ->]
  | (asks _) _ = (Ok _, _) => apply asks_returned in H as [-> ->]
  | (obtain _ _) _ = (Ok _, _) => apply obtain_returned in H as [? ->]
  | (from _) _ = (Ok _, _) => apply from_returned in H as [? ->]
  | (update _) _ = (Ok _, _) => apply update_returned in H as ->
  | (atomic _) _ = (Ok _, _) => apply atomic_returned in H; invert_run H
  | (_ ≫= _) _ = (Ok _, _) =>
      let a := fresh "a" in let s1 := fresh "s" in let H1 := fresh "H" in let H2 := fresh "H" in
      apply bind_returned in H as (a & s1 & H1 & H2); cbv beta zeta in H2; invert_run H1; invert_run H2
  | _ => idtac
  end.

(** Follow the branch a run that returned took. *)
Ltac follow E :=
  match goal with
  | H : (on ?b _) _ = (Ok _, _) |- _ => unfold on in H; destruct b eqn:E; invert_run H
  | H : (if ?b then _ else _) _ = (Ok _, _) |- _ => destruct b eqn:E; invert_run H
  | H : (match ?x with Some _ => _ | None => _ end) _ = (Ok _, _) |- _ => destruct x eqn:E; invert_run H
  end.

(** ** Pre- and postconditions on the state *)

Definition hoare {S Er A : Type} (P : S -> Prop) (m : ST S Er A) (Q : S -> Prop) : Prop := forall s, P s -> Q (snd (m s)).

Section Hoare.
Context {S Er : Type}.
Implicit Types (P Q R : S -> Prop).

Lemma hoare_weaken {A : Type} P Q (m : ST S Er A) P' Q' : hoare P' m Q' -> (forall s, P s -> P' s) -> (forall s, Q' s -> Q s) -> hoare P m Q.
Proof. intros H HP HQ s Hs. by apply HQ, H, HP. Qed.
(** What the state satisfies when the first part throws must do for the whole. *)
Lemma hoare_bind {A B : Type} P Q R (m : ST S Er A) (k : A -> ST S Er B) :
  hoare P m Q -> (forall a, hoare Q (k a) R) -> (forall s, Q s -> R s) -> hoare P (m ≫= k) R.
Proof. intros Hm Hk Hq s Hs. unfold mbind, ST_bind. specialize (Hm s Hs). destruct (m s) as [[a|e] s']; [by apply Hk|by apply Hq]. Qed.
Lemma hoare_asks {A B : Type} P R (f : S -> A) (k : A -> ST S Er B) :
  (forall a, hoare (fun s => P s /\ f s = a) (k a) R) -> hoare P (asks f ≫= k) R.
Proof. intros H s Hs. by apply (H (f s)). Qed.
Lemma hoare_ret {A : Type} P Q (a : A) : (forall s, P s -> Q s) -> hoare P (mret a : ST S Er A) Q.
Proof. intros H s Hs. by apply H. Qed.
Lemma hoare_holds {A : Type} P (m : ST S Er A) : Holds P m -> hoare P m P.
Proof. done. Qed.
End Hoare.

Lemma holds_and {S Er A : Type} (I J : S -> Prop) (m : ST S Er A) : Holds I m -> Holds J m -> Holds (fun s => I s /\ J s) m.
Proof. intros H1 H2 s [? ?]. split; [by apply H1|by apply H2]. Qed.
