(* ===== verification/Values.v ===== *)
(** * JavaScript data values and JSON

    The values the control plane validates, stores and transports: JSON data plus
    [undefined].  Strings are sequences of UTF-8 bytes; numbers are exact decimals
    with the two infinities and NaN; an object is the list of its own enumerable
    properties in enumeration order.  [JSON.stringify] and [JSON.parse] are executable. *)

From S2P Require Import Prelude.

(** ** Numbers and values *)

(** [NInt z] is an integral number, [NDec m e] the number [m / 10^e] for a non-zero
    last digit of [m] (so equal numbers have one representation). *)
Set Warnings "-register-all".

Inductive num : Type :=
  | NInt (z : Z)
  | NDec (m : Z) (e : positive)
  | NInf (neg : bool)
  | NNaN.

Inductive value : Type :=
  | VUndef
  | VNull
  | VBool (b : bool)
  | VNum (n : num)
  | VStr (s : string)
  | VArr (l : list value)
  | VObj (o : list (string * value)).

(** The induction principle that reaches the elements of arrays and objects. *)
Section ValueInd.
Context (P : value -> Prop).
Context (HU : P VUndef) (HN : P VNull) (HB : forall b, P (VBool b)) (Hn : forall n, P (VNum n))
  (HS : forall s, P (VStr s)) (HA : forall l, Forall P l -> P (VArr l))
  (HO : forall o, Forall (fun kv => P (snd kv)) o -> P (VObj o)).

Fixpoint value_ind' (v : value) : P v :=
  match v with
  | VUndef => HU
  | VNull => HN
  | VBool b => HB b
  | VNum n => Hn n
  | VStr s => HS s
  | VArr l => HA l ((fix go (l : list value) : Forall P l :=
      match l with [] => Forall_nil_2 _ | x :: l => Forall_cons_2 _ _ _ (value_ind' x) (go l) end) l)
  | VObj o => HO o ((fix go (o : list (string * value)) : Forall (fun kv => P (snd kv)) o :=
      match o with [] => Forall_nil_2 _ | kv :: o => Forall_cons_2 _ _ _ (value_ind' (snd kv)) (go o) end) o)
  end.
End ValueInd.

(** ** Tests and property reads *)

Definition is_undef (v : value) : bool := match v with VUndef => true | _ => false end.
Definition is_nullish (v : value) : bool := match v with VUndef | VNull => true | _ => false end.
Definition isStr (v : value) : bool := match v with VStr _ => true | _ => false end.
Definition isObj (v : value) : bool := match v with VObj _ => true | _ => false end.
Definition isArr (v : value) : bool := match v with VArr _ => true | _ => false end.
Definition isBool (v : value) : bool := match v with VBool _ => true | _ => false end.
Definition isNumber (v : value) : bool := match v with VNum _ => true | _ => false end.

Definition num_isFinite (n : num) : bool := match n with NInt _ | NDec _ _ => true | _ => false end.

(** [Number.isFinite], [Number.isInteger] on any value. *)
Definition isFinite (v : value) : bool := match v with VNum n => num_isFinite n | _ => false end.
Definition isInteger (v : value) : bool := match v with VNum (NInt _) => true | _ => false end.

Definition num_eqb (a b : num) : bool :=
  match a, b with
  | NInt x, NInt y => x =? y
  | NDec m e, NDec m' e' => (m =? m') && (e =? e')%positive
  | NInf x, NInf y => Bool.eqb x y
  | _, _ => false
  end.

(** [===].  Arrays and objects compare by reference; the values compared in the
    program come from different documents, so two of them are never the same one. *)
Definition strict_eq (a b : value) : bool :=
  match a, b with
  | VUndef, VUndef => true
  | VNull, VNull => true
  | VBool x, VBool y => Bool.eqb x y
  | VNum x, VNum y => num_eqb x y
  | VStr x, VStr y => x =s y
  | _, _ => false
  end.

(** SameValueZero, the equality of [Array.prototype.includes] and [Set]: as [===],
    except that NaN equals itself. *)
Definition same_value_zero (a b : value) : bool :=
  match a, b with
  | VNum NNaN, VNum NNaN => true
  | _, _ => strict_eq a b
  end.

Definition includes (l : list value) (v : value) : bool := existsb (fun x => same_value_zero x v) l.

Definition is_str_lit (v : value) (s : string) : bool := strict_eq v (VStr s).

Definition assoc (k : string) (o : list (string * value)) : option value :=
  match List.find (fun kv => fst kv =s k) o with Some (_, v) => Some v | None => None end.

(** [v.k] ([undefined] when absent). *)
Definition get (k : string) (v : value) : value :=
  match v with
  | VObj o => match assoc k o with Some x => x | None => VUndef end
  | _ => VUndef
  end.

(** [Object.prototype.hasOwnProperty.call(v, k)]. *)
Definition has_own (k : string) (v : value) : bool :=
  match v with VObj o => match assoc k o with Some _ => true | None => false end | _ => false end.

(** [Object.keys], [Object.entries]. *)
Definition entries (v : value) : list (string * value) := match v with VObj o => o | _ => [] end.
Definition obj_keys (v : value) : list string := map fst (entries v).

Definition elems (v : value) : list value := match v with VArr l => l | _ => [] end.
Definition str_of (v : value) : string := match v with VStr s => s | _ => "" end.
Definition int_of (v : value) : Z := match v with VNum (NInt z) => z | _ => 0 end.

(** JavaScript truthiness. *)
Definition truthy (v : value) : bool :=
  match v with
  | VUndef | VNull => false
  | VBool b => b
  | VNum n => match n with NInt z => negb (z =? 0) | NNaN => false | _ => true end
  | VStr s => negb (s =s "")
  | VArr _ | VObj _ => true
  end.

(** ** String measures *)

(** [Buffer.byteLength(s, 'utf8')]. *)
Definition byteLen (s : string) : Z := Z.of_nat (String.length s).

Definition is_cont_byte (c : ascii) : bool := ((128 <=? N_of_ascii c) && (N_of_ascii c <? 192))%N.

(** Number of UTF-16 code units: one per code point, two for a four-byte sequence. *)
Fixpoint js_length (s : string) : Z :=
  match s with
  | EmptyString => 0
  | String c r =>
      (if is_cont_byte c then 0 else if (240 <=? N_of_ascii c)%N then 2 else 1) + js_length r
  end.

(** [s.slice(0, n)] for a cut that does not fall inside a surrogate pair; a pair that
    would be cut is dropped whole. *)
Fixpoint utf16_take (n : Z) (s : string) : string :=
  match s with
  | EmptyString => EmptyString
  | String c r =>
      if is_cont_byte c then String c (utf16_take n r)
      else let w := if (240 <=? N_of_ascii c)%N then 2 else 1 in
           if w <=? n then String c (utf16_take (n - w) r) else EmptyString
  end.

(** [s.slice(n)], with the same convention. *)
Fixpoint utf16_drop (n : Z) (s : string) : string :=
  match s with
  | EmptyString => EmptyString
  | String c r =>
      if n <=? 0 then (if is_cont_byte c then utf16_drop n r else s)
      else if is_cont_byte c then utf16_drop n r
      else utf16_drop (n - if (240 <=? N_of_ascii c)%N then 2 else 1) r
  end.

(** The white space and line terminators [String.prototype.trim] removes, matched on
    the bytes: what follows one white-space code point at the head of the list. *)
Definition ws_head (l : list N) : option (list N) :=
  match l with
  | (9 | 10 | 11 | 12 | 13 | 32)%N :: r => Some r
  | 194%N :: 160%N :: r => Some r
  | 225%N :: 154%N :: 128%N :: r => Some r
  | 226%N :: 128%N :: c :: r =>
      if ((128 <=? c) && (c <=? 138) || (c =? 168) || (c =? 169) || (c =? 175))%N then Some r else None
  | 226%N :: 129%N :: 159%N :: r => Some r
  | 227%N :: 128%N :: 128%N :: r => Some r
  | 239%N :: 187%N :: 191%N :: r => Some r
  | _ => None
  end.

(** The same code points with their bytes reversed, for the end of the string. *)
Definition ws_tail (l : list N) : option (list N) :=
  match l with
  | (9 | 10 | 11 | 12 | 13 | 32)%N :: r => Some r
  | 160%N :: 194%N :: r => Some r
  | 128%N :: 154%N :: 225%N :: r => Some r
  | 128%N :: 128%N :: 227%N :: r => Some r
  | 191%N :: 187%N :: 239%N :: r => Some r
  | 159%N :: 129%N :: 226%N :: r => Some r
  | c :: 128%N :: 226%N :: r =>
      if ((128 <=? c) && (c <=? 138) || (c =? 168) || (c =? 169) || (c =? 175))%N then Some r else None
  | _ => None
  end.

Fixpoint drop_while_opt (f : list N -> option (list N)) (fuel : nat) (l : list N) : list N :=
  match fuel with
  | O => l
  | S k => match f l with Some r => drop_while_opt f k r | None => l end
  end.

Definition bytes_of (s : string) : list N := map N_of_ascii (list_ascii_of_string s).
Definition of_bytes (l : list N) : string := string_of_list_ascii (map ascii_of_N l).

(** [s.trim()]. *)
Definition trim (s : string) : string :=
  let l := drop_while_opt ws_head (String.length s) (bytes_of s) in
  of_bytes (rev (drop_while_opt ws_tail (List.length l) (rev l))).

(** [key.toLowerCase().replace(/[^a-z0-9]/g, '')].  The two non-ASCII code points whose
    lower case contains an ASCII letter are U+212A (k) and U+0130 (i). *)
Fixpoint norm_bytes (l : list N) : list N :=
  match l with
  | 226%N :: 132%N :: 170%N :: r => 107%N :: norm_bytes r
  | 196%N :: 176%N :: r => 105%N :: norm_bytes r
  | c :: r =>
      let a := ascii_of_N c in
      if is_upper a then (c + 32)%N :: norm_bytes r
      else if is_lower a || is_digit a then c :: norm_bytes r else norm_bytes r
  | [] => []
  end.
Definition norm_key (s : string) : string := of_bytes (norm_bytes (bytes_of s)).
