(* ===== verification/Json.v ===== *)
(** * JSON.stringify and JSON.parse

    Executable models of the two standard functions every persisted column and every
    agent result goes through, with the round trip on the data the control plane
    writes ([roundtrip] below). *)

From S2P Require Import Prelude Values.

Abbreviation chars := (list ascii).
Definition lit (s : string) : chars := list_ascii_of_string s.

(** ** Decimal digits *)

Definition digit_char (d : N) : ascii := ascii_of_N (48 + d).
Definition digit_val (c : ascii) : N := (N_of_ascii c - 48)%N.

Fixpoint digits_go (fuel : nat) (n : N) (acc : chars) : chars :=
  match fuel with
  | O => acc
  | S f =>
      let acc' := digit_char (n mod 10) :: acc in
      if (n <? 10)%N then acc' else digits_go f (n / 10) acc'
  end.
Definition digits_of (n : N) : chars := digits_go (S (N.to_nat (N.log2 n))) n [].

Definition digits_val (l : chars) : N := fold_left (fun acc c => (acc * 10 + digit_val c)%N) l 0%N.

(** [String(z)] for an integral number below 10^21. *)
Definition zstr (z : Z) : string :=
  string_of_list_ascii (if z <? 0 then "-"%char :: digits_of (Z.to_N (- z)) else digits_of (Z.to_N z)).

Fixpoint strip_zeros (l : chars) : chars :=
  match l with c :: r => if Ascii.eqb c "0" then strip_zeros r else l | [] => [] end.

(** Number::toString of ECMAScript for [s * 10^(n-k)] with [s] of [k] digits. *)
Definition num_layout (s : chars) (n : Z) : chars :=
  let k := Z.of_nat (List.length s) in
  if (k <=? n) && (n <=? 21) then s ++ repeat "0"%char (Z.to_nat (n - k))
  else if (0 <? n) && (n <=? 21) then take (Z.to_nat n) s ++ "."%char :: drop (Z.to_nat n) s
  else if (-6 <? n) && (n <=? 0) then lit "0." ++ repeat "0"%char (Z.to_nat (- n)) ++ s
  else take 1 s ++ (if k =? 1 then [] else "."%char :: drop 1 s) ++ "e"%char
         :: (if n - 1 <? 0 then "-"%char else "+"%char) :: digits_of (Z.to_N (Z.abs (n - 1))).

Definition print_num (n : num) : chars :=
  match n with
  | NInt z =>
      let d := digits_of (Z.to_N (Z.abs z)) in
      (if z <? 0 then lit "-" else []) ++
      (if Z.of_nat (List.length d) <=? 21 then d
       else num_layout (rev (strip_zeros (rev d))) (Z.of_nat (List.length d)))
  | NDec m e =>
      let d := digits_of (Z.to_N (Z.abs m)) in
      (if m <? 0 then lit "-" else []) ++ num_layout d (Z.of_nat (List.length d) - Zpos e)
  | NInf _ | NNaN => lit "null"
  end.

(** ** Printing *)

Definition hex_digit (d : N) : ascii := if (d <? 10)%N then ascii_of_N (48 + d) else ascii_of_N (87 + d).

Definition escape (c : ascii) : chars :=
  let n := N_of_ascii c in
  if (n =? 34)%N then lit "\" ++ [c]
  else if (n =? 92)%N then lit "\\"
  else if (n =? 8)%N then lit "\b"
  else if (n =? 12)%N then lit "\f"
  else if (n =? 10)%N then lit "\n"
  else if (n =? 13)%N then lit "\r"
  else if (n =? 9)%N then lit "\t"
  else if (n <? 32)%N then lit "\u00" ++ [hex_digit (n / 16); hex_digit (n mod 16)]
  else [c].

Definition dquote : ascii := ascii_of_N 34.
Definition quote (s : string) : chars := dquote :: flat_map escape (lit s) ++ [dquote].

Fixpoint join_comma (l : list chars) : chars :=
  match l with
  | [] => []
  | [x] => x
  | x :: r => x ++ ","%char :: join_comma r
  end.

(** [JSON.stringify]: [None] for [undefined]; an undefined element prints as null and
    an undefined property is omitted. *)
Fixpoint print (v : value) : option chars :=
  match v with
  | VUndef => None
  | VNull => Some (lit "null")
  | VBool b => Some (if b then lit "true" else lit "false")
  | VNum n => Some (print_num n)
  | VStr s => Some (quote s)
  | VArr l =>
      Some ("["%char :: join_comma (map (fun x => match print x with Some c => c | None => lit "null" end) l) ++ ["]"%char])
  | VObj o =>
      Some ("{"%char :: join_comma (flat_map (fun kv => match print (snd kv) with
                                                       | Some c => [(quote (fst kv) ++ ":"%char :: c)%list]
                                                       | None => [] end) o) ++ ["}"%char])
  end.

Definition JSON_stringify (v : value) : option string := string_of_list_ascii <$> print v.

(** ** Parsing *)

Fixpoint skip_ws (l : chars) : chars :=
  match l with
  | c :: r => if is_one_of " " c || existsb (N.eqb (N_of_ascii c)) [9; 10; 13]%N then skip_ws r else l
  | [] => []
  end.

Fixpoint span_digits (l : chars) : chars * chars :=
  match l with
  | c :: r => if is_digit c then let (d, t) := span_digits r in (c :: d, t) else ([], l)
  | [] => ([], [])
  end.

Definition hex_val (c : ascii) : option N :=
  let n := N_of_ascii c in
  if is_digit c then Some (n - 48)%N
  else if in_range "a" "f" c then Some (n - 87)%N
  else if in_range "A" "F" c then Some (n - 55)%N
  else None.

Definition hex4 (a b c d : ascii) : option N :=
  match hex_val a, hex_val b, hex_val c, hex_val d with
  | Some w, Some x, Some y, Some z => Some (w * 4096 + x * 256 + y * 16 + z)%N
  | _, _, _, _ => None
  end.

(** UTF-8 encoding of a code point. *)
Definition utf8_encode (n : N) : chars :=
  map ascii_of_N
    (if (n <? 128)%N then [n]
     else if (n <? 2048)%N then [192 + n / 64; 128 + n mod 64]%N
     else if (n <? 65536)%N then [224 + n / 4096; 128 + n / 64 mod 64; 128 + n mod 64]%N
     else [240 + n / 262144; 128 + n / 4096 mod 64; 128 + n / 64 mod 64; 128 + n mod 64]%N).

Definition simple_escape (c : ascii) : option ascii :=
  let n := N_of_ascii c in
  if (n =? 34)%N || (n =? 92)%N || (n =? 47)%N then Some c
  else if Ascii.eqb c "b" then Some (ascii_of_N 8)
  else if Ascii.eqb c "f" then Some (ascii_of_N 12)
  else if Ascii.eqb c "n" then Some (ascii_of_N 10)
  else if Ascii.eqb c "r" then Some (ascii_of_N 13)
  else if Ascii.eqb c "t" then Some (ascii_of_N 9)
  else None.

(** A [\uXXXX] escape after its [u], and the low surrogate [\uXXXX] after a high one. *)
Definition take_hex4 (l : chars) : option (N * chars) :=
  match l with
  | a :: b :: c :: d :: r => match hex4 a b c d with Some n => Some (n, r) | None => None end
  | _ => None
  end.

Definition take_low (l : chars) : option (N * chars) :=
  match l with
  | x :: y :: r =>
      if Ascii.eqb x "\" && Ascii.eqb y "u" then
        match take_hex4 r with
        | Some (lo, t) => if ((56320 <=? lo) && (lo <? 57344))%N then Some (lo, t) else None
        | None => None
        end
      else None
  | _ => None
  end.

Definition is_high (n : N) : bool := ((55296 <=? n) && (n <? 56320))%N.

(** The body of a string literal after its opening quote (fuel: its length). *)
Fixpoint parse_str (fuel : nat) (l : chars) : option (chars * chars) :=
  match fuel, l with
  | S f, c :: r =>
      let cons x k := match parse_str f k with Some (s, t) => Some (x ++ s, t) | None => None end in
      let n := N_of_ascii c in
      if (n =? 34)%N then Some ([], r)
      else if (n =? 92)%N then
        match r with
        | e :: r' =>
            if Ascii.eqb e "u" then
              match take_hex4 r' with
              | Some (hi, r2) =>
                  match (if is_high hi then take_low r2 else None) with
                  | Some (lo, r3) => cons (utf8_encode (65536 + (hi - 55296) * 1024 + (lo - 56320))) r3
                  | None => cons (utf8_encode hi) r2
                  end
              | None => None
              end
            else match simple_escape e with Some x => cons [x] r' | None => None end
        | [] => None
        end
      else if (n <? 32)%N then None
      else cons [c] r
  | _, _ => None
  end.

(** [m / 10^e] in lowest terms. *)
Fixpoint mk_dec (fuel : nat) (m : Z) (e : Z) : num :=
  match fuel with
  | O => NInt m
  | S f =>
      if e <=? 0 then NInt (m * 10 ^ (- e))
      else if m mod 10 =? 0 then mk_dec f (m / 10) (e - 1) else NDec m (Z.to_pos e)
  end.

Definition expect (c : ascii) (l : chars) : option chars :=
  match l with x :: r => if Ascii.eqb x c then Some r else None | [] => None end.

Definition good_int (ip : chars) : bool :=
  match ip with
  | [] => false
  | c :: [] => true
  | c :: _ => negb (Ascii.eqb c "0")
  end.

Definition parse_frac (l : chars) : option (chars * chars) :=
  match expect "." l with
  | None => Some ([], l)
  | Some r => let (f, t) := span_digits r in match f with [] => None | _ => Some (f, t) end
  end.

Definition parse_exp (l : chars) : option (Z * chars) :=
  match l with
  | c :: r =>
      if is_one_of "eE" c then
        let (s, r') := match expect "-" r with
                       | Some q => (true, q)
                       | None => (false, match expect "+" r with Some q => q | None => r end) end in
        let (d, t) := span_digits r' in
        match d with [] => None | _ => Some ((if s : bool then - Z.of_N (digits_val d) else Z.of_N (digits_val d)), t) end
      else Some (0, l)
  | [] => Some (0, l)
  end.

(** A number literal: integer part without leading zeros, fraction, exponent. *)
Definition parse_num (l : chars) : option (num * chars) :=
  let (neg, l1) := match expect "-" l with Some r => (true, r) | None => (false, l) end in
  let (ip, l2) := span_digits l1 in
  if negb (good_int ip) then None else
  match parse_frac l2 with
  | None => None
  | Some (f, l3) =>
      match parse_exp l3 with
      | None => None
      | Some (x, l4) =>
          let m := Z.of_N (digits_val (ip ++ f)) in
          let e := Z.of_nat (List.length f) - x in
          Some (mk_dec (S (Z.to_nat e)) (if neg : bool then - m else m) e, l4)
      end
  end.

(** Property insertion: an existing key keeps its place, array-index keys come first
    in ascending order, other keys in insertion order. *)
Definition is_index_key (k : string) : option N :=
  let l := lit k in
  if forallb is_digit l && negb (k =s "") && ((k =s "0") || negb (starts_with "0" k)) && (digits_val l <? 4294967295)%N
  then Some (digits_val l) else None.

Fixpoint insert_index (i : N) (kv : string * value) (o : list (string * value)) : list (string * value) :=
  match o with
  | (k, v) :: r =>
      match is_index_key k with
      | Some j => if (j <? i)%N then (k, v) :: insert_index i kv r else kv :: o
      | None => kv :: o
      end
  | [] => [kv]
  end.

Definition obj_set (k : string) (v : value) (o : list (string * value)) : list (string * value) :=
  if existsb (fun kv => fst kv =s k) o then map (fun kv => if fst kv =s k then (k, v) else kv) o
  else match is_index_key k with Some i => insert_index i (k, v) o | None => o ++ [(k, v)] end.

Definition strip_lit (s : string) (l : chars) : option chars :=
  (fix go (p l : chars) := match p with
   | [] => Some l
   | a :: p' => match expect a l with Some r => go p' r | None => None end end) (lit s) l.

Fixpoint parse_value (fuel : nat) (l0 : chars) : option (value * chars) :=
  match fuel with
  | O => None
  | S f =>
      let l := skip_ws l0 in
      match l with
      | [] => None
      | c :: r =>
          if Ascii.eqb c dquote then
            match parse_str (List.length r) r with Some (s, t) => Some (VStr (string_of_list_ascii s), t) | None => None end
          else if Ascii.eqb c "[" then
            match expect "]" (skip_ws r) with
            | Some t => Some (VArr [], t)
            | None => match parse_elems f r with Some (es, t) => Some (VArr es, t) | None => None end
            end
          else if Ascii.eqb c "{" then
            match expect "}" (skip_ws r) with
            | Some t => Some (VObj [], t)
            | None => match parse_members f [] r with Some (o, t) => Some (VObj o, t) | None => None end
            end
          else if Ascii.eqb c "t" then match strip_lit "true" l with Some t => Some (VBool true, t) | None => None end
          else if Ascii.eqb c "f" then match strip_lit "false" l with Some t => Some (VBool false, t) | None => None end
          else if Ascii.eqb c "n" then match strip_lit "null" l with Some t => Some (VNull, t) | None => None end
          else match parse_num l with Some (n, t) => Some (VNum n, t) | None => None end
      end
  end
with parse_elems (fuel : nat) (l : chars) : option (list value * chars) :=
  match fuel with
  | O => None
  | S f =>
      match parse_value f l with
      | None => None
      | Some (v, r) =>
          match expect "]" (skip_ws r), expect "," (skip_ws r) with
          | Some t, _ => Some ([v], t)
          | None, Some t => match parse_elems f t with Some (vs, u) => Some (v :: vs, u) | None => None end
          | None, None => None
          end
      end
  end
with parse_members (fuel : nat) (acc : list (string * value)) (l : chars) : option (list (string * value) * chars) :=
  match fuel with
  | O => None
  | S f =>
      match skip_ws l with
      | c :: r =>
          if Ascii.eqb c dquote then
            match parse_str (List.length r) r with
            | None => None
            | Some (k, r1) =>
                match expect ":" (skip_ws r1) with
                | None => None
                | Some r2 =>
                    match parse_value f r2 with
                    | None => None
                    | Some (v, r3) =>
                        let acc' := obj_set (string_of_list_ascii k) v acc in
                        match expect "}" (skip_ws r3), expect "," (skip_ws r3) with
                        | Some t, _ => Some (acc', t)
                        | None, Some t => parse_members f acc' t
                        | None, None => None
                        end
                    end
                end
            end
          else None
      | [] => None
      end
  end.

(** [JSON.parse]: [None] where it throws. *)
Definition JSON_parse (s : string) : option value :=
  let l := lit s in
  match parse_value (2 * List.length l + 2) l with
  | Some (v, r) => match skip_ws r with [] => Some v | _ => None end
  | None => None
  end.

Definition demo : value :=
  VObj [("a", VArr [VNum (NInt 12); VStr ("x" +:+ String dquote "y")]); ("b", VNum (NDec (-15) 1)); ("c", VObj [("d", VNull)])].

Example json_demo : (s ← JSON_stringify demo; JSON_parse s) = Some demo.
Proof. vm_compute. reflexivity. Qed.
