(* ===== verification/JsonProps.v ===== *)
(** * The JSON round trip

    [JSON.parse] inverts [JSON.stringify] on the data the control plane persists:
    everything except [undefined], numbers integral and below 10^21 in magnitude, object
    keys in the order JavaScript enumerates them. *)

From S2P Require Import Prelude Values Json.

(** ** Decimal digits *)

Lemma digit_char_ok (d : N) : (d < 10)%N -> is_digit (digit_char d) = true /\ digit_val (digit_char d) = d.
Proof.
  intros H. assert (d = 0 \/ d = 1 \/ d = 2 \/ d = 3 \/ d = 4 \/ d = 5 \/ d = 6 \/ d = 7 \/ d = 8 \/ d = 9)%N as Hd by lia.
  repeat destruct Hd as [->|Hd]; try (subst; vm_compute; auto).
Qed.

Lemma digit_char_zero (d : N) : (d < 10)%N -> digit_char d = "0"%char -> d = 0%N.
Proof. intros H E. destruct (digit_char_ok d H) as [_ <-]. by rewrite E. Qed.

Lemma digits_go_acc (f : nat) (n : N) (acc : chars) : digits_go f n acc = digits_go f n [] ++ acc.
Proof.
  revert n acc. induction f as [|f IH]; intros n acc; cbn; [done|].
  destruct (n <? 10)%N; [done|]. rewrite (IH _ (_ :: acc)), (IH _ [_]). by rewrite <- app_assoc.
Qed.

Lemma digits_val_snoc (l : chars) (c : ascii) : digits_val (l ++ [c]) = (digits_val l * 10 + digit_val c)%N.
Proof. unfold digits_val. by rewrite fold_left_app. Qed.

Lemma digits_go_S (f : nat) (n : N) :
  digits_go (S f) n [] = (if (n <? 10)%N then [] else digits_go f (n / 10) []) ++ [digit_char (n mod 10)].
Proof. cbn. destruct (n <? 10)%N; [done|]. by rewrite digits_go_acc. Qed.

Lemma div10_bound (n : N) (f : nat) : (n < 2 ^ N.of_nat (S f))%N -> (10 <= n)%N -> (n / 10 < 2 ^ N.of_nat f)%N.
Proof. intros H Hn. rewrite Nat2N.inj_succ, N.pow_succ_r' in H. apply N.Div0.div_lt_upper_bound. lia. Qed.

Lemma digits_go_val (f : nat) (n : N) : (n < 2 ^ N.of_nat f)%N -> digits_val (digits_go f n []) = n.
Proof.
  revert n. induction f as [|f IH]; intros n H; [cbn in H; cbn; lia|].
  rewrite digits_go_S, digits_val_snoc. destruct (digit_char_ok (n mod 10)) as [_ ->]; [by apply N.mod_lt|].
  destruct (n <? 10)%N eqn:E; [apply N.ltb_lt in E; cbn; rewrite N.mod_small by done; done|].
  apply N.ltb_ge in E. rewrite IH by (by apply div10_bound). pose proof (N.div_mod n 10). lia.
Qed.

Lemma digits_go_digits (f : nat) (n : N) : forallb is_digit (digits_go f n []) = true.
Proof.
  revert n. induction f as [|f IH]; intros n; [done|]. rewrite digits_go_S, forallb_app. apply andb_true_intro. split.
  - destruct (n <? 10)%N; [done|apply IH].
  - cbn. rewrite andb_true_r. apply digit_char_ok. by apply N.mod_lt.
Qed.

Lemma digits_go_len (f : nat) (n : N) (k : nat) :
  (n < 10 ^ N.of_nat (S k))%N -> (List.length (digits_go f n []) <= S k)%nat.
Proof.
  revert n k. induction f as [|f IH]; intros n k H; [cbn; lia|]. rewrite digits_go_S, length_app. cbn [List.length].
  destruct (n <? 10)%N eqn:E; [cbn; lia|]. apply N.ltb_ge in E.
  destruct k as [|k]; [cbn in H; lia|]. specialize (IH (n / 10)%N k).
  rewrite Nat2N.inj_succ, N.pow_succ_r' in H. pose proof (N.Div0.div_lt_upper_bound n 10 _ H). specialize (IH ltac:(done)). lia.
Qed.

(** No leading zero, except the literal 0 itself. *)
Lemma digits_go_head (f : nat) (n : N) :
  (n < 2 ^ N.of_nat (S f))%N ->
  exists c r, digits_go (S f) n [] = c :: r /\ is_digit c = true /\ (n = 0%N /\ r = [] \/ c <> "0"%char).
Proof.
  revert n. induction f as [|f IH]; intros n H; rewrite digits_go_S; destruct (n <? 10)%N eqn:E.
  2: { apply N.ltb_ge in E. cbn in H. lia. }
  1,2: apply N.ltb_lt in E; rewrite N.mod_small by done; eexists _, _; split; [done|]; split; [by apply digit_char_ok|];
       destruct (decide (n = 0%N)) as [->|Hn]; [by left|right; intros Hz; by apply Hn, digit_char_zero].
  apply N.ltb_ge in E. destruct (IH (n / 10)%N (div10_bound _ _ H E)) as (c & r & -> & Hc & Hr).
  eexists c, _. split; [done|]. split; [done|]. right. destruct Hr as [[Hr _]|Hr]; [|done].
  apply N.div_small_iff in Hr; lia.
Qed.

Lemma digits_of_bound (n : N) : (n < 2 ^ N.of_nat (S (N.to_nat (N.log2 n))))%N.
Proof.
  rewrite Nat2N.inj_succ, N2Nat.id. destruct (decide (n = 0%N)) as [->|Hn]; [done|]. apply N.log2_spec. lia.
Qed.

Lemma digits_of_val (n : N) : digits_val (digits_of n) = n.
Proof. apply digits_go_val, digits_of_bound. Qed.

Lemma digits_of_digits (n : N) : forallb is_digit (digits_of n) = true.
Proof. apply digits_go_digits. Qed.

Lemma digits_of_good (n : N) : good_int (digits_of n) = true.
Proof.
  destruct (digits_go_head _ _ (digits_of_bound n)) as (c & r & E & _ & H). unfold digits_of. rewrite E. cbn.
  destruct r; [done|]. destruct H as [[_ H]|H]; [done|]. by rewrite (proj2 (Ascii.eqb_neq _ _) H).
Qed.

Lemma digits_of_cons (n : N) : exists c r, digits_of n = c :: r /\ is_digit c = true.
Proof. destruct (digits_go_head _ _ (digits_of_bound n)) as (c & r & E & H & _). by exists c, r. Qed.

(** [String(z)] is injective. *)
Lemma digits_of_inj (a b : N) : digits_of a = digits_of b -> a = b.
Proof. intros H. by rewrite <- (digits_of_val a), <- (digits_of_val b), H. Qed.

Lemma digit_not (c d : ascii) : is_digit c = true -> is_digit d = false -> Ascii.eqb c d = false.
Proof. intros H H'. apply Ascii.eqb_neq. intros ->. congruence. Qed.

(** ** Characters after a printed value: a separator, a closer, a blank or a line feed *)

Definition delim (rest : chars) : Prop :=
  match rest with [] => True | c :: _ => existsb (Ascii.eqb c) [","; "]"; "}"; " "; "010"]%char = true end.

Lemma delim_not (c : ascii) (r : chars) : delim (c :: r) -> is_digit c = false /\ Ascii.eqb c "." = false /\ is_one_of "eE" c = false.
Proof.
  unfold delim. cbn. rewrite !orb_true_iff, !Ascii.eqb_eq. intros H.
  repeat destruct H as [->|H]; try done.
Qed.

Lemma span_digits_app (d rest : chars) : forallb is_digit d = true -> delim rest -> span_digits (d ++ rest) = (d, rest).
Proof.
  intros H Hr. induction d as [|c d IH]; cbn in *.
  - destruct rest as [|c r]; [done|]. cbn. by destruct (delim_not _ _ Hr) as [-> _].
  - apply andb_true_iff in H as [-> H]. by rewrite IH.
Qed.

Lemma parse_digits (n : N) (rest : chars) (neg : bool) : delim rest ->
  (let (ip, l2) := span_digits (digits_of n ++ rest) in
   if negb (good_int ip) then None else
   match parse_frac l2 with
   | None => None
   | Some (f, l3) =>
       match parse_exp l3 with
       | None => None
       | Some (x, l4) =>
           let m := Z.of_N (digits_val (ip ++ f)) in
           let e := Z.of_nat (List.length f) - x in
           Some (mk_dec (S (Z.to_nat e)) (if neg : bool then - m else m) e, l4)
       end
   end) = Some (NInt (if neg then - Z.of_N n else Z.of_N n), rest).
Proof.
  intros Hr. rewrite span_digits_app by (done || apply digits_of_digits). rewrite digits_of_good. cbn [negb].
  assert (parse_frac rest = Some ([], rest)) as ->.
  { unfold parse_frac, expect. destruct rest as [|c r]; [done|]. by destruct (delim_not _ _ Hr) as (_ & -> & _). }
  assert (parse_exp rest = Some (0, rest)) as ->.
  { unfold parse_exp. destruct rest as [|c r]; [done|]. by destruct (delim_not _ _ Hr) as (_ & _ & ->). }
  rewrite app_nil_r, digits_of_val. cbn. f_equal. f_equal. f_equal. destruct neg; lia.
Qed.

Lemma parse_num_print (z : Z) (rest : chars) : Z.abs z < 10 ^ 21 -> delim rest ->
  parse_num (print_num (NInt z) ++ rest) = Some (NInt z, rest).
Proof.
  intros Hz Hr. unfold print_num.
  assert (Z.of_nat (List.length (digits_of (Z.to_N (Z.abs z)))) <=? 21 = true) as ->.
  { apply Z.leb_le. assert (List.length (digits_of (Z.to_N (Z.abs z))) <= 21)%nat; [|lia]. apply digits_go_len. cbn. lia. }
  unfold parse_num. destruct (z <? 0) eqn:E; bsimpl.
  - change ((lit "-" ++ digits_of (Z.to_N (Z.abs z))) ++ rest) with ("-"%char :: digits_of (Z.to_N (Z.abs z)) ++ rest).
    unfold expect. cbn [Ascii.eqb]. rewrite Ascii.eqb_refl.
    etransitivity; [apply (parse_digits _ _ true Hr)|]. f_equal. f_equal. f_equal. lia.
  - cbn [app]. assert (expect "-" (digits_of (Z.to_N (Z.abs z)) ++ rest) = None) as ->.
    { destruct (digits_of_cons (Z.to_N (Z.abs z))) as (c & r & -> & Hc). cbn. by rewrite (digit_not _ _ Hc). }
    etransitivity; [apply (parse_digits _ _ false Hr)|]. f_equal. f_equal. f_equal. lia.
Qed.

(** ** Strings *)

Lemma parse_str_escape (c : ascii) (f : nat) (k : chars) :
  parse_str (S f) (escape c ++ k) = match parse_str f k with Some (s, t) => Some (c :: s, t) | None => None end.
Proof. destruct c as [[] [] [] [] [] [] [] []]; reflexivity. Qed.

Lemma parse_str_quote (l : chars) (f : nat) (rest : chars) : (List.length l < f)%nat ->
  parse_str f (flat_map escape l ++ dquote :: rest) = Some (l, rest).
Proof.
  revert f. induction l as [|c l IH]; intros [|f] H; cbn in H; try lia; [done|].
  cbn [flat_map]. rewrite <- app_assoc, parse_str_escape, IH by lia. done.
Qed.

Lemma escape_len (c : ascii) : (1 <= List.length (escape c))%nat.
Proof. apply Nat.leb_le. by destruct c as [[] [] [] [] [] [] [] []]. Qed.

Lemma flat_escape_len (l : chars) : (List.length l <= List.length (flat_map escape l))%nat.
Proof. induction l as [|c l IH]; cbn; [lia|]. rewrite length_app. pose proof (escape_len c). lia. Qed.

Lemma parse_quoted (s : string) (rest : chars) :
  parse_str (List.length (flat_map escape (lit s) ++ dquote :: rest)) (flat_map escape (lit s) ++ dquote :: rest) = Some (lit s, rest).
Proof. apply parse_str_quote. rewrite length_app. cbn. pose proof (flat_escape_len (lit s)). lia. Qed.

Lemma lit_id (s : string) : string_of_list_ascii (lit s) = s.
Proof. apply string_of_list_ascii_of_string. Qed.

(** ** Values *)

(** Keys in the order JavaScript enumerates them: adding a property puts it last. *)
Fixpoint in_order (acc o : list (string * value)) : Prop :=
  match o with
  | [] => True
  | (k, v) :: r => obj_set k v acc = acc ++ [(k, v)] /\ in_order (acc ++ [(k, v)]) r
  end.

(** The data that is persisted as JSON. *)
Fixpoint json_data (v : value) : Prop :=
  match v with
  | VUndef => False
  | VNull | VBool _ | VStr _ => True
  | VNum (NInt z) => Z.abs z < 10 ^ 21
  | VNum _ => False
  | VArr l => (fix go (l : list value) : Prop := match l with [] => True | x :: r => json_data x /\ go r end) l
  | VObj o =>
      in_order [] o
      /\ (fix go (o : list (string * value)) : Prop := match o with [] => True | (k, x) :: r => json_data x /\ go r end) o
  end.

Lemma json_data_arr (l : list value) : json_data (VArr l) <-> Forall json_data l.
Proof. cbn. induction l as [|x l IH]; [by split|]. rewrite Forall_cons, <- IH. done. Qed.

Lemma json_data_obj (o : list (string * value)) : json_data (VObj o) <-> in_order [] o /\ Forall (fun kv => json_data (snd kv)) o.
Proof.
  cbn. assert ((fix go (o : list (string * value)) : Prop := match o with [] => True | (k, x) :: r => json_data x /\ go r end) o
    <-> Forall (fun kv => json_data (snd kv)) o) as ->; [|done].
  induction o as [|[k x] o IH]; [by split|]. rewrite Forall_cons, <- IH. done.
Qed.

(** Fuel a value needs. *)
Fixpoint need (v : value) : nat :=
  match v with
  | VArr l => S ((fix go (l : list value) : nat := match l with [] => O | x :: r => S (need x) + go r end) l)%nat
  | VObj o => S ((fix go (o : list (string * value)) : nat := match o with [] => O | (_, x) :: r => S (need x) + go r end) o)%nat
  | _ => 1%nat
  end.

Definition needs (l : list value) : nat := fold_right (fun x a => S (need x) + a)%nat O l.

Lemma need_arr (l : list value) : need (VArr l) = S (needs l).
Proof. reflexivity. Qed.
Lemma need_obj (o : list (string * value)) : need (VObj o) = S (needs (map snd o)).
Proof. cbn. f_equal. induction o as [|[k x] o IH]; cbn; [done|]. by rewrite IH. Qed.

(** The first character of a printed value: no white space, no closing bracket. *)
Definition opener (c : ascii) : Prop := forall r, skip_ws (c :: r) = c :: r /\ expect "]" (c :: r) = None /\ expect "}" (c :: r) = None.

Lemma opener_digit (c : ascii) : is_digit c = true -> opener c.
Proof. destruct c as [[] [] [] [] [] [] [] []]; intros H; try discriminate H; by intros r. Qed.

Definition pr (v : value) : chars := match print v with Some c => c | None => lit "null" end.

Lemma pr_opener (v : value) : json_data v -> print v = Some (pr v) /\ exists c r, pr v = c :: r /\ opener c.
Proof.
  unfold pr. destruct v as [| |[]|[z| | |]|s|l|o]; intros H; try done; (split; [done|]);
    try (eexists _, _; split; [cbn; reflexivity|]; by intros r).
  cbn [print].
  unfold print_num. destruct (digits_of_cons (Z.to_N (Z.abs z))) as (c & r & E & Hc). cbn in H.
  assert (Z.of_nat (List.length (digits_of (Z.to_N (Z.abs z)))) <=? 21 = true) as ->.
  { apply Z.leb_le. assert (List.length (digits_of (Z.to_N (Z.abs z))) <= 21)%nat; [|lia]. apply digits_go_len. cbn. lia. }
  rewrite E. destruct (z <? 0); eexists _, _; (split; [done|]); [by intros r'|by apply opener_digit].
Qed.

(** Printed elements and members. *)
Definition member (kv : string * value) : chars := quote (fst kv) ++ ":"%char :: pr (snd kv).

Lemma print_arr (l : list value) : pr (VArr l) = "["%char :: join_comma (map pr l) ++ ["]"%char].
Proof. done. Qed.

Lemma print_obj (o : list (string * value)) : Forall (fun kv => json_data (snd kv)) o ->
  pr (VObj o) = "{"%char :: join_comma (map member o) ++ ["}"%char].
Proof.
  intros H. unfold pr at 1. cbn. do 2 f_equal. f_equal. induction H as [|[k x] o Hx _ IH]; [done|].
  cbn in *. destruct (pr_opener x Hx) as [-> _]. cbn. by rewrite IH.
Qed.

Definition parses (v : value) : Prop :=
  forall fuel rest, (need v <= fuel)%nat -> delim rest -> parse_value fuel (pr v ++ rest) = Some (v, rest).

Lemma join_two (a b : chars) (r : list chars) : join_comma (a :: b :: r) = a ++ ","%char :: join_comma (b :: r).
Proof. done. Qed.

Lemma needs_cons (x : value) (l : list value) : needs (x :: l) = S (need x + needs l).
Proof. done. Qed.

(** Punctuation is not white space. *)
Lemma skip_punct (c : ascii) (l : chars) : In c [dquote; ":"; ","; "]"; "}"; "["; "{"]%char -> skip_ws (c :: l) = c :: l.
Proof. intros H. cbn in H. by repeat destruct H as [<-|H]. Qed.

Lemma expect_eq (c : ascii) (l : chars) : expect c (c :: l) = Some l.
Proof. unfold expect. by rewrite Ascii.eqb_refl. Qed.

Lemma expect_ne (c d : ascii) (l : chars) : Ascii.eqb d c = false -> expect c (d :: l) = None.
Proof. unfold expect. by intros ->. Qed.

Ltac punct := repeat first [rewrite skip_punct by (cbn; tauto) | rewrite expect_eq | rewrite expect_ne by reflexivity].

Lemma quote_app (k : string) (r : chars) : quote k ++ r = dquote :: flat_map escape (lit k) ++ dquote :: r.
Proof. unfold quote. cbn. by rewrite <- app_assoc. Qed.

(** White space that may stand before a token and before a closing bracket. *)
Definition blank (w : chars) : Prop := forall l, skip_ws (w ++ l) = skip_ws l /\ (delim l -> delim (w ++ l)).

Lemma blank_nil : blank [].
Proof. by intros l. Qed.
#[local] Hint Resolve blank_nil : core.

Lemma parse_value_blank (fuel : nat) (w l : chars) : blank w -> parse_value fuel (w ++ l) = parse_value fuel l.
Proof. intros Hw. destruct fuel as [|f]; [done|]. cbn [parse_value]. by rewrite (proj1 (Hw l)). Qed.

(** Lists of elements and members read back, for any layout: the text [T x] reads as
    [W x], tokens are preceded by [pre], values of members by [sep], closers by [post]. *)
Section Layout.
Context (T : value -> chars) (W : value -> value) (pre sep post : chars).
Context (Hpre : blank pre) (Hsep : blank sep) (Hpost : blank post).

Definition reads (x : value) : Prop :=
  forall fuel rest, (need x <= fuel)%nat -> delim rest -> parse_value fuel (T x ++ rest) = Some (W x, rest).

Definition laid_member (kv : string * value) : chars := pre ++ quote (fst kv) ++ ":"%char :: sep ++ T (snd kv).
Definition set_member (acc : list (string * value)) (kv : string * value) : list (string * value) := obj_set (fst kv) (W (snd kv)) acc.

Lemma after_value (c : ascii) (l : chars) : In c ["]"; "}"]%char -> delim (post ++ c :: l) /\ skip_ws (post ++ c :: l) = c :: l.
Proof.
  intros Hc. rewrite (proj1 (Hpost _)), skip_punct by (cbn in *; tauto). split; [|done]. apply Hpost. cbn in Hc. by repeat destruct Hc as [<-|Hc].
Qed.

Lemma read_elems (l : list value) (x : value) (rest : chars) :
  Forall reads (x :: l) -> forall fuel, (needs (x :: l) <= fuel)%nat ->
  parse_elems fuel (join_comma (map (fun y => pre ++ T y) (x :: l)) ++ post ++ "]"%char :: rest) = Some (map W (x :: l), rest).
Proof.
  revert x. induction l as [|y l IH]; intros x Hp fuel Hf; inversion Hp as [|? ? Px Pl]; subst; rewrite !needs_cons in Hf;
    (destruct fuel as [|f]; [lia|]); cbn [parse_elems].
  - cbn [map join_comma]. destruct (after_value "]" rest) as [Hd Hs]; [cbn; tauto|].
    rewrite <- app_assoc, parse_value_blank, (Px f) by (done || lia). rewrite Hs. punct. done.
  - change (map (fun y => pre ++ T y) (x :: y :: l)) with ((pre ++ T x) :: (pre ++ T y) :: map (fun y => pre ++ T y) l).
    rewrite join_two, <- !app_assoc. cbn [app]. rewrite parse_value_blank, (Px f) by (done || lia).
    change ((pre ++ T y) :: map (fun y => pre ++ T y) l) with (map (fun y => pre ++ T y) (y :: l)). punct.
    rewrite (IH y) by (done || (rewrite needs_cons; lia)). done.
Qed.

(** One member, up to the character after its value. *)
Lemma read_one_member (f : nat) (acc : list (string * value)) (k : string) (x : value) (rest : chars) :
  reads x -> (need x <= f)%nat -> delim rest ->
  parse_members (S f) acc (laid_member (k, x) ++ rest) =
  match expect "}" (skip_ws rest), expect "," (skip_ws rest) with
  | Some t, _ => Some (set_member acc (k, x), t)
  | None, Some t => parse_members f (set_member acc (k, x)) t
  | None, None => None
  end.
Proof.
  intros Px Hf Hr. unfold laid_member. cbn [fst snd]. rewrite <- !app_assoc, quote_app. cbn [parse_members]. rewrite (proj1 (Hpre _)). punct.
  rewrite Ascii.eqb_refl, parse_quoted. cbn [app]. punct. rewrite <- app_assoc, parse_value_blank, (Px f rest) by (done || lia). by rewrite lit_id.
Qed.

Lemma read_members (o : list (string * value)) (k : string) (x : value) (rest : chars) :
  forall acc fuel, Forall (fun kv => reads (snd kv)) ((k, x) :: o) -> (needs (map snd ((k, x) :: o)) <= fuel)%nat ->
  parse_members fuel acc (join_comma (map laid_member ((k, x) :: o)) ++ post ++ "}"%char :: rest) = Some (fold_left set_member ((k, x) :: o) acc, rest).
Proof.
  revert k x. induction o as [|[k' y] o IH]; intros k x acc fuel Hp Hf; inversion Hp as [|? ? Px Pl]; subst;
    cbn [map snd] in Hf, Px; rewrite !needs_cons in Hf; (destruct fuel as [|f]; [lia|]).
  - cbn [map join_comma]. destruct (after_value "}" rest) as [Hd Hs]; [cbn; tauto|]. rewrite read_one_member by (done || lia). rewrite Hs. by punct.
  - change (map laid_member ((k, x) :: (k', y) :: o)) with (laid_member (k, x) :: laid_member (k', y) :: map laid_member o).
    rewrite join_two, <- app_assoc. cbn [app]. rewrite read_one_member by (done || lia). punct.
    change (laid_member (k', y) :: map laid_member o) with (map laid_member ((k', y) :: o)).
    rewrite IH; [done|done|]. cbn [map snd]. rewrite needs_cons. lia.
Qed.
End Layout.

Lemma in_order_fold (o acc : list (string * value)) : in_order acc o -> fold_left (set_member (fun x => x)) o acc = acc ++ o.
Proof.
  revert acc. induction o as [|[k x] o IH]; intros acc H; cbn [fold_left]; [by rewrite app_nil_r|]. destruct H as [Hk H].
  change (set_member _ acc (k, x)) with (obj_set k x acc). rewrite Hk, IH by done. by rewrite <- app_assoc.
Qed.

Lemma parse_elems_print (l : list value) (x : value) (rest : chars) :
  Forall parses (x :: l) -> forall fuel, (needs (x :: l) <= fuel)%nat ->
  parse_elems fuel (join_comma (map pr (x :: l)) ++ "]"%char :: rest) = Some (x :: l, rest).
Proof. intros H fuel Hf. pose proof (read_elems pr (fun v => v) [] [] blank_nil blank_nil l x rest H fuel Hf) as E. by rewrite map_id in E. Qed.

Lemma parse_members_print (o : list (string * value)) (k : string) (x : value) (rest : chars) :
  forall fuel, in_order [] ((k, x) :: o) -> Forall (fun kv => parses (snd kv)) ((k, x) :: o) ->
  (needs (map snd ((k, x) :: o)) <= fuel)%nat ->
  parse_members fuel [] (join_comma (map member ((k, x) :: o)) ++ "}"%char :: rest) = Some ((k, x) :: o, rest).
Proof.
  intros fuel Ho Hp Hf. pose proof (read_members pr (fun v => v) [] [] [] blank_nil blank_nil blank_nil o k x rest [] fuel Hp Hf) as E.
  by rewrite in_order_fold in E.
Qed.

Lemma pr_opener_elems (l : list value) (x : value) (r : chars) : json_data x ->
  exists c q, join_comma (map pr (x :: l)) ++ r = c :: q /\ opener c.
Proof.
  intros Hx. destruct (pr_opener x Hx) as (_ & c & q & E & Hc). destruct l as [|y l]; cbn; rewrite E; cbn; eauto.
Qed.

Lemma pr_opener_members (o : list (string * value)) (kv : string * value) (r : chars) :
  exists q, join_comma (map member (kv :: o)) ++ r = dquote :: q.
Proof. destruct o as [|kv' o]; cbn; eauto. Qed.

Lemma parse_value_num (f : nat) (c : ascii) (l : chars) (n : num) (t : chars) :
  opener c -> parse_num (c :: l) = Some (n, t) -> parse_value (S f) (c :: l) = Some (VNum n, t).
Proof.
  intros Hc H. assert (Ascii.eqb c "-" || is_digit c = true) as Hn.
  { unfold parse_num, expect in H. destruct (Ascii.eqb c "-"); [done|]. cbn in H. by destruct (is_digit c). }
  cbn [parse_value]. rewrite (proj1 (Hc _)).
  destruct c as [[] [] [] [] [] [] [] []]; try discriminate Hn; cbn [Ascii.eqb]; rewrite ?H;
    repeat match goal with |- context [Ascii.eqb ?a ?b] => change (Ascii.eqb a b) with false end; done.
Qed.

Lemma value_parses (v : value) : json_data v -> parses v.
Proof.
  induction v as [| |b|n|s|l IH|o IH] using value_ind'; intros Hd fuel rest Hf Hr; try done;
    (destruct fuel as [|f]; [cbn in Hf; lia|]).
  - done.
  - by destruct b.
  - destruct n as [z| | |]; try done. destruct (pr_opener (VNum (NInt z)) Hd) as (_ & c & q & E & Hc).
    rewrite E. cbn [app]. apply parse_value_num; [done|].
    change (c :: q ++ rest) with ((c :: q) ++ rest). rewrite <- E. apply parse_num_print; done.
  - change (pr (VStr s)) with (quote s). rewrite quote_app. cbn [parse_value]. punct.
    rewrite Ascii.eqb_refl, parse_quoted. by rewrite lit_id.
  - rewrite need_arr in Hf. apply json_data_arr in Hd. rewrite print_arr. cbn [app]. rewrite <- app_assoc. cbn [parse_value]. punct.
    change (Ascii.eqb "[" dquote) with false. change (Ascii.eqb "[" "[") with true. cbv iota. cbn [app].
    destruct l as [|x l]; [done|]. inversion Hd; subst.
    destruct (pr_opener_elems l x ("]"%char :: rest)) as (c & q & E & Hc); [done|]. rewrite E, (proj1 (Hc q)), (proj1 (proj2 (Hc q))), <- E.
    rewrite parse_elems_print; [done| |lia]. rewrite Forall_forall in *. auto.
  - rewrite need_obj in Hf. apply json_data_obj in Hd as [Ho Hd]. rewrite print_obj by done. cbn [app]. rewrite <- app_assoc. cbn [parse_value]. punct.
    change (Ascii.eqb "{" dquote) with false. change (Ascii.eqb "{" "[") with false. change (Ascii.eqb "{" "{") with true. cbv iota. cbn [app].
    destruct o as [|[k x] o]; [done|].
    destruct (pr_opener_members o (k, x) ("}"%char :: rest)) as (q & E). rewrite E. punct. rewrite <- E.
    rewrite parse_members_print; [done|done| |lia]. rewrite Forall_forall in *. auto.
Qed.

(** ** The fuel of [JSON_parse] is enough *)

(** Length of the segments with one separator each. *)
Fixpoint seg_len (l : list chars) : nat := match l with [] => O | c :: r => S (List.length c + seg_len r) end.

Lemma join_len (l : list chars) : (List.length (join_comma l) = seg_len l - 1)%nat.
Proof.
  induction l as [|a [|b l] IH]; [done|cbn; lia|]. rewrite join_two, length_app. cbn [List.length]. rewrite IH. cbn. lia.
Qed.

Lemma needs_len (l : list value) (f : value -> chars) :
  Forall (fun v => (need v <= 2 * List.length (f v))%nat) l ->
  (needs l <= 2 * seg_len (map f l))%nat.
Proof. induction 1 as [|x l Hx _ IH]; [done|]. rewrite needs_cons. cbn. lia. Qed.

Lemma need_len (v : value) : json_data v -> (need v <= 2 * List.length (pr v))%nat.
Proof.
  induction v as [| |b|n|s|l IH|o IH] using value_ind'; intros Hd; try done.
  - cbn. lia.
  - destruct b; cbn; lia.
  - destruct (pr_opener (VNum n) Hd) as (_ & c & q & E & _). rewrite E. cbn. lia.
  - cbn. lia.
  - apply json_data_arr in Hd. rewrite need_arr, print_arr. cbn [List.length]. rewrite length_app, join_len. cbn [List.length].
    pose proof (needs_len l pr) as H. specialize (H ltac:(rewrite Forall_forall in *; auto)).
    destruct l; [cbn; lia|]. cbn in *. lia.
  - apply json_data_obj in Hd as [_ Hd]. rewrite need_obj, print_obj by done. cbn [List.length]. rewrite length_app, join_len. cbn [List.length].
    assert (needs (map snd o) <= 2 * seg_len (map member o))%nat as H.
    { clear -IH Hd. induction IH as [|[k x] o Hx _ IH']; [done|]. inversion Hd; subst. cbn [map snd] in *. rewrite needs_cons.
      cbn [seg_len]. unfold member at 1. rewrite length_app. cbn [List.length fst snd]. specialize (Hx ltac:(done)). specialize (IH' ltac:(done)). lia. }
    destruct o; [cbn; lia|]. cbn [map seg_len] in *. lia.
Qed.

Lemma JSON_roundtrip (v : value) : json_data v -> exists s, JSON_stringify v = Some s /\ JSON_parse s = Some v.
Proof.
  intros Hd. destruct (pr_opener v Hd) as [E _]. unfold JSON_stringify. rewrite E. eexists. split; [done|].
  unfold JSON_parse, lit. rewrite list_ascii_of_string_of_list_ascii.
  pose proof (value_parses v Hd (2 * List.length (pr v) + 2)%nat [] ltac:(pose proof (need_len v Hd); lia) I) as H.
  rewrite app_nil_r in H. rewrite H. done.
Qed.

(** ** [String(z)] *)

Lemma zstr_digits (z : Z) : forallb (fun c => is_digit c || Ascii.eqb c "-") (lit (zstr z)) = true.
Proof.
  assert (forall n, forallb (fun c => is_digit c || Ascii.eqb c "-") (digits_of n) = true) as H.
  { intros n. apply forallb_forall. intros c Hc. by rewrite (proj1 (forallb_forall _ _) (digits_of_digits n) c Hc). }
  unfold zstr, lit. rewrite list_ascii_of_string_of_list_ascii. destruct (z <? 0); [|apply H]. cbn [forallb]. by rewrite H.
Qed.

Lemma zstr_inj (a b : Z) : zstr a = zstr b -> a = b.
Proof.
  unfold zstr. intros H. apply (f_equal lit) in H. unfold lit in H. rewrite !list_ascii_of_string_of_list_ascii in H.
  destruct (digits_of_cons (Z.to_N a)) as (c & r & E & Hc). destruct (digits_of_cons (Z.to_N b)) as (d & q & F & Hd).
  destruct (a <? 0) eqn:Ha, (b <? 0) eqn:Hb; bsimpl.
  - injection H as H. apply digits_of_inj in H. lia.
  - rewrite F in H. injection H as <- _. discriminate Hd.
  - rewrite E in H. injection H as -> _. discriminate Hc.
  - apply digits_of_inj in H. lia.
Qed.
