(* ===== verification/Contract.v ===== *)
(** * The workflow contract (src/workflow/contract.ts)

    The vocabulary of a workflow specification: identifier grammars, the closed sets of
    operators, terminal targets, evidence types and events, the limit maxima, and the
    pure helpers over them. *)

From S2P Require Import Prelude Values.

(** [SAFE_ID_RE], [NODE_ID_RE]. *)
Definition SAFE_ID_RE (s : string) : bool :=
  re_ident (fun c => is_lower c || is_digit c) (fun c => is_lower c || is_digit c || is_one_of "_-" c) 63 s.
Definition NODE_ID_RE (s : string) : bool :=
  re_ident (fun c => is_alpha c || is_digit c) (fun c => is_alpha c || is_digit c || is_one_of "._-" c) 127 s.

Definition MAX_ENUM_VALUES : Z := 64.
Definition MAX_ENUM_VALUE_LENGTH : Z := 128.

Definition CONDITION_OPS : list string := ["eq"; "neq"; "exists"; "in"].
Definition TERMINAL_TARGETS : list string := ["$complete"; "$failed"; "$blocked"].

Definition LIMIT_MAXIMA (key : string) : Z :=
  if key =s "max_rounds" then 100
  else if key =s "max_tasks" then 1000
  else if key =s "max_runtime_seconds" then 86400
  else if key =s "max_step_attempts" then 20
  else 100. (* max_failures *)

Definition EVIDENCE_TYPES : list string :=
  ["task_status"; "exit_code"; "content_hash"; "workspace_revision"; "changed_files"; "tests_passed"].
Definition STALL_SIGNALS : list string :=
  ["planner_next_step"; "remaining_work"; "workspace_revision"; "verified_evidence"].

Definition KNOWN_SPEC_FIELDS : list string :=
  ["version"; "name"; "description"; "entry_step"; "inputs"; "agents"; "output_schemas"; "limits";
   "steps"; "edges"; "completion_policy"; "stall_policy"].

(** Terminal statuses: [blocked] and the [waiting_*] pauses are resumable. *)
Definition TERMINAL_WORKFLOW_STATUSES : list string := ["completed"; "failed"; "cancelled"].
Definition TERMINAL_STEP_STATUSES : list string := ["completed"; "failed"; "skipped"; "cancelled"].
Definition isTerminalWorkflowStatus (s : string) : bool := s ∈b TERMINAL_WORKFLOW_STATUSES.
Definition isTerminalStepStatus (s : string) : bool := s ∈b TERMINAL_STEP_STATUSES.

(** May a loop edge be taken at [currentRound] under [maxRounds]? *)
Definition canTakeLoopEdge (currentRound maxRounds : num) : bool :=
  match currentRound, maxRounds with
  | NInt c, NInt m => c <? m
  | _, _ => false
  end.

Definition terminalTargetToStatus (t : string) : option string :=
  if t =s "$complete" then Some "completed"
  else if t =s "$failed" then Some "failed"
  else if t =s "$blocked" then Some "blocked"
  else None.

Definition isTerminalTarget (to : string) : bool := to ∈b TERMINAL_TARGETS.

Definition WORKFLOW_EVENT_TYPES : list string :=
  ["workflow.created"; "workflow.validated"; "workflow.started"; "step.started"; "step.task_created";
   "step.completed"; "step.failed"; "edge.selected"; "workflow.round_advanced"; "workflow.blocked";
   "workflow.paused"; "workflow.resumed"; "workflow.completed"; "workflow.failed"; "workflow.cancelled"].

Definition STEP_SCOPED_EVENT_TYPES : list string :=
  ["step.started"; "step.task_created"; "step.completed"; "step.failed"].
Definition isStepScopedEvent (t : string) : bool := t ∈b STEP_SCOPED_EVENT_TYPES.

Definition CONTEXT_GROUPS : list string := ["latest_planner_decision"; "latest_executor_handoff"].
Definition CONTEXT_PLANNER_FIELDS : list string :=
  ["status"; "summary"; "next_step"; "acceptance_criteria"; "open_questions"].
Definition CONTEXT_EXECUTOR_FIELDS : list string :=
  ["status"; "summary"; "changed_files"; "tests_run"; "remaining_work"; "risks"].
Definition CONTEXT_FIELDS (group : string) : list string :=
  if group =s "latest_planner_decision" then CONTEXT_PLANNER_FIELDS
  else if group =s "latest_executor_handoff" then CONTEXT_EXECUTOR_FIELDS
  else [].

Definition compileResultRequiresApproval (r : value) : bool := strict_eq (get "requires_user_approval" r) (VBool true).

(** A reserved target is never a step identifier: steps match [SAFE_ID_RE], which has no
    dollar sign, so an edge target is a step or a terminal, never both. *)
Lemma safe_id_not_terminal (s : string) : SAFE_ID_RE s = true -> isTerminalTarget s = false.
Proof.
  intros H. apply str_in_false. intros Hin. cbn in Hin.
  by repeat (destruct Hin as [<- | Hin]; [done|]).
Qed.

(** Step identifiers are dot-free (the separator of step execution ids). *)
Lemma safe_id_no_dot (s : string) : SAFE_ID_RE s = true -> all_chars (fun c => negb (Ascii.eqb c ".")) s = true.
Proof.
  destruct s as [|c r]; [done|]. cbn. intros H. bsimpl.
  apply andb_true_intro. split.
  - destruct (Ascii.eqb c ".") eqn:E; [|done]. apply Ascii.eqb_eq in E. by subst.
  - apply forallb_forall. intros x Hx. unfold all_chars in *.
    pose proof (proj1 (forallb_forall _ _) H1 x Hx) as Hc. cbn in Hc.
    destruct (Ascii.eqb x ".") eqn:E; [|done]. apply Ascii.eqb_eq in E. by subst.
Qed.
