(* ===== verification/Conditions.v ===== *)
(** * Edge conditions and edge selection (src/workflow/conditions.ts, routing.ts)

    A condition is the structured value [{ path, op, value }]; [checkConditionShape] is
    the validator's view of it and [evaluateCondition] the runtime's.  [selectEdge] picks
    the one outgoing edge of a completed step. *)

From S2P Require Import Prelude Values Contract.

(** ** Conditions *)

Inductive cond_namespace : Type := NsOutput | NsWorkflow.

(** [OUTPUT_PATH_RE], [WORKFLOW_PATH_RE]. *)
Definition parseConditionPath (path : string) : option (cond_namespace * string) :=
  match strip_prefix "output." path with
  | Some f => if is_field_name f then Some (NsOutput, f) else None
  | None => if path =s "workflow.round" then Some (NsWorkflow, "round") else None
  end.

Definition isScalar (v : value) : bool := isStr v || isNumber v || isBool v.

(** Issue codes of a condition's shape; empty when it is well formed. *)
Definition checkConditionShape (cond : value) : list string :=
  if negb (isObj cond) then ["condition_not_object"] else
  let path := get "path" cond in
  let op := get "op" cond in
  let v := get "value" cond in
  (if negb (isStr path) || match parseConditionPath (str_of path) with None => true | Some _ => false end
   then ["condition_bad_path"] else []) ++
  (if negb (isStr op) || negb (str_of op ∈b CONDITION_OPS) then ["condition_unsupported_op"]
   else if str_of op =s "exists" then (if negb (is_undef v) then ["condition_exists_takes_no_value"] else [])
   else if str_of op =s "in" then
     (if negb (isArr v) || (match elems v with [] => true | _ => false end) || negb (forallb isScalar (elems v))
      then ["condition_in_needs_scalar_array"] else [])
   else (if negb (isScalar v) then ["condition_needs_scalar_value"] else [])) ++
  flat_map (fun k => if k ∈b ["path"; "op"; "value"] then [] else ["condition_unknown_field"]) (obj_keys cond).

(** Resolve a path: [None] is [found: false]. *)
Definition resolveConditionValue (path : string) (output : value) (round : Z) : option value :=
  match parseConditionPath path with
  | None => None
  | Some (NsWorkflow, _) => Some (VNum (NInt round))
  | Some (NsOutput, key) => if has_own key output then Some (get key output) else None
  end.

Definition evaluateCondition (cond : value) (output : value) (round : Z) : bool :=
  let r := resolveConditionValue (str_of (get "path" cond)) output round in
  let found := match r with Some _ => true | None => false end in
  let v := match r with Some v => v | None => VUndef end in
  let cv := get "value" cond in
  let op := get "op" cond in
  if is_str_lit op "exists" then found && negb (is_nullish v)
  else if is_str_lit op "eq" then found && strict_eq v cv
  else if is_str_lit op "neq" then negb (found && strict_eq v cv)
  else if is_str_lit op "in" then found && isArr cv && includes (elems cv) v
  else false.

(** ** Edge selection *)

Inductive routing_result : Type :=
  | RouteTo (terminal : bool) (target : string) (edgeKind : string)
  | RoutingNoEdge
  | RoutingAmbiguous.

Definition has_condition (e : value) : bool := negb (is_undef (get "condition" e)).

Definition outgoing_edges (spec : value) (from : string) : list value :=
  List.filter (fun e => is_str_lit (get "from" e) from) (elems (get "edges" spec)).

Definition matched_conditional (es : list value) (output : value) (round : Z) : list value :=
  List.filter (fun e => has_condition e && evaluateCondition (get "condition" e) output round) es.

Definition fallback_edges (es : list value) : list value := List.filter (fun e => negb (has_condition e)) es.

Definition route_of (e : value) : routing_result :=
  let target := str_of (get "to" e) in
  RouteTo (isTerminalTarget target) target (str_of (get "kind" e)).

Definition selectEdge (spec : value) (fromStepId : string) (output : value) (round : Z) : routing_result :=
  let outgoing := outgoing_edges spec fromStepId in
  match matched_conditional outgoing output round, fallback_edges outgoing with
  | _ :: _ :: _, _ => RoutingAmbiguous
  | [e], _ => route_of e
  | [], [e] => route_of e
  | [], _ :: _ :: _ => RoutingAmbiguous
  | [], [] => RoutingNoEdge
  end.

(** ** Properties of conditions *)

(** [output.<field>] and [workflow.round] are the only readable paths. *)
Lemma parseConditionPath_inv (p : string) (ns : cond_namespace) (k : string) :
  parseConditionPath p = Some (ns, k) ->
  (ns = NsOutput /\ p = "output." +:+ k /\ is_field_name k = true) \/ (ns = NsWorkflow /\ p = "workflow.round" /\ k = "round").
Proof.
  unfold parseConditionPath. intros H.
  destruct (strip_prefix "output." p) as [f|] eqn:E.
  - apply strip_prefix_Some in E. destruct (is_field_name f) eqn:F; [|done].
    inversion H; subst. left. done.
  - destruct (p =s "workflow.round") eqn:F; [|done]. apply String.eqb_eq in F.
    inversion H; subst. by right.
Qed.

Lemma is_str_lit_spec (v : value) (s : string) : is_str_lit v s = true <-> v = VStr s.
Proof.
  unfold is_str_lit. destruct v; cbn; try (split; [done | congruence]).
  rewrite String.eqb_eq. split; congruence.
Qed.

Lemma strict_eq_scalar (a b : value) : strict_eq a b = true -> a = b.
Proof.
  destruct a, b; cbn; try done.
  - destruct b0, b; naive_solver.
  - destruct n, n0; cbn; try done.
    + intros H. bsimpl. congruence.
    + intros H. apply andb_true_iff in H as [H1 H2]. apply Z.eqb_eq in H1. apply Pos.eqb_eq in H2. congruence.
    + destruct neg, neg0; naive_solver.
  - intros H. bsimpl. congruence.
Qed.

Lemma same_value_zero_eq (a b : value) : same_value_zero a b = true -> a = b.
Proof. unfold same_value_zero. repeat case_match; first [done | apply strict_eq_scalar]. Qed.

Lemma strict_same (a b : value) : strict_eq a b = true -> same_value_zero a b = true.
Proof. intros H. unfold same_value_zero. repeat case_match; done. Qed.

Lemma strict_eq_sym (a b : value) : strict_eq a b = strict_eq b a.
Proof.
  destruct a, b; cbn; try done.
  - by destruct b0, b.
  - destruct n, n0; cbn; try done; [by rewrite Z.eqb_sym | by rewrite Z.eqb_sym, Pos.eqb_sym | by destruct neg, neg0].
  - apply String.eqb_sym.
Qed.
