(* ===== verification/Templates.v ===== *)
(** * Template references and rendering (src/workflow/validator.ts, prompt-renderer.ts)

    The [{{ … }}] reference parser the validator and the renderer share, and the two
    renderers the runtime uses for prompts and workspace keys. *)

From S2P Require Import Prelude Values Json Contract.

(** ** Searching strings *)

(** The text before the first occurrence of [p] and the text after it. *)
Fixpoint find_sub (p s : string) : option (string * string) :=
  match strip_prefix p s with
  | Some r => Some ("", r)
  | None =>
      match s with
      | EmptyString => None
      | String c s' => match find_sub p s' with Some (l, r) => Some (String c l, r) | None => None end
      end
  end.

(** Number of non-overlapping occurrences ([text.match(/p/g)]). *)
Fixpoint count_sub (fuel : nat) (p s : string) : Z :=
  match fuel with
  | O => 0
  | S f => match find_sub p s with Some (_, r) => 1 + count_sub f p r | None => 0 end
  end.

(** [s.split(p).join(x)]. *)
Fixpoint replace_all (fuel : nat) (p x s : string) : string :=
  match fuel with
  | O => s
  | S f => match find_sub p s with Some (l, r) => l +:+ x +:+ replace_all f p x r | None => s end
  end.

(** ** The reference parser *)

Inductive TemplateRef : Type :=
  | RInput (name raw : string)
  | RStepOutput (step field raw : string)
  | RWorkflowRound (raw : string)
  | RContext (group field raw : string)
  | RPause (raw : string).

Definition ref_raw (r : TemplateRef) : string :=
  match r with
  | RInput _ raw | RStepOutput _ _ raw | RWorkflowRound raw | RContext _ _ raw | RPause raw => raw
  end.

Definition KNOWN_TEMPLATE_NAMESPACES : list string := ["inputs"; "steps"; "workflow"; "context"; "pause"].

(** The contents of the successive [/\{\{([\s\S]*?)\}\}/g] matches. *)
Fixpoint scan_refs (fuel : nat) (s : string) : list string :=
  match fuel with
  | O => []
  | S f =>
      match find_sub "{{" s with
      | None => []
      | Some (_, r) => match find_sub "}}" r with Some (inner, t) => inner :: scan_refs f t | None => [] end
      end
  end.

Definition match_step_ref (inner : string) : option (string * string) :=
  match strip_prefix "steps." inner with
  | None => None
  | Some r =>
      match split_at_char "." r with
      | None => None
      | Some (step, r') =>
          match strip_prefix "output." r' with
          | Some field =>
              if re_word (fun c => is_lower c || is_digit c) (fun c => is_lower c || is_digit c || is_one_of "_-" c) step
                 && is_field_name field
              then Some (step, field) else None
          | None => None
          end
      end
  end.

Definition match_input_ref (inner : string) : option string :=
  match strip_prefix "inputs." inner with
  | Some n => if is_field_name n then Some n else None
  | None => None
  end.

Definition match_context_ref (inner : string) : option (string * string) :=
  match strip_prefix "context." inner with
  | None => None
  | Some r =>
      match split_at_char "." r with
      | Some (g, f) => if (g ∈b CONTEXT_GROUPS) && is_field_name f then Some (g, f) else None
      | None => None
      end
  end.

(** One reference: what it denotes, or its issue code. *)
Definition classify_ref (body : string) : result string TemplateRef :=
  let inner := trim body in
  let raw := "{{" +:+ body +:+ "}}" in
  if inner =s "" then Err "template_malformed" else
  match match_input_ref inner with
  | Some n => Ok (RInput n raw)
  | None =>
  match match_step_ref inner with
  | Some (s, f) => Ok (RStepOutput s f raw)
  | None =>
  if inner =s "workflow.round" then Ok (RWorkflowRound raw) else
  match match_context_ref inner with
  | Some (g, f) => Ok (RContext g f raw)
  | None =>
  if inner =s "pause.response" then Ok (RPause raw) else
  let ns := match split_at_char "." inner with Some (l, _) => l | None => inner end in
  Err (if ns ∈b KNOWN_TEMPLATE_NAMESPACES then "template_bad_reference" else "template_unsupported_namespace")
  end end end.

Record TemplateParse : Type := { tp_refs : list TemplateRef; tp_errors : list string }.

Definition parseTemplateReferences (text : string) : TemplateParse :=
  let n := S (String.length text) in
  let bodies := map classify_ref (scan_refs n text) in
  {| tp_refs := flat_map (fun r => match r with Ok x => [x] | Err _ => [] end) bodies;
     tp_errors := (if count_sub n "{{" text =? count_sub n "}}" text then [] else ["template_malformed"])
                  ++ flat_map (fun r => match r with Ok _ => [] | Err c => [c] end) bodies |}.

(** ** Rendering *)

Definition MAX_RENDERED_PROMPT_BYTES : Z := 64 * 1024.

Record RenderScope : Type := {
  rs_inputs : value;
  rs_stepOutputs : list (string * value);
  rs_round : Z;
  rs_context : list (string * value);
  rs_pauseResponse : option string;
}.

Inductive render_error : Type := render_missing_value | render_too_large | render_bad_reference.

(** [String(n)]: as JSON, except for the values JSON cannot print. *)
Definition num_to_string (n : num) : string :=
  match n with
  | NNaN => "NaN"
  | NInf neg => if neg : bool then "-Infinity" else "Infinity"
  | _ => string_of_list_ascii (print_num n)
  end.

Definition renderValue (v : value) : string :=
  match v with
  | VStr s => s
  | VNum n => num_to_string n
  | VBool b => if b then "true" else "false"
  | VNull | VUndef => ""
  | VArr _ | VObj _ => match JSON_stringify v with Some s => s | None => "" end
  end.

(** The value of a reference and whether its absence is an error. *)
Definition resolveRef (ref : TemplateRef) (scope : RenderScope) : value * bool :=
  match ref with
  | RInput name _ => (get name (rs_inputs scope), true)
  | RWorkflowRound _ => (VNum (NInt (rs_round scope)), true)
  | RStepOutput step field _ =>
      match assoc step (rs_stepOutputs scope) with
      | None => (VUndef, true)
      | Some out => (get field out, false)
      end
  | RContext group field _ =>
      (match assoc group (rs_context scope) with Some g => get field g | None => VUndef end, false)
  | RPause _ => (match rs_pauseResponse scope with Some s => VStr s | None => VUndef end, true)
  end.

Fixpoint render_refs (refs : list TemplateRef) (scope : RenderScope) (out : string) : result render_error string :=
  match refs with
  | [] => Ok out
  | ref :: rest =>
      let (v, required) := resolveRef ref scope in
      if is_undef v && required then Err render_missing_value
      else render_refs rest scope (replace_all (S (String.length out)) (ref_raw ref) (renderValue v) out)
  end.

Definition renderPrompt (template : string) (scope : RenderScope) (maxBytes : Z) : result render_error string :=
  let parsed := parseTemplateReferences template in
  match tp_errors parsed with
  | _ :: _ => Err render_bad_reference
  | [] =>
      try! out := render_refs (tp_refs parsed) scope template in
      if maxBytes <? byteLen out then Err render_too_large else Ok out
  end.

Definition WORKSPACE_KEY_RE (s : string) : bool :=
  re_ident (fun c => is_alpha c || is_digit c) (fun c => is_alpha c || is_digit c || is_one_of "._-" c) 127 s.

(** A safe literal key, or exactly one input reference; an omitted or empty input value
    means no explicit key. *)
Definition renderWorkspaceKey (template : option string) (scope : RenderScope) : result render_error (option string) :=
  match template with
  | None => Ok None
  | Some t =>
      if negb (contains "{{" t) then (if WORKSPACE_KEY_RE t then Ok (Some t) else Err render_bad_reference)
      else
        let parsed := parseTemplateReferences t in
        match tp_errors parsed, tp_refs parsed with
        | [], [RInput name raw] =>
            if negb (trim t =s raw) then Err render_bad_reference else
            match get name (rs_inputs scope) with
            | VUndef => Ok None
            | VStr s => if s =s "" then Ok None else if WORKSPACE_KEY_RE s then Ok (Some s) else Err render_bad_reference
            | _ => Err render_bad_reference
            end
        | _, _ => Err render_bad_reference
        end
  end.

(** ** Facts used by the components *)

Lemma renderWorkspaceKey_safe (t : option string) (scope : RenderScope) (k : string) :
  renderWorkspaceKey t scope = Ok (Some k) -> WORKSPACE_KEY_RE k = true.
Proof.
  unfold renderWorkspaceKey. destruct t as [t|]; [|done].
  destruct (negb (contains "{{" t)).
  { destruct (WORKSPACE_KEY_RE t) eqn:E; [|done]. intros H. inversion H. by subst. }
  destruct (tp_errors _); [|done]. destruct (tp_refs _) as [|[] [|]]; try done.
  destruct (negb _); [done|]. destruct (get _ _); try done.
  destruct (s =s ""); [done|]. destruct (WORKSPACE_KEY_RE s) eqn:E; [|done].
  intros H. inversion H. by subst.
Qed.

(** The workspace key of a step depends on the spec and the inputs alone: the round, the
    outputs and the context of the scope are not read. *)
Lemma renderWorkspaceKey_inputs (t : option string) (a b : RenderScope) :
  rs_inputs a = rs_inputs b -> renderWorkspaceKey t a = renderWorkspaceKey t b.
Proof. unfold renderWorkspaceKey. by intros ->. Qed.

Example render_example :
  renderPrompt "do {{ inputs.a }} in {{workflow.round}}: {{ steps.plan.output.next }}"
    {| rs_inputs := VObj [("a", VStr "X")]; rs_stepOutputs := [("plan", VObj [("next", VNum (NInt 7))])];
       rs_round := 2; rs_context := []; rs_pauseResponse := None |} MAX_RENDERED_PROMPT_BYTES
  = Ok "do X in 2: 7".
Proof. vm_compute. reflexivity. Qed.
