(* ===== verification/Verification.v ===== *)
(** * Task verification and task results (src/lib/task-verification.ts,
      src/lib/agent-task-result.ts, src/runtime/verifier-profiles.ts)

    The contract of the Node-owned test verifier and of the durable AgentTaskResult.
    The SHA-256 digest is a parameter of the model. *)

From S2P Require Import Prelude Values Json.

(** ** Bounds and grammars *)

Definition MAX_VERIFY_ARGV_ITEMS : Z := 32.
Definition MAX_VERIFY_ARGV_ITEM_LEN : Z := 4 * 1024.
Definition MAX_VERIFY_PROFILE_LEN : Z := 128.
Definition MAX_FINAL_OUTPUT_BYTES : Z := 256 * 1024.
Definition MAX_REFS : Z := 64.
Definition MAX_REF_STR : Z := 4 * 1024.

Definition PROFILE_ID_RE (s : string) : bool :=
  re_ident (fun c => is_lower c || is_digit c) (fun c => is_lower c || is_digit c || is_one_of "-" c) 127 s.
Definition HEX64_RE (s : string) : bool :=
  all_chars (fun c => is_digit c || in_range "a" "f" c) s && (byteLen s =? 64).

(** [ISO_UTC_RE]: YYYY-MM-DDTHH:MM:SS, optionally one to three fractional digits, Z. *)
Fixpoint match_shape (shape : list ascii) (l : list ascii) : option (list ascii) :=
  match shape, l with
  | [], _ => Some l
  | s :: shape', c :: l' =>
      if (if Ascii.eqb s "d" then is_digit c else Ascii.eqb s c) then match_shape shape' l' else None
  | _, [] => None
  end.
Definition isIsoUtc (s : string) : bool :=
  match match_shape (list_ascii_of_string "dddd-dd-ddTdd:dd:dd") (list_ascii_of_string s) with
  | None => false
  | Some r =>
      existsb (fun t => match match_shape (list_ascii_of_string t) r with Some [] => true | _ => false end)
        ["Z"; ".dZ"; ".ddZ"; ".dddZ"]
  end.

(** ** Verifier profiles: the Node owns the command of each advertised id *)

Record VerifierProfile : Type := { vp_id : string; vp_argv : list string }.
Definition PROFILES : list VerifierProfile := [ {| vp_id := "node-test"; vp_argv := ["node"; "--test"] |} ].
Definition VERIFIER_PROFILE_IDS : list string := map vp_id PROFILES.
Definition resolveVerifierProfile (id : string) : option VerifierProfile :=
  List.find (fun p => vp_id p =s id) PROFILES.
Definition isKnownVerifierProfile (id : string) : bool := id ∈b VERIFIER_PROFILE_IDS.

(** ** The verify configuration of a step: only an advertised profile id *)

Inductive verify_config_error : Type := vc_not_object | vc_missing_profile | vc_bad_profile | vc_unknown_profile | vc_unknown_field.

Definition validateTaskVerifyConfig (input : value) : result verify_config_error string :=
  if negb (isObj input) then Err vc_not_object
  else if existsb (fun k => negb (k =s "profile")) (obj_keys input) then Err vc_unknown_field
  else
    match get "profile" input with
    | VUndef => Err vc_missing_profile
    | VStr p =>
        if (MAX_VERIFY_PROFILE_LEN <? js_length p) || negb (PROFILE_ID_RE p) then Err vc_bad_profile
        else if isKnownVerifierProfile p then Ok p else Err vc_unknown_profile
    | _ => Err vc_bad_profile
    end.

Section Digest.
(** [crypto.createHash('sha256').update(s, 'utf8').digest('hex')]. *)
Context (sha256_hex : string -> string).

(** ** Verification records *)

Definition computeResolvedCommandHash (argv : list string) : string :=
  sha256_hex (match JSON_stringify (VArr (map VStr argv)) with Some s => s | None => "" end).

Record TaskVerificationV1 : Type := {
  tv_kind : string;
  tv_profile : string;
  tv_argv : list string;
  tv_resolved_command_hash : string;
  tv_exit_code : Z;
  tv_started_at : string;
  tv_finished_at : string;
  tv_content_hash : string;
}.

(** [kind] is decided by the exit code alone. *)
Definition buildTaskVerification (profile : string) (argv : list string) (exitCode : Z)
    (startedAt finishedAt output : string) : TaskVerificationV1 :=
  {| tv_kind := if exitCode =? 0 then "tests_passed" else "tests_failed";
     tv_profile := profile; tv_argv := argv;
     tv_resolved_command_hash := computeResolvedCommandHash argv;
     tv_exit_code := exitCode; tv_started_at := startedAt; tv_finished_at := finishedAt;
     tv_content_hash := sha256_hex output |}.

Inductive verification_error : Type := invalid_verification | verification_unsupported_schema_version.

(** [a > b] on strings, for the schema version check. *)
Fixpoint str_gtb (a b : list ascii) : bool :=
  match a, b with
  | [], _ => false
  | _ :: _, [] => true
  | x :: a', y :: b' =>
      if (N_of_ascii y <? N_of_ascii x)%N then true
      else if (N_of_ascii x <? N_of_ascii y)%N then false else str_gtb a' b'
  end.
Definition newer_version (v : value) : bool :=
  match v with VStr s => str_gtb (list_ascii_of_string s) (list_ascii_of_string "1") | _ => false end.

Definition str_ok (p : string -> bool) (v : value) : bool := match v with VStr s => p s | _ => false end.

Definition validateTaskVerification (obj : value) : result verification_error TaskVerificationV1 :=
  if negb (isObj obj) then Err invalid_verification else
  if negb (is_str_lit (get "schema_version" obj) "1") then
    (if newer_version (get "schema_version" obj) then Err verification_unsupported_schema_version
     else Err invalid_verification) else
  let kind := get "kind" obj in
  if negb (is_str_lit kind "tests_passed") && negb (is_str_lit kind "tests_failed") then Err invalid_verification else
  if negb (isInteger (get "exit_code" obj)) then Err invalid_verification else
  let code := int_of (get "exit_code" obj) in
  if negb (Bool.eqb (code =? 0) (is_str_lit kind "tests_passed")) then Err invalid_verification else
  if negb (str_ok (fun p => PROFILE_ID_RE p && isKnownVerifierProfile p) (get "profile" obj)) then Err invalid_verification else
  let argv := get "argv" obj in
  if negb (isArr argv) || (Z.of_nat (List.length (elems argv)) =? 0)
     || (MAX_VERIFY_ARGV_ITEMS <? Z.of_nat (List.length (elems argv)))
     || negb (forallb (str_ok (fun a => byteLen a <=? MAX_VERIFY_ARGV_ITEM_LEN)) (elems argv))
  then Err invalid_verification else
  let args := map str_of (elems argv) in
  if negb (str_ok (fun h => HEX64_RE h && (h =s computeResolvedCommandHash args)) (get "resolved_command_hash" obj))
  then Err invalid_verification else
  if negb (str_ok isIsoUtc (get "started_at" obj)) then Err invalid_verification else
  if negb (str_ok isIsoUtc (get "finished_at" obj)) then Err invalid_verification else
  if negb (str_ok HEX64_RE (get "content_hash" obj)) then Err invalid_verification else
  Ok {| tv_kind := str_of kind; tv_profile := str_of (get "profile" obj); tv_argv := args;
        tv_resolved_command_hash := str_of (get "resolved_command_hash" obj); tv_exit_code := code;
        tv_started_at := str_of (get "started_at" obj); tv_finished_at := str_of (get "finished_at" obj);
        tv_content_hash := str_of (get "content_hash" obj) |}.

(** [true] passed, [false] failed, [None] no verification observed. *)
Definition verificationTestsResult (v : option TaskVerificationV1) : option bool :=
  match v with None => None | Some v => Some (tv_kind v =s "tests_passed") end.

Fixpoint strs_eqb (a b : list string) : bool :=
  match a, b with
  | [], [] => true
  | x :: a', y :: b' => (x =s y) && strs_eqb a' b'
  | _, _ => false
  end.

Definition verificationsEquivalent (a b : option TaskVerificationV1) : bool :=
  match a, b with
  | None, None => true
  | Some a, Some b =>
      (tv_kind a =s tv_kind b) && (tv_profile a =s tv_profile b) && (tv_exit_code a =? tv_exit_code b)
      && (tv_content_hash a =s tv_content_hash b) && (tv_resolved_command_hash a =s tv_resolved_command_hash b)
      && (tv_started_at a =s tv_started_at b) && (tv_finished_at a =s tv_finished_at b) && strs_eqb (tv_argv a) (tv_argv b)
  | _, _ => false
  end.

(** ** AgentTaskResult *)

Definition computeResultContentHash (text : string) : string := sha256_hex text.

Record AgentTaskResultV1 : Type := {
  ar_text : string;
  ar_process_exit_code : option Z;
  ar_finalized_at : string;
  ar_content_hash : string;
  ar_evidence_refs : list value;
  ar_artifact_refs : list value;
  ar_verification : option TaskVerificationV1;
}.

Definition buildTaskResult (text : string) (exitCode : option Z) (finalizedAt : option string) (now : string)
    (evidence artifacts : list value) (verification : option TaskVerificationV1) : AgentTaskResultV1 :=
  {| ar_text := text; ar_process_exit_code := exitCode;
     ar_finalized_at := match finalizedAt with Some t => t | None => now end;
     ar_content_hash := computeResultContentHash text;
     ar_evidence_refs := evidence; ar_artifact_refs := artifacts; ar_verification := verification |}.

Inductive result_error : Type := unsupported_schema_version | invalid_result | result_too_large | content_hash_mismatch.

Definition boundedRefs (v : value) : bool :=
  isArr v && (Z.of_nat (List.length (elems v)) <=? MAX_REFS)
  && forallb (fun r => isObj r
       && forallb (fun kv => is_undef (snd kv) || str_ok (fun s => byteLen s <=? MAX_REF_STR) (snd kv)) (entries r)
       && isStr (get "kind" r)) (elems v).

Definition validateTaskResult (obj : value) : result result_error AgentTaskResultV1 :=
  if negb (isObj obj) then Err invalid_result else
  if negb (is_str_lit (get "schema_version" obj) "1") then
    (if newer_version (get "schema_version" obj) then Err unsupported_schema_version else Err invalid_result) else
  let fo := get "final_output" obj in
  if negb (isObj fo) || negb (is_str_lit (get "kind" fo) "text") || negb (isStr (get "text" fo)) then Err invalid_result else
  let text := str_of (get "text" fo) in
  if MAX_FINAL_OUTPUT_BYTES <? byteLen text then Err result_too_large else
  let code := get "process_exit_code" obj in
  if negb (is_nullish code) && negb (isInteger code) then Err invalid_result else
  if negb (str_ok isIsoUtc (get "finalized_at" obj)) then Err invalid_result else
  if negb (str_ok HEX64_RE (get "content_hash" obj)) then Err invalid_result else
  if negb (str_of (get "content_hash" obj) =s computeResultContentHash text) then Err content_hash_mismatch else
  if negb (boundedRefs (get "evidence_refs" obj)) then Err invalid_result else
  if negb (boundedRefs (get "artifact_refs" obj)) then Err invalid_result else
  let mk v := Ok {| ar_text := text; ar_process_exit_code := if is_nullish code then None else Some (int_of code);
                    ar_finalized_at := str_of (get "finalized_at" obj); ar_content_hash := str_of (get "content_hash" obj);
                    ar_evidence_refs := elems (get "evidence_refs" obj); ar_artifact_refs := elems (get "artifact_refs" obj);
                    ar_verification := v |} in
  if is_nullish (get "verification" obj) then mk None
  else match validateTaskVerification (get "verification" obj) with
       | Ok v => mk (Some v)
       | Err _ => Err invalid_result
       end.

Definition opt_z_eqb (a b : option Z) : bool :=
  match a, b with Some x, Some y => x =? y | None, None => true | _, _ => false end.

Definition resultsEquivalent (a b : AgentTaskResultV1) : bool :=
  (ar_content_hash a =s ar_content_hash b) && (ar_text a =s ar_text b)
  && opt_z_eqb (ar_process_exit_code a) (ar_process_exit_code b)
  && verificationsEquivalent (ar_verification a) (ar_verification b).

(** The JSON value of a verification and of a result, as they are serialized. *)
Definition verification_json (v : TaskVerificationV1) : value :=
  VObj [("schema_version", VStr "1"); ("kind", VStr (tv_kind v)); ("profile", VStr (tv_profile v));
        ("argv", VArr (map VStr (tv_argv v))); ("resolved_command_hash", VStr (tv_resolved_command_hash v));
        ("exit_code", VNum (NInt (tv_exit_code v))); ("started_at", VStr (tv_started_at v));
        ("finished_at", VStr (tv_finished_at v)); ("content_hash", VStr (tv_content_hash v))].

Definition result_json (r : AgentTaskResultV1) : value :=
  VObj ([("schema_version", VStr "1"); ("final_output", VObj [("kind", VStr "text"); ("text", VStr (ar_text r))]);
         ("process_exit_code", match ar_process_exit_code r with Some z => VNum (NInt z) | None => VNull end);
         ("finalized_at", VStr (ar_finalized_at r)); ("content_hash", VStr (ar_content_hash r));
         ("evidence_refs", VArr (ar_evidence_refs r)); ("artifact_refs", VArr (ar_artifact_refs r))]
        ++ match ar_verification r with Some v => [("verification", verification_json v)] | None => [] end).
End Digest.
