(* ===== verification/Validator.v ===== *)
(** * The workflow spec validator (src/workflow/validator.ts)

    [validateWorkflowSpec] and its helpers, as functions that return the issues they
    report (code and location; the human-readable text is left out) together with the
    tables later phases use.  JavaScript [Map]s and [Set]s are association lists and
    lists in insertion order. *)

From S2P Require Import Prelude Values Json Contract Conditions Templates Verification.

(** ** Issues *)

Record ValidationIssue : Type := { vi_code : string; vi_path : option string }.

Definition err (code path : string) : list ValidationIssue := [{| vi_code := code; vi_path := Some path |}].
Definition when (b : bool) (l : list ValidationIssue) : list ValidationIssue := if b then l else [].

Abbreviation issues := (list ValidationIssue).

(** Maps and sets in insertion order. *)
Definition set_add (s : string) (l : list string) : list string := if s ∈b l then l else l ++ [s].
Definition map_get {A : Type} (k : string) (m : list (string * A)) : option A :=
  match List.find (fun kv => fst kv =s k) m with Some (_, v) => Some v | None => None end.
Definition map_has {A : Type} (k : string) (m : list (string * A)) : bool :=
  match map_get k m with Some _ => true | None => false end.
Definition map_set {A : Type} (k : string) (v : A) (m : list (string * A)) : list (string * A) :=
  if map_has k m then map (fun kv => if fst kv =s k then (k, v) else kv) m else m ++ [(k, v)].

(** [String(v)]. *)
Fixpoint js_String (v : value) : string :=
  match v with
  | VUndef => "undefined"
  | VNull => "null"
  | VBool b => if b then "true" else "false"
  | VNum n => num_to_string n
  | VStr s => s
  | VArr l =>
      (fix go (l : list value) : string :=
         match l with
         | [] => ""
         | [x] => if is_nullish x then "" else js_String x
         | x :: r => (if is_nullish x then "" else js_String x) +:+ "," +:+ go r
         end) l
  | VObj _ => "[object Object]"
  end.

(** ** Small guards *)

Definition isPosInt (v : value) : bool := match v with VNum (NInt z) => 0 <? z | _ => false end.

Definition SECRET_TOKENS : list string :=
  ["token"; "secret"; "password"; "passwd"; "apikey"; "bearer"; "credential"; "privatekey"; "encryptionkey"; "accesskey"; "signingkey"].
Definition isSecretKey (key : string) : bool :=
  let norm := norm_key key in existsb (fun t => contains t norm) SECRET_TOKENS.

Definition matchesInputType (v : value) (t : string) : bool :=
  if t =s "string" then isStr v
  else if t =s "number" then isFinite v
  else if t =s "boolean" then isBool v
  else isArr v && forallb isStr (elems v). (* string[] *)

Record FieldDef : Type := { fd_type : string; fd_enum : option (list value); fd_required : bool }.

(** Report a key of an object that is not in the allow-list. *)
Definition unknown_fields (o : value) (allowed : list string) (code p : string) : issues :=
  flat_map (fun k => when (negb (k ∈b allowed)) (err code (p +:+ "/" +:+ k))) (obj_keys o).

(** [v !== undefined && typeof v !== 'string']. *)
Definition bad_opt_str (v : value) : bool := negb (is_undef v) && negb (isStr v).
Definition bad_opt_bool (v : value) : bool := negb (is_undef v) && negb (isBool v).
(** [isStr(v) && re.test(v)] fails. *)
Definition not_matching (re : string -> bool) (v : value) : bool := negb (isStr v) || negb (re (str_of v)).

(** ** Secrets *)

Fixpoint scanSecretFields (node : value) (path : string) : issues :=
  match node with
  | VArr l =>
      (fix go (i : Z) (l : list value) : issues :=
         match l with [] => [] | v :: r => scanSecretFields v (path +:+ "/" +:+ zstr i) ++ go (i + 1) r end) 0 l
  | VObj o =>
      (fix go (o : list (string * value)) : issues :=
         match o with
         | [] => []
         | (k, v) :: r =>
             when (isSecretKey k) (err "secret_field_forbidden" (path +:+ "/" +:+ k))
             ++ scanSecretFields v (path +:+ "/" +:+ k) ++ go r
         end) o
  | _ => []
  end.

(** ** Completion and stall policies *)

Definition validateCompletionPolicy (cp : value) : issues :=
  let p := "/completion_policy" in
  if negb (isObj cp) then err "bad_completion_policy" p else
  let re := get "required_evidence" cp in
  when (negb (is_undef re))
    (if negb (isArr re) || (Z.of_nat (List.length EVIDENCE_TYPES) <? Z.of_nat (List.length (elems re)))
     then err "bad_required_evidence" (p +:+ "/required_evidence")
     else flat_map (fun e => when (not_matching (fun s => s ∈b EVIDENCE_TYPES) e)
                               (err "bad_evidence_type" (p +:+ "/required_evidence"))) (elems re))
  ++ flat_map (fun k => when (bad_opt_bool (get k cp)) (err "bad_completion_flag" (p +:+ "/" +:+ k)))
       ["require_repository_change"; "require_no_remaining_work"; "require_tests_passed"]
  ++ unknown_fields cp ["required_evidence"; "require_repository_change"; "require_no_remaining_work"; "require_tests_passed"]
       "completion_policy_unknown_field" p.

Definition MAX_STALLED_ROUNDS : Z := 100.

Definition validateStallPolicy (sp : value) (hasLoopEdge : bool) : issues :=
  let p := "/stall_policy" in
  if negb (isObj sp) then err "bad_stall_policy" p else
  let ms := get "max_stalled_rounds" sp in
  let sg := get "signals" sp in
  let n := Z.of_nat (List.length (elems sg)) in
  when (negb hasLoopEdge) (err "stall_policy_without_loop" p)
  ++ when (negb (isPosInt ms) || (MAX_STALLED_ROUNDS <? int_of ms)) (err "bad_max_stalled_rounds" (p +:+ "/max_stalled_rounds"))
  ++ (if negb (isArr sg) || (n =? 0) || (Z.of_nat (List.length STALL_SIGNALS) <? n)
      then err "bad_stall_signals" (p +:+ "/signals")
      else flat_map (fun s => when (not_matching (fun x => x ∈b STALL_SIGNALS) s) (err "bad_stall_signal" (p +:+ "/signals"))) (elems sg))
  ++ unknown_fields sp ["max_stalled_rounds"; "signals"] "stall_policy_unknown_field" p.

(** ** Agents, inputs, schemas *)

Definition agent_role_issues (role : string) (def : value) : issues :=
  let p := "/agents/" +:+ role in
  when (negb (SAFE_ID_RE role)) (err "bad_role_name" p)
  ++ if negb (isObj def) then err "bad_role" p else
     when (not_matching (fun s => negb (trim s =s "")) (get "agent" def)) (err "bad_role_agent" (p +:+ "/agent"))
     ++ when (negb (is_undef (get "node_id" def)) && not_matching NODE_ID_RE (get "node_id" def)) (err "bad_role_node_id" (p +:+ "/node_id"))
     ++ when (bad_opt_str (get "description" def)) (err "bad_field_type" (p +:+ "/description"))
     ++ unknown_fields def ["agent"; "node_id"; "description"] "role_unknown_field" p.

Definition validateAgents (agents : value) : issues * list string :=
  if negb (isObj agents) || (Z.of_nat (List.length (entries agents)) =? 0) then (err "agents_missing" "/agents", [])
  else (flat_map (fun kv => agent_role_issues (fst kv) (snd kv)) (entries agents),
        fold_left (fun s k => set_add k s) (obj_keys agents) []).

Definition INPUT_TYPES : list string := ["string"; "number"; "boolean"; "string[]"].

Definition input_issues (name : string) (def : value) : issues :=
  let p := "/inputs/" +:+ name in
  when (negb (SAFE_ID_RE name)) (err "bad_input_name" p)
  ++ if negb (isObj def) then err "bad_input" p else
     let t := get "type" def in
     (if not_matching (fun s => s ∈b INPUT_TYPES) t then err "bad_input_type" (p +:+ "/type")
      else when (negb (is_undef (get "default" def)) && negb (matchesInputType (get "default" def) (str_of t)))
             (err "bad_input_default" (p +:+ "/default")))
     ++ when (bad_opt_bool (get "required" def)) (err "bad_field_type" (p +:+ "/required"))
     ++ when (bad_opt_str (get "description" def)) (err "bad_field_type" (p +:+ "/description"))
     ++ unknown_fields def ["type"; "required"; "description"; "default"] "input_unknown_field" p.

Definition input_type_of (def : value) : option string :=
  if isObj def && negb (not_matching (fun s => s ∈b INPUT_TYPES) (get "type" def)) then Some (str_of (get "type" def)) else None.

Definition validateInputs (inputs : value) : issues * list (string * string) :=
  if is_undef inputs then ([], [])
  else if negb (isObj inputs) then (err "inputs_bad" "/inputs", [])
  else (flat_map (fun kv => input_issues (fst kv) (snd kv)) (entries inputs),
        fold_left (fun m kv => match input_type_of (snd kv) with Some t => map_set (fst kv) t m | None => m end) (entries inputs) []).

(** The checks of [validateEnumValues], threading the set of values seen. *)
Fixpoint enum_value_issues (en : list value) (seen : list string) (path : string) : issues :=
  match en with
  | [] => []
  | v :: r =>
      match v with
      | VStr s =>
          if s =s "" then err "enum_value_invalid" path ++ enum_value_issues r seen path
          else when (MAX_ENUM_VALUE_LENGTH <? js_length s) (err "enum_value_invalid" path)
               ++ when (s ∈b seen) (err "enum_duplicate_values" path)
               ++ enum_value_issues r (set_add s seen) path
      | _ => err "enum_value_invalid" path ++ enum_value_issues r seen path
      end
  end.

Definition validateEnumValues (en : value) (path : string) : issues :=
  if negb (isArr en) || (Z.of_nat (List.length (elems en)) =? 0) then err "bad_enum" path
  else when (MAX_ENUM_VALUES <? Z.of_nat (List.length (elems en))) (err "enum_too_many" path)
       ++ enum_value_issues (elems en) [] path.

Definition SCHEMA_FIELD_TYPES : list string := ["string"; "number"; "boolean"; "string[]"; "enum"].

Definition schema_field_issues (fp : string) (fdef : value) : issues :=
  if negb (isObj fdef) then err "bad_schema_field" fp else
  let ft := get "type" fdef in
  when (not_matching (fun s => s ∈b SCHEMA_FIELD_TYPES) ft) (err "bad_schema_field_type" (fp +:+ "/type"))
  ++ (if is_str_lit ft "enum" then validateEnumValues (get "enum" fdef) (fp +:+ "/enum")
      else when (negb (is_undef (get "enum" fdef))) (err "enum_on_non_enum_field" (fp +:+ "/enum")))
  ++ when (bad_opt_bool (get "required" fdef)) (err "bad_field_type" (fp +:+ "/required"))
  ++ when (bad_opt_str (get "description" fdef)) (err "bad_field_type" (fp +:+ "/description"))
  ++ unknown_fields fdef ["type"; "required"; "enum"; "description"] "schema_field_unknown_field" fp.

Definition field_def_of (fdef : value) : option FieldDef :=
  if isObj fdef && negb (not_matching (fun s => s ∈b SCHEMA_FIELD_TYPES) (get "type" fdef)) then
    Some {| fd_type := str_of (get "type" fdef);
            fd_enum := match get "enum" fdef with VArr l => Some l | _ => None end;
            fd_required := strict_eq (get "required" fdef) (VBool true) |}
  else None.

Definition schema_issues (sname : string) (sdef : value) : issues :=
  let p := "/output_schemas/" +:+ sname in
  when (negb (SAFE_ID_RE sname)) (err "bad_schema_name" p)
  ++ if negb (isObj sdef) then err "bad_schema" p else
     unknown_fields sdef ["fields"] "schema_unknown_field" p
     ++ if negb (isObj (get "fields" sdef)) then err "bad_schema" (p +:+ "/fields") else
        when (Z.of_nat (List.length (entries (get "fields" sdef))) =? 0) (err "schema_no_fields" (p +:+ "/fields"))
        ++ flat_map (fun kv => schema_field_issues (p +:+ "/fields/" +:+ fst kv) (snd kv)) (entries (get "fields" sdef)).

Definition schema_fields_of (sdef : value) : list string :=
  if isObj sdef then fold_left (fun s k => set_add k s) (obj_keys (get "fields" sdef)) [] else [].
Definition schema_defs_of (sdef : value) : list (string * FieldDef) :=
  if isObj sdef then
    fold_left (fun m kv => match field_def_of (snd kv) with Some d => map_set (fst kv) d m | None => m end) (entries (get "fields" sdef)) []
  else [].

(** Names, field sets and field definitions of the schemas (keyed by schema name). *)
Record Schemas : Type := { sc_fields : list (string * list string); sc_defs : list (string * list (string * FieldDef)) }.
Definition schemaNames (s : Schemas) : list string := map fst (sc_fields s).

Definition validateOutputSchemas (output_schemas : value) : issues * Schemas :=
  if negb (isObj output_schemas) || (Z.of_nat (List.length (entries output_schemas)) =? 0)
  then (err "output_schemas_missing" "/output_schemas", {| sc_fields := []; sc_defs := [] |})
  else (flat_map (fun kv => schema_issues (fst kv) (snd kv)) (entries output_schemas),
        {| sc_fields := fold_left (fun m kv => map_set (fst kv) (schema_fields_of (snd kv)) m) (entries output_schemas) [];
           sc_defs := fold_left (fun m kv => map_set (fst kv) (schema_defs_of (snd kv)) m) (entries output_schemas) [] |}).

(** ** Steps *)

Definition checkContextBindingCompat (group : string) (schemaName : string) (defs : option (list (string * FieldDef))) (path : string) : issues :=
  let allowed := CONTEXT_FIELDS group in
  match defs with
  | None => []
  | Some defs =>
      if schemaName =s "" then [] else
      flat_map (fun fname => when (negb (fname ∈b allowed)) (err "context_binding_incompatible_schema" path)) (map fst defs)
      ++ flat_map (fun core =>
           match map_get core defs with
           | Some d => when (negb (fd_required d)) (err "context_binding_incompatible_schema" path)
           | None => err "context_binding_incompatible_schema" path
           end) ["status"; "summary"]
  end.

Definition MAX_PAUSE_PROMPT : Z := 2000.
Definition MAX_PAUSE_CHOICES : Z := 50.
Definition MAX_PAUSE_CHOICE_LEN : Z := 200.

Definition validatePauseGate (gate : value) (p : string) : issues :=
  if negb (isObj gate) then err "bad_pause_before" p else
  let pr := get "prompt" gate in
  let ch := get "choices" gate in
  when (negb (is_str_lit (get "kind" gate) "input") && negb (is_str_lit (get "kind" gate) "approval")) (err "bad_pause_kind" (p +:+ "/kind"))
  ++ when (not_matching (fun s => negb (js_length s =? 0) && (js_length s <=? MAX_PAUSE_PROMPT)) pr) (err "bad_pause_prompt" (p +:+ "/prompt"))
  ++ when (negb (is_undef ch) &&
           (negb (isArr ch) || (MAX_PAUSE_CHOICES <? Z.of_nat (List.length (elems ch)))
            || negb (forallb (fun c => negb (not_matching (fun s => (0 <? js_length s) && (js_length s <=? MAX_PAUSE_CHOICE_LEN)) c)) (elems ch))))
       (err "bad_pause_choices" (p +:+ "/choices"))
  ++ unknown_fields gate ["kind"; "prompt"; "choices"] "pause_unknown_field" p.

Definition STEP_FIELDS : list string :=
  ["id"; "type"; "agent_role"; "prompt_template"; "output_schema"; "permission_mode"; "workspace_key_template"; "workspace_write";
   "context_binding"; "pause_before"; "label"; "description"; "verify"].

(** The checks of one step after its identifier. *)
Definition step_body_issues (step : value) (p : string) (roles : list string) (sc : Schemas) : issues :=
  let os := get "output_schema" step in
  let wk := get "workspace_key_template" step in
  when (negb (is_str_lit (get "type" step) "agent_task")) (err "unsupported_step_type" (p +:+ "/type"))
  ++ when (not_matching (fun r => r ∈b roles) (get "agent_role" step)) (err "unknown_agent_role" (p +:+ "/agent_role"))
  ++ when (not_matching (fun n => n ∈b schemaNames sc) os) (err "unknown_output_schema" (p +:+ "/output_schema"))
  ++ when (negb (is_undef (get "permission_mode" step)) && negb (is_str_lit (get "permission_mode" step) "default")
           && negb (is_str_lit (get "permission_mode" step) "unsafe-skip")) (err "bad_permission_mode" (p +:+ "/permission_mode"))
  ++ when (negb (isStr (get "prompt_template" step))) (err "bad_prompt_template" (p +:+ "/prompt_template"))
  ++ when (bad_opt_str wk) (err "bad_workspace_key_template" (p +:+ "/workspace_key_template"))
  ++ when (negb (is_undef (get "workspace_write" step)))
       (if negb (isBool (get "workspace_write" step)) then err "bad_workspace_write" (p +:+ "/workspace_write")
        else when (strict_eq (get "workspace_write" step) (VBool true) && is_undef wk)
               (err "workspace_write_requires_workspace" (p +:+ "/workspace_write")))
  ++ when (negb (is_undef (get "verify" step)))
       (when (negb (is_ok (validateTaskVerifyConfig (get "verify" step)))) (err "bad_verify" (p +:+ "/verify"))
        ++ when (is_undef wk) (err "verify_requires_workspace" (p +:+ "/verify")))
  ++ when (negb (is_undef (get "context_binding" step)))
       (if not_matching (fun g => g ∈b CONTEXT_GROUPS) (get "context_binding" step) then err "bad_context_binding" (p +:+ "/context_binding")
        else when (isStr os) (checkContextBindingCompat (str_of (get "context_binding" step)) (str_of os)
                                (map_get (str_of os) (sc_defs sc)) (p +:+ "/context_binding")))
  ++ when (bad_opt_str (get "label" step)) (err "bad_field_type" (p +:+ "/label"))
  ++ when (bad_opt_str (get "description" step)) (err "bad_field_type" (p +:+ "/description"))
  ++ when (negb (is_undef (get "pause_before" step))) (validatePauseGate (get "pause_before" step) (p +:+ "/pause_before"))
  ++ unknown_fields step STEP_FIELDS "step_unknown_field" p.

Record StepTables : Type := { st_ids : list string; st_outputSchema : list (string * string) }.

Definition validate_step (roles : list string) (sc : Schemas) (i : Z) (step : value) (acc : issues * StepTables) : issues * StepTables :=
  let (iss, st) := acc in
  let p := "/steps/" +:+ zstr i in
  if negb (isObj step) then (iss ++ err "bad_step" p, st) else
  let id := get "id" step in
  let bad_id := not_matching SAFE_ID_RE id in
  let os := get "output_schema" step in
  (iss ++ (if bad_id then err "bad_step_id" (p +:+ "/id")
          else when (str_of id ∈b st_ids st) (err "duplicate_step_id" (p +:+ "/id")))
      ++ step_body_issues step p roles sc,
   {| st_ids := if bad_id then st_ids st else set_add (str_of id) (st_ids st);
      st_outputSchema := if negb (not_matching (fun n => n ∈b schemaNames sc) os) && isStr id
                         then map_set (str_of id) (str_of os) (st_outputSchema st) else st_outputSchema st |}).

Fixpoint fold_indexed {A B : Type} (f : Z -> A -> B -> B) (i : Z) (l : list A) (b : B) : B :=
  match l with [] => b | x :: r => fold_indexed f (i + 1) r (f i x b) end.

Definition validateSteps (steps : value) (roles : list string) (sc : Schemas) : issues * StepTables :=
  let empty := {| st_ids := []; st_outputSchema := [] |} in
  if negb (isArr steps) || (Z.of_nat (List.length (elems steps)) =? 0) then (err "steps_missing" "/steps", empty)
  else fold_indexed (validate_step roles sc) 0 (elems steps) ([], empty).

(** ** Limits *)

Definition limit_issues (key : string) (v : value) : issues :=
  let p := "/limits/" +:+ key in
  if is_undef v then err "limit_missing" p
  else if negb (isPosInt v) then err "limit_invalid" p
  else when (LIMIT_MAXIMA key <? int_of v) (err "limit_exceeds_max" p).

Definition validateLimits (limits : value) (hasLoopEdge : bool) : issues :=
  if negb (isObj limits) then err "limits_missing" "/limits" else
  let mr := get "max_rounds" limits in
  let b := get "budget" limits in
  flat_map (fun key => limit_issues key (get key limits)) ["max_tasks"; "max_runtime_seconds"; "max_step_attempts"; "max_failures"]
  ++ when (negb (is_undef mr))
       (if negb (isPosInt mr) then err "limit_invalid" "/limits/max_rounds"
        else when (LIMIT_MAXIMA "max_rounds" <? int_of mr) (err "limit_exceeds_max" "/limits/max_rounds"))
  ++ when (hasLoopEdge && negb (isPosInt mr)) (err "loop_requires_max_rounds" "/limits/max_rounds")
  ++ when (negb (is_undef b))
       (if negb (isObj b) then err "bad_budget" "/limits/budget"
        else flat_map (fun k => err "budget_unknown_field" ("/limits/budget/" +:+ k)) (obj_keys b))
  ++ unknown_fields limits ["max_rounds"; "max_tasks"; "max_runtime_seconds"; "max_step_attempts"; "max_failures"; "budget"]
       "limit_unknown_field" "/limits".

(** ** Edges and the graph *)

Record OutEdge : Type := { oe_condition : value; oe_kind : value; oe_idx : Z }.

Record Graph : Type := {
  g_normalAdj : list (string * list string);
  g_allAdj : list (string * list string);
  g_outgoing : list (string * list OutEdge);
  g_anyTerminalEdge : bool;
}.

Definition empty_graph : Graph := {| g_normalAdj := []; g_allAdj := []; g_outgoing := []; g_anyTerminalEdge := false |}.

Definition map_append {A : Type} (k : string) (x : A) (m : list (string * list A)) : list (string * list A) :=
  map_set k (match map_get k m with Some l => l | None => [] end ++ [x]) m.

Definition edge_key (edge : value) : string :=
  let c := get "condition" edge in
  js_String (get "from" edge) +:+ "→" +:+ js_String (get "to" edge) +:+ "|" +:+ js_String (get "kind" edge) +:+ "|"
  +:+ (if truthy c then match JSON_stringify c with Some s => s | None => "undefined" end else "∅").

Definition edge_condition_issues (edge : value) (p : string) (st : StepTables) (sc : Schemas) : issues :=
  let c := get "condition" edge in
  let from := get "from" edge in
  when (negb (is_undef c))
    (let codes := checkConditionShape c in
     flat_map (fun code => err code (p +:+ "/condition")) codes
     ++ match codes, parseConditionPath (str_of (get "path" c)) with
        | [], Some (NsOutput, key) =>
            when (isStr from)
              (match map_get (str_of from) (st_outputSchema st) with
               | Some schema =>
                   match map_get schema (sc_fields sc) with
                   | Some flds => when (negb (schema =s "") && negb (key ∈b flds)) (err "condition_unknown_output_field" (p +:+ "/condition"))
                   | None => []
                   end
               | None => []
               end)
        | _, _ => []
        end).

Definition edge_shape_issues (edge : value) (p : string) (stepIds : list string) : issues :=
  let kind := get "kind" edge in
  when (not_matching (fun s => s ∈b stepIds) (get "from" edge)) (err "edge_bad_source" (p +:+ "/from"))
  ++ when (not_matching (fun s => isTerminalTarget s || (s ∈b stepIds)) (get "to" edge)) (err "edge_bad_target" (p +:+ "/to"))
  ++ when (negb (is_str_lit kind "normal") && negb (is_str_lit kind "loop")) (err "edge_bad_kind" (p +:+ "/kind"))
  ++ unknown_fields edge ["from"; "to"; "condition"; "kind"] "edge_unknown_field" p.

Definition add_edge_to_graph (i : Z) (edge : value) (stepIds : list string) (g : Graph) : Graph :=
  let from := get "from" edge in
  let to := get "to" edge in
  let kind := get "kind" edge in
  if not_matching (fun s => s ∈b stepIds) from then g else
  let toIsStep := negb (not_matching (fun s => s ∈b stepIds) to) in
  let f := str_of from in
  let t := str_of to in
  {| g_outgoing := map_append f {| oe_condition := get "condition" edge; oe_kind := kind; oe_idx := i |} (g_outgoing g);
     g_anyTerminalEdge := negb (not_matching isTerminalTarget to) || g_anyTerminalEdge g;
     g_allAdj := if toIsStep then map_append f t (g_allAdj g) else g_allAdj g;
     g_normalAdj := if toIsStep && negb (is_str_lit kind "loop") then map_append f t (g_normalAdj g) else g_normalAdj g |}.

Definition validate_edge (st : StepTables) (sc : Schemas) (i : Z) (edge : value) (acc : issues * list string * Graph) : issues * list string * Graph :=
  let '(iss, seen, g) := acc in
  let p := "/edges/" +:+ zstr i in
  if negb (isObj edge) then (iss ++ err "bad_edge" p, seen, g) else
  let key := edge_key edge in
  (iss ++ edge_shape_issues edge p (st_ids st) ++ edge_condition_issues edge p st sc
      ++ when (key ∈b seen) (err "duplicate_edge" p),
   set_add key seen, add_edge_to_graph i edge (st_ids st) g).

Definition validateEdges (spec : value) (st : StepTables) (sc : Schemas) : issues * Graph :=
  let edges := get "edges" spec in
  if negb (isArr edges) then (err "edges_missing" "/edges", empty_graph) else
  let '(iss, _, g) := fold_indexed (validate_edge st sc) 0 (elems edges) ([], [], empty_graph) in (iss, g).

Definition adj_of (adj : list (string * list string)) (u : string) : list string :=
  match map_get u adj with Some l => l | None => [] end.

(** The explicit-stack reachability loop; the head of [stack] is its top. *)
Fixpoint reach_loop (fuel : nat) (adj : list (string * list string)) (reachable stack : list string) : list string :=
  match fuel with
  | O => reachable
  | S f =>
      match stack with
      | [] => reachable
      | cur :: rest =>
          let (reachable', stack') :=
            fold_left (fun acc nxt => let '(r, s) := acc in if nxt ∈b r then (r, s) else (r ++ [nxt], nxt :: s))
              (adj_of adj cur) (reachable, rest) in
          reach_loop f adj reachable' stack'
      end
  end.

(** Colours of the depth-first search. *)
Inductive color : Type := WHITE | GRAY | BLACK.
Record dfs_state : Type := { dfs_color : list (string * color); dfs_path : list string }.

Fixpoint slice_from (v : string) (path : list string) : list string :=
  match path with [] => [] | x :: r => if x =s v then path else slice_from v r end.

(** [dfs(u)]: the first cycle found, with the updated colours and path. *)
Fixpoint dfs (fuel : nat) (adj : list (string * list string)) (u : string) (st : dfs_state) : option (list string) * dfs_state :=
  match fuel with
  | O => (None, st)
  | S f =>
      let st1 := {| dfs_color := map_set u GRAY (dfs_color st); dfs_path := dfs_path st ++ [u] |} in
      let '(c, st2) :=
        (fix visit (vs : list string) (st : dfs_state) : option (list string) * dfs_state :=
           match vs with
           | [] => (None, st)
           | v :: r =>
               match map_get v (dfs_color st) with
               | Some GRAY => (Some (slice_from v (dfs_path st) ++ [v]), st)
               | Some WHITE =>
                   let '(c, st') := dfs f adj v st in
                   match c with Some _ => (c, st') | None => visit r st' end
               | _ => visit r st
               end
           end) (adj_of adj u) st1 in
      match c with
      | Some _ => (c, st2)
      | None => (None, {| dfs_color := map_set u BLACK (dfs_color st2); dfs_path := removelast (dfs_path st2) |})
      end
  end.

Definition findCycle (nodes : list string) (adj : list (string * list string)) : option (list string) :=
  let st0 := {| dfs_color := map (fun n => (n, WHITE)) nodes; dfs_path := [] |} in
  fst ((fix go (ns : list string) (st : dfs_state) : option (list string) * dfs_state :=
     match ns with
     | [] => (None, st)
     | n :: r =>
         match map_get n (dfs_color st) with
         | Some WHITE => let '(c, st') := dfs (S (List.length nodes)) adj n st in
                         match c with Some _ => (c, st') | None => go r st' end
         | _ => go r st
         end
     end) nodes st0).

(** ** Dominators *)

Definition dom_preds (reachable : list string) (normalAdj : list (string * list string)) (n : string) : list string :=
  flat_map (fun uvs => if fst uvs ∈b reachable then map (fun _ => fst uvs) (List.filter (fun v => v =s n) (snd uvs)) else []) normalAdj.

Definition set_inter (a b : list string) : list string := List.filter (fun x => x ∈b b) a.

Definition dom_get (dom : list (string * list string)) (n : string) : list string :=
  match map_get n dom with Some s => s | None => [] end.

Definition dom_next (dom : list (string * list string)) (ps : list string) (n : string) : list string :=
  set_add n (match ps with [] => [] | p :: r => fold_left (fun s q => set_inter s (dom_get dom q)) r (dom_get dom p) end).

Definition same_set (next cur : list string) : bool :=
  Nat.eqb (List.length next) (List.length cur) && forallb (fun x => x ∈b cur) next.

Definition dom_pass (entry : string) (reachable : list string) (normalAdj : list (string * list string))
    (dom : list (string * list string)) : bool * list (string * list string) :=
  fold_left (fun acc n =>
      let '(changed, dom) := acc in
      if n =s entry then (changed, dom) else
      let next := dom_next dom (dom_preds reachable normalAdj n) n in
      if same_set next (dom_get dom n) then (changed, dom) else (true, map_set n next dom))
    reachable (false, dom).

Fixpoint dom_iter (fuel : nat) (entry : string) (reachable : list string) (normalAdj : list (string * list string))
    (dom : list (string * list string)) : list (string * list string) :=
  match fuel with
  | O => dom
  | S f =>
      let '(changed, dom') := dom_pass entry reachable normalAdj dom in
      if changed : bool then dom_iter f entry reachable normalAdj dom' else dom'
  end.

Definition computeDominators (entry : string) (reachable : list string) (normalAdj : list (string * list string)) : list (string * list string) :=
  let init := map (fun n => (n, if n =s entry then [entry] else reachable)) reachable in
  let k := List.length reachable in
  dom_iter (S (k * k)) entry reachable normalAdj init.

Definition analyzeGraph (spec : value) (stepIds : list string) (entry : option string) (g : Graph)
    : issues * (list string * list (string * list string)) :=
  let reachable := match entry with
                   | Some e => reach_loop (S (S (List.length stepIds))) (g_allAdj g) [e] [e]
                   | None => [] end in
  (when (negb (g_anyTerminalEdge g) && isArr (get "edges" spec)) (err "no_terminal_reachable" "/edges")
   ++ (match entry with
       | Some _ => flat_map (fun s => when (negb (s ∈b reachable)) (err "unreachable_step" "/steps")) stepIds
       | None => [] end)
   ++ (match findCycle stepIds (g_normalAdj g) with Some _ => err "unmarked_cycle" "/edges" | None => [] end),
   (reachable, match entry with Some e => computeDominators e reachable (g_normalAdj g) | None => [] end)).

(** ** Templates *)

Definition checkPromptRef (ref : TemplateRef) (path : string) (currentStep : option string) (hasInputPause : bool)
    (inputTypes : list (string * string)) (st : StepTables) (sc : Schemas) (reachable : list string)
    (doms : list (string * list string)) : issues :=
  match ref with
  | RPause _ => when (negb hasInputPause) (err "template_pause_without_input_gate" path)
  | RInput name _ => when (negb (map_has name inputTypes)) (err "template_unknown_input" path)
  | RContext group field _ => when (negb (field ∈b CONTEXT_FIELDS group)) (err "template_unknown_context_field" path)
  | RWorkflowRound _ => []
  | RStepOutput step field _ =>
      if negb (step ∈b st_ids st) then err "template_unknown_step" path else
      (match map_get step (st_outputSchema st) with
       | Some schema =>
           match map_get schema (sc_fields sc) with
           | Some flds => when (negb (schema =s "") && negb (field ∈b flds)) (err "template_unknown_output_field" path)
           | None => []
           end
       | None => []
       end)
      ++ match currentStep with
         | Some cur =>
             when (negb (cur =s "") && (cur ∈b reachable))
               (if step =s cur then err "template_self_reference" path
                else when (negb (match map_get cur doms with Some d => step ∈b d | None => false end))
                       (err "template_step_not_guaranteed" path))
         | None => []
         end
  end.

Definition validateWorkspaceKey (wk path : string) (inputTypes : list (string * string)) : issues :=
  if negb (contains "{{" wk) then when (negb (WORKSPACE_KEY_RE wk)) (err "bad_workspace_key" path) else
  let parsed := parseTemplateReferences wk in
  flat_map (fun code => err code path) (tp_errors parsed)
  ++ match tp_refs parsed with
     | [RInput name raw] =>
         if negb (trim wk =s raw) then err "workspace_key_bad_reference" path else
         match map_get name inputTypes with
         | None => err "template_unknown_input" path
         | Some t => when (negb (t =s "string")) (err "workspace_key_input_not_string" path)
         end
     | _ => err "workspace_key_bad_reference" path
     end.

Definition step_template_issues (inputTypes : list (string * string)) (st : StepTables) (sc : Schemas) (reachable : list string)
    (doms : list (string * list string)) (i : Z) (step : value) : issues :=
  if negb (isObj step) then [] else
  let p := "/steps/" +:+ zstr i in
  let stepId := match get "id" step with VStr s => Some s | _ => None end in
  let hasInputPause := isObj (get "pause_before" step) && is_str_lit (get "kind" (get "pause_before" step)) "input" in
  (match get "prompt_template" step with
   | VStr t =>
       let parsed := parseTemplateReferences t in
       flat_map (fun code => err code (p +:+ "/prompt_template")) (tp_errors parsed)
       ++ flat_map (fun ref => checkPromptRef ref (p +:+ "/prompt_template") stepId hasInputPause inputTypes st sc reachable doms) (tp_refs parsed)
   | _ => []
   end)
  ++ match get "workspace_key_template" step with
     | VStr w => validateWorkspaceKey w (p +:+ "/workspace_key_template") inputTypes
     | _ => []
     end.

Definition validateTemplates (steps : value) (inputTypes : list (string * string)) (st : StepTables) (sc : Schemas)
    (reachable : list string) (doms : list (string * list string)) : issues :=
  fold_indexed (fun i step acc => acc ++ step_template_issues inputTypes st sc reachable doms i step) 0 (elems steps) [].

(** ** Deterministic and exhaustive routing *)

Inductive Selector : Type :=
  | SelRound
  | SelField (field : string) (def : option FieldDef)
  | SelUnknown.

Definition selectorOf (cond : value) (from : string) (st : StepTables) (sc : Schemas) : Selector :=
  if negb (isObj cond) || negb (isStr (get "path" cond)) then SelUnknown else
  match parseConditionPath (str_of (get "path" cond)) with
  | None => SelUnknown
  | Some (NsWorkflow, _) => SelRound
  | Some (NsOutput, key) =>
      SelField key
        match map_get from (st_outputSchema st) with
        | Some schema => if schema =s "" then None
                         else match map_get schema (sc_defs sc) with Some defs => map_get key defs | None => None end
        | None => None
        end
  end.

Definition matchesField (v : value) (def : option FieldDef) : bool :=
  match def with
  | None => true
  | Some d =>
      if fd_type d =s "string" then isStr v
      else if fd_type d =s "number" then isNumber v
      else if fd_type d =s "boolean" then isBool v
      else if fd_type d =s "enum" then isStr v && match fd_enum d with Some l => includes l v | None => false end
      else false (* string[] *)
  end.

(** The operand values of an eq/neq/in condition. *)
Definition cond_values (cond : value) : list value :=
  if is_str_lit (get "op" cond) "in" then elems (get "value" cond) else [get "value" cond].

Definition def_has_type (def : option FieldDef) (t : string) : bool :=
  match def with Some d => fd_type d =s t | None => false end.

Definition conditionValueTypeIssues (cond : value) (sel : Selector) : list string :=
  if is_str_lit (get "op" cond) "exists" then [] else
  match sel with
  | SelRound => if forallb isNumber (cond_values cond) then [] else ["condition_round_needs_number"]
  | SelUnknown => []
  | SelField _ def =>
      if def_has_type def "string[]" then ["condition_op_not_allowed_for_type"]
      else flat_map (fun v =>
             if negb (isScalar v) then ["condition_value_type_mismatch"]
             else if negb (matchesField v def) then
               [if def_has_type def "enum" then "condition_value_not_in_enum" else "condition_value_type_mismatch"]
             else []) (cond_values cond)
  end.

(** [seen.has(v)] then [seen.add(v)], over all operand values: was one seen twice? *)
Fixpoint overlapping (vals : list value) (seen : list value) : bool :=
  match vals with
  | [] => false
  | v :: r => includes seen v || overlapping r (v :: seen)
  end.

Definition oe_conditional (e : OutEdge) : bool := negb (is_undef (oe_condition e)).

Definition cond_path (cond : value) : string :=
  if isObj cond && isStr (get "path" cond) then str_of (get "path" cond) else "?".

(** The multi-branch check: its issues and whether the step's other checks are skipped. *)
Definition multi_branch (conditional : list OutEdge) : issues * bool :=
  let conds := map oe_condition conditional in
  match conds with
  | [] | [_] => ([], false)
  | c0 :: _ =>
      let sels := map cond_path conds in
      if negb (forallb (fun s => s =s cond_path c0) sels) || ("?" ∈b sels) then (err "routing_mixed_selectors" "/edges", true)
      else if negb (forallb (fun c => is_str_lit (get "op" c) "eq" || is_str_lit (get "op" c) "in") conds)
      then (err "routing_not_provably_disjoint" "/edges", true)
      else (when (overlapping (flat_map cond_values conds) []) (err "routing_overlapping_values" "/edges"), false)
  end.

(** The values an eq/in condition covers (for exhaustiveness). *)
Definition covered_values (cond : value) : list value :=
  if is_str_lit (get "op" cond) "eq" then [get "value" cond]
  else if is_str_lit (get "op" cond) "in" then elems (get "value" cond) else [].

Definition exhaustiveness_issues (from : string) (conditional fallbacks : list OutEdge) (st : StepTables) (sc : Schemas) : issues :=
  match conditional with
  | [] => []
  | e0 :: _ =>
      match selectorOf (oe_condition e0) from st sc with
      | SelField field (Some d) =>
          let sameField := forallb (fun e => match selectorOf (oe_condition e) from st sc with
                                             | SelField f _ => f =s field | _ => false end) conditional in
          match fd_enum d with
          | Some en =>
              when (sameField && (fd_type d =s "enum") && fd_required d && (Z.of_nat (List.length fallbacks) =? 0))
                (let covered := flat_map (fun e => covered_values (oe_condition e)) conditional in
                 flat_map (fun v => when (negb (includes covered v)) (err "enum_outcome_unrouted" "/edges")) en)
          | None => []
          end
      | _ => []
      end
  end.

Definition routing_issues (from : string) (edges : list OutEdge) (st : StepTables) (sc : Schemas) : issues :=
  let conditional := List.filter oe_conditional edges in
  let fallbacks := List.filter (fun e => negb (oe_conditional e)) edges in
  when (2 <=? Z.of_nat (List.length fallbacks)) (err "ambiguous_unconditional_edges" "/edges")
  ++ flat_map (fun e =>
       match checkConditionShape (oe_condition e) with
       | [] => flat_map (fun c => err c ("/edges/" +:+ zstr (oe_idx e) +:+ "/condition"))
                 (conditionValueTypeIssues (oe_condition e) (selectorOf (oe_condition e) from st sc))
       | _ => []
       end) conditional
  ++ (let '(iss, skip) := multi_branch conditional in
      iss ++ when (negb skip) (exhaustiveness_issues from conditional fallbacks st sc)).

Definition validateRouting (outgoing : list (string * list OutEdge)) (st : StepTables) (sc : Schemas) : issues :=
  flat_map (fun fe => routing_issues (fst fe) (snd fe) st sc) outgoing.

(** ** The validator *)

Definition has_loop_edge (spec : value) : bool :=
  isArr (get "edges" spec) && existsb (fun e => isObj e && is_str_lit (get "kind" e) "loop") (elems (get "edges" spec)).

(** All issues of a spec object, in the order the phases run. *)
Definition spec_issues (spec : value) : issues :=
  let '(i_agents, roles) := validateAgents (get "agents" spec) in
  let '(i_inputs, inputTypes) := validateInputs (get "inputs" spec) in
  let '(i_schemas, sc) := validateOutputSchemas (get "output_schemas" spec) in
  let '(i_steps, st) := validateSteps (get "steps" spec) roles sc in
  let loop := has_loop_edge spec in
  let '(i_edges, g) := validateEdges spec st sc in
  let entry_ok := negb (not_matching (fun s => s ∈b st_ids st) (get "entry_step" spec)) in
  let entry := if entry_ok then Some (str_of (get "entry_step" spec)) else None in
  let '(i_graph, (reachable, doms)) := analyzeGraph spec (st_ids st) entry g in
  scanSecretFields spec ""
  ++ unknown_fields spec KNOWN_SPEC_FIELDS "unknown_top_level_field" ""
  ++ when (negb (is_str_lit (get "version" spec) "1")) (err "unsupported_version" "/version")
  ++ when (not_matching SAFE_ID_RE (get "name" spec)) (err "bad_workflow_name" "/name")
  ++ when (bad_opt_str (get "description" spec)) (err "bad_field_type" "/description")
  ++ i_agents ++ i_inputs ++ i_schemas ++ i_steps
  ++ when (negb entry_ok) (err "unknown_entry_step" "/entry_step")
  ++ validateLimits (get "limits" spec) loop
  ++ when (negb (is_undef (get "completion_policy" spec))) (validateCompletionPolicy (get "completion_policy" spec))
  ++ when (negb (is_undef (get "stall_policy" spec))) (validateStallPolicy (get "stall_policy" spec) loop)
  ++ i_edges ++ i_graph
  ++ validateTemplates (get "steps" spec) inputTypes st sc reachable doms
  ++ validateRouting (g_outgoing g) st sc.

Record ValidationResult : Type := { vr_valid : bool; vr_issues : issues }.

(** Every issue the validator reports has severity [error]. *)
Definition validateWorkflowSpec (input : value) : ValidationResult :=
  let l := if isObj input then spec_issues input else [{| vi_code := "not_an_object"; vi_path := None |}] in
  {| vr_valid := match l with [] => true | _ => false end; vr_issues := l |}.
