(* ===== verification/Outputs.v ===== *)
(** * Agent outputs and policies

    The pure functions between an agent's text and a routing decision:
    src/workflow/output-parser.ts, output-validator.ts, input-values.ts,
    completion-policy.ts, stall-policy.ts and recovery.ts, with the revision part of
    src/lib/workspace-lease.ts. *)

From S2P Require Import Prelude Values Json Contract Templates Verification Validator.

(** ** Output text *)

Definition MAX_AGENT_OUTPUT_BYTES : Z := 256 * 1024.

Record bounded_text : Type := { bt_text : string; bt_truncated : bool }.

Definition boundText (t : string) (maxBytes : Z) : bounded_text :=
  if byteLen t <=? maxBytes then {| bt_text := t; bt_truncated := false |}
  else {| bt_text := utf16_take maxBytes t; bt_truncated := true |}.

(** The text of an [agent.output.completed] event. *)
Definition completed_text (e : value) : option string :=
  if is_str_lit (get "type" e) "agent.output.completed"
  then match get "text" (get "payload" e) with VStr t => Some t | _ => None end else None.

(** The text of a stdout [agent.output.delta] event. *)
Definition delta_text (e : value) : option string :=
  let p := get "payload" e in
  if is_str_lit (get "type" e) "agent.output.delta" && (is_undef (get "stream" p) || is_str_lit (get "stream" p) "stdout")
  then match get "text" p with VStr t => Some t | _ => None end else None.

Fixpoint join_deltas (events : list value) (out : string) (maxBytes : Z) : bounded_text :=
  match events with
  | [] => {| bt_text := out; bt_truncated := false |}
  | e :: r =>
      match delta_text e with
      | None => join_deltas r out maxBytes
      | Some t =>
          if maxBytes <? byteLen out + byteLen t
          then {| bt_text := out +:+ utf16_take (Z.max 0 (maxBytes - byteLen out)) t; bt_truncated := true |}
          else join_deltas r (out +:+ t) maxBytes
      end
  end.

Fixpoint find_completed (events_rev : list value) : option string :=
  match events_rev with
  | [] => None
  | e :: r => match completed_text e with Some t => Some t | None => find_completed r end
  end.

Definition extractAgentOutputText (events : list value) (maxBytes : Z) : bounded_text :=
  match find_completed (rev events) with
  | Some t => boundText t maxBytes
  | None => join_deltas events "" maxBytes
  end.

(** ** One JSON object *)

Definition LF : ascii := ascii_of_N 10.
Definition CR : ascii := ascii_of_N 13.
Definition TAB : ascii := ascii_of_N 9.

Definition opt_char (c : ascii) (l : chars) : chars :=
  match l with x :: r => if Ascii.eqb x c then r else l | [] => [] end.

Fixpoint skip_blanks (l : chars) : chars :=
  match l with c :: r => if Ascii.eqb c " " || Ascii.eqb c TAB then skip_blanks r else l | [] => [] end.

(** [FENCE_RE]: the opening fence with its line end, the captured body, and the line end
    with the closing fence at the end of the text. *)
Definition fence_body (s : string) : option string :=
  match strip_lit "```" (lit s) with
  | None => None
  | Some l1 =>
      let l2 := skip_blanks (match strip_lit "json" l1 with Some l => l | None => l1 end) in
      match expect LF (opt_char CR l2) with
      | None => None
      | Some l3 =>
          match strip_lit "```" (rev l3) with
          | None => None
          | Some l4 => match expect LF l4 with
                       | None => None
                       | Some l5 => Some (string_of_list_ascii (rev (opt_char CR l5)))
                       end
          end
      end
  end.

Inductive parse_code : Type := output_empty | output_too_large | output_not_json | output_not_object.
Definition parse_code_str (c : parse_code) : string :=
  match c with
  | output_empty => "output_empty" | output_too_large => "output_too_large"
  | output_not_json => "output_not_json" | output_not_object => "output_not_object"
  end.

Definition parseSingleJsonObject (raw : string) (maxBytes : Z) : result parse_code value :=
  if maxBytes <? byteLen raw then Err output_too_large else
  let trimmed := trim raw in
  if trimmed =s "" then Err output_empty else
  try! body := (if starts_with "```" trimmed
                then match fence_body trimmed with Some b => Ok (trim b) | None => Err output_not_json end
                else if contains "```" trimmed then Err output_not_json else Ok trimmed) in
  if negb (starts_with "{" body) then Err output_not_object else
  match JSON_parse body with
  | None => Err output_not_json
  | Some v => if isObj v then Ok v else Err output_not_object
  end.

(** ** Schemas of outputs *)

Definition MAX_OUTPUT_STRING_LEN : Z := 16 * 1024.
Definition MAX_OUTPUT_ARRAY_LEN : Z := 512.
Definition MAX_OUTPUT_SERIALIZED_BYTES : Z := 128 * 1024.

Definition matchesSchemaType (v f : value) : bool :=
  let t := get "type" f in
  if is_str_lit t "string" then isStr v
  else if is_str_lit t "number" then isFinite v
  else if is_str_lit t "boolean" then isBool v
  else if is_str_lit t "string[]" then isArr v && forallb isStr (elems v)
  else if is_str_lit t "enum" then isStr v && isArr (get "enum" f) && includes (elems (get "enum" f)) v
  else false.

(** The checks of one declared field: [None] when it passes. *)
Definition field_error (obj : value) (name : string) (def : value) : option string :=
  if negb (has_own name obj) then (if truthy (get "required" def) then Some "output_missing_required" else None) else
  let v := get name obj in
  if negb (matchesSchemaType v def) then
    Some (if is_str_lit (get "type" def) "enum" then "output_enum_invalid" else "output_type_mismatch")
  else if is_str_lit (get "type" def) "string" && (MAX_OUTPUT_STRING_LEN <? byteLen (str_of v)) then Some "output_string_too_long"
  else if is_str_lit (get "type" def) "string[]" then
    (if MAX_OUTPUT_ARRAY_LEN <? Z.of_nat (List.length (elems v)) then Some "output_array_too_long"
     else if existsb (fun s => MAX_OUTPUT_STRING_LEN <? byteLen (str_of s)) (elems v) then Some "output_string_too_long" else None)
  else None.

(** The first field that fails, with its error. *)
Fixpoint first_error (f : string * value -> option string) (l : list (string * value)) : option (string * string) :=
  match l with [] => None | x :: r => match f x with Some c => Some (c, fst x) | None => first_error f r end end.

(** The error code and, for a field error, the field. *)
Definition validateAgainstSchema (obj schema : value) : result (string * option string) value :=
  let fields := get "fields" schema in
  match List.find (fun k => negb (has_own k fields)) (obj_keys obj) with
  | Some k => Err ("output_unknown_field", Some k)
  | None =>
      match first_error (fun kv => field_error obj (fst kv) (snd kv)) (entries fields) with
      | Some (code, field) => Err (code, Some field)
      | None =>
          match JSON_stringify obj with
          | Some s => if MAX_OUTPUT_SERIALIZED_BYTES <? byteLen s then Err ("output_too_large", None) else Ok obj
          | None => Ok obj
          end
      end
  end.

(** ** Input values *)

Definition isSecretName (key : string) : bool :=
  let norm := norm_key key in (norm =s "pid") || existsb (fun t => contains t norm) SECRET_TOKENS.

Definition matchesDeclaredType (v t : value) : bool :=
  if is_str_lit t "string" then isStr v
  else if is_str_lit t "number" then isFinite v
  else if is_str_lit t "boolean" then isBool v
  else if is_str_lit t "string[]" then isArr v && forallb isStr (elems v)
  else false.

Fixpoint normalize_inputs (defs : list (string * value)) (given : value) (out : list (string * value)) : result string value :=
  match defs with
  | [] => Ok (VObj out)
  | (name, def) :: r =>
      if has_own name given then
        (if negb (matchesDeclaredType (get name given) (get "type" def)) then Err "invalid_input_values"
         else normalize_inputs r given (obj_set name (get name given) out))
      else if negb (is_undef (get "default" def)) then normalize_inputs r given (obj_set name (get "default" def) out)
      else if truthy (get "required" def) then Err "invalid_input_values"
      else normalize_inputs r given out
  end.

Definition normalizeInputValues (spec provided : value) : result string value :=
  if negb (is_undef provided) && negb (isObj provided) then Err "invalid_input_values" else
  let defs := get "inputs" spec in
  if existsb (fun name => isSecretName name || negb (has_own name defs)) (obj_keys provided) then Err "invalid_input_values"
  else normalize_inputs (entries defs) provided [].

(** ** Sorting strings ([Array.prototype.sort] without a comparator) *)

(** The rank of a UTF-8 byte in UTF-16 code unit order: the lead bytes of four-byte
    sequences (surrogate pairs) come between those of U+D7FF and U+E000. *)
Definition utf16_rank (c : ascii) : N :=
  let b := N_of_ascii c in if (240 <=? b)%N then (32 * 237 + 1 + (b - 240))%N else (32 * b)%N.

Fixpoint js_leb (a b : string) : bool :=
  match a, b with
  | EmptyString, _ => true
  | String _ _, EmptyString => false
  | String x a', String y b' =>
      if (utf16_rank x <? utf16_rank y)%N then true
      else if (utf16_rank y <? utf16_rank x)%N then false else js_leb a' b'
  end.

Fixpoint js_insert (s : string) (l : list string) : list string :=
  match l with [] => [s] | x :: r => if js_leb s x then s :: l else x :: js_insert s r end.
Definition js_sort (l : list string) : list string := fold_right js_insert [] l.

(** [new Set(l)], in insertion order. *)
Definition js_set (l : list string) : list string := fold_left (fun acc s => set_add s acc) l [].

(** ** Workspace revisions (JSON values, as they are persisted) *)

Definition MAX_CHANGED_FILES : Z := 200.
Definition MAX_PATH_LEN : Z := 1024.
Definition HEX40_RE (s : string) : bool :=
  all_chars (fun c => is_digit c || in_range "a" "f" c) s && (7 <=? byteLen s) && (byteLen s <=? 40).

Definition revisionsMatch (a b : value) : bool :=
  truthy a && truthy b && strict_eq (get "state_hash" a) (get "state_hash" b).

Definition isValidRevision (v : value) : bool :=
  (isObj v || isArr v)
  && str_ok HEX64_RE (get "state_hash" v)
  && str_ok isIsoUtc (get "observed_at" v)
  && (is_str_lit (get "revision_kind" v) "unavailable"
      || (is_str_lit (get "revision_kind" v) "git"
          && (strict_eq (get "head_commit" v) VNull || str_ok HEX40_RE (get "head_commit" v))
          && isBool (get "dirty" v)
          && isArr (get "changed_files" v)
          && (Z.of_nat (List.length (elems (get "changed_files" v))) <=? MAX_CHANGED_FILES)
          && forallb (str_ok (fun x => js_length x <=? MAX_PATH_LEN)) (elems (get "changed_files" v)))).

(** ** Workspace leases *)

Definition NUL : string := String (ascii_of_N 0) EmptyString.

Definition workspaceLeaseId (sha256_hex : string -> string) (workflowId nodeId workspaceKey : string) : string :=
  "wl_" +:+ substring 0 32 (sha256_hex (workflowId +:+ NUL +:+ nodeId +:+ NUL +:+ workspaceKey)).

Definition WORKSPACE_LEASE_STATUSES : list string := ["acquiring"; "active"; "release_requested"; "released"; "conflict"].

Definition isValidLease (v : value) : bool :=
  (isObj v || isArr v)
  && str_ok (fun s => negb (s =s "")) (get "workspace_lease_id" v)
  && str_ok (fun s => negb (s =s "")) (get "workflow_id" v)
  && str_ok (fun s => negb (s =s "")) (get "node_id" v)
  && str_ok WORKSPACE_KEY_RE (get "workspace_key" v)
  && is_str_lit (get "mode" v) "exclusive"
  && str_ok (fun s => s ∈b WORKSPACE_LEASE_STATUSES) (get "status" v)
  && (is_nullish (get "base_revision" v) || isValidRevision (get "base_revision" v))
  && (is_nullish (get "current_revision" v) || isValidRevision (get "current_revision" v)).

(** The observation as a function of what the three [git] calls printed. *)
Section Observe.
Context (sha256_hex : string -> string).

Fixpoint split_lines_go (l : chars) (acc : chars) : list string :=
  match l with
  | [] => [string_of_list_ascii (rev acc)]
  | c :: r => if Ascii.eqb c LF then string_of_list_ascii (rev acc) :: split_lines_go r [] else split_lines_go r (c :: acc)
  end.
Definition split_lines (s : string) : list string := split_lines_go (lit s) [].

Definition observeWorkspaceRevision (isWorkTree headRaw status : option string) (observed_at : string) : value :=
  match isWorkTree with
  | None => VObj [("revision_kind", VStr "unavailable"); ("state_hash", VStr (sha256_hex "unavailable")); ("observed_at", VStr observed_at)]
  | Some _ =>
      let head := match headRaw with Some h => if trim h =s "" then None else Some (trim h) | None => None end in
      let porcelain := match status with Some s => s | None => "" end in
      let lines := List.filter (fun l => negb (trim l =s "")) (split_lines porcelain) in
      let files := List.filter (fun f => negb (f =s "")) (map (fun l => utf16_take MAX_PATH_LEN (trim (utf16_drop 3 l))) lines) in
      VObj [("revision_kind", VStr "git"); ("head_commit", match head with Some h => VStr h | None => VNull end);
            ("dirty", VBool (0 <? Z.of_nat (List.length lines)));
            ("state_hash", VStr (sha256_hex (match head with Some h => h | None => "none" end +:+ String LF porcelain)));
            ("changed_files", VArr (map VStr (take (Z.to_nat MAX_CHANGED_FILES) (js_sort files))));
            ("observed_at", VStr observed_at)]
  end.
End Observe.

(** ** Completion *)

Definition isCompletableSpec (spec : value) : bool :=
  isArr (get "edges" spec) && existsb (fun e => truthy e && is_str_lit (get "to" e) "$complete") (elems (get "edges" spec)).

Record VerifiedEvidence : Type := {
  ev_task_status : option string;
  ev_exit_code : option Z;
  ev_content_hash : option string;
  ev_revision_before : option string;
  ev_revision_after : option string;
  ev_repository_changed : option bool;
  ev_changed_files : option (list string);
  ev_changed_files_hash : option string;
  ev_tests_passed : option bool;
}.

Definition testsEvidenceFromRefs (refs : value) : option bool :=
  if negb (isArr refs) then None
  else if existsb (fun r => truthy r && is_str_lit (get "kind" r) "tests_passed") (elems refs) then Some true
  else if existsb (fun r => truthy r && is_str_lit (get "kind" r) "tests_failed") (elems refs) then Some false
  else None.

Definition revHash (r : value) : option string := match get "state_hash" r with VStr s => Some s | _ => None end.

Definition assembleEvidence (sha256_hex : string -> string) (taskStatus : option string) (res : option AgentTaskResultV1)
    (revisionBefore revisionAfter : value) : VerifiedEvidence :=
  let before := revHash revisionBefore in
  let after := revHash revisionAfter in
  let changed := if is_str_lit (get "revision_kind" revisionAfter) "git"
                 then Some (map str_of (elems (get "changed_files" revisionAfter))) else None in
  {| ev_task_status := taskStatus;
     ev_exit_code := r ← res; ar_process_exit_code r;
     ev_content_hash := ar_content_hash <$> res;
     ev_revision_before := before;
     ev_revision_after := after;
     ev_repository_changed := match before, after with Some b, Some a => Some (negb (b =s a)) | _, _ => None end;
     ev_changed_files := changed;
     ev_changed_files_hash :=
       (fun l => sha256_hex (match JSON_stringify (VArr (map VStr (js_sort l))) with Some s => s | None => "" end)) <$> changed;
     ev_tests_passed := verificationTestsResult (r ← res; ar_verification r) |}.

Definition is_some {A : Type} (o : option A) : bool := match o with Some _ => true | None => false end.
Definition opt_is (o : option string) (s : string) : bool := match o with Some x => x =s s | None => false end.

Definition present (t : string) (e : VerifiedEvidence) : bool :=
  if t =s "task_status" then opt_is (ev_task_status e) "completed"
  else if t =s "exit_code" then is_some (ev_exit_code e)
  else if t =s "content_hash" then match ev_content_hash e with Some h => negb (h =s "") | None => false end
  else if t =s "workspace_revision" then is_some (ev_revision_before e) && is_some (ev_revision_after e)
  else if t =s "changed_files" then is_some (ev_changed_files e)
  else if t =s "tests_passed" then is_some (ev_tests_passed e)
  else false.

Inductive CompletionDecision : Type :=
  | DComplete
  | DBlocked (missing : list string)
  | DFailed (reason : string).

Definition opt_bool_is (o : option bool) (b : bool) : bool := match o with Some x => Bool.eqb x b | None => false end.

Definition missing_evidence (policy : value) (e : VerifiedEvidence) (remainingWork : value) : list string :=
  List.filter (fun t => negb (present t e)) (map str_of (elems (get "required_evidence" policy)))
  ++ (if truthy (get "require_repository_change" policy) && negb (opt_bool_is (ev_repository_changed e) true) then ["repository_change"] else [])
  ++ (if truthy (get "require_tests_passed" policy) && negb (opt_bool_is (ev_tests_passed e) true) then ["tests_passed"] else [])
  ++ (if truthy (get "require_no_remaining_work" policy) && (0 <? Z.of_nat (List.length (elems remainingWork))) then ["no_remaining_work"] else []).

Definition evaluateCompletion (policy : value) (e : VerifiedEvidence) (remainingWork : value) : CompletionDecision :=
  if opt_is (ev_task_status e) "failed" || opt_is (ev_task_status e) "cancelled" then DFailed "evidence_conflict_task_status"
  else if match ev_exit_code e with Some c => negb (c =? 0) | None => false end then DFailed "evidence_conflict_nonzero_exit"
  else if truthy (get "require_tests_passed" policy) && opt_bool_is (ev_tests_passed e) false then DFailed "evidence_conflict_tests_failed"
  else match missing_evidence policy e remainingWork with
       | [] => DComplete
       | m => DBlocked (js_set m)
       end.

(** ** Stall detection *)

(** The values of the signals, by name. *)
Definition stall_parts (signals : list string) (values : string -> string) : list string :=
  map (fun s => s +:+ "=" +:+ values s) (js_sort (js_set signals)).

Fixpoint join_with (sep : string) (l : list string) : string :=
  match l with [] => "" | [x] => x | x :: r => x +:+ sep +:+ join_with sep r end.


Definition computeStallFingerprint (sha256_hex : string -> string) (signals : list string) (values : string -> string) : string :=
  substring 0 32 (sha256_hex (join_with NUL (stall_parts signals values))).

(** Length of the run of the last element at the end of the list. *)
Fixpoint run_length (last : string) (l_rev : list string) : nat :=
  match l_rev with x :: r => if x =s last then S (run_length last r) else O | [] => O end.

Definition consecutiveUnchanged (fps : list string) : Z :=
  match rev fps with [] => 0 | last :: _ => Z.of_nat (run_length last (rev fps)) end.

Definition isStalled (fps : list string) (maxStalledRounds : Z) : bool := maxStalledRounds <=? consecutiveUnchanged fps.

(** ** Recovery *)

Definition stepExecutionId (workflowId stepId : string) (round attempt : Z) : string :=
  workflowId +:+ "." +:+ stepId +:+ ".r" +:+ zstr round +:+ ".a" +:+ zstr attempt.

Definition humanRequestId (sha256_hex : string -> string) (sid : string) : string :=
  "hr_" +:+ substring 0 32 (sha256_hex sid).

Inductive RecoveryPhase : Type := PhTerminal | PhBlocked | PhNeedsStepExecution | PhNeedsTask | PhAwaitingTask | PhNeedsRouting.

(** [currentStep]: the status and bound task of the current step execution. *)
Definition classifyPhase (wf_status : string) (currentStep : option (string * option string)) : RecoveryPhase :=
  if wf_status ∈b ["completed"; "failed"; "cancelled"] then PhTerminal
  else if wf_status =s "blocked" then PhBlocked
  else match currentStep with
       | None => PhNeedsStepExecution
       | Some (st, task) =>
           if st =s "completed" then PhNeedsRouting
           else match task with None => PhNeedsTask | Some _ => PhAwaitingTask end
       end.
