(* ===== verification/Examples.v ===== *)
(** * The built-in planner/executor example (src/workflow/examples.ts)

    The example specification and its two output schemas as data, used to exercise the
    executable definitions and to witness the properties. *)

From S2P Require Import Prelude Values Json Validator.

Definition dq : string := String dquote "".
Definition vs (s : string) : value := VStr s.
Definition vi (z : Z) : value := VNum (NInt z).
Definition strs (l : list string) : value := VArr (map VStr l).

Definition field (type : string) (required : bool) : value := VObj [("type", vs type); ("required", VBool required)].
Definition enum_field (vals : list string) : value :=
  VObj [("type", vs "enum"); ("required", VBool true); ("enum", strs vals)].

Definition PLANNER_DECISION_SCHEMA : value :=
  VObj [("fields", VObj [
    ("status", enum_field ["continue"; "complete"; "blocked"; "failed"]);
    ("summary", field "string" true);
    ("next_step", field "string" false);
    ("acceptance_criteria", field "string[]" false);
    ("open_questions", field "string[]" false)])].

Definition EXECUTOR_HANDOFF_SCHEMA : value :=
  VObj [("fields", VObj [
    ("status", enum_field ["implemented"; "blocked"; "failed"]);
    ("summary", field "string" true);
    ("changed_files", field "string[]" true);
    ("tests_run", field "string[]" true);
    ("remaining_work", field "string[]" true);
    ("risks", field "string[]" true)])].

Definition status_edge (from to kind status : string) : value :=
  VObj [("from", vs from); ("to", vs to); ("kind", vs kind);
        ("condition", VObj [("path", vs "output.status"); ("op", vs "eq"); ("value", vs status)])].

Definition plannerExecutorLoopExample : value :=
  VObj [
    ("version", vs "1");
    ("name", vs "planner-executor-loop");
    ("description", vs "Codex plans, Claude Code implements, Codex reviews the handoff and loops back or terminates.");
    ("entry_step", vs "plan");
    ("inputs", VObj [
      ("objective", VObj [("type", vs "string"); ("required", VBool true); ("description", vs "What the workflow should accomplish.")]);
      ("workspace_key", VObj [("type", vs "string"); ("required", VBool false); ("description", vs "Opaque workspace key for the executor.")])]);
    ("agents", VObj [
      ("planner", VObj [("agent", vs "codex"); ("node_id", vs "node_planner"); ("description", vs "Plans and reviews.")]);
      ("executor", VObj [("agent", vs "claude-code"); ("node_id", vs "node_executor"); ("description", vs "Implements.")])]);
    ("output_schemas", VObj [("planner_decision", PLANNER_DECISION_SCHEMA); ("executor_handoff", EXECUTOR_HANDOFF_SCHEMA)]);
    ("limits", VObj [("max_rounds", vi 6); ("max_tasks", vi 20); ("max_runtime_seconds", vi 3600); ("max_step_attempts", vi 3); ("max_failures", vi 3)]);
    ("steps", VArr [
      VObj [("id", vs "plan"); ("type", vs "agent_task"); ("agent_role", vs "planner"); ("label", vs "Plan");
            ("prompt_template", vs ("You are the planner. Objective: {{ inputs.objective }}. Produce an implementation plan and acceptance criteria. Set status=" +:+ dq +:+ "continue" +:+ dq +:+ " to proceed to implementation, or " +:+ dq +:+ "complete" +:+ dq +:+ "/" +:+ dq +:+ "blocked" +:+ dq +:+ "/" +:+ dq +:+ "failed" +:+ dq +:+ "."));
            ("output_schema", vs "planner_decision"); ("context_binding", vs "latest_planner_decision")];
      VObj [("id", vs "implement"); ("type", vs "agent_task"); ("agent_role", vs "executor"); ("label", vs "Implement");
            ("prompt_template", vs ("You are the executor. Objective: {{ inputs.objective }}. Original plan: {{ steps.plan.output.summary }}. Latest instruction: {{ context.latest_planner_decision.next_step }}. Acceptance criteria: {{ context.latest_planner_decision.acceptance_criteria }}. Round: {{ workflow.round }}. Implement the next increment and report a structured handoff."));
            ("output_schema", vs "executor_handoff"); ("context_binding", vs "latest_executor_handoff");
            ("workspace_key_template", vs "{{ inputs.workspace_key }}"); ("permission_mode", vs "default")];
      VObj [("id", vs "review"); ("type", vs "agent_task"); ("agent_role", vs "planner"); ("label", vs "Review");
            ("prompt_template", vs ("You are the planner reviewing the executor handoff. Objective: {{ inputs.objective }}. Executor summary: {{ context.latest_executor_handoff.summary }}. Changed files: {{ context.latest_executor_handoff.changed_files }}. Remaining work: {{ context.latest_executor_handoff.remaining_work }}. Round: {{ workflow.round }}. Decide status=" +:+ dq +:+ "continue" +:+ dq +:+ " (loop back with a next_step), " +:+ dq +:+ "complete" +:+ dq +:+ ", " +:+ dq +:+ "blocked" +:+ dq +:+ ", or " +:+ dq +:+ "failed" +:+ dq +:+ "."));
            ("output_schema", vs "planner_decision"); ("context_binding", vs "latest_planner_decision")]]);
    ("edges", VArr [
      status_edge "plan" "implement" "normal" "continue";
      status_edge "plan" "$complete" "normal" "complete";
      status_edge "plan" "$blocked" "normal" "blocked";
      status_edge "plan" "$failed" "normal" "failed";
      status_edge "implement" "review" "normal" "implemented";
      status_edge "implement" "$blocked" "normal" "blocked";
      status_edge "implement" "$failed" "normal" "failed";
      status_edge "review" "implement" "loop" "continue";
      status_edge "review" "$complete" "normal" "complete";
      status_edge "review" "$blocked" "normal" "blocked";
      status_edge "review" "$failed" "normal" "failed"]);
    ("completion_policy", VObj [])].

(** The repository's example passes its own validator. *)
Example example_valid : vr_valid (validateWorkflowSpec plannerExecutorLoopExample) = true.
Proof. vm_compute. reflexivity. Qed.
