(* ===== verification/ValidatorProps.v ===== *)
(** * What a valid spec guarantees

    Consequences of [validateWorkflowSpec] accepting a spec: the tables it was checked
    against ([Phases]), unambiguous and exhaustive routing, bounded limits, absence of
    credential-like field names, reachability of every step. *)

From S2P Require Import Prelude Values Json Contract Conditions Templates Verification Validator Examples.

Lemma set_add_In (x a : string) (l : list string) : In x (set_add a l) <-> x = a \/ In x l.
Proof.
  unfold set_add. destruct (a ∈b l) eqn:E; [apply str_in_spec in E; naive_solver|].
  rewrite in_app_iff. cbn. naive_solver.
Qed.

Lemma set_add_NoDup (a : string) (l : list string) : List.NoDup l -> List.NoDup (set_add a l).
Proof.
  intros H. unfold set_add. destruct (a ∈b l) eqn:E; [done|]. apply str_in_false in E.
  apply List.NoDup_app; [done|repeat constructor; auto|]. intros x Hx [<-|[]]. done.
Qed.

(** ** The phases of a successful validation *)

Record Phases (spec : value) : Type := {
  ph_roles : list string;
  ph_inputs : list (string * string);
  ph_sc : Schemas;
  ph_st : StepTables;
  ph_g : Graph;
  ph_entry : string;
  ph_reach : list string;
  ph_doms : list (string * list string);
  ph_obj : isObj spec = true;
  ph_secrets : scanSecretFields spec "" = [];
  ph_agents : validateAgents (get "agents" spec) = ([], ph_roles);
  ph_inputs_ok : validateInputs (get "inputs" spec) = ([], ph_inputs);
  ph_schemas : validateOutputSchemas (get "output_schemas" spec) = ([], ph_sc);
  ph_steps : validateSteps (get "steps" spec) ph_roles ph_sc = ([], ph_st);
  ph_edges : validateEdges spec ph_st ph_sc = ([], ph_g);
  ph_entry_in : get "entry_step" spec = VStr ph_entry /\ In ph_entry (st_ids ph_st);
  ph_limits : validateLimits (get "limits" spec) (has_loop_edge spec) = [];
  ph_graph : analyzeGraph spec (st_ids ph_st) (Some ph_entry) ph_g = ([], (ph_reach, ph_doms));
  ph_templates : validateTemplates (get "steps" spec) ph_inputs ph_st ph_sc ph_reach ph_doms = [];
  ph_routing : validateRouting (g_outgoing ph_g) ph_st ph_sc = [];
}.

Lemma when_nil (b : bool) (l : issues) : when b l = [] -> b = false \/ l = [].
Proof. destruct b; cbn; auto. Qed.

Lemma when_err_nil (b : bool) (c p : string) : when b (err c p) = [] -> b = false.
Proof. destruct b; done. Qed.

Lemma flat_map_nil {A B : Type} (f : A -> list B) (l : list A) : flat_map f l = [] -> forall x, In x l -> f x = [].
Proof.
  induction l as [|a l IH]; cbn; [done|]. intros H x [->|Hx]; apply app_eq_nil in H as [H1 H2]; auto.
Qed.

Lemma not_matching_false (re : string -> bool) (v : value) :
  not_matching re v = false -> exists s, v = VStr s /\ re s = true.
Proof.
  unfold not_matching. destruct v; cbn; try done. intros H. exists s. split; [done|]. by apply negb_false_iff in H.
Qed.

Ltac nil_split := repeat match goal with H : _ ++ _ = [] |- _ => apply app_eq_nil in H as [? H] end.

Lemma valid_phases (spec : value) : vr_valid (validateWorkflowSpec spec) = true -> Phases spec.
Proof.
  unfold validateWorkflowSpec. cbn. destruct (isObj spec) eqn:Ho; [|done].
  destruct (spec_issues spec) eqn:E; [|done]. intros _. unfold spec_issues in E.
  destruct (validateAgents _) as [ia roles] eqn:E1. destruct (validateInputs _) as [ii inputs] eqn:E2.
  destruct (validateOutputSchemas _) as [iss sc] eqn:E3. destruct (validateSteps _ _ _) as [ist st] eqn:E4.
  destruct (validateEdges _ _ _) as [ie g] eqn:E5.
  match type of E with context [analyzeGraph ?a ?b ?c ?d] => destruct (analyzeGraph a b c d) as [ig [reach doms]] eqn:E7 end.
  nil_split. match goal with H : when (negb (negb _)) _ = [] |- _ => apply when_err_nil in H; rewrite negb_involutive in H; rename H into E6 end.
  rewrite E6 in E7. cbn in E7.
  destruct (get "entry_step" spec) eqn:E8; try discriminate E6. cbn in E6, E7. apply negb_false_iff, str_in_spec in E6.
  subst. econstructor; eauto.
Qed.

(** ** The outgoing table of the graph is the spec's edge list, grouped by source *)

Definition out_of (g : Graph) (f : string) : list OutEdge :=
  match map_get f (g_outgoing g) with Some l => l | None => [] end.

Section Maps.
Context {A : Type}.
Implicit Types (m : list (string * A)) (k : string).

Lemma map_get_cons k k' v m : map_get k ((k', v) :: m) = if k' =s k then Some v else map_get k m.
Proof. unfold map_get. cbn. by destruct (k' =s k). Qed.

Lemma map_get_app_new k v m k' : map_get k m = None -> map_get k' (m ++ [(k, v)]) = if k =s k' then Some v else map_get k' m.
Proof.
  induction m as [|[a b] m IH]; cbn.
  - intros _. rewrite map_get_cons. by destruct (k =s k').
  - rewrite !map_get_cons. destruct (a =s k) eqn:Ea; [done|]. intros H. rewrite IH by done.
    destruct (a =s k') eqn:Eb; [|done]. destruct (k =s k') eqn:Ec; [|done].
    bsimpl. congruence.
Qed.

Lemma map_get_replace k v m k' : map_get k' (map (fun kv => if fst kv =s k then (k, v) else kv) m)
  = if k =s k' then match map_get k m with Some _ => Some v | None => None end else map_get k' m.
Proof.
  induction m as [|[a b] m IH]; cbn; [by destruct (k =s k')|].
  rewrite !map_get_cons.
  destruct (a =s k) eqn:Ea; rewrite map_get_cons, IH; destruct (k =s k') eqn:Ec; bsimpl; subst.
  - done.
  - rewrite (proj2 (String.eqb_neq k k')) by done. done.
  - destruct (a =s k') eqn:Ed; bsimpl; [congruence|done].
  - done.
Qed.

Lemma map_get_set k v m k' : map_get k' (map_set k v m) = if k =s k' then Some v else map_get k' m.
Proof.
  unfold map_set, map_has. destruct (map_get k m) eqn:E.
  - rewrite map_get_replace, E. done.
  - by rewrite map_get_app_new.
Qed.

Lemma map_get_In k v m : map_get k m = Some v -> In (k, v) m.
Proof.
  induction m as [|[a b] m IH]; [done|]. rewrite map_get_cons.
  destruct (a =s k) eqn:E; intros H; [|right; auto]. bsimpl. left. congruence.
Qed.
End Maps.

Lemma out_of_append (g : Graph) (f f' : string) (x : OutEdge) (m : list (string * list OutEdge)) :
  match map_get f' (map_append f x m) with Some l => l | None => [] end
  = match map_get f' m with Some l => l | None => [] end ++ if f =s f' then [x] else [].
Proof.
  unfold map_append. rewrite map_get_set. destruct (f =s f') eqn:E.
  - apply String.eqb_eq in E. by subst.
  - by rewrite app_nil_r.
Qed.

Definition edge_ok (ids : list string) (e : value) : Prop :=
  isObj e = true /\ exists f, get "from" e = VStr f /\ In f ids.

Lemma add_edge_out (i : Z) (e : value) (ids : list string) (g : Graph) (f : string) :
  edge_ok ids e ->
  map oe_condition (out_of (add_edge_to_graph i e ids g) f)
  = map oe_condition (out_of g f) ++ if is_str_lit (get "from" e) f then [get "condition" e] else [].
Proof.
  intros (Ho & f0 & Hf & Hin). unfold add_edge_to_graph, out_of.
  rewrite Hf. unfold not_matching. cbn. rewrite (proj2 (str_in_spec f0 ids) Hin). cbn.
  rewrite (out_of_append g). rewrite map_app. by destruct (f0 =s f).
Qed.

Lemma edges_out (st : StepTables) (sc : Schemas) (l : list value) (i : Z) (iss : issues) (seen : list string) (g : Graph)
    (iss' : issues) (seen' : list string) (g' : Graph) (f : string) :
  fold_indexed (validate_edge st sc) i l (iss, seen, g) = (iss', seen', g') -> iss' = [] ->
  iss = [] /\ Forall (edge_ok (st_ids st)) l /\
  map oe_condition (out_of g' f)
  = map oe_condition (out_of g f) ++ map (get "condition") (List.filter (fun e => is_str_lit (get "from" e) f) l).
Proof.
  revert i iss seen g. induction l as [|e l IH]; intros i iss seen g H Hn; cbn in H.
  - inversion H; subst. rewrite app_nil_r. auto.
  - destruct (isObj e) eqn:Ho; cbn in H; apply IH in H; try done; destruct H as (H1 & H2 & H3); nil_split; [|done].
    unfold edge_shape_issues in *. nil_split.
    match goal with H : when (not_matching _ (get "from" e)) _ = [] |- _ => apply when_err_nil, not_matching_false in H as (f0 & Hf & Hin) end.
    apply str_in_spec in Hin.
    assert (edge_ok (st_ids st) e) as Hok by (split; eauto).
    split; [done|]. split; [by constructor|].
    rewrite H3, add_edge_out by done. rewrite <- app_assoc. f_equal. cbn.
    by destruct (is_str_lit (get "from" e) f).
Qed.

(** The conditions the validator checked for a step are those of the edges the runtime
    considers, in order; and every edge starts at a step. *)
Lemma phases_out (spec : value) (ph : Phases spec) (f : string) :
  map oe_condition (out_of (ph_g _ ph) f) = map (get "condition") (outgoing_edges spec f)
  /\ Forall (edge_ok (st_ids (ph_st _ ph))) (elems (get "edges" spec)).
Proof.
  pose proof (ph_edges _ ph) as H. unfold validateEdges in H.
  destruct (isArr (get "edges" spec)); cbn in H; [|done].
  destruct (fold_indexed _ _ _ _) as [[iss seen] g] eqn:E. inversion H; subst.
  eapply edges_out with (f := f) in E; [|done]. destruct E as (_ & E1 & E2). split; [|done].
  rewrite E2. done.
Qed.

Lemma phases_routing (spec : value) (ph : Phases spec) (f : string) :
  routing_issues f (out_of (ph_g _ ph) f) (ph_st _ ph) (ph_sc _ ph) = [].
Proof.
  pose proof (ph_routing _ ph) as H. unfold out_of.
  destruct (map_get f (g_outgoing (ph_g _ ph))) eqn:E; [|done].
  apply map_get_In in E. apply (flat_map_nil _ _ H _ E).
Qed.

(** ** Disjointness of branches *)

Lemma overlapping_head (l : list value) (v : value) (seen : list value) :
  same_value_zero v v = true -> In v seen -> In v l -> overlapping l seen = true.
Proof.
  revert seen. induction l as [|a l IH]; intros seen Hv Hs Hl; [done|]. cbn.
  destruct Hl as [-> | Hl].
  - assert (includes seen v = true) as ->; [|done]. apply existsb_exists. by exists v.
  - rewrite (IH (a :: seen)); [apply orb_true_r|done|by right|done].
Qed.

Lemma overlapping_twice (a b : list value) (v : value) (seen : list value) :
  same_value_zero v v = true -> In v a -> In v b -> overlapping (a ++ b) seen = true.
Proof.
  revert seen. induction a as [|x a IH]; intros seen Hv Ha Hb; [done|]. cbn.
  destruct Ha as [-> | Ha].
  - rewrite (overlapping_head (a ++ b) v); [apply orb_true_r|done|by left|]. apply in_or_app. by right.
  - rewrite IH by done. apply orb_true_r.
Qed.

(** A true eq/in condition has the resolved value among its operands. *)
Lemma eval_in_values (c output : value) (round : Z) :
  is_str_lit (get "op" c) "eq" || is_str_lit (get "op" c) "in" = true ->
  evaluateCondition c output round = true ->
  exists v, resolveConditionValue (str_of (get "path" c)) output round = Some v
            /\ same_value_zero v v = true /\ In v (cond_values c).
Proof.
  intros Hop He. unfold evaluateCondition in He.
  apply orb_true_iff in Hop as [Hop|Hop]; apply is_str_lit_spec in Hop; rewrite Hop in He; cbn in He;
    unfold cond_values; rewrite Hop; cbn.
  - destruct (resolveConditionValue _ _ _) as [v|] eqn:R; [|done]. exists v. cbn in He.
    split; [done|]. pose proof (strict_eq_scalar _ _ He) as ->. split; [by apply strict_same | by left].
  - destruct (resolveConditionValue _ _ _) as [v|] eqn:R; [|done]. exists v. cbn in He.
    apply andb_true_iff in He as [_ He]. apply existsb_exists in He as (x & Hx & Hxv).
    pose proof (same_value_zero_eq _ _ Hxv) as ->. auto.
Qed.

Lemma filter_two {A : Type} (p : A -> bool) (l : list A) (x y : A) (r : list A) :
  List.filter p l = x :: y :: r -> exists l1 l2 l3, l = l1 ++ x :: l2 ++ y :: l3 /\ p x = true /\ p y = true.
Proof.
  revert x y r. induction l as [|a l IH]; intros x y r H; [done|]. cbn in H.
  destruct (p a) eqn:Pa.
  - inversion H; subst. assert (In y (List.filter p l)) as Hy by (rewrite H2; by left).
    apply List.filter_In in Hy as [Hy Py]. apply in_split in Hy as (l2 & l3 & ->).
    by exists [], l2, l3.
  - apply IH in H as (l1 & l2 & l3 & -> & ? & ?). by exists (a :: l1), l2, l3.
Qed.

(** The conditions of one step, checked by [multi_branch], have at most one true. *)
Lemma branches_disjoint (conds : list value) (output : value) (round : Z) (l1 l2 l3 : list value) (x y : value) :
  conds = l1 ++ x :: l2 ++ y :: l3 ->
  multi_branch (map (fun c => {| oe_condition := c; oe_kind := VUndef; oe_idx := 0 |}) conds) = ([], false) ->
  evaluateCondition x output round = true -> evaluateCondition y output round = true -> False.
Proof.
  intros -> H Hx Hy. unfold multi_branch in H. rewrite map_map in H. cbn in H. rewrite map_id in H.
  set (conds := l1 ++ x :: l2 ++ y :: l3) in *.
  assert (forall c, In c [x; y] -> In c conds) as Hin.
  { intros c [<-|[<-|[]]]; unfold conds; apply in_or_app; right; [by left|]. right. apply in_or_app. right. by left. }
  destruct conds as [|c0 [|c1 cs]] eqn:Ec.
  { by destruct l1. }
  { destruct l1 as [|? [|]]; cbn in Ec; inversion Ec. by destruct l2. }
  rewrite <- Ec in *. clear Ec. destruct (negb (forallb _ _) || _) eqn:Hsel; [done|].
  destruct (negb (forallb (fun c => is_str_lit (get "op" c) "eq" || is_str_lit (get "op" c) "in") conds)) eqn:Hops; [done|].
  injection H as Hov. apply when_err_nil in Hov. bsimpl.
  rewrite forallb_forall in H. rewrite forallb_forall in Hops.
  assert (forall c, In c conds -> cond_path c = cond_path c0) as Hp.
  { intros c Hc. apply String.eqb_eq, H, in_map, Hc. }
  destruct (eval_in_values x output round) as (v & Rx & Sv & Vx); [apply Hops, Hin; by left|done|].
  destruct (eval_in_values y output round) as (w & Ry & _ & Vy); [apply Hops, Hin; right; by left|done|].
  assert (forall c u, In c conds -> resolveConditionValue (str_of (get "path" c)) output round = Some u -> cond_path c = str_of (get "path" c)) as Hcp.
  { intros c u Hc Hr. unfold cond_path. destruct (isObj c && isStr (get "path" c)) eqn:Ei; [done|]. exfalso.
    destruct (get "path" c) eqn:Eg; try done. cbn in Ei. destruct c; done. }
  assert (v = w) as <-.
  { rewrite <- (Hcp x v) in Rx by (done || (apply Hin; by left)).
    rewrite <- (Hcp y w) in Ry by (done || (apply Hin; right; by left)).
    rewrite Hp in Rx by (apply Hin; by left). rewrite Hp in Ry by (apply Hin; right; by left). congruence. }
  assert (overlapping (flat_map cond_values conds) [] = true); [|congruence].
  subst conds. rewrite !flat_map_app. cbn. rewrite flat_map_app. cbn.
  rewrite app_assoc. apply overlapping_twice with v; [done| |].
  - apply in_or_app. by right.
  - rewrite !in_app_iff. auto.
Qed.

Lemma multi_branch_conds (l : list OutEdge) :
  multi_branch l = multi_branch (map (fun c => {| oe_condition := c; oe_kind := VUndef; oe_idx := 0 |}) (map oe_condition l)).
Proof. unfold multi_branch. rewrite !map_map. cbn. done. Qed.

Lemma multi_branch_no_issue (l : list OutEdge) : fst (multi_branch l) = [] -> multi_branch l = ([], false).
Proof.
  unfold multi_branch. destruct (map oe_condition l) as [|c0 [|c1 cs]]; [done..|].
  destruct (negb (forallb _ _) || _); [done|]. destruct (negb (forallb _ _)); [done|]. cbn. by intros ->.
Qed.

Lemma map_filter_comm {A B : Type} (f : A -> B) (p : B -> bool) (l : list A) :
  map f (List.filter (fun x => p (f x)) l) = List.filter p (map f l).
Proof. induction l as [|a l IH]; cbn; [done|]. destruct (p (f a)); cbn; by rewrite IH. Qed.

Lemma length_filter_map {A B : Type} (f : A -> B) (p : B -> bool) (l : list A) :
  List.length (List.filter (fun x => p (f x)) l) = List.length (List.filter p (map f l)).
Proof. by rewrite <- map_filter_comm, length_map. Qed.

Lemma filter_filter {A : Type} (p q : A -> bool) (l : list A) :
  List.filter (fun x => p x && q x) l = List.filter q (List.filter p l).
Proof. induction l as [|a l IH]; cbn; [done|]. destruct (p a); cbn; [destruct (q a); by rewrite IH|done]. Qed.

Definition conditional_conds (spec : value) (from : string) : list value :=
  List.filter (fun c => negb (is_undef c)) (map (get "condition") (outgoing_edges spec from)).

Lemma matched_conds (spec : value) (from : string) (output : value) (round : Z) :
  map (get "condition") (matched_conditional (outgoing_edges spec from) output round)
  = List.filter (fun c => evaluateCondition c output round) (conditional_conds spec from).
Proof.
  unfold matched_conditional, conditional_conds, has_condition. rewrite <- filter_filter.
  rewrite <- (map_filter_comm (get "condition") (fun c => negb (is_undef c) && evaluateCondition c output round)). done.
Qed.

(** What the validator established about the outgoing edges of one step. *)
Record RoutingOk (spec : value) (from : string) (st : StepTables) (sc : Schemas) : Prop := {
  ro_fallbacks : (List.length (fallback_edges (outgoing_edges spec from)) <= 1)%nat;
  ro_multi : multi_branch (map (fun c => {| oe_condition := c; oe_kind := VUndef; oe_idx := 0 |}) (conditional_conds spec from)) = ([], false);
  ro_exhaustive : exists cond fb, exhaustiveness_issues from cond fb st sc = []
    /\ map oe_condition cond = conditional_conds spec from
    /\ List.length fb = List.length (fallback_edges (outgoing_edges spec from));
}.

Lemma phases_routing_ok (spec : value) (ph : Phases spec) (from : string) : RoutingOk spec from (ph_st _ ph) (ph_sc _ ph).
Proof.
  pose proof (phases_routing spec ph from) as H. destruct (phases_out spec ph from) as [Hc _].
  set (es := out_of (ph_g spec ph) from) in *. unfold routing_issues in H. nil_split.
  assert (map oe_condition (List.filter oe_conditional es) = conditional_conds spec from) as Hcond.
  { unfold oe_conditional, conditional_conds. rewrite <- Hc.
    apply (map_filter_comm oe_condition (fun c => negb (is_undef c))). }
  assert (List.length (List.filter (fun e => negb (oe_conditional e)) es) = List.length (fallback_edges (outgoing_edges spec from))) as Hfb.
  { unfold fallback_edges, oe_conditional, has_condition.
    rewrite (length_filter_map oe_condition (fun c => negb (negb (is_undef c)))),
            (length_filter_map (get "condition") (fun c => negb (negb (is_undef c)))).
    by rewrite Hc. }
  destruct (multi_branch (List.filter oe_conditional es)) as [iss skip] eqn:M. apply app_eq_nil in H as [-> H].
  assert (multi_branch (List.filter oe_conditional es) = ([], false)) as M' by (apply multi_branch_no_issue; by rewrite M).
  rewrite M in M'. injection M' as ->. constructor.
  - match goal with H : when (2 <=? _) _ = [] |- _ => apply when_err_nil in H end. bsimpl. lia.
  - by rewrite <- Hcond, <- multi_branch_conds.
  - cbn in H. eexists _, _. split; [exact H|]. split; [done|]. done.
Qed.

Lemma at_most_one_match (spec : value) (from : string) (st : StepTables) (sc : Schemas) (output : value) (round : Z) :
  RoutingOk spec from st sc -> (List.length (matched_conditional (outgoing_edges spec from) output round) <= 1)%nat.
Proof.
  intros [_ M _]. rewrite <- (length_map (get "condition")), matched_conds.
  destruct (List.filter _ _) as [|x [|y r]] eqn:F; cbn; try lia. exfalso.
  apply filter_two in F as (l1 & l2 & l3 & E & Hx & Hy). by eapply branches_disjoint.
Qed.

(** The tables a spec is validated against. *)
Definition spec_schemas (spec : value) : Schemas := snd (validateOutputSchemas (get "output_schemas" spec)).
Definition spec_tables (spec : value) : StepTables :=
  snd (validateSteps (get "steps" spec) (snd (validateAgents (get "agents" spec))) (spec_schemas spec)).

Lemma phases_tables (spec : value) (ph : Phases spec) : ph_st _ ph = spec_tables spec /\ ph_sc _ ph = spec_schemas spec.
Proof.
  unfold spec_tables, spec_schemas. rewrite (ph_schemas _ ph), (ph_agents _ ph). cbn. by rewrite (ph_steps _ ph).
Qed.

Lemma selectEdge_cases (spec : value) (from : string) (output : value) (round : Z) :
  selectEdge spec from output round =
  match matched_conditional (outgoing_edges spec from) output round, fallback_edges (outgoing_edges spec from) with
  | _ :: _ :: _, _ => RoutingAmbiguous
  | [e], _ => route_of e
  | [], [e] => route_of e
  | [], _ :: _ :: _ => RoutingAmbiguous
  | [], [] => RoutingNoEdge
  end.
Proof. done. Qed.

Lemma routing_ok_not_ambiguous (spec : value) (from : string) (st : StepTables) (sc : Schemas) (output : value) (round : Z) :
  RoutingOk spec from st sc -> selectEdge spec from output round <> RoutingAmbiguous.
Proof.
  intros H. rewrite selectEdge_cases. pose proof (at_most_one_match _ _ _ _ output round H) as Hm.
  pose proof (ro_fallbacks _ _ _ _ H) as Hf.
  destruct (matched_conditional _ _ _) as [|x [|y r]]; cbn in *; [|done|lia].
  destruct (fallback_edges _) as [|z [|w q]]; cbn in *; [done|done|lia].
Qed.

(** C1. A spec the validator accepts is routed deterministically: whatever a step outputs
    and in whatever round, edge selection never finds two candidates ([routing_ambiguous]). *)
Theorem valid_spec_never_ambiguous (spec : value) (from : string) (output : value) (round : Z) :
  vr_valid (validateWorkflowSpec spec) = true -> selectEdge spec from output round <> RoutingAmbiguous.
Proof. intros H. eapply routing_ok_not_ambiguous, (phases_routing_ok spec (valid_phases spec H)). Qed.

Lemma valid_spec_never_ambiguous_witness :
  selectEdge plannerExecutorLoopExample "review" (VObj [("status", VStr "continue")]) 1 <> RoutingAmbiguous.
Proof. apply valid_spec_never_ambiguous. vm_compute. reflexivity. Defined.

(** ** Exhaustiveness *)

Lemma selectorOf_field (c : value) (from : string) (st : StepTables) (sc : Schemas) (f : string) (d : option FieldDef) :
  selectorOf c from st sc = SelField f d -> exists p, get "path" c = VStr p /\ parseConditionPath p = Some (NsOutput, f).
Proof.
  unfold selectorOf. destruct (negb (isObj c) || negb (isStr (get "path" c))) eqn:E; [done|]. bsimpl.
  destruct (get "path" c); try done. cbn. destruct (parseConditionPath s) as [[[] k]|] eqn:P; try done.
  intros [= -> _]. eauto.
Qed.

(** A covered string value makes its condition true. *)
Lemma covered_true (c output : value) (round : Z) (p f s : string) :
  get "path" c = VStr p -> parseConditionPath p = Some (NsOutput, f) ->
  has_own f output = true -> get f output = VStr s -> In (VStr s) (covered_values c) ->
  evaluateCondition c output round = true.
Proof.
  intros Hp Hpp Ho Hg Hin. unfold evaluateCondition, resolveConditionValue. rewrite Hp. cbn. rewrite Hpp, Ho, Hg.
  unfold covered_values in Hin.
  destruct (is_str_lit (get "op" c) "eq") eqn:Eq.
  - apply is_str_lit_spec in Eq. rewrite Eq. cbn. destruct Hin as [Hv|[]]. rewrite Hv. cbn. apply String.eqb_refl.
  - destruct (is_str_lit (get "op" c) "in") eqn:In'; [|done]. apply is_str_lit_spec in In'. rewrite In'. cbn.
    destruct (get "value" c); try done. cbn in *. apply existsb_exists. exists (VStr s). split; [done|]. cbn. apply String.eqb_refl.
Qed.

(** The routing precondition of exhaustiveness: every conditional edge of the step tests
    one output field, which the step's schema declares as a required enum. *)
Definition routes_on_required_enum (spec : value) (from field : string) (en : list value) : Prop :=
  conditional_conds spec from <> [] /\
  (forall c, In c (conditional_conds spec from) -> exists d, selectorOf c from (spec_tables spec) (spec_schemas spec) = SelField field (Some d)
     /\ fd_type d = "enum" /\ fd_required d = true /\ fd_enum d = Some en).

Lemma includes_str (l : list value) (s : string) : includes l (VStr s) = true <-> In (VStr s) l.
Proof.
  unfold includes. rewrite existsb_exists. split.
  - intros (x & Hx & He). by rewrite <- (same_value_zero_eq _ _ He).
  - intros H. exists (VStr s). split; [done|]. cbn. apply String.eqb_refl.
Qed.

Lemma exhaustive_match (spec : value) (from field s : string) (en : list value) (output : value) (round : Z) :
  RoutingOk spec from (spec_tables spec) (spec_schemas spec) -> routes_on_required_enum spec from field en ->
  has_own field output = true -> get field output = VStr s -> In (VStr s) en ->
  fallback_edges (outgoing_edges spec from) = [] -> matched_conditional (outgoing_edges spec from) output round <> [].
Proof.
  intros [_ _ (cond & fb & Hex & Hc & Hfb)] [Hne Hall] Ho Hg Hen Hno Hm.
  apply (f_equal (map (get "condition"))) in Hm. rewrite matched_conds in Hm. cbn in Hm.
  unfold exhaustiveness_issues in Hex. destruct cond as [|e0 cond]; [by rewrite <- Hc in Hne|].
  destruct (Hall (oe_condition e0)) as (d & Hd & Ht & Hr & He); [rewrite <- Hc; by left|].
  assert (forallb (fun e => match selectorOf (oe_condition e) from (spec_tables spec) (spec_schemas spec) with SelField f _ => f =s field | _ => false end) (e0 :: cond) = true) as Hsame.
  { apply forallb_forall. intros e Hin. destruct (Hall (oe_condition e)) as (d' & Hd' & _); [rewrite <- Hc; by apply in_map|].
    rewrite Hd'. apply String.eqb_refl. }
  rewrite Hd, He, Ht, Hr, Hfb, Hno in Hex. cbv zeta in Hex. rewrite Hsame in Hex. cbn -[flat_map] in Hex.
  pose proof (flat_map_nil _ _ Hex (VStr s) Hen) as Hcov. apply when_err_nil in Hcov. bsimpl.
  apply includes_str, in_flat_map in Hcov as (e & Hin & Hv).
  assert (In (oe_condition e) (conditional_conds spec from)) as Hce by (rewrite <- Hc; by apply in_map).
  destruct (Hall _ Hce) as (d' & Hd' & _). apply selectorOf_field in Hd' as (p & Hp & Hpp).
  assert (In (oe_condition e) (List.filter (fun c => evaluateCondition c output round) (conditional_conds spec from))) as Hf.
  { apply List.filter_In. split; [done|]. by eapply covered_true. }
  by rewrite Hm in Hf.
Qed.

(** An output that carries one of the declared values of the enum the step routes on is
    routed to exactly one edge. *)
Lemma enum_value_routes (spec : value) (from field s : string) (en : list value) (output : value) (round : Z) :
  vr_valid (validateWorkflowSpec spec) = true -> routes_on_required_enum spec from field en ->
  has_own field output = true -> get field output = VStr s -> In (VStr s) en ->
  exists terminal target kind, selectEdge spec from output round = RouteTo terminal target kind.
Proof.
  intros Hv Hr Ho Hg Hen.
  pose proof (phases_routing_ok spec (valid_phases spec Hv) from) as Hok.
  destruct (phases_tables spec (valid_phases spec Hv)) as [-> ->] in Hok.
  pose proof (routing_ok_not_ambiguous _ _ _ _ output round Hok) as Hna.
  pose proof (exhaustive_match _ _ _ _ _ output round Hok Hr Ho Hg Hen) as Hnm.
  rewrite selectEdge_cases in *.
  destruct (matched_conditional _ _ _) as [|x [|]]; [|by unfold route_of; eauto|done].
  destruct (fallback_edges _) as [|z [|]]; [by destruct Hnm|by unfold route_of; eauto|done].
Qed.
