(* ===== verification/OutputProps.v ===== *)
(** * Properties of the output and policy functions

    When a completion claim is accepted, what a validated output satisfies, how a
    validated output is routed, when a loop counts as stalled, and that step execution
    ids identify their step execution. *)

From S2P Require Import Prelude Values Json JsonProps Contract Conditions Templates Verification Validator Outputs Examples ValidatorProps.

(** ** Completion *)

Lemma opt_is_spec (o : option string) (s : string) : opt_is o s = true <-> o = Some s.
Proof. destruct o as [x|]; cbn; [rewrite String.eqb_eq|]; split; congruence. Qed.

Lemma opt_bool_is_spec (o : option bool) (b : bool) : opt_bool_is o b = true <-> o = Some b.
Proof. destruct o as [[]|], b; cbn; split; congruence. Qed.

Lemma js_set_spec (l : list string) : List.NoDup (js_set l) /\ forall t, In t (js_set l) <-> In t l.
Proof.
  unfold js_set. enough (H : forall acc, List.NoDup acc -> List.NoDup (fold_left (fun acc s => set_add s acc) l acc) /\
    forall t, In t (fold_left (fun acc s => set_add s acc) l acc) <-> In t acc \/ In t l).
  { destruct (H [] (List.NoDup_nil _)) as [H1 H2]. split; [done|]. intros t. rewrite H2. cbn. tauto. }
  induction l as [|x l IH]; intros acc Hd; cbn; [naive_solver|]. destruct (IH _ (set_add_NoDup x acc Hd)) as [H1 H2]. split; [done|].
  intros t. rewrite H2, set_add_In. naive_solver.
Qed.

Section Observed.
Context (taskStatus : option string) (res : option AgentTaskResultV1) (before after : value).

(** The facts of a finished step that count as evidence, each named by what was observed:
    the durable task status, the task's result, and the workspace revisions before and after
    the step. *)
Inductive observed : string -> Prop :=
| observed_status : taskStatus = Some "completed" -> observed "task_status"
| observed_exit r c : res = Some r -> ar_process_exit_code r = Some c -> observed "exit_code"
| observed_output r : res = Some r -> ar_content_hash r <> "" -> observed "content_hash"
| observed_revisions b a : get "state_hash" before = VStr b -> get "state_hash" after = VStr a -> observed "workspace_revision"
| observed_files : get "revision_kind" after = VStr "git" -> observed "changed_files"
| observed_tests r v : res = Some r -> ar_verification r = Some v -> observed "tests_passed".
(** The verifier ran and reported the given kind. *)
Definition verified_as (ok : string -> Prop) : Prop := exists r v, res = Some r /\ ar_verification r = Some v /\ ok (tv_kind v).

(** What a policy asks for: the name of the requirement and the fact that meets it. *)
Inductive asks_for (policy remainingWork : value) : string -> Prop -> Prop :=
| asks_evidence t : In t (map str_of (elems (get "required_evidence" policy))) -> asks_for policy remainingWork t (observed t)
| asks_change : truthy (get "require_repository_change" policy) = true ->
    asks_for policy remainingWork "repository_change" (exists b a, get "state_hash" before = VStr b /\ get "state_hash" after = VStr a /\ b <> a)
| asks_tests : truthy (get "require_tests_passed" policy) = true -> asks_for policy remainingWork "tests_passed" (verified_as (fun k => k = "tests_passed"))
| asks_no_work : truthy (get "require_no_remaining_work" policy) = true ->
    asks_for policy remainingWork "no_remaining_work" (forall x l, remainingWork <> VArr (x :: l)).

(** The facts contradict the claim that the work is complete, and the reason recorded. *)
Inductive contradicted (policy : value) : string -> Prop :=
| contradicted_status : taskStatus = Some "failed" \/ taskStatus = Some "cancelled" -> contradicted policy "evidence_conflict_task_status"
| contradicted_exit r c : taskStatus <> Some "failed" -> taskStatus <> Some "cancelled" -> res = Some r -> ar_process_exit_code r = Some c -> c <> 0 ->
    contradicted policy "evidence_conflict_nonzero_exit"
| contradicted_tests : taskStatus <> Some "failed" -> taskStatus <> Some "cancelled" -> (forall r c, res = Some r -> ar_process_exit_code r = Some c -> c = 0) ->
    truthy (get "require_tests_passed" policy) = true -> verified_as (fun k => k <> "tests_passed") -> contradicted policy "evidence_conflict_tests_failed".
End Observed.

(** The evidence test of the code recognizes exactly the observed facts. *)
Section Evaluated.
Context (sha256_hex : string -> string) (st : option string) (res : option AgentTaskResultV1) (before after : value).
Local Notation evidence := (assembleEvidence sha256_hex st res before after).

Lemma revHash_spec (v : value) (h : string) : revHash v = Some h <-> get "state_hash" v = VStr h.
Proof. unfold revHash. destruct (get "state_hash" v); naive_solver. Qed.
Lemma tests_spec (b : bool) : ev_tests_passed evidence = Some b <-> verified_as res (fun k => if b then k = "tests_passed" else k <> "tests_passed").
Proof.
  cbn [assembleEvidence ev_tests_passed]. unfold verified_as, verificationTestsResult. destruct res as [r|]; cbn; [|naive_solver].
  destruct (ar_verification r) as [v|] eqn:Ev; [|naive_solver]. split.
  - intros [= Hb]. exists r, v. do 2 (split; [done|]). destruct b; [by apply String.eqb_eq|by apply String.eqb_neq].
  - intros (r' & v' & [= <-] & Hv & Hk). rewrite Ev in Hv. injection Hv as <-. f_equal. destruct b; [by apply String.eqb_eq|by apply String.eqb_neq].
Qed.
Lemma exit_spec (c : Z) : ev_exit_code evidence = Some c <-> exists r, res = Some r /\ ar_process_exit_code r = Some c.
Proof. cbn [assembleEvidence ev_exit_code]. destruct res; cbn; naive_solver. Qed.
Lemma changed_spec : ev_repository_changed evidence = Some true <-> exists b a, get "state_hash" before = VStr b /\ get "state_hash" after = VStr a /\ b <> a.
Proof.
  cbn [assembleEvidence ev_repository_changed]. setoid_rewrite <- revHash_spec. destruct (revHash before) as [b|], (revHash after) as [a|]; try naive_solver.
  destruct (String.eqb_spec b a); cbn; naive_solver.
Qed.

Lemma present_observed (t : string) : present t evidence = true <-> observed st res before after t.
Proof.
  unfold present. cbn [assembleEvidence ev_task_status ev_exit_code ev_content_hash ev_revision_before ev_revision_after ev_changed_files ev_tests_passed].
  destruct (String.eqb_spec t "task_status") as [->|N1]; [rewrite opt_is_spec; split; [by constructor|by inversion 1]|].
  destruct (String.eqb_spec t "exit_code") as [->|N2].
  { destruct res as [r|]; cbn; [destruct (ar_process_exit_code r) eqn:Ec|]; (split; [try done; by intros _; econstructor|inversion 1; simplify_eq; done]). }
  destruct (String.eqb_spec t "content_hash") as [->|N3].
  { destruct res as [r|]; cbn; [rewrite negb_true_iff, String.eqb_neq|]; (split; [try done; by intros; econstructor|inversion 1; simplify_eq; done]). }
  destruct (String.eqb_spec t "workspace_revision") as [->|N4].
  { rewrite andb_true_iff. split.
    - intros [Hb Ha]. destruct (revHash before) eqn:Eb, (revHash after) eqn:Ea; try done. econstructor; by apply revHash_spec.
    - inversion 1 as [| | |b a Hb Ha| |]. apply revHash_spec in Hb, Ha. by rewrite Hb, Ha. }
  destruct (String.eqb_spec t "changed_files") as [->|N5].
  { unfold is_str_lit. split.
    - destruct (get "revision_kind" after) eqn:Ek; try done. cbn. destruct (String.eqb_spec s "git") as [->|]; cbn; [|done]. by constructor.
    - inversion 1 as [| | | |Hk|]. by rewrite Hk. }
  destruct (String.eqb_spec t "tests_passed") as [->|N6].
  { destruct res as [r|]; cbn; [destruct (ar_verification r) eqn:Ec|]; cbn; (split; [try done; by intros _; econstructor|inversion 1; simplify_eq; done]). }
  split; [done|]. by inversion 1; subst.
Qed.

(** The requirements that are not met are the missing ones. *)
Lemma missing_unmet (policy rw : value) (t : string) :
  In t (missing_evidence policy evidence rw) <-> exists P, asks_for st res before after policy rw t P /\ ~ P.
Proof.
  unfold missing_evidence. rewrite !in_app_iff, filter_In, negb_true_iff, <- not_true_iff_false, present_observed.
  assert (forall (b : bool) x, In t (if b then [x] else []) <-> b = true /\ t = x) as Hg by (intros [] x; cbn; naive_solver).
  rewrite !Hg, !andb_true_iff, !negb_true_iff, <- !not_true_iff_false, !opt_bool_is_spec, changed_spec, tests_spec.
  assert ((0 <? Z.of_nat (List.length (elems rw))) = true <-> ~ forall x l, rw <> VArr (x :: l)) as ->.
  { destruct rw as [| | | | |[|y l]|]; cbn; try (split; [done|intros H; exfalso; by apply H]). split; [|done]. intros _ H. by apply (H y l). }
  split.
  - intros [[H1 H2]|[[[H1 H2] ->]|[[[H1 H2] ->]|[[H1 H2] ->]]]]; eexists; (split; [by constructor|done]).
  - intros (P & HP & HN). destruct HP; tauto.
Qed.
Lemma asks_decided (policy rw : value) (t : string) (P : Prop) : asks_for st res before after policy rw t P -> P \/ ~ P.
Proof.
  destruct 1 as [t _| | |].
  - rewrite <- present_observed. destruct (present _ _); [by left|by right].
  - rewrite <- changed_spec. destruct (decide (ev_repository_changed evidence = Some true)); [by left|by right].
  - rewrite <- (tests_spec true). destruct (decide (ev_tests_passed evidence = Some true)); [by left|by right].
  - destruct rw as [| | | | |[|y l]|]; try (by left). right. intros Hall. by apply (Hall y l).
Qed.
Lemma conflict_contradicted (policy : value) (why : string) :
  (if opt_is (ev_task_status evidence) "failed" || opt_is (ev_task_status evidence) "cancelled" then Some "evidence_conflict_task_status"
   else if match ev_exit_code evidence with Some c => negb (c =? 0) | None => false end then Some "evidence_conflict_nonzero_exit"
   else if truthy (get "require_tests_passed" policy) && opt_bool_is (ev_tests_passed evidence) false then Some "evidence_conflict_tests_failed" else None) = Some why <->
  contradicted st res policy why.
Proof.
  destruct (_ || _) eqn:E1.
  { apply orb_true_iff in E1. rewrite !opt_is_spec in E1. cbn [assembleEvidence ev_task_status] in E1. split; [intros [= <-]; by apply contradicted_status|inversion 1; naive_solver]. }
  apply orb_false_iff in E1. rewrite <- !not_true_iff_false, !opt_is_spec in E1. destruct E1 as [Hf Hc]. cbn [assembleEvidence ev_task_status] in Hf, Hc.
  destruct (match ev_exit_code evidence with Some _ => _ | None => _ end) eqn:E2.
  { destruct (ev_exit_code evidence) as [c|] eqn:Ec; [|done]. apply exit_spec in Ec as (r & Hr & Hc'). apply negb_true_iff, Z.eqb_neq in E2. split.
    - intros [= <-]. by econstructor.
    - inversion 1 as [[]| |]; naive_solver. }
  assert (H0 : forall r c, res = Some r -> ar_process_exit_code r = Some c -> c = 0).
  { intros r c Hr Hx. assert (Ec : ev_exit_code evidence = Some c) by (apply exit_spec; eauto). rewrite Ec in E2. by apply negb_false_iff, Z.eqb_eq in E2. }
  destruct (_ && _) eqn:E3.
  - apply andb_true_iff in E3 as [Ht Hv]. apply opt_bool_is_spec, tests_spec in Hv. split; [intros [= <-]; by constructor|]. inversion 1 as [[]| |]; naive_solver.
  - split; [done|]. inversion 1 as [[]|? ? ? ? Hr Hx|? ? ? Ht Hv]; [done..| |]; [by apply (H0 _ _ Hr) in Hx|].
    assert (Hb : ev_tests_passed evidence = Some false) by by apply tests_spec. by rewrite Ht, Hb in E3.
Qed.
End Evaluated.

(** Nothing contradicts the completion and the facts meet every requirement of the policy. *)
Definition facts_meet (st : option string) (res : option AgentTaskResultV1) (before after policy rw : value) : Prop :=
  (forall why, ~ contradicted st res policy why) /\ forall t P, asks_for st res before after policy rw t P -> P.
Lemma decision_facts (sha256_hex : string -> string) (st : option string) (res : option AgentTaskResultV1) (before after policy rw : value) :
  let decision := evaluateCompletion policy (assembleEvidence sha256_hex st res before after) rw in
  (forall why, decision = DFailed why <-> contradicted st res policy why) /\
  (decision = DComplete <-> facts_meet st res before after policy rw) /\
  (forall missing, decision = DBlocked missing ->
     List.NoDup missing /\ missing <> [] /\ forall t, In t missing <-> exists P, asks_for st res before after policy rw t P /\ ~ P).
Proof.
  intros decision. pose proof (conflict_contradicted sha256_hex st res before after policy) as Hcon. subst decision. unfold evaluateCompletion.
  set (e := assembleEvidence sha256_hex st res before after) in *.
  destruct (_ || _); [|destruct (match ev_exit_code e with Some _ => _ | None => _ end); [|destruct (_ && _)]].
  1-3: split; [intros why; rewrite <- Hcon; naive_solver|]; split; [|done]; split; [done|]; intros [Hn _]; exfalso; eapply Hn; by apply Hcon.
  assert (Hnone : forall why, ~ contradicted st res policy why) by (intros why H; by apply Hcon in H).
  destruct (missing_evidence policy e rw) as [|x m] eqn:Em.
  - split; [intros why; split; [done|]; intros H; by apply Hnone in H|]. split; [|done]. split; [intros _|done]. split; [done|]. intros t P HP.
    destruct (asks_decided sha256_hex _ _ _ _ _ _ _ _ HP) as [|HN]; [done|]. pose proof (proj2 (missing_unmet sha256_hex st res before after policy rw t) (ex_intro _ P (conj HP HN))) as Hin. fold e in Hin. by rewrite Em in Hin.
  - split; [intros why; split; [done|]; intros H; by apply Hnone in H|]. split.
    + split; [done|]. intros [_ Hall]. destruct (proj1 (missing_unmet sha256_hex st res before after policy rw x)) as (P & HP & HN); [fold e; rewrite Em; by left|]. by destruct (HN (Hall x P HP)).
    + intros ms [= <-]. destruct (js_set_spec (x :: m)) as [Hd Hin]. split; [done|]. split.
      * intros Hnil. assert (Hx : In x (js_set (x :: m))) by (apply Hin; by left). by rewrite Hnil in Hx.
      * intros t. rewrite Hin, <- Em. apply missing_unmet.
Qed.

(** C7. The verdict on a completion claim, from the facts the system observed (the durable
    status of the task, its result with exit code, content hash and verification, and the
    workspace revisions before and after the step).  The claim fails, with the reason
    recorded, exactly when the facts contradict it: the task failed or was cancelled, it
    exited with a non-zero code, or the policy wants passing tests and the verifier reported
    anything else.  It is accepted exactly when nothing contradicts it and every requirement
    of the policy is met by a fact.  Otherwise it is blocked with the list, without
    repetitions, of exactly the requirements that are not met.  Agent claims never count,
    except that a non-empty list of remaining work blocks where the policy says so. *)
Theorem completion_iff_satisfied (sha256_hex : string -> string) (st : option string) (res : option AgentTaskResultV1) (before after policy rw : value) :
  let decision := evaluateCompletion policy (assembleEvidence sha256_hex st res before after) rw in
  (forall why, decision = DFailed why <-> contradicted st res policy why) /\
  (decision = DComplete <-> (forall why, ~ contradicted st res policy why) /\ forall t P, asks_for st res before after policy rw t P -> P) /\
  (forall missing, decision = DBlocked missing ->
     List.NoDup missing /\ missing <> [] /\ forall t, In t missing <-> exists P, asks_for st res before after policy rw t P /\ ~ P).
Proof. apply decision_facts. Qed.

(** ** Validated outputs *)

(** [v] is of the declared type of a field. *)
Definition of_declared_type (v f : value) : Prop :=
  match get "type" f with
  | VStr t =>
      (t = "string" /\ exists s, v = VStr s /\ byteLen s <= MAX_OUTPUT_STRING_LEN)
      \/ (t = "number" /\ exists n, v = VNum n /\ num_isFinite n = true)
      \/ (t = "boolean" /\ exists b, v = VBool b)
      \/ (t = "string[]" /\ exists l, v = VArr (map VStr l) /\ Z.of_nat (List.length l) <= MAX_OUTPUT_ARRAY_LEN
            /\ (forall s, In s l -> byteLen s <= MAX_OUTPUT_STRING_LEN))
      \/ (t = "enum" /\ exists s, v = VStr s /\ In (VStr s) (elems (get "enum" f)))
  | _ => False
  end.

Lemma first_error_none (f : string * value -> option string) (l : list (string * value)) :
  first_error f l = None <-> (forall x, In x l -> f x = None).
Proof.
  induction l as [|a l IH]; cbn; [naive_solver|]. destruct (f a) eqn:E; [|rewrite IH; naive_solver].
  split; [done|]. intros H. by rewrite (H a (or_introl eq_refl)) in E.
Qed.

Lemma all_strs (l : list value) : forallb isStr l = true -> l = map VStr (map str_of l).
Proof.
  induction l as [|v l IH]; cbn; [done|]. intros H. apply andb_true_iff in H as [Hv Hl]. rewrite <- IH by done.
  destruct v; done.
Qed.

Lemma field_error_none (obj : value) (name : string) (def : value) :
  field_error obj name def = None ->
  (has_own name obj = true -> of_declared_type (get name obj) def)
  /\ (truthy (get "required" def) = true -> has_own name obj = true).
Proof.
  unfold field_error. destruct (has_own name obj) eqn:Eo; cbn -[includes]; [|by destruct (truthy _)].
  intros H. split; [intros _|done]. set (v := get name obj) in *. clearbody v.
  unfold matchesSchemaType, of_declared_type in *. destruct (get "type" def); try done. cbn -[includes] in H.
  destruct (s =s "string") eqn:E1.
  { apply String.eqb_eq in E1 as ->. destruct v as [| | | |t| |]; cbn in H; try done.
    destruct (MAX_OUTPUT_STRING_LEN <? byteLen t) eqn:El; [done|]. bsimpl. left. split; [done|]. eauto. }
  destruct (s =s "number") eqn:E2.
  { apply String.eqb_eq in E2 as ->. destruct v as [| | |n| | |]; cbn in H; try done.
    right. left. split; [done|]. exists n. split; [done|]. by destruct (num_isFinite n). }
  destruct (s =s "boolean") eqn:E3.
  { apply String.eqb_eq in E3 as ->. destruct v; cbn in H; try done. right. right. left. eauto. }
  destruct (s =s "string[]") eqn:E4.
  { apply String.eqb_eq in E4 as ->. destruct v as [| | | | |l|]; cbn in H; try done.
    destruct (forallb isStr l) eqn:Ef; [|done]. cbn in H.
    destruct (MAX_OUTPUT_ARRAY_LEN <? _) eqn:El; [done|]. destruct (existsb _ l) eqn:Es; [done|]. bsimpl.
    right. right. right. left. split; [done|]. exists (map str_of l). split; [by rewrite <- all_strs|].
    rewrite length_map. split; [lia|]. intros t (x & <- & Hx)%in_map_iff.
    pose proof (proj1 (existsb_false _ _) Es x Hx) as Hb. cbv beta in Hb. bsimpl. lia. }
  destruct (s =s "enum") eqn:E5; [|done].
  apply String.eqb_eq in E5 as ->. destruct v as [| | | |t| |]; cbn -[includes] in H; try done.
  destruct (isArr (get "enum" def)); cbn -[includes] in H; [|done].
  destruct (includes (elems (get "enum" def)) (VStr t)) eqn:Ei; [|done]. apply includes_str in Ei.
  do 4 right. split; [done|]. eauto.
Qed.

Lemma validate_ok_inv (obj schema v : value) :
  validateAgainstSchema obj schema = Ok v ->
  v = obj
  /\ (forall k, In k (obj_keys obj) -> has_own k (get "fields" schema) = true)
  /\ (forall name def, In (name, def) (entries (get "fields" schema)) ->
        (has_own name obj = true -> of_declared_type (get name obj) def)
        /\ (truthy (get "required" def) = true -> has_own name obj = true))
  /\ (forall s, JSON_stringify obj = Some s -> byteLen s <= MAX_OUTPUT_SERIALIZED_BYTES).
Proof.
  unfold validateAgainstSchema. destruct (List.find _ _) eqn:E1; [done|].
  destruct (first_error _ _) as [[]|] eqn:E2; [done|]. intros H.
  assert (v = obj /\ (forall s, JSON_stringify obj = Some s -> byteLen s <= MAX_OUTPUT_SERIALIZED_BYTES)) as [-> Hs].
  { destruct (JSON_stringify obj) as [s|]; [|by injection H]. destruct (_ <? _) eqn:E3; [done|]. injection H as <-. bsimpl.
    split; [done|]. intros s' [= <-]. lia. }
  split; [done|]. split; [|split; [|done]].
  - intros k Hk. pose proof (List.find_none _ _ E1 k Hk) as Hb. cbv beta in Hb. by apply negb_false_iff in Hb.
  - intros name def Hin. apply field_error_none. by apply (proj1 (first_error_none _ _) E2 (name, def)).
Qed.

(** C8. An output accepted against a schema conforms to it and is passed on unchanged: it
    has no undeclared field, every required field is present, every present field has its
    declared type (an enum field one of the declared values) within the size bounds, and
    its serialized form is bounded. *)
Theorem validated_output_conforms (obj schema v : value) :
  validateAgainstSchema obj schema = Ok v ->
  v = obj
  /\ (forall k, In k (obj_keys obj) -> has_own k (get "fields" schema) = true)
  /\ (forall name def, In (name, def) (entries (get "fields" schema)) ->
        (has_own name obj = true -> of_declared_type (get name obj) def)
        /\ (truthy (get "required" def) = true -> has_own name obj = true))
  /\ (forall s, JSON_stringify obj = Some s -> byteLen s <= MAX_OUTPUT_SERIALIZED_BYTES).
Proof. apply validate_ok_inv. Qed.

Definition review_output : value := VObj [("status", VStr "continue"); ("summary", VStr "s")].

Lemma validated_output_conforms_witness :
  has_own "status" review_output = true
  /\ (forall k, In k (obj_keys review_output) -> has_own k (get "fields" PLANNER_DECISION_SCHEMA) = true).
Proof.
  split; [reflexivity|].
  destruct (validated_output_conforms review_output PLANNER_DECISION_SCHEMA review_output) as (_ & H & _); [vm_compute; reflexivity|exact H].
Defined.

(** ** Validated outputs are routed *)

Section LastWins.
Context {A : Type} (f : value -> option A).

(** The table built by inserting the entries one by one (entries [f] rejects skipped). *)
Definition build_table (l : list (string * value)) (m : list (string * A)) : list (string * A) :=
  fold_left (fun m kv => match f (snd kv) with Some d => map_set (fst kv) d m | None => m end) l m.

Lemma build_table_other (l : list (string * value)) (m : list (string * A)) (k : string) :
  ~ In k (map fst l) -> map_get k (build_table l m) = map_get k m.
Proof.
  revert m. induction l as [|[a v] l IH]; intros m H; [done|]. cbn in *. rewrite IH by naive_solver.
  destruct (f v); [|done]. rewrite map_get_set. destruct (a =s k) eqn:E; [|done]. bsimpl. naive_solver.
Qed.

Lemma build_table_in (l : list (string * value)) (m : list (string * A)) (k : string) (v : value) (d : A) :
  List.NoDup (map fst l) -> In (k, v) l -> f v = Some d -> map_get k (build_table l m) = Some d.
Proof.
  revert m. induction l as [|[a w] l IH]; intros m Hnd Hin Hf; [done|]. inversion Hnd as [|? ? Hna Hnd']; subst.
  destruct Hin as [[= -> ->]|Hin].
  - change (map_get k (build_table l (match f v with Some d => map_set k d m | None => m end)) = Some d).
    rewrite build_table_other by done. rewrite Hf, map_get_set, String.eqb_refl. done.
  - apply (IH (match f w with Some d => map_set a d m | None => m end)); done.
Qed.
End LastWins.

Lemma assoc_In (k : string) (o : list (string * value)) (v : value) : assoc k o = Some v -> In (k, v) o.
Proof.
  unfold assoc. destruct (List.find _ o) as [[a w]|] eqn:E; [|done]. intros [= ->].
  apply List.find_some in E as [Hin Ha]. cbn in Ha. bsimpl. by subst.
Qed.

Lemma has_own_In (k : string) (o : value) : has_own k o = true -> In (k, get k o) (entries o).
Proof. destruct o; cbn; try done. destruct (assoc k o) eqn:E; [|done]. intros _. by apply assoc_In. Qed.

Lemma get_has_own (k : string) (o : value) : get k o <> VUndef -> has_own k o = true.
Proof. destruct o; cbn; try done. by destruct (assoc k o). Qed.

(** Steps of a valid spec: the table maps a step to its output schema. *)
Lemma step_fold_kept (roles : list string) (sc : Schemas) (l : list value) (id : string) :
  forall i iss st st', fold_indexed (validate_step roles sc) i l (iss, st) = ([], st') ->
  iss = [] /\ (In id (st_ids st) -> map_get id (st_outputSchema st') = map_get id (st_outputSchema st)).
Proof.
  induction l as [|x l IH]; intros i iss st st' H; cbn in H; [by injection H as -> ->|].
  destruct (isObj x); cbn in H; apply IH in H as [H1 H2]; nil_split; [|done].
  split; [done|]. intros Hid. rewrite H2; cbn.
  - destruct (not_matching SAFE_ID_RE (get "id" x)) eqn:Em.
    { by match goal with H : err _ _ = [] |- _ => discriminate H end. }
    apply not_matching_false in Em as (y & Hy & _). rewrite Hy in *. cbn in *.
    match goal with H : when (y ∈b _) _ = [] |- _ => apply when_err_nil in H as Hf end. apply str_in_false in Hf.
    destruct (negb _ && true); [|done]. rewrite map_get_set. destruct (y =s id) eqn:Ey; [|done]. bsimpl. by subst.
  - destruct (not_matching SAFE_ID_RE (get "id" x)); [done|]. unfold set_add. destruct (_ ∈b _); [done|]. apply in_or_app. by left.
Qed.

Lemma step_fold_schema (roles : list string) (sc : Schemas) (l : list value) (step : value) (id : string) :
  In step l -> get "id" step = VStr id ->
  forall i iss st st', fold_indexed (validate_step roles sc) i l (iss, st) = ([], st') ->
  exists os, get "output_schema" step = VStr os /\ map_get id (st_outputSchema st') = Some os /\ In os (schemaNames sc).
Proof.
  induction l as [|x l IH]; intros Hin Hid i iss st st' H; [done|]. destruct Hin as [->|Hin];
    [|cbn [fold_indexed] in H; destruct (validate_step roles sc i x (iss, st)); by eapply IH].
  cbn in H. assert (isObj step = true) as Ho by (by destruct step). rewrite Ho, Hid in H. cbn in H.
  pose proof (step_fold_kept _ _ _ id _ _ _ _ H) as [H1 H2]. nil_split.
  destruct (SAFE_ID_RE id); [cbn [negb] in *|done].
  unfold step_body_issues in *. nil_split.
  match goal with H : when (not_matching (fun n => n ∈b schemaNames sc) _) _ = [] |- _ => apply when_err_nil in H as Hm end.
  rewrite Hm in H2. cbn in H2. apply not_matching_false in Hm as (z & Hz & Hzin). rewrite Hz in H2. cbn in H2.
  exists z. split; [done|]. split; [|by apply str_in_spec]. rewrite H2, map_get_set, String.eqb_refl; [done|].
  unfold set_add. destruct (id ∈b st_ids st) eqn:Es; [by apply str_in_spec|]. apply in_or_app. right. by left.
Qed.

Lemma spec_step_schema (spec step : value) (from : string) :
  vr_valid (validateWorkflowSpec spec) = true -> In step (elems (get "steps" spec)) -> get "id" step = VStr from ->
  exists sname, get "output_schema" step = VStr sname
    /\ map_get from (st_outputSchema (spec_tables spec)) = Some sname /\ In sname (schemaNames (spec_schemas spec)).
Proof.
  intros Hv Hin Hid. pose proof (valid_phases spec Hv) as ph. destruct (phases_tables spec ph) as [Ht Hs].
  rewrite <- Ht, <- Hs. pose proof (ph_steps _ ph) as H. unfold validateSteps in H.
  destruct (_ || _)%bool; [done|]. by eapply step_fold_schema.
Qed.

(** Schema names are safe identifiers, so never empty. *)
Lemma spec_schema_safe (spec : value) (sname : string) :
  vr_valid (validateWorkflowSpec spec) = true -> has_own sname (get "output_schemas" spec) = true -> SAFE_ID_RE sname = true.
Proof.
  intros Hv Ho. pose proof (ph_schemas _ (valid_phases spec Hv)) as H. unfold validateOutputSchemas in H.
  apply has_own_In in Ho. destruct (_ || _)%bool; [done|]. injection H as H _.
  pose proof (flat_map_nil _ _ H _ Ho) as Hs. unfold schema_issues in Hs. apply app_eq_nil in Hs as [Hs _].
  apply when_err_nil in Hs. by apply negb_false_iff in Hs.
Qed.

Lemma spec_schema_defs (spec : value) (sname : string) :
  List.NoDup (obj_keys (get "output_schemas" spec)) -> has_own sname (get "output_schemas" spec) = true ->
  map_get sname (sc_defs (spec_schemas spec)) = Some (schema_defs_of (get sname (get "output_schemas" spec))).
Proof.
  intros Hnd Ho. unfold spec_schemas, validateOutputSchemas. apply has_own_In in Ho.
  destruct (isObj (get "output_schemas" spec)) eqn:E; [|by destruct (get "output_schemas" spec)]. cbn [negb orb].
  destruct (Z.of_nat (List.length (entries (get "output_schemas" spec))) =? 0) eqn:El.
  { apply Z.eqb_eq in El. by destruct (entries (get "output_schemas" spec)). }
  cbn. apply (build_table_in (fun v => Some (schema_defs_of v)) _ [] sname (get sname (get "output_schemas" spec))); done.
Qed.

Lemma schema_field_def (schema fdef : value) (field : string) (d : FieldDef) :
  List.NoDup (obj_keys (get "fields" schema)) -> isObj schema = true -> has_own field (get "fields" schema) = true ->
  field_def_of (get field (get "fields" schema)) = Some d -> map_get field (schema_defs_of schema) = Some d.
Proof.
  intros Hnd Ho Hf Hd. unfold schema_defs_of. rewrite Ho.
  apply (build_table_in field_def_of _ [] field (get field (get "fields" schema))); [done|by apply has_own_In|done].
Qed.

(** The schema of a step, and its field definitions, as the spec declares them. *)
Definition schema_of (spec step : value) : value := get (str_of (get "output_schema" step)) (get "output_schemas" spec).

(** Object literals have distinct keys. *)
Definition distinct_schema_keys (spec step : value) : Prop :=
  List.NoDup (obj_keys (get "output_schemas" spec)) /\ List.NoDup (obj_keys (get "fields" (schema_of spec step))).

(** Every conditional edge of the step tests [output.field], which its schema declares as
    a required enum. *)
Definition branches_on_enum (spec step : value) (from field : string) : Prop :=
  let fdef := get field (get "fields" (schema_of spec step)) in
  conditional_conds spec from <> []
  /\ (forall c, In c (conditional_conds spec from) -> exists p, isObj c = true /\ get "path" c = VStr p /\ parseConditionPath p = Some (NsOutput, field))
  /\ get "type" fdef = VStr "enum" /\ get "required" fdef = VBool true /\ isArr (get "enum" fdef) = true.

Lemma branches_route_on_enum (spec step : value) (from field : string) :
  vr_valid (validateWorkflowSpec spec) = true -> In step (elems (get "steps" spec)) ->
  get "id" step = VStr from ->
  distinct_schema_keys spec step -> branches_on_enum spec step from field ->
  routes_on_required_enum spec from field (elems (get "enum" (get field (get "fields" (schema_of spec step))))).
Proof.
  intros Hv Hin Hid [Hd1 Hd2] (Hc & Hall & Ht & Hr & He). split; [done|]. intros c Hcin.
  destruct (Hall c Hcin) as (p & Hco & Hp & Hpp). destruct (spec_step_schema spec step from Hv Hin Hid) as (sname & Hos & Hm & _).
  unfold schema_of in *. rewrite Hos in *. cbn [str_of] in *. set (schema := get sname (get "output_schemas" spec)) in *.
  set (fdef := get field (get "fields" schema)) in *.
  assert (has_own field (get "fields" schema) = true) as Hof
    by (apply get_has_own; fold fdef; intros Hu; by rewrite Hu in Ht).
  assert (isObj schema = true) as Hso by (destruct schema; done).
  assert (has_own sname (get "output_schemas" spec) = true) as Hsn
    by (apply get_has_own; fold schema; intros Hu; by rewrite Hu in Hso).
  assert (sname <> "") as Hne by (intros ->; by apply spec_schema_safe in Hsn).
  assert (exists en, get "enum" fdef = VArr en) as [en Hen] by (destruct (get "enum" fdef); try done; eauto).
  assert (field_def_of fdef = Some {| fd_type := "enum"; fd_enum := Some en; fd_required := true |}) as Hfd.
  { unfold field_def_of. rewrite Ht, Hr, Hen. assert (isObj fdef = true) as -> by (destruct fdef; done). done. }
  exists {| fd_type := "enum"; fd_enum := Some en; fd_required := true |}.
  split; [|rewrite Hen; done].
  unfold selectorOf. rewrite Hco, Hp. cbn [isStr negb orb str_of]. rewrite Hpp, Hm, (proj2 (String.eqb_neq _ _) Hne).
  rewrite (spec_schema_defs spec sname Hd1 Hsn). f_equal.
  by apply (schema_field_def schema fdef field _ Hd2 Hso Hof).
Qed.

(** A required enum field of a validated output holds one of the declared values. *)
Lemma field_of_validated (output schema v : value) (field : string) :
  validateAgainstSchema output schema = Ok v ->
  get "type" (get field (get "fields" schema)) = VStr "enum" -> get "required" (get field (get "fields" schema)) = VBool true ->
  v = output /\ has_own field output = true
  /\ exists s, get field output = VStr s /\ In (VStr s) (elems (get "enum" (get field (get "fields" schema)))).
Proof.
  intros Hval Ht Hreq.
  assert (has_own field (get "fields" schema) = true) as Hof
    by (apply get_has_own; intros Hu; by rewrite Hu in Ht).
  apply validate_ok_inv in Hval as (-> & _ & Hf & _). destruct (Hf _ _ (has_own_In _ _ Hof)) as [Hty Hpres].
  rewrite Hreq in Hpres. specialize (Hpres eq_refl). specialize (Hty Hpres).
  split; [done|]. split; [done|]. unfold of_declared_type in Hty. rewrite Ht in Hty. naive_solver.
Qed.

(** C2. Exhaustive routing end to end: if the conditional edges of a step of a valid spec
    branch on one required enum field of the step's output schema, then every output the
    schema accepts is routed to exactly one edge, in every round: neither
    [routing_no_edge] nor [routing_ambiguous] can occur. *)
Theorem validated_output_routes (spec step output v : value) (from field : string) (round : Z) :
  vr_valid (validateWorkflowSpec spec) = true -> In step (elems (get "steps" spec)) -> get "id" step = VStr from ->
  distinct_schema_keys spec step -> branches_on_enum spec step from field ->
  validateAgainstSchema output (schema_of spec step) = Ok v ->
  exists terminal target kind, selectEdge spec from v round = RouteTo terminal target kind.
Proof.
  intros Hv Hin Hid Hd Hb Hval.
  apply (branches_route_on_enum spec step from field Hv Hin Hid Hd) in Hb as Hr. destruct Hb as (_ & _ & Ht & Hreq & _).
  destruct (field_of_validated output (schema_of spec step) v field Hval Ht Hreq) as (-> & Ho & s & Hg & Hs).
  by eapply enum_value_routes.
Qed.

Lemma validated_output_routes_witness :
  exists terminal target kind, selectEdge plannerExecutorLoopExample "review" review_output 1 = RouteTo terminal target kind.
Proof.
  apply (validated_output_routes plannerExecutorLoopExample (nth 2 (elems (get "steps" plannerExecutorLoopExample)) VNull)
           review_output review_output "review" "status"); [vm_compute; reflexivity | vm_compute; auto | reflexivity | | | vm_compute; reflexivity].
  - split; vm_compute; repeat constructor; set_solver.
  - split; [vm_compute; congruence|]. split; [|vm_compute; auto].
    intros c Hc. vm_compute in Hc. repeat (destruct Hc as [<-|Hc]; [eexists; vm_compute; auto|]). done.
Defined.

(** ** Stall detection *)

Lemma run_length_take (last : string) (l : list string) (n : nat) :
  (n <= run_length last l)%nat -> take n l = repeat last n.
Proof.
  revert n. induction l as [|x l IH]; intros n H; cbn in H; [by replace n with O by lia|].
  destruct (x =s last) eqn:E; [|by replace n with O by lia]. bsimpl. subst. destruct n; [done|]. cbn. f_equal. apply IH. lia.
Qed.

Lemma run_length_max (last : string) (l : list string) (n : nat) :
  take n l = repeat last n -> (n <= run_length last l)%nat.
Proof.
  revert n. induction l as [|x l IH]; intros [|n] H; cbn in *; try lia; try done.
  injection H as -> H. rewrite String.eqb_refl. specialize (IH n H). lia.
Qed.

(** A loop is stalled exactly when the last [maxStalledRounds] recorded fingerprints
    (at least one) are all equal. *)
Theorem stalled_iff (fps : list string) (maxStalledRounds : Z) :
  1 <= maxStalledRounds ->
  isStalled fps maxStalledRounds = true <->
  exists pre fp, fps = pre ++ repeat fp (Z.to_nat maxStalledRounds).
Proof.
  intros Hm. unfold isStalled, consecutiveUnchanged. rewrite Z.leb_le. split.
  - destruct (rev fps) as [|last r] eqn:E; [lia|]. intros H. rewrite <- E in H.
    exists (rev (drop (Z.to_nat maxStalledRounds) (rev fps))), last.
    rewrite <- (rev_repeat (Z.to_nat maxStalledRounds) last), <- (run_length_take last (rev fps)) by lia.
    by rewrite <- rev_app_distr, take_drop, rev_involutive.
  - intros (pre & fp & ->). rewrite rev_app_distr, rev_repeat.
    assert (exists n, maxStalledRounds = Z.of_nat n) as [n ->] by (exists (Z.to_nat maxStalledRounds); lia). rewrite Nat2Z.id.
    assert (n <= run_length fp (repeat fp n ++ rev pre))%nat as Hrun
      by (apply run_length_max; by rewrite take_app_length' by (symmetry; apply repeat_length)).
    destruct n as [|k]; [lia|]. cbn [repeat app] in *. lia.
Qed.

Lemma stalled_iff_witness : exists pre fp, ["a"; "b"; "b"] = pre ++ repeat fp (Z.to_nat 2).
Proof. apply (stalled_iff ["a"; "b"; "b"] 2); [lia | reflexivity]. Defined.

(** ** Step execution ids *)

Lemma last_sep {A : Type} (c : A) (x y x' y' : list A) :
  ~ In c y -> ~ In c y' -> x ++ c :: y = x' ++ c :: y' -> x = x' /\ y = y'.
Proof.
  revert x'. induction x as [|a x IH]; intros [|b x'] Hy Hy' H; simplify_eq/=.
  - done.
  - exfalso. apply Hy, in_or_app. right. by left.
  - exfalso. apply Hy', in_or_app. right. by left.
  - match goal with E : _ ++ c :: y = _ |- _ => by destruct (IH x' Hy Hy' E) as [-> ->] end.
Qed.

Lemma lit_app (a b : string) : lit (a +:+ b) = lit a ++ lit b.
Proof. unfold lit. induction a as [|c a IH]; [done|]. rewrite append_cons. cbn. by rewrite IH. Qed.

Lemma lit_inj (a b : string) : lit a = lit b -> a = b.
Proof. intros H. by rewrite <- (lit_id a), H, lit_id. Qed.

Definition dot_free (s : string) : Prop := ~ In "."%char (lit s).

Lemma safe_dot_free (s : string) : SAFE_ID_RE s = true -> dot_free s.
Proof.
  intros H Hin. apply safe_id_no_dot in H. unfold all_chars in H.
  pose proof (proj1 (forallb_forall _ _) H _ Hin) as Hc. cbv beta in Hc. by rewrite Ascii.eqb_refl in Hc.
Qed.

Lemma zstr_dot_free (c : ascii) (z : Z) : c <> "."%char -> ~ In "."%char (c :: lit (zstr z)).
Proof.
  intros Hc [?|Hin]; [done|]. by pose proof (proj1 (forallb_forall _ _) (zstr_digits z) _ Hin).
Qed.

Lemma split_last (x x' y y' : string) : dot_free y -> dot_free y' -> x +:+ "." +:+ y = x' +:+ "." +:+ y' -> x = x' /\ y = y'.
Proof.
  intros Hy Hy' H. apply (f_equal lit) in H. rewrite !lit_app in H. cbn in H. fold (lit y) (lit y') in H.
  apply last_sep in H as [H1 H2]; [|done|done]. split; by apply lit_inj.
Qed.


(** Step execution ids identify their execution: for step ids of the contract's
    grammar, equal ids mean the same workflow, step, round and attempt.  (They are the
    idempotency keys of the tasks, so no two executions share a task.) *)
Theorem step_execution_id_injective (wf wf' step step' : string) (round round' attempt attempt' : Z) :
  SAFE_ID_RE step = true -> SAFE_ID_RE step' = true ->
  stepExecutionId wf step round attempt = stepExecutionId wf' step' round' attempt' ->
  wf = wf' /\ step = step' /\ round = round' /\ attempt = attempt'.
Proof.
  intros Hs Hs' H. unfold stepExecutionId in H.
  assert (forall w s r a, w +:+ "." +:+ s +:+ ".r" +:+ zstr r +:+ ".a" +:+ zstr a
    = ((w +:+ "." +:+ s) +:+ "." +:+ ("r" +:+ zstr r)) +:+ "." +:+ ("a" +:+ zstr a)) as E.
  { intros. by rewrite !append_assoc. }
  rewrite !E in H.
  apply split_last in H as [H Ha]; [|apply (zstr_dot_free "a"); done..].
  apply split_last in H as [H Hr]; [|apply (zstr_dot_free "r"); done..].
  apply split_last in H as [-> ->]; [|by apply safe_dot_free..].
  injection Ha as Ha. injection Hr as Hr. by rewrite (zstr_inj _ _ Ha), (zstr_inj _ _ Hr).
Qed.

Lemma step_execution_id_injective_witness : stepExecutionId "wf1" "plan" 1 1 = "wf1.plan.r1.a1" /\ 1 = 1.
Proof.
  split; [reflexivity|]. destruct (step_execution_id_injective "wf1" "wf1" "plan" "plan" 1 1 1 1) as (_ & _ & _ & H); done.
Defined.
