(* ===== verification/GraphProps.v ===== *)
(** * The graph analyses of the validator

    Correctness of the three traversals behind [analyzeGraph]: the reachability loop
    returns only reachable steps, a failed search for a cycle means that every node is
    accessible (no cycle), and the iteration of [computeDominators] ends in a fixpoint
    within its fuel, whose sets are dominators.  The last section states what they mean
    for the edges of a valid spec. *)

From S2P Require Import Prelude Values Json Contract Conditions Templates Verification Validator Examples ValidatorProps.

(** ** Paths *)

(** [path R u w l]: from [u] to [w] along [R], visiting the nodes [l] ([u] first, [w]
    not included). *)
Inductive path {A : Type} (R : A -> A -> Prop) : A -> A -> list A -> Prop :=
  | path_nil (u : A) : path R u u []
  | path_cons (u v w : A) (l : list A) : R u v -> path R v w l -> path R u w (u :: l).

Lemma path_snoc {A : Type} (R : A -> A -> Prop) (u v w : A) (l : list A) :
  path R u v l -> R v w -> path R u w (l ++ [v]).
Proof. induction 1; intros; cbn; econstructor; eauto using path. Qed.

Lemma path_unsnoc {A : Type} (R : A -> A -> Prop) (u w : A) (l : list A) :
  path R u w l -> l = [] /\ u = w \/ exists v l', l = l' ++ [v] /\ path R u v l' /\ R v w.
Proof.
  induction 1 as [|u v w l Huv _ [[-> ->]|(x & l' & -> & Hp & Hx)]]; [by left| |]; right.
  - exists u, []. split; [done|]. split; [constructor|done].
  - exists x, (u :: l'). split; [done|]. split; [by econstructor|done].
Qed.

Lemma acc_no_cycle {A : Type} (R : A -> A -> Prop) (u : A) (l : list A) :
  Acc (fun x y => R y x) u -> path R u u l -> l = [].
Proof.
  intros HA. revert l. induction HA as [u _ IH]. intros l Hp. inversion Hp; subst; [done|].
  pose proof (path_snoc _ _ _ _ _ H0 H) as Hc. apply IH in Hc; [|done]. by destruct l0.
Qed.

(** ** Reachability *)

Section Reach.
Context (adj : list (string * list string)) (entry : string).
Definition step_to (u v : string) : Prop := In v (adj_of adj u).
Definition reach (v : string) : Prop := exists l, path step_to entry v l.

Lemma reach_step (u v : string) : reach u -> step_to u v -> reach v.
Proof. intros [l Hl] H. eexists. by eapply path_snoc. Qed.

Lemma reach_push (ns : list string) (r s : list string) (u : string) :
  (forall x, In x ns -> reach x) -> Forall reach r -> Forall reach s ->
  let '(r', s') := fold_left (fun acc nxt => let '(r, s) := acc in if nxt ∈b r then (r, s) else (r ++ [nxt], nxt :: s)) ns (r, s) in
  Forall reach r' /\ Forall reach s'.
Proof.
  revert r s. induction ns as [|n ns IH]; intros r s Hn Hr Hs; cbn; [done|].
  destruct (n ∈b r); apply IH; auto; intros; try (apply Hn; by right).
  - apply Forall_app. split; [done|]. constructor; [apply Hn; by left|done].
  - constructor; [apply Hn; by left|done].
Qed.

Lemma reach_loop_sound (fuel : nat) (r s : list string) :
  Forall reach r -> Forall reach s -> Forall reach (reach_loop fuel adj r s).
Proof.
  revert r s. induction fuel as [|f IH]; intros r s Hr Hs; cbn; [done|].
  destruct s as [|cur rest]; [done|]. inversion Hs; subst.
  pose proof (reach_push (adj_of adj cur) r rest cur) as Hp.
  destruct (fold_left _ _ _) as [r' s']. destruct Hp as [H5 H6]; auto.
  intros x Hx. by apply (reach_step cur).
Qed.
End Reach.

(** ** Cycles *)

Section Cycles.
Context (nodes : list string) (adj : list (string * list string)).
Context (closed : forall u v, In v (adj_of adj u) -> In v nodes).

Definition colored (st : dfs_state) (u : string) : option color := map_get u (dfs_color st).
Definition no_cycle_from (u : string) : Prop := Acc (fun x y => step_to adj y x) u.

(** Black nodes start no infinite path; every node has a colour. *)
Definition dfs_inv (st : dfs_state) : Prop :=
  (forall u, colored st u = Some BLACK -> no_cycle_from u) /\ (forall u, In u nodes -> exists c, colored st u = Some c).

(** A finished visit: grey and black nodes keep their colour, and no node is left grey
    that was not. *)
Definition dfs_le (st st' : dfs_state) : Prop :=
  (forall u c, colored st u = Some c -> c <> WHITE -> colored st' u = Some c)
  /\ (forall u, colored st' u = Some GRAY -> colored st u = Some GRAY).

Definition whites (st : dfs_state) : nat :=
  List.length (List.filter (fun u => match colored st u with Some WHITE => true | _ => false end) nodes).

Lemma dfs_le_refl st : dfs_le st st.
Proof. by split. Qed.

Lemma dfs_le_trans a b c : dfs_le a b -> dfs_le b c -> dfs_le a c.
Proof. intros [H1 G1] [H2 G2]. split; [intros u k Hu Hk; apply H2; [by apply H1|done]|auto]. Qed.

Lemma filter_le {A : Type} (p q : A -> bool) (l : list A) :
  (forall x, p x = true -> q x = true) -> (List.length (List.filter p l) <= List.length (List.filter q l))%nat.
Proof.
  intros H. induction l as [|a l IH]; cbn; [lia|].
  destruct (p a) eqn:E; [rewrite (H _ E); cbn; lia|]. destruct (q a); cbn; lia.
Qed.

Lemma filter_lt {A : Type} (p q : A -> bool) (l : list A) (x : A) :
  (forall x, p x = true -> q x = true) -> In x l -> p x = false -> q x = true ->
  (List.length (List.filter p l) < List.length (List.filter q l))%nat.
Proof.
  intros H. induction l as [|a l IH]; cbn; [done|]. intros [->|Hx] Hp Hq.
  - rewrite Hp, Hq. cbn. pose proof (filter_le p q l H). lia.
  - specialize (IH Hx Hp Hq). destruct (p a) eqn:E; [rewrite (H _ E); cbn; lia|]. destruct (q a); cbn; lia.
Qed.

(** Painting a node. *)
Lemma colored_paint (st : dfs_state) (u v : string) (c : color) (p : list string) :
  colored {| dfs_color := map_set u c (dfs_color st); dfs_path := p |} v = if u =s v then Some c else colored st v.
Proof. unfold colored. cbn. apply map_get_set. Qed.

Lemma whites_paint (st : dfs_state) (u : string) (c : color) (p : list string) :
  In u nodes -> colored st u = Some WHITE -> c <> WHITE ->
  (whites {| dfs_color := map_set u c (dfs_color st); dfs_path := p |} < whites st)%nat.
Proof.
  intros Hu Hw Hc. unfold whites. eapply filter_lt with (x := u); [|done| |by rewrite Hw].
  - intros x. rewrite colored_paint. destruct (u =s x) eqn:E; [by destruct c|done].
  - rewrite colored_paint, String.eqb_refl. by destruct c.
Qed.

(** What one successful (cycle-free) visit of a node, or of a list of successors,
    establishes. *)
Definition dfs_post (st st' : dfs_state) (done_nodes : list string) : Prop :=
  dfs_inv st' /\ dfs_le st st' /\ (whites st' <= whites st)%nat /\ Forall (fun v => colored st' v = Some BLACK) done_nodes.

Definition visit_spec (call : string -> dfs_state -> option (list string) * dfs_state) (bound : nat) : Prop :=
  forall u st st', In u nodes -> colored st u = Some WHITE -> (whites st <= bound)%nat -> dfs_inv st ->
    call u st = (None, st') -> dfs_post st st' [u].

Lemma visit_list (call : string -> dfs_state -> option (list string) * dfs_state) (bound : nat) (vs : list string) :
  visit_spec call bound -> forall st st', (forall v, In v vs -> In v nodes) -> (whites st <= bound)%nat -> dfs_inv st ->
  (fix visit (vs : list string) (st : dfs_state) : option (list string) * dfs_state :=
     match vs with
     | [] => (None, st)
     | v :: r =>
         match map_get v (dfs_color st) with
         | Some GRAY => (Some (slice_from v (dfs_path st) ++ [v]), st)
         | Some WHITE => let '(c, st') := call v st in match c with Some _ => (c, st') | None => visit r st' end
         | _ => visit r st
         end
     end) vs st = (None, st') -> dfs_post st st' vs.
Proof.
  intros Hcall. induction vs as [|v r IH]; intros st st' Hn Hw Hi H.
  - injection H as <-. split; [done|]. split; [apply dfs_le_refl|]. by split.
  - fold (colored st v) in H. destruct (proj2 Hi v (Hn v (or_introl eq_refl))) as [c Hc]. rewrite Hc in H. destruct c.
    + destruct (call v st) as [o st1] eqn:Ec. destruct o; [done|].
      destruct (Hcall v st st1 (Hn v (or_introl eq_refl)) Hc Hw Hi Ec) as (Hi1 & Hle1 & Hw1 & Hb).
      apply IH in H as (Hi2 & Hle2 & Hw2 & Hf); [|intros; apply Hn; by right|lia|done].
      inversion Hb; subst. split; [done|]. split; [by eapply dfs_le_trans|]. split; [lia|].
      constructor; [by apply (proj1 Hle2)|done].
    + done.
    + apply IH in H as (Hi2 & Hle2 & Hw2 & Hf); [|intros; apply Hn; by right|lia|done].
      split; [done|]. split; [done|]. split; [done|]. constructor; [by apply (proj1 Hle2)|done].
Qed.

Lemma dfs_inv_paint (st : dfs_state) (u : string) (c : color) (p : list string) :
  dfs_inv st -> (c = BLACK -> no_cycle_from u) -> dfs_inv {| dfs_color := map_set u c (dfs_color st); dfs_path := p |}.
Proof.
  intros [H1 H2] Hc. split.
  - intros v. rewrite colored_paint. destruct (u =s v) eqn:E; [|apply H1].
    intros [= ->]. apply String.eqb_eq in E as <-. auto.
  - intros v Hv. rewrite colored_paint. destruct (u =s v); eauto.
Qed.

Lemma dfs_spec (fuel : nat) : visit_spec (dfs fuel adj) fuel.
Proof.
  induction fuel as [|f IH]; intros u st st' Hu Hc Hw Hi H.
  - exfalso. assert (0 < whites st)%nat; [|lia]. eapply Nat.le_lt_trans; [apply Nat.le_0_l|].
    unfold whites. eapply (filter_lt (fun _ => false) _ nodes u); [done|done|done|]. by rewrite Hc.
  - cbn [dfs] in H. cbv zeta in H.
    match type of H with context [{| dfs_color := map_set u GRAY _; dfs_path := ?p |}] => set (st1 := {| dfs_color := map_set u GRAY (dfs_color st); dfs_path := p |}) in * end.
    assert (dfs_inv st1) as Hi1 by (by apply dfs_inv_paint).
    assert (whites st1 < whites st)%nat as Hw1 by (by apply whites_paint).
    destruct ((fix visit vs st := match vs with [] => _ | _ => _ end) (adj_of adj u) st1) as [o st2] eqn:Ev.
    destruct o; [done|]. injection H as <-.
    apply (visit_list _ f) in Ev as (Hi2 & Hle & Hw2 & Hb); [|done|apply closed|lia|done].
    assert (no_cycle_from u) as Hacc.
    { constructor. intros v Hv. apply (proj1 Hi2). rewrite List.Forall_forall in Hb. by apply Hb. }
    split; [by apply dfs_inv_paint|]. split; [|split].
    + split; intros v; [intros c Hv Hne|]; rewrite colored_paint; destruct (u =s v) eqn:E.
      * apply String.eqb_eq in E. congruence.
      * apply (proj1 Hle); [|done]. unfold st1. by rewrite colored_paint, E.
      * done.
      * intros Hv. apply (proj2 Hle) in Hv. unfold st1 in Hv. by rewrite colored_paint, E in Hv.
    + etransitivity; [|apply Nat.lt_le_incl, Hw1]. etransitivity; [|exact Hw2]. unfold whites. apply filter_le.
      intros x. rewrite colored_paint. by destruct (u =s x).
    + constructor; [|done]. by rewrite colored_paint, String.eqb_refl.
Qed.

(** The loop over the roots: no node is grey between two searches. *)
Lemma search_roots (bound : nat) (ns : list string) :
  forall st st', (forall v, In v ns -> In v nodes) -> (whites st <= bound)%nat -> dfs_inv st ->
  (forall v, colored st v <> Some GRAY) ->
  (fix go (ns : list string) (st : dfs_state) : option (list string) * dfs_state :=
     match ns with
     | [] => (None, st)
     | n :: r =>
         match map_get n (dfs_color st) with
         | Some WHITE => let '(c, st') := dfs bound adj n st in match c with Some _ => (c, st') | None => go r st' end
         | _ => go r st
         end
     end) ns st = (None, st') -> dfs_post st st' ns.
Proof.
  induction ns as [|n r IH]; intros st st' Hn Hw Hi Hg H.
  - injection H as <-. split; [done|]. split; [apply dfs_le_refl|]. by split.
  - fold (colored st n) in H. destruct (proj2 Hi n (Hn n (or_introl eq_refl))) as [c Hc]. rewrite Hc in H. destruct c.
    + destruct (dfs bound adj n st) as [o st1] eqn:Ec. destruct o; [done|].
      destruct (dfs_spec bound n st st1 (Hn n (or_introl eq_refl)) Hc Hw Hi Ec) as (Hi1 & Hle1 & Hw1 & Hb).
      apply IH in H as (Hi2 & Hle2 & Hw2 & Hf); [|intros; apply Hn; by right|lia|done|].
      * inversion Hb; subst. split; [done|]. split; [by eapply dfs_le_trans|]. split; [lia|].
        constructor; [by apply (proj1 Hle2)|done].
      * intros v Hv. by apply (proj2 Hle1), Hg in Hv.
    + by apply Hg in Hc.
    + apply IH in H as (Hi2 & Hle2 & Hw2 & Hf); [|intros; apply Hn; by right|lia|done|done].
      split; [done|]. split; [done|]. split; [done|]. constructor; [by apply (proj1 Hle2)|done].
Qed.

Lemma findCycle_none (u : string) : findCycle nodes adj = None -> In u nodes -> no_cycle_from u.
Proof.
  unfold findCycle. set (st0 := {| dfs_color := map (fun n => (n, WHITE)) nodes; dfs_path := [] |}).
  assert (forall v, colored st0 v = if v ∈b nodes then Some WHITE else None) as Hc0.
  { intros v. unfold colored, st0, str_in. cbn. clear. induction nodes as [|n l IH]; [done|]. cbn.
    rewrite map_get_cons, IH, String.eqb_sym. by destruct (v =s n). }
  assert (dfs_inv st0) as Hi0.
  { split; intros v; rewrite Hc0; [by destruct (v ∈b nodes)|]. intros Hv. rewrite (proj2 (str_in_spec _ _) Hv). eauto. }
  assert (whites st0 <= S (List.length nodes))%nat as Hw0.
  { unfold whites. pose proof (List.filter_length_le (fun u => match colored st0 u with Some WHITE => true | _ => false end) nodes). lia. }
  intros H Hu. match type of H with fst ?x = None => destruct x as [o st'] eqn:E end. cbn in H. subst o.
  apply search_roots in E as (Hi & _ & _ & Hb); [|done|done|done|].
  - apply (proj1 Hi). rewrite List.Forall_forall in Hb. by apply Hb.
  - intros v. rewrite Hc0. by destruct (v ∈b nodes).
Qed.
End Cycles.

(** ** Dominators *)

Lemma set_inter_In (x : string) (a b : list string) : In x (set_inter a b) <-> In x a /\ In x b.
Proof. unfold set_inter. by rewrite List.filter_In, str_in_spec. Qed.

Lemma inter_fold_In (f : string -> list string) (r : list string) (acc : list string) (x : string) :
  In x (fold_left (fun s q => set_inter s (f q)) r acc) <-> In x acc /\ (forall q, In q r -> In x (f q)).
Proof.
  revert acc. induction r as [|q r IH]; intros acc; cbn; [naive_solver|].
  rewrite IH, set_inter_In. naive_solver.
Qed.

Lemma inter_fold_NoDup (f : string -> list string) (r : list string) (acc : list string) :
  List.NoDup acc -> List.NoDup (fold_left (fun s q => set_inter s (f q)) r acc).
Proof. revert acc. induction r as [|q r IH]; intros acc H; cbn; [done|]. apply IH. by apply List.NoDup_filter. Qed.

(** [x] is in the next set of [n] iff it is [n], or is in the sets of all predecessors
    (of which there is one). *)
Lemma dom_next_In (dom : list (string * list string)) (ps : list string) (n x : string) :
  In x (dom_next dom ps n) <-> x = n \/ (ps <> [] /\ forall p, In p ps -> In x (dom_get dom p)).
Proof.
  unfold dom_next. rewrite set_add_In. destruct ps as [|p r]; [cbn; naive_solver|].
  rewrite inter_fold_In. cbn. split; (intros [->|[H1 H2]]; [by left|right]; split); auto; try done.
  intros q [<-|Hq]; auto.
Qed.

Lemma same_set_eq (next cur : list string) :
  same_set next cur = true -> List.NoDup next -> forall x, In x cur -> In x next.
Proof.
  unfold same_set. intros H Hn. apply andb_true_iff in H as [H1 H2]. apply Nat.eqb_eq in H1.
  apply (List.NoDup_length_incl Hn); [lia|]. intros x Hx. apply str_in_spec.
  by apply (proj1 (forallb_forall _ _) H2).
Qed.

Lemma same_set_lt (next cur : list string) :
  same_set next cur = false -> List.NoDup next -> incl next cur -> (List.length next < List.length cur)%nat.
Proof.
  unfold same_set. intros H Hn Hi. pose proof (List.NoDup_incl_length Hn Hi).
  destruct (Nat.eqb (List.length next) (List.length cur)) eqn:E; [|apply Nat.eqb_neq in E; lia].
  exfalso. cbn in H. assert (forallb (fun x => x ∈b cur) next = true); [|congruence].
  apply forallb_forall. intros x Hx. by apply str_in_spec, Hi.
Qed.

Section Dominators.
Context (entry : string) (reachable : list string) (normalAdj : list (string * list string)).
Context (reach_NoDup : List.NoDup reachable).
Abbreviation preds := (dom_preds reachable normalAdj).
Abbreviation table := (list (string * list string)).

Fixpoint total (f : string -> nat) (l : list string) : nat :=
  match l with [] => O | n :: r => (f n + total f r)%nat end.

Lemma total_le (f g : string -> nat) (l : list string) :
  (forall n, f n <= g n)%nat -> (total f l <= total g l)%nat.
Proof. intros H. induction l as [|a l IH]; cbn; [lia|]. specialize (H a). lia. Qed.

Lemma total_lt (f g : string -> nat) (l : list string) (n : string) :
  (forall n, f n <= g n)%nat -> In n l -> (f n < g n)%nat -> (total f l < total g l)%nat.
Proof.
  intros H Hn Hlt. induction l as [|a l IH]; [done|]. cbn. pose proof (total_le f g l H). specialize (H a).
  destruct Hn as [->|Hn]; [lia|]. specialize (IH Hn). lia.
Qed.

Lemma total_bound (f : string -> nat) (b : nat) (l : list string) :
  (forall n, In n l -> f n <= b)%nat -> (total f l <= List.length l * b)%nat.
Proof. induction l as [|a l IH]; cbn; [lia|]. intros H. pose proof (H a (or_introl eq_refl)). specialize (IH (fun n Hn => H n (or_intror Hn))). lia. Qed.

Definition size (dom : table) : nat := total (fun n => List.length (dom_get dom n)) reachable.

(** The table only shrinks: each set contains the set computed from its predecessors. *)
Record dom_inv (dom : table) : Prop := {
  di_nodup : forall n, List.NoDup (dom_get dom n);
  di_entry : dom_get dom entry = [entry];
  di_over : forall n, In n reachable -> n <> entry -> incl (dom_next dom (preds n) n) (dom_get dom n);
}.

Lemma dom_get_set (dom : table) (n m : string) (l : list string) :
  dom_get (map_set n l dom) m = if n =s m then l else dom_get dom m.
Proof. unfold dom_get. rewrite map_get_set. by destruct (n =s m). Qed.

Lemma dom_next_NoDup (dom : table) (ps : list string) (n : string) :
  (forall n, List.NoDup (dom_get dom n)) -> List.NoDup (dom_next dom ps n).
Proof. intros H. apply set_add_NoDup. destruct ps; [constructor|]. by apply inter_fold_NoDup. Qed.

Lemma dom_next_mono (dom dom' : table) (ps : list string) (n : string) :
  (forall q, incl (dom_get dom' q) (dom_get dom q)) -> incl (dom_next dom' ps n) (dom_next dom ps n).
Proof. intros H x. rewrite !dom_next_In. intros [->|[Hp Hx]]; [by left|right]. split; [done|]. intros p Hin. by apply H, Hx. Qed.

Definition dom_step (acc : bool * table) (n : string) : bool * table :=
  let '(changed, dom) := acc in
  if n =s entry then (changed, dom) else
  let next := dom_next dom (preds n) n in
  if same_set next (dom_get dom n) then (changed, dom) else (true, map_set n next dom).

Definition stable_at (dom : table) (n : string) : Prop :=
  n <> entry -> same_set (dom_next dom (preds n) n) (dom_get dom n) = true.

Lemma dom_step_spec (c : bool) (dom : table) (n : string) :
  dom_inv dom -> In n reachable ->
  let '(c', dom') := dom_step (c, dom) n in
  dom_inv dom' /\ ((c' = c /\ dom' = dom /\ stable_at dom n) \/ (c' = true /\ (size dom' < size dom)%nat)).
Proof.
  intros Hi Hn. cbn. destruct (n =s entry) eqn:E.
  { apply String.eqb_eq in E. split; [done|]. left. split; [done|]. split; [done|]. by intros ?. }
  apply String.eqb_neq in E. destruct (same_set _ _) eqn:S.
  { split; [done|]. left. split; [done|]. split; [done|]. by intros _. }
  set (next := dom_next dom (preds n) n) in *.
  pose proof (di_over _ Hi n Hn E) as Hincl. fold next in Hincl.
  assert (List.NoDup next) as Hnd by (apply dom_next_NoDup, Hi).
  assert (forall q, incl (dom_get (map_set n next dom) q) (dom_get dom q)) as Hsub.
  { intros q. rewrite dom_get_set. destruct (n =s q) eqn:Eq; [|apply incl_refl]. apply String.eqb_eq in Eq as <-. done. }
  split; [|right; split; [done|]].
  - constructor.
    + intros m. rewrite dom_get_set. destruct (n =s m); [done|apply Hi].
    + rewrite dom_get_set. apply String.eqb_neq in E. rewrite E. apply Hi.
    + intros m Hm Hme. eapply incl_tran; [by apply dom_next_mono|]. rewrite dom_get_set.
      destruct (n =s m) eqn:Em; [apply String.eqb_eq in Em as <-; apply incl_refl|]. by apply Hi.
  - unfold size. eapply total_lt; [|exact Hn|].
    + intros m. apply List.NoDup_incl_length; [|done]. rewrite dom_get_set. destruct (n =s m); [done|apply Hi].
    + rewrite dom_get_set, String.eqb_refl. by apply same_set_lt.
Qed.

Lemma dom_fold_spec (l : list string) (c : bool) (dom : table) :
  dom_inv dom -> incl l reachable ->
  let '(c', dom') := fold_left dom_step l (c, dom) in
  dom_inv dom' /\ ((c' = c /\ dom' = dom /\ Forall (stable_at dom) l) \/ (c' = true /\ (size dom' < size dom)%nat)).
Proof.
  revert c dom. induction l as [|n l IH]; intros c dom Hi Hl; cbn [fold_left].
  { split; [done|]. left. by repeat split. }
  pose proof (dom_step_spec c dom n Hi (Hl n (or_introl eq_refl))) as Hs. destruct (dom_step (c, dom) n) as [c1 d1].
  destruct Hs as [Hi1 Hs]. specialize (IH c1 d1 Hi1 (fun x Hx => Hl x (or_intror Hx))).
  destruct (fold_left dom_step l (c1, d1)) as [c2 d2]. destruct IH as [Hi2 IH]. split; [done|].
  destruct Hs as [(-> & -> & Hst)|(-> & Hlt)]; destruct IH as [(-> & -> & Hf)|(-> & Hlt2)];
    [left; by repeat constructor|right; by split|right; by split|right; split; [done|lia]].
Qed.

Lemma dom_iter_fixpoint (fuel : nat) (dom : table) :
  dom_inv dom -> (size dom < fuel)%nat ->
  dom_inv (dom_iter fuel entry reachable normalAdj dom) /\ Forall (stable_at (dom_iter fuel entry reachable normalAdj dom)) reachable.
Proof.
  revert dom. induction fuel as [|f IH]; intros dom Hi Hs; [lia|]. cbn [dom_iter].
  assert (dom_pass entry reachable normalAdj dom = fold_left dom_step reachable (false, dom)) as -> by done.
  pose proof (dom_fold_spec reachable false dom Hi (incl_refl _)) as Hp.
  destruct (fold_left dom_step reachable (false, dom)) as [c d].
  destruct Hp as [Hi1 [(-> & -> & Hf)|(-> & Hlt)]]; [by split|]. apply IH; [done|lia].
Qed.

Lemma dom_get_init (n : string) :
  dom_get (map (fun n => (n, if n =s entry then [entry] else reachable)) reachable) n
  = if n ∈b reachable then (if n =s entry then [entry] else reachable) else [].
Proof.
  unfold dom_get, str_in.
  assert (forall l, match map_get n (map (fun n => (n, if n =s entry then [entry] else reachable)) l) with Some s => s | None => [] end
    = if existsb (fun t => n =s t) l then (if n =s entry then [entry] else reachable) else []) as H; [|apply H].
  induction l as [|a l IH]; [done|]. cbn. rewrite map_get_cons, (String.eqb_sym n a).
  destruct (a =s n) eqn:E; [by apply String.eqb_eq in E as ->|exact IH].
Qed.

Lemma dom_preds_reach (n p : string) : In p (preds n) -> In p reachable.
Proof.
  unfold dom_preds. intros (uv & _ & H)%in_flat_map. destruct (fst uv ∈b reachable) eqn:E; [|done].
  apply in_map_iff in H as (? & <- & _). by apply str_in_spec.
Qed.

Lemma dom_preds_edge (u n : string) : In u reachable -> In n (adj_of normalAdj u) -> In u (preds n).
Proof.
  unfold adj_of. intros Hu Hn. destruct (map_get u normalAdj) as [vs|] eqn:E; [|done]. apply map_get_In in E.
  apply in_flat_map. exists (u, vs). split; [done|]. cbn. rewrite (proj2 (str_in_spec _ _) Hu).
  apply in_map_iff. exists n. split; [done|]. apply List.filter_In. split; [done|apply String.eqb_refl].
Qed.

(** The iteration stops within its fuel, at a fixpoint. *)
Lemma computeDominators_fixpoint :
  In entry reachable ->
  let dom := computeDominators entry reachable normalAdj in dom_inv dom /\ Forall (stable_at dom) reachable.
Proof.
  intros He. unfold computeDominators. apply dom_iter_fixpoint.
  - constructor.
    + intros n. rewrite dom_get_init. destruct (n ∈b reachable); [|constructor]. destruct (n =s entry); [repeat constructor; auto|done].
    + rewrite dom_get_init, (proj2 (str_in_spec _ _) He), String.eqb_refl. done.
    + intros n Hn Hne x. rewrite dom_next_In, dom_get_init, (proj2 (str_in_spec _ _) Hn), (proj2 (String.eqb_neq _ _) Hne).
      intros [->|[Hp Hx]]; [done|]. destruct (preds n) as [|p ps] eqn:Ep; [done|].
      specialize (Hx p (or_introl eq_refl)). rewrite dom_get_init in Hx. destruct (p ∈b reachable); [|done].
      destruct (p =s entry); [by destruct Hx as [<-|[]]|done].
  - apply Nat.lt_succ_r. apply total_bound. intros n Hn. rewrite dom_get_init, (proj2 (str_in_spec _ _) Hn).
    destruct (n =s entry); [|lia]. cbn. destruct reachable; [done|cbn; lia].
Qed.

(** A dominator of [n] is on every path of normal edges from the entry to [n]. *)
Lemma dominators_sound (dom : table) (n d : string) (l : list string) :
  dom_inv dom -> Forall (stable_at dom) reachable -> incl l reachable ->
  path (step_to normalAdj) entry n l -> In n reachable -> In d (dom_get dom n) -> In d (l ++ [n]).
Proof.
  intros Hi Hst. revert n. induction l as [|v l IH] using rev_ind; intros n Hl Hp Hn Hd.
  - apply path_unsnoc in Hp as [[_ <-]|(x & l' & He & _)]; [|by destruct l']. rewrite (di_entry _ Hi) in Hd. done.
  - destruct (String.eqb n entry) eqn:E.
    { apply String.eqb_eq in E as ->. rewrite (di_entry _ Hi) in Hd. apply in_or_app. by right. }
    apply String.eqb_neq in E. rewrite List.Forall_forall in Hst. specialize (Hst n Hn E).
    apply path_unsnoc in Hp as [[He _]|(x & l' & He & Hp & Hx)]; [by destruct l|]. apply app_inj_tail in He as [<- <-].
    apply (same_set_eq _ _ Hst) in Hd; [|apply dom_next_NoDup, Hi]. apply dom_next_In in Hd as [->|[_ Hd]].
    { apply in_or_app. right. by left. }
    apply in_or_app. left. apply IH; [intros y Hy; apply Hl, in_or_app; by left|done|apply Hl, in_or_app; right; by left|].
    apply Hd, dom_preds_edge; [apply Hl, in_or_app; right; by left|done].
Qed.
End Dominators.

(** ** The graph of a valid spec *)

Lemma reach_push_spec (ns r s : list string) :
  List.NoDup r ->
  let '(r', _) := fold_left (fun acc nxt => let '(r, s) := acc in if nxt ∈b r then (r, s) else (r ++ [nxt], nxt :: s)) ns (r, s) in
  List.NoDup r' /\ incl r r'.
Proof.
  revert r s. induction ns as [|n ns IH]; intros r s H; cbn; [split; [done|apply incl_refl]|].
  destruct (n ∈b r) eqn:E; [by apply IH|]. specialize (IH (r ++ [n]) (n :: s)).
  destruct (fold_left _ _ _) as [r' s']. destruct IH as [H1 H2].
  - pose proof (set_add_NoDup n r H) as Hd. unfold set_add in Hd. by rewrite E in Hd.
  - split; [done|]. intros x Hx. apply H2, in_or_app. by left.
Qed.

Lemma reach_loop_spec (fuel : nat) (adj : list (string * list string)) (r s : list string) :
  List.NoDup r -> List.NoDup (reach_loop fuel adj r s) /\ incl r (reach_loop fuel adj r s).
Proof.
  revert r s. induction fuel as [|f IH]; intros r s H; cbn; [split; [done|apply incl_refl]|].
  destruct s as [|cur rest]; [split; [done|apply incl_refl]|].
  pose proof (reach_push_spec (adj_of adj cur) r rest H) as Hp. destruct (fold_left _ _ _) as [r' s'].
  destruct Hp as [H1 H2]. destruct (IH r' s' H1). split; [done|]. by eapply incl_tran.
Qed.

Lemma adj_append (f t u v : string) (m : list (string * list string)) :
  In v (adj_of (map_append f t m) u) <-> In v (adj_of m u) \/ (f = u /\ t = v).
Proof.
  unfold adj_of, map_append. rewrite map_get_set. destruct (f =s u) eqn:E; bsimpl; subst.
  - rewrite in_app_iff. cbn. naive_solver.
  - naive_solver.
Qed.

Definition step_ids (spec : value) : list string := st_ids (spec_tables spec).

(** [e] goes from step [u] to step [v] (one of [ids]). *)
Definition edge_between (ids : list string) (e : value) (u v : string) : Prop :=
  get "from" e = VStr u /\ get "to" e = VStr v /\ In v ids.
Definition is_loop_edge (e : value) : bool := is_str_lit (get "kind" e) "loop".

(** Two steps joined by an edge of the spec, and by an edge that is not a loop edge. *)
Definition spec_edge (spec : value) (u v : string) : Prop :=
  exists e, In e (elems (get "edges" spec)) /\ edge_between (step_ids spec) e u v.
Definition normal_edge (spec : value) (u v : string) : Prop :=
  exists e, In e (elems (get "edges" spec)) /\ edge_between (step_ids spec) e u v /\ is_loop_edge e = false.

Lemma add_edge_adj (i : Z) (e : value) (ids : list string) (g : Graph) (u v : string) :
  edge_ok ids e ->
  (In v (adj_of (g_allAdj (add_edge_to_graph i e ids g)) u) <-> In v (adj_of (g_allAdj g) u) \/ edge_between ids e u v)
  /\ (In v (adj_of (g_normalAdj (add_edge_to_graph i e ids g)) u)
      <-> In v (adj_of (g_normalAdj g) u) \/ (edge_between ids e u v /\ is_loop_edge e = false)).
Proof.
  intros (_ & f & Hf & Hin). unfold add_edge_to_graph, edge_between, is_loop_edge. rewrite Hf.
  assert (not_matching (fun s => s ∈b ids) (VStr f) = false) as ->.
  { unfold not_matching. cbn. by rewrite (proj2 (str_in_spec f ids) Hin). }
  cbn.
  destruct (not_matching (fun s => s ∈b ids) (get "to" e)) eqn:N; cbn.
  - assert (forall w, get "to" e = VStr w -> ~ In w ids) as Hno.
    { intros w Hw Hi. rewrite Hw in N. unfold not_matching in N. cbn in N. by rewrite (proj2 (str_in_spec w ids) Hi) in N. }
    split; (split; [intros; by left|]); intros [H|H]; try done; exfalso; [|destruct H as [H _]]; destruct H as (_ & Hw & Hi); by eapply Hno.
  - apply not_matching_false in N as (t & Ht & Hti). apply str_in_spec in Hti. rewrite Ht. cbn.
    destruct (is_str_lit (get "kind" e) "loop"); cbn; rewrite ?adj_append; split; split; naive_solver.
Qed.

Lemma edges_adj (st : StepTables) (sc : Schemas) (l : list value) (u v : string) :
  Forall (edge_ok (st_ids st)) l -> forall i iss seen g,
  let '(_, _, g') := fold_indexed (validate_edge st sc) i l (iss, seen, g) in
  (In v (adj_of (g_allAdj g') u) <-> In v (adj_of (g_allAdj g) u) \/ exists e, In e l /\ edge_between (st_ids st) e u v)
  /\ (In v (adj_of (g_normalAdj g') u)
      <-> In v (adj_of (g_normalAdj g) u) \/ exists e, In e l /\ edge_between (st_ids st) e u v /\ is_loop_edge e = false).
Proof.
  induction 1 as [|e l He _ IH]; intros i iss seen g; cbn.
  - split; (split; [intros; by left|intros [H|(e & [] & _)]; done]).
  - destruct (add_edge_adj i e (st_ids st) g u v He) as [Ha Hn]. rewrite (proj1 He). cbn.
    match goal with |- context [fold_indexed _ (i + 1) l ?a] => destruct a as [[iss1 seen1] g1] eqn:Eg end.
    injection Eg as <- <- <-. 
    match goal with |- context [fold_indexed (validate_edge st sc) (i + 1) l (?a, ?b, ?c)] => specialize (IH (i + 1) a b c) end.
    destruct (fold_indexed _ _ _ _) as [[iss2 seen2] g2]. destruct IH as [IHa IHn].
    rewrite IHa, Ha, IHn, Hn. split; split; naive_solver.
Qed.

Lemma phases_adj (spec : value) (ph : Phases spec) (u v : string) :
  (In v (adj_of (g_allAdj (ph_g _ ph)) u) <-> spec_edge spec u v)
  /\ (In v (adj_of (g_normalAdj (ph_g _ ph)) u) <-> normal_edge spec u v).
Proof.
  pose proof (ph_edges _ ph) as H. unfold validateEdges in H. destruct (isArr (get "edges" spec)); cbn in H; [|done].
  pose proof (edges_adj (ph_st _ ph) (ph_sc _ ph) _ u v (proj2 (phases_out spec ph u)) 0 [] [] empty_graph) as He.
  destruct (fold_indexed _ _ _ _) as [[iss seen] g]. injection H as _ ->.
  unfold spec_edge, normal_edge, step_ids. rewrite <- (proj1 (phases_tables spec ph)).
  destruct He as [-> ->]. split; split; naive_solver.
Qed.

Lemma path_mono {A : Type} (R S : A -> A -> Prop) (u w : A) (l : list A) :
  (forall x y, R x y -> S x y) -> path R u w l -> path S u w l.
Proof. intros H. induction 1; econstructor; eauto. Qed.

(** Where a path of normal edges goes, it goes through steps. *)
Lemma normal_path_steps (spec : value) (ph : Phases spec) (u w : string) (l : list string) :
  path (normal_edge spec) u w l -> incl l (step_ids spec).
Proof.
  induction 1 as [|x y z l Hxy _ IH]; [intros ? []|]. intros a [<-|Ha]; [|by apply IH].
  destruct Hxy as (e & He & (Hf & _) & _). destruct (phases_out spec ph x) as [_ Hall]. rewrite List.Forall_forall in Hall.
  destruct (Hall e He) as (_ & f & Hf' & Hi). unfold step_ids. rewrite <- (proj1 (phases_tables spec ph)). congruence.
Qed.

Lemma phases_graph (spec : value) (ph : Phases spec) :
  let reach := reach_loop (S (S (List.length (st_ids (ph_st _ ph))))) (g_allAdj (ph_g _ ph)) [ph_entry _ ph] [ph_entry _ ph] in
  (forall s, In s (step_ids spec) -> In s reach) /\ findCycle (step_ids spec) (g_normalAdj (ph_g _ ph)) = None
  /\ ph_reach _ ph = reach /\ ph_doms _ ph = computeDominators (ph_entry _ ph) reach (g_normalAdj (ph_g _ ph)).
Proof.
  unfold step_ids. rewrite <- (proj1 (phases_tables spec ph)).
  pose proof (ph_graph _ ph) as H. unfold analyzeGraph in H. cbv zeta in *.
  apply pair_equal_spec in H as [H Hrd]. apply pair_equal_spec in Hrd as [<- <-]. nil_split.
  split; [|split; [|done]].
  - intros s Hs. match goal with H : flat_map _ _ = [] |- _ => pose proof (flat_map_nil _ _ H s Hs) as Hr end. apply when_err_nil, negb_false_iff, str_in_spec in Hr. done.
  - by destruct (findCycle _ _).
Qed.

(** Every step of a valid spec can be reached: there is a path of edges from the entry
    step to it. *)
Theorem valid_spec_all_reachable (spec : value) (s : string) :
  vr_valid (validateWorkflowSpec spec) = true -> In s (step_ids spec) ->
  exists entry l, get "entry_step" spec = VStr entry /\ path (spec_edge spec) entry s l.
Proof.
  intros Hv Hs. pose proof (valid_phases spec Hv) as ph. exists (ph_entry _ ph).
  destruct (phases_graph spec ph) as (Hr & _). specialize (Hr s Hs).
  pose proof (reach_loop_sound (g_allAdj (ph_g _ ph)) (ph_entry _ ph)) as Hsound.
  assert (reach (g_allAdj (ph_g _ ph)) (ph_entry _ ph) (ph_entry _ ph)) as H0 by (exists []; constructor).
  eapply List.Forall_forall in Hr; [|apply Hsound; by repeat constructor]. destruct Hr as [l Hl].
  exists l. split; [apply (ph_entry_in _ ph)|]. eapply path_mono; [|exact Hl]. intros x y. apply phases_adj.
Qed.

Lemma valid_spec_all_reachable_witness :
  exists entry l, get "entry_step" plannerExecutorLoopExample = VStr entry
    /\ path (spec_edge plannerExecutorLoopExample) entry "review" l.
Proof. apply valid_spec_all_reachable; [vm_compute; reflexivity | vm_compute; auto]. Defined.

Lemma normal_acyclic (spec : value) (u w : string) (l : list string) :
  vr_valid (validateWorkflowSpec spec) = true -> path (normal_edge spec) u w l -> l <> [] -> u <> w.
Proof.
  intros Hv Hp Hl <-. pose proof (valid_phases spec Hv) as ph. destruct (phases_graph spec ph) as (_ & Hc & _).
  destruct l as [|x l]; [done|]. pose proof (normal_path_steps spec ph _ _ _ Hp) as Hs.
  assert (x = u) as -> by (by inversion Hp).
  apply (findCycle_none (step_ids spec) (g_normalAdj (ph_g _ ph))) with (u := u) in Hc;
    [|intros a b Hab; apply (phases_adj spec ph) in Hab as (e & _ & (_ & _ & Hb) & _); done|apply Hs; by left].
  apply (acc_no_cycle _ _ (u :: l)) in Hc; [done|]. eapply path_mono; [|exact Hp]. intros a b Hab. by apply phases_adj.
Qed.

Lemma example_path : path (normal_edge plannerExecutorLoopExample) "plan" "review" ["plan"; "implement"].
Proof.
  assert (forall u v e, In e (elems (get "edges" plannerExecutorLoopExample)) ->
    edge_between (step_ids plannerExecutorLoopExample) e u v -> is_loop_edge e = false -> normal_edge plannerExecutorLoopExample u v) as H
    by (intros u v e ???; exists e; auto).
  eapply (path_cons _ "plan" "implement").
  - eapply H; [by left | repeat split; vm_compute; auto | reflexivity].
  - eapply (path_cons _ "implement" "review"); [|constructor].
    eapply H; [do 4 right; by left | repeat split; vm_compute; auto | reflexivity].
Qed.

(** ** The edges the runtime selects *)

Lemma edges_targets (st : StepTables) (sc : Schemas) (l : list value) (i : Z) (iss : issues) (seen : list string) (g : Graph)
    (iss' : issues) (seen' : list string) (g' : Graph) :
  fold_indexed (validate_edge st sc) i l (iss, seen, g) = (iss', seen', g') -> iss' = [] ->
  iss = [] /\ Forall (fun e => exists t, get "to" e = VStr t /\ (isTerminalTarget t || (t ∈b st_ids st)) = true) l.
Proof.
  revert i iss seen g. induction l as [|e l IH]; intros i iss seen g H Hn; cbn in H; [by inversion H; subst|].
  destruct (isObj e) eqn:Ho; cbn in H; apply IH in H; try done; destruct H as (H1 & H2); nil_split; [|done].
  unfold edge_shape_issues in *. nil_split. split; [done|]. constructor; [|done].
  match goal with H : when (not_matching _ (get "to" e)) _ = [] |- _ => apply when_err_nil, not_matching_false in H as (t & Ht & Hin) end. by exists t.
Qed.

(** A step the runtime moves to is a step of the spec, joined by an edge of that kind. *)
Lemma selected_edge (spec : value) (from t k : string) (out : value) (r : Z) :
  vr_valid (validateWorkflowSpec spec) = true -> selectEdge spec from out r = RouteTo false t k ->
  In t (step_ids spec) /\ ((k =s "loop") = false -> normal_edge spec from t).
Proof.
  intros Hv Hs. pose proof (valid_phases spec Hv) as ph.
  assert (exists e, In e (outgoing_edges spec from) /\ route_of e = RouteTo false t k) as (e & He & Hr).
  { unfold selectEdge in Hs. destruct (matched_conditional _ _ _) as [|e [|]] eqn:Em; [|exists e|done].
    - destruct (fallback_edges _) as [|e [|]] eqn:Ef; [done|exists e|done]. split; [|done].
      assert (In e (fallback_edges (outgoing_edges spec from))) as Hi by (rewrite Ef; by left). apply List.filter_In in Hi. apply Hi.
    - split; [|done]. assert (In e (matched_conditional (outgoing_edges spec from) out r)) as Hi by (rewrite Em; by left). apply List.filter_In in Hi. apply Hi. }
  apply List.filter_In in He as [He Hf]. injection Hr as Ht <- <-.
  pose proof (ph_edges _ ph) as H. unfold validateEdges in H. destruct (isArr (get "edges" spec)); cbn in H; [|done].
  destruct (fold_indexed _ _ _ _) as [[iss seen] g] eqn:Eg. injection H as -> _.
  apply edges_targets in Eg as [_ Hall]; [|done]. rewrite List.Forall_forall in Hall. destruct (Hall e He) as (t & Et & Hin).
  rewrite Et in *. cbn [str_of] in *. rewrite Ht in Hin. cbn in Hin. apply str_in_spec in Hin.
  rewrite (proj1 (phases_tables spec ph)) in Hin. split; [done|]. intros Hk. exists e. split; [done|]. split.
  - split; [|done]. destruct (get "from" e); try done. cbn in Hf. by apply String.eqb_eq in Hf as ->.
  - unfold is_loop_edge. by destruct (get "kind" e).
Qed.

(** ** References are guaranteed *)

(** The prompt of a step, and the step outputs it refers to. *)
Definition prompt_refs (step : value) : list TemplateRef := tp_refs (parseTemplateReferences (str_of (get "prompt_template" step))).

Lemma fold_indexed_templates (f : Z -> value -> issues) (l : list value) (i : Z) (acc : issues) :
  fold_indexed (fun i x acc => acc ++ f i x) i l acc = [] -> acc = [] /\ forall x, In x l -> exists j, f j x = [].
Proof.
  revert i acc. induction l as [|a l IH]; intros i acc H; cbn in H; [by split|].
  apply IH in H as [H1 H2]. apply app_eq_nil in H1 as [H1 H3]. split; [done|].
  intros x [->|Hx]; eauto.
Qed.

(** The checks [checkPromptRef] made of a reference to a step's output. *)
Lemma phases_step_ref (spec : value) (ph : Phases spec) (step : value) (cur d field raw : string) :
  In step (elems (get "steps" spec)) -> isObj step = true -> get "id" step = VStr cur -> cur <> "" -> In cur (ph_reach _ ph) ->
  In (RStepOutput d field raw) (prompt_refs step) -> isStr (get "prompt_template" step) = true ->
  d <> cur /\ In d (dom_get (ph_doms _ ph) cur) /\ In d (step_ids spec).
Proof.
  intros Hin Ho Hid Hne Hr Href Hstr.
  pose proof (ph_templates _ ph) as Ht. apply fold_indexed_templates in Ht as [_ Ht]. destruct (Ht step Hin) as [j Hj].
  unfold step_template_issues in Hj. rewrite Ho in Hj. cbn in Hj. rewrite Hid in Hj.
  unfold prompt_refs in Href. destruct (get "prompt_template" step); try done. cbn in Href.
  apply app_eq_nil in Hj as [Hj _]. apply app_eq_nil in Hj as [_ Hj].
  pose proof (flat_map_nil _ _ Hj _ Href) as Hc. cbn in Hc.
  destruct (d ∈b st_ids (ph_st _ ph)) eqn:Ed; [|done]. cbn in Hc. apply app_eq_nil in Hc as [_ Hc].
  rewrite (proj2 (String.eqb_neq _ _) Hne), (proj2 (str_in_spec _ _) Hr) in Hc. cbn in Hc.
  destruct (d =s cur) eqn:Ec; [done|]. apply when_err_nil, negb_false_iff in Hc. apply String.eqb_neq in Ec.
  split; [done|]. split.
  - unfold dom_get. destruct (map_get cur (ph_doms spec ph)); [by apply str_in_spec|done].
  - unfold step_ids. rewrite <- (proj1 (phases_tables spec ph)). by apply str_in_spec.
Qed.

(** Step identifiers are non-empty. *)
Lemma step_ids_safe (spec : value) (s : string) : In s (step_ids spec) -> SAFE_ID_RE s = true.
Proof.
  unfold step_ids, spec_tables, validateSteps. destruct (_ || _)%bool; [done|].
  set (roles := snd (validateAgents _)). clearbody roles. set (sc := spec_schemas spec). clearbody sc.
  assert (forall l i acc, (forall s, In s (st_ids (snd acc)) -> SAFE_ID_RE s = true) ->
    In s (st_ids (snd (fold_indexed (validate_step roles sc) i l acc))) -> SAFE_ID_RE s = true) as H;
    [|apply H; done].
  induction l as [|x l IH]; intros i [iss st] Hacc; cbn [fold_indexed]; [apply Hacc|]. apply IH.
  intros t. unfold validate_step. destruct (isObj x); cbn; [|apply Hacc].
  destruct (not_matching SAFE_ID_RE (get "id" x)) eqn:E; [apply Hacc|]. apply not_matching_false in E as (y & Hy & Hs).
  rewrite Hy, set_add_In. cbn. intros [->|Ht]; [done|by apply Hacc].
Qed.

Lemma path_target (spec : value) (entry cur : string) (l : list string) :
  In entry (step_ids spec) -> path (normal_edge spec) entry cur l -> In cur (step_ids spec).
Proof. intros He [[_ <-]|(v & l' & _ & _ & (e & _ & (_ & _ & Hi) & _))]%path_unsnoc; done. Qed.

(** The entry of a valid spec is one of its steps. *)
Lemma entry_is_step (spec : value) : vr_valid (validateWorkflowSpec spec) = true -> In (str_of (get "entry_step" spec)) (step_ids spec).
Proof.
  intros Hv. pose proof (valid_phases spec Hv) as ph. destruct (ph_entry_in _ ph) as [He Hei].
  rewrite (proj1 (phases_tables spec ph)) in Hei. by rewrite He.
Qed.

(** C5. A prompt of a valid spec only refers to outputs of steps that come before it: if
    the prompt of step [cur] mentions [steps.d.output.*], then [d] is another step and
    every path of normal edges from the entry to [cur] visits [d] first. *)
Theorem valid_spec_refs_guaranteed (spec step : value) (entry cur d field raw : string) (l : list string) :
  vr_valid (validateWorkflowSpec spec) = true -> In step (elems (get "steps" spec)) -> get "id" step = VStr cur ->
  In (RStepOutput d field raw) (prompt_refs step) ->
  get "entry_step" spec = VStr entry -> path (normal_edge spec) entry cur l -> d <> cur /\ In d l.
Proof.
  intros Hv Hin Hid Href He Hp. pose proof (valid_phases spec Hv) as ph.
  destruct (ph_entry_in _ ph) as [He' Hei]. assert (entry = ph_entry _ ph) as -> by congruence.
  rewrite (proj1 (phases_tables spec ph)) in Hei. change (In (ph_entry _ ph) (step_ids spec)) in Hei.
  destruct (phases_graph spec ph) as (Hr & _ & Hreach & Hdoms). rewrite <- Hreach in Hr, Hdoms.
  pose proof (path_target _ _ _ _ Hei Hp) as Hcur.
  destruct (phases_step_ref spec ph step cur d field raw) as (Hne & Hd & Hds); auto.
  - by destruct step.
  - intros ->. by apply step_ids_safe in Hcur.
  - unfold prompt_refs in Href. by destruct (get "prompt_template" step).
  - split; [done|].
    destruct (reach_loop_spec (S (S (List.length (st_ids (ph_st _ ph))))) (g_allAdj (ph_g _ ph)) [ph_entry _ ph] [ph_entry _ ph]) as [Hnd _];
      [repeat constructor; auto|]. rewrite <- Hreach in Hnd.
    destruct (computeDominators_fixpoint (ph_entry _ ph) (ph_reach _ ph) (g_normalAdj (ph_g _ ph)) Hnd (Hr _ Hei)) as [Hinv Hst].
    rewrite <- Hdoms in Hinv, Hst.
    assert (In d (l ++ [cur])) as Hdl.
    { apply (dominators_sound (ph_entry _ ph) (ph_reach _ ph) (g_normalAdj (ph_g _ ph)) (ph_doms _ ph)); auto.
      - intros x Hx. by apply Hr, (normal_path_steps spec ph _ _ _ Hp).
      - eapply path_mono; [|exact Hp]. intros x y. apply phases_adj. }
    apply in_app_iff in Hdl as [Hdl|[Hdl|[]]]; [done|by destruct Hne].
Qed.

Lemma valid_spec_refs_guaranteed_witness : "plan" <> "implement" /\ In "plan" ["plan"].
Proof.
  apply (valid_spec_refs_guaranteed plannerExecutorLoopExample (nth 1 (elems (get "steps" plannerExecutorLoopExample)) VNull)
           "plan" "implement" "plan" "summary" "{{ steps.plan.output.summary }}");
    [vm_compute; reflexivity | vm_compute; auto | reflexivity | vm_compute; auto | reflexivity |].
  destruct (path_unsnoc _ _ _ _ example_path) as [[H _]|(v & l' & H & Hp & _)]; [done|].
  by destruct (app_inj_tail ["plan"] l' "implement" v H) as [-> ->].
Defined.

(** ** Limits *)

(** The limits of a valid spec are positive integers within the maxima; a spec with a
    loop edge bounds its rounds. *)
Theorem valid_spec_limits (spec : value) (key : string) :
  vr_valid (validateWorkflowSpec spec) = true ->
  In key ["max_tasks"; "max_runtime_seconds"; "max_step_attempts"; "max_failures"] \/ (key = "max_rounds" /\ has_loop_edge spec = true) ->
  exists n, get key (get "limits" spec) = VNum (NInt n) /\ 1 <= n <= LIMIT_MAXIMA key.
Proof.
  intros Hv Hk. pose proof (ph_limits _ (valid_phases spec Hv)) as H. unfold validateLimits in H.
  destruct (isObj (get "limits" spec)); [|done]. cbn [negb] in H. nil_split.
  assert (forall v, isPosInt v = true -> LIMIT_MAXIMA key <? int_of v = false -> exists n, v = VNum (NInt n) /\ 1 <= n <= LIMIT_MAXIMA key) as Hpos.
  { intros v Hi Hm. destruct v as [| | |[z| | |]| | |]; try done. cbn in *. bsimpl. exists z. split; [done|lia]. }
  destruct Hk as [Hk|[-> Hl]].
  - match goal with H : flat_map _ _ = [] |- _ => pose proof (flat_map_nil _ _ H key Hk) as Hi; clear H end. unfold limit_issues in Hi. cbv beta zeta in Hi.
    destruct (is_undef (get key _)); [done|]. destruct (isPosInt (get key _)) eqn:E; [|done]. apply Hpos; [done|]. by apply when_err_nil in Hi.
  - repeat match goal with H : when _ (err "loop_requires_max_rounds" _) = [] |- _ => apply when_err_nil in H end. rewrite Hl in *. cbn in *. bsimpl.
    apply Hpos; [done|]. match goal with H : isPosInt _ = true |- _ => rename H into E end.
    match goal with H : when (negb (is_undef _)) (if _ then _ else _) = [] |- _ => rewrite E in H; apply when_nil in H as [Hu|Hu] end; [|by apply when_err_nil in Hu].
    by destruct (get "max_rounds" (get "limits" spec)).
Qed.

Lemma valid_spec_limits_witness :
  exists n, get "max_rounds" (get "limits" plannerExecutorLoopExample) = VNum (NInt n) /\ 1 <= n <= LIMIT_MAXIMA "max_rounds".
Proof. apply valid_spec_limits; [vm_compute; reflexivity|]. right. split; reflexivity. Defined.
