(* ===== verification/StoreRows.v ===== *)
(** * Rows of the control database (src/control/sqlite-store.ts, migrations.ts)

    One record per table, with a column setter per mutable column: an UPDATE statement is
    a composition of setters.  JSON columns hold their text.  Integer columns used as
    booleans are [bool]; nullable columns are [option].  Event tables are the lists of
    their rows in insertion order, the other tables maps from their primary key. *)

From S2P Require Import Prelude.

(** One row of the table tasks. *)
Record TaskRow : Type := {
  t_task_id : string;
  t_revision : Z;
  t_node_id : option string;
  t_agent : string;
  t_workspace_key : option string;
  t_permission_mode : option string;
  t_status : string;
  t_remote_run_id : option string;
  t_input_text : option string;
  t_metadata_json : option string;
  t_created_at : string;
  t_updated_at : string;
  t_terminal_at : option string;
  t_last_event_sequence : Z;
  t_earliest_retained_sequence : Z;
  t_terminal_event_recorded : bool;
  t_error_code : option string;
  t_error_message : option string;
  t_history_incomplete : bool;
  t_history_reason : option string;
  t_history_boundary_sequence : option Z;
  t_last_remote_event_sequence : option Z;
  t_idempotency_key : option string;
  t_request_fingerprint : option string;
  t_result_status : option string;
}.

Definition set_t_revision (v : Z) (r : TaskRow) : TaskRow :=
  {| t_task_id := t_task_id r; t_revision := v; t_node_id := t_node_id r; t_agent := t_agent r; t_workspace_key := t_workspace_key r;
     t_permission_mode := t_permission_mode r; t_status := t_status r; t_remote_run_id := t_remote_run_id r; t_input_text := t_input_text r;
     t_metadata_json := t_metadata_json r; t_created_at := t_created_at r; t_updated_at := t_updated_at r; t_terminal_at := t_terminal_at r;
     t_last_event_sequence := t_last_event_sequence r; t_earliest_retained_sequence := t_earliest_retained_sequence r;
     t_terminal_event_recorded := t_terminal_event_recorded r; t_error_code := t_error_code r; t_error_message := t_error_message r;
     t_history_incomplete := t_history_incomplete r; t_history_reason := t_history_reason r;
     t_history_boundary_sequence := t_history_boundary_sequence r; t_last_remote_event_sequence := t_last_remote_event_sequence r;
     t_idempotency_key := t_idempotency_key r; t_request_fingerprint := t_request_fingerprint r; t_result_status := t_result_status r |}.
Definition set_t_workspace_key (v : option string) (r : TaskRow) : TaskRow :=
  {| t_task_id := t_task_id r; t_revision := t_revision r; t_node_id := t_node_id r; t_agent := t_agent r; t_workspace_key := v;
     t_permission_mode := t_permission_mode r; t_status := t_status r; t_remote_run_id := t_remote_run_id r; t_input_text := t_input_text r;
     t_metadata_json := t_metadata_json r; t_created_at := t_created_at r; t_updated_at := t_updated_at r; t_terminal_at := t_terminal_at r;
     t_last_event_sequence := t_last_event_sequence r; t_earliest_retained_sequence := t_earliest_retained_sequence r;
     t_terminal_event_recorded := t_terminal_event_recorded r; t_error_code := t_error_code r; t_error_message := t_error_message r;
     t_history_incomplete := t_history_incomplete r; t_history_reason := t_history_reason r;
     t_history_boundary_sequence := t_history_boundary_sequence r; t_last_remote_event_sequence := t_last_remote_event_sequence r;
     t_idempotency_key := t_idempotency_key r; t_request_fingerprint := t_request_fingerprint r; t_result_status := t_result_status r |}.
Definition set_t_permission_mode (v : option string) (r : TaskRow) : TaskRow :=
  {| t_task_id := t_task_id r; t_revision := t_revision r; t_node_id := t_node_id r; t_agent := t_agent r; t_workspace_key := t_workspace_key r;
     t_permission_mode := v; t_status := t_status r; t_remote_run_id := t_remote_run_id r; t_input_text := t_input_text r;
     t_metadata_json := t_metadata_json r; t_created_at := t_created_at r; t_updated_at := t_updated_at r; t_terminal_at := t_terminal_at r;
     t_last_event_sequence := t_last_event_sequence r; t_earliest_retained_sequence := t_earliest_retained_sequence r;
     t_terminal_event_recorded := t_terminal_event_recorded r; t_error_code := t_error_code r; t_error_message := t_error_message r;
     t_history_incomplete := t_history_incomplete r; t_history_reason := t_history_reason r;
     t_history_boundary_sequence := t_history_boundary_sequence r; t_last_remote_event_sequence := t_last_remote_event_sequence r;
     t_idempotency_key := t_idempotency_key r; t_request_fingerprint := t_request_fingerprint r; t_result_status := t_result_status r |}.
Definition set_t_status (v : string) (r : TaskRow) : TaskRow :=
  {| t_task_id := t_task_id r; t_revision := t_revision r; t_node_id := t_node_id r; t_agent := t_agent r; t_workspace_key := t_workspace_key r;
     t_permission_mode := t_permission_mode r; t_status := v; t_remote_run_id := t_remote_run_id r; t_input_text := t_input_text r;
     t_metadata_json := t_metadata_json r; t_created_at := t_created_at r; t_updated_at := t_updated_at r; t_terminal_at := t_terminal_at r;
     t_last_event_sequence := t_last_event_sequence r; t_earliest_retained_sequence := t_earliest_retained_sequence r;
     t_terminal_event_recorded := t_terminal_event_recorded r; t_error_code := t_error_code r; t_error_message := t_error_message r;
     t_history_incomplete := t_history_incomplete r; t_history_reason := t_history_reason r;
     t_history_boundary_sequence := t_history_boundary_sequence r; t_last_remote_event_sequence := t_last_remote_event_sequence r;
     t_idempotency_key := t_idempotency_key r; t_request_fingerprint := t_request_fingerprint r; t_result_status := t_result_status r |}.
Definition set_t_remote_run_id (v : option string) (r : TaskRow) : TaskRow :=
  {| t_task_id := t_task_id r; t_revision := t_revision r; t_node_id := t_node_id r; t_agent := t_agent r; t_workspace_key := t_workspace_key r;
     t_permission_mode := t_permission_mode r; t_status := t_status r; t_remote_run_id := v; t_input_text := t_input_text r;
     t_metadata_json := t_metadata_json r; t_created_at := t_created_at r; t_updated_at := t_updated_at r; t_terminal_at := t_terminal_at r;
     t_last_event_sequence := t_last_event_sequence r; t_earliest_retained_sequence := t_earliest_retained_sequence r;
     t_terminal_event_recorded := t_terminal_event_recorded r; t_error_code := t_error_code r; t_error_message := t_error_message r;
     t_history_incomplete := t_history_incomplete r; t_history_reason := t_history_reason r;
     t_history_boundary_sequence := t_history_boundary_sequence r; t_last_remote_event_sequence := t_last_remote_event_sequence r;
     t_idempotency_key := t_idempotency_key r; t_request_fingerprint := t_request_fingerprint r; t_result_status := t_result_status r |}.
Definition set_t_metadata_json (v : option string) (r : TaskRow) : TaskRow :=
  {| t_task_id := t_task_id r; t_revision := t_revision r; t_node_id := t_node_id r; t_agent := t_agent r; t_workspace_key := t_workspace_key r;
     t_permission_mode := t_permission_mode r; t_status := t_status r; t_remote_run_id := t_remote_run_id r; t_input_text := t_input_text r;
     t_metadata_json := v; t_created_at := t_created_at r; t_updated_at := t_updated_at r; t_terminal_at := t_terminal_at r;
     t_last_event_sequence := t_last_event_sequence r; t_earliest_retained_sequence := t_earliest_retained_sequence r;
     t_terminal_event_recorded := t_terminal_event_recorded r; t_error_code := t_error_code r; t_error_message := t_error_message r;
     t_history_incomplete := t_history_incomplete r; t_history_reason := t_history_reason r;
     t_history_boundary_sequence := t_history_boundary_sequence r; t_last_remote_event_sequence := t_last_remote_event_sequence r;
     t_idempotency_key := t_idempotency_key r; t_request_fingerprint := t_request_fingerprint r; t_result_status := t_result_status r |}.
Definition set_t_updated_at (v : string) (r : TaskRow) : TaskRow :=
  {| t_task_id := t_task_id r; t_revision := t_revision r; t_node_id := t_node_id r; t_agent := t_agent r; t_workspace_key := t_workspace_key r;
     t_permission_mode := t_permission_mode r; t_status := t_status r; t_remote_run_id := t_remote_run_id r; t_input_text := t_input_text r;
     t_metadata_json := t_metadata_json r; t_created_at := t_created_at r; t_updated_at := v; t_terminal_at := t_terminal_at r;
     t_last_event_sequence := t_last_event_sequence r; t_earliest_retained_sequence := t_earliest_retained_sequence r;
     t_terminal_event_recorded := t_terminal_event_recorded r; t_error_code := t_error_code r; t_error_message := t_error_message r;
     t_history_incomplete := t_history_incomplete r; t_history_reason := t_history_reason r;
     t_history_boundary_sequence := t_history_boundary_sequence r; t_last_remote_event_sequence := t_last_remote_event_sequence r;
     t_idempotency_key := t_idempotency_key r; t_request_fingerprint := t_request_fingerprint r; t_result_status := t_result_status r |}.
Definition set_t_terminal_at (v : option string) (r : TaskRow) : TaskRow :=
  {| t_task_id := t_task_id r; t_revision := t_revision r; t_node_id := t_node_id r; t_agent := t_agent r; t_workspace_key := t_workspace_key r;
     t_permission_mode := t_permission_mode r; t_status := t_status r; t_remote_run_id := t_remote_run_id r; t_input_text := t_input_text r;
     t_metadata_json := t_metadata_json r; t_created_at := t_created_at r; t_updated_at := t_updated_at r; t_terminal_at := v;
     t_last_event_sequence := t_last_event_sequence r; t_earliest_retained_sequence := t_earliest_retained_sequence r;
     t_terminal_event_recorded := t_terminal_event_recorded r; t_error_code := t_error_code r; t_error_message := t_error_message r;
     t_history_incomplete := t_history_incomplete r; t_history_reason := t_history_reason r;
     t_history_boundary_sequence := t_history_boundary_sequence r; t_last_remote_event_sequence := t_last_remote_event_sequence r;
     t_idempotency_key := t_idempotency_key r; t_request_fingerprint := t_request_fingerprint r; t_result_status := t_result_status r |}.
Definition set_t_last_event_sequence (v : Z) (r : TaskRow) : TaskRow :=
  {| t_task_id := t_task_id r; t_revision := t_revision r; t_node_id := t_node_id r; t_agent := t_agent r; t_workspace_key := t_workspace_key r;
     t_permission_mode := t_permission_mode r; t_status := t_status r; t_remote_run_id := t_remote_run_id r; t_input_text := t_input_text r;
     t_metadata_json := t_metadata_json r; t_created_at := t_created_at r; t_updated_at := t_updated_at r; t_terminal_at := t_terminal_at r;
     t_last_event_sequence := v; t_earliest_retained_sequence := t_earliest_retained_sequence r;
     t_terminal_event_recorded := t_terminal_event_recorded r; t_error_code := t_error_code r; t_error_message := t_error_message r;
     t_history_incomplete := t_history_incomplete r; t_history_reason := t_history_reason r;
     t_history_boundary_sequence := t_history_boundary_sequence r; t_last_remote_event_sequence := t_last_remote_event_sequence r;
     t_idempotency_key := t_idempotency_key r; t_request_fingerprint := t_request_fingerprint r; t_result_status := t_result_status r |}.
Definition set_t_earliest_retained_sequence (v : Z) (r : TaskRow) : TaskRow :=
  {| t_task_id := t_task_id r; t_revision := t_revision r; t_node_id := t_node_id r; t_agent := t_agent r; t_workspace_key := t_workspace_key r;
     t_permission_mode := t_permission_mode r; t_status := t_status r; t_remote_run_id := t_remote_run_id r; t_input_text := t_input_text r;
     t_metadata_json := t_metadata_json r; t_created_at := t_created_at r; t_updated_at := t_updated_at r; t_terminal_at := t_terminal_at r;
     t_last_event_sequence := t_last_event_sequence r; t_earliest_retained_sequence := v; t_terminal_event_recorded := t_terminal_event_recorded r;
     t_error_code := t_error_code r; t_error_message := t_error_message r; t_history_incomplete := t_history_incomplete r;
     t_history_reason := t_history_reason r; t_history_boundary_sequence := t_history_boundary_sequence r;
     t_last_remote_event_sequence := t_last_remote_event_sequence r; t_idempotency_key := t_idempotency_key r;
     t_request_fingerprint := t_request_fingerprint r; t_result_status := t_result_status r |}.
Definition set_t_terminal_event_recorded (v : bool) (r : TaskRow) : TaskRow :=
  {| t_task_id := t_task_id r; t_revision := t_revision r; t_node_id := t_node_id r; t_agent := t_agent r; t_workspace_key := t_workspace_key r;
     t_permission_mode := t_permission_mode r; t_status := t_status r; t_remote_run_id := t_remote_run_id r; t_input_text := t_input_text r;
     t_metadata_json := t_metadata_json r; t_created_at := t_created_at r; t_updated_at := t_updated_at r; t_terminal_at := t_terminal_at r;
     t_last_event_sequence := t_last_event_sequence r; t_earliest_retained_sequence := t_earliest_retained_sequence r; t_terminal_event_recorded := v;
     t_error_code := t_error_code r; t_error_message := t_error_message r; t_history_incomplete := t_history_incomplete r;
     t_history_reason := t_history_reason r; t_history_boundary_sequence := t_history_boundary_sequence r;
     t_last_remote_event_sequence := t_last_remote_event_sequence r; t_idempotency_key := t_idempotency_key r;
     t_request_fingerprint := t_request_fingerprint r; t_result_status := t_result_status r |}.
Definition set_t_error_code (v : option string) (r : TaskRow) : TaskRow :=
  {| t_task_id := t_task_id r; t_revision := t_revision r; t_node_id := t_node_id r; t_agent := t_agent r; t_workspace_key := t_workspace_key r;
     t_permission_mode := t_permission_mode r; t_status := t_status r; t_remote_run_id := t_remote_run_id r; t_input_text := t_input_text r;
     t_metadata_json := t_metadata_json r; t_created_at := t_created_at r; t_updated_at := t_updated_at r; t_terminal_at := t_terminal_at r;
     t_last_event_sequence := t_last_event_sequence r; t_earliest_retained_sequence := t_earliest_retained_sequence r;
     t_terminal_event_recorded := t_terminal_event_recorded r; t_error_code := v; t_error_message := t_error_message r;
     t_history_incomplete := t_history_incomplete r; t_history_reason := t_history_reason r;
     t_history_boundary_sequence := t_history_boundary_sequence r; t_last_remote_event_sequence := t_last_remote_event_sequence r;
     t_idempotency_key := t_idempotency_key r; t_request_fingerprint := t_request_fingerprint r; t_result_status := t_result_status r |}.
Definition set_t_error_message (v : option string) (r : TaskRow) : TaskRow :=
  {| t_task_id := t_task_id r; t_revision := t_revision r; t_node_id := t_node_id r; t_agent := t_agent r; t_workspace_key := t_workspace_key r;
     t_permission_mode := t_permission_mode r; t_status := t_status r; t_remote_run_id := t_remote_run_id r; t_input_text := t_input_text r;
     t_metadata_json := t_metadata_json r; t_created_at := t_created_at r; t_updated_at := t_updated_at r; t_terminal_at := t_terminal_at r;
     t_last_event_sequence := t_last_event_sequence r; t_earliest_retained_sequence := t_earliest_retained_sequence r;
     t_terminal_event_recorded := t_terminal_event_recorded r; t_error_code := t_error_code r; t_error_message := v;
     t_history_incomplete := t_history_incomplete r; t_history_reason := t_history_reason r;
     t_history_boundary_sequence := t_history_boundary_sequence r; t_last_remote_event_sequence := t_last_remote_event_sequence r;
     t_idempotency_key := t_idempotency_key r; t_request_fingerprint := t_request_fingerprint r; t_result_status := t_result_status r |}.
Definition set_t_history_incomplete (v : bool) (r : TaskRow) : TaskRow :=
  {| t_task_id := t_task_id r; t_revision := t_revision r; t_node_id := t_node_id r; t_agent := t_agent r; t_workspace_key := t_workspace_key r;
     t_permission_mode := t_permission_mode r; t_status := t_status r; t_remote_run_id := t_remote_run_id r; t_input_text := t_input_text r;
     t_metadata_json := t_metadata_json r; t_created_at := t_created_at r; t_updated_at := t_updated_at r; t_terminal_at := t_terminal_at r;
     t_last_event_sequence := t_last_event_sequence r; t_earliest_retained_sequence := t_earliest_retained_sequence r;
     t_terminal_event_recorded := t_terminal_event_recorded r; t_error_code := t_error_code r; t_error_message := t_error_message r;
     t_history_incomplete := v; t_history_reason := t_history_reason r; t_history_boundary_sequence := t_history_boundary_sequence r;
     t_last_remote_event_sequence := t_last_remote_event_sequence r; t_idempotency_key := t_idempotency_key r;
     t_request_fingerprint := t_request_fingerprint r; t_result_status := t_result_status r |}.
Definition set_t_history_reason (v : option string) (r : TaskRow) : TaskRow :=
  {| t_task_id := t_task_id r; t_revision := t_revision r; t_node_id := t_node_id r; t_agent := t_agent r; t_workspace_key := t_workspace_key r;
     t_permission_mode := t_permission_mode r; t_status := t_status r; t_remote_run_id := t_remote_run_id r; t_input_text := t_input_text r;
     t_metadata_json := t_metadata_json r; t_created_at := t_created_at r; t_updated_at := t_updated_at r; t_terminal_at := t_terminal_at r;
     t_last_event_sequence := t_last_event_sequence r; t_earliest_retained_sequence := t_earliest_retained_sequence r;
     t_terminal_event_recorded := t_terminal_event_recorded r; t_error_code := t_error_code r; t_error_message := t_error_message r;
     t_history_incomplete := t_history_incomplete r; t_history_reason := v; t_history_boundary_sequence := t_history_boundary_sequence r;
     t_last_remote_event_sequence := t_last_remote_event_sequence r; t_idempotency_key := t_idempotency_key r;
     t_request_fingerprint := t_request_fingerprint r; t_result_status := t_result_status r |}.
Definition set_t_history_boundary_sequence (v : option Z) (r : TaskRow) : TaskRow :=
  {| t_task_id := t_task_id r; t_revision := t_revision r; t_node_id := t_node_id r; t_agent := t_agent r; t_workspace_key := t_workspace_key r;
     t_permission_mode := t_permission_mode r; t_status := t_status r; t_remote_run_id := t_remote_run_id r; t_input_text := t_input_text r;
     t_metadata_json := t_metadata_json r; t_created_at := t_created_at r; t_updated_at := t_updated_at r; t_terminal_at := t_terminal_at r;
     t_last_event_sequence := t_last_event_sequence r; t_earliest_retained_sequence := t_earliest_retained_sequence r;
     t_terminal_event_recorded := t_terminal_event_recorded r; t_error_code := t_error_code r; t_error_message := t_error_message r;
     t_history_incomplete := t_history_incomplete r; t_history_reason := t_history_reason r; t_history_boundary_sequence := v;
     t_last_remote_event_sequence := t_last_remote_event_sequence r; t_idempotency_key := t_idempotency_key r;
     t_request_fingerprint := t_request_fingerprint r; t_result_status := t_result_status r |}.
Definition set_t_last_remote_event_sequence (v : option Z) (r : TaskRow) : TaskRow :=
  {| t_task_id := t_task_id r; t_revision := t_revision r; t_node_id := t_node_id r; t_agent := t_agent r; t_workspace_key := t_workspace_key r;
     t_permission_mode := t_permission_mode r; t_status := t_status r; t_remote_run_id := t_remote_run_id r; t_input_text := t_input_text r;
     t_metadata_json := t_metadata_json r; t_created_at := t_created_at r; t_updated_at := t_updated_at r; t_terminal_at := t_terminal_at r;
     t_last_event_sequence := t_last_event_sequence r; t_earliest_retained_sequence := t_earliest_retained_sequence r;
     t_terminal_event_recorded := t_terminal_event_recorded r; t_error_code := t_error_code r; t_error_message := t_error_message r;
     t_history_incomplete := t_history_incomplete r; t_history_reason := t_history_reason r;
     t_history_boundary_sequence := t_history_boundary_sequence r; t_last_remote_event_sequence := v; t_idempotency_key := t_idempotency_key r;
     t_request_fingerprint := t_request_fingerprint r; t_result_status := t_result_status r |}.
Definition set_t_result_status (v : option string) (r : TaskRow) : TaskRow :=
  {| t_task_id := t_task_id r; t_revision := t_revision r; t_node_id := t_node_id r; t_agent := t_agent r; t_workspace_key := t_workspace_key r;
     t_permission_mode := t_permission_mode r; t_status := t_status r; t_remote_run_id := t_remote_run_id r; t_input_text := t_input_text r;
     t_metadata_json := t_metadata_json r; t_created_at := t_created_at r; t_updated_at := t_updated_at r; t_terminal_at := t_terminal_at r;
     t_last_event_sequence := t_last_event_sequence r; t_earliest_retained_sequence := t_earliest_retained_sequence r;
     t_terminal_event_recorded := t_terminal_event_recorded r; t_error_code := t_error_code r; t_error_message := t_error_message r;
     t_history_incomplete := t_history_incomplete r; t_history_reason := t_history_reason r;
     t_history_boundary_sequence := t_history_boundary_sequence r; t_last_remote_event_sequence := t_last_remote_event_sequence r;
     t_idempotency_key := t_idempotency_key r; t_request_fingerprint := t_request_fingerprint r; t_result_status := v |}.

(** One row of task_results. *)
Record TaskResultRow : Type := {
  tr_task_id : string;
  tr_schema_version : string;
  tr_result_status : string;
  tr_final_output_text : option string;
  tr_process_exit_code : option Z;
  tr_finalized_at : option string;
  tr_content_hash : option string;
  tr_evidence_refs_json : string;
  tr_artifact_refs_json : string;
  tr_verification_json : option string;
  tr_created_at : string;
}.

(** One row of task_events. *)
Record TaskEventRow : Type := {
  te_task_id : string;
  te_sequence : Z;
  te_event_type : string;
  te_ts : string;
  te_payload_json : string;
  te_created_at : string;
  te_source_sequence : option Z;
}.

(** One row of workflows. *)
Record WorkflowRow : Type := {
  w_workflow_id : string;
  w_revision : Z;
  w_spec_version : string;
  w_workflow_name : string;
  w_spec_json : string;
  w_status : string;
  w_current_step_id : option string;
  w_current_round : Z;
  w_total_tasks : Z;
  w_total_failures : Z;
  w_started_at : option string;
  w_created_at : string;
  w_updated_at : string;
  w_terminal_at : option string;
  w_last_event_sequence : Z;
  w_context_revision : Z;
  w_context_json : option string;
  w_earliest_retained_sequence : Z;
  w_input_values_json : option string;
  w_cancel_requested : bool;
}.

Definition set_w_revision (v : Z) (r : WorkflowRow) : WorkflowRow :=
  {| w_workflow_id := w_workflow_id r; w_revision := v; w_spec_version := w_spec_version r; w_workflow_name := w_workflow_name r;
     w_spec_json := w_spec_json r; w_status := w_status r; w_current_step_id := w_current_step_id r; w_current_round := w_current_round r;
     w_total_tasks := w_total_tasks r; w_total_failures := w_total_failures r; w_started_at := w_started_at r; w_created_at := w_created_at r;
     w_updated_at := w_updated_at r; w_terminal_at := w_terminal_at r; w_last_event_sequence := w_last_event_sequence r;
     w_context_revision := w_context_revision r; w_context_json := w_context_json r; w_earliest_retained_sequence := w_earliest_retained_sequence r;
     w_input_values_json := w_input_values_json r; w_cancel_requested := w_cancel_requested r |}.
Definition set_w_status (v : string) (r : WorkflowRow) : WorkflowRow :=
  {| w_workflow_id := w_workflow_id r; w_revision := w_revision r; w_spec_version := w_spec_version r; w_workflow_name := w_workflow_name r;
     w_spec_json := w_spec_json r; w_status := v; w_current_step_id := w_current_step_id r; w_current_round := w_current_round r;
     w_total_tasks := w_total_tasks r; w_total_failures := w_total_failures r; w_started_at := w_started_at r; w_created_at := w_created_at r;
     w_updated_at := w_updated_at r; w_terminal_at := w_terminal_at r; w_last_event_sequence := w_last_event_sequence r;
     w_context_revision := w_context_revision r; w_context_json := w_context_json r; w_earliest_retained_sequence := w_earliest_retained_sequence r;
     w_input_values_json := w_input_values_json r; w_cancel_requested := w_cancel_requested r |}.
Definition set_w_current_step_id (v : option string) (r : WorkflowRow) : WorkflowRow :=
  {| w_workflow_id := w_workflow_id r; w_revision := w_revision r; w_spec_version := w_spec_version r; w_workflow_name := w_workflow_name r;
     w_spec_json := w_spec_json r; w_status := w_status r; w_current_step_id := v; w_current_round := w_current_round r;
     w_total_tasks := w_total_tasks r; w_total_failures := w_total_failures r; w_started_at := w_started_at r; w_created_at := w_created_at r;
     w_updated_at := w_updated_at r; w_terminal_at := w_terminal_at r; w_last_event_sequence := w_last_event_sequence r;
     w_context_revision := w_context_revision r; w_context_json := w_context_json r; w_earliest_retained_sequence := w_earliest_retained_sequence r;
     w_input_values_json := w_input_values_json r; w_cancel_requested := w_cancel_requested r |}.
Definition set_w_current_round (v : Z) (r : WorkflowRow) : WorkflowRow :=
  {| w_workflow_id := w_workflow_id r; w_revision := w_revision r; w_spec_version := w_spec_version r; w_workflow_name := w_workflow_name r;
     w_spec_json := w_spec_json r; w_status := w_status r; w_current_step_id := w_current_step_id r; w_current_round := v;
     w_total_tasks := w_total_tasks r; w_total_failures := w_total_failures r; w_started_at := w_started_at r; w_created_at := w_created_at r;
     w_updated_at := w_updated_at r; w_terminal_at := w_terminal_at r; w_last_event_sequence := w_last_event_sequence r;
     w_context_revision := w_context_revision r; w_context_json := w_context_json r; w_earliest_retained_sequence := w_earliest_retained_sequence r;
     w_input_values_json := w_input_values_json r; w_cancel_requested := w_cancel_requested r |}.
Definition set_w_total_tasks (v : Z) (r : WorkflowRow) : WorkflowRow :=
  {| w_workflow_id := w_workflow_id r; w_revision := w_revision r; w_spec_version := w_spec_version r; w_workflow_name := w_workflow_name r;
     w_spec_json := w_spec_json r; w_status := w_status r; w_current_step_id := w_current_step_id r; w_current_round := w_current_round r;
     w_total_tasks := v; w_total_failures := w_total_failures r; w_started_at := w_started_at r; w_created_at := w_created_at r;
     w_updated_at := w_updated_at r; w_terminal_at := w_terminal_at r; w_last_event_sequence := w_last_event_sequence r;
     w_context_revision := w_context_revision r; w_context_json := w_context_json r; w_earliest_retained_sequence := w_earliest_retained_sequence r;
     w_input_values_json := w_input_values_json r; w_cancel_requested := w_cancel_requested r |}.
Definition set_w_total_failures (v : Z) (r : WorkflowRow) : WorkflowRow :=
  {| w_workflow_id := w_workflow_id r; w_revision := w_revision r; w_spec_version := w_spec_version r; w_workflow_name := w_workflow_name r;
     w_spec_json := w_spec_json r; w_status := w_status r; w_current_step_id := w_current_step_id r; w_current_round := w_current_round r;
     w_total_tasks := w_total_tasks r; w_total_failures := v; w_started_at := w_started_at r; w_created_at := w_created_at r;
     w_updated_at := w_updated_at r; w_terminal_at := w_terminal_at r; w_last_event_sequence := w_last_event_sequence r;
     w_context_revision := w_context_revision r; w_context_json := w_context_json r; w_earliest_retained_sequence := w_earliest_retained_sequence r;
     w_input_values_json := w_input_values_json r; w_cancel_requested := w_cancel_requested r |}.
Definition set_w_started_at (v : option string) (r : WorkflowRow) : WorkflowRow :=
  {| w_workflow_id := w_workflow_id r; w_revision := w_revision r; w_spec_version := w_spec_version r; w_workflow_name := w_workflow_name r;
     w_spec_json := w_spec_json r; w_status := w_status r; w_current_step_id := w_current_step_id r; w_current_round := w_current_round r;
     w_total_tasks := w_total_tasks r; w_total_failures := w_total_failures r; w_started_at := v; w_created_at := w_created_at r;
     w_updated_at := w_updated_at r; w_terminal_at := w_terminal_at r; w_last_event_sequence := w_last_event_sequence r;
     w_context_revision := w_context_revision r; w_context_json := w_context_json r; w_earliest_retained_sequence := w_earliest_retained_sequence r;
     w_input_values_json := w_input_values_json r; w_cancel_requested := w_cancel_requested r |}.
Definition set_w_updated_at (v : string) (r : WorkflowRow) : WorkflowRow :=
  {| w_workflow_id := w_workflow_id r; w_revision := w_revision r; w_spec_version := w_spec_version r; w_workflow_name := w_workflow_name r;
     w_spec_json := w_spec_json r; w_status := w_status r; w_current_step_id := w_current_step_id r; w_current_round := w_current_round r;
     w_total_tasks := w_total_tasks r; w_total_failures := w_total_failures r; w_started_at := w_started_at r; w_created_at := w_created_at r;
     w_updated_at := v; w_terminal_at := w_terminal_at r; w_last_event_sequence := w_last_event_sequence r;
     w_context_revision := w_context_revision r; w_context_json := w_context_json r; w_earliest_retained_sequence := w_earliest_retained_sequence r;
     w_input_values_json := w_input_values_json r; w_cancel_requested := w_cancel_requested r |}.
Definition set_w_terminal_at (v : option string) (r : WorkflowRow) : WorkflowRow :=
  {| w_workflow_id := w_workflow_id r; w_revision := w_revision r; w_spec_version := w_spec_version r; w_workflow_name := w_workflow_name r;
     w_spec_json := w_spec_json r; w_status := w_status r; w_current_step_id := w_current_step_id r; w_current_round := w_current_round r;
     w_total_tasks := w_total_tasks r; w_total_failures := w_total_failures r; w_started_at := w_started_at r; w_created_at := w_created_at r;
     w_updated_at := w_updated_at r; w_terminal_at := v; w_last_event_sequence := w_last_event_sequence r; w_context_revision := w_context_revision r;
     w_context_json := w_context_json r; w_earliest_retained_sequence := w_earliest_retained_sequence r; w_input_values_json := w_input_values_json r;
     w_cancel_requested := w_cancel_requested r |}.
Definition set_w_last_event_sequence (v : Z) (r : WorkflowRow) : WorkflowRow :=
  {| w_workflow_id := w_workflow_id r; w_revision := w_revision r; w_spec_version := w_spec_version r; w_workflow_name := w_workflow_name r;
     w_spec_json := w_spec_json r; w_status := w_status r; w_current_step_id := w_current_step_id r; w_current_round := w_current_round r;
     w_total_tasks := w_total_tasks r; w_total_failures := w_total_failures r; w_started_at := w_started_at r; w_created_at := w_created_at r;
     w_updated_at := w_updated_at r; w_terminal_at := w_terminal_at r; w_last_event_sequence := v; w_context_revision := w_context_revision r;
     w_context_json := w_context_json r; w_earliest_retained_sequence := w_earliest_retained_sequence r; w_input_values_json := w_input_values_json r;
     w_cancel_requested := w_cancel_requested r |}.
Definition set_w_context_revision (v : Z) (r : WorkflowRow) : WorkflowRow :=
  {| w_workflow_id := w_workflow_id r; w_revision := w_revision r; w_spec_version := w_spec_version r; w_workflow_name := w_workflow_name r;
     w_spec_json := w_spec_json r; w_status := w_status r; w_current_step_id := w_current_step_id r; w_current_round := w_current_round r;
     w_total_tasks := w_total_tasks r; w_total_failures := w_total_failures r; w_started_at := w_started_at r; w_created_at := w_created_at r;
     w_updated_at := w_updated_at r; w_terminal_at := w_terminal_at r; w_last_event_sequence := w_last_event_sequence r; w_context_revision := v;
     w_context_json := w_context_json r; w_earliest_retained_sequence := w_earliest_retained_sequence r; w_input_values_json := w_input_values_json r;
     w_cancel_requested := w_cancel_requested r |}.
Definition set_w_context_json (v : option string) (r : WorkflowRow) : WorkflowRow :=
  {| w_workflow_id := w_workflow_id r; w_revision := w_revision r; w_spec_version := w_spec_version r; w_workflow_name := w_workflow_name r;
     w_spec_json := w_spec_json r; w_status := w_status r; w_current_step_id := w_current_step_id r; w_current_round := w_current_round r;
     w_total_tasks := w_total_tasks r; w_total_failures := w_total_failures r; w_started_at := w_started_at r; w_created_at := w_created_at r;
     w_updated_at := w_updated_at r; w_terminal_at := w_terminal_at r; w_last_event_sequence := w_last_event_sequence r;
     w_context_revision := w_context_revision r; w_context_json := v; w_earliest_retained_sequence := w_earliest_retained_sequence r;
     w_input_values_json := w_input_values_json r; w_cancel_requested := w_cancel_requested r |}.
Definition set_w_earliest_retained_sequence (v : Z) (r : WorkflowRow) : WorkflowRow :=
  {| w_workflow_id := w_workflow_id r; w_revision := w_revision r; w_spec_version := w_spec_version r; w_workflow_name := w_workflow_name r;
     w_spec_json := w_spec_json r; w_status := w_status r; w_current_step_id := w_current_step_id r; w_current_round := w_current_round r;
     w_total_tasks := w_total_tasks r; w_total_failures := w_total_failures r; w_started_at := w_started_at r; w_created_at := w_created_at r;
     w_updated_at := w_updated_at r; w_terminal_at := w_terminal_at r; w_last_event_sequence := w_last_event_sequence r;
     w_context_revision := w_context_revision r; w_context_json := w_context_json r; w_earliest_retained_sequence := v;
     w_input_values_json := w_input_values_json r; w_cancel_requested := w_cancel_requested r |}.
Definition set_w_cancel_requested (v : bool) (r : WorkflowRow) : WorkflowRow :=
  {| w_workflow_id := w_workflow_id r; w_revision := w_revision r; w_spec_version := w_spec_version r; w_workflow_name := w_workflow_name r;
     w_spec_json := w_spec_json r; w_status := w_status r; w_current_step_id := w_current_step_id r; w_current_round := w_current_round r;
     w_total_tasks := w_total_tasks r; w_total_failures := w_total_failures r; w_started_at := w_started_at r; w_created_at := w_created_at r;
     w_updated_at := w_updated_at r; w_terminal_at := w_terminal_at r; w_last_event_sequence := w_last_event_sequence r;
     w_context_revision := w_context_revision r; w_context_json := w_context_json r; w_earliest_retained_sequence := w_earliest_retained_sequence r;
     w_input_values_json := w_input_values_json r; w_cancel_requested := v |}.

(** One row of workflow_step_executions. *)
Record StepRow : Type := {
  s_step_execution_id : string;
  s_workflow_id : string;
  s_step_id : string;
  s_round : Z;
  s_attempt : Z;
  s_task_id : option string;
  s_revision : Z;
  s_status : string;
  s_output_json : option string;
  s_error_json : option string;
  s_created_at : string;
  s_started_at : option string;
  s_updated_at : string;
  s_terminal_at : option string;
  s_revision_before_json : option string;
  s_revision_after_json : option string;
  s_result_awaited_since : option string;
}.

Definition set_s_task_id (v : option string) (r : StepRow) : StepRow :=
  {| s_step_execution_id := s_step_execution_id r; s_workflow_id := s_workflow_id r; s_step_id := s_step_id r; s_round := s_round r;
     s_attempt := s_attempt r; s_task_id := v; s_revision := s_revision r; s_status := s_status r; s_output_json := s_output_json r;
     s_error_json := s_error_json r; s_created_at := s_created_at r; s_started_at := s_started_at r; s_updated_at := s_updated_at r;
     s_terminal_at := s_terminal_at r; s_revision_before_json := s_revision_before_json r; s_revision_after_json := s_revision_after_json r;
     s_result_awaited_since := s_result_awaited_since r |}.
Definition set_s_revision (v : Z) (r : StepRow) : StepRow :=
  {| s_step_execution_id := s_step_execution_id r; s_workflow_id := s_workflow_id r; s_step_id := s_step_id r; s_round := s_round r;
     s_attempt := s_attempt r; s_task_id := s_task_id r; s_revision := v; s_status := s_status r; s_output_json := s_output_json r;
     s_error_json := s_error_json r; s_created_at := s_created_at r; s_started_at := s_started_at r; s_updated_at := s_updated_at r;
     s_terminal_at := s_terminal_at r; s_revision_before_json := s_revision_before_json r; s_revision_after_json := s_revision_after_json r;
     s_result_awaited_since := s_result_awaited_since r |}.
Definition set_s_status (v : string) (r : StepRow) : StepRow :=
  {| s_step_execution_id := s_step_execution_id r; s_workflow_id := s_workflow_id r; s_step_id := s_step_id r; s_round := s_round r;
     s_attempt := s_attempt r; s_task_id := s_task_id r; s_revision := s_revision r; s_status := v; s_output_json := s_output_json r;
     s_error_json := s_error_json r; s_created_at := s_created_at r; s_started_at := s_started_at r; s_updated_at := s_updated_at r;
     s_terminal_at := s_terminal_at r; s_revision_before_json := s_revision_before_json r; s_revision_after_json := s_revision_after_json r;
     s_result_awaited_since := s_result_awaited_since r |}.
Definition set_s_output_json (v : option string) (r : StepRow) : StepRow :=
  {| s_step_execution_id := s_step_execution_id r; s_workflow_id := s_workflow_id r; s_step_id := s_step_id r; s_round := s_round r;
     s_attempt := s_attempt r; s_task_id := s_task_id r; s_revision := s_revision r; s_status := s_status r; s_output_json := v;
     s_error_json := s_error_json r; s_created_at := s_created_at r; s_started_at := s_started_at r; s_updated_at := s_updated_at r;
     s_terminal_at := s_terminal_at r; s_revision_before_json := s_revision_before_json r; s_revision_after_json := s_revision_after_json r;
     s_result_awaited_since := s_result_awaited_since r |}.
Definition set_s_error_json (v : option string) (r : StepRow) : StepRow :=
  {| s_step_execution_id := s_step_execution_id r; s_workflow_id := s_workflow_id r; s_step_id := s_step_id r; s_round := s_round r;
     s_attempt := s_attempt r; s_task_id := s_task_id r; s_revision := s_revision r; s_status := s_status r; s_output_json := s_output_json r;
     s_error_json := v; s_created_at := s_created_at r; s_started_at := s_started_at r; s_updated_at := s_updated_at r;
     s_terminal_at := s_terminal_at r; s_revision_before_json := s_revision_before_json r; s_revision_after_json := s_revision_after_json r;
     s_result_awaited_since := s_result_awaited_since r |}.
Definition set_s_started_at (v : option string) (r : StepRow) : StepRow :=
  {| s_step_execution_id := s_step_execution_id r; s_workflow_id := s_workflow_id r; s_step_id := s_step_id r; s_round := s_round r;
     s_attempt := s_attempt r; s_task_id := s_task_id r; s_revision := s_revision r; s_status := s_status r; s_output_json := s_output_json r;
     s_error_json := s_error_json r; s_created_at := s_created_at r; s_started_at := v; s_updated_at := s_updated_at r;
     s_terminal_at := s_terminal_at r; s_revision_before_json := s_revision_before_json r; s_revision_after_json := s_revision_after_json r;
     s_result_awaited_since := s_result_awaited_since r |}.
Definition set_s_updated_at (v : string) (r : StepRow) : StepRow :=
  {| s_step_execution_id := s_step_execution_id r; s_workflow_id := s_workflow_id r; s_step_id := s_step_id r; s_round := s_round r;
     s_attempt := s_attempt r; s_task_id := s_task_id r; s_revision := s_revision r; s_status := s_status r; s_output_json := s_output_json r;
     s_error_json := s_error_json r; s_created_at := s_created_at r; s_started_at := s_started_at r; s_updated_at := v;
     s_terminal_at := s_terminal_at r; s_revision_before_json := s_revision_before_json r; s_revision_after_json := s_revision_after_json r;
     s_result_awaited_since := s_result_awaited_since r |}.
Definition set_s_terminal_at (v : option string) (r : StepRow) : StepRow :=
  {| s_step_execution_id := s_step_execution_id r; s_workflow_id := s_workflow_id r; s_step_id := s_step_id r; s_round := s_round r;
     s_attempt := s_attempt r; s_task_id := s_task_id r; s_revision := s_revision r; s_status := s_status r; s_output_json := s_output_json r;
     s_error_json := s_error_json r; s_created_at := s_created_at r; s_started_at := s_started_at r; s_updated_at := s_updated_at r;
     s_terminal_at := v; s_revision_before_json := s_revision_before_json r; s_revision_after_json := s_revision_after_json r;
     s_result_awaited_since := s_result_awaited_since r |}.
Definition set_s_revision_before_json (v : option string) (r : StepRow) : StepRow :=
  {| s_step_execution_id := s_step_execution_id r; s_workflow_id := s_workflow_id r; s_step_id := s_step_id r; s_round := s_round r;
     s_attempt := s_attempt r; s_task_id := s_task_id r; s_revision := s_revision r; s_status := s_status r; s_output_json := s_output_json r;
     s_error_json := s_error_json r; s_created_at := s_created_at r; s_started_at := s_started_at r; s_updated_at := s_updated_at r;
     s_terminal_at := s_terminal_at r; s_revision_before_json := v; s_revision_after_json := s_revision_after_json r;
     s_result_awaited_since := s_result_awaited_since r |}.
Definition set_s_revision_after_json (v : option string) (r : StepRow) : StepRow :=
  {| s_step_execution_id := s_step_execution_id r; s_workflow_id := s_workflow_id r; s_step_id := s_step_id r; s_round := s_round r;
     s_attempt := s_attempt r; s_task_id := s_task_id r; s_revision := s_revision r; s_status := s_status r; s_output_json := s_output_json r;
     s_error_json := s_error_json r; s_created_at := s_created_at r; s_started_at := s_started_at r; s_updated_at := s_updated_at r;
     s_terminal_at := s_terminal_at r; s_revision_before_json := s_revision_before_json r; s_revision_after_json := v;
     s_result_awaited_since := s_result_awaited_since r |}.
Definition set_s_result_awaited_since (v : option string) (r : StepRow) : StepRow :=
  {| s_step_execution_id := s_step_execution_id r; s_workflow_id := s_workflow_id r; s_step_id := s_step_id r; s_round := s_round r;
     s_attempt := s_attempt r; s_task_id := s_task_id r; s_revision := s_revision r; s_status := s_status r; s_output_json := s_output_json r;
     s_error_json := s_error_json r; s_created_at := s_created_at r; s_started_at := s_started_at r; s_updated_at := s_updated_at r;
     s_terminal_at := s_terminal_at r; s_revision_before_json := s_revision_before_json r; s_revision_after_json := s_revision_after_json r;
     s_result_awaited_since := v |}.

(** One row of workflow_events. *)
Record WorkflowEventRow : Type := {
  we_workflow_id : string;
  we_sequence : Z;
  we_event_type : string;
  we_ts : string;
  we_step_execution_id : option string;
  we_payload_json : string;
  we_created_at : string;
}.

Definition set_we_step_execution_id (v : option string) (r : WorkflowEventRow) : WorkflowEventRow :=
  {| we_workflow_id := we_workflow_id r; we_sequence := we_sequence r; we_event_type := we_event_type r; we_ts := we_ts r; we_step_execution_id := v;
     we_payload_json := we_payload_json r; we_created_at := we_created_at r |}.

(** One row of workflow_workspace_leases. *)
Record WorkspaceLeaseRow : Type := {
  l_workspace_lease_id : string;
  l_workflow_id : string;
  l_node_id : string;
  l_workspace_key : string;
  l_mode : string;
  l_status : string;
  l_revision : Z;
  l_base_revision_json : option string;
  l_current_revision_json : option string;
  l_acquired_at : option string;
  l_release_requested_at : option string;
  l_released_at : option string;
  l_acquire_reason : option string;
  l_created_at : string;
  l_updated_at : string;
}.

Definition set_l_status (v : string) (r : WorkspaceLeaseRow) : WorkspaceLeaseRow :=
  {| l_workspace_lease_id := l_workspace_lease_id r; l_workflow_id := l_workflow_id r; l_node_id := l_node_id r; l_workspace_key := l_workspace_key r;
     l_mode := l_mode r; l_status := v; l_revision := l_revision r; l_base_revision_json := l_base_revision_json r;
     l_current_revision_json := l_current_revision_json r; l_acquired_at := l_acquired_at r; l_release_requested_at := l_release_requested_at r;
     l_released_at := l_released_at r; l_acquire_reason := l_acquire_reason r; l_created_at := l_created_at r; l_updated_at := l_updated_at r |}.
Definition set_l_revision (v : Z) (r : WorkspaceLeaseRow) : WorkspaceLeaseRow :=
  {| l_workspace_lease_id := l_workspace_lease_id r; l_workflow_id := l_workflow_id r; l_node_id := l_node_id r; l_workspace_key := l_workspace_key r;
     l_mode := l_mode r; l_status := l_status r; l_revision := v; l_base_revision_json := l_base_revision_json r;
     l_current_revision_json := l_current_revision_json r; l_acquired_at := l_acquired_at r; l_release_requested_at := l_release_requested_at r;
     l_released_at := l_released_at r; l_acquire_reason := l_acquire_reason r; l_created_at := l_created_at r; l_updated_at := l_updated_at r |}.
Definition set_l_base_revision_json (v : option string) (r : WorkspaceLeaseRow) : WorkspaceLeaseRow :=
  {| l_workspace_lease_id := l_workspace_lease_id r; l_workflow_id := l_workflow_id r; l_node_id := l_node_id r; l_workspace_key := l_workspace_key r;
     l_mode := l_mode r; l_status := l_status r; l_revision := l_revision r; l_base_revision_json := v;
     l_current_revision_json := l_current_revision_json r; l_acquired_at := l_acquired_at r; l_release_requested_at := l_release_requested_at r;
     l_released_at := l_released_at r; l_acquire_reason := l_acquire_reason r; l_created_at := l_created_at r; l_updated_at := l_updated_at r |}.
Definition set_l_current_revision_json (v : option string) (r : WorkspaceLeaseRow) : WorkspaceLeaseRow :=
  {| l_workspace_lease_id := l_workspace_lease_id r; l_workflow_id := l_workflow_id r; l_node_id := l_node_id r; l_workspace_key := l_workspace_key r;
     l_mode := l_mode r; l_status := l_status r; l_revision := l_revision r; l_base_revision_json := l_base_revision_json r;
     l_current_revision_json := v; l_acquired_at := l_acquired_at r; l_release_requested_at := l_release_requested_at r;
     l_released_at := l_released_at r; l_acquire_reason := l_acquire_reason r; l_created_at := l_created_at r; l_updated_at := l_updated_at r |}.
Definition set_l_acquired_at (v : option string) (r : WorkspaceLeaseRow) : WorkspaceLeaseRow :=
  {| l_workspace_lease_id := l_workspace_lease_id r; l_workflow_id := l_workflow_id r; l_node_id := l_node_id r; l_workspace_key := l_workspace_key r;
     l_mode := l_mode r; l_status := l_status r; l_revision := l_revision r; l_base_revision_json := l_base_revision_json r;
     l_current_revision_json := l_current_revision_json r; l_acquired_at := v; l_release_requested_at := l_release_requested_at r;
     l_released_at := l_released_at r; l_acquire_reason := l_acquire_reason r; l_created_at := l_created_at r; l_updated_at := l_updated_at r |}.
Definition set_l_release_requested_at (v : option string) (r : WorkspaceLeaseRow) : WorkspaceLeaseRow :=
  {| l_workspace_lease_id := l_workspace_lease_id r; l_workflow_id := l_workflow_id r; l_node_id := l_node_id r; l_workspace_key := l_workspace_key r;
     l_mode := l_mode r; l_status := l_status r; l_revision := l_revision r; l_base_revision_json := l_base_revision_json r;
     l_current_revision_json := l_current_revision_json r; l_acquired_at := l_acquired_at r; l_release_requested_at := v;
     l_released_at := l_released_at r; l_acquire_reason := l_acquire_reason r; l_created_at := l_created_at r; l_updated_at := l_updated_at r |}.
Definition set_l_released_at (v : option string) (r : WorkspaceLeaseRow) : WorkspaceLeaseRow :=
  {| l_workspace_lease_id := l_workspace_lease_id r; l_workflow_id := l_workflow_id r; l_node_id := l_node_id r; l_workspace_key := l_workspace_key r;
     l_mode := l_mode r; l_status := l_status r; l_revision := l_revision r; l_base_revision_json := l_base_revision_json r;
     l_current_revision_json := l_current_revision_json r; l_acquired_at := l_acquired_at r; l_release_requested_at := l_release_requested_at r;
     l_released_at := v; l_acquire_reason := l_acquire_reason r; l_created_at := l_created_at r; l_updated_at := l_updated_at r |}.
Definition set_l_acquire_reason (v : option string) (r : WorkspaceLeaseRow) : WorkspaceLeaseRow :=
  {| l_workspace_lease_id := l_workspace_lease_id r; l_workflow_id := l_workflow_id r; l_node_id := l_node_id r; l_workspace_key := l_workspace_key r;
     l_mode := l_mode r; l_status := l_status r; l_revision := l_revision r; l_base_revision_json := l_base_revision_json r;
     l_current_revision_json := l_current_revision_json r; l_acquired_at := l_acquired_at r; l_release_requested_at := l_release_requested_at r;
     l_released_at := l_released_at r; l_acquire_reason := v; l_created_at := l_created_at r; l_updated_at := l_updated_at r |}.
Definition set_l_updated_at (v : string) (r : WorkspaceLeaseRow) : WorkspaceLeaseRow :=
  {| l_workspace_lease_id := l_workspace_lease_id r; l_workflow_id := l_workflow_id r; l_node_id := l_node_id r; l_workspace_key := l_workspace_key r;
     l_mode := l_mode r; l_status := l_status r; l_revision := l_revision r; l_base_revision_json := l_base_revision_json r;
     l_current_revision_json := l_current_revision_json r; l_acquired_at := l_acquired_at r; l_release_requested_at := l_release_requested_at r;
     l_released_at := l_released_at r; l_acquire_reason := l_acquire_reason r; l_created_at := l_created_at r; l_updated_at := v |}.

(** One row of workflow_human_requests. *)
Record HumanRequestRow : Type := {
  h_request_id : string;
  h_workflow_id : string;
  h_step_execution_id : string;
  h_kind : string;
  h_prompt : string;
  h_choices_json : option string;
  h_status : string;
  h_response_value : option string;
  h_created_at : string;
  h_responded_at : option string;
  h_updated_at : string;
  h_revision : Z;
}.

Definition set_h_status (v : string) (r : HumanRequestRow) : HumanRequestRow :=
  {| h_request_id := h_request_id r; h_workflow_id := h_workflow_id r; h_step_execution_id := h_step_execution_id r; h_kind := h_kind r;
     h_prompt := h_prompt r; h_choices_json := h_choices_json r; h_status := v; h_response_value := h_response_value r;
     h_created_at := h_created_at r; h_responded_at := h_responded_at r; h_updated_at := h_updated_at r; h_revision := h_revision r |}.
Definition set_h_response_value (v : option string) (r : HumanRequestRow) : HumanRequestRow :=
  {| h_request_id := h_request_id r; h_workflow_id := h_workflow_id r; h_step_execution_id := h_step_execution_id r; h_kind := h_kind r;
     h_prompt := h_prompt r; h_choices_json := h_choices_json r; h_status := h_status r; h_response_value := v; h_created_at := h_created_at r;
     h_responded_at := h_responded_at r; h_updated_at := h_updated_at r; h_revision := h_revision r |}.
Definition set_h_responded_at (v : option string) (r : HumanRequestRow) : HumanRequestRow :=
  {| h_request_id := h_request_id r; h_workflow_id := h_workflow_id r; h_step_execution_id := h_step_execution_id r; h_kind := h_kind r;
     h_prompt := h_prompt r; h_choices_json := h_choices_json r; h_status := h_status r; h_response_value := h_response_value r;
     h_created_at := h_created_at r; h_responded_at := v; h_updated_at := h_updated_at r; h_revision := h_revision r |}.
Definition set_h_updated_at (v : string) (r : HumanRequestRow) : HumanRequestRow :=
  {| h_request_id := h_request_id r; h_workflow_id := h_workflow_id r; h_step_execution_id := h_step_execution_id r; h_kind := h_kind r;
     h_prompt := h_prompt r; h_choices_json := h_choices_json r; h_status := h_status r; h_response_value := h_response_value r;
     h_created_at := h_created_at r; h_responded_at := h_responded_at r; h_updated_at := v; h_revision := h_revision r |}.
Definition set_h_revision (v : Z) (r : HumanRequestRow) : HumanRequestRow :=
  {| h_request_id := h_request_id r; h_workflow_id := h_workflow_id r; h_step_execution_id := h_step_execution_id r; h_kind := h_kind r;
     h_prompt := h_prompt r; h_choices_json := h_choices_json r; h_status := h_status r; h_response_value := h_response_value r;
     h_created_at := h_created_at r; h_responded_at := h_responded_at r; h_updated_at := h_updated_at r; h_revision := v |}.

(** One row of workflow_completion_evidence. *)
Record EvidenceRow : Type := {
  ce_step_execution_id : string;
  ce_workflow_id : string;
  ce_evidence_json : string;
  ce_decision : string;
  ce_created_at : string;
}.

(** One row of workflow_stall_rounds. *)
Record StallRow : Type := {
  sr_workflow_id : string;
  sr_round : Z;
  sr_fingerprint : string;
  sr_signals_json : option string;
  sr_created_at : string;
}.

(** The tables of the control database, and whether the handle was closed. *)
Record DB : Type := {
  db_tasks : gmap string TaskRow;
  db_task_results : gmap string TaskResultRow;
  db_task_events : list TaskEventRow;
  db_workflows : gmap string WorkflowRow;
  db_steps : gmap string StepRow;
  db_workflow_events : list WorkflowEventRow;
  db_leases : gmap string WorkspaceLeaseRow;
  db_human_requests : gmap string HumanRequestRow;
  db_evidence : gmap string EvidenceRow;
  db_stall_rounds : list StallRow;
  db_closed : bool;
}.

Definition set_db_tasks (v : gmap string TaskRow) (r : DB) : DB :=
  {| db_tasks := v; db_task_results := db_task_results r; db_task_events := db_task_events r; db_workflows := db_workflows r; db_steps := db_steps r;
     db_workflow_events := db_workflow_events r; db_leases := db_leases r; db_human_requests := db_human_requests r; db_evidence := db_evidence r;
     db_stall_rounds := db_stall_rounds r; db_closed := db_closed r |}.
Definition set_db_task_results (v : gmap string TaskResultRow) (r : DB) : DB :=
  {| db_tasks := db_tasks r; db_task_results := v; db_task_events := db_task_events r; db_workflows := db_workflows r; db_steps := db_steps r;
     db_workflow_events := db_workflow_events r; db_leases := db_leases r; db_human_requests := db_human_requests r; db_evidence := db_evidence r;
     db_stall_rounds := db_stall_rounds r; db_closed := db_closed r |}.
Definition set_db_task_events (v : list TaskEventRow) (r : DB) : DB :=
  {| db_tasks := db_tasks r; db_task_results := db_task_results r; db_task_events := v; db_workflows := db_workflows r; db_steps := db_steps r;
     db_workflow_events := db_workflow_events r; db_leases := db_leases r; db_human_requests := db_human_requests r; db_evidence := db_evidence r;
     db_stall_rounds := db_stall_rounds r; db_closed := db_closed r |}.
Definition set_db_workflows (v : gmap string WorkflowRow) (r : DB) : DB :=
  {| db_tasks := db_tasks r; db_task_results := db_task_results r; db_task_events := db_task_events r; db_workflows := v; db_steps := db_steps r;
     db_workflow_events := db_workflow_events r; db_leases := db_leases r; db_human_requests := db_human_requests r; db_evidence := db_evidence r;
     db_stall_rounds := db_stall_rounds r; db_closed := db_closed r |}.
Definition set_db_steps (v : gmap string StepRow) (r : DB) : DB :=
  {| db_tasks := db_tasks r; db_task_results := db_task_results r; db_task_events := db_task_events r; db_workflows := db_workflows r; db_steps := v;
     db_workflow_events := db_workflow_events r; db_leases := db_leases r; db_human_requests := db_human_requests r; db_evidence := db_evidence r;
     db_stall_rounds := db_stall_rounds r; db_closed := db_closed r |}.
Definition set_db_workflow_events (v : list WorkflowEventRow) (r : DB) : DB :=
  {| db_tasks := db_tasks r; db_task_results := db_task_results r; db_task_events := db_task_events r; db_workflows := db_workflows r;
     db_steps := db_steps r; db_workflow_events := v; db_leases := db_leases r; db_human_requests := db_human_requests r;
     db_evidence := db_evidence r; db_stall_rounds := db_stall_rounds r; db_closed := db_closed r |}.
Definition set_db_leases (v : gmap string WorkspaceLeaseRow) (r : DB) : DB :=
  {| db_tasks := db_tasks r; db_task_results := db_task_results r; db_task_events := db_task_events r; db_workflows := db_workflows r;
     db_steps := db_steps r; db_workflow_events := db_workflow_events r; db_leases := v; db_human_requests := db_human_requests r;
     db_evidence := db_evidence r; db_stall_rounds := db_stall_rounds r; db_closed := db_closed r |}.
Definition set_db_human_requests (v : gmap string HumanRequestRow) (r : DB) : DB :=
  {| db_tasks := db_tasks r; db_task_results := db_task_results r; db_task_events := db_task_events r; db_workflows := db_workflows r;
     db_steps := db_steps r; db_workflow_events := db_workflow_events r; db_leases := db_leases r; db_human_requests := v;
     db_evidence := db_evidence r; db_stall_rounds := db_stall_rounds r; db_closed := db_closed r |}.
Definition set_db_evidence (v : gmap string EvidenceRow) (r : DB) : DB :=
  {| db_tasks := db_tasks r; db_task_results := db_task_results r; db_task_events := db_task_events r; db_workflows := db_workflows r;
     db_steps := db_steps r; db_workflow_events := db_workflow_events r; db_leases := db_leases r; db_human_requests := db_human_requests r;
     db_evidence := v; db_stall_rounds := db_stall_rounds r; db_closed := db_closed r |}.
Definition set_db_stall_rounds (v : list StallRow) (r : DB) : DB :=
  {| db_tasks := db_tasks r; db_task_results := db_task_results r; db_task_events := db_task_events r; db_workflows := db_workflows r;
     db_steps := db_steps r; db_workflow_events := db_workflow_events r; db_leases := db_leases r; db_human_requests := db_human_requests r;
     db_evidence := db_evidence r; db_stall_rounds := v; db_closed := db_closed r |}.
Definition set_db_closed (v : bool) (r : DB) : DB :=
  {| db_tasks := db_tasks r; db_task_results := db_task_results r; db_task_events := db_task_events r; db_workflows := db_workflows r;
     db_steps := db_steps r; db_workflow_events := db_workflow_events r; db_leases := db_leases r; db_human_requests := db_human_requests r;
     db_evidence := db_evidence r; db_stall_rounds := db_stall_rounds r; db_closed := v |}.

Definition empty_db : DB :=
  {| db_tasks := ∅; db_task_results := ∅; db_task_events := []; db_workflows := ∅; db_steps := ∅; db_workflow_events := [];
     db_leases := ∅; db_human_requests := ∅; db_evidence := ∅; db_stall_rounds := []; db_closed := false |}.
