(* ===== verification/Store.v ===== *)
(** * The control store: monad, serialization and internal operations
      (src/control/serialization.ts, records.ts, sqlite-store.ts)

    Operations run in a state-and-error monad over [DB].  [transaction] rolls the
    database back when its body throws, as SQLite does.  Constraint violations of the
    schema (primary keys, unique indexes, foreign keys) are the error
    [sqlite_constraint]; reading a field of [undefined] is [type_error].  One operation
    sees one instant [now] (the value of its [nowIso()] calls). *)

From S2P Require Import Prelude Values Json Contract Verification Outputs StoreRows.

(** ** Errors and the monad *)

Inductive ControlStoreErrorCode : Type :=
  | not_found | revision_conflict | duplicate | event_conflict | event_gap | invalid_record | corruption
  | invalid_transition | too_large | forbidden_field | unsupported_schema | idempotency_conflict | result_conflict
  | builder_revision_conflict | builder_turn_in_progress | closed
  | sqlite_constraint | type_error.

Abbreviation err_code := ControlStoreErrorCode.

Definition M (A : Type) : Type := DB -> result err_code A * DB.

#[global] Instance M_ret : MRet M := fun A a s => (Ok a, s).
#[global] Instance M_bind : MBind M := fun A B k m s =>
  match m s with (Ok a, s') => k a s' | (Err e, s') => (Err e, s') end.

Definition throw {A : Type} (e : err_code) : M A := fun s => (Err e, s).
Definition gets {A : Type} (f : DB -> A) : M A := fun s => (Ok (f s), s).
Definition modify (f : DB -> DB) : M unit := fun s => (Ok tt, f s).
Definition lift {A : Type} (r : result err_code A) : M A := fun s => (r, s).
(** [if (!b) throw e]. *)
Definition check (b : bool) (e : err_code) : M unit := if b then mret tt else throw e.
Definition require {A : Type} (o : option A) (e : err_code) : M A := match o with Some a => mret a | None => throw e end.
Definition unless (b : bool) (m : M unit) : M unit := if b then mret tt else m.

(** [this.db.transaction(() => ...)()]. *)
Definition transaction {A : Type} (m : M A) : M A := fun s =>
  match m s with (Ok a, s') => (Ok a, s') | (Err e, _) => (Err e, s) end.

Definition opened : M unit := s ← gets db_closed; check (negb s) closed.

(** ** Serialization *)

Module SIZE_LIMITS.
Definition input_text : Z := 64 * 1024.
Definition metadata_json : Z := 16 * 1024.
Definition task_event_payload : Z := 64 * 1024.
Definition spec_json : Z := 256 * 1024.
Definition context_json : Z := 128 * 1024.
Definition step_output_json : Z := 64 * 1024.
Definition step_error_json : Z := 16 * 1024.
Definition workflow_event_payload : Z := 64 * 1024.
Definition error_message : Z := 4 * 1024.
Definition result_refs : Z := 256 * 1024.
End SIZE_LIMITS.

Definition encodeJson (v : value) (maxBytes : Z) : result err_code string :=
  match JSON_stringify v with
  | None => Err invalid_record
  | Some text => if maxBytes <? byteLen text then Err too_large else Ok text
  end.

Definition boundString (s : string) (maxBytes : Z) : result err_code string :=
  if maxBytes <? byteLen s then Err too_large else Ok s.

(** [null] columns decode to [null]. *)
Definition decodeJson (text : option string) (maxBytes : Z) (expectObject : bool) : result err_code value :=
  match text with
  | None => Ok VNull
  | Some t =>
      if maxBytes <? byteLen t then Err corruption else
      match JSON_parse t with
      | None => Err corruption
      | Some v => if expectObject && negb (isObj v) then Err corruption else Ok v
      end
  end.

(** [v != null ? encode(v) : null]. *)
Definition encodeOpt (v : value) (maxBytes : Z) : result err_code (option string) :=
  if is_nullish v then Ok None else try! t := encodeJson v maxBytes in Ok (Some t).
Definition boundOpt (s : option string) (maxBytes : Z) : result err_code (option string) :=
  match s with None => Ok None | Some x => try! t := boundString x maxBytes in Ok (Some t) end.

Definition CONTEXT_ALLOWED_KEYS : list string :=
  ["objective"; "current_round"; "latest_planner_decision"; "latest_executor_handoff"; "decisions"; "open_questions";
   "verified_evidence"; "prior_task_ids"; "history_summaries"].
Definition FORBIDDEN_TOKENS : list string :=
  ["token"; "secret"; "password"; "passwd"; "apikey"; "bearer"; "credential"; "privatekey"; "encryptionkey"; "accesskey"; "sessionhistory"; "processid"].
Definition isForbiddenKey (key : string) : bool :=
  let norm := norm_key key in (norm =s "pid") || existsb (fun t => contains t norm) FORBIDDEN_TOKENS.

(** Does [assertNoForbiddenFields] pass? *)
Fixpoint noForbiddenFields (node : value) : bool :=
  match node with
  | VArr l => forallb noForbiddenFields l
  | VObj o => forallb (fun kv => negb (isForbiddenKey (fst kv)) && noForbiddenFields (snd kv)) o
  | _ => true
  end.

Definition assertValidContext (ctx : value) : result err_code unit :=
  if negb (isObj ctx) then Err invalid_record
  else if existsb (fun k => negb (k ∈b CONTEXT_ALLOWED_KEYS)) (obj_keys ctx) then Err forbidden_field
  else if noForbiddenFields ctx then Ok tt else Err forbidden_field.

(** ** Records *)

Definition isSafeId (s : string) : bool :=
  re_ident (fun c => is_alpha c || is_digit c) (fun c => is_alpha c || is_digit c || is_one_of "._:-" c) 127 s.
Definition isTaskEventType (s : string) : bool :=
  re_ident is_lower (fun c => is_lower c || is_digit c || is_one_of "_." c) 63 s.
Definition isWorkflowEventType (s : string) : bool := s ∈b WORKFLOW_EVENT_TYPES.

Definition TASK_TERMINAL_STATUSES : list string := ["completed"; "failed"; "cancelled"].
Definition task_terminal (s : string) : bool := s ∈b TASK_TERMINAL_STATUSES.
Definition wf_terminal (s : string) : bool := s ∈b TERMINAL_WORKFLOW_STATUSES.
Definition step_terminal (s : string) : bool := s ∈b TERMINAL_STEP_STATUSES.

(** Records are rows with their JSON columns decoded. *)
Record TaskRecord : Type := { tk_row : TaskRow; tk_metadata : value }.
Record WorkflowRecord : Type := { wf_row : WorkflowRow; wf_spec : value; wf_input_values : value }.
Record StepExecutionRecord : Type := {
  st_row : StepRow; st_output : value; st_error : value; st_revision_before : value; st_revision_after : value }.

Record CreateTaskInput : Type := {
  ct_task_id : string; ct_node_id : option string; ct_agent : string; ct_workspace_key : option string;
  ct_permission_mode : option string; ct_status : string; ct_remote_run_id : option string; ct_input_text : option string;
  ct_metadata : value; ct_idempotency_key : option string; ct_request_fingerprint : option string }.

(** A patch field is [None] when absent; a nullable field that is present may be [null]. *)
Record TaskPatch : Type := {
  tp_status : option string; tp_remote_run_id : option (option string); tp_workspace_key : option (option string);
  tp_permission_mode : option (option string); tp_metadata : value; tp_terminal_at : option (option string);
  tp_error_code : option (option string); tp_error_message : option (option string) }.

Record TaskEventInput : Type := {
  tei_sequence : Z; tei_event_type : string; tei_ts : string; tei_payload : value; tei_source_sequence : option Z }.

Record CreateWorkflowInput : Type := {
  cw_workflow_id : string; cw_spec_version : string; cw_workflow_name : string; cw_spec : value; cw_status : option string;
  cw_current_step_id : option string; cw_current_round : option Z; cw_input_values : value }.

Record WorkflowPatch : Type := {
  wp_status : option string; wp_current_step_id : option (option string); wp_current_round : option Z; wp_total_tasks : option Z;
  wp_total_failures : option Z; wp_started_at : option (option string); wp_terminal_at : option (option string); wp_cancel_requested : option bool }.
Definition wp_none : WorkflowPatch :=
  {| wp_status := None; wp_current_step_id := None; wp_current_round := None; wp_total_tasks := None; wp_total_failures := None;
     wp_started_at := None; wp_terminal_at := None; wp_cancel_requested := None |}.

Record CreateStepExecutionInput : Type := {
  cs_step_execution_id : string; cs_workflow_id : string; cs_step_id : string; cs_round : Z; cs_attempt : Z;
  cs_task_id : option string; cs_status : option string }.

Record StepExecutionPatch : Type := {
  sp_status : option string; sp_task_id : option (option string); sp_output : value; sp_error : value;
  sp_started_at : option (option string); sp_terminal_at : option (option string) }.
Definition sp_none : StepExecutionPatch :=
  {| sp_status := None; sp_task_id := None; sp_output := VUndef; sp_error := VUndef; sp_started_at := None; sp_terminal_at := None |}.

(** A workflow event without its sequence number. *)
Record WorkflowEventDraft : Type := { wd_event_type : string; wd_ts : string; wd_step_execution_id : option string; wd_payload : value }.

Definition validateCreateTask (i : CreateTaskInput) : M unit :=
  check (isSafeId (ct_task_id i)) invalid_record;;
  check (negb (trim (ct_agent i) =s "")) invalid_record;;
  check (negb (ct_status i =s "")) invalid_record.

Definition validateCreateWorkflow (i : CreateWorkflowInput) : M unit :=
  check (isSafeId (cw_workflow_id i)) invalid_record;;
  check (negb (cw_workflow_name i =s "")) invalid_record;;
  check (negb (cw_spec_version i =s "")) invalid_record.

Definition validateCreateStepExecution (i : CreateStepExecutionInput) : M unit :=
  check (isSafeId (cs_step_execution_id i)) invalid_record;;
  check (isSafeId (cs_workflow_id i)) invalid_record;;
  check (isSafeId (cs_step_id i)) invalid_record;;
  check (1 <=? cs_round i) invalid_record;;
  check (1 <=? cs_attempt i) invalid_record.

(** ** Queries *)

Definition taskRow (id : string) (s : DB) : option TaskRow := db_tasks s !! id.
Definition workflowRow (id : string) (s : DB) : option WorkflowRow := db_workflows s !! id.
Definition stepRow (id : string) (s : DB) : option StepRow := db_steps s !! id.

Definition task_by_key (key : string) (s : DB) : option TaskRow :=
  find_row (fun r => opt_is (t_idempotency_key r) key) (db_tasks s).

Definition same_step_key (wf step : string) (round attempt : Z) (r : StepRow) : bool :=
  (s_workflow_id r =s wf) && (s_step_id r =s step) && (s_round r =? round) && (s_attempt r =? attempt).
Definition stepExecByKey (wf step : string) (round attempt : Z) (s : DB) : option StepRow :=
  find_row (same_step_key wf step round attempt) (db_steps s).

Definition is_task_event (id : string) (r : TaskEventRow) : bool := te_task_id r =s id.
Definition task_events_of (id : string) (s : DB) : list TaskEventRow := List.filter (is_task_event id) (db_task_events s).
Definition task_event_at (id : string) (seq : Z) (s : DB) : option TaskEventRow :=
  List.find (fun r => te_sequence r =? seq) (task_events_of id s).
Definition task_event_from (id : string) (src : Z) (s : DB) : option TaskEventRow :=
  List.find (fun r => match te_source_sequence r with Some x => x =? src | None => false end) (task_events_of id s).

Definition is_wf_event (id : string) (r : WorkflowEventRow) : bool := we_workflow_id r =s id.
Definition workflow_events_of (id : string) (s : DB) : list WorkflowEventRow := List.filter (is_wf_event id) (db_workflow_events s).
Definition workflow_event_at (id : string) (seq : Z) (s : DB) : option WorkflowEventRow :=
  List.find (fun r => we_sequence r =? seq) (workflow_events_of id s).

(** UPDATE of the row with the given primary key (no row: no change). *)
Definition update_task (id : string) (f : TaskRow -> TaskRow) : M unit := modify (fun s => set_db_tasks (alter f id (db_tasks s)) s).
Definition update_workflow (id : string) (f : WorkflowRow -> WorkflowRow) : M unit := modify (fun s => set_db_workflows (alter f id (db_workflows s)) s).
Definition update_step (id : string) (f : StepRow -> StepRow) : M unit := modify (fun s => set_db_steps (alter f id (db_steps s)) s).

(** ** Row to record *)

Definition toTask (r : TaskRow) : M TaskRecord :=
  md ← lift (decodeJson (t_metadata_json r) SIZE_LIMITS.metadata_json true);
  mret {| tk_row := r; tk_metadata := md |}.

Definition toWorkflow (r : WorkflowRow) : M WorkflowRecord :=
  sp ← lift (decodeJson (Some (w_spec_json r)) SIZE_LIMITS.spec_json false);
  iv ← lift (decodeJson (w_input_values_json r) SIZE_LIMITS.metadata_json true);
  mret {| wf_row := r; wf_spec := sp; wf_input_values := iv |}.

Definition decodeRevision (json : option string) : result err_code value :=
  try! v := decodeJson json SIZE_LIMITS.metadata_json true in
  if is_nullish v then Ok VNull else if isValidRevision v then Ok v else Err invalid_record.
Definition encodeRevision (rev : value) : result err_code (option string) :=
  if is_nullish rev then Ok None
  else if isValidRevision rev then try! t := encodeJson rev SIZE_LIMITS.metadata_json in Ok (Some t)
  else Err invalid_record.

Definition toStep (r : StepRow) : M StepExecutionRecord :=
  out ← lift (decodeJson (s_output_json r) SIZE_LIMITS.step_output_json false);
  er ← lift (decodeJson (s_error_json r) SIZE_LIMITS.step_error_json false);
  rb ← lift (decodeRevision (s_revision_before_json r));
  ra ← lift (decodeRevision (s_revision_after_json r));
  mret {| st_row := r; st_output := out; st_error := er; st_revision_before := rb; st_revision_after := ra |}.

(** [this.toTask(this.taskRow(id)!)] and its siblings. *)
Definition taskRecord (id : string) : M TaskRecord := o ← gets (taskRow id); r ← require o type_error; toTask r.
Definition workflowRecord (id : string) : M WorkflowRecord := o ← gets (workflowRow id); r ← require o type_error; toWorkflow r.
Definition stepRecord (id : string) : M StepExecutionRecord := o ← gets (stepRow id); r ← require o type_error; toStep r.

Definition theTask (id : string) : M TaskRow := o ← gets (taskRow id); require o not_found.
Definition theWorkflow (id : string) : M WorkflowRow := o ← gets (workflowRow id); require o not_found.
Definition theStep (id : string) : M StepRow := o ← gets (stepRow id); require o not_found.

(** [patch !== undefined ? patch : cur]. *)
Definition patched {A : Type} (p : option A) (cur : A) : A := match p with Some x => x | None => cur end.
Definition null_payload (v : value) : value := if is_nullish v then VNull else v.
Definition opt_str_eqb (a b : option string) : bool :=
  match a, b with Some x, Some y => x =s y | None, None => true | _, _ => false end.

(** Foreign key of a nullable column to the tasks table. *)
Definition fk_task (t : option string) : M unit :=
  match t with None => mret tt | Some id => o ← gets (taskRow id); check (is_some o) sqlite_constraint end.

Section Now.
Context (now : string).

(** *** Tasks *)

Definition new_task_row (i : CreateTaskInput) (metadata_json input_text request_fingerprint : option string) : TaskRow :=
  {| t_task_id := ct_task_id i; t_revision := 1; t_node_id := ct_node_id i; t_agent := ct_agent i; t_workspace_key := ct_workspace_key i;
     t_permission_mode := ct_permission_mode i; t_status := ct_status i; t_remote_run_id := ct_remote_run_id i; t_input_text := input_text;
     t_metadata_json := metadata_json; t_created_at := now; t_updated_at := now; t_terminal_at := None; t_last_event_sequence := -1;
     t_earliest_retained_sequence := 0; t_terminal_event_recorded := false; t_error_code := None; t_error_message := None;
     t_history_incomplete := false; t_history_reason := None; t_history_boundary_sequence := None; t_last_remote_event_sequence := None;
     t_idempotency_key := ct_idempotency_key i; t_request_fingerprint := request_fingerprint; t_result_status := None |}.

(** INSERT INTO tasks, under the primary key and the unique index on idempotency_key. *)
Definition insert_task (r : TaskRow) : M unit :=
  o ← gets (taskRow (t_task_id r)); check (negb (is_some o)) sqlite_constraint;;
  dup ← gets (fun s => match t_idempotency_key r with Some k => is_some (task_by_key k s) | None => false end);
  check (negb dup) sqlite_constraint;;
  modify (fun s => set_db_tasks (<[t_task_id r := r]> (db_tasks s)) s).

Definition createTaskSync (i : CreateTaskInput) : M TaskRecord :=
  validateCreateTask i;;
  o ← gets (taskRow (ct_task_id i)); check (negb (is_some o)) duplicate;;
  md ← lift (encodeOpt (ct_metadata i) SIZE_LIMITS.metadata_json);
  txt ← lift (boundOpt (ct_input_text i) SIZE_LIMITS.input_text);
  check (match ct_idempotency_key i with Some k => isSafeId k | None => true end) invalid_record;;
  fp ← lift (boundOpt (ct_request_fingerprint i) 256);
  insert_task (new_task_row i md txt fp);;
  taskRecord (ct_task_id i).

Definition updateTaskSync (taskId : string) (expectedRevision : Z) (patch : TaskPatch) : M TaskRecord :=
  cur ← theTask taskId;
  check (t_revision cur =? expectedRevision) revision_conflict;;
  check (negb (match tp_status patch with Some st => task_terminal (t_status cur) && negb (st =s t_status cur) | None => false end)) invalid_transition;;
  check (negb (match tp_terminal_at patch with Some None => is_some (t_terminal_at cur) | _ => false end)) invalid_transition;;
  md ← (if is_undef (tp_metadata patch) then mret (t_metadata_json cur) else lift (encodeOpt (tp_metadata patch) SIZE_LIMITS.metadata_json));
  em ← match tp_error_message patch with None => mret (t_error_message cur) | Some e => lift (boundOpt e SIZE_LIMITS.error_message) end;
  update_task taskId (fun r =>
    set_t_revision (t_revision cur + 1) (set_t_status (patched (tp_status patch) (t_status cur))
    (set_t_remote_run_id (patched (tp_remote_run_id patch) (t_remote_run_id cur)) (set_t_workspace_key (patched (tp_workspace_key patch) (t_workspace_key cur))
    (set_t_permission_mode (patched (tp_permission_mode patch) (t_permission_mode cur)) (set_t_terminal_at (patched (tp_terminal_at patch) (t_terminal_at cur))
    (set_t_error_code (patched (tp_error_code patch) (t_error_code cur)) (set_t_metadata_json md (set_t_error_message em (set_t_updated_at now r))))))))));;
  taskRecord taskId.

(** INSERT INTO task_events, under its primary key and the unique source index. *)
Definition insert_task_event (r : TaskEventRow) : M unit :=
  o ← gets (task_event_at (te_task_id r) (te_sequence r)); check (negb (is_some o)) sqlite_constraint;;
  dup ← gets (fun s => match te_source_sequence r with Some q => is_some (task_event_from (te_task_id r) q s) | None => false end);
  check (negb dup) sqlite_constraint;;
  modify (fun s => set_db_task_events (db_task_events s ++ [r]) s).

Definition appendTaskEventSync (taskId : string) (ev : TaskEventInput) : M unit :=
  check (0 <=? tei_sequence ev) invalid_record;;
  check (isTaskEventType (tei_event_type ev)) invalid_record;;
  check (isIsoUtc (tei_ts ev)) invalid_record;;
  cur ← theTask taskId;
  payload ← lift (encodeJson (null_payload (tei_payload ev)) SIZE_LIMITS.task_event_payload);
  let last := t_last_event_sequence cur in
  if tei_sequence ev <=? last then
    o ← gets (task_event_at taskId (tei_sequence ev));
    e ← require o event_gap;
    check ((te_event_type e =s tei_event_type ev) && (te_ts e =s tei_ts ev) && (te_payload_json e =s payload)) event_conflict
  else
    check (tei_sequence ev =? last + 1) event_gap;;
    insert_task_event {| te_task_id := taskId; te_sequence := tei_sequence ev; te_event_type := tei_event_type ev; te_ts := tei_ts ev;
                         te_payload_json := payload; te_created_at := now; te_source_sequence := tei_source_sequence ev |};;
    update_task taskId (fun r => set_t_last_event_sequence (tei_sequence ev) (set_t_updated_at now r)).

(** *** Workflows *)

Definition new_workflow_row (i : CreateWorkflowInput) (spec_json : string) (input_values_json : option string) : WorkflowRow :=
  {| w_workflow_id := cw_workflow_id i; w_revision := 1; w_spec_version := cw_spec_version i; w_workflow_name := cw_workflow_name i;
     w_spec_json := spec_json; w_status := patched (cw_status i) "draft"; w_current_step_id := cw_current_step_id i;
     w_current_round := patched (cw_current_round i) 1; w_total_tasks := 0; w_total_failures := 0; w_started_at := None; w_created_at := now;
     w_updated_at := now; w_terminal_at := None; w_last_event_sequence := -1; w_context_revision := 0; w_context_json := None;
     w_earliest_retained_sequence := 0; w_input_values_json := input_values_json; w_cancel_requested := false |}.

Definition createWorkflowSync (i : CreateWorkflowInput) : M WorkflowRecord :=
  validateCreateWorkflow i;;
  o ← gets (workflowRow (cw_workflow_id i)); check (negb (is_some o)) duplicate;;
  sp ← lift (encodeJson (cw_spec i) SIZE_LIMITS.spec_json);
  check (is_nullish (cw_input_values i) || noForbiddenFields (cw_input_values i)) forbidden_field;;
  iv ← lift (encodeOpt (cw_input_values i) SIZE_LIMITS.metadata_json);
  modify (fun s => set_db_workflows (<[cw_workflow_id i := new_workflow_row i sp iv]> (db_workflows s)) s);;
  workflowRecord (cw_workflow_id i).

Definition updateWorkflowSync (workflowId : string) (expectedRevision : Z) (patch : WorkflowPatch) : M WorkflowRecord :=
  cur ← theWorkflow workflowId;
  check (w_revision cur =? expectedRevision) revision_conflict;;
  check (negb (match wp_status patch with Some st => wf_terminal (w_status cur) && negb (st =s w_status cur) | None => false end)) invalid_transition;;
  check (negb (match wp_current_round patch with Some r => r <? w_current_round cur | None => false end)) invalid_transition;;
  check (negb (match wp_total_tasks patch with Some n => n <? w_total_tasks cur | None => false end)) invalid_transition;;
  check (negb (match wp_total_failures patch with Some n => n <? w_total_failures cur | None => false end)) invalid_transition;;
  check (negb (match wp_terminal_at patch with Some None => is_some (w_terminal_at cur) | _ => false end)) invalid_transition;;
  update_workflow workflowId (fun r =>
    set_w_revision (w_revision cur + 1) (set_w_status (patched (wp_status patch) (w_status cur))
    (set_w_current_step_id (patched (wp_current_step_id patch) (w_current_step_id cur)) (set_w_current_round (patched (wp_current_round patch) (w_current_round cur))
    (set_w_total_tasks (patched (wp_total_tasks patch) (w_total_tasks cur)) (set_w_total_failures (patched (wp_total_failures patch) (w_total_failures cur))
    (set_w_started_at (patched (wp_started_at patch) (w_started_at cur)) (set_w_terminal_at (patched (wp_terminal_at patch) (w_terminal_at cur))
    (set_w_cancel_requested (opt_bool_is (wp_cancel_requested patch) true || w_cancel_requested cur) (set_w_updated_at now r))))))))));;
  workflowRecord workflowId.

(** *** Step executions *)

Definition new_step_row (i : CreateStepExecutionInput) : StepRow :=
  {| s_step_execution_id := cs_step_execution_id i; s_workflow_id := cs_workflow_id i; s_step_id := cs_step_id i; s_round := cs_round i;
     s_attempt := cs_attempt i; s_task_id := cs_task_id i; s_revision := 1; s_status := patched (cs_status i) "pending"; s_output_json := None;
     s_error_json := None; s_created_at := now; s_started_at := None; s_updated_at := now; s_terminal_at := None; s_revision_before_json := None;
     s_revision_after_json := None; s_result_awaited_since := None |}.

Definition createStepSync (i : CreateStepExecutionInput) : M StepExecutionRecord :=
  validateCreateStepExecution i;;
  theWorkflow (cs_workflow_id i);;
  o ← gets (stepRow (cs_step_execution_id i)); check (negb (is_some o)) duplicate;;
  dup ← gets (stepExecByKey (cs_workflow_id i) (cs_step_id i) (cs_round i) (cs_attempt i)); check (negb (is_some dup)) duplicate;;
  fk_task (cs_task_id i);;
  modify (fun s => set_db_steps (<[cs_step_execution_id i := new_step_row i]> (db_steps s)) s);;
  stepRecord (cs_step_execution_id i).

Definition updateStepSync (id : string) (expectedRevision : Z) (patch : StepExecutionPatch) : M StepExecutionRecord :=
  cur ← theStep id;
  check (s_revision cur =? expectedRevision) revision_conflict;;
  let curTerminal := step_terminal (s_status cur) in
  check (negb (match sp_status patch with Some st => curTerminal && negb (st =s s_status cur) | None => false end)) invalid_transition;;
  check (negb (negb (is_undef (sp_output patch)) && curTerminal)) invalid_transition;;
  check (negb (match sp_task_id patch, s_task_id cur with Some (Some t), Some t' => negb (t' =s t) | _, _ => false end)) invalid_transition;;
  out ← (if is_undef (sp_output patch) then mret (s_output_json cur) else lift (encodeOpt (sp_output patch) SIZE_LIMITS.step_output_json));
  er ← (if is_undef (sp_error patch) then mret (s_error_json cur) else lift (encodeOpt (sp_error patch) SIZE_LIMITS.step_error_json));
  fk_task (patched (sp_task_id patch) (s_task_id cur));;
  update_step id (fun r =>
    set_s_revision (s_revision cur + 1) (set_s_status (patched (sp_status patch) (s_status cur)) (set_s_task_id (patched (sp_task_id patch) (s_task_id cur))
    (set_s_output_json out (set_s_error_json er (set_s_started_at (patched (sp_started_at patch) (s_started_at cur))
    (set_s_terminal_at (patched (sp_terminal_at patch) (s_terminal_at cur)) (set_s_updated_at now r))))))));;
  stepRecord id.

(** *** Workflow events and context *)

(** INSERT INTO workflow_events, under its primary key and the foreign key to steps. *)
Definition insert_workflow_event (r : WorkflowEventRow) : M unit :=
  o ← gets (workflow_event_at (we_workflow_id r) (we_sequence r)); check (negb (is_some o)) sqlite_constraint;;
  fk ← gets (fun s => match we_step_execution_id r with Some x => is_some (stepRow x s) | None => true end); check fk sqlite_constraint;;
  modify (fun s => set_db_workflow_events (db_workflow_events s ++ [r]) s).

(** [!s] for a nullable string: null or empty. *)
Definition falsy (o : option string) : bool := match o with None => true | Some s => s =s "" end.

Definition appendWorkflowEventSync (workflowId : string) (sequence : Z) (ev : WorkflowEventDraft) : M unit :=
  check (0 <=? sequence) invalid_record;;
  check (isWorkflowEventType (wd_event_type ev)) invalid_record;;
  check (isIsoUtc (wd_ts ev)) invalid_record;;
  cur ← theWorkflow workflowId;
  let stepScoped := isStepScopedEvent (wd_event_type ev) in
  let stepRef := wd_step_execution_id ev in
  check (negb (stepScoped && falsy stepRef)) invalid_record;;
  check (negb (negb stepScoped && negb (falsy stepRef))) invalid_record;;
  st ← gets (fun s => match stepRef with Some x => stepRow x s | None => None end);
  check (falsy stepRef || match st with Some r => s_workflow_id r =s workflowId | None => false end) invalid_record;;
  payload ← lift (encodeJson (null_payload (wd_payload ev)) SIZE_LIMITS.workflow_event_payload);
  let last := w_last_event_sequence cur in
  if sequence <=? last then
    o ← gets (workflow_event_at workflowId sequence);
    e ← require o event_gap;
    check ((we_event_type e =s wd_event_type ev) && (we_ts e =s wd_ts ev) && (we_payload_json e =s payload)
           && opt_str_eqb (we_step_execution_id e) stepRef) event_conflict
  else
    check (sequence =? last + 1) event_gap;;
    insert_workflow_event {| we_workflow_id := workflowId; we_sequence := sequence; we_event_type := wd_event_type ev; we_ts := wd_ts ev;
                             we_step_execution_id := stepRef; we_payload_json := payload; we_created_at := now |};;
    update_workflow workflowId (fun r => set_w_last_event_sequence sequence (set_w_updated_at now r)).

Definition appendWorkflowEventAuto (workflowId : string) (draft : WorkflowEventDraft) : M unit :=
  cur ← theWorkflow workflowId;
  appendWorkflowEventSync workflowId (w_last_event_sequence cur + 1) draft.

Definition saveContextSync (workflowId : string) (expectedContextRevision : Z) (context : value) : M Z :=
  cur ← theWorkflow workflowId;
  check (w_context_revision cur =? expectedContextRevision) revision_conflict;;
  lift (assertValidContext context);;
  json ← lift (encodeJson context SIZE_LIMITS.context_json);
  let nextRev := w_context_revision cur + 1 in
  update_workflow workflowId (fun r => set_w_context_json (Some json) (set_w_context_revision nextRev (set_w_updated_at now r)));;
  mret nextRev.
End Now.
