(* ===== verification/StoreOps.v ===== *)
(** * The control store: public operations (src/control/sqlite-store.ts)

    Tasks, task results and source-event ingestion; workflow composites, each one
    transaction; workspace-lease projection; human requests; completion evidence and
    stall rounds; retention. *)

From S2P Require Import Prelude Values Json Contract Verification Outputs StoreRows Store.

(** [try { m } catch (e) { if (isUniqueConstraintError(e)) h; throw e }]. *)
Definition on_constraint {A : Type} (m h : M A) : M A := fun s =>
  match m s with (Err sqlite_constraint, s') => h s' | r => r end.

Section TaskOps.
Context (now : string).

(** ** Tasks *)

Definition createTaskDurable (i : CreateTaskInput) (createdEvent : TaskEventInput) : M TaskRecord :=
  opened;; transaction (createTaskSync now i;; appendTaskEventSync now (ct_task_id i) createdEvent;; taskRecord (ct_task_id i)).

Definition resolveExisting (fp : string) (row : TaskRow) : M (TaskRecord * bool) :=
  check (opt_is (t_request_fingerprint row) fp) idempotency_conflict;;
  r ← toTask row; mret (r, false).

(** [createTaskIdempotently]: the record and whether it was created. *)
Definition createTaskIdempotently (i : CreateTaskInput) (createdEvent : TaskEventInput) : M (TaskRecord * bool) :=
  opened;;
  key ← require (ct_idempotency_key i) invalid_record;
  check (isSafeId key) invalid_record;;
  fp ← require (ct_request_fingerprint i) invalid_record;
  check (negb (fp =s "")) invalid_record;;
  on_constraint
    (transaction (
      existing ← gets (task_by_key key);
      match existing with
      | Some row => resolveExisting fp row
      | None =>
          createTaskSync now i;; appendTaskEventSync now (ct_task_id i) createdEvent;;
          r ← taskRecord (ct_task_id i); mret (r, true)
      end))
    (existing ← gets (task_by_key key);
     match existing with Some row => resolveExisting fp row | None => throw sqlite_constraint end).

Definition appendTaskEventDurable (taskId : string) (ev : TaskEventInput) : M unit := opened;; appendTaskEventSync now taskId ev.
Definition updateTaskDurable (taskId : string) (rev : Z) (patch : TaskPatch) : M TaskRecord := opened;; updateTaskSync now taskId rev patch.

Definition with_terminal_at (patch : TaskPatch) : TaskPatch :=
  {| tp_status := tp_status patch; tp_remote_run_id := tp_remote_run_id patch; tp_workspace_key := tp_workspace_key patch;
     tp_permission_mode := tp_permission_mode patch; tp_metadata := tp_metadata patch;
     tp_terminal_at := Some (match tp_terminal_at patch with Some (Some t) => Some t | _ => Some now end);
     tp_error_code := tp_error_code patch; tp_error_message := tp_error_message patch |}.

Definition terminal_patch (patch : TaskPatch) : bool := match tp_status patch with Some st => task_terminal st | None => false end.

(** Status, terminal event and its marker, as the terminalizing operations do. *)
Definition recordTerminal (taskId : string) (rev : Z) (patch : TaskPatch) (terminalEvent : TaskEventInput) : M unit :=
  check (terminal_patch patch) invalid_transition;;
  updateTaskSync now taskId rev (with_terminal_at patch);;
  appendTaskEventSync now taskId terminalEvent;;
  update_task taskId (set_t_terminal_event_recorded true).

Definition terminalizeTaskDurable (taskId : string) (rev : Z) (patch : TaskPatch) (terminalEvent : TaskEventInput) : M TaskRecord :=
  opened;; transaction (
    cur ← theTask taskId;
    check (negb (t_terminal_event_recorded cur)) invalid_transition;;
    recordTerminal taskId rev patch terminalEvent;;
    taskRecord taskId).

(** ** Task results *)

Definition encodeRefs (l : list value) : result err_code string := encodeJson (VArr l) SIZE_LIMITS.result_refs.
Definition encodeVerification (v : option TaskVerificationV1) : result err_code (option string) :=
  match v with None => Ok None | Some x => try! t := encodeJson (verification_json x) SIZE_LIMITS.result_refs in Ok (Some t) end.

(** [resultRowMatches]; the comparisons run left to right and stop at the first that fails. *)
Definition resultRowMatches (row : TaskResultRow) (resultStatus : string) (res : option AgentTaskResultV1) : result err_code bool :=
  if negb (tr_result_status row =s resultStatus) then Ok false else
  match res with
  | None => Ok (negb (is_some (tr_content_hash row)))
  | Some r =>
      if negb ((tr_schema_version row =s "1") && opt_is (tr_content_hash row) (ar_content_hash r)
               && (patched (tr_final_output_text row) "" =s ar_text r) && opt_z_eqb (tr_process_exit_code row) (ar_process_exit_code r))
      then Ok false else
      try! ev := encodeRefs (ar_evidence_refs r) in
      if negb (tr_evidence_refs_json row =s ev) then Ok false else
      try! af := encodeRefs (ar_artifact_refs r) in
      if negb (tr_artifact_refs_json row =s af) then Ok false else
      try! vj := encodeVerification (ar_verification r) in
      Ok (opt_str_eqb (tr_verification_json row) vj)
  end.

Definition writeResultRow (taskId resultStatus : string) (res : option AgentTaskResultV1) : M unit :=
  txt ← lift (boundOpt (ar_text <$> res) MAX_FINAL_OUTPUT_BYTES);
  ev ← lift (encodeRefs (match res with Some r => ar_evidence_refs r | None => [] end));
  af ← lift (encodeRefs (match res with Some r => ar_artifact_refs r | None => [] end));
  vj ← lift (encodeVerification (r ← res; ar_verification r));
  modify (fun s => set_db_task_results (<[taskId :=
    {| tr_task_id := taskId; tr_schema_version := "1"; tr_result_status := resultStatus; tr_final_output_text := txt;
       tr_process_exit_code := (r ← res; ar_process_exit_code r); tr_finalized_at := ar_finalized_at <$> res;
       tr_content_hash := ar_content_hash <$> res; tr_evidence_refs_json := ev; tr_artifact_refs_json := af; tr_verification_json := vj;
       tr_created_at := now |}]> (db_task_results s)) s);;
  update_task taskId (set_t_result_status (Some resultStatus)).

(** Persist once: [true] when the row was written; a different row is a conflict. *)
Definition persistResult (taskId resultStatus : string) (res : option AgentTaskResultV1) : M bool :=
  existing ← gets (fun s => db_task_results s !! taskId);
  match existing with
  | Some row => same ← lift (resultRowMatches row resultStatus res); check same result_conflict;; mret false
  | None => writeResultRow taskId resultStatus res;; mret true
  end.

Definition persistTaskResultDurable (taskId resultStatus : string) (res : option AgentTaskResultV1) : M bool :=
  opened;; transaction (theTask taskId;; persistResult taskId resultStatus res).

Definition getTaskResultDurable (sha256_hex : string -> string) (taskId : string) : M (option (string * option AgentTaskResultV1)) :=
  opened;;
  o ← gets (fun s => db_task_results s !! taskId);
  match o with
  | None => mret None
  | Some row =>
      if negb (tr_result_status row =s "available") then mret (Some (tr_result_status row, None)) else
      ev ← lift (decodeJson (Some (tr_evidence_refs_json row)) SIZE_LIMITS.result_refs false);
      af ← lift (decodeJson (Some (tr_artifact_refs_json row)) SIZE_LIMITS.result_refs false);
      vf ← lift (decodeJson (tr_verification_json row) SIZE_LIMITS.result_refs false);
      let env := VObj ([("schema_version", VStr (tr_schema_version row));
                        ("final_output", VObj [("kind", VStr "text"); ("text", VStr (patched (tr_final_output_text row) ""))]);
                        ("process_exit_code", match tr_process_exit_code row with Some z => VNum (NInt z) | None => VNull end);
                        ("finalized_at", VStr (patched (tr_finalized_at row) "")); ("content_hash", VStr (patched (tr_content_hash row) ""));
                        ("evidence_refs", if is_nullish ev then VArr [] else ev); ("artifact_refs", if is_nullish af then VArr [] else af)]
                       ++ if is_some (tr_verification_json row) then [("verification", vf)] else []) in
      match validateTaskResult sha256_hex env with
      | Ok r => mret (Some ("available", Some r))
      | Err _ => throw corruption
      end
  end.

Definition terminalizeTaskWithResultDurable (taskId : string) (rev : Z) (patch : TaskPatch) (terminalEvent : TaskEventInput)
    (resultStatus : string) (res : option AgentTaskResultV1) : M TaskRecord :=
  opened;; transaction (
    cur ← theTask taskId;
    persistResult taskId resultStatus res;;
    unless (t_terminal_event_recorded cur) (recordTerminal taskId rev patch terminalEvent);;
    taskRecord taskId).

(** ** Histories and source events *)

Definition markTaskHistoryIncomplete (taskId reason : string) (boundarySequence : Z) : M unit :=
  opened;; r ← theTask taskId;
  unless (t_history_incomplete r) (update_task taskId (fun r =>
    set_t_history_incomplete true (set_t_history_reason (Some reason) (set_t_history_boundary_sequence (Some boundarySequence) r)))).

Definition clearTaskHistoryIncomplete (taskId : string) : M unit :=
  opened;; update_task taskId (fun r => set_t_history_incomplete false (set_t_history_reason None (set_t_history_boundary_sequence None r))).

Definition initReplayCursor (taskId : string) : M unit :=
  opened;; update_task taskId (fun r => match t_last_remote_event_sequence r with None => set_t_last_remote_event_sequence (Some (-1)) r | Some _ => r end).

Record IngestSourceEvent : Type := {
  is_event_type : string; is_ts : string; is_payload : value; is_terminal : bool; is_status : option string;
  is_error_code : option string; is_error_message : option string }.

Definition expected_source (r : TaskRow) : Z := patched (t_last_remote_event_sequence r) (-1) + 1.
Definition coalesce {A : Type} (a b : option A) : option A := match a with Some _ => a | None => b end.

Definition set_cursor (sourceSequence : Z) (r : TaskRow) : TaskRow :=
  set_t_last_remote_event_sequence (Some sourceSequence) (set_t_updated_at now r).

(** The status part of an ingested event. *)
Definition applySourceStatus (taskId : string) (event : IngestSourceEvent) : M unit :=
  o ← gets (taskRow taskId); r ← require o type_error;
  if is_terminal event && negb (t_terminal_event_recorded r) then
    update_task taskId (fun r =>
      set_t_status (patched (is_status event) (t_status r)) (set_t_terminal_at (Some now) (set_t_terminal_event_recorded true
      (set_t_error_code (coalesce (is_error_code event) (t_error_code r)) (set_t_error_message (coalesce (is_error_message event) (t_error_message r)) r)))))
  else match is_status event with
       | Some st => unless (st =s "") (update_task taskId (set_t_status st))
       | None => mret tt
       end.

(** [ingestSourceEventDurable]: the record, whether it was applied, its sequence. *)
Definition ingestSourceEventDurable (taskId : string) (sourceSequence : Z) (event : IngestSourceEvent) : M (TaskRecord * bool * Z) :=
  opened;;
  check (0 <=? sourceSequence) invalid_record;;
  check (isTaskEventType (is_event_type event)) invalid_record;;
  check (isIsoUtc (is_ts event)) invalid_record;;
  transaction (
    cur ← theTask taskId;
    payload ← lift (encodeJson (null_payload (is_payload event)) SIZE_LIMITS.task_event_payload);
    let expected := expected_source cur in
    if sourceSequence <? expected then
      o ← gets (task_event_from taskId sourceSequence);
      e ← require o event_conflict;
      check ((te_event_type e =s is_event_type event) && (te_ts e =s is_ts event) && (te_payload_json e =s payload)) event_conflict;;
      r ← toTask cur; mret (r, false, te_sequence e)
    else
      check (sourceSequence =? expected) event_gap;;
      let gatewaySeq := t_last_event_sequence cur + 1 in
      appendTaskEventSync now taskId {| tei_sequence := gatewaySeq; tei_event_type := is_event_type event; tei_ts := is_ts event;
                                        tei_payload := is_payload event; tei_source_sequence := Some sourceSequence |};;
      update_task taskId (set_cursor sourceSequence);;
      applySourceStatus taskId event;;
      r ← taskRecord taskId; mret (r, true, gatewaySeq)).

(** Every branch that returns reports [applied: false]. *)
Definition advanceSourceCursor (taskId : string) (sourceSequence : Z) : M bool :=
  opened;;
  check (0 <=? sourceSequence) invalid_record;;
  transaction (
    cur ← theTask taskId;
    let expected := expected_source cur in
    if sourceSequence <? expected then mret false else
    check (sourceSequence =? expected) event_gap;;
    update_task taskId (set_cursor sourceSequence);;
    mret false).
End TaskOps.

Section WorkflowOps.
Context (now : string).

Definition wp_status_only (st : string) : WorkflowPatch :=
  {| wp_status := Some st; wp_current_step_id := None; wp_current_round := None; wp_total_tasks := None; wp_total_failures := None;
     wp_started_at := None; wp_terminal_at := None; wp_cancel_requested := None |}.
Definition wp_terminal (st : string) : WorkflowPatch :=
  {| wp_status := Some st; wp_current_step_id := None; wp_current_round := None; wp_total_tasks := None; wp_total_failures := None;
     wp_started_at := None; wp_terminal_at := Some (Some now); wp_cancel_requested := None |}.
Definition wp_started (t : option string) : WorkflowPatch :=
  {| wp_status := Some "running"; wp_current_step_id := None; wp_current_round := None; wp_total_tasks := None; wp_total_failures := None;
     wp_started_at := Some t; wp_terminal_at := None; wp_cancel_requested := None |}.
Definition wp_step (id : string) : WorkflowPatch :=
  {| wp_status := None; wp_current_step_id := Some (Some id); wp_current_round := None; wp_total_tasks := None; wp_total_failures := None;
     wp_started_at := None; wp_terminal_at := None; wp_cancel_requested := None |}.
Definition wp_round (r : Z) : WorkflowPatch :=
  {| wp_status := None; wp_current_step_id := None; wp_current_round := Some r; wp_total_tasks := None; wp_total_failures := None;
     wp_started_at := None; wp_terminal_at := None; wp_cancel_requested := None |}.
Definition wp_tasks (n : Z) : WorkflowPatch :=
  {| wp_status := None; wp_current_step_id := None; wp_current_round := None; wp_total_tasks := Some n; wp_total_failures := None;
     wp_started_at := None; wp_terminal_at := None; wp_cancel_requested := None |}.
Definition wp_failures (n : Z) : WorkflowPatch :=
  {| wp_status := None; wp_current_step_id := None; wp_current_round := None; wp_total_tasks := None; wp_total_failures := Some n;
     wp_started_at := None; wp_terminal_at := None; wp_cancel_requested := None |}.
Definition wp_cancel : WorkflowPatch :=
  {| wp_status := None; wp_current_step_id := None; wp_current_round := None; wp_total_tasks := None; wp_total_failures := None;
     wp_started_at := None; wp_terminal_at := None; wp_cancel_requested := Some true |}.
Definition sp_task (t : string) : StepExecutionPatch :=
  {| sp_status := None; sp_task_id := Some (Some t); sp_output := VUndef; sp_error := VUndef; sp_started_at := None; sp_terminal_at := None |}.
Definition sp_end (st : string) (output error : value) : StepExecutionPatch :=
  {| sp_status := Some st; sp_task_id := None; sp_output := output; sp_error := error; sp_started_at := None; sp_terminal_at := Some (Some now) |}.

(** ** Single operations *)

Definition createWorkflow (i : CreateWorkflowInput) : M WorkflowRecord := opened;; createWorkflowSync now i.
Definition updateWorkflow (id : string) (rev : Z) (p : WorkflowPatch) : M WorkflowRecord := opened;; updateWorkflowSync now id rev p.
Definition createStepExecution (i : CreateStepExecutionInput) : M StepExecutionRecord := opened;; createStepSync now i.
Definition updateStepExecution (id : string) (rev : Z) (p : StepExecutionPatch) : M StepExecutionRecord := opened;; updateStepSync now id rev p.
Definition appendWorkflowEvent (id : string) (sequence : Z) (e : WorkflowEventDraft) : M unit := opened;; appendWorkflowEventSync now id sequence e.
Definition saveWorkflowContext (id : string) (rev : Z) (ctx : value) : M Z := opened;; saveContextSync now id rev ctx.

(** ** Generic composites *)

Definition startWorkflowStep (step : CreateStepExecutionInput) (wfRev : Z) (wfPatch : WorkflowPatch) (sequence : Z) (event : WorkflowEventDraft)
    : M (StepExecutionRecord * WorkflowRecord) :=
  opened;; transaction (
    s ← createStepSync now step;
    updateWorkflowSync now (cs_workflow_id step) wfRev wfPatch;;
    appendWorkflowEventSync now (cs_workflow_id step) sequence event;;
    w ← workflowRecord (cs_workflow_id step); mret (s, w)).

Definition bindStepTask (stepId : string) (stepRev : Z) (taskId workflowId : string) (wfRev : Z) (sequence : Z) (event : WorkflowEventDraft)
    : M (StepExecutionRecord * WorkflowRecord) :=
  opened;; transaction (
    s ← updateStepSync now stepId stepRev (sp_task taskId);
    wf ← theWorkflow workflowId;
    w ← updateWorkflowSync now workflowId wfRev (wp_tasks (w_total_tasks wf + 1));
    appendWorkflowEventSync now workflowId sequence event;;
    mret (s, w)).

Definition saveContextOpt (workflowId : string) (ctxRev : option Z) (context : value) : M unit :=
  match ctxRev with
  | Some rev => unless (is_undef context) (saveContextSync now workflowId rev context;; mret tt)
  | None => mret tt
  end.

Definition checkpointWorkflow (workflowId : string) (wfRev : Z) (patch : WorkflowPatch) (ctxRev : option Z) (context : value)
    (sequence : Z) (event : WorkflowEventDraft) : M WorkflowRecord :=
  opened;; transaction (
    updateWorkflowSync now workflowId wfRev patch;;
    saveContextOpt workflowId ctxRev context;;
    appendWorkflowEventSync now workflowId sequence event;;
    workflowRecord workflowId).

(** ** Runtime composites *)

Definition createWorkflowWithLifecycleEvents (i : CreateWorkflowInput) (context : value) (createdEvent validatedEvent : WorkflowEventDraft) : M WorkflowRecord :=
  opened;; transaction (
    createWorkflowSync now {| cw_workflow_id := cw_workflow_id i; cw_spec_version := cw_spec_version i; cw_workflow_name := cw_workflow_name i;
                              cw_spec := cw_spec i; cw_status := Some "ready"; cw_current_step_id := cw_current_step_id i;
                              cw_current_round := Some (patched (cw_current_round i) 1); cw_input_values := cw_input_values i |};;
    saveContextOpt (cw_workflow_id i) (Some 0) context;;
    appendWorkflowEventAuto now (cw_workflow_id i) createdEvent;;
    appendWorkflowEventAuto now (cw_workflow_id i) validatedEvent;;
    workflowRecord (cw_workflow_id i)).

Definition startWorkflowDurably (workflowId : string) (startedEvent : WorkflowEventDraft) : M (WorkflowRecord * bool) :=
  opened;; transaction (
    cur ← theWorkflow workflowId;
    if w_status cur =s "running" then w ← toWorkflow cur; mret (w, false) else
    check (w_status cur =s "ready") invalid_transition;;
    updateWorkflowSync now workflowId (w_revision cur) (wp_started (coalesce (w_started_at cur) (Some now)));;
    appendWorkflowEventAuto now workflowId startedEvent;;
    w ← workflowRecord workflowId; mret (w, true)).

(** Move the workflow's current-step pointer if it differs. *)
Definition pointAt (wf : WorkflowRow) (workflowId currentStepId : string) : M unit :=
  unless (opt_is (w_current_step_id wf) currentStepId)
    (updateWorkflowSync now workflowId (w_revision wf) (wp_step currentStepId);; mret tt).

Definition ensureStepStarted (step : CreateStepExecutionInput) (currentStepId : string) (startedEvent : WorkflowEventDraft)
    : M (StepExecutionRecord * WorkflowRecord * bool) :=
  opened;; transaction (
    existing ← gets (stepExecByKey (cs_workflow_id step) (cs_step_id step) (cs_round step) (cs_attempt step));
    wf0 ← theWorkflow (cs_workflow_id step);
    match existing with
    | Some e => s ← toStep e; w ← toWorkflow wf0; mret (s, w, false)
    | None =>
        createStepSync now step;;
        pointAt wf0 (cs_workflow_id step) currentStepId;;
        appendWorkflowEventAuto now (cs_workflow_id step) startedEvent;;
        s ← stepRecord (cs_step_execution_id step); w ← workflowRecord (cs_workflow_id step); mret (s, w, true)
    end).

Definition bindStepTaskOnce (stepExecutionId taskId workflowId : string) (event : WorkflowEventDraft) : M (StepExecutionRecord * bool) :=
  opened;; transaction (
    step ← theStep stepExecutionId;
    if opt_is (s_task_id step) taskId then s ← toStep step; mret (s, false) else
    check (negb (is_some (s_task_id step))) invalid_transition;;
    updateStepSync now stepExecutionId (s_revision step) (sp_task taskId);;
    wf ← theWorkflow workflowId;
    updateWorkflowSync now workflowId (w_revision wf) (wp_tasks (w_total_tasks wf + 1));;
    appendWorkflowEventAuto now workflowId event;;
    s ← stepRecord stepExecutionId; mret (s, true)).

Definition completeStepAndCheckpoint (stepExecutionId : string) (output : value) (workflowId : string) (ctxRev : option Z) (context : value)
    (event : WorkflowEventDraft) : M (StepExecutionRecord * bool) :=
  opened;; transaction (
    step ← theStep stepExecutionId;
    if s_status step =s "completed" then s ← toStep step; mret (s, false) else
    updateStepSync now stepExecutionId (s_revision step) (sp_end "completed" output VUndef);;
    saveContextOpt workflowId ctxRev context;;
    appendWorkflowEventAuto now workflowId event;;
    s ← stepRecord stepExecutionId; mret (s, true)).

Definition workflowRow_bang (id : string) : M WorkflowRow := o ← gets (workflowRow id); require o type_error.

Definition advanceWorkflow (workflowId : string) (edgeSelectedEvent : WorkflowEventDraft) (roundAdvancedEvent : option WorkflowEventDraft)
    (nextStep : CreateStepExecutionInput) (currentStepId : string) (stepStartedEvent : WorkflowEventDraft)
    : M (WorkflowRecord * StepExecutionRecord * bool) :=
  opened;; transaction (
    existing ← gets (stepExecByKey (cs_workflow_id nextStep) (cs_step_id nextStep) (cs_round nextStep) (cs_attempt nextStep));
    match existing with
    | Some e => w ← workflowRecord workflowId; s ← toStep e; mret (w, s, false)
    | None =>
        appendWorkflowEventAuto now workflowId edgeSelectedEvent;;
        match roundAdvancedEvent with
        | Some ev =>
            wf ← workflowRow_bang workflowId;
            updateWorkflowSync now workflowId (w_revision wf) (wp_round (cs_round nextStep));;
            appendWorkflowEventAuto now workflowId ev
        | None => mret tt
        end;;
        createStepSync now nextStep;;
        wf2 ← workflowRow_bang workflowId;
        pointAt wf2 workflowId currentStepId;;
        appendWorkflowEventAuto now workflowId stepStartedEvent;;
        w ← workflowRecord workflowId; s ← stepRecord (cs_step_execution_id nextStep); mret (w, s, true)
    end).

Definition appendOpt (workflowId : string) (ev : option WorkflowEventDraft) : M unit :=
  match ev with Some e => appendWorkflowEventAuto now workflowId e | None => mret tt end.

Definition terminalizeWorkflow (workflowId status : string) (edgeSelectedEvent : option WorkflowEventDraft) (terminalEvent : WorkflowEventDraft)
    : M (WorkflowRecord * bool) :=
  opened;; transaction (
    cur ← theWorkflow workflowId;
    if (w_status cur =s status) || wf_terminal (w_status cur) then w ← toWorkflow cur; mret (w, false) else
    appendOpt workflowId edgeSelectedEvent;;
    updateWorkflowSync now workflowId (w_revision cur) (if wf_terminal status then wp_terminal status else wp_status_only status);;
    appendWorkflowEventAuto now workflowId terminalEvent;;
    w ← workflowRecord workflowId; mret (w, true)).

Definition failStepAndWorkflow (stepExecutionId workflowId : string) (stepFailedEvent terminalEvent : WorkflowEventDraft) (stepError : value) : M WorkflowRecord :=
  opened;; transaction (
    step ← theStep stepExecutionId;
    unless ((s_status step =s "failed") || step_terminal (s_status step)) (
      updateStepSync now stepExecutionId (s_revision step) (sp_end "failed" VUndef stepError);;
      wf ← workflowRow_bang workflowId;
      updateWorkflowSync now workflowId (w_revision wf) (wp_failures (w_total_failures wf + 1));;
      appendWorkflowEventAuto now workflowId stepFailedEvent);;
    wf2 ← workflowRow_bang workflowId;
    unless (wf_terminal (w_status wf2)) (
      updateWorkflowSync now workflowId (w_revision wf2) (wp_terminal "failed");;
      appendWorkflowEventAuto now workflowId terminalEvent);;
    workflowRecord workflowId).

Definition recordCancellationIntent (workflowId : string) : M WorkflowRecord :=
  opened;; transaction (
    cur ← theWorkflow workflowId;
    if w_cancel_requested cur || wf_terminal (w_status cur) then toWorkflow cur else
    updateWorkflowSync now workflowId (w_revision cur) wp_cancel;;
    workflowRecord workflowId).

Definition cancelStepAndWorkflow (stepExecutionId : option string) (workflowId : string) (terminalEvent : WorkflowEventDraft) : M (WorkflowRecord * bool) :=
  opened;; transaction (
    cur ← theWorkflow workflowId;
    if wf_terminal (w_status cur) then w ← toWorkflow cur; mret (w, false) else
    st ← gets (fun s => match stepExecutionId with Some id => if id =s "" then None else stepRow id s | None => None end);
    match st with
    | Some step => unless (step_terminal (s_status step))
                     (updateStepSync now (patched stepExecutionId "") (s_revision step) (sp_end "cancelled" VUndef VUndef);; mret tt)
    | None => mret tt
    end;;
    updateWorkflowSync now workflowId (w_revision cur) (wp_terminal "cancelled");;
    appendWorkflowEventAuto now workflowId terminalEvent;;
    w ← workflowRecord workflowId; mret (w, true)).

Definition resumeWorkflowRunning (workflowId : string) (resumedEvent : WorkflowEventDraft) : M (WorkflowRecord * bool) :=
  opened;; transaction (
    cur ← theWorkflow workflowId;
    if w_status cur =s "running" then w ← toWorkflow cur; mret (w, false) else
    check ((w_status cur =s "waiting_input") || (w_status cur =s "waiting_approval")) invalid_transition;;
    updateWorkflowSync now workflowId (w_revision cur) (wp_status_only "running");;
    appendWorkflowEventAuto now workflowId resumedEvent;;
    w ← workflowRecord workflowId; mret (w, true)).

(** ** Per-step marks *)

Definition iso_or_now (ts : string) : string := if isIsoUtc ts then ts else now.

Definition markStepAwaitingResult (id ts : string) : M StepExecutionRecord :=
  opened;; transaction (
    theStep id;;
    update_step id (fun r => set_s_result_awaited_since (coalesce (s_result_awaited_since r) (Some (iso_or_now ts))) (set_s_updated_at now r));;
    stepRecord id).

Definition setStepRevisionBefore (id : string) (rev : value) : M unit :=
  opened;; transaction (
    theStep id;; j ← lift (encodeRevision rev);
    update_step id (fun r => set_s_revision_before_json j (set_s_updated_at now r))).
Definition setStepRevisionAfter (id : string) (rev : value) : M unit :=
  opened;; transaction (
    theStep id;; j ← lift (encodeRevision rev);
    update_step id (fun r => set_s_revision_after_json j (set_s_updated_at now r))).

(** ** Workspace-lease projection *)

Record LeaseRecord : Type := { lr_row : WorkspaceLeaseRow; lr_base_revision : value; lr_current_revision : value }.
Definition leaseRow (id : string) (s : DB) : option WorkspaceLeaseRow := db_leases s !! id.
Definition toLease (r : WorkspaceLeaseRow) : M LeaseRecord :=
  b ← lift (decodeRevision (l_base_revision_json r));
  c ← lift (decodeRevision (l_current_revision_json r));
  mret {| lr_row := r; lr_base_revision := b; lr_current_revision := c |}.
Definition theLease (id : string) : M WorkspaceLeaseRow := o ← gets (leaseRow id); require o not_found.
Definition leaseRecord (id : string) : M LeaseRecord := o ← gets (leaseRow id); r ← require o type_error; toLease r.

(** The partial unique index [idx_wf_ws_lease_active]. *)
Definition lease_live (st : string) : bool := st ∈b ["acquiring"; "active"; "release_requested"].
Definition same_lease_target (a b : WorkspaceLeaseRow) : bool :=
  (l_workflow_id a =s l_workflow_id b) && (l_node_id a =s l_node_id b) && (l_workspace_key a =s l_workspace_key b).
Definition lease_index_ok (r : WorkspaceLeaseRow) (s : DB) : bool :=
  negb (lease_live (l_status r)) ||
  negb (is_some (find_row (fun o => lease_live (l_status o) && same_lease_target o r && negb (l_workspace_lease_id o =s l_workspace_lease_id r)) (db_leases s))).

(** INSERT or UPDATE of a lease row. *)
Definition put_lease (r : WorkspaceLeaseRow) : M unit :=
  ok ← gets (lease_index_ok r); check ok sqlite_constraint;;
  modify (fun s => set_db_leases (<[l_workspace_lease_id r := r]> (db_leases s)) s).

Definition recordWorkspaceLeaseIntent (leaseId workflowId nodeId workspaceKey : string) : M LeaseRecord :=
  opened;; check (isSafeId leaseId) invalid_record;;
  transaction (
    existing ← gets (leaseRow leaseId);
    match existing with
    | Some e => toLease e
    | None =>
        theWorkflow workflowId;;
        nd ← lift (boundString nodeId 256); ws ← lift (boundString workspaceKey 256);
        put_lease {| l_workspace_lease_id := leaseId; l_workflow_id := workflowId; l_node_id := nd; l_workspace_key := ws; l_mode := "exclusive";
                     l_status := "acquiring"; l_revision := 1; l_base_revision_json := None; l_current_revision_json := None; l_acquired_at := None;
                     l_release_requested_at := None; l_released_at := None; l_acquire_reason := None; l_created_at := now; l_updated_at := now |};;
        leaseRecord leaseId
    end).

Definition markWorkspaceLeaseActive (leaseId : string) (baseRevision currentRevision : value) (acquiredAt : string) : M LeaseRecord :=
  opened;; transaction (
    r ← theLease leaseId;
    let reactivating := (l_status r =s "released") || (l_status r =s "release_requested") in
    let acq := iso_or_now acquiredAt in
    baseJson ← match (if reactivating then None else l_base_revision_json r) with
               | Some j => mret (Some j)
               | None => lift (encodeRevision baseRevision)
               end;
    curJson ← lift (encodeRevision (if is_nullish currentRevision then baseRevision else currentRevision));
    put_lease (set_l_status "active" (set_l_base_revision_json baseJson (set_l_current_revision_json curJson
      (set_l_acquired_at (if reactivating then Some acq else coalesce (l_acquired_at r) (Some acq)) (set_l_release_requested_at None (set_l_released_at None
      (set_l_acquire_reason None (set_l_revision (l_revision r + 1) (set_l_updated_at now r)))))))));;
    leaseRecord leaseId).

Definition setWorkspaceLeaseAcquireReason (leaseId : string) (reason : option string) : M LeaseRecord :=
  opened;; transaction (
    r ← theLease leaseId; rs ← lift (boundOpt reason 256);
    put_lease (set_l_acquire_reason rs (set_l_revision (l_revision r + 1) (set_l_updated_at now r)));;
    leaseRecord leaseId).

Definition setWorkspaceLeaseRevision (leaseId : string) (currentRevision : value) : M LeaseRecord :=
  opened;; transaction (
    r ← theLease leaseId; j ← lift (encodeRevision currentRevision);
    put_lease (set_l_current_revision_json j (set_l_revision (l_revision r + 1) (set_l_updated_at now r)));;
    leaseRecord leaseId).

Definition requestWorkspaceLeaseRelease (leaseId ts : string) : M LeaseRecord :=
  opened;; transaction (
    r ← theLease leaseId;
    if l_status r =s "released" then toLease r else
    put_lease (set_l_status "release_requested" (set_l_release_requested_at (coalesce (l_release_requested_at r) (Some (iso_or_now ts)))
      (set_l_revision (l_revision r + 1) (set_l_updated_at now r))));;
    leaseRecord leaseId).

Definition markWorkspaceLeaseReleased (leaseId ts : string) : M LeaseRecord :=
  opened;; transaction (
    r ← theLease leaseId;
    if l_status r =s "released" then toLease r else
    put_lease (set_l_status "released" (set_l_released_at (coalesce (l_released_at r) (Some (iso_or_now ts)))
      (set_l_revision (l_revision r + 1) (set_l_updated_at now r))));;
    leaseRecord leaseId).

(** ** Human requests *)

Record HumanRecord : Type := { hr_row : HumanRequestRow; hr_choices : value }.
Definition humanRow (id : string) (s : DB) : option HumanRequestRow := db_human_requests s !! id.
Definition toHumanRequest (r : HumanRequestRow) : M HumanRecord :=
  c ← lift (decodeJson (h_choices_json r) SIZE_LIMITS.metadata_json false); mret {| hr_row := r; hr_choices := c |}.
Definition theHuman (id : string) : M HumanRequestRow := o ← gets (humanRow id); require o not_found.
Definition humanRecord (id : string) : M HumanRecord := o ← gets (humanRow id); r ← require o type_error; toHumanRequest r.
Definition update_human (id : string) (f : HumanRequestRow -> HumanRequestRow) : M unit :=
  modify (fun s => set_db_human_requests (alter f id (db_human_requests s)) s).

Record CreateHumanRequestInput : Type := {
  ch_request_id : string; ch_workflow_id : string; ch_step_execution_id : string; ch_kind : string; ch_prompt : string; ch_choices : option (list string) }.

(** INSERT INTO workflow_human_requests, one request per step execution. *)
Definition insert_human (r : HumanRequestRow) : M unit :=
  dup ← gets (fun s => find_row (fun o => h_step_execution_id o =s h_step_execution_id r) (db_human_requests s));
  check (negb (is_some dup)) sqlite_constraint;;
  modify (fun s => set_db_human_requests (<[h_request_id r := r]> (db_human_requests s)) s).

Definition createHumanRequestAndPause (i : CreateHumanRequestInput) (waitingStatus : string) (pausedEvent : WorkflowEventDraft) : M HumanRecord :=
  opened;;
  check (isSafeId (ch_request_id i)) invalid_record;;
  check ((ch_kind i =s "input") || (ch_kind i =s "approval")) invalid_record;;
  check ((waitingStatus =s "waiting_input") || (waitingStatus =s "waiting_approval")) invalid_record;;
  transaction (
    wf ← theWorkflow (ch_workflow_id i);
    row ← gets (humanRow (ch_request_id i));
    unless (is_some row) (
      theStep (ch_step_execution_id i);;
      pr ← lift (boundString (ch_prompt i) 8192);
      cj ← lift (match ch_choices i with
                 | Some l => try! t := encodeJson (VArr (map VStr (take 200 l))) SIZE_LIMITS.metadata_json in Ok (Some t)
                 | None => Ok None end);
      insert_human {| h_request_id := ch_request_id i; h_workflow_id := ch_workflow_id i; h_step_execution_id := ch_step_execution_id i;
                      h_kind := ch_kind i; h_prompt := pr; h_choices_json := cj; h_status := "pending"; h_response_value := None;
                      h_created_at := now; h_responded_at := None; h_updated_at := now; h_revision := 1 |});;
    unless (negb (w_status wf =s "running")) (
      updateWorkflowSync now (ch_workflow_id i) (w_revision wf) (wp_status_only waitingStatus);;
      appendWorkflowEventAuto now (ch_workflow_id i) pausedEvent);;
    humanRecord (ch_request_id i)).

Definition answerHumanRequestInput (requestId val : string) : M HumanRecord :=
  opened;; transaction (
    r ← theHuman requestId;
    check (h_kind r =s "input") invalid_transition;;
    v ← lift (boundString val 8192);
    if h_status r =s "answered" then check (opt_is (h_response_value r) v) invalid_transition;; toHumanRequest r else
    check (h_status r =s "pending") invalid_transition;;
    update_human requestId (fun r => set_h_status "answered" (set_h_response_value (Some v) (set_h_responded_at (Some now)
      (set_h_revision (h_revision r + 1) (set_h_updated_at now r)))));;
    humanRecord requestId).

Definition respond (st : string) (requestId : string) : M unit :=
  update_human requestId (fun r => set_h_status st (set_h_responded_at (Some now) (set_h_revision (h_revision r + 1) (set_h_updated_at now r)))).

Definition approveHumanRequest (requestId : string) : M HumanRecord :=
  opened;; transaction (
    r ← theHuman requestId;
    check (h_kind r =s "approval") invalid_transition;;
    if h_status r =s "approved" then toHumanRequest r else
    check (negb (h_status r =s "rejected")) invalid_transition;;
    check (h_status r =s "pending") invalid_transition;;
    respond "approved" requestId;;
    humanRecord requestId).

Definition rejectHumanRequestAndFailWorkflow (requestId : string) (workflowFailedEvent : WorkflowEventDraft) : M (HumanRecord * WorkflowRecord) :=
  opened;; transaction (
    r ← theHuman requestId;
    check (h_kind r =s "approval") invalid_transition;;
    check (negb (h_status r =s "approved")) invalid_transition;;
    unless (h_status r =s "rejected") (check (h_status r =s "pending") invalid_transition;; respond "rejected" requestId);;
    wf ← workflowRow_bang (h_workflow_id r);
    unless (wf_terminal (w_status wf)) (
      updateWorkflowSync now (h_workflow_id r) (w_revision wf) (wp_terminal "failed");;
      appendWorkflowEventAuto now (h_workflow_id r) workflowFailedEvent);;
    q ← humanRecord requestId; w ← workflowRecord (h_workflow_id r); mret (q, w)).

(** ** Completion evidence and stall rounds *)

Definition recordCompletionEvidence (stepExecutionId workflowId : string) (evidence : value) (decision : string) : M unit :=
  opened;; transaction (
    o ← gets (fun s => db_evidence s !! stepExecutionId);
    unless (is_some o) (
      theStep stepExecutionId;;
      ev ← lift (encodeJson evidence SIZE_LIMITS.metadata_json);
      d ← lift (boundString decision 64);
      w ← gets (workflowRow workflowId); check (is_some w) sqlite_constraint;;
      modify (fun s => set_db_evidence (<[stepExecutionId :=
        {| ce_step_execution_id := stepExecutionId; ce_workflow_id := workflowId; ce_evidence_json := ev; ce_decision := d; ce_created_at := now |}]>
        (db_evidence s)) s))).

Definition is_stall (wf : string) (round : Z) (r : StallRow) : bool := (sr_workflow_id r =s wf) && (sr_round r =? round).
Definition recordStallRound (workflowId : string) (round : Z) (fingerprint : string) (signals : value) : M unit :=
  opened;; transaction (
    o ← gets (fun s => List.find (is_stall workflowId round) (db_stall_rounds s));
    unless (is_some o) (
      theWorkflow workflowId;;
      fp ← lift (boundString fingerprint 128);
      sg ← lift (encodeOpt signals SIZE_LIMITS.metadata_json);
      modify (fun s => set_db_stall_rounds (db_stall_rounds s ++
        [{| sr_workflow_id := workflowId; sr_round := round; sr_fingerprint := fp; sr_signals_json := sg; sr_created_at := now |}]) s))).

(** [ORDER BY round ASC]. *)
Fixpoint insert_stall (r : StallRow) (l : list StallRow) : list StallRow :=
  match l with [] => [r] | x :: t => if sr_round r <=? sr_round x then r :: l else x :: insert_stall r t end.
Definition listStallRounds (workflowId : string) (s : DB) : list (Z * string) :=
  map (fun r => (sr_round r, sr_fingerprint r))
    (fold_right insert_stall [] (List.filter (fun r => sr_workflow_id r =s workflowId) (db_stall_rounds s))).
End WorkflowOps.

(** ** Retention *)

Definition iso_lt (a b : string) : bool := js_leb a b && negb (a =s b).
Definition old_terminal (status : string) (terminal_at : option string) (olderThan : string) : bool :=
  (status ∈b ["completed"; "failed"; "cancelled"]) && match terminal_at with Some t => iso_lt t olderThan | None => false end.

(** DELETE FROM tasks: events and results cascade, step bindings become null. *)
Definition delete_tasks (p : TaskRow -> bool) : M nat := fun s =>
  let gone := filter (fun kv => p (snd kv) = true) (db_tasks s) in
  let dead (id : string) := is_some (gone !! id) in
  (Ok (size gone),
   set_db_tasks (filter (fun kv => p (snd kv) = false) (db_tasks s))
   (set_db_task_events (List.filter (fun e => negb (dead (te_task_id e))) (db_task_events s))
   (set_db_task_results (filter (fun kv => dead (fst kv) = false) (db_task_results s))
   (set_db_steps ((fun r => match s_task_id r with Some t => if dead t then set_s_task_id None r else r | None => r end) <$> db_steps s) s)))).

(** DELETE FROM workflows: everything that belongs to them cascades. *)
Definition delete_workflows (p : WorkflowRow -> bool) : M nat := fun s =>
  let gone := filter (fun kv => p (snd kv) = true) (db_workflows s) in
  let dead (id : string) := is_some (gone !! id) in
  let dead_step (id : string) := match db_steps s !! id with Some r => dead (s_workflow_id r) | None => false end in
  (Ok (size gone),
   set_db_workflows (filter (fun kv => p (snd kv) = false) (db_workflows s))
   (set_db_steps (filter (fun kv => dead (s_workflow_id (snd kv)) = false) (db_steps s))
   (set_db_workflow_events (map (fun e => match we_step_execution_id e with Some x => if dead_step x then set_we_step_execution_id None e else e | None => e end)
                              (List.filter (fun e => negb (dead (we_workflow_id e))) (db_workflow_events s)))
   (set_db_leases (filter (fun kv => dead (l_workflow_id (snd kv)) = false) (db_leases s))
   (set_db_human_requests (filter (fun kv => dead (h_workflow_id (snd kv)) || dead_step (h_step_execution_id (snd kv)) = false) (db_human_requests s))
   (set_db_evidence (filter (fun kv => dead (ce_workflow_id (snd kv)) || dead_step (fst kv) = false) (db_evidence s))
   (set_db_stall_rounds (List.filter (fun r => negb (dead (sr_workflow_id r))) (db_stall_rounds s)) s))))))).

Definition deleteTask (taskId : string) : M unit := opened;; delete_tasks (fun r => t_task_id r =s taskId);; mret tt.
Definition pruneTerminalTasks (olderThan : string) : M nat :=
  opened;; transaction (delete_tasks (fun r => old_terminal (t_status r) (t_terminal_at r) olderThan)).
Definition pruneTerminalWorkflows (olderThan : string) : M nat :=
  opened;; transaction (delete_workflows (fun r => old_terminal (w_status r) (w_terminal_at r) olderThan)).

Definition pruneTaskEvents (taskId : string) (keepLast : Z) : M nat :=
  opened;; transaction (
    check (0 <=? keepLast) invalid_record;;
    evs ← gets (task_events_of taskId);
    match sort_desc (map te_sequence evs) !! Z.to_nat keepLast with
    | None => mret O
    | Some cutoff =>
        modify (fun s => set_db_task_events (List.filter (fun e => negb (is_task_event taskId e && (te_sequence e <=? cutoff))) (db_task_events s)) s);;
        rest ← gets (task_events_of taskId);
        match min_of (map te_sequence rest) with
        | Some m => update_task taskId (set_t_earliest_retained_sequence m)
        | None => mret tt
        end;;
        mret (List.length evs - List.length rest)%nat
    end).

Definition pruneWorkflowEvents (workflowId : string) (keepLast : Z) : M nat :=
  opened;; transaction (
    check (0 <=? keepLast) invalid_record;;
    evs ← gets (workflow_events_of workflowId);
    match sort_desc (map we_sequence evs) !! Z.to_nat keepLast with
    | None => mret O
    | Some cutoff =>
        modify (fun s => set_db_workflow_events (List.filter (fun e => negb (is_wf_event workflowId e && (we_sequence e <=? cutoff))) (db_workflow_events s)) s);;
        rest ← gets (workflow_events_of workflowId);
        match min_of (map we_sequence rest) with
        | Some m => update_workflow workflowId (set_w_earliest_retained_sequence m)
        | None => mret tt
        end;;
        mret (List.length evs - List.length rest)%nat
    end).
