(* ===== verification/StoreProps.v ===== *)
(** * What the control store never does

    [Preserves R m]: running [m] moves the database along the preorder [R], whether it
    returns or throws.  Sequencing, checks and transactions preserve every preorder, so
    a property of the internal operations lifts to all the composites.  Here [R] is
    [evolves]: workflow and step rows persist with their identity, terminal statuses are
    final, rounds, counters and revisions never decrease, a task binding and the output
    of a finished step never change, and the event log only grows. *)

From S2P Require Import Prelude Values Json Contract Verification Outputs StoreRows Store StoreOps.

#[global] Arguments task_terminal s : simpl never.
#[global] Arguments wf_terminal s : simpl never.
#[global] Arguments step_terminal s : simpl never.

(** ** Preservation *)

Class Preserves (R : relation DB) {A : Type} (m : M A) : Prop := preserves : forall s, R s (snd (m s)).

Section Generic.
Context (R : relation DB) `{!PreOrder R}.

#[global] Instance preserves_ret {A : Type} (a : A) : Preserves R (mret a).
Proof. intros s. reflexivity. Qed.
#[global] Instance preserves_throw {A : Type} (e : err_code) : Preserves R (@throw A e).
Proof. intros s. reflexivity. Qed.
#[global] Instance preserves_gets {A : Type} (f : DB -> A) : Preserves R (gets f).
Proof. intros s. reflexivity. Qed.
#[global] Instance preserves_lift {A : Type} (r : result err_code A) : Preserves R (lift r).
Proof. intros s. reflexivity. Qed.
#[global] Instance preserves_check (b : bool) (e : err_code) : Preserves R (check b e).
Proof. intros s. destruct b; reflexivity. Qed.
#[global] Instance preserves_require {A : Type} (o : option A) (e : err_code) : Preserves R (require o e).
Proof. intros s. destruct o; reflexivity. Qed.
#[global] Instance preserves_bind {A B : Type} (m : M A) (k : A -> M B) :
  Preserves R m -> (forall a, Preserves R (k a)) -> Preserves R (m ≫= k).
Proof.
  intros Hm Hk s. unfold mbind, M_bind. specialize (Hm s). destruct (m s) as [[a|e] s']; cbn in *; [|done].
  etransitivity; [exact Hm|apply Hk].
Qed.
#[global] Instance preserves_unless (b : bool) (m : M unit) : Preserves R m -> Preserves R (unless b m).
Proof. intros H. destruct b; [apply _|exact H]. Qed.
#[global] Instance preserves_transaction {A : Type} (m : M A) : Preserves R m -> Preserves R (transaction m).
Proof. intros H s. unfold transaction. specialize (H s). destruct (m s) as [[a|e] s']; cbn in *; [done|reflexivity]. Qed.
#[global] Instance preserves_opened : Preserves R opened.
Proof. apply _. Qed.
#[global] Instance preserves_on_constraint {A : Type} (m h : M A) : Preserves R m -> Preserves R h -> Preserves R (on_constraint m h).
Proof.
  intros Hm Hh s. unfold on_constraint. specialize (Hm s). destruct (m s) as [[a|e] s']; [done|].
  destruct e; try exact Hm. etransitivity; [exact Hm|apply Hh].
Qed.
#[global] Instance preserves_toTask (r : TaskRow) : Preserves R (toTask r).
Proof. apply _. Qed.
#[global] Instance preserves_toWorkflow (r : WorkflowRow) : Preserves R (toWorkflow r).
Proof. apply _. Qed.
#[global] Instance preserves_toStep (r : StepRow) : Preserves R (toStep r).
Proof. apply _. Qed.
#[global] Instance preserves_fk_task (t : option string) : Preserves R (fk_task t).
Proof. destruct t; apply _. Qed.
End Generic.

Ltac head_of t := lazymatch t with ?f _ => head_of f | _ => t end.

(** Reads, checks and sub-operations by instance; matches by case analysis. *)
Ltac preserve :=
  repeat first
    [ progress intros
    | apply _
    | lazymatch goal with
      | |- Preserves _ (transaction _) => apply preserves_transaction; [apply _|]
      | |- Preserves _ (_ ≫= _) => apply preserves_bind; [apply _| |]
      | |- Preserves _ (unless _ _) => apply preserves_unless; [apply _|]
      | |- Preserves _ (on_constraint _ _) => apply preserves_on_constraint; [apply _| |]
      | |- Preserves _ (match ?x with _ => _ end) => destruct x
      | |- Preserves _ (let _ := _ in _) => cbv zeta
      | |- Preserves _ ?m => let h := head_of m in unfold h
      end ].

(** ** The order of evolution *)

Record workflow_evolves (r r' : WorkflowRow) : Prop := {
  we_identity : w_workflow_id r' = w_workflow_id r /\ w_spec_version r' = w_spec_version r /\ w_workflow_name r' = w_workflow_name r
    /\ w_spec_json r' = w_spec_json r /\ w_input_values_json r' = w_input_values_json r /\ w_created_at r' = w_created_at r;
  we_terminal : wf_terminal (w_status r) = true -> w_status r' = w_status r;
  we_terminal_at : is_some (w_terminal_at r) = true -> is_some (w_terminal_at r') = true;
  we_round : w_current_round r <= w_current_round r';
  we_tasks : w_total_tasks r <= w_total_tasks r';
  we_failures : w_total_failures r <= w_total_failures r';
  we_cancel : w_cancel_requested r = true -> w_cancel_requested r' = true;
  we_revision : w_revision r <= w_revision r';
  we_context_revision : w_context_revision r <= w_context_revision r';
  we_last_sequence : w_last_event_sequence r <= w_last_event_sequence r';
}.

Record step_evolves (r r' : StepRow) : Prop := {
  se_identity : s_step_execution_id r' = s_step_execution_id r /\ s_workflow_id r' = s_workflow_id r /\ s_step_id r' = s_step_id r
    /\ s_round r' = s_round r /\ s_attempt r' = s_attempt r /\ s_created_at r' = s_created_at r;
  se_terminal : step_terminal (s_status r) = true -> s_status r' = s_status r /\ s_output_json r' = s_output_json r;
  se_task : forall t, s_task_id r = Some t -> s_task_id r' = Some t;
  se_revision : s_revision r <= s_revision r';
  se_awaited : forall t, s_result_awaited_since r = Some t -> s_result_awaited_since r' = Some t;
}.

(** A request that was answered, approved or rejected stays so, with its response. *)
Record human_evolves (r r' : HumanRequestRow) : Prop := {
  he_identity : h_request_id r' = h_request_id r /\ h_workflow_id r' = h_workflow_id r /\ h_step_execution_id r' = h_step_execution_id r
    /\ h_kind r' = h_kind r /\ h_prompt r' = h_prompt r;
  he_decided : h_status r <> "pending" -> h_status r' = h_status r /\ h_response_value r' = h_response_value r;
}.

(** Every row of [m] has a successor in [m']. *)
Definition rows_evolve {A : Type} (R : relation A) (m m' : gmap string A) : Prop :=
  forall k r, m !! k = Some r -> exists r', m' !! k = Some r' /\ R r r'.

Record evolves (s s' : DB) : Prop := {
  ev_workflows : rows_evolve workflow_evolves (db_workflows s) (db_workflows s');
  ev_steps : rows_evolve step_evolves (db_steps s) (db_steps s');
  ev_human : rows_evolve human_evolves (db_human_requests s) (db_human_requests s');
  ev_evidence : rows_evolve eq (db_evidence s) (db_evidence s');
  ev_events : db_workflow_events s `prefix_of` db_workflow_events s';
  ev_stall : db_stall_rounds s `prefix_of` db_stall_rounds s';
}.

#[global] Instance workflow_evolves_preorder : PreOrder workflow_evolves.
Proof.
  split.
  - intros r. constructor; [by repeat split|..]; auto; lia.
  - intros a b c [I1 T1 A1 R1 N1 F1 C1 V1 X1 L1] [I2 T2 A2 R2 N2 F2 C2 V2 X2 L2]. constructor; try lia; auto.
    + intuition congruence.
    + intros H. rewrite <- (T1 H). apply T2. by rewrite (T1 H).
Qed.

#[global] Instance step_evolves_preorder : PreOrder step_evolves.
Proof.
  split.
  - intros r. constructor; [by repeat split|..]; auto; lia.
  - intros a b c [I1 T1 K1 R1 A1] [I2 T2 K2 R2 A2]. constructor; try lia; auto.
    + intuition congruence.
    + intros H. destruct (T1 H) as [E1 E2]. rewrite E1 in T2. destruct (T2 H) as [-> ->]. done.
Qed.

#[global] Instance human_evolves_preorder : PreOrder human_evolves.
Proof.
  split.
  - intros r. constructor; [by repeat split|auto].
  - intros a b c [I1 D1] [I2 D2]. constructor; [intuition congruence|].
    intros H. destruct (D1 H) as [E1 E2]. rewrite E1 in D2. destruct (D2 H) as [-> ->]. done.
Qed.

#[global] Instance rows_evolve_preorder {A : Type} (R : relation A) `{!PreOrder R} : PreOrder (rows_evolve R).
Proof.
  split.
  - intros m k r H. exists r. split; [done|reflexivity].
  - intros a b c H1 H2 k r Hr. destruct (H1 k r Hr) as (r1 & Hr1 & E1). destruct (H2 k r1 Hr1) as (r2 & Hr2 & E2).
    exists r2. split; [done|]. by etransitivity.
Qed.

#[global] Instance evolves_preorder : PreOrder evolves.
Proof.
  split.
  - intros s. constructor; reflexivity.
  - intros a b c [] []. constructor; by etransitivity.
Qed.

Section Rows.
Context {A : Type} (R : relation A) `{!PreOrder R}.

Lemma rows_insert (m : gmap string A) (k : string) (r : A) : m !! k = None -> rows_evolve R m (<[k := r]> m).
Proof.
  intros Hn j q Hj. destruct (decide (k = j)) as [->|Hne]; [congruence|]. exists q. rewrite lookup_insert_ne by done. split; [done|reflexivity].
Qed.

Lemma rows_alter (m : gmap string A) (k : string) (f : A -> A) :
  (forall r, m !! k = Some r -> R r (f r)) -> rows_evolve R m (alter f k m).
Proof.
  intros H j q Hj. destruct (decide (k = j)) as [->|Hne].
  - exists (f q). rewrite lookup_alter_eq, Hj. split; [done|auto].
  - exists q. rewrite lookup_alter_ne by done. split; [done|reflexivity].
Qed.
End Rows.

(** ** Following one run *)

Section Run.
Context (R : relation DB) `{!PreOrder R}.
Implicit Types (s : DB).

Lemma run_check {B : Type} (s0 : DB) s (b : bool) (e : err_code) (k : unit -> M B) :
  R s0 s -> (b = true -> R s0 (snd (k tt s))) -> R s0 (snd ((check b e ≫= k) s)).
Proof. intros H Hk. destruct b; [by apply Hk|exact H]. Qed.
Lemma run_gets {A B : Type} (s0 : DB) s (f : DB -> A) (k : A -> M B) :
  R s0 (snd (k (f s) s)) -> R s0 (snd ((gets f ≫= k) s)).
Proof. done. Qed.
Lemma run_require {A B : Type} (s0 : DB) s (o : option A) (e : err_code) (k : A -> M B) :
  R s0 s -> (forall a, o = Some a -> R s0 (snd (k a s))) -> R s0 (snd ((require o e ≫= k) s)).
Proof. intros H Hk. destruct o; [by apply Hk|exact H]. Qed.
Lemma run_lift {A B : Type} (s0 : DB) s (r : result err_code A) (k : A -> M B) :
  R s0 s -> (forall a, r = Ok a -> R s0 (snd (k a s))) -> R s0 (snd ((lift r ≫= k) s)).
Proof. intros H Hk. destruct r; [by apply Hk|exact H]. Qed.
Lemma run_modify {B : Type} (s0 : DB) s (f : DB -> DB) (k : unit -> M B) :
  R s0 (snd (k tt (f s))) -> R s0 (snd ((modify f ≫= k) s)).
Proof. done. Qed.
Lemma run_assoc {A B C : Type} (s0 : DB) s (m : M A) (k : A -> M B) (k' : B -> M C) :
  R s0 (snd ((m ≫= fun a => k a ≫= k') s)) -> R s0 (snd (((m ≫= k) ≫= k') s)).
Proof. unfold mbind, M_bind. by destruct (m s) as [[a|e] s']. Qed.
Lemma run_ret {A B : Type} (s0 : DB) s (a : A) (k : A -> M B) : R s0 (snd (k a s)) -> R s0 (snd ((mret a ≫= k) s)).
Proof. done. Qed.
(** A sub-computation that only reads. *)
Lemma run_read {A B : Type} (s0 : DB) s (m : M A) (k : A -> M B) :
  Preserves eq m -> R s0 s -> (forall a, m s = (Ok a, s) -> R s0 (snd (k a s))) -> R s0 (snd ((m ≫= k) s)).
Proof.
  intros Hm H Hk. unfold mbind, M_bind. specialize (Hm s). destruct (m s) as [[a|e] s'] eqn:E; cbn in Hm; subst; [by apply Hk|done].
Qed.
Lemma run_last {A : Type} (s0 : DB) s (m : M A) : Preserves eq m -> R s0 s -> R s0 (snd (m s)).
Proof. intros Hm H. by rewrite <- (Hm s). Qed.
Lemma run_sub {A B : Type} (s0 : DB) s (m : M A) (k : A -> M B) :
  Preserves R m -> R s0 s -> (forall a s', m s = (Ok a, s') -> R s0 s' -> R s0 (snd (k a s'))) -> R s0 (snd ((m ≫= k) s)).
Proof.
  intros Hm H Hk. unfold mbind, M_bind. specialize (Hm s). destruct (m s) as [[a|e] s'] eqn:E; cbn in Hm.
  - apply Hk; [done|]. by etransitivity.
  - cbn. by etransitivity.
Qed.
End Run.

#[global] Instance reads_workflowRecord (id : string) : Preserves eq (workflowRecord id).
Proof. apply _. Qed.
#[global] Instance reads_stepRecord (id : string) : Preserves eq (stepRecord id).
Proof. apply _. Qed.
#[global] Instance reads_taskRecord (id : string) : Preserves eq (taskRecord id).
Proof. apply _. Qed.

(** Step through checks, reads and decoding until the first write. *)
Ltac run_step :=
  lazymatch goal with
  | |- ?R _ (snd ((check _ _ ≫= _) _)) => apply run_check; [try done|intros ?]
  | |- ?R _ (snd ((gets _ ≫= _) _)) => apply run_gets
  | |- ?R _ (snd ((require _ _ ≫= _) _)) => apply run_require; [try done|intros ? ?]
  | |- ?R _ (snd ((lift _ ≫= _) _)) => apply run_lift; [try done|intros ? ?]
  | |- ?R _ (snd ((modify _ ≫= _) _)) => apply run_modify
  | |- ?R _ (snd ((mret _ ≫= _) _)) => apply run_ret
  | |- ?R _ (snd (((_ ≫= _) ≫= _) _)) => apply run_assoc
  end.
Ltac run := repeat (run_step; cbv beta zeta).

(** ** Internal operations evolve the database *)

(** A write that leaves the tables of workflows alone. *)
Definition same_workflow_tables (s s' : DB) : Prop :=
  db_workflows s' = db_workflows s /\ db_steps s' = db_steps s /\ db_human_requests s' = db_human_requests s
  /\ db_evidence s' = db_evidence s /\ db_workflow_events s' = db_workflow_events s /\ db_stall_rounds s' = db_stall_rounds s.

Lemma evolves_same (s s' : DB) : same_workflow_tables s s' -> evolves s s'.
Proof. intros (E1 & E2 & E3 & E4 & E5 & E6). constructor; rewrite ?E1, ?E2, ?E3, ?E4, ?E5, ?E6; reflexivity. Qed.

Lemma evolves_modify (f : DB -> DB) : (forall s, same_workflow_tables s (f s)) -> Preserves evolves (modify f).
Proof. intros H s. apply evolves_same, H. Qed.

#[global] Instance evolves_update_task (id : string) (f : TaskRow -> TaskRow) : Preserves evolves (update_task id f).
Proof. apply evolves_modify. by repeat split. Qed.
#[global] Instance evolves_insert_task (r : TaskRow) : Preserves evolves (insert_task r).
Proof. preserve. apply evolves_modify. by repeat split. Qed.
#[global] Instance evolves_insert_task_event (r : TaskEventRow) : Preserves evolves (insert_task_event r).
Proof. preserve. apply evolves_modify. by repeat split. Qed.
#[global] Instance evolves_put_lease (r : WorkspaceLeaseRow) : Preserves evolves (put_lease r).
Proof. preserve. apply evolves_modify. by repeat split. Qed.
#[global] Instance evolves_writeResultRow (now taskId st : string) (res : option AgentTaskResultV1) : Preserves evolves (writeResultRow now taskId st res).
Proof. preserve. apply evolves_modify. by repeat split. Qed.

Lemma evolves_workflows (s : DB) (m : gmap string WorkflowRow) :
  rows_evolve workflow_evolves (db_workflows s) m -> evolves s (set_db_workflows m s).
Proof. intros H. constructor; cbn; [exact H|reflexivity..]. Qed.

Lemma evolves_steps (s : DB) (m : gmap string StepRow) :
  rows_evolve step_evolves (db_steps s) m -> evolves s (set_db_steps m s).
Proof. intros H. constructor; cbn; [reflexivity|exact H|reflexivity..]. Qed.

(** Closes the fields of an updated row that did not change. *)
Ltac row_same := constructor; cbn; [by repeat split|..]; auto; try lia; try done.

Lemma not_some_eqb (p : option string) (cur : string) (t : string -> bool) :
  negb (match p with Some st => t cur && negb (st =s cur) | None => false end) = true -> t cur = true -> patched p cur = cur.
Proof. destruct p as [st|]; cbn; [|done]. intros H Ht. rewrite Ht in H. cbn in H. destruct (st =s cur) eqn:E; [|done]. by apply String.eqb_eq in E. Qed.

Lemma not_less (p : option Z) (cur : Z) : negb (match p with Some r => r <? cur | None => false end) = true -> cur <= patched p cur.
Proof. destruct p as [r|]; cbn; [|lia]. intros H. bsimpl. lia. Qed.

#[global] Instance evolves_updateWorkflowSync (now id : string) (rev : Z) (patch : WorkflowPatch) :
  Preserves evolves (updateWorkflowSync now id rev patch).
Proof.
  intros s. unfold updateWorkflowSync, theWorkflow, update_workflow. run. apply run_last; [apply _|].
  apply evolves_workflows, rows_alter; [apply _|]. unfold workflowRow in *. intros r Hr.
  match goal with H : db_workflows s !! id = Some ?a |- _ => assert (a = r) as -> by congruence end.
  row_same.
  - intros Ht. by apply (not_some_eqb _ _ wf_terminal).
  - intros Ht. destruct (wp_terminal_at patch) as [[t|]|]; cbn; [done| |done]. by rewrite Ht in *.
  - by apply not_less.
  - by apply not_less.
  - by apply not_less.
  - intros ->. by rewrite orb_true_r.
Qed.

Lemma not_is_some {A : Type} (o : option A) : negb (is_some o) = true -> o = None.
Proof. by destruct o. Qed.

#[global] Instance evolves_createWorkflowSync (now : string) (i : CreateWorkflowInput) : Preserves evolves (createWorkflowSync now i).
Proof.
  intros s. unfold createWorkflowSync, validateCreateWorkflow. run. apply run_last; [apply _|].
  apply evolves_workflows, rows_insert; [apply _|]. by apply not_is_some.
Qed.

#[global] Instance evolves_createStepSync (now : string) (i : CreateStepExecutionInput) : Preserves evolves (createStepSync now i).
Proof.
  intros s. unfold createStepSync, validateCreateStepExecution, theWorkflow. run.
  apply run_read; [apply _|done|]. intros _ _. run. apply run_last; [apply _|].
  apply evolves_steps, rows_insert; [apply _|]. by apply not_is_some.
Qed.

(** A patch that does not clear the task binding. *)
Class KeepsBinding (p : StepExecutionPatch) : Prop := keeps_binding : sp_task_id p <> Some None.
#[global] Instance keeps_sp_task (t : string) : KeepsBinding (sp_task t).
Proof. done. Qed.
#[global] Instance keeps_sp_end (now st : string) (o e : value) : KeepsBinding (sp_end now st o e).
Proof. done. Qed.

#[global] Instance evolves_updateStepSync (now id : string) (rev : Z) (patch : StepExecutionPatch) :
  KeepsBinding patch -> Preserves evolves (updateStepSync now id rev patch).
Proof.
  intros Hk s. unfold updateStepSync, theStep, update_step. run.
  apply run_read; [destruct (is_undef (sp_output patch)); apply _|done|]. intros out Hout.
  apply run_read; [destruct (is_undef (sp_error patch)); apply _|done|]. intros er _.
  apply run_read; [apply _|done|]. intros _ _. run. apply run_last; [apply _|].
  apply evolves_steps, rows_alter; [apply _|]. unfold stepRow in *. intros r Hr.
  match goal with H : db_steps s !! id = Some ?a |- _ => assert (a = r) as -> by congruence end.
  row_same.
  - intros Ht. split; [by apply (not_some_eqb _ _ step_terminal)|].
    match goal with H : negb (negb (is_undef _) && _) = true |- _ => rewrite Ht in H end.
    destruct (is_undef (sp_output patch)); [by injection Hout as ->|done].
  - intros t Ht. destruct (sp_task_id patch) as [[t'|]|] eqn:Ep; cbn; [|by destruct (Hk Ep)|done].
    rewrite Ht in *. bsimpl. by f_equal.
Qed.

#[global] Instance evolves_insert_workflow_event (r : WorkflowEventRow) : Preserves evolves (insert_workflow_event r).
Proof.
  intros s. unfold insert_workflow_event. run. constructor; cbn; try reflexivity. by apply prefix_app_r.
Qed.

#[global] Instance evolves_appendWorkflowEventSync (now id : string) (seq : Z) (ev : WorkflowEventDraft) :
  Preserves evolves (appendWorkflowEventSync now id seq ev).
Proof.
  intros s. unfold appendWorkflowEventSync, theWorkflow. run.
  destruct (seq <=? w_last_event_sequence a) eqn:El.
  - apply run_last; [apply _|reflexivity].
  - run. unfold insert_workflow_event, update_workflow. run. bsimpl. cbn.
    etransitivity; [|apply evolves_workflows, rows_alter; [apply _|]].
    + constructor; cbn; try reflexivity. by apply prefix_app_r.
    + unfold workflowRow in *. cbn. intros r Hr. assert (a = r) as -> by congruence. row_same.
Qed.

#[global] Instance evolves_appendWorkflowEventAuto (now id : string) (ev : WorkflowEventDraft) : Preserves evolves (appendWorkflowEventAuto now id ev).
Proof. preserve. Qed.

#[global] Instance evolves_saveContextSync (now id : string) (rev : Z) (ctx : value) : Preserves evolves (saveContextSync now id rev ctx).
Proof.
  intros s. unfold saveContextSync, theWorkflow, update_workflow. run. cbn.
  apply evolves_workflows, rows_alter; [apply _|]. unfold workflowRow in *. intros r Hr. assert (a = r) as -> by congruence. row_same.
Qed.

(** Setters of a step's marks. *)
Lemma evolves_update_step (id : string) (f : StepRow -> StepRow) : (forall r, step_evolves r (f r)) -> Preserves evolves (update_step id f).
Proof. intros H s. apply evolves_steps, rows_alter; [apply _|auto]. Qed.

#[global] Instance evolves_markStepAwaitingResult (now id ts : string) : Preserves evolves (markStepAwaitingResult now id ts).
Proof. preserve. apply evolves_update_step. intros r. row_same. intros t ->. done. Qed.
#[global] Instance evolves_setStepRevisionBefore (now id : string) (rev : value) : Preserves evolves (setStepRevisionBefore now id rev).
Proof. preserve. apply evolves_update_step. intros r. row_same. Qed.
#[global] Instance evolves_setStepRevisionAfter (now id : string) (rev : value) : Preserves evolves (setStepRevisionAfter now id rev).
Proof. preserve. apply evolves_update_step. intros r. row_same. Qed.

(** ** Human requests, evidence, stall rounds *)

Lemma evolves_humans (s : DB) (m : gmap string HumanRequestRow) :
  rows_evolve human_evolves (db_human_requests s) m -> evolves s (set_db_human_requests m s).
Proof. intros H. constructor; cbn; try reflexivity. exact H. Qed.

(** A decision on a pending request. *)
Lemma evolves_decide (s : DB) (id : string) (r : HumanRequestRow) (f : HumanRequestRow -> HumanRequestRow) :
  humanRow id s = Some r -> (h_status r =s "pending") = true ->
  (forall r, h_request_id (f r) = h_request_id r /\ h_workflow_id (f r) = h_workflow_id r /\ h_step_execution_id (f r) = h_step_execution_id r
     /\ h_kind (f r) = h_kind r /\ h_prompt (f r) = h_prompt r) ->
  evolves s (set_db_human_requests (alter f id (db_human_requests s)) s).
Proof.
  intros Hr Hp Hid. apply evolves_humans, rows_alter; [apply _|]. unfold humanRow in Hr. intros q Hq. assert (q = r) as -> by congruence.
  constructor; [apply Hid|]. bsimpl. intros H. done.
Qed.

#[global] Instance reads_humanRecord (id : string) : Preserves eq (humanRecord id).
Proof. preserve. Qed.
#[global] Instance reads_leaseRecord (id : string) : Preserves eq (leaseRecord id).
Proof. preserve. Qed.

#[global] Instance evolves_answer (now id v : string) : Preserves evolves (answerHumanRequestInput now id v).
Proof.
  unfold answerHumanRequestInput. apply preserves_bind; [apply _|apply _|]. intros _. apply preserves_transaction; [apply _|].
  intros s. unfold theHuman, update_human. run.
  destruct (h_status a =s "answered"); [apply run_last; [preserve|reflexivity]|]. run. apply run_last; [apply _|].
  by eapply evolves_decide.
Qed.

#[global] Instance evolves_approve (now id : string) : Preserves evolves (approveHumanRequest now id).
Proof.
  unfold approveHumanRequest. apply preserves_bind; [apply _|apply _|]. intros _. apply preserves_transaction; [apply _|].
  intros s. unfold theHuman, respond, update_human. run.
  destruct (h_status a =s "approved"); [apply run_last; [preserve|reflexivity]|]. run. apply run_last; [apply _|].
  by eapply evolves_decide.
Qed.

#[global] Instance evolves_reject (now id : string) (ev : WorkflowEventDraft) : Preserves evolves (rejectHumanRequestAndFailWorkflow now id ev).
Proof.
  unfold rejectHumanRequestAndFailWorkflow. apply preserves_bind; [apply _|apply _|]. intros _. apply preserves_transaction; [apply _|].
  intros s. unfold theHuman. run.
  assert (forall B (k : unit -> M B), (forall x, Preserves evolves (k x)) ->
    evolves s (snd ((unless (h_status a =s "rejected") (check (h_status a =s "pending") invalid_transition;; respond now "rejected" id) ≫= k) s))) as Hsub.
  { intros B k Hk. unfold unless. destruct (h_status a =s "rejected"); [apply run_ret, Hk|]. unfold respond, update_human. run.
    etransitivity; [|apply Hk]. by eapply evolves_decide. }
  apply Hsub. intros []. preserve.
Qed.

#[global] Instance evolves_createHumanRequestAndPause (now : string) (i : CreateHumanRequestInput) (w : string) (ev : WorkflowEventDraft) :
  Preserves evolves (createHumanRequestAndPause now i w ev).
Proof.
  unfold createHumanRequestAndPause. do 4 (apply preserves_bind; [apply _|apply _|]; intros _). apply preserves_transaction; [apply _|].
  intros s. unfold theWorkflow. run.
  assert (forall B (m : M unit) (k : unit -> M B), (forall x, Preserves evolves (k x)) ->
    (humanRow (ch_request_id i) s = None -> evolves s (snd (m s))) ->
    evolves s (snd ((unless (is_some (humanRow (ch_request_id i) s)) m ≫= k) s))) as Hsub.
  { intros B m k Hk Hm. unfold unless. destruct (humanRow (ch_request_id i) s); cbn [is_some]; [apply run_ret, Hk|].
    unfold mbind, M_bind. specialize (Hm eq_refl). destruct (m s) as [[x|e] s']; [|exact Hm]. etransitivity; [exact Hm|apply Hk]. }
  apply Hsub; [intros []; preserve|]. intros Hn. unfold theStep, insert_human. run. apply evolves_humans, rows_insert; [apply _|done].
Qed.

Lemma evolves_evidence (s : DB) (id : string) (r : EvidenceRow) :
  db_evidence s !! id = None -> evolves s (set_db_evidence (<[id := r]> (db_evidence s)) s).
Proof. intros H. constructor; cbn; try reflexivity. apply rows_insert; [apply _|done]. Qed.

#[global] Instance evolves_recordCompletionEvidence (now sid wid : string) (e : value) (d : string) : Preserves evolves (recordCompletionEvidence now sid wid e d).
Proof.
  unfold recordCompletionEvidence. apply preserves_bind; [apply _|apply _|]. intros _. apply preserves_transaction; [apply _|].
  intros s. run. unfold unless. destruct (db_evidence s !! sid) eqn:E; cbn [is_some]; [reflexivity|]. unfold theStep. run. by apply evolves_evidence.
Qed.

#[global] Instance evolves_recordStallRound (now wid : string) (r : Z) (fp : string) (sg : value) : Preserves evolves (recordStallRound now wid r fp sg).
Proof.
  unfold recordStallRound. apply preserves_bind; [apply _|apply _|]. intros _. apply preserves_transaction; [apply _|].
  intros s. run. unfold unless. destruct (is_some _); [reflexivity|]. unfold theWorkflow. run.
  constructor; cbn; try reflexivity. by apply prefix_app_r.
Qed.

(** ** Runs of the store *)

(** One public operation of the store, whatever it returns.  Pruning and deletion are
    not in the relation, and a step patch that clears the task binding is excluded. *)
Inductive store_step : relation DB :=
  | do_createTaskDurable (now : string) (i : CreateTaskInput) (e : TaskEventInput) s : store_step s (snd (createTaskDurable now i e s))
  | do_createTaskIdempotently (now : string) (i : CreateTaskInput) (e : TaskEventInput) s : store_step s (snd (createTaskIdempotently now i e s))
  | do_appendTaskEventDurable (now id : string) (e : TaskEventInput) s : store_step s (snd (appendTaskEventDurable now id e s))
  | do_updateTaskDurable (now id : string) (rev : Z) (p : TaskPatch) s : store_step s (snd (updateTaskDurable now id rev p s))
  | do_terminalizeTaskDurable (now id : string) (rev : Z) (p : TaskPatch) (e : TaskEventInput) s : store_step s (snd (terminalizeTaskDurable now id rev p e s))
  | do_persistTaskResultDurable (now id st : string) (r : option AgentTaskResultV1) s : store_step s (snd (persistTaskResultDurable now id st r s))
  | do_terminalizeTaskWithResultDurable (now id : string) (rev : Z) (p : TaskPatch) (e : TaskEventInput) (st : string) (r : option AgentTaskResultV1) s : store_step s (snd (terminalizeTaskWithResultDurable now id rev p e st r s))
  | do_markTaskHistoryIncomplete (id why : string) (b : Z) s : store_step s (snd (markTaskHistoryIncomplete id why b s))
  | do_clearTaskHistoryIncomplete (id : string) s : store_step s (snd (clearTaskHistoryIncomplete id s))
  | do_initReplayCursor (id : string) s : store_step s (snd (initReplayCursor id s))
  | do_ingestSourceEventDurable (now id : string) (q : Z) (e : IngestSourceEvent) s : store_step s (snd (ingestSourceEventDurable now id q e s))
  | do_advanceSourceCursor (now id : string) (q : Z) s : store_step s (snd (advanceSourceCursor now id q s))
  | do_createWorkflowWithLifecycleEvents (now : string) (i : CreateWorkflowInput) (c : value) (e1 e2 : WorkflowEventDraft) s : store_step s (snd (createWorkflowWithLifecycleEvents now i c e1 e2 s))
  | do_startWorkflowDurably (now id : string) (e : WorkflowEventDraft) s : store_step s (snd (startWorkflowDurably now id e s))
  | do_startWorkflowStep (now : string) (i : CreateStepExecutionInput) (rev : Z) (p : WorkflowPatch) (q : Z) (e : WorkflowEventDraft) s : store_step s (snd (startWorkflowStep now i rev p q e s))
  | do_bindStepTask (now id : string) (rev : Z) (t w : string) (rev' q : Z) (e : WorkflowEventDraft) s : store_step s (snd (bindStepTask now id rev t w rev' q e s))
  | do_checkpointWorkflow (now w : string) (rev : Z) (p : WorkflowPatch) (cr : option Z) (c : value) (q : Z) (e : WorkflowEventDraft) s : store_step s (snd (checkpointWorkflow now w rev p cr c q e s))
  | do_ensureStepStarted (now : string) (i : CreateStepExecutionInput) (cur : string) (e : WorkflowEventDraft) s : store_step s (snd (ensureStepStarted now i cur e s))
  | do_bindStepTaskOnce (now id t w : string) (e : WorkflowEventDraft) s : store_step s (snd (bindStepTaskOnce now id t w e s))
  | do_completeStepAndCheckpoint (now id : string) (o : value) (w : string) (cr : option Z) (c : value) (e : WorkflowEventDraft) s : store_step s (snd (completeStepAndCheckpoint now id o w cr c e s))
  | do_advanceWorkflow (now w : string) (e1 : WorkflowEventDraft) (e2 : option WorkflowEventDraft) (i : CreateStepExecutionInput) (cur : string) (e3 : WorkflowEventDraft) s : store_step s (snd (advanceWorkflow now w e1 e2 i cur e3 s))
  | do_terminalizeWorkflow (now w st : string) (e1 : option WorkflowEventDraft) (e2 : WorkflowEventDraft) s : store_step s (snd (terminalizeWorkflow now w st e1 e2 s))
  | do_failStepAndWorkflow (now id w : string) (e1 e2 : WorkflowEventDraft) (er : value) s : store_step s (snd (failStepAndWorkflow now id w e1 e2 er s))
  | do_recordCancellationIntent (now w : string) s : store_step s (snd (recordCancellationIntent now w s))
  | do_cancelStepAndWorkflow (now : string) (id : option string) (w : string) (e : WorkflowEventDraft) s : store_step s (snd (cancelStepAndWorkflow now id w e s))
  | do_resumeWorkflowRunning (now w : string) (e : WorkflowEventDraft) s : store_step s (snd (resumeWorkflowRunning now w e s))
  | do_markStepAwaitingResult (now id ts : string) s : store_step s (snd (markStepAwaitingResult now id ts s))
  | do_setStepRevisionBefore (now id : string) (v : value) s : store_step s (snd (setStepRevisionBefore now id v s))
  | do_setStepRevisionAfter (now id : string) (v : value) s : store_step s (snd (setStepRevisionAfter now id v s))
  | do_recordWorkspaceLeaseIntent (now l w n k : string) s : store_step s (snd (recordWorkspaceLeaseIntent now l w n k s))
  | do_markWorkspaceLeaseActive (now l : string) (b c : value) (t : string) s : store_step s (snd (markWorkspaceLeaseActive now l b c t s))
  | do_setWorkspaceLeaseAcquireReason (now l : string) (r : option string) s : store_step s (snd (setWorkspaceLeaseAcquireReason now l r s))
  | do_setWorkspaceLeaseRevision (now l : string) (v : value) s : store_step s (snd (setWorkspaceLeaseRevision now l v s))
  | do_requestWorkspaceLeaseRelease (now l t : string) s : store_step s (snd (requestWorkspaceLeaseRelease now l t s))
  | do_markWorkspaceLeaseReleased (now l t : string) s : store_step s (snd (markWorkspaceLeaseReleased now l t s))
  | do_createHumanRequestAndPause (now : string) (i : CreateHumanRequestInput) (st : string) (e : WorkflowEventDraft) s : store_step s (snd (createHumanRequestAndPause now i st e s))
  | do_answerHumanRequestInput (now id v : string) s : store_step s (snd (answerHumanRequestInput now id v s))
  | do_approveHumanRequest (now id : string) s : store_step s (snd (approveHumanRequest now id s))
  | do_rejectHumanRequestAndFailWorkflow (now id : string) (e : WorkflowEventDraft) s : store_step s (snd (rejectHumanRequestAndFailWorkflow now id e s))
  | do_recordCompletionEvidence (now id w : string) (v : value) (d : string) s : store_step s (snd (recordCompletionEvidence now id w v d s))
  | do_recordStallRound (now w : string) (n : Z) (fp : string) (v : value) s : store_step s (snd (recordStallRound now w n fp v s))
  | do_createWorkflow (now : string) (i : CreateWorkflowInput) s : store_step s (snd (createWorkflow now i s))
  | do_updateWorkflow (now w : string) (rev : Z) (p : WorkflowPatch) s : store_step s (snd (updateWorkflow now w rev p s))
  | do_createStepExecution (now : string) (i : CreateStepExecutionInput) s : store_step s (snd (createStepExecution now i s))
  | do_appendWorkflowEvent (now w : string) (q : Z) (e : WorkflowEventDraft) s : store_step s (snd (appendWorkflowEvent now w q e s))
  | do_saveWorkflowContext (now w : string) (rev : Z) (c : value) s : store_step s (snd (saveWorkflowContext now w rev c s))
  | do_updateStepExecution (now id : string) (rev : Z) (p : StepExecutionPatch) s :
      sp_task_id p <> Some None -> store_step s (snd (updateStepExecution now id rev p s)).

(** Turn a statement on one run into preservation by the operation. *)
Ltac by_preservation :=
  match goal with |- ?R ?s (snd (?m ?s)) => let H := fresh in assert (Preserves R m) as H; [|exact (H s)] end.

Lemma store_step_evolves (s s' : DB) : store_step s s' -> evolves s s'.
Proof.
  destruct 1; by_preservation; [preserve..|].
  unfold updateStepExecution. apply preserves_bind; [apply _|apply _|]. intros _. by apply evolves_updateStepSync.
Qed.

Lemma store_run_evolves (s s' : DB) : rtc store_step s s' -> evolves s s'.
Proof. induction 1; [reflexivity|]. etransitivity; [by apply store_step_evolves|done]. Qed.
