(* ===== verification/StoreInv.v ===== *)
(** * Invariants of the control store

    The event logs are gap-free (sequence numbers 0, 1, ..., last, in order, each once),
    rows are filed under their own identifiers, at most one task carries an idempotency
    key, at most one step execution a (workflow, step, round, attempt), and a source
    sequence is mapped at most once.  Every operation keeps them. *)

From S2P Require Import Prelude Values Json Contract Verification Outputs StoreRows Store StoreOps StoreProps.

(** An invariant as a preorder, so that [Preserves] applies. *)
Definition keeps (I : DB -> Prop) : relation DB := fun s s' => I s -> I s'.
#[global] Instance keeps_preorder (I : DB -> Prop) : PreOrder (keeps I).
Proof. split; [by intros s H|]. intros a b c H1 H2 H. auto. Qed.

Lemma keeps_modify (I : DB -> Prop) (f : DB -> DB) : (forall s, I s -> I (f s)) -> Preserves (keeps I) (modify f).
Proof. intros H s. exact (H s). Qed.

(** ** Gap-free numbering *)

Definition numbered (last : Z) (l : list Z) : Prop := -1 <= last /\ l = seqZ 0 (last + 1).

Lemma numbered_snoc (last : Z) (l : list Z) : numbered last l -> numbered (last + 1) (l ++ [last + 1]).
Proof.
  intros [H ->]. split; [lia|]. by rewrite (seqZ_app 0 (last + 1) 1) by lia.
Qed.

Lemma numbered_nil : numbered (-1) [].
Proof. by split. Qed.

(** Both kinds of log: rows of the owner table by id, and a flat list of events. *)
Section Log.
Context {Row Ev : Type} (row_id : Row -> string) (row_last : Row -> Z) (ev_owner : Ev -> string) (ev_seq : Ev -> Z).
Implicit Types (m : gmap string Row) (l : list Ev).

Definition events_of (k : string) l : list Ev := List.filter (fun e => ev_owner e =s k) l.

Record log_ok m l : Prop := {
  lo_row : forall k r, m !! k = Some r -> row_id r = k /\ numbered (row_last r) (map ev_seq (events_of k l));
  lo_owner : forall e, In e l -> is_Some (m !! ev_owner e);
}.

Lemma log_alter m l (k : string) (f : Row -> Row) :
  (forall r, row_id (f r) = row_id r /\ row_last (f r) = row_last r) -> log_ok m l -> log_ok (alter f k m) l.
Proof.
  intros Hf [H1 H2]. constructor.
  - intros j r. rewrite lookup_alter_Some. intros [(<- & q & Hq & ->)|[_ Hj]]; [|by apply H1].
    destruct (Hf q) as [-> ->]. by apply H1.
  - intros e He. destruct (H2 e He) as [r Hr]. destruct (decide (k = ev_owner e)) as [->|Hne].
    + rewrite lookup_alter_eq, Hr. by eexists.
    + rewrite lookup_alter_ne by done. by eexists.
Qed.

Lemma log_insert m l (k : string) (r : Row) :
  m !! k = None -> row_id r = k -> row_last r = -1 -> log_ok m l -> log_ok (<[k := r]> m) l.
Proof.
  intros Hn Hid Hl [H1 H2]. constructor.
  - intros j q. rewrite lookup_insert_Some. intros [[<- <-]|[_ Hj]]; [|by apply H1]. split; [done|]. rewrite Hl.
    assert (events_of k l = []) as ->; [|apply numbered_nil]. apply filter_nil. intros e He.
    destruct (ev_owner e =s k) eqn:E; [|done]. bsimpl. destruct (H2 e He) as [x Hx]. congruence.
  - intros e He. destruct (H2 e He) as [x Hx]. destruct (decide (k = ev_owner e)) as [->|Hne].
    + rewrite lookup_insert_eq. by eexists.
    + rewrite lookup_insert_ne by done. by eexists.
Qed.

Lemma log_append m l (e : Ev) (r : Row) (f : Row -> Row) :
  m !! ev_owner e = Some r -> ev_seq e = row_last r + 1 ->
  (forall r, row_id (f r) = row_id r /\ row_last (f r) = ev_seq e) ->
  log_ok m l -> log_ok (alter f (ev_owner e) m) (l ++ [e]).
Proof.
  intros Hr Hs Hf [H1 H2]. constructor.
  - intros j q. unfold events_of. rewrite List.filter_app, map_app, lookup_alter_Some. cbn.
    intros [(<- & x & Hx & ->)|[Hne Hj]].
    + rewrite String.eqb_refl. destruct (Hf x) as [-> ->]. destruct (H1 _ _ Hx) as [Hid Hn]. split; [done|].
      assert (x = r) as -> by congruence. rewrite Hs. cbn. rewrite Hs. by apply numbered_snoc.
    + rewrite (proj2 (String.eqb_neq _ _) Hne). cbn. rewrite app_nil_r. by apply H1.
  - intros x Hx. apply in_app_iff in Hx as [Hx|[<-|[]]].
    + destruct (H2 x Hx) as [y Hy]. destruct (decide (ev_owner e = ev_owner x)) as [->|Hne].
      * rewrite lookup_alter_eq, Hy. by eexists.
      * rewrite lookup_alter_ne by done. by eexists.
    + rewrite lookup_alter_eq, Hr. by eexists.
Qed.
End Log.

Definition workflow_log (s : DB) : Prop :=
  log_ok w_workflow_id w_last_event_sequence we_workflow_id we_sequence (db_workflows s) (db_workflow_events s).
Definition task_log (s : DB) : Prop :=
  log_ok t_task_id t_last_event_sequence te_task_id te_sequence (db_tasks s) (db_task_events s).

(** ** The workflow log *)

Definition same_workflow_log (s s' : DB) : Prop := db_workflows s' = db_workflows s /\ db_workflow_events s' = db_workflow_events s.
Lemma wlog_modify (f : DB -> DB) : (forall s, same_workflow_log s (f s)) -> Preserves (keeps workflow_log) (modify f).
Proof. intros H. apply keeps_modify. intros s. destruct (H s) as [E1 E2]. unfold workflow_log. by rewrite E1, E2. Qed.

Lemma wlog_update (id : string) (f : WorkflowRow -> WorkflowRow) :
  (forall r, w_workflow_id (f r) = w_workflow_id r /\ w_last_event_sequence (f r) = w_last_event_sequence r) ->
  Preserves (keeps workflow_log) (update_workflow id f).
Proof. intros H. apply keeps_modify. intros s. by apply log_alter. Qed.

#[global] Hint Extern 5 (Preserves (keeps workflow_log) (modify _)) => (apply wlog_modify; by repeat split) : typeclass_instances.
#[global] Hint Extern 5 (Preserves (keeps workflow_log) (update_workflow _ _)) => (apply wlog_update; by repeat split) : typeclass_instances.

#[global] Instance wlog_createWorkflowSync (now : string) (i : CreateWorkflowInput) : Preserves (keeps workflow_log) (createWorkflowSync now i).
Proof.
  intros s. unfold createWorkflowSync, validateCreateWorkflow. run. apply run_last; [apply _|].
  intros Hlog. apply log_insert; [by apply not_is_some|done|done|done].
Qed.

#[global] Instance wlog_appendWorkflowEventSync (now id : string) (seq : Z) (ev : WorkflowEventDraft) :
  Preserves (keeps workflow_log) (appendWorkflowEventSync now id seq ev).
Proof.
  intros s. unfold appendWorkflowEventSync, theWorkflow. run.
  destruct (seq <=? w_last_event_sequence a); [apply run_last; [apply _|reflexivity]|].
  run. unfold insert_workflow_event, update_workflow. run. cbn. intros Hlog. bsimpl.
  unfold workflow_log. cbn.
  match goal with |- log_ok _ _ _ _ _ (_ ++ [?e]) =>
    apply (log_append w_workflow_id w_last_event_sequence we_workflow_id we_sequence (db_workflows s) (db_workflow_events s) e a); cbn; auto end.
Qed.

Lemma wlog_store_step (s s' : DB) : store_step s s' -> keeps workflow_log s s'.
Proof. destruct 1; by_preservation; preserve. Qed.

(** ** The task log *)

Definition same_task_log (s s' : DB) : Prop := db_tasks s' = db_tasks s /\ db_task_events s' = db_task_events s.
Lemma tlog_modify (f : DB -> DB) : (forall s, same_task_log s (f s)) -> Preserves (keeps task_log) (modify f).
Proof. intros H. apply keeps_modify. intros s. destruct (H s) as [E1 E2]. unfold task_log. by rewrite E1, E2. Qed.

Lemma tlog_update (id : string) (f : TaskRow -> TaskRow) :
  (forall r, t_task_id (f r) = t_task_id r /\ t_last_event_sequence (f r) = t_last_event_sequence r) ->
  Preserves (keeps task_log) (update_task id f).
Proof. intros H. apply keeps_modify. intros s. by apply log_alter. Qed.

(** Setters leave the other columns alone, also under a case distinction. *)
Ltac setters := let r := fresh "r" in intros r; repeat case_match; by repeat split.

#[global] Hint Extern 5 (Preserves (keeps task_log) (modify _)) => (apply tlog_modify; setters) : typeclass_instances.
#[global] Hint Extern 5 (Preserves (keeps task_log) (update_task _ _)) => (apply tlog_update; setters) : typeclass_instances.

#[global] Instance tlog_createTaskSync (now : string) (i : CreateTaskInput) : Preserves (keeps task_log) (createTaskSync now i).
Proof.
  intros s. unfold createTaskSync, validateCreateTask, insert_task. run. apply run_last; [apply _|].
  intros Hlog. apply log_insert; [by apply not_is_some|done|done|done].
Qed.

#[global] Instance tlog_appendTaskEventSync (now id : string) (ev : TaskEventInput) : Preserves (keeps task_log) (appendTaskEventSync now id ev).
Proof.
  intros s. unfold appendTaskEventSync, theTask. run.
  destruct (tei_sequence ev <=? t_last_event_sequence a); [apply run_last; [apply _|reflexivity]|].
  run. unfold insert_task_event, update_task. run. cbn. intros Hlog. bsimpl. unfold task_log. cbn.
  match goal with |- log_ok _ _ _ _ _ (_ ++ [?e]) =>
    apply (log_append t_task_id t_last_event_sequence te_task_id te_sequence (db_tasks s) (db_task_events s) e a); cbn; auto end.
Qed.

Lemma tlog_store_step (s s' : DB) : store_step s s' -> keeps task_log s s'.
Proof. destruct 1; by_preservation; preserve. Qed.

(** ** Source sequences are mapped once *)

Definition sources_of (k : string) (s : DB) : list Z := omap te_source_sequence (task_events_of k s).
Definition sources_once (s : DB) : Prop := forall k, NoDup (sources_of k s).

Lemma sources_same (f : DB -> DB) : (forall s, db_task_events (f s) = db_task_events s) -> Preserves (keeps sources_once) (modify f).
Proof. intros H. apply keeps_modify. intros s Hs k. unfold sources_of, task_events_of. rewrite H. apply Hs. Qed.

#[global] Hint Extern 5 (Preserves (keeps sources_once) (modify _)) => (apply sources_same; done) : typeclass_instances.

Lemma not_from_source (k : string) (q : Z) (s : DB) : task_event_from k q s = None -> q ∉ sources_of k s.
Proof.
  unfold task_event_from, sources_of. intros H (e & He & Hq)%list_elem_of_omap.
  apply list_elem_of_In in He. pose proof (List.find_none _ _ H e He) as Hf. cbv beta in Hf. by rewrite Hq, Z.eqb_refl in Hf.
Qed.

#[global] Instance sources_insert (r : TaskEventRow) : Preserves (keeps sources_once) (insert_task_event r).
Proof.
  intros s. unfold insert_task_event. run. intros Hs k. unfold sources_of, task_events_of. cbn. rewrite List.filter_app, omap_app. cbn.
  unfold is_task_event at 2. destruct (te_task_id r =s k) eqn:E; cbn; [|rewrite app_nil_r; apply Hs].
  destruct (te_source_sequence r) as [q|] eqn:Eq; cbn; [|rewrite app_nil_r; apply Hs].
  apply NoDup_app. split; [apply Hs|]. split; [|by apply NoDup_singleton].
  intros x Hx ->%list_elem_of_singleton. bsimpl. subst k. apply not_from_source in Hx; [done|].
  by destruct (task_event_from (te_task_id r) q s).
Qed.

Lemma sources_store_step (s s' : DB) : store_step s s' -> keeps sources_once s s'.
Proof. destruct 1; by_preservation; preserve. Qed.

(** ** Unique keys *)

(** At most one row of a table has a given key (rows without a key are free). *)
Definition unique_key {A K : Type} (key : A -> option K) (m : gmap string A) : Prop :=
  forall k1 k2 r1 r2 x, m !! k1 = Some r1 -> m !! k2 = Some r2 -> key r1 = Some x -> key r2 = Some x -> k1 = k2.

Lemma unique_alter {A K : Type} (key : A -> option K) (m : gmap string A) (k : string) (f : A -> A) :
  (forall r, key (f r) = key r) -> unique_key key m -> unique_key key (alter f k m).
Proof.
  intros Hf H k1 k2 r1 r2 x. rewrite !lookup_alter_Some.
  intros [(-> & q1 & H1 & ->)|[_ H1]] [(-> & q2 & H2 & ->)|[_ H2]]; rewrite ?Hf; eauto.
Qed.

Lemma unique_insert {A K : Type} (key : A -> option K) (m : gmap string A) (k : string) (r : A) :
  (forall j q x, m !! j = Some q -> key q = Some x -> key r = Some x -> False) -> unique_key key m -> unique_key key (<[k := r]> m).
Proof.
  intros Hn H k1 k2 r1 r2 x. rewrite !lookup_insert_Some.
  intros [[-> ->]|[_ H1]] [[-> ->]|[_ H2]] E1 E2; [done|exfalso; eauto..|eauto].
Qed.

Definition step_key (r : StepRow) : option (string * string * Z * Z) := Some (s_workflow_id r, s_step_id r, s_round r, s_attempt r).

Definition task_keys_unique (s : DB) : Prop := unique_key t_idempotency_key (db_tasks s).
Definition step_keys_unique (s : DB) : Prop := unique_key step_key (db_steps s).

Lemma tkeys_modify (f : DB -> DB) : (forall s, db_tasks (f s) = db_tasks s) -> Preserves (keeps task_keys_unique) (modify f).
Proof. intros H. apply keeps_modify. intros s. unfold task_keys_unique. by rewrite H. Qed.
Lemma tkeys_update (id : string) (f : TaskRow -> TaskRow) :
  (forall r, t_idempotency_key (f r) = t_idempotency_key r) -> Preserves (keeps task_keys_unique) (update_task id f).
Proof. intros H. apply keeps_modify. intros s. by apply unique_alter. Qed.
#[global] Hint Extern 5 (Preserves (keeps task_keys_unique) (modify _)) => (apply tkeys_modify; done) : typeclass_instances.
#[global] Hint Extern 5 (Preserves (keeps task_keys_unique) (update_task _ _)) => (apply tkeys_update; setters) : typeclass_instances.

#[global] Instance tkeys_insert (r : TaskRow) : Preserves (keeps task_keys_unique) (insert_task r).
Proof.
  intros s. unfold insert_task. run. intros Hu. apply unique_insert; [|done]. intros j q x Hj Hq Hx. rewrite Hx in *.
  match goal with H : negb (is_some (task_by_key _ _)) = true |- _ => apply not_is_some in H as Hn end.
  pose proof (proj1 (find_row_none _ _) Hn j q Hj) as Hf. cbv beta in Hf. rewrite Hq in Hf. cbn in Hf. by rewrite String.eqb_refl in Hf.
Qed.

Lemma tkeys_store_step (s s' : DB) : store_step s s' -> keeps task_keys_unique s s'.
Proof. destruct 1; by_preservation; preserve. Qed.

Lemma skeys_modify (f : DB -> DB) : (forall s, db_steps (f s) = db_steps s) -> Preserves (keeps step_keys_unique) (modify f).
Proof. intros H. apply keeps_modify. intros s. unfold step_keys_unique. by rewrite H. Qed.
Lemma skeys_update (id : string) (f : StepRow -> StepRow) :
  (forall r, step_key (f r) = step_key r) -> Preserves (keeps step_keys_unique) (update_step id f).
Proof. intros H. apply keeps_modify. intros s. by apply unique_alter. Qed.
#[global] Hint Extern 5 (Preserves (keeps step_keys_unique) (modify _)) => (apply skeys_modify; done) : typeclass_instances.
#[global] Hint Extern 5 (Preserves (keeps step_keys_unique) (update_step _ _)) => (apply skeys_update; setters) : typeclass_instances.

#[global] Instance skeys_createStepSync (now : string) (i : CreateStepExecutionInput) : Preserves (keeps step_keys_unique) (createStepSync now i).
Proof.
  intros s. unfold createStepSync, validateCreateStepExecution, theWorkflow. run.
  apply run_read; [apply _|done|]. intros _ _. run. apply run_last; [apply _|].
  intros Hu. apply unique_insert; [|done]. intros j q x Hj [= <-] [= E1 E2 E3 E4].
  match goal with H : negb (is_some (stepExecByKey _ _ _ _ _)) = true |- _ => apply not_is_some in H as Hn end.
  pose proof (proj1 (find_row_none _ _) Hn j q Hj) as Hf. unfold same_step_key in Hf. cbn in *.
  by rewrite E1, E2, E3, E4, !String.eqb_refl, !Z.eqb_refl in Hf.
Qed.

Lemma skeys_store_step (s s' : DB) : store_step s s' -> keeps step_keys_unique s s'.
Proof. destruct 1; by_preservation; preserve. Qed.

(** ** Step executions are filed under their identifiers and belong to a workflow *)

Definition steps_filed (s : DB) : Prop :=
  forall k r, stepRow k s = Some r -> s_step_execution_id r = k /\ is_Some (workflowRow (s_workflow_id r) s).

Lemma filed_modify (f : DB -> DB) : (forall s, db_steps (f s) = db_steps s /\ db_workflows (f s) = db_workflows s) -> Preserves (keeps steps_filed) (modify f).
Proof. intros H. apply keeps_modify. intros s Hs k r. destruct (H s) as [E1 E2]. unfold stepRow, workflowRow. rewrite E1, E2. apply Hs. Qed.
Lemma filed_update (id : string) (f : StepRow -> StepRow) :
  (forall r, s_step_execution_id (f r) = s_step_execution_id r /\ s_workflow_id (f r) = s_workflow_id r) -> Preserves (keeps steps_filed) (update_step id f).
Proof.
  intros H. apply keeps_modify. intros s Hs k r. unfold stepRow in *. cbn. rewrite lookup_alter_Some.
  intros [(<- & q & Hq & ->)|[_ Hk]]; [destruct (H q) as [-> ->]|]; by apply Hs.
Qed.
(** More workflows do no harm. *)
Lemma filed_workflows (s : DB) (m : gmap string WorkflowRow) :
  (forall k, is_Some (db_workflows s !! k) -> is_Some (m !! k)) -> steps_filed s -> steps_filed (set_db_workflows m s).
Proof. intros H Hs k r Hr. destruct (Hs k r Hr) as [Hi Hw]. split; [done|]. by apply H. Qed.
Lemma filed_update_workflow (id : string) (f : WorkflowRow -> WorkflowRow) : Preserves (keeps steps_filed) (update_workflow id f).
Proof.
  apply keeps_modify. intros s. apply filed_workflows. intros k [r Hr]. destruct (decide (id = k)) as [->|Hne];
    [rewrite lookup_alter_eq, Hr|rewrite lookup_alter_ne by done]; by eexists.
Qed.
#[global] Hint Extern 5 (Preserves (keeps steps_filed) (modify _)) => (apply filed_modify; by repeat split) : typeclass_instances.
#[global] Hint Extern 5 (Preserves (keeps steps_filed) (update_step _ _)) => (apply filed_update; setters) : typeclass_instances.
#[global] Hint Extern 4 (Preserves (keeps steps_filed) (update_workflow _ _)) => (apply filed_update_workflow) : typeclass_instances.

#[global] Instance filed_createWorkflowSync (now : string) (i : CreateWorkflowInput) : Preserves (keeps steps_filed) (createWorkflowSync now i).
Proof.
  intros s. unfold createWorkflowSync, validateCreateWorkflow. run. apply run_last; [apply _|]. intros Hs.
  apply filed_workflows; [|done]. intros k [r Hr]. apply lookup_insert_is_Some'. right. by eexists.
Qed.

#[global] Instance filed_createStepSync (now : string) (i : CreateStepExecutionInput) : Preserves (keeps steps_filed) (createStepSync now i).
Proof.
  intros s. unfold createStepSync, validateCreateStepExecution, theWorkflow. run.
  apply run_read; [apply _|done|]. intros _ _. run. apply run_last; [apply _|].
  intros Hs k r. unfold stepRow. cbn. rewrite lookup_insert_Some. intros [[<- <-]|[_ Hk]]; [split; [done|]; by eexists|by apply Hs].
Qed.

Lemma filed_store_step (s s' : DB) : store_step s s' -> keeps steps_filed s s'.
Proof. destruct 1; by_preservation; preserve. Qed.

(** ** Reachable databases *)

Record store_ok (s : DB) : Prop := {
  ok_workflow_log : workflow_log s;
  ok_task_log : task_log s;
  ok_sources : sources_once s;
  ok_task_keys : task_keys_unique s;
  ok_step_keys : step_keys_unique s;
  ok_steps_filed : steps_filed s;
}.

Lemma store_ok_empty : store_ok empty_db.
Proof. constructor; [by constructor|by constructor| |by intros ??|by intros ??|by intros ??]. intros k. constructor. Qed.

Lemma store_ok_step (s s' : DB) : store_step s s' -> store_ok s -> store_ok s'.
Proof.
  intros H [H1 H2 H3 H4 H5 H6]. constructor;
    [by eapply wlog_store_step|by eapply tlog_store_step|by eapply sources_store_step|by eapply tkeys_store_step|by eapply skeys_store_step|by eapply filed_store_step].
Qed.

Lemma store_ok_run (s s' : DB) : rtc store_step s s' -> store_ok s -> store_ok s'.
Proof. induction 1; [done|]. intros Hs. eauto using store_ok_step. Qed.

(** A database with one workflow, its step execution and the task bound to it. *)
Module Demo.
Definition T : string := "2026-01-01T00:00:00.000Z".
Definition draft (t : string) (step : option string) : WorkflowEventDraft :=
  {| wd_event_type := t; wd_ts := T; wd_step_execution_id := step; wd_payload := VObj [] |}.
Definition wf_input : CreateWorkflowInput :=
  {| cw_workflow_id := "wf"; cw_spec_version := "1"; cw_workflow_name := "demo"; cw_spec := VObj [("version", VStr "1")]; cw_status := None;
     cw_current_step_id := None; cw_current_round := None; cw_input_values := VNull |}.
Definition step_input : CreateStepExecutionInput :=
  {| cs_step_execution_id := "wf.plan.r1.a1"; cs_workflow_id := "wf"; cs_step_id := "plan"; cs_round := 1; cs_attempt := 1; cs_task_id := None; cs_status := None |}.
Definition task_input : CreateTaskInput :=
  {| ct_task_id := "t1"; ct_node_id := None; ct_agent := "codex"; ct_workspace_key := None; ct_permission_mode := None; ct_status := "queued";
     ct_remote_run_id := None; ct_input_text := None; ct_metadata := VNull; ct_idempotency_key := Some "wf.plan.r1.a1"; ct_request_fingerprint := Some "fp" |}.
Definition task_event (n : Z) : TaskEventInput :=
  {| tei_sequence := n; tei_event_type := "task.created"; tei_ts := T; tei_payload := VNull; tei_source_sequence := None |}.

Definition db1 : DB := snd (createWorkflowWithLifecycleEvents T wf_input VUndef (draft "workflow.created" None) (draft "workflow.validated" None) empty_db).
Definition db2 : DB := snd (startWorkflowDurably T "wf" (draft "workflow.started" None) db1).
Definition db3 : DB := snd (ensureStepStarted T step_input "plan" (draft "step.started" (Some "wf.plan.r1.a1")) db2).
Definition db4 : DB := snd (createTaskIdempotently T task_input (task_event 0) db3).
Definition db5 : DB := snd (bindStepTaskOnce T "wf.plan.r1.a1" "t1" "wf" (draft "step.task_created" (Some "wf.plan.r1.a1")) db4).

Lemma db5_reachable : rtc store_step empty_db db5.
Proof.
  apply (rtc_l _ _ db1); [unfold db1; apply do_createWorkflowWithLifecycleEvents|].
  apply (rtc_l _ _ db2); [unfold db2; apply do_startWorkflowDurably|].
  apply (rtc_l _ _ db3); [unfold db3; apply do_ensureStepStarted|].
  apply (rtc_l _ _ db4); [unfold db4; apply do_createTaskIdempotently|].
  apply (rtc_l _ _ db5); [unfold db5; apply do_bindStepTaskOnce|]. apply rtc_refl.
Qed.

Example db5_bound : (s_task_id <$> stepRow "wf.plan.r1.a1" db5) = Some (Some "t1") /\ (w_total_tasks <$> workflowRow "wf" db5) = Some 1
  /\ (w_last_event_sequence <$> workflowRow "wf" db5) = Some 4.
Proof. vm_compute. auto. Qed.
End Demo.

(** C13. Event logs are gap-free: in every database reachable by store operations, the
    events of a workflow (and of a task) are numbered 0, 1, ..., [last_event_sequence], in
    order and each once. *)
Theorem event_logs_gap_free (s : DB) (id : string) :
  rtc store_step empty_db s ->
  (forall w, workflowRow id s = Some w -> map we_sequence (workflow_events_of id s) = seqZ 0 (w_last_event_sequence w + 1))
  /\ (forall t, taskRow id s = Some t -> map te_sequence (task_events_of id s) = seqZ 0 (t_last_event_sequence t + 1)).
Proof.
  intros H. pose proof (store_ok_run _ _ H store_ok_empty) as [Hw Ht _ _ _ _]. split.
  - intros w Hrow. apply (lo_row _ _ _ _ _ _ Hw id w Hrow).
  - intros t Hrow. apply (lo_row _ _ _ _ _ _ Ht id t Hrow).
Qed.

Lemma event_logs_gap_free_witness : map we_sequence (workflow_events_of "wf" Demo.db5) = [0; 1; 2; 3; 4].
Proof.
  eapply eq_trans; [apply (proj1 (event_logs_gap_free Demo.db5 "wf" Demo.db5_reachable)); vm_compute; reflexivity|].
  vm_compute. reflexivity.
Defined.

(** Keys are unique: in every reachable database at most one task carries a given
    idempotency key, at most one step execution exists per (workflow, step, round,
    attempt), and each source sequence of a task is mapped to at most one event. *)
Theorem store_keys_unique (s : DB) :
  rtc store_step empty_db s ->
  (forall a b ra rb k, taskRow a s = Some ra -> taskRow b s = Some rb -> t_idempotency_key ra = Some k -> t_idempotency_key rb = Some k -> a = b)
  /\ (forall a b ra rb, stepRow a s = Some ra -> stepRow b s = Some rb -> step_key ra = step_key rb -> a = b)
  /\ (forall t, NoDup (sources_of t s)).
Proof.
  intros H. pose proof (store_ok_run _ _ H store_ok_empty) as [_ _ Hs Hk Hp _]. split; [|split].
  - intros a b ra rb k. apply Hk.
  - intros a b ra rb Ha Hb E. by eapply (Hp a b ra rb _ Ha Hb eq_refl).
  - apply Hs.
Qed.

Lemma store_keys_unique_witness : NoDup (sources_of "t1" Demo.db5).
Proof. apply store_keys_unique. apply Demo.db5_reachable. Defined.
