(* ===== verification/StoreRun.v ===== *)
(** * Following successful runs of the store

    Inversion of a run that returned: what the checks established, what the reads saw and
    what the decoding of a row gives. *)

From S2P Require Import Prelude Values Json Contract Verification Outputs StoreRows Store StoreOps StoreProps StoreInv.

(** ** Inversion of successful runs *)

Section Invert.
Context {A B : Type}.
Implicit Types (s : DB).

Lemma bind_ok (m : M A) (k : A -> M B) s b s' :
  (m ≫= k) s = (Ok b, s') -> exists a s1, m s = (Ok a, s1) /\ k a s1 = (Ok b, s').
Proof. unfold mbind, M_bind. destruct (m s) as [[a|e] s1] eqn:E; [|done]. intros H. by exists a, s1. Qed.
Lemma transaction_ok (m : M A) s a s' : transaction m s = (Ok a, s') -> m s = (Ok a, s').
Proof. unfold transaction. by destruct (m s) as [[x|e] s1]. Qed.
Lemma transaction_run (m : M A) s a s' : m s = (Ok a, s') -> transaction m s = (Ok a, s').
Proof. unfold transaction. by intros ->. Qed.
Lemma read_ok (m : M A) s a s' : Preserves eq m -> m s = (Ok a, s') -> s' = s.
Proof. intros Hm H. specialize (Hm s). by rewrite H in Hm. Qed.
End Invert.

Lemma check_ok (b : bool) (e : err_code) (s s' : DB) (u : unit) : check b e s = (Ok u, s') -> b = true /\ s' = s.
Proof. destruct b; [|done]. by intros [= _ ->]. Qed.
Lemma gets_ok {A : Type} (f : DB -> A) (s s' : DB) (a : A) : gets f s = (Ok a, s') -> a = f s /\ s' = s.
Proof. by intros [= <- <-]. Qed.
Lemma require_ok {A : Type} (o : option A) (e : err_code) (s s' : DB) (a : A) : require o e s = (Ok a, s') -> o = Some a /\ s' = s.
Proof. destruct o; [|done]. by intros [= <- <-]. Qed.
Lemma lift_ok {A : Type} (r : result err_code A) (s s' : DB) (a : A) : lift r s = (Ok a, s') -> r = Ok a /\ s' = s.
Proof. by intros [= <- <-]. Qed.
Lemma modify_ok (f : DB -> DB) (s s' : DB) (u : unit) : modify f s = (Ok u, s') -> s' = f s.
Proof. by intros [= _ <-]. Qed.
Lemma opened_ok (s s' : DB) (u : unit) : opened s = (Ok u, s') -> db_closed s = false /\ s' = s.
Proof. unfold opened. intros (a & s1 & [-> ->]%gets_ok & [H ->]%check_ok)%bind_ok. by destruct (db_closed s). Qed.
Lemma theRow_ok {A : Type} (f : DB -> option A) (e : err_code) (s s' : DB) (a : A) :
  (o ← gets f; require o e) s = (Ok a, s') -> f s = Some a /\ s' = s.
Proof. intros (o & s1 & [-> ->]%gets_ok & [H ->]%require_ok)%bind_ok. done. Qed.

(** Break a successful run into its parts. *)
Ltac inv_run H :=
  lazymatch type of H with
  | (mret _) _ = (Ok _, _) => injection H as ? ?; subst
  | (check _ _) _ = (Ok _, _) => apply check_ok in H as [? ->]
  | (gets _) _ = (Ok _, _) => apply gets_ok in H as [-> ->]
  | (require _ _) _ = (Ok _, _) => apply require_ok in H as [? ->]
  | (lift _) _ = (Ok _, _) => apply lift_ok in H as [? ->]
  | (modify _) _ = (Ok _, _) => apply modify_ok in H as ->
  | opened _ = (Ok _, _) => apply opened_ok in H as [? ->]
  | theTask _ _ = (Ok _, _) => apply theRow_ok in H as [? ->]
  | theWorkflow _ _ = (Ok _, _) => apply theRow_ok in H as [? ->]
  | theStep _ _ = (Ok _, _) => apply theRow_ok in H as [? ->]
  | theHuman _ _ = (Ok _, _) => apply theRow_ok in H as [? ->]
  | workflowRow_bang _ _ = (Ok _, _) => apply theRow_ok in H as [? ->]
  | (transaction _) _ = (Ok _, _) => apply transaction_ok in H; inv_run H
  | (_ ≫= _) _ = (Ok _, _) =>
      let a := fresh "a" in let s1 := fresh "s" in let H1 := fresh "H" in let H2 := fresh "H" in
      apply bind_ok in H as (a & s1 & H1 & H2); cbv beta zeta in H2; inv_run H1; inv_run H2
  | _ => idtac
  end.

(** Follow the branch taken. *)
Ltac branch E :=
  match goal with
  | H : (unless ?b _) _ = (Ok _, _) |- _ => unfold unless in H; destruct b eqn:E; inv_run H
  | H : (if ?b then _ else _) _ = (Ok _, _) |- _ => destruct b eqn:E; inv_run H
  | H : (match ?x with Some _ => _ | None => _ end) _ = (Ok _, _) |- _ => destruct x eqn:E; inv_run H
  end.

Lemma toWorkflow_row (r : WorkflowRow) (s s' : DB) (w : WorkflowRecord) : toWorkflow r s = (Ok w, s') -> wf_row w = r /\ s' = s.
Proof. unfold toWorkflow. intros H. inv_run H. done. Qed.
Lemma toStep_row (r : StepRow) (s s' : DB) (x : StepExecutionRecord) : toStep r s = (Ok x, s') -> st_row x = r /\ s' = s.
Proof. unfold toStep. intros H. inv_run H. done. Qed.

(** Decoding the row just read. *)
Lemma workflowRecord_ok (id : string) (s s' : DB) (w : WorkflowRecord) :
  workflowRecord id s = (Ok w, s') -> exists r, workflowRow id s = Some r /\ toWorkflow r s = (Ok w, s) /\ s' = s.
Proof.
  intros H. pose proof (read_ok _ _ _ _ (reads_workflowRecord id) H) as ->. unfold workflowRecord in H.
  apply bind_ok in H as (o & s1 & [-> ->]%gets_ok & H). apply bind_ok in H as (r & s1 & [E ->]%require_ok & H). eauto.
Qed.
Lemma stepRecord_ok (id : string) (s s' : DB) (w : StepExecutionRecord) :
  stepRecord id s = (Ok w, s') -> exists r, stepRow id s = Some r /\ toStep r s = (Ok w, s) /\ s' = s.
Proof.
  intros H. pose proof (read_ok _ _ _ _ (reads_stepRecord id) H) as ->. unfold stepRecord in H.
  apply bind_ok in H as (o & s1 & [-> ->]%gets_ok & H). apply bind_ok in H as (r & s1 & [E ->]%require_ok & H). eauto.
Qed.

(** ** Running forwards *)

Lemma run_opened {A : Type} (k : M A) (s : DB) : db_closed s = false -> (opened;; k) s = k s.
Proof. intros H. unfold opened, mbind, M_bind, gets, check, mret, M_ret. cbn. by rewrite H. Qed.

Lemma run_the {A B : Type} (f : DB -> option A) (e : err_code) (k : A -> M B) (s : DB) (r : A) :
  f s = Some r -> ((o ← gets f; require o e) ≫= k) s = k r s.
Proof. intros H. unfold mbind, M_bind, gets. cbn. by rewrite H. Qed.

Lemma run_bind {A B : Type} (m : M A) (k : A -> M B) (s s' : DB) (a : A) : m s = (Ok a, s') -> (m ≫= k) s = k a s'.
Proof. unfold mbind, M_bind. by intros ->. Qed.
