(* ===== verification/StoreOnce.v ===== *)
(** * Exactly-once effects of the control store

    A caller may lose the answer of an operation (the process stops, the connection
    drops) and call it again, possibly much later.  What an operation settled stays
    settled, so the repetition changes nothing.  [task_evolves] is the order on tasks
    that [evolves] is on workflows; [once] states that a repetition has no effect. *)

From S2P Require Import Prelude Values Json Contract Verification Outputs StoreRows Store StoreOps StoreProps StoreInv StoreRun OutputProps.

Lemma preserved {A : Type} (R : relation DB) (m : M A) (s s' : DB) (a : A) : Preserves R m -> m s = (Ok a, s') -> R s s'.
Proof. intros Hm H. specialize (Hm s). by rewrite H in Hm. Qed.

(** ** Tasks never regress *)

Record task_evolves (r r' : TaskRow) : Prop := {
  ta_identity : t_task_id r' = t_task_id r /\ t_idempotency_key r' = t_idempotency_key r /\ t_request_fingerprint r' = t_request_fingerprint r
    /\ t_node_id r' = t_node_id r /\ t_agent r' = t_agent r /\ t_input_text r' = t_input_text r /\ t_created_at r' = t_created_at r;
  ta_recorded : t_terminal_event_recorded r = true -> t_terminal_event_recorded r' = true;
  ta_expected : expected_source r <= expected_source r';
  ta_last : t_last_event_sequence r <= t_last_event_sequence r';
  ta_revision : t_revision r <= t_revision r';
}.
#[global] Instance task_evolves_preorder : PreOrder task_evolves.
Proof.
  split.
  - intros r. constructor; [by repeat split|..]; auto; lia.
  - intros a b c [I1 R1 E1 L1 V1] [I2 R2 E2 L2 V2]. constructor; try lia; auto. intuition congruence.
Qed.

Record tasks_evolve (s s' : DB) : Prop := {
  tv_tasks : rows_evolve task_evolves (db_tasks s) (db_tasks s');
  tv_results : rows_evolve eq (db_task_results s) (db_task_results s');
  tv_events : db_task_events s `prefix_of` db_task_events s';
}.
#[global] Instance tasks_evolve_preorder : PreOrder tasks_evolve.
Proof.
  split.
  - intros s. constructor; reflexivity.
  - intros a b c [] []. constructor; by etransitivity.
Qed.

Lemma tasks_evolve_modify (f : DB -> DB) :
  (forall s, db_tasks (f s) = db_tasks s /\ db_task_results (f s) = db_task_results s /\ db_task_events (f s) = db_task_events s) ->
  Preserves tasks_evolve (modify f).
Proof. intros H s. cbn. destruct (H s) as (E1 & E2 & E3). constructor; rewrite ?E1, ?E2, ?E3; reflexivity. Qed.
#[global] Hint Extern 5 (Preserves tasks_evolve (modify _)) => (apply tasks_evolve_modify; by repeat split) : typeclass_instances.

Lemma tasks_evolve_tasks (s : DB) (m : gmap string TaskRow) : rows_evolve task_evolves (db_tasks s) m -> tasks_evolve s (set_db_tasks m s).
Proof. intros H. constructor; cbn; [exact H|reflexivity..]. Qed.

(** Closes the columns of a task that an update leaves alone. *)
Ltac task_same := constructor; cbn; [by repeat split|..]; unfold expected_source; cbn; auto; try lia.

Lemma tasks_evolve_update (id : string) (f : TaskRow -> TaskRow) : (forall r, task_evolves r (f r)) -> Preserves tasks_evolve (update_task id f).
Proof. intros H s. apply tasks_evolve_tasks, rows_alter; [apply _|auto]. Qed.
#[global] Hint Extern 5 (Preserves tasks_evolve (update_task _ (set_t_terminal_event_recorded _))) =>
  (apply tasks_evolve_update; intros ?; task_same) : typeclass_instances.
#[global] Hint Extern 6 (Preserves tasks_evolve (update_task _ _)) =>
  (apply tasks_evolve_update; intros r; repeat case_match; task_same; done) : typeclass_instances.

#[global] Instance tasks_evolve_insert_task (r : TaskRow) : Preserves tasks_evolve (insert_task r).
Proof. intros s. unfold insert_task. run. apply tasks_evolve_tasks, rows_insert; [apply _|]. by apply not_is_some. Qed.

#[global] Instance tasks_evolve_updateTaskSync (now id : string) (rev : Z) (p : TaskPatch) : Preserves tasks_evolve (updateTaskSync now id rev p).
Proof.
  intros s. unfold updateTaskSync, theTask, update_task. run.
  apply run_read; [destruct (is_undef (tp_metadata p)); apply _|done|]. intros md _.
  apply run_read; [destruct (tp_error_message p); apply _|done|]. intros em _. run. apply run_last; [apply _|].
  apply tasks_evolve_tasks, rows_alter; [apply _|]. unfold taskRow in *. intros r Hr.
  match goal with H : db_tasks s !! id = Some ?a |- _ => assert (a = r) as -> by congruence end. task_same.
Qed.

#[global] Instance tasks_evolve_appendTaskEventSync (now id : string) (ev : TaskEventInput) : Preserves tasks_evolve (appendTaskEventSync now id ev).
Proof.
  intros s. unfold appendTaskEventSync, theTask. run.
  destruct (tei_sequence ev <=? t_last_event_sequence a); [apply run_last; [apply _|reflexivity]|].
  run. unfold insert_task_event, update_task. run. bsimpl. cbn.
  etransitivity; [|apply tasks_evolve_tasks, rows_alter; [apply _|]].
  - constructor; cbn; try reflexivity. by apply prefix_app_r.
  - unfold taskRow in *. cbn. intros r Hr. assert (a = r) as -> by congruence. task_same.
Qed.

#[global] Instance tasks_evolve_persistResult (now id st : string) (res : option AgentTaskResultV1) : Preserves tasks_evolve (persistResult now id st res).
Proof.
  intros s. unfold persistResult. run. destruct (db_task_results s !! id) as [row|] eqn:E; [apply run_last; [preserve|reflexivity]|].
  unfold writeResultRow. run. cbn. etransitivity; [|apply tasks_evolve_update; intros r; task_same; done].
  constructor; cbn; [reflexivity| |reflexivity]. by apply rows_insert; [apply _|].
Qed.

(** *** The cursor of ingested source events *)

Definition same_cursors (s s' : DB) : Prop := forall id, t_last_remote_event_sequence <$> taskRow id s' = t_last_remote_event_sequence <$> taskRow id s.
#[global] Instance same_cursors_preorder : PreOrder same_cursors.
Proof. split; [by intros s id|]. intros a b c H1 H2 id. by rewrite H2, H1. Qed.
Lemma same_cursors_modify (f : DB -> DB) : (forall s, db_tasks (f s) = db_tasks s) -> Preserves same_cursors (modify f).
Proof. intros H s id. unfold taskRow. cbn. by rewrite H. Qed.
Lemma same_cursors_update (id : string) (f : TaskRow -> TaskRow) :
  (forall r, t_last_remote_event_sequence (f r) = t_last_remote_event_sequence r) -> Preserves same_cursors (update_task id f).
Proof.
  intros H s j. unfold taskRow. cbn. destruct (decide (id = j)) as [->|Hne]; [|by rewrite lookup_alter_ne].
  rewrite lookup_alter_eq. destruct (db_tasks s !! j); cbn; [by rewrite H|done].
Qed.
#[global] Hint Extern 5 (Preserves same_cursors (modify _)) => (apply same_cursors_modify; done) : typeclass_instances.
#[global] Hint Extern 4 (Preserves same_cursors (update_task _ _)) => (apply same_cursors_update; done) : typeclass_instances.
#[global] Instance same_cursors_appendTaskEventSync (now id : string) (ev : TaskEventInput) : Preserves same_cursors (appendTaskEventSync now id ev).
Proof. preserve. Qed.

Lemma expected_same (s s' : DB) (id : string) (r r' : TaskRow) :
  same_cursors s s' -> taskRow id s = Some r -> taskRow id s' = Some r' -> expected_source r' = expected_source r.
Proof. intros H Hr Hr'. specialize (H id). rewrite Hr, Hr' in H. injection H as H. unfold expected_source. by rewrite H. Qed.

(** Moving the cursor to the expected sequence. *)
Lemma tasks_evolve_cursor (now id : string) (q : Z) (s : DB) :
  (forall r, taskRow id s = Some r -> q = expected_source r) -> tasks_evolve s (snd (update_task id (set_cursor now q) s)).
Proof.
  intros H. apply tasks_evolve_tasks, rows_alter; [apply _|]. intros r Hr. specialize (H r Hr). task_same.
  unfold expected_source in H. lia.
Qed.

Lemma cursor_then {A : Type} (now id : string) (q : Z) (s : DB) (k : unit -> M A) :
  (forall r, taskRow id s = Some r -> q = expected_source r) -> (forall u, Preserves tasks_evolve (k u)) ->
  tasks_evolve s (snd ((update_task id (set_cursor now q) ≫= k) s)).
Proof. intros H Hk. etransitivity; [by apply (tasks_evolve_cursor now id q)|]. apply (Hk tt). Qed.

#[global] Instance tasks_evolve_applySourceStatus (now id : string) (ev : IngestSourceEvent) : Preserves tasks_evolve (applySourceStatus now id ev).
Proof. preserve. Qed.

#[global] Instance tasks_evolve_ingest (now id : string) (q : Z) (ev : IngestSourceEvent) : Preserves tasks_evolve (ingestSourceEventDurable now id q ev).
Proof.
  unfold ingestSourceEventDurable. do 4 (apply preserves_bind; [apply _|apply _|]; intros _). apply preserves_transaction; [apply _|].
  intros s. unfold theTask. run. destruct (q <? expected_source a) eqn:El; [apply run_last; [preserve|reflexivity]|]. run.
  apply run_sub; [apply _|apply _|reflexivity|]. intros [] s1 Happ Hev. bsimpl.
  etransitivity; [exact Hev|]. apply (preserved same_cursors) in Happ as Hc; [|apply _].
  apply cursor_then; [|preserve]. intros r Hr. by rewrite (expected_same _ _ _ _ _ Hc H Hr).
Qed.

#[global] Instance tasks_evolve_advance (now id : string) (q : Z) : Preserves tasks_evolve (advanceSourceCursor now id q).
Proof.
  unfold advanceSourceCursor. do 2 (apply preserves_bind; [apply _|apply _|]; intros _). apply preserves_transaction; [apply _|].
  intros s. unfold theTask. run. destruct (q <? expected_source a); [apply run_last; [preserve|reflexivity]|]. run. bsimpl.
  apply cursor_then; [|preserve]. intros r Hr. congruence.
Qed.

#[global] Instance tasks_evolve_initReplayCursor (id : string) : Preserves tasks_evolve (initReplayCursor id).
Proof.
  unfold initReplayCursor. apply preserves_bind; [apply _|apply _|]. intros _. apply tasks_evolve_update. intros r.
  destruct (t_last_remote_event_sequence r) eqn:E; [reflexivity|]. task_same. by rewrite E.
Qed.

Lemma tasks_store_step (s s' : DB) : store_step s s' -> tasks_evolve s s'.
Proof. destruct 1; by_preservation; preserve. Qed.
Lemma tasks_store_run (s s' : DB) : rtc store_step s s' -> tasks_evolve s s'.
Proof. induction 1; [reflexivity|]. etransitivity; [by apply tasks_store_step|done]. Qed.

(** ** Running an operation again *)

(** [m'] has no effect once [m] has succeeded, whatever happened to the store in between:
    it reads, and returns or throws. *)
Definition once {A B : Type} (m : M A) (m' : M B) : Prop :=
  forall s a s' s'', m s = (Ok a, s') -> rtc store_step s' s'' -> snd (m' s'') = s''.

(** A fact that no store operation undoes. *)
Class Settled (P : DB -> Prop) : Prop := settled : forall s s', evolves s s' -> tasks_evolve s s' -> P s -> P s'.

Lemma settled_run (P : DB -> Prop) `{!Settled P} (s s' : DB) : rtc store_step s s' -> P s -> P s'.
Proof. intros H. apply settled; [by apply store_run_evolves|by apply tasks_store_run]. Qed.

(** [m] establishes [P], and where [P] holds [m'] only reads. *)
Lemma once_settled {A B : Type} (P : DB -> Prop) (m : M A) (m' : M B) :
  Settled P -> (forall s a s', m s = (Ok a, s') -> P s') -> (forall s, P s -> snd (m' s) = s) -> once m m'.
Proof. intros HP Hm Hm' s a s' s'' H Hrun. apply Hm'. eapply settled_run; [done|done|]. by eapply Hm. Qed.

Section Facts.
Context (id : string).

Definition workflow_done (s : DB) : Prop := exists r, workflowRow id s = Some r /\ wf_terminal (w_status r) = true.
#[global] Instance workflow_done_settled : Settled workflow_done.
Proof.
  intros s s' H _ (r & Hr & Ht). destruct (ev_workflows _ _ H id r Hr) as (r' & Hr' & E). exists r'. split; [done|].
  by rewrite (we_terminal _ _ E Ht).
Qed.

Definition cancel_recorded (s : DB) : Prop :=
  exists r, workflowRow id s = Some r /\ (w_cancel_requested r = true \/ wf_terminal (w_status r) = true).
#[global] Instance cancel_recorded_settled : Settled cancel_recorded.
Proof.
  intros s s' H _ (r & Hr & Ht). destruct (ev_workflows _ _ H id r Hr) as (r' & Hr' & E). exists r'. split; [done|].
  destruct Ht as [Ht|Ht]; [left; by apply (we_cancel _ _ E)|right; by rewrite (we_terminal _ _ E Ht)].
Qed.

Definition step_status (st : string) (s : DB) : Prop := exists r, stepRow id s = Some r /\ s_status r = st /\ step_terminal st = true.
#[global] Instance step_status_settled (st : string) : Settled (step_status st).
Proof.
  intros s s' H _ (r & Hr & <- & Ht). destruct (ev_steps _ _ H id r Hr) as (r' & Hr' & E). exists r'. split; [done|].
  split; [by apply (se_terminal _ _ E)|done].
Qed.

Definition bound_to (t : string) (s : DB) : Prop := exists r, stepRow id s = Some r /\ s_task_id r = Some t.
#[global] Instance bound_to_settled (t : string) : Settled (bound_to t).
Proof.
  intros s s' H _ (r & Hr & Ht). destruct (ev_steps _ _ H id r Hr) as (r' & Hr' & E). exists r'. split; [done|]. by apply (se_task _ _ E).
Qed.

Definition decided (st : string) (s : DB) : Prop := exists r, humanRow id s = Some r /\ h_status r = st /\ st <> "pending".
#[global] Instance decided_settled (st : string) : Settled (decided st).
Proof.
  intros s s' H _ (r & Hr & <- & Ht). destruct (ev_human _ _ H id r Hr) as (r' & Hr' & E). exists r'. split; [done|].
  split; [by apply (he_decided _ _ E)|done].
Qed.

Definition evidenced (s : DB) : Prop := is_Some (db_evidence s !! id).
#[global] Instance evidenced_settled : Settled evidenced.
Proof. intros s s' H _ [r Hr]. destruct (ev_evidence _ _ H id r Hr) as (r' & Hr' & _). by exists r'. Qed.

Definition stall_recorded (round : Z) (s : DB) : Prop := exists r, In r (db_stall_rounds s) /\ is_stall id round r = true.
#[global] Instance stall_recorded_settled (round : Z) : Settled (stall_recorded round).
Proof. intros s s' H _ (r & Hr & Hs). exists r. split; [|done]. destruct (ev_stall _ _ H) as [l ->]. apply in_or_app. by left. Qed.

Definition executed (step : string) (round attempt : Z) (s : DB) : Prop :=
  exists k r, stepRow k s = Some r /\ same_step_key id step round attempt r = true.
#[global] Instance executed_settled (step : string) (round attempt : Z) : Settled (executed step round attempt).
Proof.
  intros s s' H _ (k & r & Hr & Hk). destruct (ev_steps _ _ H k r Hr) as (r' & Hr' & E). exists k, r'. split; [done|].
  destruct (se_identity _ _ E) as (_ & Ew & Es & Er & Ea & _). unfold same_step_key. by rewrite Ew, Es, Er, Ea.
Qed.
End Facts.

(** ** What a success establishes *)

Section Ensures.
Context (P : DB -> Prop) `{!Settled P}.

Definition ensures {A : Type} (m : M A) : Prop := forall s a s', m s = (Ok a, s') -> P s'.

(** [m] establishes [P], the rest keeps it. *)
Lemma ensures_then {A B : Type} (m : M A) (k : A -> M B) :
  ensures m -> (forall a, Preserves evolves (k a)) -> (forall a, Preserves tasks_evolve (k a)) -> ensures (m ≫= k).
Proof.
  intros Hm He Ht s b s' (a & s1 & H1 & H2)%bind_ok. apply (settled s1 s'); [by eapply (preserved evolves)|by eapply (preserved tasks_evolve)|].
  by eapply Hm.
Qed.
Lemma ensures_skip {A B : Type} (m : M A) (k : A -> M B) : (forall a, ensures (k a)) -> ensures (m ≫= k).
Proof. intros Hk s b s' (a & s1 & H1 & H2)%bind_ok. by eapply Hk. Qed.
Lemma ensures_require {A B : Type} (o : option A) (e : err_code) (k : A -> M B) :
  (forall a, o = Some a -> ensures (k a)) -> ensures (require o e ≫= k).
Proof. intros Hk s b s' (a & s1 & [Ha ->]%require_ok & H2)%bind_ok. by eapply Hk. Qed.
Lemma ensures_transaction {A : Type} (m : M A) : ensures m -> ensures (transaction m).
Proof. intros Hm s a s' H%transaction_ok. by eapply Hm. Qed.
Lemma ensures_on_constraint {A : Type} (m h : M A) : ensures m -> ensures h -> ensures (on_constraint m h).
Proof.
  intros Hm Hh s a s' H. unfold on_constraint in H. destruct (m s) as [[b|[]] s1] eqn:E; try done; [|by eapply Hh].
  injection H as -> ->. by eapply Hm.
Qed.
End Ensures.

Lemma run_transaction (R : relation DB) `{!PreOrder R} {A : Type} (m : M A) (s : DB) : R s (snd (m s)) -> R s (snd (transaction m s)).
Proof. intros H. unfold transaction. destruct (m s) as [[a|e] s']; [exact H|]. cbn. reflexivity. Qed.

Lemma run_on_constraint (R : relation DB) `{!PreOrder R} {A : Type} (m h : M A) (s : DB) :
  R s (snd (m s)) -> (forall s1, R s s1 -> R s (snd (h s1))) -> R s (snd (on_constraint m h s)).
Proof. intros Hm Hh. unfold on_constraint. destruct (m s) as [[a|[]] s']; try exact Hm. by apply Hh. Qed.

(** Reach the transaction of a public operation, to show that it changes nothing. *)
Ltac only_reads := symmetry; unfold opened; run; apply run_transaction; [apply _|]; cbv beta zeta; run.
(** The computation that is left only reads. *)
Ltac reads := apply run_last; [preserve|reflexivity].

(** Parts of a run that only read leave the database as it is. *)
Ltac read_only := repeat match goal with H : _ = (Ok _, ?s1) |- _ => is_var s1; apply read_ok in H; [subst s1|solve [preserve]] end.

Lemma updateStep_ok (now id : string) (rev : Z) (p : StepExecutionPatch) (s s' : DB) (x : StepExecutionRecord) :
  updateStepSync now id rev p s = (Ok x, s') ->
  exists r r', stepRow id s = Some r /\ stepRow id s' = Some r'
    /\ s_status r' = patched (sp_status p) (s_status r) /\ s_task_id r' = patched (sp_task_id p) (s_task_id r).
Proof.
  unfold updateStepSync, update_step. intros H. inv_run H.
  read_only.
  unfold stepRow in *. cbn. eexists _, _. split; [done|]. rewrite lookup_alter_eq.
  match goal with H : db_steps _ !! id = Some _ |- _ => rewrite H end. done.
Qed.

Lemma updateWorkflow_ok (now id : string) (rev : Z) (p : WorkflowPatch) (s s' : DB) (w : WorkflowRecord) :
  updateWorkflowSync now id rev p s = (Ok w, s') ->
  exists r r', workflowRow id s = Some r /\ workflowRow id s' = Some r' /\ w_status r' = patched (wp_status p) (w_status r)
    /\ w_cancel_requested r' = opt_bool_is (wp_cancel_requested p) true || w_cancel_requested r
    /\ w_spec_json r' = w_spec_json r /\ w_current_step_id r' = patched (wp_current_step_id p) (w_current_step_id r)
    /\ w_current_round r' = patched (wp_current_round p) (w_current_round r) /\ db_steps s' = db_steps s.
Proof.
  unfold updateWorkflowSync, update_workflow. intros H. inv_run H.
  match goal with H : workflowRecord _ _ = _ |- _ => apply read_ok in H as ->; [|apply _] end.
  unfold workflowRow in *. cbn. eexists _, _. split; [done|]. rewrite lookup_alter_eq.
  match goal with H : db_workflows s !! id = Some _ |- _ => rewrite H end. done.
Qed.

Lemma ensures_end (now now' id st : string) (rev : Z) (o e : value) :
  step_terminal st = true -> ensures (step_status id st) (updateStepSync now id rev (sp_end now' st o e)).
Proof. intros Ht s a s' (r & r' & _ & Hr' & Hs & _)%updateStep_ok. by exists r'. Qed.
Lemma ensures_bound (now id t : string) (rev : Z) : ensures (bound_to id t) (updateStepSync now id rev (sp_task t)).
Proof. intros s a s' (r & r' & _ & Hr' & _ & Ht)%updateStep_ok. by exists r'. Qed.
Lemma ensures_done (now now' id st : string) (rev : Z) :
  wf_terminal st = true -> ensures (workflow_done id) (updateWorkflowSync now id rev (wp_terminal now' st)).
Proof. intros Ht s a s' (r & r' & _ & Hr' & Hs & _)%updateWorkflow_ok. exists r'. by rewrite Hs. Qed.
Lemma ensures_cancel (now id : string) (rev : Z) : ensures (cancel_recorded id) (updateWorkflowSync now id rev wp_cancel).
Proof. intros s a s' (r & r' & _ & Hr' & _ & Hc & _)%updateWorkflow_ok. exists r'. rewrite Hc. auto. Qed.

Lemma createStep_ok (now : string) (i : CreateStepExecutionInput) (s s' : DB) (x : StepExecutionRecord) :
  createStepSync now i s = (Ok x, s') ->
  s' = set_db_steps (<[cs_step_execution_id i := new_step_row now i]> (db_steps s)) s /\ stepRow (cs_step_execution_id i) s = None.
Proof. intros H. unfold createStepSync in H. inv_run H. read_only. split; [done|]. by apply not_is_some. Qed.
Lemma createStep_row (now : string) (i : CreateStepExecutionInput) (s s' : DB) (x : StepExecutionRecord) :
  createStepSync now i s = (Ok x, s') -> stepRow (cs_step_execution_id i) s' = Some (new_step_row now i).
Proof. intros [-> _]%createStep_ok. unfold stepRow. cbn. by rewrite lookup_insert_eq. Qed.

Lemma ensures_executed (now : string) (i : CreateStepExecutionInput) :
  ensures (executed (cs_workflow_id i) (cs_step_id i) (cs_round i) (cs_attempt i)) (createStepSync now i).
Proof.
  intros s a s' H. exists (cs_step_execution_id i), (new_step_row now i). split; [by eapply createStep_row|].
  unfold same_step_key. cbn. by rewrite !String.eqb_refl, !Z.eqb_refl.
Qed.

(** ** The composites *)

(** Enter the transaction of an operation that must establish a fact and follow a run. *)
Ltac establish :=
  repeat (apply ensures_skip; intros ?); apply ensures_transaction;
  let s := fresh "s" in let x := fresh "x" in let s' := fresh "s'" in let H := fresh "Hrun" in intros s x s' H; inv_run H.

(** Carry a settled fact forward along a run from the part that established it. *)
Ltac settle L :=
  match goal with
  | H : ?P |- ?P => exact H
  | H : _ = (Ok _, ?s2) |- _ ?s2 => solve [eapply L, H]
  | H : _ ?s1 = (Ok _, ?s2) |- _ ?s2 =>
      apply (settled s1 s2); [eapply (preserved evolves); [|exact H]; preserve|eapply (preserved tasks_evolve); [|exact H]; preserve|]; settle L
  end.

Lemma stepExecByKey_some (wf step : string) (round attempt : Z) (s : DB) :
  executed wf step round attempt s -> exists r, stepExecByKey wf step round attempt s = Some r.
Proof.
  intros (k & r & Hr & Hk). destruct (stepExecByKey wf step round attempt s) as [x|] eqn:E; [by eexists|].
  pose proof (proj1 (find_row_none _ _) E k r Hr). congruence.
Qed.
Lemma stepExecByKey_executed (wf step : string) (round attempt : Z) (s : DB) (r : StepRow) :
  stepExecByKey wf step round attempt s = Some r -> executed wf step round attempt s.
Proof. intros (k & Hk & Hs)%find_row_some. by exists k, r. Qed.

Lemma ensureStepStarted_once (now now' c c' : string) (i i' : CreateStepExecutionInput) (e e' : WorkflowEventDraft) :
  cs_workflow_id i' = cs_workflow_id i -> cs_step_id i' = cs_step_id i -> cs_round i' = cs_round i -> cs_attempt i' = cs_attempt i ->
  once (ensureStepStarted now i c e) (ensureStepStarted now' i' c' e').
Proof.
  intros E1 E2 E3 E4. apply (once_settled (executed (cs_workflow_id i) (cs_step_id i) (cs_round i) (cs_attempt i))); [apply _| |].
  - establish. branch E; [read_only; by eapply stepExecByKey_executed|settle (ensures_executed now)].
  - intros s (r & Hr)%stepExecByKey_some. unfold ensureStepStarted. only_reads. rewrite E1, E2, E3, E4, Hr. reads.
Qed.

(** The execution returned is the row with that key. *)
Lemma ensureStepStarted_row (now c : string) (i : CreateStepExecutionInput) (e : WorkflowEventDraft) (s s' : DB) (x : StepExecutionRecord) (w : WorkflowRecord) (b : bool) :
  ensureStepStarted now i c e s = (Ok (x, w, b), s') ->
  exists k, stepRow k s' = Some (st_row x) /\ same_step_key (cs_workflow_id i) (cs_step_id i) (cs_round i) (cs_attempt i) (st_row x) = true.
Proof.
  intros H. unfold ensureStepStarted in H. inv_run H. branch Er.
  - apply find_row_some in Er as (key & Hk & Hs).
    match goal with H : toStep _ _ = (Ok x, _) |- _ => apply toStep_row in H as [<- ->] end. read_only. by exists key.
  - match goal with H : workflowRecord _ _ = _ |- _ => apply workflowRecord_ok in H as (v & _ & _ & ->) end.
    match goal with H : stepRecord _ _ = _ |- _ => apply stepRecord_ok in H as (q & Hq & Ht & ->) end.
    apply toStep_row in Ht as [<- _]. exists (cs_step_execution_id i). split; [done|].
    match goal with H : createStepSync _ _ _ = _ |- _ => apply createStep_row in H as Hnew end.
    match goal with H : pointAt _ _ _ _ _ = _ |- _ => apply (preserved evolves) in H as He1; [|preserve] end.
    match goal with H : appendWorkflowEventAuto _ _ _ _ = _ |- _ => apply (preserved evolves) in H as He2; [|preserve] end.
    destruct (ev_steps _ _ (PreOrder_Transitive _ _ _ He1 He2) _ _ Hnew) as (r & Hr & Hev). unfold stepRow in Hq. rewrite Hr in Hq. apply (inj Some) in Hq as <-.
    destruct (se_identity _ _ Hev) as (_ & Hw & Hs & Hn & Ha & _). unfold same_step_key. rewrite Hw, Hs, Hn, Ha. cbn.
    by rewrite !String.eqb_refl, !Z.eqb_refl.
Qed.

Lemma advanceWorkflow_once (now now' w w' c c' : string) (e1 e1' : WorkflowEventDraft) (e2 e2' : option WorkflowEventDraft)
    (i i' : CreateStepExecutionInput) (e3 e3' : WorkflowEventDraft) :
  cs_workflow_id i' = cs_workflow_id i -> cs_step_id i' = cs_step_id i -> cs_round i' = cs_round i -> cs_attempt i' = cs_attempt i ->
  once (advanceWorkflow now w e1 e2 i c e3) (advanceWorkflow now' w' e1' e2' i' c' e3').
Proof.
  intros E1 E2 E3 E4. apply (once_settled (executed (cs_workflow_id i) (cs_step_id i) (cs_round i) (cs_attempt i))); [apply _| |].
  - establish. branch E; [read_only; by eapply stepExecByKey_executed|settle (ensures_executed now)].
  - intros s (r & Hr)%stepExecByKey_some. unfold advanceWorkflow. only_reads. rewrite E1, E2, E3, E4, Hr. reads.
Qed.

Lemma bindStepTaskOnce_once (now now' id t w w' : string) (e e' : WorkflowEventDraft) :
  once (bindStepTaskOnce now id t w e) (bindStepTaskOnce now' id t w' e').
Proof.
  apply (once_settled (bound_to id t)); [apply _| |].
  - establish. branch E; [read_only|settle (ensures_bound now)]. exists a0. split; [done|]. by apply opt_is_spec.
  - intros s (r & Hr & Ht). unfold bindStepTaskOnce, theStep. only_reads. simplify_eq. rewrite Ht. cbn [opt_is]. rewrite String.eqb_refl. reads.
Qed.

Lemma ensures_completed (now id w : string) (o : value) (cr : option Z) (c : value) (e : WorkflowEventDraft) :
  ensures (step_status id "completed") (completeStepAndCheckpoint now id o w cr c e).
Proof. establish. branch E; [read_only; bsimpl; by exists a0|settle (fun rev o e => ensures_end now now id "completed" rev o e eq_refl)]. Qed.

Lemma completeStep_once (now now' id w w' : string) (o o' : value) (cr cr' : option Z) (c c' : value) (e e' : WorkflowEventDraft) :
  once (completeStepAndCheckpoint now id o w cr c e) (completeStepAndCheckpoint now' id o' w' cr' c' e').
Proof.
  apply (once_settled (step_status id "completed")); [apply _|apply ensures_completed|].
  intros s (r & Hr & Ht & _). unfold completeStepAndCheckpoint, theStep. only_reads. simplify_eq. rewrite Ht. reads.
Qed.

Lemma terminalizeWorkflow_once (now now' id st st' : string) (e1 e1' : option WorkflowEventDraft) (e2 e2' : WorkflowEventDraft) :
  wf_terminal st = true -> once (terminalizeWorkflow now id st e1 e2) (terminalizeWorkflow now' id st' e1' e2').
Proof.
  intros Hst. apply (once_settled (workflow_done id)); [apply _| |].
  - establish. branch E; [read_only|rewrite Hst in *; settle (fun rev => ensures_done now now id st rev Hst)].
    exists a0. split; [done|]. by apply orb_true_iff in E as [->%String.eqb_eq|E].
  - intros s (r & Hr & Ht). unfold terminalizeWorkflow, theWorkflow. only_reads. simplify_eq. rewrite Ht, orb_true_r. reads.
Qed.

Lemma cancelStepAndWorkflow_once (now now' w : string) (id id' : option string) (e e' : WorkflowEventDraft) :
  once (cancelStepAndWorkflow now id w e) (cancelStepAndWorkflow now' id' w e').
Proof.
  apply (once_settled (workflow_done w)); [apply _| |].
  - establish. branch E; [read_only; by exists a0|settle (fun rev => ensures_done now now w "cancelled" rev eq_refl)].
  - intros s (r & Hr & Ht). unfold cancelStepAndWorkflow, theWorkflow. only_reads. simplify_eq. rewrite Ht. reads.
Qed.

Lemma recordCancellationIntent_once (now now' w : string) : once (recordCancellationIntent now w) (recordCancellationIntent now' w).
Proof.
  apply (once_settled (cancel_recorded w)); [apply _| |].
  - establish. branch E; [read_only|settle (ensures_cancel now w)]. exists a0. split; [done|]. by apply orb_true_iff in E.
  - intros s (r & Hr & Ht). unfold recordCancellationIntent, theWorkflow. only_reads. simplify_eq.
    assert (w_cancel_requested r || wf_terminal (w_status r) = true) as -> by (apply orb_true_iff; tauto). reads.
Qed.

Lemma recordCompletionEvidence_once (now now' id w w' d d' : string) (v v' : value) :
  once (recordCompletionEvidence now id w v d) (recordCompletionEvidence now' id w' v' d').
Proof.
  apply (once_settled (evidenced id)); [apply _| |].
  - establish. branch E. { by destruct (db_evidence s' !! id) eqn:E'; [eexists|]. }
    unfold evidenced. cbn. rewrite lookup_insert_eq. by eexists.
  - intros s (r & Hr). unfold recordCompletionEvidence. only_reads. unfold evidenced in *. rewrite Hr. reads.
Qed.

Lemma recordStallRound_once (now now' w fp fp' : string) (round : Z) (v v' : value) :
  once (recordStallRound now w round fp v) (recordStallRound now' w round fp' v').
Proof.
  apply (once_settled (stall_recorded w round)); [apply _| |].
  - establish. branch E.
    + destruct (List.find (is_stall w round) (db_stall_rounds s')) as [r|] eqn:E'; [|done]. apply List.find_some in E' as [Hin Hs]. by exists r.
    + eexists. cbn. split; [apply in_or_app; right; by left|]. unfold is_stall. cbn. by rewrite String.eqb_refl, Z.eqb_refl.
  - intros s (r & Hr & Hs). unfold recordStallRound. only_reads.
    destruct (List.find (is_stall w round) (db_stall_rounds s)) as [x|] eqn:E; [reads|]. by rewrite (List.find_none _ _ E r Hr) in Hs.
Qed.

(** Two facts at once. *)
#[global] Instance settled_and (P Q : DB -> Prop) : Settled P -> Settled Q -> Settled (fun s => P s /\ Q s).
Proof. intros HP HQ s s' He Ht [H1 H2]. split; by eapply settled. Qed.

Definition step_over (id : string) (s : DB) : Prop := exists st, step_status id st s.
#[global] Instance step_over_settled (id : string) : Settled (step_over id).
Proof. intros s s' He Ht [st H]. exists st. by eapply settled. Qed.
Lemma ensures_over (now now' id : string) (rev : Z) (o e : value) : ensures (step_over id) (updateStepSync now id rev (sp_end now' "failed" o e)).
Proof. intros s a s' H. exists "failed". by eapply ensures_end. Qed.

Section Fail.
Context (now id w : string) (e1 e2 : WorkflowEventDraft) (v : value).

Lemma fail_workflow_done : ensures (workflow_done w) (failStepAndWorkflow now id w e1 e2 v).
Proof.
  establish. branch E; [|settle (fun rev => ensures_done now now w "failed" rev eq_refl)].
  assert (workflow_done w s') as Hd; [|done]. read_only. by eexists.
Qed.

Lemma fail_step_over : ensures (step_over id) (failStepAndWorkflow now id w e1 e2 v).
Proof.
  establish. branch E'; branch E; try settle (ensures_over now now id).
  all: match goal with Hr : stepRow id ?s0 = Some ?r |- _ => assert (step_over id s0);
    [exists (s_status r), r; split; [done|]; split; [done|]; by apply orb_true_iff in E as [->%String.eqb_eq|E]|] end.
  all: settle (ensures_over now now id).
Qed.
End Fail.

Lemma failStepAndWorkflow_once (now now' id w : string) (e1 e1' e2 e2' : WorkflowEventDraft) (v v' : value) :
  once (failStepAndWorkflow now id w e1 e2 v) (failStepAndWorkflow now' id w e1' e2' v').
Proof.
  apply (once_settled (fun s => workflow_done w s /\ step_over id s)); [apply _| |].
  - intros s a s' H. split; [by eapply fail_workflow_done|by eapply fail_step_over].
  - intros s [(r & Hr & Ht) (st & q & Hq & <- & Hqt)]. unfold failStepAndWorkflow, theStep. only_reads. simplify_eq.
    rewrite Hqt, orb_true_r. cbn [unless]. unfold workflowRow_bang. run. simplify_eq. rewrite Ht. reads.
Qed.

(** ** Human decisions *)

Lemma decided_alter (id st : string) (f : HumanRequestRow -> HumanRequestRow) (s : DB) (r : HumanRequestRow) :
  humanRow id s = Some r -> (forall r, h_status (f r) = st) -> st <> "pending" ->
  decided id st (set_db_human_requests (alter f id (db_human_requests s)) s).
Proof. intros Hr Hf Hst. exists (f r). unfold humanRow in *. cbn. by rewrite lookup_alter_eq, Hr. Qed.

Lemma answerHumanRequest_once (now now' id v v' : string) : once (answerHumanRequestInput now id v) (answerHumanRequestInput now' id v').
Proof.
  apply (once_settled (decided id "answered")); [apply _| |].
  - unfold answerHumanRequestInput, update_human. establish. branch E; read_only; [bsimpl; by eexists|]. by eapply decided_alter.
  - intros s (r & Hr & Ht & _). unfold answerHumanRequestInput, theHuman. only_reads. simplify_eq. rewrite Ht. reads.
Qed.

Lemma approveHumanRequest_once (now now' id : string) : once (approveHumanRequest now id) (approveHumanRequest now' id).
Proof.
  apply (once_settled (decided id "approved")); [apply _| |].
  - unfold approveHumanRequest, respond, update_human. establish. branch E; read_only; [bsimpl; by eexists|]. by eapply decided_alter.
  - intros s (r & Hr & Ht & _). unfold approveHumanRequest, theHuman. only_reads. simplify_eq. rewrite Ht. reads.
Qed.

(** ** Tasks *)

Section TaskFacts.
Context (id : string).

Definition keyed (key : string) (s : DB) : Prop := exists k r, taskRow k s = Some r /\ t_idempotency_key r = Some key.
#[global] Instance keyed_settled (key : string) : Settled (keyed key).
Proof.
  intros s s' _ H (k & r & Hr & Hk). destruct (tv_tasks _ _ H k r Hr) as (r' & Hr' & E). exists k, r'. split; [done|].
  destruct (ta_identity _ _ E) as (_ & -> & _). done.
Qed.

(** The task [id] was created for [key] with the request fingerprint [fp]. *)
Definition created (key fp : string) (s : DB) : Prop :=
  exists r, taskRow id s = Some r /\ t_task_id r = id /\ t_idempotency_key r = Some key /\ t_request_fingerprint r = Some fp.
#[global] Instance created_settled (key fp : string) : Settled (created key fp).
Proof.
  intros s s' _ H (r & Hr & Hi & Hk & Hf). destruct (tv_tasks _ _ H id r Hr) as (r' & Hr' & E). exists r'. split; [done|].
  destruct (ta_identity _ _ E) as (-> & -> & -> & _). done.
Qed.

Definition ingested (q : Z) (s : DB) : Prop := exists r, taskRow id s = Some r /\ q < expected_source r.
#[global] Instance ingested_settled (q : Z) : Settled (ingested q).
Proof.
  intros s s' _ H (r & Hr & Hq). destruct (tv_tasks _ _ H id r Hr) as (r' & Hr' & E). exists r'. split; [done|].
  pose proof (ta_expected _ _ E). lia.
Qed.

Definition has_result (s : DB) : Prop := is_Some (db_task_results s !! id).
#[global] Instance has_result_settled : Settled has_result.
Proof. intros s s' _ H [r Hr]. destruct (tv_results _ _ H id r Hr) as (r' & Hr' & _). by exists r'. Qed.

Definition terminal_recorded (s : DB) : Prop := exists r, taskRow id s = Some r /\ t_terminal_event_recorded r = true.
#[global] Instance terminal_recorded_settled : Settled terminal_recorded.
Proof.
  intros s s' _ H (r & Hr & Ht). destruct (tv_tasks _ _ H id r Hr) as (r' & Hr' & E). exists r'. split; [done|]. by apply (ta_recorded _ _ E).
Qed.
End TaskFacts.

Lemma task_by_key_some (key : string) (s : DB) : keyed key s -> exists r, task_by_key key s = Some r.
Proof.
  intros (k & r & Hr & Hk). destruct (task_by_key key s) as [x|] eqn:E; [by eexists|].
  pose proof (proj1 (find_row_none _ _) E k r Hr) as Hf. cbv beta in Hf. rewrite Hk in Hf. cbn in Hf. by rewrite String.eqb_refl in Hf.
Qed.
Lemma task_by_key_keyed (key : string) (s : DB) (r : TaskRow) : task_by_key key s = Some r -> keyed key s.
Proof. intros (k & Hk & Hs)%find_row_some. exists k, r. split; [done|]. by apply opt_is_spec. Qed.

Lemma ensures_keyed (now key : string) (i : CreateTaskInput) : ct_idempotency_key i = Some key -> ensures (keyed key) (createTaskSync now i).
Proof.
  intros Hk s a s' H. unfold createTaskSync, insert_task in H. inv_run H. read_only.
  eexists (ct_task_id i), _. unfold taskRow. cbn. rewrite lookup_insert_eq. split; [done|]. done.
Qed.

Lemma createTask_once (now now' key : string) (i i' : CreateTaskInput) (e e' : TaskEventInput) :
  ct_idempotency_key i = Some key -> ct_idempotency_key i' = Some key -> once (createTaskIdempotently now i e) (createTaskIdempotently now' i' e').
Proof.
  intros Hi Hi'. apply (once_settled (keyed key)); [apply _| |].
  - apply ensures_skip. intros _. apply ensures_require. intros k Hk. assert (k = key) as -> by congruence.
    do 3 (apply ensures_skip; intros ?). apply ensures_on_constraint.
    + apply ensures_transaction. intros s x s' H. inv_run H. branch E; [|settle (ensures_keyed now key i Hi)].
      unfold resolveExisting in *. read_only. by eapply task_by_key_keyed.
    + intros s x s' H. inv_run H. branch E; [|done]. unfold resolveExisting in *. read_only. by eapply task_by_key_keyed.
  - intros s (r & Hr)%task_by_key_some. symmetry. unfold createTaskIdempotently, opened. run. simplify_eq.
    apply run_on_constraint; [apply _| |intros ? <-]; [apply run_transaction; [apply _|]|]; run; rewrite Hr; reads.
Qed.

Lemma persistResult_once (now id st : string) (res : option AgentTaskResultV1) : ensures (has_result id) (persistResult now id st res).
Proof.
  intros s a s' H. unfold persistResult in H. inv_run H. branch E; [by exists t|].
  unfold writeResultRow, update_task in *. inv_run H. unfold has_result. cbn. rewrite lookup_insert_eq. by eexists.
Qed.

Lemma persistTaskResult_once (now now' id st st' : string) (res res' : option AgentTaskResultV1) :
  once (persistTaskResultDurable now id st res) (persistTaskResultDurable now' id st' res').
Proof.
  apply (once_settled (has_result id)); [apply _| |].
  - establish. settle (persistResult_once now id).
  - intros s (r & Hr). unfold persistTaskResultDurable, persistResult, theTask. only_reads. rewrite Hr. reads.
Qed.

Lemma terminalizeTask_once (now now' id : string) (rev rev' : Z) (p p' : TaskPatch) (e e' : TaskEventInput) :
  once (terminalizeTaskDurable now id rev p e) (terminalizeTaskDurable now' id rev' p' e').
Proof.
  apply (once_settled (terminal_recorded id)); [apply _| |].
  - unfold terminalizeTaskDurable, recordTerminal, update_task, taskRecord. establish.
    unfold taskRow in *. cbn in *. match goal with H : alter _ _ _ !! _ = Some _ |- _ => apply lookup_alter_Some in H as [(_ & q & Hq & ->)|[]]; [|done] end.
    read_only. eexists. unfold taskRow. cbn. by rewrite lookup_alter_eq, Hq.
  - intros s (r & Hr & Ht). unfold terminalizeTaskDurable, theTask. only_reads. simplify_eq. by rewrite Ht in *.
Qed.

Lemma ingestSourceEvent_once (now now' id : string) (q : Z) (ev ev' : IngestSourceEvent) :
  once (ingestSourceEventDurable now id q ev) (ingestSourceEventDurable now' id q ev').
Proof.
  apply (once_settled (ingested id q)); [apply _| |].
  - establish. branch E; [read_only; bsimpl; by exists a3|]. bsimpl.
    match goal with H : appendTaskEventSync _ _ _ _ = _ |- _ => apply (preserved tasks_evolve) in H; [|apply _] end.
    match goal with H : tasks_evolve s ?s0, Hc : update_task _ _ ?s0 = (_, ?s1) |- _ =>
      destruct (tv_tasks _ _ H id _ ltac:(eassumption)) as (r & Hr & _);
      assert (ingested id q s1) by (apply modify_ok in Hc as ->; eexists; unfold taskRow; cbn; rewrite lookup_alter_eq, Hr;
        split; [done|]; unfold expected_source; cbn; lia) end.
    settle tt.
  - intros s (r & Hr & Hq). unfold ingestSourceEventDurable, theTask, opened. only_reads. simplify_eq.
    rewrite (proj2 (Z.ltb_lt _ _) Hq). reads.
Qed.

(** *** Which task a repeated creation returns *)

Lemma ensures_created (now key fp : string) (i : CreateTaskInput) :
  ct_idempotency_key i = Some key -> ct_request_fingerprint i = Some fp -> ensures (created (ct_task_id i) key fp) (createTaskSync now i).
Proof.
  intros Hk Hf s a s' H. unfold createTaskSync, insert_task in H. inv_run H. read_only.
  eexists. unfold taskRow. cbn. rewrite lookup_insert_eq. split; [done|]. split; [done|]. split; [done|]. cbn.
  rewrite Hf in *. unfold boundOpt, boundString in *. repeat case_match; by simplify_eq/=.
Qed.

Lemma toTask_row (r : TaskRow) (s s' : DB) (t : TaskRecord) : toTask r s = (Ok t, s') -> tk_row t = r /\ s' = s.
Proof. unfold toTask. intros H. inv_run H. done. Qed.

Lemma toTask_outcome (r : TaskRow) (s : DB) : (exists t, toTask r s = (Ok t, s)) \/ toTask r s = (Err corruption, s).
Proof.
  unfold toTask, mbind, M_bind, lift. destruct (decodeJson _ _ _) as [v|c] eqn:E; [left; by eexists|right].
  unfold decodeJson in E. repeat case_match; congruence.
Qed.

Lemma resolve_created (key fp : string) (s s' : DB) (row : TaskRow) (x : TaskRecord * bool) :
  store_ok s -> task_by_key key s = Some row -> resolveExisting fp row s = (Ok x, s') -> created (t_task_id (tk_row (fst x))) key fp s'.
Proof.
  intros Hok (k & Hk & Hs)%find_row_some H. unfold resolveExisting in H. inv_run H.
  match goal with H : toTask _ _ = _ |- _ => apply toTask_row in H as [<- ->] end. cbn.
  apply opt_is_spec in Hs. exists (tk_row a0). destruct (lo_row _ _ _ _ _ _ (ok_task_log _ Hok) k _ Hk) as [-> _].
  split; [done|]. split; [done|]. split; [done|by apply opt_is_spec].
Qed.

Lemma on_constraint_ok {A : Type} (m h : M A) (s s' : DB) (a : A) :
  on_constraint (transaction m) h s = (Ok a, s') -> m s = (Ok a, s') \/ h s = (Ok a, s').
Proof. unfold on_constraint, transaction. destruct (m s) as [[b|[]] s1]; auto; discriminate. Qed.

Lemma taskRecord_ok (id : string) (s s' : DB) (t : TaskRecord) : taskRecord id s = (Ok t, s') -> taskRow id s = Some (tk_row t) /\ s' = s.
Proof. unfold taskRecord. intros H. inv_run H. by match goal with H : toTask _ _ = _ |- _ => apply toTask_row in H as [-> ->] end. Qed.

Lemma createTask_created (now key fp : string) (i : CreateTaskInput) (e : TaskEventInput) (s s' : DB) (x : TaskRecord * bool) :
  store_ok s -> ct_idempotency_key i = Some key -> ct_request_fingerprint i = Some fp -> createTaskIdempotently now i e s = (Ok x, s') ->
  isSafeId key = true /\ (fp =s "") = false /\ created (t_task_id (tk_row (fst x))) key fp s'.
Proof.
  intros Hok Hi Hf H. unfold createTaskIdempotently in H. inv_run H. rewrite Hi, Hf in *.
  repeat match goal with H : Some _ = Some _ |- _ => apply (inj Some) in H as <- end. split; [done|].
  split; [by apply negb_true_iff|].
  match goal with H : on_constraint _ _ _ = _ |- _ => apply on_constraint_ok in H as [H|H]; inv_run H end; branch E;
    [by eapply resolve_created| |by eapply resolve_created|done].
  match goal with H : taskRecord _ _ = _ |- _ => pose proof (taskRecord_ok _ _ _ _ H) as [Hrow Hsame]; rewrite <- Hsame in Hrow end. cbn.
  assert (created (ct_task_id i) key fp s') as (r & Hr & Hid & Hrest) by settle (ensures_created now key fp i Hi Hf).
  rewrite Hr in Hrow. apply (inj Some) in Hrow as <-. rewrite Hid. by exists r.
Qed.

Lemma task_by_key_created (id key fp : string) (s : DB) :
  store_ok s -> created id key fp s -> exists r, taskRow id s = Some r /\ task_by_key key s = Some r /\ t_request_fingerprint r = Some fp.
Proof.
  intros Hok (r & Hr & Hid & Hk & Hf). exists r. split; [done|]. split; [|done].
  destruct (task_by_key_some key s) as [q Hq]; [by exists id, r|]. rewrite Hq. f_equal.
  apply find_row_some in Hq as (k & Hq & Hs%opt_is_spec).
  assert (k = id) as -> by exact (ok_task_keys _ Hok k id q r key Hq Hr Hs Hk). unfold taskRow in Hr. congruence.
Qed.

Lemma run_require_ok {A B : Type} (o : option A) (e : err_code) (k : A -> M B) (s : DB) (a : A) : o = Some a -> (require o e ≫= k) s = k a s.
Proof. by intros ->. Qed.
Lemma run_check_ok {B : Type} (b : bool) (e : err_code) (k : unit -> M B) (s : DB) : b = true -> (check b e ≫= k) s = k tt s.
Proof. by intros ->. Qed.

(** A transaction that fails leaves the database as it was. *)
Lemma failed_transaction {A : Type} (m : M A) (d d' : DB) (e : err_code) : (opened;; transaction m) d = (Err e, d') -> d' = d.
Proof.
  unfold opened, check, gets, transaction, mbind, M_bind. destruct (negb (db_closed d)); cbn; [|by intros [= _ <-]]. destruct (m d) as [[a|e'] d1]; by intros [= ].
Qed.

(** What [createWorkflowWithLifecycleEvents] leaves: nothing, or the new row. *)
Lemma create_workflow_run (now : string) (i : CreateWorkflowInput) (c : value) (e1 e2 : WorkflowEventDraft) (d : DB) :
  let d' := snd (createWorkflowWithLifecycleEvents now i c e1 e2 d) in
  d' = d \/ (workflowRow (cw_workflow_id i) d = None /\ exists r, workflowRow (cw_workflow_id i) d' = Some r /\
    encodeJson (cw_spec i) SIZE_LIMITS.spec_json = Ok (w_spec_json r) /\ encodeOpt (cw_input_values i) SIZE_LIMITS.metadata_json = Ok (w_input_values_json r)).
Proof.
  intros d'. unfold d'. destruct (createWorkflowWithLifecycleEvents now i c e1 e2 d) as [[wf|e] d1] eqn:H; cbn [snd].
  - right. unfold createWorkflowWithLifecycleEvents in H. inv_run H.
    match goal with H : createWorkflowSync _ _ _ = _ |- _ => unfold createWorkflowSync in H; rename H into Hc end. inv_run Hc. read_only.
    split; [by apply not_is_some|].
    repeat match goal with
    | H : saveContextOpt _ _ _ _ _ = _ |- _ => apply (preserved evolves) in H; [|preserve]
    | H : appendWorkflowEventAuto _ _ _ _ = _ |- _ => apply (preserved evolves) in H; [|apply _]
    | H : workflowRecord _ _ = _ |- _ => apply (preserved eq) in H; [|apply _]; subst
    end.
    match goal with H1 : evolves ?a ?b, H2 : evolves ?b ?c', H3 : evolves ?c' ?e |- _ => assert (evolves a e) as Hev by (do 2 (etransitivity; [eassumption|]); done) end.
    edestruct (ev_workflows _ _ Hev (cw_workflow_id i)) as (r & Hr & Hi); [cbn; by rewrite lookup_insert_eq|]. exists r. split; [done|].
    destruct Hi as [(_ & _ & _ & -> & -> & _) _ _ _ _ _ _ _ _ _]. done.
  - left. unfold createWorkflowWithLifecycleEvents in H. by apply failed_transaction in H.
Qed.

(** ** Creation, rejection, and transitions that may recur *)

Lemma createWorkflow_once (now now' : string) (i i' : CreateWorkflowInput) (c c' : value) (e1 e1' e2 e2' : WorkflowEventDraft) :
  cw_workflow_id i' = cw_workflow_id i -> once (createWorkflowWithLifecycleEvents now i c e1 e2) (createWorkflowWithLifecycleEvents now' i' c' e1' e2').
Proof.
  intros Hid. apply (once_settled (fun s => is_Some (workflowRow (cw_workflow_id i) s))).
  - intros s s' H _ [r Hr]. destruct (ev_workflows _ _ H _ r Hr) as (r' & Hr' & _). by exists r'.
  - intros s a s' H. unfold createWorkflowWithLifecycleEvents in H. inv_run H.
    match goal with H : workflowRecord _ _ = _ |- _ => apply workflowRecord_ok in H as (v & Hv & _ & ->) end. by exists v.
  - intros s [r Hr]. destruct (createWorkflowWithLifecycleEvents now' i' c' e1' e2' s) as [[a|e] s1] eqn:E; [exfalso|by apply failed_transaction in E].
    unfold createWorkflowWithLifecycleEvents in E. inv_run E. match goal with H : createWorkflowSync _ _ _ = _ |- _ => unfold createWorkflowSync in H; inv_run H end.
    match goal with H : validateCreateWorkflow _ _ = _ |- _ => apply read_ok in H; [subst|preserve] end.
    match goal with H : negb (is_some (workflowRow _ _)) = true |- _ => cbn [cw_workflow_id] in H; by rewrite Hid, Hr in H end.
Qed.

Definition rejected (id : string) (s : DB) : Prop :=
  exists r, humanRow id s = Some r /\ h_status r = "rejected" /\ workflow_done (h_workflow_id r) s.
#[global] Instance rejected_settled (id : string) : Settled (rejected id).
Proof.
  intros s s' H Ht (r & Hr & Hs & Hd). destruct (ev_human _ _ H id r Hr) as (r' & Hr' & E). exists r'. split; [done|].
  split; [rewrite <- Hs; apply (he_decided _ _ E); by rewrite Hs|]. destruct (he_identity _ _ E) as (_ & -> & _). by apply (settled s s').
Qed.
Lemma rejectHumanRequest_once (now now' id : string) (e e' : WorkflowEventDraft) :
  once (rejectHumanRequestAndFailWorkflow now id e) (rejectHumanRequestAndFailWorkflow now' id e').
Proof.
  apply (once_settled (rejected id)); [apply _| |].
  - establish.
    assert (exists r, humanRow id s0 = Some r /\ h_status r = "rejected" /\ h_workflow_id r = h_workflow_id a0) as (r & Hr & Hs & Hw).
    { unfold unless in H2. destruct (h_status a0 =s "rejected") eqn:Es; [injection H2 as _ <-; bsimpl; by exists a0|].
      unfold respond, update_human in H2. inv_run H2. eexists. unfold humanRow in *. cbn. by rewrite lookup_alter_eq, H. }
    read_only. match goal with H : unless (wf_terminal _) _ _ = _ |- _ => rename H into Hf end. match goal with |- rejected id ?x => rename x into d end.
    assert (workflow_done (h_workflow_id a0) d) as Hd.
    { unfold unless in Hf. destruct (wf_terminal (w_status a4)) eqn:Et; [injection Hf as _ <-; by exists a4|]. inv_run Hf.
      settle (fun rev => ensures_done now now (h_workflow_id a0) "failed" rev eq_refl). }
    apply (preserved evolves) in Hf; [|unfold unless; destruct (wf_terminal _); preserve]. destruct (ev_human _ _ Hf id r Hr) as (r' & Hr' & E). exists r'. split; [done|].
    split; [rewrite <- Hs; apply (he_decided _ _ E); by rewrite Hs|]. destruct (he_identity _ _ E) as (_ & -> & _). by rewrite Hw.
  - intros s (r & Hr & Hs & q & Hq & Ht). unfold rejectHumanRequestAndFailWorkflow, theHuman. only_reads. simplify_eq. rewrite Hs, String.eqb_refl. cbn [unless]. unfold workflowRow_bang.
    run. simplify_eq. rewrite Ht. reads.
Qed.

(** A repetition right after the success changes nothing. *)
Definition again {A B : Type} (m : M A) (m' : M B) : Prop := forall s a s', m s = (Ok a, s') -> snd (m' s') = s'.

(** Events leave the statuses of workflows alone. *)
Definition same_status : relation DB := fun s s' => forall k, w_status <$> workflowRow k s' = w_status <$> workflowRow k s.
#[global] Instance same_status_preorder : PreOrder same_status.
Proof. split; [done|]. intros a b c H1 H2 k. by rewrite H2. Qed.
Lemma ss_modify (f : DB -> DB) : (forall s, db_workflows (f s) = db_workflows s) -> Preserves same_status (modify f).
Proof. intros H s k. unfold workflowRow. cbn. by rewrite H. Qed.
Lemma ss_update (j : string) (f : WorkflowRow -> WorkflowRow) : (forall r, w_status (f r) = w_status r) -> Preserves same_status (update_workflow j f).
Proof.
  intros H s k. unfold workflowRow. cbn. destruct (decide (j = k)) as [->|Hne]; [|by rewrite lookup_alter_ne].
  rewrite lookup_alter_eq. destruct (db_workflows s !! k); cbn; [by rewrite H|done].
Qed.
#[local] Hint Extern 5 (Preserves same_status (modify _)) => (apply ss_modify; done) : typeclass_instances.
#[local] Hint Extern 5 (Preserves same_status (update_workflow _ _)) => (apply ss_update; done) : typeclass_instances.

Definition in_status (id st : string) (s : DB) : Prop := exists r, workflowRow id s = Some r /\ w_status r = st.
Lemma same_status_in (id st : string) (s s' : DB) : same_status s s' -> in_status id st s -> in_status id st s'.
Proof. intros H (r & Hr & <-). specialize (H id). rewrite Hr in H. destruct (workflowRow id s') as [r'|] eqn:Er; [|done]. injection H as H. by exists r'. Qed.
(** A status that is written, and the event after it. *)
Lemma moved_in_status (now id st : string) (rev : Z) (p : WorkflowPatch) (e : WorkflowEventDraft) (s s1 s2 : DB) (w : WorkflowRecord) (u : unit) : wp_status p = Some st ->
  updateWorkflowSync now id rev p s = (Ok w, s1) -> appendWorkflowEventAuto now id e s1 = (Ok u, s2) -> in_status id st s2.
Proof.
  intros Hp (r & r' & _ & Hr' & Hs & _)%updateWorkflow_ok He. apply (preserved same_status) in He; [|preserve]. apply (same_status_in _ _ s1); [done|].
  exists r'. split; [done|]. by rewrite Hs, Hp.
Qed.

Lemma startWorkflow_again (now now' w : string) (e e' : WorkflowEventDraft) : again (startWorkflowDurably now w e) (startWorkflowDurably now' w e').
Proof.
  intros s a s' H. assert (in_status w "running" s') as (r & Hr & Hs).
  { unfold startWorkflowDurably in H. inv_run H. branch E; [read_only; bsimpl; by eexists|]. read_only. eapply (moved_in_status now w "running"); [|eassumption|eassumption]; reflexivity. }
  unfold startWorkflowDurably, theWorkflow. only_reads. simplify_eq. rewrite Hs. reads.
Qed.
Lemma resumeWorkflow_again (now now' w : string) (e e' : WorkflowEventDraft) : again (resumeWorkflowRunning now w e) (resumeWorkflowRunning now' w e').
Proof.
  intros s a s' H. assert (in_status w "running" s') as (r & Hr & Hs).
  { unfold resumeWorkflowRunning in H. inv_run H. branch E; [read_only; bsimpl; by eexists|]. read_only. eapply (moved_in_status now w "running"); [|eassumption|eassumption]; reflexivity. }
  unfold resumeWorkflowRunning, theWorkflow. only_reads. simplify_eq. rewrite Hs. reads.
Qed.
Lemma terminalizeWorkflow_again (now now' w st : string) (e1 e1' : option WorkflowEventDraft) (e2 e2' : WorkflowEventDraft) :
  again (terminalizeWorkflow now w st e1 e2) (terminalizeWorkflow now' w st e1' e2').
Proof.
  intros s a s' H. assert (exists r, workflowRow w s' = Some r /\ (w_status r =s st) || wf_terminal (w_status r) = true) as (r & Hr & Hs).
  { unfold terminalizeWorkflow in H. inv_run H. branch E; [read_only; by eexists|]. read_only.
    match goal with H : updateWorkflowSync _ _ _ ?p _ = _ |- _ => assert (Hp : wp_status p = Some st) by (by destruct (wf_terminal st)) end.
    edestruct (moved_in_status now w st) as (r & Hr & Hs); [exact Hp|eassumption|eassumption|]. exists r. split; [done|]. by rewrite Hs, String.eqb_refl. }
  unfold terminalizeWorkflow, theWorkflow. only_reads. simplify_eq. rewrite Hs. reads.
Qed.
Lemma pause_again (now now' : string) (i i' : CreateHumanRequestInput) (st st' : string) (e e' : WorkflowEventDraft) :
  ch_request_id i' = ch_request_id i -> ch_workflow_id i' = ch_workflow_id i -> again (createHumanRequestAndPause now i st e) (createHumanRequestAndPause now' i' st' e').
Proof.
  intros Eq Ew s a s' H. assert (is_Some (humanRow (ch_request_id i) s') /\ exists r, workflowRow (ch_workflow_id i) s' = Some r /\ negb (w_status r =s "running") = true) as [[h Hh] (r & Hr & Hs)].
  { unfold createHumanRequestAndPause in H. inv_run H. unfold humanRecord in H7. inv_run H7. read_only. split; [by eexists|].
    apply (preserved same_status) in H4; [|unfold unless, insert_human; destruct (is_some _); preserve].
    destruct (same_status_in (ch_workflow_id i) (w_status a4) _ _ H4) as (r & Hr & Hs); [by eexists|].
    unfold unless in H6. destruct (negb (w_status a4 =s "running")) eqn:En; [injection H6 as _ <-; exists r; by rewrite Hs|]. inv_run H6.
    edestruct (moved_in_status now (ch_workflow_id i) st) as (q & Hq & Hqs); [|eassumption|eassumption|]; [done|]. exists q. split; [done|]. rewrite Hqs.
    by apply orb_true_iff in H2 as [->%String.eqb_eq| ->%String.eqb_eq]. }
  unfold createHumanRequestAndPause, theWorkflow. symmetry. unfold opened. run. apply run_transaction; [apply _|]. rewrite Eq, Ew. run. simplify_eq. rewrite Hh. cbn [is_some unless]. rewrite Hs. reads.
Qed.

(** C12. What is recorded is not undone by the operations that record: after any sequence of
    store operations, other than those that prune or delete rows and an update that clears the
    task of a step, every workflow, step execution, human request and task still exists
    with its identity; a terminal workflow or step keeps its status (a step also its
    output); rounds, task and failure counters, revisions and event numbers have not
    decreased; a cancellation intent, the task bound to a step, a decided human request,
    recorded evidence and the result of a task are unchanged; a task whose terminal event was
    recorded stays so; and the event logs of workflows and of tasks extend the earlier
    ones.  (The table of leases is not covered.) *)
Theorem store_never_regresses (s s' : DB) : rtc store_step s s' -> evolves s s' /\ tasks_evolve s s'.
Proof. intros H. split; [by apply store_run_evolves|by apply tasks_store_run]. Qed.

(** C17. The store's composites for the runtime take effect at most once.  At any later
    time, and with any other timestamp, event, output or status, a repetition changes nothing
    after a success of: the creation of the same workflow; the start of the same step
    execution, by [ensureStepStarted] or [advanceWorkflow]; the binding of the same task to
    the same step execution; the completion of the same step execution; the terminalization
    of the same workflow with a terminal status, its failure with a step, its cancellation
    and the record of the intent to cancel it; the completion evidence of the same step
    execution and the stall record of the same round; and the answer, the approval and the
    rejection of the same request.  The transitions that may recur later (start, resume,
    pause for a request, and a terminalization with [blocked]) change nothing when
    repeated right after they succeeded. *)
Theorem composites_exactly_once (now now' id w t : string) :
  (forall c c' i i' e e', cs_workflow_id i' = cs_workflow_id i -> cs_step_id i' = cs_step_id i -> cs_round i' = cs_round i ->
     cs_attempt i' = cs_attempt i -> once (ensureStepStarted now i c e) (ensureStepStarted now' i' c' e'))
  /\ (forall c c' e1 e1' e2 e2' i i' e3 e3', cs_workflow_id i' = cs_workflow_id i -> cs_step_id i' = cs_step_id i -> cs_round i' = cs_round i ->
        cs_attempt i' = cs_attempt i -> once (advanceWorkflow now w e1 e2 i c e3) (advanceWorkflow now' w e1' e2' i' c' e3'))
  /\ (forall e e', once (bindStepTaskOnce now id t w e) (bindStepTaskOnce now' id t w e'))
  /\ (forall o o' cr cr' c c' e e', once (completeStepAndCheckpoint now id o w cr c e) (completeStepAndCheckpoint now' id o' w cr' c' e'))
  /\ (forall st st' e1 e1' e2 e2', wf_terminal st = true -> once (terminalizeWorkflow now w st e1 e2) (terminalizeWorkflow now' w st' e1' e2'))
  /\ (forall e1 e1' e2 e2' v v', once (failStepAndWorkflow now id w e1 e2 v) (failStepAndWorkflow now' id w e1' e2' v'))
  /\ (forall s s' e e', once (cancelStepAndWorkflow now s w e) (cancelStepAndWorkflow now' s' w e'))
  /\ once (recordCancellationIntent now w) (recordCancellationIntent now' w)
  /\ (forall v v' d d', once (recordCompletionEvidence now id w v d) (recordCompletionEvidence now' id w v' d'))
  /\ (forall n fp fp' v v', once (recordStallRound now w n fp v) (recordStallRound now' w n fp' v'))
  /\ (forall v v', once (answerHumanRequestInput now id v) (answerHumanRequestInput now' id v'))
  /\ once (approveHumanRequest now id) (approveHumanRequest now' id)
  /\ (forall e e', once (rejectHumanRequestAndFailWorkflow now id e) (rejectHumanRequestAndFailWorkflow now' id e'))
  /\ (forall i i' c c' e1 e1' e2 e2', cw_workflow_id i' = cw_workflow_id i ->
        once (createWorkflowWithLifecycleEvents now i c e1 e2) (createWorkflowWithLifecycleEvents now' i' c' e1' e2'))
  /\ (forall e e', again (startWorkflowDurably now w e) (startWorkflowDurably now' w e'))
  /\ (forall e e', again (resumeWorkflowRunning now w e) (resumeWorkflowRunning now' w e'))
  /\ (forall i i' st st' e e', ch_request_id i' = ch_request_id i -> ch_workflow_id i' = ch_workflow_id i ->
        again (createHumanRequestAndPause now i st e) (createHumanRequestAndPause now' i' st' e'))
  /\ (forall st e1 e1' e2 e2', again (terminalizeWorkflow now w st e1 e2) (terminalizeWorkflow now' w st e1' e2')).
Proof.
  split; [intros; by apply ensureStepStarted_once|].
  split; [intros; by apply advanceWorkflow_once|].
  split; [intros; by apply bindStepTaskOnce_once|].
  split; [intros; by apply completeStep_once|].
  split; [intros; by apply terminalizeWorkflow_once|].
  split; [intros; by apply failStepAndWorkflow_once|].
  split; [intros; by apply cancelStepAndWorkflow_once|].
  split; [intros; by apply recordCancellationIntent_once|].
  split; [intros; by apply recordCompletionEvidence_once|].
  split; [intros; by apply recordStallRound_once|].
  split; [intros; by apply answerHumanRequest_once|].
  split; [intros; by apply approveHumanRequest_once|].
  split; [intros; by apply rejectHumanRequest_once|].
  split; [intros; by apply createWorkflow_once|].
  split; [intros; by apply startWorkflow_again|].
  split; [intros; by apply resumeWorkflow_again|].
  split; [intros; by apply pause_again|].
  intros. apply terminalizeWorkflow_again.
Qed.

(** C18. The node's reports on a task take effect at most once: a source event, a final
    result and a terminal transition that were accepted change nothing when they are
    delivered again, even with other contents. *)
Theorem task_reports_exactly_once (now now' id : string) :
  (forall q ev ev', once (ingestSourceEventDurable now id q ev) (ingestSourceEventDurable now' id q ev'))
  /\ (forall st st' r r', once (persistTaskResultDurable now id st r) (persistTaskResultDurable now' id st' r'))
  /\ (forall rev rev' p p' e e', once (terminalizeTaskDurable now id rev p e) (terminalizeTaskDurable now' id rev' p' e')).
Proof. repeat apply conj; intros; eauto using ingestSourceEvent_once, persistTaskResult_once, terminalizeTask_once. Qed.

(** C19. Task creation is idempotent in its key: when a creation with a key has returned
    a task, any later creation with that key leaves the store as it is and, on an open
    store, returns the current record of that same task as not created if the request
    fingerprint is the same, and fails with [idempotency_conflict] if it is not. *)
Theorem create_task_idempotent (now now' key fp fp' : string) (i i' : CreateTaskInput) (e e' : TaskEventInput) (s s' s'' : DB) (x : TaskRecord * bool) :
  store_ok s -> ct_idempotency_key i = Some key -> ct_request_fingerprint i = Some fp ->
  createTaskIdempotently now i e s = (Ok x, s') -> rtc store_step s' s'' -> db_closed s'' = false ->
  ct_idempotency_key i' = Some key -> ct_request_fingerprint i' = Some fp' -> fp' <> "" ->
  exists row, taskRow (t_task_id (tk_row (fst x))) s'' = Some row
    /\ createTaskIdempotently now' i' e' s'' =
         (if fp' =s fp then (match fst (toTask row s'') with Ok t => Ok (t, false) | Err c => Err c end) else Err idempotency_conflict, s'').
Proof.
  intros Hok Hi Hf H Hrun Hc Hi' Hf' Hne. destruct (createTask_created _ _ _ _ _ _ _ _ Hok Hi Hf H) as (Hsafe & Hfp & Hcr).
  assert (store_ok s') as Hok'. { apply (store_ok_step s); [|done]. replace s' with (snd (createTaskIdempotently now i e s)) by by rewrite H. constructor. }
  destruct (task_by_key_created _ _ _ s'' (store_ok_run _ _ Hrun Hok') (settled_run _ _ _ Hrun Hcr)) as (row & Hrow & Hkey & Hrf).
  exists row. split; [done|]. unfold createTaskIdempotently. rewrite run_opened by done.
  rewrite (run_require_ok _ _ _ _ _ Hi'), run_check_ok, (run_require_ok _ _ _ _ _ Hf'), run_check_ok by (done || by apply negb_true_iff, String.eqb_neq).
  unfold on_constraint, transaction, resolveExisting, mbind, M_bind, gets. rewrite Hkey, Hrf. cbn [opt_is]. rewrite String.eqb_sym.
  destruct (fp' =s fp); cbn; [|done]. by destruct (toTask_outcome row s'') as [[t ->]| ->].
Qed.

Lemma store_never_regresses_witness : (evolves Demo.db4 Demo.db5 /\ tasks_evolve Demo.db4 Demo.db5) /\ taskRow "t1" Demo.db4 <> None /\ stepRow "wf.plan.r1.a1" Demo.db4 <> None.
Proof.
  split; [|split; vm_compute; discriminate]. apply store_never_regresses. unfold Demo.db5. apply rtc_once, do_bindStepTaskOnce.
Defined.

(** The creation of the demonstration's task. *)
Definition demo_created : TaskRecord * bool :=
  Eval vm_compute in match fst (createTaskIdempotently Demo.T Demo.task_input (Demo.task_event 0) Demo.db3) with
                     | Ok x => x
                     | Err _ => ({| tk_row := new_task_row Demo.T Demo.task_input None None None; tk_metadata := VNull |}, false)
                     end.

Lemma create_task_idempotent_witness :
  exists row, taskRow (t_task_id (tk_row (fst demo_created))) Demo.db5 = Some row
    /\ createTaskIdempotently "later" Demo.task_input (Demo.task_event 0) Demo.db5 =
         (if "fp" =s "fp" then (match fst (toTask row Demo.db5) with Ok t => Ok (t, false) | Err c => Err c end) else Err idempotency_conflict, Demo.db5).
Proof.
  apply (create_task_idempotent Demo.T "later" "wf.plan.r1.a1" "fp" "fp" Demo.task_input Demo.task_input (Demo.task_event 0) (Demo.task_event 0)
    Demo.db3 Demo.db4 Demo.db5 demo_created).
  - eapply store_ok_run; [|apply store_ok_empty]. eapply rtc_l; [apply do_createWorkflowWithLifecycleEvents|].
    eapply rtc_l; [apply do_startWorkflowDurably|]. apply rtc_once, do_ensureStepStarted.
  - reflexivity.
  - reflexivity.
  - vm_compute. reflexivity.
  - apply rtc_once, do_bindStepTaskOnce.
  - vm_compute. reflexivity.
  - reflexivity.
  - reflexivity.
  - discriminate.
Defined.
