(* ===== verification/RuntimeEnv.v ===== *)
(** * The world of the workflow runtime

    The reads of the control store the runtime uses, the clock, and the monad its async
    methods run in.  What is outside the runtime (the Agent Task client, the workspace-lease
    client, the system clock, the abort signal, the other users of the store) is the
    parameter [Env]: functions over an environment state.  Before every store access the
    environment may have changed the database ([en_interfere]): the other users act at
    the awaits.  A method that throws ends with an error; running out of fuel is an error
    no [catch] sees. *)

From S2P Require Import Prelude Values Json Contract Verification Validator Outputs StoreRows Store StoreOps.

(** ** Reads of the control store *)

(** [ORDER BY]: a stable insertion sort (rows SQLite leaves unordered come in map order). *)
Fixpoint insert_by {A : Type} (leb : A -> A -> bool) (x : A) (l : list A) : list A :=
  match l with [] => [x] | y :: r => if leb x y then x :: l else y :: insert_by leb x r end.
Definition sort_by {A : Type} (leb : A -> A -> bool) (l : list A) : list A := fold_right (insert_by leb) [] l.
(** Rows numbered one after the other are in order. *)
Lemma sort_numbered {A : Type} (f : A -> Z) (l : list A) (n : Z) : map f l = seqZ n (Z.of_nat (List.length l)) -> sort_by (fun a b => f a <=? f b) l = l.
Proof.
  revert n. induction l as [|m l IH]; intros n; [done|]. cbn [map List.length]. rewrite Nat2Z.inj_succ, seqZ_cons by lia. rewrite Z.pred_succ. intros [= Hm Hr].
  cbn [sort_by fold_right]. change (fold_right (insert_by _) [] l) with (sort_by (fun a b => f a <=? f b) l). rewrite (IH _ Hr). destruct l as [|m' l]; [done|].
  cbn [map List.length] in Hr. rewrite Nat2Z.inj_succ, seqZ_cons in Hr by lia. injection Hr as Hm' _. cbn. destruct (f m <=? f m') eqn:El; [done|]. apply Z.leb_gt in El. lia.
Qed.

Fixpoint mapM_M {A B : Type} (f : A -> M B) (l : list A) : M (list B) :=
  match l with [] => mret [] | x :: r => y ← f x; ys ← mapM_M f r; mret (y :: ys) end.

Definition opt_map {A B : Type} (f : A -> M B) (o : option A) : M (option B) :=
  match o with Some a => b ← f a; mret (Some b) | None => mret None end.

Definition getTask (id : string) : M (option TaskRecord) := opened;; o ← gets (taskRow id); opt_map toTask o.
Definition getTaskResult (sha256_hex : string -> string) (id : string) : M (option (string * option AgentTaskResultV1)) :=
  opened;; getTaskResultDurable sha256_hex id.
Definition getWorkflow (id : string) : M (option WorkflowRecord) := opened;; o ← gets (workflowRow id); opt_map toWorkflow o.
Definition getStepExecution (id : string) : M (option StepExecutionRecord) := opened;; o ← gets (stepRow id); opt_map toStep o.
Definition getStepExecutionByKey (wf step : string) (round attempt : Z) : M (option StepExecutionRecord) :=
  opened;; o ← gets (stepExecByKey wf step round attempt); opt_map toStep o.

Definition step_order (a b : StepRow) : bool :=
  (s_round a <? s_round b) || ((s_round a =? s_round b) && js_leb (s_created_at a) (s_created_at b)).
Definition listStepExecutions (wf : string) : M (list StepExecutionRecord) :=
  opened;; rows ← gets (fun s => map snd (map_to_list (db_steps s)));
  mapM_M toStep (sort_by step_order (List.filter (fun r => s_workflow_id r =s wf) rows)).

(** The snapshot: the record, the decoded context and its revision. *)
Definition getWorkflowSnapshot (id : string) : M (option (WorkflowRecord * value * Z)) :=
  opened;; o ← gets (workflowRow id);
  opt_map (fun r => w ← toWorkflow r; c ← lift (decodeJson (w_context_json r) SIZE_LIMITS.context_json false);
                    mret (w, c, w_context_revision r)) o.

Definition clampLimit (n : option Z) : nat := match n with Some z => if 0 <? z then Z.to_nat (Z.min z 10000) else 1000%nat | None => 1000%nat end.
Definition workflow_order (a b : WorkflowRow) : bool :=
  (negb (w_created_at a =s w_created_at b) && js_leb (w_created_at a) (w_created_at b))
  || ((w_created_at a =s w_created_at b) && js_leb (w_workflow_id a) (w_workflow_id b)).
Definition listWorkflowsByStatus (status : string) : M (list WorkflowRecord) :=
  opened;; rows ← gets (fun s => map snd (map_to_list (db_workflows s)));
  mapM_M toWorkflow (take (clampLimit None) (sort_by workflow_order (List.filter (fun r => w_status r =s status) rows))).

Definition lease_order (a b : WorkspaceLeaseRow) : bool :=
  (negb (l_node_id a =s l_node_id b) && js_leb (l_node_id a) (l_node_id b))
  || ((l_node_id a =s l_node_id b) && js_leb (l_workspace_key a) (l_workspace_key b)).
Definition getWorkspaceLeaseProjection (id : string) : M (option LeaseRecord) := opened;; o ← gets (leaseRow id); opt_map toLease o.
Definition listWorkspaceLeaseProjections (wf : string) : M (list LeaseRecord) :=
  opened;; rows ← gets (fun s => map snd (map_to_list (db_leases s)));
  mapM_M toLease (sort_by lease_order (List.filter (fun r => l_workflow_id r =s wf) rows)).
Definition listReleasableWorkspaceLeases : M (list LeaseRecord) :=
  opened;;
  rows ← gets (fun s => List.filter (fun r => lease_live (l_status r)
      && match db_workflows s !! l_workflow_id r with Some w => wf_terminal (w_status w) | None => false end) (map snd (map_to_list (db_leases s))));
  mapM_M toLease (sort_by lease_order rows).

Definition getHumanRequest (id : string) : M (option HumanRecord) := opened;; o ← gets (humanRow id); opt_map toHumanRequest o.
(** [ORDER BY created_at DESC LIMIT 1]. *)
Definition latest_human (wf : string) (statuses : list string) (s : DB) : option HumanRequestRow :=
  head (sort_by (fun a b => js_leb (h_created_at b) (h_created_at a))
    (List.filter (fun r => (h_workflow_id r =s wf) && (h_status r ∈b statuses)) (map snd (map_to_list (db_human_requests s))))).
Definition getPendingHumanRequest (wf : string) : M (option HumanRecord) :=
  opened;; o ← gets (latest_human wf ["pending"]); opt_map toHumanRequest o.
Definition getActiveHumanRequest (wf : string) : M (option HumanRecord) :=
  opened;; o ← gets (latest_human wf ["pending"; "answered"; "approved"]); opt_map toHumanRequest o.

(** ** Dates *)

(** Days since 1970-01-01 of a proleptic Gregorian date. *)
Definition days_from_civil (y m d : Z) : Z :=
  let y' := if m <=? 2 then y - 1 else y in
  let era := y' / 400 in
  let yoe := y' - era * 400 in
  let doy := (153 * (if 2 <? m then m - 3 else m + 9) + 2) / 5 + d - 1 in
  era * 146097 + (yoe * 365 + yoe / 4 - yoe / 100 + doy) - 719468.

Definition num_at (off len : nat) (s : string) : Z := Z.of_N (digits_val (lit (substring off len s))).

(** [Date.parse] on the timestamps the store accepts, YYYY-MM-DDTHH:MM:SS[.d{1,3}]Z;
    [None] is NaN. *)
Definition Date_parse (s : string) : option Z :=
  if negb (isIsoUtc s) then None else
  let y := num_at 0 4 s in let mo := num_at 5 2 s in let d := num_at 8 2 s in
  let h := num_at 11 2 s in let mi := num_at 14 2 s in let se := num_at 17 2 s in
  let ms := match String.length s with 22%nat => num_at 20 1 s * 100 | 23%nat => num_at 20 2 s * 10 | 24%nat => num_at 20 3 s | _ => 0 end in
  if (1 <=? mo) && (mo <=? 12) && (1 <=? d) && (d <=? 31) && (mi <? 60) && (se <? 60)
     && ((h <? 24) || ((h =? 24) && (mi =? 0) && (se =? 0) && (ms =? 0)))
  then Some (days_from_civil y mo d * 86400000 + h * 3600000 + mi * 60000 + se * 1000 + ms)
  else None.

Example Date_parse_ex : Date_parse "2024-02-29T12:34:56.789Z" = Some 1709210096789.
Proof. vm_compute. reflexivity. Qed.

(** ** Clients (src/workflow/task-client.ts, workspace-lease-client.ts) *)

Record AgentTaskCreateRequest : Type := {
  rq_agent : string; rq_node_id : option string; rq_text : string; rq_workspace_key : option string; rq_permission_mode : option string;
  rq_workspace_write : bool; rq_metadata : value; rq_idempotency_key : string; rq_workspace_lease_id : option string; rq_verify : value }.

(** The fields of an [AgentTaskTerminalRead] the runtime reads. *)
Record AgentTaskTerminalRead : Type := {
  rd_task_id : string; rd_status : string; rd_terminal : bool; rd_history_complete : bool; rd_result_status : option string;
  rd_result_text : option string; rd_next_event_id : Z }.

(** [TransientAgentTaskError], or any other error. *)
Inductive ClientError : Type := ClientTransient | ClientFatal.
(** [TransientWorkspaceLeaseError], a structured [WorkspaceLeaseError], or another error. *)
Inductive LeaseError : Type := LeaseTransient | LeaseVerdict (code : string) | LeaseOther.

Record WorkspaceLeaseV1 : Type := {
  wl_workspace_lease_id : string; wl_workflow_id : string; wl_status : string; wl_acquired_at : option string;
  wl_base_revision : value; wl_current_revision : value }.

Record WorkspaceLeaseClient (E : Type) : Type := {
  lc_acquire : string -> string -> string -> E -> result LeaseError WorkspaceLeaseV1 * E;
  lc_get : string -> string -> E -> result LeaseError (option WorkspaceLeaseV1) * E;
  lc_observeRevision : string -> string -> E -> result LeaseError value * E;
  lc_release : string -> string -> E -> result LeaseError unit * E }.
Arguments lc_acquire {E}.
Arguments lc_get {E}.
Arguments lc_observeRevision {E}.
Arguments lc_release {E}.

Record Env (E : Type) : Type := {
  en_interfere : E -> DB -> E * DB;
  en_now : E -> Z * E;                      (* this.now(): milliseconds *)
  en_iso : E -> string * E;                 (* new Date().toISOString() *)
  en_stopped : E -> bool;
  en_aborted : string -> E -> bool;         (* the workflow's abort signal *)
  en_abort : string -> E -> E;              (* this.aborts.get(id)?.abort() *)
  en_backoff : E -> E;
  en_randomHex : E -> string * E;           (* crypto.randomBytes(9).toString('hex') *)
  en_createTask : AgentTaskCreateRequest -> E -> result ClientError string * E;
  en_waitForTerminal : string -> Z -> E -> result ClientError AgentTaskTerminalRead * E;
  en_cancelTask : string -> E -> result ClientError unit * E;
  en_leaseClient : option (WorkspaceLeaseClient E);
  en_sha256_hex : string -> string;
  en_maxReleaseAttempts : nat;
  en_resultIngestionDeadlineMs : Z }.
Arguments en_interfere {E}.
Arguments en_now {E}.
Arguments en_iso {E}.
Arguments en_stopped {E}.
Arguments en_aborted {E}.
Arguments en_abort {E}.
Arguments en_backoff {E}.
Arguments en_randomHex {E}.
Arguments en_createTask {E}.
Arguments en_waitForTerminal {E}.
Arguments en_cancelTask {E}.
Arguments en_leaseClient {E}.
Arguments en_sha256_hex {E}.
Arguments en_maxReleaseAttempts {E}.
Arguments en_resultIngestionDeadlineMs {E}.

(** ** The runtime monad *)

Inductive rt_error : Type :=
  | RStore (e : err_code)
  | RClient (e : ClientError)
  | RLease (e : LeaseError)
  | RRuntime (code : string)               (* WorkflowRuntimeError *)
  | RType                                  (* a field of undefined *)
  | RFuel.

(** The requests the runtime sent to the Agent Task client, in order. *)
Inductive client_call : Type := CallCreate (r : AgentTaskCreateRequest) | CallCancel (taskId : string).

Record World (E : Type) : Type := mkWorld {
  wd_db : DB; wd_env : E; wd_pumps : list string; wd_timers : list string; wd_calls : list client_call }.
Arguments mkWorld {E}.
Arguments wd_db {E}.
Arguments wd_env {E}.
Arguments wd_pumps {E}.
Arguments wd_timers {E}.
Arguments wd_calls {E}.

Definition R (E A : Type) : Type := World E -> result rt_error A * World E.
#[global] Instance R_ret (E : Type) : MRet (R E) := fun A a w => (Ok a, w).
#[global] Instance R_bind (E : Type) : MBind (R E) := fun A B k m w =>
  match m w with (Ok a, w') => k a w' | (Err e, w') => (Err e, w') end.

Section Monad.
Context {E : Type} (env : Env E).

Definition rthrow {A : Type} (e : rt_error) : R E A := fun w => (Err e, w).
Definition set_env (e : E) (w : World E) : World E := mkWorld (wd_db w) e (wd_pumps w) (wd_timers w) (wd_calls w).
Definition set_db (d : DB) (w : World E) : World E := mkWorld d (wd_env w) (wd_pumps w) (wd_timers w) (wd_calls w).
Definition log_call (c : client_call) : R E unit := fun w =>
  (Ok tt, mkWorld (wd_db w) (wd_env w) (wd_pumps w) (wd_timers w) (wd_calls w ++ [c])).

(** [try { m } catch (e) { h(e) }]. *)
Definition try_catch {A : Type} (m : R E A) (h : rt_error -> R E A) : R E A := fun w =>
  match m w with (Err RFuel, w') => (Err RFuel, w') | (Err e, w') => h e w' | r => r end.

Definition from_env {A : Type} (f : E -> A * E) : R E A := fun w => let '(a, e) := f (wd_env w) in (Ok a, set_env e w).
Definition read_env {A : Type} (f : E -> A) : R E A := fun w => (Ok (f (wd_env w)), w).
Definition clock : R E Z := from_env (en_now env).
Definition iso : R E string := from_env (en_iso env).
Definition isStopped : R E bool := read_env (en_stopped env).
Definition isAborted (wf : string) : R E bool := read_env (en_aborted env wf).
Definition abort (wf : string) : R E unit := from_env (fun e => (tt, en_abort env wf e)).
Definition backoff : R E unit := from_env (fun e => (tt, en_backoff env e)).

(** One store call: the others act first, then the call runs at one instant. *)
Definition store {A : Type} (m : string -> M A) : R E A := fun w =>
  let '(e1, d1) := en_interfere env (wd_env w) (wd_db w) in
  let '(now, e2) := en_iso env e1 in
  match m now d1 with
  | (Ok a, d2) => (Ok a, set_db d2 (set_env e2 w))
  | (Err x, d2) => (Err (RStore x), set_db d2 (set_env e2 w))
  end.
Definition read {A : Type} (m : M A) : R E A := store (fun _ => m).

Definition client {A : Type} (f : E -> result ClientError A * E) : R E A := fun w =>
  match f (wd_env w) with
  | (Ok a, e) => (Ok a, set_env e w)
  | (Err x, e) => (Err (RClient x), set_env e w)
  end.
Definition lease {A : Type} (f : E -> result LeaseError A * E) : R E A := fun w =>
  match f (wd_env w) with
  | (Ok a, e) => (Ok a, set_env e w)
  | (Err x, e) => (Err (RLease x), set_env e w)
  end.

Definition rrequire {A : Type} (o : option A) (e : rt_error) : R E A := match o with Some a => mret a | None => rthrow e end.
Definition rlift {A : Type} (r : result rt_error A) : R E A := fun w => (r, w).

(** [this.pumps] and [this.leaseReconcileTimers]: the workflows with a running pump
    and with a pending reconcile timer. *)
Definition ensurePump (wf : string) : R E unit := fun w =>
  (Ok tt, mkWorld (wd_db w) (wd_env w) (if wf ∈b wd_pumps w then wd_pumps w else wd_pumps w ++ [wf]) (wd_timers w) (wd_calls w)).
Definition scheduleLeaseReconcile (wf : string) : R E unit := fun w =>
  (Ok tt, mkWorld (wd_db w) (wd_env w) (wd_pumps w)
    (if en_stopped env (wd_env w) || (wf ∈b wd_timers w) then wd_timers w else wd_timers w ++ [wf]) (wd_calls w)).
End Monad.
Arguments rthrow {E A}.
Arguments set_env {E}.
Arguments set_db {E}.
