(* ===== verification/Runtime.v ===== *)
(** * The workflow runtime (src/workflow/runtime.ts)

    The methods of [WorkflowRuntime] over the world of [RuntimeEnv].  Loops that wait for
    the environment (a task to finish, a result to be ingested, a transient failure to
    pass) take fuel; the drive loop [driveWorkflow] is the iteration of [driveStep].
    The in-process pump map is the list [wd_pumps]; the pump a method starts is a run of
    [runWorkflow]. *)

From S2P Require Import Prelude Values Json Contract Conditions Templates Verification Validator Outputs StoreRows Store StoreOps RuntimeEnv.

(** ** Pure helpers *)

Definition MAX_CTX_LIST : nat := 50.

(** An event draft with the contract version 1. *)
Definition draft (ty ts : string) (step : option string) (payload : list (string * value)) : WorkflowEventDraft :=
  {| wd_event_type := ty; wd_ts := ts; wd_step_execution_id := step; wd_payload := VObj payload |}.

(** [{ ...a, ...b }]. *)
Definition spread (a b : list (string * value)) : list (string * value) := fold_left (fun o kv => obj_set (fst kv) (snd kv) o) b a.

Definition zval (z : Z) : value := VNum (NInt z).
Definition opt_str (v : value) : option string := match v with VStr s => Some s | _ => None end.
(** A string that is present and not empty. *)
Definition truthy_str (v : value) : option string := match v with VStr s => if s =s "" then None else Some s | _ => None end.
Definition opt_val (o : option string) : value := match o with Some s => VStr s | None => VNull end.
Definition or_empty (v : value) : value := if is_nullish v then VObj [] else v.

Definition render_code (e : render_error) : string :=
  match e with
  | render_missing_value => "render_missing_value" | render_too_large => "render_too_large" | render_bad_reference => "render_bad_reference"
  end.

(** [spec.steps.find((s) => s.id === id)]. *)
Definition find_step (spec : value) (id : string) : option value :=
  List.find (fun s => is_str_lit (get "id" s) id) (elems (get "steps" spec)).
(** [spec.agents[role]], when the step names one. *)
Definition role_of (spec specStep : value) : value :=
  match truthy_str (get "agent_role" specStep) with Some r => get r (get "agents" spec) | None => VUndef end.
Definition limit_of (spec : value) (k : string) : Z := int_of (get k (get "limits" spec)).

(** Fields of the row behind a record. *)
Definition wf_status (w : WorkflowRecord) : string := w_status (wf_row w).
Definition st_id (s : StepExecutionRecord) : string := s_step_execution_id (st_row s).
Definition st_step (s : StepExecutionRecord) : string := s_step_id (st_row s).
Definition st_round (s : StepExecutionRecord) : Z := s_round (st_row s).
Definition st_task (s : StepExecutionRecord) : option string := s_task_id (st_row s).
Definition wf_inputs (w : WorkflowRecord) : value := or_empty (wf_input_values w).

Definition loadSpec (wf : WorkflowRecord) : option value :=
  if vr_valid (validateWorkflowSpec (wf_spec wf)) then Some (wf_spec wf) else None.

Definition output_obj (s : StepExecutionRecord) : option value := if isObj (st_output s) then Some (st_output s) else None.

(** The agent's declared remaining work, as the array or null. *)
Definition declaredRemainingWork (step : StepExecutionRecord) : value :=
  match output_obj step with
  | Some o => if isArr (get "remaining_work" o) then get "remaining_work" o else VNull
  | None => VNull
  end.

(** The JSON of an evidence snapshot. *)
Definition evidence_json (e : VerifiedEvidence) : value :=
  let obool (o : option bool) := match o with Some b => VBool b | None => VNull end in
  VObj [("task_status", opt_val (ev_task_status e)); ("exit_code", match ev_exit_code e with Some z => zval z | None => VNull end);
        ("content_hash", opt_val (ev_content_hash e)); ("revision_before", opt_val (ev_revision_before e));
        ("revision_after", opt_val (ev_revision_after e)); ("repository_changed", obool (ev_repository_changed e));
        ("changed_files", match ev_changed_files e with Some l => VArr (map VStr l) | None => VNull end);
        ("changed_files_hash", opt_val (ev_changed_files_hash e)); ("tests_passed", obool (ev_tests_passed e))].

Definition decision_name (d : CompletionDecision) : string :=
  match d with DComplete => "complete" | DBlocked _ => "blocked" | DFailed _ => "failed" end.

(** [parseResultOutput]: the validated object, or the error code and field. *)
Definition parseResultOutput (text : string) (spec : value) (stepId : string) : result (string * option string) value :=
  let specStep := match find_step spec stepId with Some s => s | None => VUndef end in
  let schema := get (str_of (get "output_schema" specStep)) (get "output_schemas" spec) in
  match parseSingleJsonObject text MAX_AGENT_OUTPUT_BYTES with
  | Err c => Err (parse_code_str c, None)
  | Ok obj => validateAgainstSchema obj schema
  end.

(** ** Workspace targets (src/workflow/workspace-lease-client.ts) *)

Record WorkspaceTarget : Type := { tg_node_id : string; tg_workspace_key : string; tg_workspace_lease_id : string }.

Definition target_of (sha256_hex : string -> string) (workflowId node key : string) : WorkspaceTarget :=
  {| tg_node_id := node; tg_workspace_key := key; tg_workspace_lease_id := workspaceLeaseId sha256_hex workflowId node key |}.

(** The scope of a workspace key: the inputs alone. *)
Definition input_scope (inputs : value) (round : Z) : RenderScope :=
  {| rs_inputs := inputs; rs_stepOutputs := []; rs_round := round; rs_context := []; rs_pauseResponse := None |}.

Definition same_target (a b : WorkspaceTarget) : bool := (tg_node_id a =s tg_node_id b) && (tg_workspace_key a =s tg_workspace_key b).
Definition target_order (a b : WorkspaceTarget) : bool :=
  if tg_node_id a =s tg_node_id b then js_leb (tg_workspace_key a) (tg_workspace_key b) else js_leb (tg_node_id a) (tg_node_id b).

Fixpoint collect_targets (sha256_hex : string -> string) (workflowId : string) (spec inputs : value) (steps : list value) (acc : list WorkspaceTarget)
    : result (string * string) (list WorkspaceTarget) :=
  match steps with
  | [] => Ok acc
  | s :: rest =>
      match renderWorkspaceKey (opt_str (get "workspace_key_template" s)) (input_scope inputs 1) with
      | Err _ => Err ("workspace_lease_invalid", str_of (get "id" s))
      | Ok None => collect_targets sha256_hex workflowId spec inputs rest acc
      | Ok (Some key) =>
          match truthy_str (get "node_id" (role_of spec s)) with
          | None => Err ("workspace_node_ambiguous", str_of (get "id" s))
          | Some node =>
              let t := target_of sha256_hex workflowId node key in
              collect_targets sha256_hex workflowId spec inputs rest (if existsb (same_target t) acc then acc else acc ++ [t])
          end
      end
  end.

Definition resolveWorkspaceTargets (sha256_hex : string -> string) (workflowId : string) (spec inputs : value) : result (string * string) (list WorkspaceTarget) :=
  try! ts := collect_targets sha256_hex workflowId spec inputs (elems (get "steps" spec)) [] in Ok (sort_by target_order ts).

Section Runtime.
Context {E : Type} (env : Env E).
Abbreviation sha := (en_sha256_hex env).

(** ** Terminal helpers *)

Definition failStep (workflowId : string) (step : StepExecutionRecord) (meta : list (string * value)) : R E unit :=
  ts1 ← iso env; ts2 ← iso env;
  store env (fun now => failStepAndWorkflow now (st_id step) workflowId
    (draft "step.failed" ts1 (Some (st_id step)) meta) (draft "workflow.failed" ts2 None meta) (VObj meta));; mret tt.

Definition failWorkflow (workflowId code : string) (meta : list (string * value)) : R E unit :=
  ts ← iso env;
  store env (fun now => terminalizeWorkflow now workflowId "failed" None
    (draft "workflow.failed" ts None (spread [("reason", VStr code)] meta)));; mret tt.

Definition failLimit (workflowId limit : string) : R E unit :=
  ts ← iso env;
  store env (fun now => terminalizeWorkflow now workflowId "failed" None
    (draft "workflow.failed" ts None [("reason", VStr "workflow_limit_exceeded"); ("limit", VStr limit)]));; mret tt.

Definition blockWorkflow (workflowId reason : string) (meta : list (string * value)) : R E unit :=
  ts ← iso env;
  store env (fun now => terminalizeWorkflow now workflowId "blocked" None
    (draft "workflow.blocked" ts None (spread [("reason", VStr reason)] meta)));; mret tt.

Definition cancelTask (taskId : string) : R E unit :=
  log_call (CallCancel taskId);; client (en_cancelTask env taskId).

Definition performCancellation (workflowId : string) : R E unit :=
  o ← read env (getWorkflow workflowId);
  match o with
  | None => mret tt
  | Some wf =>
      if isTerminalWorkflowStatus (wf_status wf) then mret tt else
      store env (fun now => recordCancellationIntent now workflowId);;
      stepExecId ← match w_current_step_id (wf_row wf) with
                   | None => mret None
                   | Some stepId =>
                       if stepId =s "" then mret None else
                       os ← read env (getStepExecutionByKey workflowId stepId (w_current_round (wf_row wf)) 1);
                       match os with
                       | None => mret None
                       | Some step =>
                           match st_task step with
                           | Some t => if t =s "" then mret tt else try_catch (cancelTask t) (fun _ => mret tt)
                           | None => mret tt
                           end;;
                           mret (Some (st_id step))
                       end
                   end;
      ts ← iso env;
      store env (fun now => cancelStepAndWorkflow now stepExecId workflowId (draft "workflow.cancelled" ts None []));; mret tt
  end.

(** [now - started >= max_runtime_seconds * 1000]; false when never started. *)
Definition deadlineExceeded (wf : WorkflowRecord) : R E bool :=
  match w_started_at (wf_row wf) with
  | None => mret false
  | Some t =>
      match Date_parse t with
      | None => mret false
      | Some started => n ← clock env; mret (limit_of (wf_spec wf) "max_runtime_seconds" * 1000 <=? n - started)
      end
  end.

(** ** Scope and context *)

Definition buildRenderScope (workflowId : string) (wf : WorkflowRecord) (step : StepExecutionRecord) : R E RenderScope :=
  snap ← read env (getWorkflowSnapshot workflowId);
  let ctx := or_empty (match snap with Some (_, c, _) => c | None => VUndef end) in
  ses ← read env (listStepExecutions workflowId);
  let outputs := fold_left (fun o se => if (s_status (st_row se) =s "completed") && isObj (st_output se)
                                        then map_set (st_step se) (st_output se) o else o) ses [] in
  let context := flat_map (fun g => if truthy (get g ctx) then [(g, get g ctx)] else []) CONTEXT_GROUPS in
  req ← read env (getHumanRequest (humanRequestId sha (st_id step)));
  let pause := match req with
               | Some q => if (h_kind (hr_row q) =s "input") && (h_status (hr_row q) =s "answered") then h_response_value (hr_row q) else None
               | None => None
               end in
  mret {| rs_inputs := wf_inputs wf; rs_stepOutputs := outputs; rs_round := st_round step; rs_context := context; rs_pauseResponse := pause |}.

(** The last [n] elements. *)
Definition last_n {A : Type} (n : nat) (l : list A) : list A := drop (List.length l - n) l.

Definition buildUpdatedContext (workflowId : string) (binding : value) (output : value) (taskId : string) (historyComplete : bool) : R E (value * Z) :=
  o ← read env (getWorkflowSnapshot workflowId);
  snap ← rrequire o RType;
  let '(wf, c, rev) := snap in
  let cur := or_empty c in
  let next := obj_set "current_round" (zval (w_current_round (wf_row wf))) (entries cur) in
  let next := match binding with
              | VStr g => if g ∈b CONTEXT_GROUPS then obj_set g output next else next
              | _ => next
              end in
  let ev := VObj [("kind", VStr "task_status");
                  ("summary", VStr ("task completed; history_complete=" +:+ (if historyComplete then "true" else "false"))); ("task_id", VStr taskId)] in
  let next := obj_set "verified_evidence" (VArr (last_n MAX_CTX_LIST (elems (get "verified_evidence" cur) ++ [ev]))) next in
  let next := obj_set "prior_task_ids" (VArr (last_n MAX_CTX_LIST (elems (get "prior_task_ids" cur) ++ [VStr taskId]))) next in
  mret (VObj next, rev).

(** ** Human pause gate *)

(** [true]: proceed. *)
Definition evaluatePauseGate (workflowId : string) (step : StepExecutionRecord) (gate : value) : R E bool :=
  let requestId := humanRequestId sha (st_id step) in
  existing ← read env (getHumanRequest requestId);
  let status := match existing with Some q => h_status (hr_row q) | None => "" end in
  if is_some existing && ((status =s "answered") || (status =s "approved")) then mret true
  else if is_some existing && (status =s "rejected") then
    failWorkflow workflowId "runtime_internal" [("reason", VStr "approval_rejected"); ("step_id", VStr (st_step step))];; mret false
  else
    let kind := str_of (get "kind" gate) in
    let waitingStatus := if kind =s "input" then "waiting_input" else "waiting_approval" in
    ts ← iso env;
    store env (fun now => createHumanRequestAndPause now
      {| ch_request_id := requestId; ch_workflow_id := workflowId; ch_step_execution_id := st_id step; ch_kind := kind;
         ch_prompt := str_of (get "prompt" gate); ch_choices := if isArr (get "choices" gate) then Some (map str_of (elems (get "choices" gate))) else None |}
      waitingStatus
      (draft "workflow.paused" ts None [("reason", VStr waitingStatus); ("kind", VStr kind); ("step_id", VStr (st_step step));
                                        ("step_execution_id", VStr (st_id step))]));;
    mret false.

(** ** Workspace leases of a step *)

Definition stepLeaseTarget (spec : value) (wf : WorkflowRecord) (step : StepExecutionRecord) : option WorkspaceTarget :=
  match en_leaseClient env, find_step spec (st_step step) with
  | Some _, Some specStep =>
      match truthy_str (get "node_id" (role_of spec specStep)),
            renderWorkspaceKey (opt_str (get "workspace_key_template" specStep)) (input_scope (wf_inputs wf) (st_round step)) with
      | Some node, Ok (Some key) => Some (target_of sha (w_workflow_id (wf_row wf)) node key)
      | _, _ => None
      end
  | _, _ => None
  end.

(** Observe until the Node answers; [None] when stopped or aborted. *)
Fixpoint observe_loop (fuel : nat) (lc : WorkspaceLeaseClient E) (workflowId : string) (target : WorkspaceTarget) : R E (option value) :=
  match fuel with
  | O => rthrow RFuel
  | S n =>
      st ← isStopped env; ab ← isAborted env workflowId;
      if st || ab then mret None else
      try_catch (v ← lease (lc_observeRevision lc (tg_node_id target) (tg_workspace_key target)); mret (Some v))
        (fun e => match e with RLease LeaseTransient => backoff env;; observe_loop n lc workflowId target | _ => rthrow e end)
  end.

(** [true]: ok. *)
Definition revisionGateBefore (fuel : nat) (workflowId : string) (step : StepExecutionRecord) (target : WorkspaceTarget) : R E bool :=
  match en_leaseClient env with
  | None => mret true
  | Some lc =>
      proj ← read env (getWorkspaceLeaseProjection (tg_workspace_lease_id target));
      let expected := match proj with
                      | Some p => if is_nullish (lr_current_revision p) then lr_base_revision p else lr_current_revision p
                      | None => VUndef end in
      o ← observe_loop fuel lc workflowId target;
      match o with
      | None => mret false
      | Some observed =>
          store env (fun now => setStepRevisionBefore now (st_id step) observed);;
          if truthy expected && negb (revisionsMatch expected observed) then
            blockWorkflow workflowId "workspace_revision_conflict"
              [("step_id", VStr (st_step step)); ("round", zval (st_round step)); ("workspace_key", VStr (tg_workspace_key target))];; mret false
          else mret true
      end
  end.

Fixpoint observe_after (attempts : nat) (lc : WorkspaceLeaseClient E) (target : WorkspaceTarget) (sid : string) : R E unit :=
  match attempts with
  | O => mret tt
  | S n =>
      st ← isStopped env;
      if st : bool then mret tt else
      try_catch
        (observed ← lease (lc_observeRevision lc (tg_node_id target) (tg_workspace_key target));
         store env (fun now => setStepRevisionAfter now sid observed);;
         store env (fun now => setWorkspaceLeaseRevision now (tg_workspace_lease_id target) observed);; mret tt)
        (fun e => match e with RLease LeaseTransient => backoff env;; observe_after n lc target sid | _ => mret tt end)
  end.

Definition observeRevisionAfter (spec : value) (wf : WorkflowRecord) (step : StepExecutionRecord) : R E unit :=
  match en_leaseClient env, stepLeaseTarget spec wf step with
  | Some lc, Some target => observe_after (en_maxReleaseAttempts env) lc target (st_id step)
  | _, _ => mret tt
  end.

(** ** Task creation and binding *)

Definition task_request (workflowId : string) (role specStep : value) (step : StepExecutionRecord) (text : string) (ws leaseId : option string)
    : AgentTaskCreateRequest :=
  {| rq_agent := str_of (get "agent" role); rq_node_id := truthy_str (get "node_id" role); rq_text := text; rq_workspace_key := ws;
     rq_permission_mode := truthy_str (get "permission_mode" specStep);
     rq_workspace_write := truthy (get "workspace_write" specStep) && is_some leaseId;
     rq_metadata := VObj [("workflow_id", VStr workflowId); ("step_execution_id", VStr (st_id step)); ("step_id", VStr (st_step step));
                          ("round", zval (st_round step)); ("attempt", zval (s_attempt (st_row step)))];
     rq_idempotency_key := st_id step; rq_workspace_lease_id := leaseId;
     rq_verify := if truthy (get "verify" specStep) then get "verify" specStep else VUndef |}.

(** [this.taskClient.createTask] followed by the durable binding. *)
Definition create_and_bind (workflowId : string) (step : StepExecutionRecord) (req : AgentTaskCreateRequest) : R E unit :=
  log_call (CallCreate req);;
  taskId ← client (en_createTask env req);
  ts ← iso env;
  store env (fun now => bindStepTaskOnce now (st_id step) taskId workflowId
    (draft "step.task_created" ts (Some (st_id step)) [("task_id", VStr taskId); ("step_id", VStr (st_step step)); ("round", zval (st_round step))]));;
  mret tt.

(** [true]: ok. *)
Fixpoint create_loop (fuel : nat) (workflowId : string) (wf : WorkflowRecord) (step : StepExecutionRecord) (req : AgentTaskCreateRequest) : R E bool :=
  match fuel with
  | O => rthrow RFuel
  | S n =>
      st ← isStopped env; ab ← isAborted env workflowId;
      if st || ab then mret false else
      d ← deadlineExceeded wf;
      if d : bool then mret false else
      try_catch (create_and_bind workflowId step req;; mret true)
        (fun e => match e with
                  | RClient ClientTransient => backoff env;; create_loop n workflowId wf step req
                  | _ => failWorkflow workflowId "runtime_internal" [("reason", VStr "task_create_failed"); ("step_id", VStr (st_step step))];; mret false
                  end)
  end.

Definition stop_render (workflowId : string) (step : StepExecutionRecord) (e : render_error) : R E bool :=
  failWorkflow workflowId "render_error" [("code", VStr (render_code e)); ("step_id", VStr (st_step step))];; mret false.

(** [true]: ok, the step has its task. *)
Definition createAndBindTask (fuel : nat) (workflowId : string) (spec : value) (wf : WorkflowRecord) (step : StepExecutionRecord) : R E bool :=
  match find_step spec (st_step step) with
  | None => failWorkflow workflowId "runtime_internal" [("reason", VStr "unknown_step_or_role"); ("step_id", VStr (st_step step))];; mret false
  | Some specStep =>
      let role := role_of spec specStep in
      if negb (truthy role) then
        failWorkflow workflowId "runtime_internal" [("reason", VStr "unknown_step_or_role"); ("step_id", VStr (st_step step))];; mret false
      else
      proceed ← (if truthy (get "pause_before" specStep) then evaluatePauseGate workflowId step (get "pause_before" specStep) else mret true);
      if negb proceed then mret false else
      scope ← buildRenderScope workflowId wf step;
      match renderPrompt (str_of (get "prompt_template" specStep)) scope MAX_RENDERED_PROMPT_BYTES with
      | Err e => stop_render workflowId step e
      | Ok text =>
          match renderWorkspaceKey (opt_str (get "workspace_key_template" specStep)) scope with
          | Err e => stop_render workflowId step e
          | Ok ws =>
              let target := stepLeaseTarget spec wf step in
              gate ← match target with Some t => revisionGateBefore fuel workflowId step t | None => mret true end;
              if negb gate then mret false else
              create_loop fuel workflowId wf step (task_request workflowId role specStep step text ws (tg_workspace_lease_id <$> target))
          end
      end
  end.

(** ** Awaiting a task *)

Inductive await_outcome : Type := AwRead (r : AgentTaskTerminalRead) | AwShutdown | AwDeadline | AwCancel.

(** One turn of the loop of [awaitTask]: an outcome, or the next cursor. *)
Definition await_once (wf : WorkflowRecord) (taskId : string) (cursor : Z) : R E (await_outcome + Z) :=
  ab ← isAborted env (w_workflow_id (wf_row wf));
  if ab : bool then mret (inl AwCancel) else
  d ← deadlineExceeded wf;
  if d : bool then mret (inl AwDeadline) else
  try_catch
    (r ← client (en_waitForTerminal env taskId cursor);
     mret (if rd_terminal r then inl (AwRead r) else inr (rd_next_event_id r)))
    (fun e => match e with
              | RClient ClientTransient =>
                  ab ← isAborted env (w_workflow_id (wf_row wf));
                  if ab : bool then mret (inl AwCancel) else backoff env;; mret (inr cursor)
              | _ => rthrow e
              end).

Fixpoint awaitTask (fuel : nat) (wf : WorkflowRecord) (taskId : string) (cursor : Z) : R E await_outcome :=
  match fuel with
  | O => rthrow RFuel
  | S n =>
      st ← isStopped env;
      if st : bool then mret AwShutdown else
      o ← await_once wf taskId cursor;
      match o with inl out => mret out | inr c => awaitTask n wf taskId c end
  end.

(** [resolveTerminalResult]: the available read, or [None] when the case was handled. *)
Fixpoint resolveTerminalResult (fuel : nat) (workflowId : string) (step : StepExecutionRecord) (cur : AgentTaskTerminalRead) (cursor : Z)
    : R E (option (AgentTaskTerminalRead * string)) :=
  match fuel with
  | O => rthrow RFuel
  | S n =>
      let meta := [("task_id", VStr (rd_task_id cur)); ("step_id", VStr (st_step step)); ("round", zval (st_round step))] in
      match rd_result_text cur, opt_is (rd_result_status cur) "available" with
      | Some text, true => mret (Some (cur, text))
      | _, _ =>
          if opt_is (rd_result_status cur) "invalid" then
            failStep workflowId step [("reason", VStr "task_result_invalid"); ("task_id", VStr (rd_task_id cur))];; mret None
          else if opt_is (rd_result_status cur) "missing" then blockWorkflow workflowId "task_result_missing" meta;; mret None
          else
            st ← isStopped env; ab ← isAborted env workflowId;
            if st || ab then mret None else
            proj ← read env (getStepExecution (st_id step));
            since ← match (p ← proj; s_result_awaited_since (st_row p)) with
                    | Some t => mret (Some t)
                    | None => ts ← iso env; r ← store env (fun now => markStepAwaitingResult now (st_id step) ts);
                              mret (s_result_awaited_since (st_row r))
                    end;
            t ← clock env;
            let late := match (x ← since; Date_parse x) with Some s => en_resultIngestionDeadlineMs env <? t - s | None => false end in
            if late then blockWorkflow workflowId "task_result_timeout" meta;; mret None else
            backoff env;;
            next ← try_catch (r ← client (en_waitForTerminal env (rd_task_id cur) cursor); mret (Some r))
                     (fun e => match e with RClient ClientTransient => mret None | _ => rthrow e end);
            match next with
            | Some r => resolveTerminalResult n workflowId step r (rd_next_event_id r)
            | None => resolveTerminalResult n workflowId step cur cursor
            end
      end
  end.

(** [true]: the pump returns. *)
Definition handleTaskTerminal (fuel : nat) (workflowId : string) (spec : value) (step : StepExecutionRecord) (r : AgentTaskTerminalRead) : R E bool :=
  o ← read env (getWorkflow workflowId);
  wf ← rrequire o RType;
  observeRevisionAfter spec wf step;;
  if w_cancel_requested (wf_row wf) then performCancellation workflowId;; mret true
  else if rd_status r =s "failed" then
    failStep workflowId step [("reason", VStr "task_failed"); ("task_id", VStr (rd_task_id r))];; mret true
  else if rd_status r =s "cancelled" then
    failStep workflowId step [("reason", VStr "task_cancelled_external"); ("task_id", VStr (rd_task_id r))];; mret true
  else
    resolved ← resolveTerminalResult fuel workflowId step r (rd_next_event_id r);
    match resolved with
    | None => mret true
    | Some (r', text) =>
        match parseResultOutput text spec (st_step step) with
        | Err (code, field) =>
            failStep workflowId step ([("reason", VStr "invalid_output"); ("code", VStr code)]
              ++ match field with Some f => if f =s "" then [] else [("field", VStr f)] | None => [] end);; mret true
        | Ok out =>
            specStep ← rrequire (find_step spec (st_step step)) RType;
            cr ← buildUpdatedContext workflowId (get "context_binding" specStep) out (rd_task_id r') (rd_history_complete r');
            ts ← iso env;
            store env (fun now => completeStepAndCheckpoint now (st_id step) out workflowId (Some (snd cr)) (fst cr)
              (draft "step.completed" ts (Some (st_id step)) [("step_id", VStr (st_step step)); ("round", zval (st_round step))]));;
            mret false
        end
    end.

(** ** Completion gate *)

Definition assembleStepEvidence (step : StepExecutionRecord) : R E VerifiedEvidence :=
  status ← match st_task step with
           | Some t => if t =s "" then mret None else
                       try_catch (o ← read env (getTask t); mret (t_status ∘ tk_row <$> o)) (fun _ => mret None)
           | None => mret None
           end;
  res ← match st_task step with
        | Some t => if t =s "" then mret None else
                    try_catch (o ← read env (getTaskResult sha t); mret (p ← o; snd p)) (fun _ => mret None)
        | None => mret None
        end;
  mret (assembleEvidence sha status res (st_revision_before step) (st_revision_after step)).

(** The terminal status and event payload of a decision. *)
Definition decision_outcome (d : CompletionDecision) : string * string * list (string * value) :=
  match d with
  | DComplete => ("completed", "workflow.completed", [("verified", VBool true)])
  | DBlocked missing => ("blocked", "workflow.blocked", [("reason", VStr "verification_required"); ("missing", VArr (map VStr missing))])
  | DFailed reason => ("failed", "workflow.failed", [("reason", VStr reason)])
  end.

Definition gateCompletion (workflowId : string) (spec : value) (step : StepExecutionRecord) (target : string) : R E bool :=
  evidence ← assembleStepEvidence step;
  let outcome := evaluateCompletion (get "completion_policy" spec) evidence (declaredRemainingWork step) in
  try_catch (store env (fun now => recordCompletionEvidence now (st_id step) workflowId (evidence_json evidence) (decision_name outcome))) (fun _ => mret tt);;
  ts1 ← iso env; ts2 ← iso env;
  let '(status, ty, payload) := decision_outcome outcome in
  store env (fun now => terminalizeWorkflow now workflowId status
    (Some (draft "edge.selected" ts1 None [("to", VStr target); ("gated", VBool true)])) (draft ty ts2 None payload));;
  mret true.

(** ** Stall detection on loop edges *)

Definition latestResultContentHash (workflowId excludeStepId : string) : R E (option string) :=
  steps ← read env (listStepExecutions workflowId);
  let ok (s : StepExecutionRecord) := (s_status (st_row s) =s "completed") && negb (falsy (st_task s)) && negb (st_step s =s excludeStepId) in
  match last (List.filter ok steps) with
  | Some s => match st_task s with
              | Some t => try_catch (o ← read env (getTaskResult sha t); mret (p ← o; r ← snd p; Some (ar_content_hash r))) (fun _ => mret None)
              | None => mret None
              end
  | None => mret None
  end.

Definition lease_revision (workflowId : string) : R E string :=
  try_catch
    (leases ← read env (listWorkspaceLeaseProjections workflowId);
     mret (match List.find (fun l => l_status (lr_row l) ∈b ["active"; "release_requested"]) leases with
           | Some l => match truthy_str (get "state_hash" (lr_current_revision l)) with Some h => h | None => "none" end
           | None => "none" end))
    (fun _ => mret "none").

(** The values of the four signals, by name. *)
Definition stall_values (next_step remaining_work workspace_revision verified_evidence : string) : list (string * value) :=
  [("planner_next_step", VStr next_step); ("remaining_work", VStr remaining_work);
   ("workspace_revision", VStr workspace_revision); ("verified_evidence", VStr verified_evidence)].

(** [true]: blocked. *)
Definition checkStall (workflowId : string) (spec : value) (step : StepExecutionRecord) : R E bool :=
  let sp := get "stall_policy" spec in
  let signals := map str_of (elems (get "signals" sp)) in
  snap ← read env (getWorkflowSnapshot workflowId);
  let ctx := or_empty (match snap with Some (_, c, _) => c | None => VUndef end) in
  let out := match output_obj step with Some o => o | None => VObj [] end in
  wsRev ← lease_revision workflowId;
  verified ← latestResultContentHash workflowId (st_step step);
  let nextStep := get "next_step" out in
  let remaining := get "remaining_work" (get "latest_executor_handoff" ctx) in
  let values := stall_values (if is_nullish nextStep then "" else js_String nextStep)
                  (match JSON_stringify (null_payload remaining) with Some s => s | None => "" end)
                  wsRev (match verified with Some h => h | None => "none" end) in
  let fp := computeStallFingerprint sha signals (fun k => str_of (get k (VObj values))) in
  store env (fun now => recordStallRound now workflowId (st_round step) fp (VObj values));;
  history ← read env (opened;; gets (listStallRounds workflowId));
  let max := int_of (get "max_stalled_rounds" sp) in
  if isStalled (map snd history) max then
    blockWorkflow workflowId "no_progress" [("round", zval (st_round step)); ("signals", get "signals" sp); ("stalled_rounds", zval max)];; mret true
  else mret false.

(** ** Routing *)

Definition next_step_input (workflowId target : string) (round : Z) : CreateStepExecutionInput :=
  {| cs_step_execution_id := stepExecutionId workflowId target round 1; cs_workflow_id := workflowId; cs_step_id := target; cs_round := round;
     cs_attempt := 1; cs_task_id := None; cs_status := Some "pending" |}.

Definition step_started (ts workflowId target : string) (round : Z) : WorkflowEventDraft :=
  draft "step.started" ts (Some (stepExecutionId workflowId target round 1))
    [("step_id", VStr target); ("round", zval round); ("attempt", zval 1)].

(** [true]: the pump returns. *)
Definition routeAndAdvance (workflowId : string) (spec : value) (step : StepExecutionRecord) : R E bool :=
  match output_obj step with
  | None => failWorkflow workflowId "runtime_internal" [("reason", VStr "missing_step_output"); ("step_id", VStr (st_step step))];; mret true
  | Some output =>
      match selectEdge spec (st_step step) output (st_round step) with
      | RoutingNoEdge => failWorkflow workflowId "routing_no_edge" [("step_id", VStr (st_step step))];; mret true
      | RoutingAmbiguous => failWorkflow workflowId "routing_ambiguous" [("step_id", VStr (st_step step))];; mret true
      | RouteTo true target _ =>
          let status := patched (terminalTargetToStatus target) "" in
          if (status =s "completed") && truthy (get "completion_policy" spec) then gateCompletion workflowId spec step target else
          let eventType := if status =s "completed" then "workflow.completed" else if status =s "failed" then "workflow.failed" else "workflow.blocked" in
          let payload := if status =s "completed" then [("legacy_unverified", VBool true)]
                         else if status =s "blocked" then [("reason", VStr "routed_blocked")] else [] in
          ts1 ← iso env; ts2 ← iso env;
          store env (fun now => terminalizeWorkflow now workflowId status
            (Some (draft "edge.selected" ts1 None [("to", VStr target)])) (draft eventType ts2 None payload));;
          mret true
      | RouteTo false target kind =>
          let loop := kind =s "loop" in
          if loop && negb (canTakeLoopEdge (NInt (st_round step)) (NInt (limit_of spec "max_rounds"))) then failLimit workflowId "max_rounds";; mret true else
          stalled ← (if loop && truthy (get "stall_policy" spec) then checkStall workflowId spec step else mret false);
          if stalled : bool then mret true else
          let nextRound := if loop then st_round step + 1 else st_round step in
          ts1 ← iso env; ts2 ← iso env; ts3 ← iso env;
          store env (fun now => advanceWorkflow now workflowId
            (draft "edge.selected" ts1 None [("to", VStr target); ("kind", VStr kind)])
            (if loop then Some (draft "workflow.round_advanced" ts2 None [("round", zval nextRound)]) else None)
            (next_step_input workflowId target nextRound) target (step_started ts3 workflowId target nextRound));;
          mret false
      end
  end.

(** ** The pump *)

Definition startStep (workflowId stepId : string) (round : Z) : R E StepExecutionRecord :=
  ts ← iso env;
  r ← store env (fun now => ensureStepStarted now (next_step_input workflowId stepId round) stepId (step_started ts workflowId stepId round));
  mret (fst (fst r)).

(** The task of a step that is not completed: [None] when the pump returns. *)
Definition ensure_task (fuel : nat) (workflowId : string) (spec : value) (wf : WorkflowRecord) (step : StepExecutionRecord) : R E (option StepExecutionRecord) :=
  match st_task step with
  | Some _ => mret (Some step)
  | None =>
      if limit_of spec "max_tasks" <=? w_total_tasks (wf_row wf) then failLimit workflowId "max_tasks";; mret None else
      ok ← createAndBindTask fuel workflowId spec wf step;
      if negb ok then mret None else
      o ← read env (getStepExecutionByKey workflowId (st_step step) (st_round step) 1);
      s ← rrequire o RType; mret (Some s)
  end.

(** One turn of the drive loop; [true]: the pump returns. *)
Definition driveStep (fuel : nat) (workflowId : string) : R E bool :=
  o ← read env (getWorkflow workflowId);
  match o with
  | None => mret true
  | Some wf =>
      if negb (wf_status wf =s "running") then mret true else
      match loadSpec wf with
      | None => failWorkflow workflowId "runtime_internal" [("reason", VStr "invalid_persisted_spec")];; mret true
      | Some spec =>
          if w_cancel_requested (wf_row wf) then performCancellation workflowId;; mret true else
          d ← deadlineExceeded wf;
          if d : bool then failLimit workflowId "max_runtime_seconds";; mret true else
          let stepId := patched (w_current_step_id (wf_row wf)) (str_of (get "entry_step" spec)) in
          let round := w_current_round (wf_row wf) in
          os ← read env (getStepExecutionByKey workflowId stepId round 1);
          step ← match os with Some s => mret s | None => startStep workflowId stepId round end;
          if s_status (st_row step) =s "completed" then routeAndAdvance workflowId spec step
          else if isTerminalStepStatus (s_status (st_row step)) then mret true
          else
            bound ← ensure_task fuel workflowId spec wf step;
            match bound with
            | None => mret true
            | Some step =>
                outcome ← awaitTask fuel wf (patched (st_task step) "") (-1);
                match outcome with
                | AwShutdown => mret true
                | AwDeadline => failLimit workflowId "max_runtime_seconds";; mret true
                | AwCancel => performCancellation workflowId;; mret true
                | AwRead r => handleTaskTerminal fuel workflowId spec step r
                end
            end
      end
  end.

(** [driveWorkflow]: [turns] bounds the drive loop, [fuel] each wait inside a turn. *)
Fixpoint driveWorkflow (turns fuel : nat) (workflowId : string) : R E unit :=
  match turns with
  | O => rthrow RFuel
  | S n =>
      st ← isStopped env;
      if st : bool then mret tt else
      done ← driveStep fuel workflowId;
      if done : bool then mret tt else driveWorkflow n fuel workflowId
  end.

(** ** Workspace-lease lifecycle *)

Definition setLeaseReason (leaseId : string) (reason : option string) : R E unit :=
  try_catch (store env (fun now => setWorkspaceLeaseAcquireReason now leaseId reason);; mret tt) (fun _ => mret tt).

Definition adopt_lease (l : WorkspaceLeaseV1) : R E unit :=
  acq ← match wl_acquired_at l with Some t => mret t | None => iso env end;
  store env (fun now => markWorkspaceLeaseActive now (wl_workspace_lease_id l) (null_payload (wl_base_revision l))
    (if is_nullish (wl_current_revision l) then null_payload (wl_base_revision l) else wl_current_revision l) acq);; mret tt.

Inductive lease_outcome : Type := LActive | LPending | LBlocked.

Definition reconcileAmbiguousAcquire (lc : WorkspaceLeaseClient E) (workflowId : string) (tgt : WorkspaceTarget) : R E lease_outcome :=
  try_catch
    (o ← lease (lc_get lc (tg_node_id tgt) (tg_workspace_lease_id tgt));
     match o with
     | Some l =>
         if (wl_status l =s "active") && (wl_workflow_id l =s workflowId) then adopt_lease l;; mret LActive
         else setLeaseReason (tg_workspace_lease_id tgt) (Some "lease_outcome_unknown");; mret LPending
     | None => setLeaseReason (tg_workspace_lease_id tgt) (Some "acquire_unconfirmed");; mret LPending
     end)
    (fun _ => setLeaseReason (tg_workspace_lease_id tgt) (Some "lease_outcome_unknown");; mret LPending).

Definition reconcileOneLease (lc : WorkspaceLeaseClient E) (workflowId : string) (tgt : WorkspaceTarget) : R E lease_outcome :=
  proj ← read env (getWorkspaceLeaseProjection (tg_workspace_lease_id tgt));
  if match proj with Some p => l_status (lr_row p) =s "active" | None => false end then mret LActive else
  store env (fun now => recordWorkspaceLeaseIntent now (tg_workspace_lease_id tgt) workflowId (tg_node_id tgt) (tg_workspace_key tgt));;
  try_catch
    (l ← lease (lc_acquire lc (tg_node_id tgt) workflowId (tg_workspace_key tgt)); adopt_lease l;; mret LActive)
    (fun e => match e with
              | RLease (LeaseVerdict code) => setLeaseReason (tg_workspace_lease_id tgt) (Some code);; mret LBlocked
              | RLease LeaseTransient => reconcileAmbiguousAcquire lc workflowId tgt
              | _ => rthrow e
              end).

Fixpoint rollbackAcquired (lc : WorkspaceLeaseClient E) (targets : list WorkspaceTarget) : R E unit :=
  match targets with
  | [] => mret tt
  | t :: rest =>
      try_catch (lease (lc_release lc (tg_node_id t) (tg_workspace_lease_id t))) (fun _ => mret tt);;
      ts ← iso env;
      try_catch (store env (fun now => markWorkspaceLeaseReleased now (tg_workspace_lease_id t) ts);; mret tt) (fun _ => mret tt);;
      rollbackAcquired lc rest
  end.

Fixpoint acquire_targets (lc : WorkspaceLeaseClient E) (workflowId : string) (targets activated : list WorkspaceTarget) : R E lease_outcome :=
  match targets with
  | [] => mret LActive
  | t :: rest =>
      o ← reconcileOneLease lc workflowId t;
      match o with
      | LActive => acquire_targets lc workflowId rest (activated ++ [t])
      | _ => rollbackAcquired lc activated;; mret o
      end
  end.

(** [doAcquireOrReconcile]; [LActive] is ['acquired']. *)
Definition doAcquireOrReconcile (workflowId : string) (spec inputs : value) : R E lease_outcome :=
  match en_leaseClient env with
  | None => mret LActive
  | Some lc =>
      match resolveWorkspaceTargets sha workflowId spec inputs with
      | Err (code, _) => rthrow (RRuntime (if code =s "workspace_node_ambiguous" then "workspace_node_ambiguous" else "runtime_internal"))
      | Ok targets => acquire_targets lc workflowId targets []
      end
  end.

Fixpoint release_loop (attempts : nat) (lc : WorkspaceLeaseClient E) (nodeId leaseId : string) : R E unit :=
  match attempts with
  | O => mret tt
  | S n =>
      st ← isStopped env;
      if st : bool then mret tt else
      try_catch
        (lease (lc_release lc nodeId leaseId);; ts ← iso env;
         store env (fun now => markWorkspaceLeaseReleased now leaseId ts);; mret tt)
        (fun e => match e with RLease LeaseTransient => backoff env;; release_loop n lc nodeId leaseId | _ => mret tt end)
  end.

Definition releaseLeaseWithRetry (lc : WorkspaceLeaseClient E) (nodeId leaseId : string) : R E unit :=
  ts ← iso env;
  store env (fun now => requestWorkspaceLeaseRelease now leaseId ts);;
  release_loop (en_maxReleaseAttempts env) lc nodeId leaseId.

Fixpoint release_all (lc : WorkspaceLeaseClient E) (skip_released : bool) (leases : list LeaseRecord) : R E unit :=
  match leases with
  | [] => mret tt
  | l :: rest =>
      (if skip_released && (l_status (lr_row l) =s "released") then mret tt
       else releaseLeaseWithRetry lc (l_node_id (lr_row l)) (l_workspace_lease_id (lr_row l)));;
      release_all lc skip_released rest
  end.

Definition settleLeaseReleases (workflowId : string) : R E unit :=
  match en_leaseClient env with
  | None => mret tt
  | Some lc =>
      o ← read env (getWorkflow workflowId);
      if match o with Some wf => wf_status wf ∈b ["completed"; "failed"; "cancelled"] | None => false end then
        leases ← read env (listWorkspaceLeaseProjections workflowId); release_all lc true leases
      else mret tt
  end.

Definition recoverLeaseReleases : R E Z :=
  match en_leaseClient env with
  | None => mret 0
  | Some lc => pending ← read env listReleasableWorkspaceLeases; release_all lc false pending;; mret (Z.of_nat (List.length pending))
  end.

(** The pump with the releases that follow it. *)
Definition runWorkflow (turns fuel : nat) (workflowId : string) : R E unit :=
  driveWorkflow turns fuel workflowId;;
  st ← isStopped env;
  if is_some (en_leaseClient env) && negb st then settleLeaseReleases workflowId else mret tt.

(** ** Public methods *)

Definition createWorkflow (spec inputValues : value) : R E (string * WorkflowRecord) :=
  if negb (vr_valid (validateWorkflowSpec spec)) then rthrow (RRuntime "invalid_spec") else
  if isCompletableSpec spec && is_undef (get "completion_policy" spec) then rthrow (RRuntime "completion_policy_required") else
  match normalizeInputValues spec inputValues with
  | Err _ => rthrow (RRuntime "invalid_input_values")
  | Ok values =>
      hex ← from_env (en_randomHex env);
      let workflowId := "wf_" +:+ hex in
      let objective := match get "objective" values with
                       | VStr s => s
                       | _ => match get "description" spec with VStr d => d | _ => str_of (get "name" spec) end
                       end in
      ts ← iso env;
      wf ← store env (fun now => createWorkflowWithLifecycleEvents now
        {| cw_workflow_id := workflowId; cw_spec_version := str_of (get "version" spec); cw_workflow_name := str_of (get "name" spec);
           cw_spec := spec; cw_status := None; cw_current_step_id := None; cw_current_round := None; cw_input_values := values |}
        (VObj [("objective", VStr (utf16_take 4096 objective)); ("current_round", zval 1)])
        (draft "workflow.created" ts None [("name", get "name" spec)]) (draft "workflow.validated" ts None []));
      mret (workflowId, wf)
  end.

Definition start_leased (workflowId : string) (spec inputs : value) : R E unit :=
  match en_leaseClient env with
  | None => mret tt
  | Some _ =>
      o ← doAcquireOrReconcile workflowId spec inputs;
      match o with
      | LActive => mret tt
      | LBlocked => rthrow (RRuntime "workspace_lease_conflict")
      | LPending => scheduleLeaseReconcile env workflowId;; rthrow (RRuntime "workspace_lease_pending")
      end
  end.

Definition startWorkflow (workflowId : string) : R E WorkflowRecord :=
  o ← read env (getWorkflow workflowId);
  wf ← rrequire o (RRuntime "invalid_transition");
  if isTerminalWorkflowStatus (wf_status wf) || (wf_status wf =s "blocked") then mret wf else
  if wf_status wf =s "running" then ensurePump workflowId;; mret wf else
  if negb (wf_status wf =s "ready") then rthrow (RRuntime "invalid_transition") else
  spec ← rrequire (loadSpec wf) (RRuntime "runtime_internal");
  let bound := match resolveWorkspaceTargets sha workflowId spec (wf_inputs wf) with Ok [] => false | _ => true end in
  if bound && negb (is_some (en_leaseClient env)) then rthrow (RRuntime "workspace_lease_unsupported") else
  start_leased workflowId spec (wf_inputs wf);;
  ts ← iso env;
  r ← store env (fun now => startWorkflowDurably now workflowId (draft "workflow.started" ts None []));
  ensurePump workflowId;;
  mret (fst r).

Definition reconcileAndMaybeStart (workflowId : string) : R E unit :=
  st ← isStopped env;
  if st : bool then mret tt else
  o ← read env (getWorkflow workflowId);
  match o with
  | None => mret tt
  | Some wf =>
      if negb (wf_status wf =s "ready") then mret tt else
      match loadSpec wf with
      | None => mret tt
      | Some spec =>
          out ← doAcquireOrReconcile workflowId spec (wf_inputs wf);
          match out with
          | LActive =>
              ts ← iso env;
              store env (fun now => startWorkflowDurably now workflowId (draft "workflow.started" ts None []));;
              ensurePump workflowId
          | LPending => scheduleLeaseReconcile env workflowId
          | LBlocked => mret tt
          end
      end
  end.

Fixpoint for_each {A : Type} (f : A -> R E unit) (l : list A) : R E unit :=
  match l with [] => mret tt | x :: r => f x;; for_each f r end.

Definition recoverWorkflows : R E (list string) :=
  running ← read env (listWorkflowsByStatus "running");
  for_each (fun wf => ensurePump (w_workflow_id (wf_row wf))) running;;
  try_catch (recoverLeaseReleases;; mret tt) (fun _ => mret tt);;
  (if is_some (en_leaseClient env) then
     ready ← try_catch (read env (listWorkflowsByStatus "ready")) (fun _ => mret []);
     for_each (fun wf =>
       leases ← try_catch (read env (listWorkspaceLeaseProjections (w_workflow_id (wf_row wf)))) (fun _ => mret []);
       if existsb (fun l => l_status (lr_row l) =s "acquiring") leases then scheduleLeaseReconcile env (w_workflow_id (wf_row wf)) else mret tt) ready
   else mret tt);;
  mret (map (fun wf => w_workflow_id (wf_row wf)) running).

Definition workflow_again (workflowId : string) : R E WorkflowRecord :=
  o ← read env (getWorkflow workflowId); rrequire o RType.

Definition cancelWorkflow (workflowId : string) : R E WorkflowRecord :=
  o ← read env (getWorkflow workflowId);
  wf ← rrequire o (RRuntime "invalid_transition");
  if isTerminalWorkflowStatus (wf_status wf) then mret wf else
  store env (fun now => recordCancellationIntent now workflowId);;
  abort env workflowId;;
  performCancellation workflowId;;
  settleLeaseReleases workflowId;;
  workflow_again workflowId.

Definition answerInput (requestId val : string) : R E HumanRecord := store env (fun now => answerHumanRequestInput now requestId val).

Definition decideApproval (requestId : string) (approved : bool) : R E HumanRecord :=
  if approved then store env (fun now => approveHumanRequest now requestId) else
  ts ← iso env;
  r ← store env (fun now => rejectHumanRequestAndFailWorkflow now requestId (draft "workflow.failed" ts None [("reason", VStr "approval_rejected")]));
  abort env (h_workflow_id (hr_row (fst r)));;
  settleLeaseReleases (h_workflow_id (hr_row (fst r)));;
  mret (fst r).

Definition resumeWorkflow (workflowId : string) : R E WorkflowRecord :=
  o ← read env (getWorkflow workflowId);
  wf ← rrequire o (RRuntime "invalid_transition");
  (if (wf_status wf =s "waiting_input") || (wf_status wf =s "waiting_approval") then
     req ← read env (getActiveHumanRequest workflowId);
     match req with
     | Some q =>
         if (h_status (hr_row q) =s "answered") || (h_status (hr_row q) =s "approved") then
           ts ← iso env;
           store env (fun now => resumeWorkflowRunning now workflowId (draft "workflow.resumed" ts None [("request_id", VStr (h_request_id (hr_row q)))]));;
           ensurePump workflowId
         else mret tt
     | None => mret tt
     end
   else if wf_status wf =s "running" then ensurePump workflowId else mret tt);;
  workflow_again workflowId.
End Runtime.
