(* ===== verification/RuntimeProps.v ===== *)
(** * What the runtime does to the database

    [RPreserves Rel m]: a run of the runtime method [m] moves the database along the
    preorder [Rel], whatever it returns, when every other user of the store moves it
    along [Rel].  The preorders used are reachability by store operations, and for one
    workflow the absence of a transition to [completed]. *)

From S2P Require Import Prelude Values Json Contract Conditions Templates Verification Validator Outputs StoreRows Store StoreOps StoreProps StoreInv RuntimeEnv Runtime.

(** ** Preservation by runtime methods *)

Class RPreserves {E : Type} (Rel : relation DB) {A : Type} (m : R E A) : Prop := rpreserves : forall w, Rel (wd_db w) (wd_db (snd (m w))).
Class Rely {E : Type} (env : Env E) (Rel : relation DB) : Prop := rely : forall e d, Rel d (snd (en_interfere env e d)).

Section Generic.
Context {E : Type} (env : Env E) (Rel : relation DB) `{!PreOrder Rel}.

#[global] Instance rp_ret {A : Type} (a : A) : RPreserves (E := E) Rel (mret a).
Proof. intros w. reflexivity. Qed.
#[global] Instance rp_throw {A : Type} (e : rt_error) : RPreserves (E := E) Rel (@rthrow E A e).
Proof. intros w. reflexivity. Qed.
#[global] Instance rp_require {A : Type} (o : option A) (e : rt_error) : RPreserves (E := E) Rel (rrequire o e).
Proof. intros w. destruct o; reflexivity. Qed.
#[global] Instance rp_bind {A B : Type} (m : R E A) (k : A -> R E B) :
  RPreserves Rel m -> (forall a, RPreserves Rel (k a)) -> RPreserves Rel (m ≫= k).
Proof.
  intros Hm Hk w. unfold mbind, R_bind. specialize (Hm w). destruct (m w) as [[a|e] w']; cbn in *; [|done].
  etransitivity; [exact Hm|apply Hk].
Qed.
#[global] Instance rp_try {A : Type} (m : R E A) (h : rt_error -> R E A) :
  RPreserves Rel m -> (forall e, RPreserves Rel (h e)) -> RPreserves Rel (try_catch m h).
Proof.
  intros Hm Hh w. unfold try_catch. specialize (Hm w). destruct (m w) as [[a|e] w']; cbn in *; [done|].
  destruct e; try (etransitivity; [exact Hm|apply Hh]). exact Hm.
Qed.
Lemma rp_for_each {A : Type} (f : A -> R E unit) (l : list A) : (forall a, RPreserves Rel (f a)) -> RPreserves Rel (for_each f l).
Proof. intros H. induction l; cbn [for_each]; [apply rp_ret|]. apply rp_bind; auto. Qed.
#[global] Instance rp_from_env {A : Type} (f : E -> A * E) : RPreserves Rel (from_env f).
Proof. intros w. unfold from_env. destruct (f (wd_env w)). reflexivity. Qed.
#[global] Instance rp_read_env {A : Type} (f : E -> A) : RPreserves Rel (read_env f).
Proof. intros w. reflexivity. Qed.
#[global] Instance rp_log (c : client_call) : RPreserves (E := E) Rel (log_call c).
Proof. intros w. reflexivity. Qed.
#[global] Instance rp_ensurePump (wf : string) : RPreserves (E := E) Rel (ensurePump wf).
Proof. intros w. reflexivity. Qed.
#[global] Instance rp_schedule (wf : string) : RPreserves Rel (scheduleLeaseReconcile env wf).
Proof. intros w. reflexivity. Qed.
#[global] Instance rp_client {A : Type} (f : E -> result ClientError A * E) : RPreserves Rel (client f).
Proof. intros w. unfold client. destruct (f (wd_env w)) as [[|] e]; reflexivity. Qed.
#[global] Instance rp_lease {A : Type} (f : E -> result LeaseError A * E) : RPreserves Rel (lease f).
Proof. intros w. unfold lease. destruct (f (wd_env w)) as [[|] e]; reflexivity. Qed.
#[global] Instance rp_store {A : Type} (m : string -> M A) : Rely env Rel -> (forall now, Preserves Rel (m now)) -> RPreserves Rel (store env m).
Proof.
  intros Hr Hm w. unfold store. specialize (Hr (wd_env w) (wd_db w)). destruct (en_interfere env (wd_env w) (wd_db w)) as [e1 d1].
  destruct (en_iso env e1) as [now e2]. specialize (Hm now d1). cbn in Hr.
  destruct (m now d1) as [[a|x] d2]; cbn in *; by etransitivity.
Qed.
End Generic.

(** Reads preserve every preorder. *)
Section Reads.
Context (Rel : relation DB) `{!PreOrder Rel}.
#[global] Instance reads_opt {A B : Type} (f : A -> M B) (o : option A) : (forall a, Preserves Rel (f a)) -> Preserves Rel (opt_map f o).
Proof. intros H. destruct o; cbn; apply _. Qed.
#[global] Instance reads_mapM {A B : Type} (f : A -> M B) (l : list A) : (forall a, Preserves Rel (f a)) -> Preserves Rel (mapM_M f l).
Proof. intros H. induction l; cbn; apply _. Qed.
#[global] Instance reads_toLease (r : WorkspaceLeaseRow) : Preserves Rel (toLease r).
Proof. apply _. Qed.
#[global] Instance reads_toHuman (r : HumanRequestRow) : Preserves Rel (toHumanRequest r).
Proof. apply _. Qed.
#[global] Instance reads_getTask (id : string) : Preserves Rel (getTask id).
Proof. apply _. Qed.
#[global] Instance reads_getTaskResult (h : string -> string) (id : string) : Preserves Rel (getTaskResult h id).
Proof. unfold getTaskResult. preserve. Qed.
#[global] Instance reads_getWorkflow (id : string) : Preserves Rel (getWorkflow id).
Proof. apply _. Qed.
#[global] Instance reads_getStep (id : string) : Preserves Rel (getStepExecution id).
Proof. apply _. Qed.
#[global] Instance reads_getStepByKey (wf st : string) (r a : Z) : Preserves Rel (getStepExecutionByKey wf st r a).
Proof. apply _. Qed.
#[global] Instance reads_listSteps (wf : string) : Preserves Rel (listStepExecutions wf).
Proof. apply _. Qed.
#[global] Instance reads_snapshot (id : string) : Preserves Rel (getWorkflowSnapshot id).
Proof. apply _. Qed.
#[global] Instance reads_listWorkflows (st : string) : Preserves Rel (listWorkflowsByStatus st).
Proof. apply _. Qed.
#[global] Instance reads_lease (id : string) : Preserves Rel (getWorkspaceLeaseProjection id).
Proof. apply _. Qed.
#[global] Instance reads_leases (wf : string) : Preserves Rel (listWorkspaceLeaseProjections wf).
Proof. apply _. Qed.
#[global] Instance reads_releasable : Preserves Rel listReleasableWorkspaceLeases.
Proof. apply _. Qed.
#[global] Instance reads_human (id : string) : Preserves Rel (getHumanRequest id).
Proof. apply _. Qed.
#[global] Instance reads_active (wf : string) : Preserves Rel (getActiveHumanRequest wf).
Proof. apply _. Qed.
End Reads.

(** Instances apply to methods by name, never through their bodies. *)
#[local] Hint Constants Opaque : typeclass_instances.

(** Sub-methods by instance, matches by case analysis, loops by their own instance. *)
Ltac rpreserve :=
  repeat first
    [ progress intros
    | apply _
    | lazymatch goal with
      | |- RPreserves _ (_ ≫= _) => apply rp_bind; [apply _| |]
      | |- RPreserves _ (try_catch _ _) => apply rp_try; [apply _| |]
      | |- RPreserves _ (for_each _ _) => apply rp_for_each; [apply _|]
      | |- RPreserves _ (match ?x with _ => _ end) => destruct x
      | |- RPreserves _ (let _ := _ in _) => cbv zeta
      | |- RPreserves _ ?m => let h := head_of m in unfold h
      | |- Preserves _ _ => progress preserve
      end ].

(** A terminal route goes to one of the three reserved targets. *)
Lemma route_of_terminal (e : value) (t k : string) : route_of e = RouteTo true t k -> t = "$complete" \/ t = "$failed" \/ t = "$blocked".
Proof.
  unfold route_of. intros [= H <- _]. unfold isTerminalTarget in H. apply str_in_spec in H as [<- | [<- | [<- | []]]]; auto.
Qed.
Lemma selectEdge_terminal (spec : value) (from : string) (out : value) (r : Z) (t k : string) :
  selectEdge spec from out r = RouteTo true t k -> t = "$complete" \/ t = "$failed" \/ t = "$blocked".
Proof. unfold selectEdge. repeat case_match; intros H'; try done; by eapply route_of_terminal. Qed.

(** ** The store operations the runtime uses, by the part that uses them

    The methods are proved against these interfaces; the store discharges them for each
    relation of interest. *)

(** The store operations of the pump other than binding a task and routing. *)
Class PumpOps (Rel : relation DB) : Prop := {
  po_failed :: forall now id e1 e2, Preserves Rel (terminalizeWorkflow now id "failed" e1 e2);
  po_blocked :: forall now id e1 e2, Preserves Rel (terminalizeWorkflow now id "blocked" e1 e2);
  po_fail :: forall now sid id e1 e2 er, Preserves Rel (failStepAndWorkflow now sid id e1 e2 er);
  po_intent :: forall now id, Preserves Rel (recordCancellationIntent now id);
  po_cancel :: forall now sid id e, Preserves Rel (cancelStepAndWorkflow now sid id e);
  po_pause :: forall now i st e, Preserves Rel (createHumanRequestAndPause now i st e);
  po_before :: forall now sid v, Preserves Rel (setStepRevisionBefore now sid v);
  po_after :: forall now sid v, Preserves Rel (setStepRevisionAfter now sid v);
  po_revision :: forall now l v, Preserves Rel (setWorkspaceLeaseRevision now l v);
  po_await :: forall now sid ts, Preserves Rel (markStepAwaitingResult now sid ts);
  po_complete :: forall now sid o id cr c e, Preserves Rel (completeStepAndCheckpoint now sid o id cr c e);
  po_evidence :: forall now sid id v d, Preserves Rel (recordCompletionEvidence now sid id v d);
  po_stall :: forall now id r fp v, Preserves Rel (recordStallRound now id r fp v);
  po_reason :: forall now l r, Preserves Rel (setWorkspaceLeaseAcquireReason now l r);
  po_active :: forall now l b c t, Preserves Rel (markWorkspaceLeaseActive now l b c t);
  po_lease :: forall now l id n k, Preserves Rel (recordWorkspaceLeaseIntent now l id n k);
  po_released :: forall now l t, Preserves Rel (markWorkspaceLeaseReleased now l t);
  po_release :: forall now l t, Preserves Rel (requestWorkspaceLeaseRelease now l t);
}.
(** Those of the lease methods alone. *)
Class LeaseOps (Rel : relation DB) : Prop := {
  lo_reason :: forall now l r, Preserves Rel (setWorkspaceLeaseAcquireReason now l r);
  lo_active :: forall now l b c t, Preserves Rel (markWorkspaceLeaseActive now l b c t);
  lo_lease :: forall now l id n k, Preserves Rel (recordWorkspaceLeaseIntent now l id n k);
  lo_released :: forall now l t, Preserves Rel (markWorkspaceLeaseReleased now l t);
  lo_release :: forall now l t, Preserves Rel (requestWorkspaceLeaseRelease now l t);
}.
#[global] Instance pump_lease_ops (Rel : relation DB) : PumpOps Rel -> LeaseOps Rel.
Proof. by intros []. Qed.
(** Binding a task to a step. *)
Class BindOps (Rel : relation DB) : Prop := {
  bo_bind :: forall now sid t id e, Preserves Rel (bindStepTaskOnce now sid t id e);
}.
(** Starting the current step, moving to the next one, and completing. *)
Class StepOps (Rel : relation DB) (id : string) : Prop := {
  so_ensure :: forall now sid n cur e, Preserves Rel (ensureStepStarted now (next_step_input id sid n) cur e);
}.
Class AdvanceOps (Rel : relation DB) (id : string) : Prop := {
  ao_advance :: forall now e1 e2 t n cur e3, Preserves Rel (advanceWorkflow now id e1 e2 (next_step_input id t n) cur e3);
}.
Class CompleteOps (Rel : relation DB) : Prop := {
  co_completed :: forall now id e1 e2, Preserves Rel (terminalizeWorkflow now id "completed" e1 e2);
}.
(** The operations of the public methods. *)
Class StartOps (Rel : relation DB) : Prop := {
  pu_create :: forall now i c e1 e2, Preserves Rel (createWorkflowWithLifecycleEvents now i c e1 e2);
  pu_start :: forall now id e, Preserves Rel (startWorkflowDurably now id e);
  pu_answer :: forall now id v, Preserves Rel (answerHumanRequestInput now id v);
  pu_approve :: forall now id, Preserves Rel (approveHumanRequest now id);
  pu_reject :: forall now id e, Preserves Rel (rejectHumanRequestAndFailWorkflow now id e);
  pu_resume :: forall now id e, Preserves Rel (resumeWorkflowRunning now id e);
}.

(** ** The methods *)

Section Methods.
Context {E : Type} (env : Env E) (Rel : relation DB) `{!PreOrder Rel} {Hrely : Rely env Rel}.
Context {Hleases : LeaseOps Rel}.

(** Leases. *)
#[global] Instance rp_setReason (l : string) (r : option string) : RPreserves Rel (setLeaseReason env l r).
Proof. rpreserve. Qed.
#[global] Instance rp_adopt (l : WorkspaceLeaseV1) : RPreserves Rel (adopt_lease env l).
Proof. rpreserve. Qed.
#[global] Instance rp_ambiguous (lc : WorkspaceLeaseClient E) (id : string) (t : WorkspaceTarget) : RPreserves Rel (reconcileAmbiguousAcquire env lc id t).
Proof. rpreserve. Qed.
#[global] Instance rp_one (lc : WorkspaceLeaseClient E) (id : string) (t : WorkspaceTarget) : RPreserves Rel (reconcileOneLease env lc id t).
Proof. rpreserve. Qed.
#[global] Instance rp_rollback (lc : WorkspaceLeaseClient E) (ts : list WorkspaceTarget) : RPreserves Rel (rollbackAcquired env lc ts).
Proof. induction ts; cbn [rollbackAcquired]; rpreserve. Qed.
#[global] Instance rp_targets (lc : WorkspaceLeaseClient E) (id : string) (ts act : list WorkspaceTarget) : RPreserves Rel (acquire_targets env lc id ts act).
Proof. revert act. induction ts; intros act; cbn [acquire_targets]; rpreserve. Qed.
#[global] Instance rp_acquire (id : string) (spec inputs : value) : RPreserves Rel (doAcquireOrReconcile env id spec inputs).
Proof. rpreserve. Qed.
#[global] Instance rp_release_loop (n : nat) (lc : WorkspaceLeaseClient E) (node l : string) : RPreserves Rel (release_loop env n lc node l).
Proof. induction n; cbn [release_loop]; rpreserve. Qed.
#[global] Instance rp_releaseRetry (lc : WorkspaceLeaseClient E) (node l : string) : RPreserves Rel (releaseLeaseWithRetry env lc node l).
Proof. rpreserve. Qed.
#[global] Instance rp_release_all (lc : WorkspaceLeaseClient E) (b : bool) (ls : list LeaseRecord) : RPreserves Rel (release_all env lc b ls).
Proof. induction ls; cbn [release_all]; rpreserve. Qed.
#[global] Instance rp_settle (id : string) : RPreserves Rel (settleLeaseReleases env id).
Proof. rpreserve. Qed.
#[global] Instance rp_recoverReleases : RPreserves Rel (recoverLeaseReleases env).
Proof. rpreserve. Qed.
#[global] Instance rp_recover : RPreserves Rel (recoverWorkflows env).
Proof. rpreserve. Qed.

Context {Hpump : PumpOps Rel}.

#[global] Instance rp_failStep (id : string) (s : StepExecutionRecord) (m : list (string * value)) : RPreserves Rel (failStep env id s m).
Proof. rpreserve. Qed.
#[global] Instance rp_failWorkflow (id c : string) (m : list (string * value)) : RPreserves Rel (failWorkflow env id c m).
Proof. rpreserve. Qed.
#[global] Instance rp_failLimit (id l : string) : RPreserves Rel (failLimit env id l).
Proof. rpreserve. Qed.
#[global] Instance rp_blockWorkflow (id c : string) (m : list (string * value)) : RPreserves Rel (blockWorkflow env id c m).
Proof. rpreserve. Qed.
#[global] Instance rp_performCancellation (id : string) : RPreserves Rel (performCancellation env id).
Proof. rpreserve. Qed.
#[global] Instance rp_deadline (wf : WorkflowRecord) : RPreserves Rel (deadlineExceeded env wf).
Proof. rpreserve. Qed.
#[global] Instance rp_scope (id : string) (wf : WorkflowRecord) (s : StepExecutionRecord) : RPreserves Rel (buildRenderScope env id wf s).
Proof. rpreserve. Qed.
#[global] Instance rp_context (id : string) (b o : value) (t : string) (h : bool) : RPreserves Rel (buildUpdatedContext env id b o t h).
Proof. rpreserve. Qed.
#[global] Instance rp_gate (id : string) (s : StepExecutionRecord) (g : value) : RPreserves Rel (evaluatePauseGate env id s g).
Proof. rpreserve. Qed.
#[global] Instance rp_observe_loop (fuel : nat) (lc : WorkspaceLeaseClient E) (id : string) (t : WorkspaceTarget) : RPreserves Rel (observe_loop env fuel lc id t).
Proof. induction fuel; cbn [observe_loop]; rpreserve. Qed.
#[global] Instance rp_gateBefore (fuel : nat) (id : string) (s : StepExecutionRecord) (t : WorkspaceTarget) : RPreserves Rel (revisionGateBefore env fuel id s t).
Proof. rpreserve. Qed.
#[global] Instance rp_observe_after (n : nat) (lc : WorkspaceLeaseClient E) (t : WorkspaceTarget) (sid : string) : RPreserves Rel (observe_after env n lc t sid).
Proof. induction n; cbn [observe_after]; rpreserve. Qed.
#[global] Instance rp_revisionAfter (spec : value) (wf : WorkflowRecord) (s : StepExecutionRecord) : RPreserves Rel (observeRevisionAfter env spec wf s).
Proof. rpreserve. Qed.
#[global] Instance rp_await_once (wf : WorkflowRecord) (t : string) (c : Z) : RPreserves Rel (await_once env wf t c).
Proof. rpreserve. Qed.
#[global] Instance rp_awaitTask (fuel : nat) (wf : WorkflowRecord) (t : string) (c : Z) : RPreserves Rel (awaitTask env fuel wf t c).
Proof. revert c. induction fuel; intros c; cbn [awaitTask]; rpreserve. Qed.
#[global] Instance rp_resolve (fuel : nat) (id : string) (s : StepExecutionRecord) (r : AgentTaskTerminalRead) (c : Z) :
  RPreserves Rel (resolveTerminalResult env fuel id s r c).
Proof. revert r c. induction fuel; intros r c; cbn [resolveTerminalResult]; rpreserve. Qed.
#[global] Instance rp_handle (fuel : nat) (id : string) (spec : value) (s : StepExecutionRecord) (r : AgentTaskTerminalRead) :
  RPreserves Rel (handleTaskTerminal env fuel id spec s r).
Proof. rpreserve. Qed.
#[global] Instance rp_stepEvidence (s : StepExecutionRecord) : RPreserves Rel (assembleStepEvidence env s).
Proof. rpreserve. Qed.
#[global] Instance rp_latestHash (id st : string) : RPreserves Rel (latestResultContentHash env id st).
Proof. rpreserve. Qed.
#[global] Instance rp_leaseRevision (id : string) : RPreserves Rel (lease_revision env id).
Proof. rpreserve. Qed.
#[global] Instance rp_checkStall (id : string) (spec : value) (s : StepExecutionRecord) : RPreserves Rel (checkStall env id spec s).
Proof. rpreserve. Qed.
#[global] Instance rp_startStep (id st : string) (r : Z) `{!StepOps Rel id} : RPreserves Rel (startStep env id st r).
Proof. rpreserve. Qed.

#[global] Instance rp_cancelWorkflow (id : string) : RPreserves Rel (cancelWorkflow env id).
Proof. rpreserve. Qed.

(** Binding a task. *)
Context {Hbind : BindOps Rel}.
#[global] Instance rp_create_loop (fuel : nat) (id : string) (wf : WorkflowRecord) (s : StepExecutionRecord) (r : AgentTaskCreateRequest) :
  RPreserves Rel (create_loop env fuel id wf s r).
Proof. induction fuel; cbn [create_loop]; rpreserve. Qed.
#[global] Instance rp_createAndBind (fuel : nat) (id : string) (spec : value) (wf : WorkflowRecord) (s : StepExecutionRecord) :
  RPreserves Rel (createAndBindTask env fuel id spec wf s).
Proof. rpreserve. Qed.
#[global] Instance rp_ensure_task (fuel : nat) (id : string) (spec : value) (wf : WorkflowRecord) (s : StepExecutionRecord) :
  RPreserves Rel (ensure_task env fuel id spec wf s).
Proof. rpreserve. Qed.

(** Routing and the pump. *)
Context {Hcompleted : CompleteOps Rel}.
#[global] Instance rp_gateCompletion (id : string) (spec : value) (s : StepExecutionRecord) (t : string) : RPreserves Rel (gateCompletion env id spec s t).
Proof.
  unfold gateCompletion. apply rp_bind; [apply _|apply _|]. intros ev. cbv zeta.
  destruct (evaluateCompletion _ _ _); cbn [decision_outcome]; rpreserve.
Qed.
#[global] Instance rp_route (id : string) (spec : value) (s : StepExecutionRecord) `{!AdvanceOps Rel id} : RPreserves Rel (routeAndAdvance env id spec s).
Proof.
  unfold routeAndAdvance. destruct (output_obj s) as [out|]; [|rpreserve].
  destruct (selectEdge spec (st_step s) out (st_round s)) as [[] t k| |] eqn:Es; [|rpreserve..].
  cbv zeta. destruct (selectEdge_terminal _ _ _ _ _ _ Es) as [-> | [-> | ->]].
  - change (patched (terminalTargetToStatus "$complete") "") with "completed". rpreserve.
  - change (patched (terminalTargetToStatus "$failed") "") with "failed". rpreserve.
  - change (patched (terminalTargetToStatus "$blocked") "") with "blocked". rpreserve.
Qed.
#[global] Instance rp_driveStep (fuel : nat) (id : string) `{!StepOps Rel id, !AdvanceOps Rel id} : RPreserves Rel (driveStep env fuel id).
Proof. rpreserve. Qed.
#[global] Instance rp_drive (turns fuel : nat) (id : string) `{!StepOps Rel id, !AdvanceOps Rel id} : RPreserves Rel (driveWorkflow env turns fuel id).
Proof. induction turns; cbn [driveWorkflow]; rpreserve. Qed.
#[global] Instance rp_run (turns fuel : nat) (id : string) `{!StepOps Rel id, !AdvanceOps Rel id} : RPreserves Rel (runWorkflow env turns fuel id).
Proof. rpreserve. Qed.

(** Starting, resuming and deciding. *)
Context {Hstart : StartOps Rel}.
#[global] Instance rp_createWorkflow (spec inputs : value) : RPreserves Rel (Runtime.createWorkflow env spec inputs).
Proof. rpreserve. Qed.
#[global] Instance rp_startWorkflow (id : string) : RPreserves Rel (startWorkflow env id).
Proof. rpreserve. Qed.
#[global] Instance rp_reconcile (id : string) : RPreserves Rel (reconcileAndMaybeStart env id).
Proof. rpreserve. Qed.
#[global] Instance rp_answer (id v : string) : RPreserves Rel (answerInput env id v).
Proof. rpreserve. Qed.
#[global] Instance rp_decide (id : string) (ok : bool) : RPreserves Rel (decideApproval env id ok).
Proof. rpreserve. Qed.
#[global] Instance rp_resume (id : string) : RPreserves Rel (resumeWorkflow env id).
Proof. rpreserve. Qed.
End Methods.

(** ** Every method is a sequence of store operations *)

Abbreviation store_run := (rtc store_step).

#[global] Instance run_pump_ops : PumpOps store_run.
Proof.
  split; intros; intros s; apply rtc_once;
    [apply do_terminalizeWorkflow | apply do_terminalizeWorkflow | apply do_failStepAndWorkflow | apply do_recordCancellationIntent |
     apply do_cancelStepAndWorkflow | apply do_createHumanRequestAndPause | apply do_setStepRevisionBefore | apply do_setStepRevisionAfter |
     apply do_setWorkspaceLeaseRevision | apply do_markStepAwaitingResult | apply do_completeStepAndCheckpoint | apply do_recordCompletionEvidence |
     apply do_recordStallRound | apply do_setWorkspaceLeaseAcquireReason | apply do_markWorkspaceLeaseActive | apply do_recordWorkspaceLeaseIntent |
     apply do_markWorkspaceLeaseReleased | apply do_requestWorkspaceLeaseRelease].
Qed.
#[global] Instance run_bind_ops : BindOps store_run.
Proof. split; intros; intros s; apply rtc_once, do_bindStepTaskOnce. Qed.
#[global] Instance run_step_ops (id : string) : StepOps store_run id.
Proof. split; intros; intros s; apply rtc_once, do_ensureStepStarted. Qed.
#[global] Instance run_advance_ops (id : string) : AdvanceOps store_run id.
Proof. split; intros; intros s; apply rtc_once, do_advanceWorkflow. Qed.
#[global] Instance run_complete_ops : CompleteOps store_run.
Proof. split; intros; intros s; apply rtc_once, do_terminalizeWorkflow. Qed.
#[global] Instance run_start_ops : StartOps store_run.
Proof.
  split; intros; intros s; apply rtc_once;
    [apply do_createWorkflowWithLifecycleEvents | apply do_startWorkflowDurably | apply do_answerHumanRequestInput | apply do_approveHumanRequest |
     apply do_rejectHumanRequestAndFailWorkflow | apply do_resumeWorkflowRunning].
Qed.

(** One call of a public method, one run of a pump, one reconcile timer, or a restart of
    the process: the in-process maps are lost, the database is kept. *)
Inductive runtime_step {E : Type} (env : Env E) : relation (World E) :=
  | rt_create (spec inputs : value) w : runtime_step env w (snd (Runtime.createWorkflow env spec inputs w))
  | rt_start (id : string) w : runtime_step env w (snd (startWorkflow env id w))
  | rt_pump (turns fuel : nat) (id : string) w : runtime_step env w (snd (runWorkflow env turns fuel id w))
  | rt_timer (id : string) w : runtime_step env w (snd (reconcileAndMaybeStart env id w))
  | rt_recover w : runtime_step env w (snd (recoverWorkflows env w))
  | rt_cancel (id : string) w : runtime_step env w (snd (cancelWorkflow env id w))
  | rt_answer (id v : string) w : runtime_step env w (snd (answerInput env id v w))
  | rt_decide (id : string) (ok : bool) w : runtime_step env w (snd (decideApproval env id ok w))
  | rt_resume (id : string) w : runtime_step env w (snd (resumeWorkflow env id w))
  | rt_restart (e : E) w : runtime_step env w (mkWorld (wd_db w) e [] [] (wd_calls w)).

Lemma runtime_step_run {E : Type} (env : Env E) (w w' : World E) :
  Rely env store_run -> runtime_step env w w' -> store_run (wd_db w) (wd_db w').
Proof.
  intros Hr H. destruct H; [..|reflexivity];
    match goal with |- _ (wd_db ?w) (wd_db (snd (?m ?w))) => let H := fresh in assert (RPreserves store_run m) as H by apply _; exact (H w) end.
Qed.

Lemma runtime_run {E : Type} (env : Env E) (w w' : World E) :
  Rely env store_run -> rtc (runtime_step env) w w' -> store_run (wd_db w) (wd_db w').
Proof. intros Hr. induction 1; [reflexivity|]. etransitivity; [by eapply runtime_step_run|done]. Qed.
