(* ===== verification/RuntimeDemo.v ===== *)
(** * A concrete environment for the runtime

    A Gateway that accepts every task, records it in the database together with an
    available result, and reports it finished at the next wait; a clock that advances by one
    millisecond per reading; no other user of the store.  It drives a one-step and a looping
    workflow to completion, and witnesses the hypotheses of the properties. *)

From S2P Require Import Prelude Values Json Contract Conditions Templates Verification Validator Outputs Examples StoreRows Store StoreOps StoreProps StoreInv RuntimeEnv Runtime RuntimeProps.

(** A single step whose completion must be backed by the recorded task status. *)
Definition demo_spec : value :=
  VObj [("version", VStr "1"); ("name", VStr "demo");
        ("agents", VObj [("worker", VObj [("agent", VStr "codex")])]);
        ("output_schemas", VObj [("result", VObj [("fields", VObj [("status", VObj [("type", VStr "enum"); ("enum", VArr [VStr "done"]); ("required", VBool true)])])])]);
        ("steps", VArr [VObj [("id", VStr "work"); ("type", VStr "agent_task"); ("agent_role", VStr "worker");
                              ("prompt_template", VStr "do it"); ("output_schema", VStr "result")]]);
        ("entry_step", VStr "work");
        ("edges", VArr [VObj [("from", VStr "work"); ("to", VStr "$complete"); ("kind", VStr "normal");
                              ("condition", VObj [("path", VStr "output.status"); ("op", VStr "eq"); ("value", VStr "done")])]]);
        ("limits", VObj [("max_tasks", VNum (NInt 5)); ("max_runtime_seconds", VNum (NInt 3600)); ("max_step_attempts", VNum (NInt 1)); ("max_failures", VNum (NInt 1))]);
        ("completion_policy", VObj [("required_evidence", VArr [VStr "task_status"; VStr "content_hash"])])].

Example demo_spec_valid : vr_issues (validateWorkflowSpec demo_spec) = [].
Proof. vm_compute. reflexivity. Qed.

Definition T0 : string := "2026-01-01T00:00:00.000Z".
Definition demo_sha (s : string) : string := "0123456789abcdef0123456789abcdef0123456789abcdef0123456789abcdef".

(** The environment state: the clock, the created task the Gateway has not recorded yet,
    the number of tasks, and the outputs the agents will produce. *)
Record demo_state : Type := { de_now : Z; de_pending : option AgentTaskCreateRequest; de_count : Z; de_answers : list string }.

Definition demo_task (n : Z) : string := "t_" +:+ zstr n.
Definition demo_event (n : Z) (ty : string) : TaskEventInput :=
  {| tei_sequence := n; tei_event_type := ty; tei_ts := T0; tei_payload := VNull; tei_source_sequence := None |}.
Definition demo_done : TaskPatch :=
  {| tp_status := Some "completed"; tp_remote_run_id := None; tp_workspace_key := None; tp_permission_mode := None; tp_metadata := VUndef;
     tp_terminal_at := None; tp_error_code := None; tp_error_message := None |}.
Definition demo_result (e : demo_state) : AgentTaskResultV1 :=
  buildTaskResult demo_sha (hd "" (de_answers e)) (Some 0) (Some T0) T0 [] [] None.

(** The Gateway records the pending task and its result. *)
Definition demo_gateway (e : demo_state) (req : AgentTaskCreateRequest) (d : DB) : DB :=
  let t := demo_task (de_count e) in
  let d1 := snd (createTaskIdempotently T0
    {| ct_task_id := t; ct_node_id := rq_node_id req; ct_agent := rq_agent req; ct_workspace_key := rq_workspace_key req;
       ct_permission_mode := rq_permission_mode req; ct_status := "queued"; ct_remote_run_id := None; ct_input_text := Some (rq_text req);
       ct_metadata := rq_metadata req; ct_idempotency_key := Some (rq_idempotency_key req); ct_request_fingerprint := Some "fp" |}
    (demo_event 0 "task.created") d) in
  snd (terminalizeTaskWithResultDurable T0 t 1 demo_done (demo_event 1 "task.completed") "available" (Some (demo_result e)) d1).

Definition demo_interfere (e : demo_state) (d : DB) : demo_state * DB :=
  match de_pending e with
  | None => (e, d)
  | Some req => ({| de_now := de_now e; de_pending := None; de_count := de_count e; de_answers := de_answers e |}, demo_gateway e req d)
  end.

Definition demo_tick (e : demo_state) : demo_state :=
  {| de_now := de_now e + 1; de_pending := de_pending e; de_count := de_count e; de_answers := de_answers e |}.

Definition demo_read (t : string) (e : demo_state) : AgentTaskTerminalRead :=
  {| rd_task_id := t; rd_status := "completed"; rd_terminal := true; rd_history_complete := true; rd_result_status := Some "available";
     rd_result_text := head (de_answers e); rd_next_event_id := 1 |}.

Definition demo_env : Env demo_state := {|
  en_interfere := demo_interfere;
  en_now := fun e => (1767225600000 + de_now e, demo_tick e);
  en_iso := fun e => (T0, e);
  en_stopped := fun _ => false;
  en_aborted := fun _ _ => false;
  en_abort := fun _ e => e;
  en_backoff := demo_tick;
  en_randomHex := fun e => ("0123456789abcdef01", e);
  en_createTask := fun req e =>
    (Ok (demo_task (de_count e + 1)), {| de_now := de_now e; de_pending := Some req; de_count := de_count e + 1; de_answers := de_answers e |});
  en_waitForTerminal := fun t _ e =>
    (Ok (demo_read t e), {| de_now := de_now e; de_pending := de_pending e; de_count := de_count e; de_answers := tl (de_answers e) |});
  en_cancelTask := fun _ e => (Ok tt, e);
  en_leaseClient := None;
  en_sha256_hex := demo_sha;
  en_maxReleaseAttempts := 8;
  en_resultIngestionDeadlineMs := 30000 |}.

Definition demo_start (answers : list string) : World demo_state :=
  mkWorld empty_db {| de_now := 0; de_pending := None; de_count := 0; de_answers := answers |} [] [] [].

Definition demo_id : string := "wf_0123456789abcdef01".

(** The world after [createWorkflow] and [startWorkflow]. *)
Definition started (spec : value) (inputs : value) (answers : list string) : World demo_state :=
  snd (startWorkflow demo_env demo_id (snd (Runtime.createWorkflow demo_env spec inputs (demo_start answers)))).

Definition done_answer : string := "{" +:+ dq +:+ "status" +:+ dq +:+ ":" +:+ dq +:+ "done" +:+ dq +:+ "}".
Definition one_step : World demo_state := started demo_spec VUndef [done_answer].
Definition one_step_end : World demo_state := snd (runWorkflow demo_env 10 10 demo_id one_step).

Example one_step_runs :
  (w_status <$> workflowRow demo_id (wd_db one_step)) = Some "running"
  /\ (w_status <$> workflowRow demo_id (wd_db one_step_end)) = Some "completed"
  /\ map we_event_type (workflow_events_of demo_id (wd_db one_step_end))
     = ["workflow.created"; "workflow.validated"; "workflow.started"; "step.started"; "step.task_created"; "step.completed"; "edge.selected"; "workflow.completed"]
  /\ (ce_decision <$> db_evidence (wd_db one_step_end) !! stepExecutionId demo_id "work" 1 1) = Some "complete".
Proof. vm_compute. auto. Qed.

(** The built-in planner/executor example, looping once. *)
Definition json (o : list (string * value)) : string := match JSON_stringify (VObj o) with Some s => s | None => "" end.
Definition decision (status : string) : string :=
  json [("status", VStr status); ("summary", VStr "s"); ("next_step", VStr "n"); ("acceptance_criteria", VArr [VStr "a"])].
Definition handoff : string :=
  json [("status", VStr "implemented"); ("summary", VStr "s"); ("changed_files", VArr [VStr "f"]); ("tests_run", VArr []); ("remaining_work", VArr []); ("risks", VArr [])].
Definition looping : World demo_state :=
  started plannerExecutorLoopExample (VObj [("objective", VStr "o")]) [decision "continue"; handoff; decision "continue"; handoff; decision "complete"].
Definition looping_end : World demo_state := snd (runWorkflow demo_env 20 10 demo_id looping).

Example looping_runs :
  (fun r => (w_status r, w_current_round r, w_total_tasks r)) <$> workflowRow demo_id (wd_db looping_end) = Some ("completed", 2, 5).
Proof. vm_compute. reflexivity. Qed.

(** The Gateway of the example uses two store operations. *)
Lemma demo_rely (Rel : relation DB) `{!PreOrder Rel} :
  (forall now i e, Preserves Rel (createTaskIdempotently now i e)) ->
  (forall now id rev p e st r, Preserves Rel (terminalizeTaskWithResultDurable now id rev p e st r)) ->
  Rely demo_env Rel.
Proof.
  intros H1 H2 e d. cbn. unfold demo_interfere. destruct (de_pending e) as [req|]; cbn; [|reflexivity].
  unfold demo_gateway. etransitivity; [apply H1|apply H2].
Qed.

#[global] Instance demo_rely_run : Rely demo_env store_run.
Proof. apply demo_rely; [apply _|..]; intros; intros s; apply rtc_once; constructor. Qed.
