(* ===== verification/RuntimeSafety.v ===== *)
(** * When the pump completes a workflow

    The runtime changes the database only by store operations.  The pump completes a
    workflow only through a completed step routed to [$complete], and under a completion
    policy only with evidence that satisfies it. *)

From S2P Require Import Prelude Values Json Contract Conditions Templates Verification Validator Outputs ValidatorProps OutputProps StoreRows Store StoreOps StoreProps StoreInv StoreRun StoreOnce RuntimeEnv Runtime RuntimeProps RuntimeDemo.

#[global] Instance eq_db_preorder : PreOrder (@eq DB : relation DB).
Proof. apply _. Qed.
#[local] Hint Constants Opaque : typeclass_instances.

(** ** No transition to completed *)

Definition status_of (id : string) (d : DB) : option string := w_status <$> workflowRow id d.

(** Workflow [id] is not completed by the step from [d] to [d']. *)
Definition no_complete (id : string) : relation DB := fun d d' => status_of id d' = Some "completed" -> status_of id d = Some "completed".
#[global] Instance no_complete_preorder (id : string) : PreOrder (no_complete id).
Proof. split; [by intros d H|]. intros a b c H1 H2 H. auto. Qed.

Section NoComplete.
Context (id : string).

Lemma nc_modify (f : DB -> DB) : (forall s, db_workflows (f s) = db_workflows s) -> Preserves (no_complete id) (modify f).
Proof. intros H s. unfold no_complete, status_of, workflowRow. cbn. by rewrite H. Qed.

Lemma nc_alter (s : DB) (j : string) (f : WorkflowRow -> WorkflowRow) :
  (forall r, workflowRow j s = Some r -> w_status (f r) = "completed" -> w_status r = "completed") ->
  no_complete id s (set_db_workflows (alter f j (db_workflows s)) s).
Proof.
  intros H. unfold no_complete, status_of, workflowRow in *. cbn. destruct (decide (j = id)) as [->|Hne].
  - rewrite lookup_alter_eq. destruct (db_workflows s !! id) as [r|]; [|done]. cbn. intros [= Hc]. by rewrite (H r eq_refl Hc).
  - by rewrite lookup_alter_ne.
Qed.

Lemma nc_update (j : string) (f : WorkflowRow -> WorkflowRow) :
  (forall r, w_status (f r) = w_status r) -> Preserves (no_complete id) (update_workflow j f).
Proof. intros H s. apply nc_alter. intros r _. by rewrite H. Qed.

Lemma nc_updateWorkflowSync (now j : string) (rev : Z) (p : WorkflowPatch) :
  wp_status p <> Some "completed" -> Preserves (no_complete id) (updateWorkflowSync now j rev p).
Proof.
  intros Hp s. unfold updateWorkflowSync, theWorkflow, update_workflow. run. apply run_last; [apply _|].
  apply nc_alter. intros r Hr. cbn. assert (a = r) as -> by congruence. destruct (wp_status p); cbn; [|done]. intros ->. done.
Qed.
End NoComplete.
#[global] Hint Extern 5 (Preserves (no_complete _) (modify _)) => (apply nc_modify; done) : typeclass_instances.
#[global] Hint Extern 5 (Preserves (no_complete _) (update_workflow _ _)) => (apply nc_update; done) : typeclass_instances.
#[global] Hint Extern 5 (Preserves (no_complete _) (updateWorkflowSync _ _ _ _)) => (apply nc_updateWorkflowSync; repeat case_match; cbn; congruence) : typeclass_instances.

Section Interface.
Context (id : string).
#[global] Instance nc_pause (now : string) (i : CreateHumanRequestInput) (st : string) (e : WorkflowEventDraft) : Preserves (no_complete id) (createHumanRequestAndPause now i st e).
Proof.
  destruct (decide (st = "completed")) as [->|Hne]; [|preserve].
  unfold createHumanRequestAndPause. do 3 (apply preserves_bind; [apply _|apply _|intros _]). intros s. reflexivity.
Qed.
#[global] Instance nc_pump_ops : PumpOps (no_complete id).
Proof. split; preserve. Qed.
#[global] Instance nc_bind_ops : BindOps (no_complete id).
Proof. split; preserve. Qed.
#[global] Instance nc_step_ops (w : string) : StepOps (no_complete id) w.
Proof. split; preserve. Qed.
#[global] Instance nc_advance_ops (w : string) : AdvanceOps (no_complete id) w.
Proof. split; preserve. Qed.
End Interface.

(** ** Runs of the runtime *)

Section Runs.
Context {E : Type} (env : Env E).
Implicit Types (w : World E).

Lemma rbind_inv {A B : Type} (m : R E A) (k : A -> R E B) w : 
  (exists a w1, m w = (Ok a, w1) /\ (m ≫= k) w = k a w1) \/ (exists e w1, m w = (Err e, w1) /\ (m ≫= k) w = (Err e, w1)).
Proof. unfold mbind, R_bind. destruct (m w) as [[a|e] w1]; [left; by exists a, w1|right; by exists e, w1]. Qed.

(** What a read returned was true of a database between the two worlds. *)
Lemma read_inv (Rel : relation DB) `{!PreOrder Rel} {A : Type} (m : M A) w r w1 :
  Rely env Rel -> Preserves eq m -> read env m w = (r, w1) ->
  exists d, Rel (wd_db w) d /\ wd_db w1 = d
    /\ ((exists a, m d = (Ok a, d) /\ r = Ok a) \/ (exists e, m d = (Err e, d) /\ r = Err (RStore e))).
Proof.
  intros Hr Hm. unfold read, store. specialize (Hr (wd_env w) (wd_db w)). destruct (en_interfere env (wd_env w) (wd_db w)) as [e1 d1].
  destruct (en_iso env e1) as [now e2]. specialize (Hm d1). destruct (m d1) as [[a|x] d2] eqn:Em; cbn in *; subst d2; intros [= <- <-]; exists d1; cbn; eauto 10.
Qed.
End Runs.

(** The status of a task, and its result, as the evidence assembly reads them. *)
Definition task_status_in (t : string) (d : DB) : option string :=
  match fst (getTask t d) with Ok o => t_status ∘ tk_row <$> o | Err _ => None end.
Definition task_result_in (sha256_hex : string -> string) (t : string) (d : DB) : option AgentTaskResultV1 :=
  match fst (getTaskResult sha256_hex t d) with Ok o => p ← o; snd p | Err _ => None end.

(** The facts about a step: the status and the result of its task. *)
Definition step_task (step : StepExecutionRecord) : option string := t ← st_task step; if t =s "" then None else Some t.
Definition step_task_status (step : StepExecutionRecord) (d : DB) : option string := t ← step_task step; task_status_in t d.
Definition step_task_result (sha256_hex : string -> string) (step : StepExecutionRecord) (d : DB) : option AgentTaskResultV1 := t ← step_task step; task_result_in sha256_hex t d.
Definition step_evidence (sha256_hex : string -> string) (step : StepExecutionRecord) (d1 d2 : DB) : VerifiedEvidence :=
  assembleEvidence sha256_hex (step_task_status step d1) (step_task_result sha256_hex step d2) (st_revision_before step) (st_revision_after step).

(** Before [d'] the evidence was given to the store to record: its row is there, with this
    evidence and the decision for workflow [id], unless one had been recorded for the step
    execution before, or the store refused to record it. *)
Definition evidence_recorded (id : string) (step : StepExecutionRecord) (ev : VerifiedEvidence) (d d' : DB) : Prop :=
  exists da, store_run d da /\ store_run da d' /\
    ((exists row, db_evidence d' !! st_id step = Some row /\
        (db_evidence da !! st_id step = Some row \/
         ce_workflow_id row = id /\ ce_decision row = "complete" /\ encodeJson (evidence_json ev) SIZE_LIMITS.metadata_json = Ok (ce_evidence_json row)))
     \/ exists now code, recordCompletionEvidence now (st_id step) id (evidence_json ev) "complete" da = (Err code, da)).

Lemma record_evidence (now sid id dec : string) (ev : value) (d d' : DB) (r : result err_code unit) :
  recordCompletionEvidence now sid id ev dec d = (r, d') ->
  match r with
  | Ok _ => exists row, db_evidence d' !! sid = Some row /\
      (db_evidence d !! sid = Some row \/ ce_workflow_id row = id /\ ce_decision row = dec /\ encodeJson ev SIZE_LIMITS.metadata_json = Ok (ce_evidence_json row))
  | Err _ => d' = d
  end.
Proof.
  intros H. destruct r as [[]|e]; [|by apply failed_transaction in H]. unfold recordCompletionEvidence in H. inv_run H.
  destruct (db_evidence d !! sid) as [row|] eqn:Er; cbn [is_some] in H2; unfold unless in H2; [injection H2 as ->; exists row; split; [done|by left]|inv_run H2].
  unfold boundString in *. destruct (64 <? byteLen dec); [done|]. simplify_eq. eexists. split; [cbn; apply lookup_insert_eq|]. right. done.
Qed.

(** How workflow [id] came to be completed between [d0] and [d']: the pump read the running
    workflow and its spec, a completed step execution of this workflow whose output routes
    to [$complete], and, under a completion policy, facts that meet it; it gave the
    evidence to the store to record. *)
Record completes (sha256_hex : string -> string) (id : string) (d0 d' : DB) : Prop := {
  co_witness : exists d wf spec, store_run d0 d /\ store_run d d' /\ getWorkflow id d = (Ok (Some wf), d) /\ wf_status wf = "running" /\ loadSpec wf = Some spec
    /\ exists ds key step out kind, store_run d ds /\ store_run ds d'
        /\ stepRow key ds = Some (st_row step) /\ s_workflow_id (st_row step) = id /\ s_status (st_row step) = "completed"
        /\ output_obj step = Some out /\ selectEdge spec (st_step step) out (st_round step) = RouteTo true "$complete" kind
        /\ (truthy (get "completion_policy" spec) = true ->
            exists d1 d2, store_run ds d1 /\ store_run d1 d2 /\ store_run d2 d'
              /\ facts_meet (step_task_status step d1) (step_task_result sha256_hex step d2) (st_revision_before step) (st_revision_after step)
                   (get "completion_policy" spec) (declaredRemainingWork step)
              /\ evidence_recorded id step (step_evidence sha256_hex step d1 d2) d2 d');
}.

Section Completion.
Context {E : Type} (env : Env E) (id : string) {Hrun : Rely env store_run} {Hnc : Rely env (no_complete id)}.
Implicit Types (w : World E).

Lemma rrun_bind {A B : Type} (m : R E A) (k : A -> R E B) w a w1 : m w = (Ok a, w1) -> (m ≫= k) w = k a w1.
Proof. unfold mbind, R_bind. by intros ->. Qed.

Lemma try_read {A B : Type} (m : M A) (f : A -> option B) w :
  Preserves eq m -> exists d w1, try_catch (o ← read env m; mret (f o)) (fun _ => mret None) w = (Ok (match fst (m d) with Ok a => f a | Err _ => None end), w1)
    /\ store_run (wd_db w) d /\ wd_db w1 = d.
Proof.
  intros Hm. unfold try_catch, mbind, R_bind. destruct (read env m w) as [x w2] eqn:Er.
  destruct (read_inv env store_run m w x w2 _ _ Er) as (d & Hd & E2 & [(a & Ea & ->)|(e & Ea & ->)]); exists d; rewrite Ea; eauto.
Qed.

Lemma assemble_inv (step : StepExecutionRecord) w :
  exists d1 d2 w1, assembleStepEvidence env step w = (Ok (step_evidence (en_sha256_hex env) step d1 d2), w1)
    /\ store_run (wd_db w) d1 /\ store_run d1 d2 /\ wd_db w1 = d2.
Proof.
  unfold assembleStepEvidence, step_evidence, step_task_status, step_task_result, step_task.
  destruct (st_task step) as [t|]; cbn [mbind option_bind]; [|by exists (wd_db w), (wd_db w), w].
  destruct (t =s "") eqn:Et; cbn [mbind option_bind]; [by exists (wd_db w), (wd_db w), w|].
  destruct (try_read (getTask t) (fun o => t_status ∘ tk_row <$> o) w (reads_getTask eq t)) as (d1 & w1 & E1 & H1 & <-).
  destruct (try_read (getTaskResult (en_sha256_hex env) t) (fun o => p ← o; snd p) w1 (reads_getTaskResult eq _ t)) as (d2 & w2 & E2 & H2 & <-).
  exists (wd_db w1), (wd_db w2), w2. rewrite (rrun_bind _ _ _ _ _ E1), (rrun_bind _ _ _ _ _ E2). done.
Qed.

(** What the pump has read when it routes: the workflow with its spec, at [d], and the
    completed step, at [ds]. *)
Record routing (d0 : DB) (spec : value) (step : StepExecutionRecord) (d' : DB) : Prop := {
  ro_reads : exists d wf ds key, store_run d0 d /\ getWorkflow id d = (Ok (Some wf), d) /\ wf_status wf = "running" /\ loadSpec wf = Some spec
    /\ store_run d ds /\ stepRow key ds = Some (st_row step) /\ store_run ds d';
  ro_own : s_workflow_id (st_row step) = id;
  ro_completed : s_status (st_row step) = "completed";
}.

Lemma routing_completes (d0 : DB) (spec : value) (step : StepExecutionRecord) (out : value) (kind : string) (d d' : DB) :
  routing d0 spec step d -> store_run d d' -> output_obj step = Some out ->
  selectEdge spec (st_step step) out (st_round step) = RouteTo true "$complete" kind ->
  (truthy (get "completion_policy" spec) = true ->
    exists d1 d2, store_run d d1 /\ store_run d1 d2 /\ store_run d2 d'
      /\ facts_meet (step_task_status step d1) (step_task_result (en_sha256_hex env) step d2) (st_revision_before step) (st_revision_after step)
           (get "completion_policy" spec) (declaredRemainingWork step)
      /\ evidence_recorded id step (step_evidence (en_sha256_hex env) step d1 d2) d2 d') ->
  completes (en_sha256_hex env) id d0 d'.
Proof.
  intros [(dw & wf & ds & key & H1 & Hw & Hst & Hl & H2 & Hs & H3) Hown Hc] H4 Ho He Hp. constructor. exists dw, wf, spec.
  split; [done|]. split; [by do 2 (etransitivity; [eassumption|])|]. do 3 (split; [done|]). exists ds, key, step, out, kind.
  split; [done|]. split; [by etransitivity|]. do 5 (split; [done|]). intros Ht. destruct (Hp Ht) as (d1 & d2 & G1 & G2 & G3 & G4).
  exists d1, d2. split; [by etransitivity|done].
Qed.

(** The evidence is given to the store first. *)
Lemma recorded_first (step : StepExecutionRecord) (ev : VerifiedEvidence) w :
  exists da db w2, try_catch (store env (fun now => recordCompletionEvidence now (st_id step) id (evidence_json ev) "complete")) (fun _ => mret tt) w = (Ok tt, w2) /\
    store_run (wd_db w) da /\ store_run da db /\ wd_db w2 = db /\
    ((exists row, db_evidence db !! st_id step = Some row /\
        (db_evidence da !! st_id step = Some row \/
         ce_workflow_id row = id /\ ce_decision row = "complete" /\ encodeJson (evidence_json ev) SIZE_LIMITS.metadata_json = Ok (ce_evidence_json row)))
     \/ exists now code, recordCompletionEvidence now (st_id step) id (evidence_json ev) "complete" da = (Err code, da)).
Proof.
  unfold try_catch, store. pose proof (Hrun (wd_env w) (wd_db w)) as H1. destruct (en_interfere env (wd_env w) (wd_db w)) as [e1 da]. destruct (en_iso env e1) as [now e2].
  destruct (recordCompletionEvidence now (st_id step) id (evidence_json ev) "complete" da) as [r db] eqn:Er.
  assert (H2 : store_run da db).
  { assert (HP : Preserves store_run (recordCompletionEvidence now (st_id step) id (evidence_json ev) "complete")) by preserve. specialize (HP da). by rewrite Er in HP. }
  pose proof (record_evidence _ _ _ _ _ _ _ _ Er) as Hrec.
  exists da, db. destruct r as [[]|c]; eexists; (split; [done|]); do 3 (split; [done|]); [by left|]. right. subst db. by exists now, c.
Qed.

Lemma gate_careful (d0 : DB) (spec : value) (step : StepExecutionRecord) (out : value) (kind target : string) w :
  routing d0 spec step (wd_db w) -> output_obj step = Some out ->
  selectEdge spec (st_step step) out (st_round step) = RouteTo true "$complete" kind ->
  no_complete id (wd_db w) (wd_db (snd (gateCompletion env id spec step target w)))
  \/ completes (en_sha256_hex env) id d0 (wd_db (snd (gateCompletion env id spec step target w))).
Proof.
  intros Hr Ho He. destruct (assemble_inv step w) as (d1 & d2 & w1 & E1 & H1 & H2 & E2).
  assert (no_complete id (wd_db w) (wd_db w1)) as Hn.
  { pose proof (rp_stepEvidence env (no_complete id) step w) as H. by rewrite E1 in H. }
  unfold gateCompletion. rewrite (rrun_bind _ _ _ _ _ E1). cbv zeta.
  set (ev := step_evidence _ _ _ _) in *. destruct (evaluateCompletion _ _ _) as [|m|m] eqn:Ed; cbn [decision_outcome].
  - right. cbn [decision_name]. destruct (recorded_first step ev w1) as (da & db & w2 & Ew & Hda & Hdb & Ew2 & Hrec). rewrite (rrun_bind _ _ _ _ _ Ew).
    match goal with |- completes _ _ _ (wd_db (snd (?m w2))) => assert (RPreserves store_run m) as Hk by rpreserve end.
    specialize (Hk w2). rewrite Ew2 in Hk. rewrite E2 in Hda. match goal with |- completes _ _ _ ?x => set (d' := x) in * end. assert (Hd' : store_run da d') by by transitivity db.
    eapply routing_completes; [done|by transitivity d1; [done|]; transitivity d2; [done|]; transitivity da|done|done|].
    intros _. exists d1, d2. split; [done|]. split; [done|]. split; [by transitivity da|]. split; [by apply decision_facts in Ed|].
    exists da. split; [done|]. split; [done|]. destruct Hrec as [(row & Hrow & Hr')|Hrec]; [|by right]. left. exists row. split; [|done].
    destruct (ev_evidence _ _ (store_run_evolves _ _ Hk) _ _ Hrow) as (row' & Hrow' & <-). done.
  - left. etransitivity; [exact Hn|]. match goal with |- no_complete _ _ (wd_db (snd (?m w1))) => assert (RPreserves (no_complete id) m) as Hk by rpreserve end. apply Hk.
  - left. etransitivity; [exact Hn|]. match goal with |- no_complete _ _ (wd_db (snd (?m w1))) => assert (RPreserves (no_complete id) m) as Hk by rpreserve end. apply Hk.
Qed.

(** A run of [m] preserves [Rel]. *)
Ltac by_rp := match goal with |- ?Rel (wd_db ?w) (wd_db (snd (?m ?w))) => let H := fresh in assert (RPreserves Rel m) as H; [rpreserve|exact (H w)] end.

Lemma route_careful (d0 : DB) (spec : value) (step : StepExecutionRecord) w :
  routing d0 spec step (wd_db w) ->
  no_complete id (wd_db w) (wd_db (snd (routeAndAdvance env id spec step w)))
  \/ completes (en_sha256_hex env) id d0 (wd_db (snd (routeAndAdvance env id spec step w))).
Proof.
  intros Hr. unfold routeAndAdvance. destruct (output_obj step) as [out|] eqn:Eo; [|left; by_rp].
  destruct (selectEdge spec (st_step step) out (st_round step)) as [[] t k| |] eqn:Es; [|left; by_rp..]. cbv zeta.
  destruct (selectEdge_terminal _ _ _ _ _ _ Es) as [-> | [-> | ->]].
  - change (patched (terminalTargetToStatus "$complete") "") with "completed".
    change ("completed" =s "completed") with true. rewrite andb_true_l. destruct (truthy (get "completion_policy" spec)) eqn:Et.
    + by eapply gate_careful.
    + right. eapply routing_completes; [done| |done|done|congruence]. by_rp.
  - left. change (patched (terminalTargetToStatus "$failed") "") with "failed". change ("failed" =s "completed") with false.
    rewrite andb_false_l. by_rp.
  - left. change (patched (terminalTargetToStatus "$blocked") "") with "blocked". change ("blocked" =s "completed") with false.
    rewrite andb_false_l. by_rp.
Qed.

(** From [w] the rest does not complete the workflow, or completes it as it should. *)
Definition good (d0 : DB) (d d' : DB) : Prop := no_complete id d d' \/ completes (en_sha256_hex env) id d0 d'.

Lemma good_bind {A B : Type} (d0 : DB) (m : R E A) (k : A -> R E B) w :
  RPreserves (no_complete id) m -> (forall a w1, m w = (Ok a, w1) -> good d0 (wd_db w1) (wd_db (snd (k a w1)))) ->
  good d0 (wd_db w) (wd_db (snd ((m ≫= k) w))).
Proof.
  intros Hm Hk. specialize (Hm w). destruct (rbind_inv m k w) as [(a & w1 & E1 & ->)|(e & w1 & E1 & ->)]; rewrite E1 in Hm; [|by left].
  destruct (Hk a w1 E1) as [H|H]; [left; by etransitivity|by right].
Qed.

Lemma run_of {A : Type} (m : R E A) w r w1 : RPreserves store_run m -> m w = (r, w1) -> store_run (wd_db w) (wd_db w1).
Proof. intros Hm H. specialize (Hm w). by rewrite H in Hm. Qed.

Lemma step_key_workflow (sid : string) (round attempt : Z) (r : StepRow) : same_step_key id sid round attempt r = true -> s_workflow_id r = id.
Proof. unfold same_step_key. intros H. bsimpl. naive_solver. Qed.
(** The current step, as read or as just started, is a row of the database. *)
Lemma step_read_own (sid : string) (round : Z) w o w1 :
  read env (getStepExecutionByKey id sid round 1) w = (Ok (Some o), w1) -> exists key, stepRow key (wd_db w1) = Some (st_row o) /\ s_workflow_id (st_row o) = id.
Proof.
  intros H. destruct (read_inv env store_run _ _ _ _ Hrun (reads_getStepByKey eq _ _ _ _) H) as (d & _ & -> & [(a & Ha & [= <-])|(e & _ & [=])]).
  unfold getStepExecutionByKey in Ha. apply bind_ok in Ha as (u & d1 & [_ ->]%opened_ok & Ha). apply bind_ok in Ha as (r & d2 & [-> ->]%gets_ok & Ha).
  destruct (stepExecByKey id sid round 1 d) as [r|] eqn:Er; [|done]. cbn in Ha. apply bind_ok in Ha as (x & d3 & Hx & [= <- <-]).
  apply find_row_some in Er as (key & Hk & Hs). exists key. apply toStep_row in Hx as [-> _]. split; [exact Hk|by apply step_key_workflow in Hs].
Qed.

Lemma startStep_own (sid : string) (round : Z) w x w1 :
  startStep env id sid round w = (Ok x, w1) -> exists key, stepRow key (wd_db w1) = Some (st_row x) /\ s_workflow_id (st_row x) = id.
Proof.
  unfold startStep, iso, from_env, mbind, R_bind. destruct (en_iso env (wd_env w)) as [ts e1].
  unfold store. destruct (en_interfere env _ _) as [e2 d1]. destruct (en_iso env e2) as [now e3].
  destruct (ensureStepStarted _ _ _ _ d1) as [[[[y wf] b]|e] d2] eqn:E1; [|done]. intros [= <- <-]. cbn.
  apply ensureStepStarted_row in E1 as (k & Hk & Hs). exists k. split; [done|by apply step_key_workflow in Hs].
Qed.

Lemma step_read (sid : string) (round : Z) w o w1 :
  read env (getStepExecutionByKey id sid round 1) w = (Ok (Some o), w1) -> exists key, stepRow key (wd_db w1) = Some (st_row o).
Proof. intros (key & Hk & _)%step_read_own. by exists key. Qed.
Lemma startStep_row (sid : string) (round : Z) w x w1 : startStep env id sid round w = (Ok x, w1) -> exists key, stepRow key (wd_db w1) = Some (st_row x).
Proof. intros (key & Hk & _)%startStep_own. by exists key. Qed.

Lemma driveStep_good (fuel : nat) w : good (wd_db w) (wd_db w) (wd_db (snd (driveStep env fuel id w))).
Proof.
  unfold driveStep. apply good_bind; [rpreserve|]. intros [wf|] w1 E1; [|by left].
  destruct (wf_status wf =s "running") eqn:Est; cbn [negb]; [|by left]. apply String.eqb_eq in Est. destruct (loadSpec wf) as [spec|] eqn:El; [|left; by_rp].
  destruct (w_cancel_requested (wf_row wf)); [left; by_rp|].
  destruct (read_inv env store_run _ _ _ _ Hrun (reads_getWorkflow eq _) E1) as (d & Hd & Ed & [(a & Ha & [= <-])|(e & _ & [=])]).
  apply good_bind; [rpreserve|]. intros b w2 E2. destruct b; [left; by_rp|]. cbv zeta.
  apply good_bind; [rpreserve|]. intros os w3 E3. apply good_bind; [destruct os; rpreserve|]. intros step w4 E4.
  destruct (s_status (st_row step) =s "completed") eqn:Es; [|left; by_rp]. bsimpl.
  assert (exists key, stepRow key (wd_db w4) = Some (st_row step) /\ s_workflow_id (st_row step) = id) as (key & Hkey & Hown).
  { destruct os as [x|]; [injection E4 as <- <-; by eapply step_read_own|by eapply startStep_own]. }
  apply route_careful. constructor; [|done|done]. exists d, wf, (wd_db w4), key. do 4 (split; [done|]).
  split; [|split; [done|reflexivity]]. subst d.
  apply run_of in E2; [|rpreserve]. apply run_of in E3; [|rpreserve]. apply run_of in E4; [|destruct os; rpreserve].
  by do 2 (etransitivity; [eassumption|]).
Qed.

Lemma completes_mono (sha256_hex : string -> string) (d0 d1 d2 d3 : DB) :
  store_run d0 d1 -> completes sha256_hex id d1 d2 -> store_run d2 d3 -> completes sha256_hex id d0 d3.
Proof.
  intros H01 [(d & wf & spec & G1 & G2 & Hw & Hst & Hl & ds & key & step & out & kind & G3 & G4 & Hs & Hown & Hc & Ho & He & Hp)] H23.
  constructor. exists d, wf, spec. split; [by transitivity d1|]. split; [by transitivity d2|]. do 3 (split; [done|]).
  exists ds, key, step, out, kind. split; [done|]. split; [by transitivity d2|]. do 5 (split; [done|]). intros Ht.
  destruct (Hp Ht) as (p1 & p2 & K1 & K2 & K3 & K4 & da & K5 & K6 & K7). exists p1, p2. do 2 (split; [done|]). split; [by transitivity d2|]. split; [done|].
  exists da. split; [done|]. split; [by transitivity d2|]. destruct K7 as [(row & Hrow & Hr)|K7]; [left|by right]. exists row. split; [|done].
  by destruct (ev_evidence _ _ (store_run_evolves _ _ H23) _ _ Hrow) as (row' & Hrow' & <-).
Qed.

(** Later parts of a run. *)
Lemma good_seq {A B : Type} (m : R E A) (k : A -> R E B) w :
  RPreserves store_run m -> (forall a, RPreserves store_run (k a)) ->
  good (wd_db w) (wd_db w) (wd_db (snd (m w))) -> (forall a w1, good (wd_db w1) (wd_db w1) (wd_db (snd (k a w1)))) ->
  good (wd_db w) (wd_db w) (wd_db (snd ((m ≫= k) w))).
Proof.
  intros Hm Hk H1 H2. specialize (Hm w).
  destruct (rbind_inv m k w) as [(a & w1 & E1 & ->)|(e & w1 & E1 & ->)]; rewrite E1 in Hm, H1; [|done]. cbn in Hm, H1.
  specialize (Hk a w1). destruct H1 as [H1|H1].
  - destruct (H2 a w1) as [H3|H3]; [left; by etransitivity|right]. eapply completes_mono; [exact Hm|exact H3|reflexivity].
  - right. eapply completes_mono; [reflexivity|exact H1|exact Hk].
Qed.

Lemma drive_good (turns fuel : nat) w : good (wd_db w) (wd_db w) (wd_db (snd (driveWorkflow env turns fuel id w))).
Proof.
  revert w. induction turns as [|n IH]; intros w; cbn [driveWorkflow]; [by left|].
  apply good_bind; [rpreserve|]. intros st w1 [= _ <-]. destruct st; [by left|].
  apply good_seq; [apply _|rpreserve|apply driveStep_good|]. intros [] w2; [by left|apply IH].
Qed.

Lemma runWorkflow_good (turns fuel : nat) w : good (wd_db w) (wd_db w) (wd_db (snd (runWorkflow env turns fuel id w))).
Proof. unfold runWorkflow. apply good_seq; [apply _|rpreserve|apply drive_good|]. intros [] w1. left. by_rp. Qed.
End Completion.

(** The runtime reaches the database only through the store: after any sequence of calls
    of its public methods, runs of pumps, reconcile timers and process restarts, beside
    other users who use the store's operations too, the database has evolved and still
    satisfies the store's invariants. *)
Lemma runtime_keeps_store {E : Type} (env : Env E) (w w' : World E) :
  Rely env store_run -> rtc (runtime_step env) w w' ->
  evolves (wd_db w) (wd_db w') /\ (store_ok (wd_db w) -> store_ok (wd_db w')).
Proof.
  intros Hr Hw. pose proof (runtime_run env w w' Hr Hw) as H. split; [by apply store_run_evolves|by apply store_ok_run].
Qed.

#[global] Instance demo_rely_nc (id : string) : Rely demo_env (no_complete id).
Proof. apply demo_rely; [apply _|preserve..]. Qed.

(** C16. The pump completes a workflow only on verified facts: if a run of the pump, with
    any clients and clock, and beside users of the store who reach it only through its
    operations and do not themselves complete this workflow, takes it to [completed], then
    it had read the running workflow with its spec, and a completed step execution of this
    workflow whose output routes to [$complete]; and if the spec has a completion policy,
    the recorded status of the step's task, the recorded result of that task and the
    observed revisions of the step do not contradict the completion and meet every
    requirement of the policy.  Before the completion this evidence was given to the store,
    and its row is there under the step execution with the decision, unless a row had been
    recorded for the step execution earlier, which is kept, or the store refused to record
    it, which the runtime ignores. *)
Theorem pump_completion_verified {E : Type} (env : Env E) (id : string) (turns fuel : nat) (w : World E) :
  Rely env store_run -> Rely env (no_complete id) ->
  status_of id (wd_db w) <> Some "completed" ->
  status_of id (wd_db (snd (runWorkflow env turns fuel id w))) = Some "completed" ->
  completes (en_sha256_hex env) id (wd_db w) (wd_db (snd (runWorkflow env turns fuel id w))).
Proof. intros H1 H2 H3 H4. destruct (runWorkflow_good env id turns fuel w) as [H|H]; [by destruct H3; apply H|done]. Qed.

Lemma pump_completion_verified_witness : completes demo_sha demo_id (wd_db one_step) (wd_db one_step_end).
Proof.
  apply (pump_completion_verified demo_env demo_id 10 10 one_step); [apply demo_rely_run|apply demo_rely_nc| |];
    vm_compute; [discriminate|reflexivity].
Defined.
