(* ===== verification/RuntimeLimits.v ===== *)
(** * The task budget

    The pump binds at most [max_tasks] tasks to a workflow: every operation but the
    binding of a task leaves the counter alone, and a turn of the drive loop binds at most
    one task, after it has compared the counter with the limit. *)

From S2P Require Import Prelude Values Json Contract Conditions Templates Verification Validator Outputs ValidatorProps OutputProps StoreRows Store StoreOps StoreProps StoreInv StoreRun StoreOnce RuntimeEnv Runtime RuntimeProps RuntimeDemo RuntimeSafety.

#[local] Hint Constants Opaque : typeclass_instances.

(** ** Operations that leave the counter alone *)

(** Workflow [id] still exists, with the same spec and at most [n] more tasks. *)
Definition tasks_grow (n : Z) (id : string) : relation DB := fun d d' =>
  forall r, workflowRow id d = Some r ->
    exists r', workflowRow id d' = Some r' /\ w_spec_json r' = w_spec_json r /\ w_total_tasks r' <= w_total_tasks r + n.
Abbreviation same_tasks := (tasks_grow 0).

Lemma tasks_grow_trans (n m : Z) (id : string) (a b c : DB) : tasks_grow n id a b -> tasks_grow m id b c -> tasks_grow (n + m) id a c.
Proof.
  intros H1 H2 r Hr. destruct (H1 r Hr) as (r1 & Hr1 & E1 & L1). destruct (H2 r1 Hr1) as (r2 & Hr2 & E2 & L2).
  exists r2. split; [done|]. split; [congruence|lia].
Qed.
#[global] Instance same_tasks_preorder (id : string) : PreOrder (same_tasks id).
Proof.
  split; [|intros a b c; apply (tasks_grow_trans 0 0)]. intros d r Hr. exists r. split; [done|]. split; [done|lia].
Qed.

Section Ops.
Context (id : string).

Lemma st_modify (f : DB -> DB) : (forall s, db_workflows (f s) = db_workflows s) -> Preserves (same_tasks id) (modify f).
Proof. intros H s r. unfold workflowRow. cbn. rewrite H. intros Hr. exists r. split; [done|]. split; [done|lia]. Qed.

Lemma tasks_alter (n : Z) (s : DB) (j : string) (f : WorkflowRow -> WorkflowRow) :
  0 <= n -> (forall r, workflowRow j s = Some r -> w_spec_json (f r) = w_spec_json r /\ w_total_tasks (f r) <= w_total_tasks r + n) ->
  tasks_grow n id s (set_db_workflows (alter f j (db_workflows s)) s).
Proof.
  intros Hn H r Hr. unfold workflowRow in *. cbn. destruct (decide (j = id)) as [->|Hne].
  - rewrite lookup_alter_eq, Hr. exists (f r). split; [done|]. by apply H.
  - rewrite lookup_alter_ne by done. exists r. split; [done|]. split; [done|lia].
Qed.

Lemma st_update (j : string) (f : WorkflowRow -> WorkflowRow) :
  (forall r, w_spec_json (f r) = w_spec_json r /\ w_total_tasks (f r) = w_total_tasks r) -> Preserves (same_tasks id) (update_workflow j f).
Proof. intros H s. apply tasks_alter; [lia|]. intros r _. destruct (H r) as [-> ->]. split; [done|lia]. Qed.

Lemma st_updateWorkflowSync (now j : string) (rev : Z) (p : WorkflowPatch) : wp_total_tasks p = None -> Preserves (same_tasks id) (updateWorkflowSync now j rev p).
Proof.
  intros Hp s. unfold updateWorkflowSync, theWorkflow, update_workflow. run. apply run_last; [apply _|].
  apply tasks_alter; [lia|]. intros r Hr. assert (a = r) as -> by congruence. cbn. rewrite Hp. cbn. split; [done|lia].
Qed.
End Ops.
#[global] Hint Extern 5 (Preserves (tasks_grow 0 _) (modify _)) => (apply st_modify; done) : typeclass_instances.
#[global] Hint Extern 5 (Preserves (tasks_grow 0 _) (update_workflow _ _)) => (apply st_update; by repeat split) : typeclass_instances.
#[global] Hint Extern 5 (Preserves (tasks_grow 0 _) (updateWorkflowSync _ _ _ _)) => (apply st_updateWorkflowSync; repeat case_match; done) : typeclass_instances.

#[global] Instance st_pump_ops (id : string) : PumpOps (same_tasks id).
Proof. split; preserve. Qed.
#[global] Instance st_step_ops (id w : string) : StepOps (same_tasks id) w.
Proof. split; preserve. Qed.
#[global] Instance st_advance_ops (id w : string) : AdvanceOps (same_tasks id) w.
Proof. split; preserve. Qed.
#[global] Instance st_complete_ops (id : string) : CompleteOps (same_tasks id).
Proof. split; preserve. Qed.
#[global] Instance st_updateStepSync (id now sid : string) (rev : Z) (p : StepExecutionPatch) : Preserves (same_tasks id) (updateStepSync now sid rev p).
Proof. preserve. Qed.
#[global] Instance st_append (id now w : string) (e : WorkflowEventDraft) : Preserves (same_tasks id) (appendWorkflowEventAuto now w e).
Proof. preserve. Qed.

(** ** Binding one task *)

Lemma wp_tasks_grow (id now w : string) (rev : Z) (s s' : DB) (x : WorkflowRecord) (r : WorkflowRow) :
  workflowRow w s = Some r -> updateWorkflowSync now w rev (wp_tasks (w_total_tasks r + 1)) s = (Ok x, s') -> tasks_grow 1 id s s'.
Proof.
  intros Hr H. unfold updateWorkflowSync, update_workflow in H. inv_run H.
  match goal with H : workflowRecord _ _ = _ |- _ => apply read_ok in H as ->; [|apply _] end.
  apply tasks_alter; [lia|]. intros q Hq. simplify_eq. cbn. split; [done|lia].
Qed.

(** A failed public operation leaves the database as it was. *)
Lemma rolled_back {A : Type} (m : M A) (s s' : DB) (c : err_code) : (opened;; transaction m) s = (Err c, s') -> s' = s.
Proof.
  unfold opened, mbind, M_bind, gets, check, transaction. cbn. destruct (negb (db_closed s)); cbn; [|by intros [= _ <-]].
  destruct (m s) as [[a|e] s1]; [done|]. by intros [= _ <-].
Qed.

(** Binding adds at most one task if it succeeds and nothing if it fails. *)
Lemma bind_grows (id now sid t w : string) (e : WorkflowEventDraft) (s : DB) :
  match bindStepTaskOnce now sid t w e s with (Ok _, s') => tasks_grow 1 id s s' | (Err _, s') => s' = s end.
Proof.
  destruct (bindStepTaskOnce now sid t w e s) as [[x|c] s'] eqn:H.
  - unfold bindStepTaskOnce in H. inv_run H. branch Eb.
    + match goal with H : toStep _ _ = _ |- _ => apply toStep_row in H as [_ ->] end. apply (tasks_grow_trans 0 1 id _ s); [reflexivity|].
      intros r Hr. exists r. split; [done|]. split; [done|lia].
    + repeat match goal with
      | H : updateStepSync _ _ _ _ _ = _ |- _ => apply (preserved (same_tasks id)) in H; [|apply _]
      | H : appendWorkflowEventAuto _ _ _ _ = _ |- _ => apply (preserved (same_tasks id)) in H; [|apply _]
      | H : stepRecord _ _ = _ |- _ => apply stepRecord_ok in H as (? & _ & _ & ->)
      | H : updateWorkflowSync _ _ _ _ _ = _ |- _ => eapply (wp_tasks_grow id) in H; [|eassumption]
      end.
      eapply (tasks_grow_trans 0 1); [eassumption|]. by eapply (tasks_grow_trans 1 0).
  - by apply rolled_back in H.
Qed.

Section Budget.
Context {E : Type} (env : Env E) (id : string) {Hst : Rely env (same_tasks id)}.
Implicit Types (w : World E).

Lemma create_and_bind_grows (step : StepExecutionRecord) (req : AgentTaskCreateRequest) w :
  match create_and_bind env id step req w with
  | (Ok _, w') => tasks_grow 1 id (wd_db w) (wd_db w')
  | (Err _, w') => same_tasks id (wd_db w) (wd_db w')
  end.
Proof.
  unfold create_and_bind, log_call, client, iso, from_env, store, mbind, R_bind. cbn.
  destruct (en_createTask env req (wd_env w)) as [[t|c] e1]; cbn; [|reflexivity]. destruct (en_iso env e1) as [ts e2]. cbn.
  pose proof (Hst e2 (wd_db w)) as Hr. destruct (en_interfere env e2 (wd_db w)) as [e3 d1]. cbn in Hr. destruct (en_iso env e3) as [now e4].
  match goal with |- context [bindStepTaskOnce ?n ?s ?t ?i ?e d1] => pose proof (bind_grows id n s t i e d1) as Hb; destruct (bindStepTaskOnce n s t i e d1) as [[x|c] d2] end; cbn.
  - by apply (tasks_grow_trans 0 1 id _ d1).
  - by subst d2.
Qed.

Lemma tasks_grow_mono (n m : Z) (d d' : DB) : n <= m -> tasks_grow n id d d' -> tasks_grow m id d d'.
Proof. intros Hn H r Hr. destruct (H r Hr) as (r' & Hr' & E1 & L). exists r'. split; [done|]. split; [done|lia]. Qed.

(** The workflow after [m] has at most [n] more tasks than in [d]. *)
Lemma grow_bind {A B : Type} (n : Z) (m : R E A) (k : A -> R E B) w :
  0 <= n -> RPreserves (same_tasks id) m -> (forall a w1, m w = (Ok a, w1) -> tasks_grow n id (wd_db w1) (wd_db (snd (k a w1)))) ->
  tasks_grow n id (wd_db w) (wd_db (snd ((m ≫= k) w))).
Proof.
  intros Hn Hm Hk. specialize (Hm w). destruct (rbind_inv m k w) as [(a & w1 & E1 & ->)|(e & w1 & E1 & ->)]; rewrite E1 in Hm.
  - apply (tasks_grow_trans 0 n id _ (wd_db w1)); [done|]. by apply Hk.
  - by apply (tasks_grow_mono 0).
Qed.
(** What only preserves the counter grows it by at most [n]. *)
Lemma grow_same {A : Type} (n : Z) (m : R E A) w : 0 <= n -> RPreserves (same_tasks id) m -> tasks_grow n id (wd_db w) (wd_db (snd (m w))).
Proof. intros Hn Hm. apply (tasks_grow_mono 0); [done|apply Hm]. Qed.

Lemma create_loop_grows (fuel : nat) (wf : WorkflowRecord) (step : StepExecutionRecord) (req : AgentTaskCreateRequest) w :
  tasks_grow 1 id (wd_db w) (wd_db (snd (create_loop env fuel id wf step req w))).
Proof.
  revert w. induction fuel as [|n IH]; intros w; cbn [create_loop]; [apply grow_same; [lia|rpreserve]|].
  apply grow_bind; [lia|rpreserve|]. intros st w1 _. apply grow_bind; [lia|rpreserve|]. intros ab w2 _.
  destruct (st || ab); [apply grow_same; [lia|rpreserve]|]. apply grow_bind; [lia|rpreserve|]. intros d w3 _.
  destruct d; [apply grow_same; [lia|rpreserve]|]. unfold try_catch.
  pose proof (create_and_bind_grows step req w3) as Hc. destruct (create_and_bind env id step req w3) as [[[]|e] w4] eqn:Ec.
  - by rewrite (rrun_bind _ _ _ _ _ Ec).
  - replace ((create_and_bind env id step req;; mret true) w3) with (@Err rt_error bool e, w4) by (unfold mbind, R_bind; by rewrite Ec).
    assert (forall m : R E bool, (forall w, tasks_grow 1 id (wd_db w) (wd_db (snd (m w)))) -> tasks_grow 1 id (wd_db w3) (wd_db (snd (m w4)))) as Hh.
    { intros m Hm. apply (tasks_grow_trans 0 1 id _ (wd_db w4)); [exact Hc|apply Hm]. }
    destruct e as [| []| | | |]; try (apply Hh; intros w5; apply grow_same; [lia|solve [rpreserve]]).
    + apply Hh. intros w5. apply grow_bind; [lia|rpreserve|]. intros ? w6 _. apply IH.
    + apply (tasks_grow_mono 0); [lia|exact Hc].
Qed.

Lemma createAndBind_grows (fuel : nat) (spec : value) (wf : WorkflowRecord) (step : StepExecutionRecord) w :
  tasks_grow 1 id (wd_db w) (wd_db (snd (createAndBindTask env fuel id spec wf step w))).
Proof.
  unfold createAndBindTask. destruct (find_step spec (st_step step)) as [specStep|]; [|apply grow_same; [lia|rpreserve]]. cbv zeta.
  destruct (negb (truthy (role_of spec specStep))); [apply grow_same; [lia|rpreserve]|].
  apply grow_bind; [lia|rpreserve|]. intros ok w1 _. destruct (negb ok); [apply grow_same; [lia|rpreserve]|].
  apply grow_bind; [lia|rpreserve|]. intros scope w2 _.
  destruct (renderPrompt _ scope _) as [text|]; [|apply grow_same; [lia|rpreserve]].
  destruct (renderWorkspaceKey _ scope) as [ws|]; [|apply grow_same; [lia|rpreserve]].
  apply grow_bind; [lia|rpreserve|]. intros g w3 _. destruct (negb g); [apply grow_same; [lia|rpreserve]|]. apply create_loop_grows.
Qed.

(** Workflow [id] has the spec text [json] and at most [n] tasks. *)
Definition within (json : string) (n : Z) (d : DB) : Prop := exists r, workflowRow id d = Some r /\ w_spec_json r = json /\ w_total_tasks r <= n.

Lemma within_grow (json : string) (n k : Z) (d d' : DB) : tasks_grow k id d d' -> within json n d -> within json (n + k) d'.
Proof. intros H (r & Hr & <- & Hn). destruct (H r Hr) as (r' & Hr' & E1 & L). exists r'. split; [done|]. split; [done|lia]. Qed.
Lemma within_same (json : string) (n : Z) (d d' : DB) : same_tasks id d d' -> within json n d -> within json n d'.
Proof. intros H Hw. replace n with (n + 0) by lia. by eapply within_grow. Qed.
Lemma within_le (json : string) (n m : Z) (d : DB) : n <= m -> within json n d -> within json m d.
Proof. intros Hn (r & Hr & E1 & L). exists r. split; [done|]. split; [done|lia]. Qed.

Lemma within_max (json : string) (n m : Z) (d : DB) : within json n d -> within json (Z.max n m) d.
Proof. apply within_le. lia. Qed.

Lemma within_bind {A B : Type} (json : string) (n m : Z) (c : R E A) (k : A -> R E B) w :
  n <= m -> RPreserves (same_tasks id) c -> within json n (wd_db w) ->
  (forall a w1, c w = (Ok a, w1) -> within json n (wd_db w1) -> within json m (wd_db (snd (k a w1)))) ->
  within json m (wd_db (snd ((c ≫= k) w))).
Proof.
  intros Hnm Hc Hw Hk. specialize (Hc w). destruct (rbind_inv c k w) as [(a & w1 & E1 & ->)|(e & w1 & E1 & ->)]; rewrite E1 in Hc; cbn in Hc.
  - apply Hk; [done|]. by eapply within_same.
  - apply (within_le _ n); [done|]. by eapply within_same.
Qed.
Lemma within_seq {A B : Type} (json : string) (n : Z) (c : R E A) (k : A -> R E B) w :
  within json n (wd_db (snd (c w))) -> (forall a, RPreserves (same_tasks id) (k a)) -> within json n (wd_db (snd ((c ≫= k) w))).
Proof.
  intros Hw Hk. destruct (rbind_inv c k w) as [(a & w1 & E1 & ->)|(e & w1 & E1 & ->)]; rewrite E1 in Hw; [|exact Hw].
  eapply within_same; [apply Hk|exact Hw].
Qed.
Lemma within_rp {A : Type} (json : string) (n : Z) (m : R E A) w : RPreserves (same_tasks id) m -> within json n (wd_db w) -> within json n (wd_db (snd (m w))).
Proof. intros Hm. apply within_same, Hm. Qed.

Lemma ensure_task_within (fuel : nat) (json : string) (spec : value) (wf : WorkflowRecord) (step : StepExecutionRecord) w :
  let n := w_total_tasks (wf_row wf) in
  within json n (wd_db w) -> within json (Z.max n (limit_of spec "max_tasks")) (wd_db (snd (ensure_task env fuel id spec wf step w))).
Proof.
  intros n Hw. unfold ensure_task. destruct (st_task step); [by apply within_max|]. fold n.
  destruct (limit_of spec "max_tasks" <=? n) eqn:El; [apply within_max, within_rp; [rpreserve|done]|]. bsimpl.
  assert (within json (Z.max n (limit_of spec "max_tasks")) (wd_db (snd (createAndBindTask env fuel id spec wf step w)))) as Hc.
  { apply (within_le _ (n + 1)); [lia|]. by eapply within_grow; [apply createAndBind_grows|]. }
  apply within_seq; [exact Hc|rpreserve].
Qed.

Lemma getWorkflow_row (wf : WorkflowRecord) (d : DB) : getWorkflow id d = (Ok (Some wf), d) -> workflowRow id d = Some (wf_row wf) /\ toWorkflow (wf_row wf) d = (Ok wf, d).
Proof.
  unfold getWorkflow. intros H. inv_run H. destruct (workflowRow id d) as [r|] eqn:Er; [|done]. cbn in *.
  match goal with H : (_ ≫= _) d = _ |- _ => inv_run H end.
  match goal with H : toWorkflow r _ = _ |- _ => by destruct (toWorkflow_row _ _ _ _ H) as [<- _] end.
Qed.

Lemma toWorkflow_spec (r : WorkflowRow) (wf : WorkflowRecord) (s s' : DB) :
  toWorkflow r s = (Ok wf, s') -> decodeJson (Some (w_spec_json r)) SIZE_LIMITS.spec_json false = Ok (wf_spec wf).
Proof. unfold toWorkflow. intros H. inv_run H. done. Qed.

Lemma driveStep_within (fuel : nat) (json : string) (n lim : Z) w :
  (forall wf d, w_spec_json (wf_row wf) = json -> toWorkflow (wf_row wf) d = (Ok wf, d) -> limit_of (wf_spec wf) "max_tasks" <= lim) -> lim <= n ->
  within json n (wd_db w) -> within json n (wd_db (snd (driveStep env fuel id w))).
Proof.
  intros Hlim Hln Hw. unfold driveStep. apply (within_bind _ n); [lia|rpreserve|done|]. intros [wf|] w1 E1 Hw1; [|done].
  destruct (negb (wf_status wf =s "running")); [done|]. destruct (loadSpec wf) as [spec|] eqn:El; [|apply within_rp; [rpreserve|done]].
  destruct (w_cancel_requested (wf_row wf)); [apply within_rp; [rpreserve|done]|].
  destruct (read_inv env (same_tasks id) _ _ _ _ Hst (reads_getWorkflow eq _) E1) as (d & _ & Ed & [(a & Ha & [= <-])|(e & _ & [=])]).
  apply getWorkflow_row in Ha as [Hrow Hto]. rewrite <- Ed in *.
  destruct Hw1 as (r & Hr & Hj & Hn). rewrite Hrow in Hr. apply (inj Some) in Hr as <-.
  apply (within_le _ (Z.max (w_total_tasks (wf_row wf)) (limit_of spec "max_tasks"))).
  { specialize (Hlim wf _ Hj Hto). unfold loadSpec in El. destruct (vr_valid _); [|done]. injection El as <-. lia. }
  assert (within json (w_total_tasks (wf_row wf)) (wd_db w1)) as Hw1 by (exists (wf_row wf); split; [done|]; split; [done|lia]).
  clear Hlim Hw E1 Hrow Hto Ed.
  apply (within_bind _ (w_total_tasks (wf_row wf))); [lia|rpreserve|done|]. intros dl w2 _ Hw2.
  destruct dl; [apply within_max, within_rp; [rpreserve|done]|]. cbv zeta.
  apply (within_bind _ (w_total_tasks (wf_row wf))); [lia|rpreserve|done|]. intros os w3 _ Hw3.
  apply (within_bind _ (w_total_tasks (wf_row wf))); [lia|destruct os; rpreserve|done|]. intros step w4 _ Hw4.
  destruct (s_status (st_row step) =s "completed"); [apply within_max, within_rp; [rpreserve|done]|].
  destruct (isTerminalStepStatus _); [by apply within_max|].
  apply within_seq; [by apply ensure_task_within|rpreserve].
Qed.

Lemma drive_within (turns fuel : nat) (json : string) (n lim : Z) w :
  (forall wf d, w_spec_json (wf_row wf) = json -> toWorkflow (wf_row wf) d = (Ok wf, d) -> limit_of (wf_spec wf) "max_tasks" <= lim) -> lim <= n ->
  within json n (wd_db w) -> within json n (wd_db (snd (driveWorkflow env turns fuel id w))).
Proof.
  intros Hlim Hln. revert w. induction turns as [|k IH]; intros w Hw; cbn [driveWorkflow]; [done|].
  apply (within_bind _ n); [lia|rpreserve|done|]. intros st w1 _ Hw1. destruct st; [done|].
  pose proof (driveStep_within fuel json n lim w1 Hlim Hln Hw1) as Hd.
  match goal with |- within _ _ (wd_db (snd ((?m ≫= ?k) w1))) => destruct (rbind_inv m k w1) as [(a & w2 & E1 & ->)|(e & w2 & E1 & ->)] end;
    rewrite E1 in Hd; [|exact Hd]. destruct a; [exact Hd|by apply IH].
Qed.
End Budget.

(** C20. The pump respects the task budget: however it runs, with any clients, clock and
    fuel, and with other users of the store who do not bind tasks to this workflow, a
    run leaves the workflow with at most as many tasks as it had or as [max_tasks] of its
    spec allows. *)
Theorem pump_respects_max_tasks {E : Type} (env : Env E) (id : string) (turns fuel : nat) (w : World E) (r : WorkflowRow) (wf : WorkflowRecord) :
  Rely env (same_tasks id) -> workflowRow id (wd_db w) = Some r -> toWorkflow r (wd_db w) = (Ok wf, wd_db w) ->
  exists r', workflowRow id (wd_db (snd (runWorkflow env turns fuel id w))) = Some r'
    /\ w_total_tasks r' <= Z.max (w_total_tasks r) (limit_of (wf_spec wf) "max_tasks").
Proof.
  intros Hst Hr Hto.
  assert (within id (w_spec_json r) (Z.max (w_total_tasks r) (limit_of (wf_spec wf) "max_tasks")) (wd_db (snd (runWorkflow env turns fuel id w))))
    as (r' & Hr' & _ & Hn); [|by exists r'].
  unfold runWorkflow. apply within_seq; [|rpreserve].
  apply (drive_within env id turns fuel _ _ (limit_of (wf_spec wf) "max_tasks")); [|lia|exists r; split; [done|]; split; [done|lia]].
  intros wf' d Hj Hto'. assert (wf_spec wf' = wf_spec wf) as ->; [|lia].
  apply toWorkflow_spec in Hto, Hto'. rewrite Hj in Hto'. congruence.
Qed.

#[global] Instance demo_rely_tasks (id : string) : Rely demo_env (same_tasks id).
Proof. apply demo_rely; [apply _|preserve..]. Qed.

(** The row and record of the demonstration's looping workflow. *)
Definition looping_row : WorkflowRow := Eval vm_compute in default (new_workflow_row T0 Demo.wf_input "" None) (workflowRow demo_id (wd_db looping)).
Definition looping_record : WorkflowRecord :=
  Eval vm_compute in match fst (toWorkflow looping_row (wd_db looping)) with Ok x => x | Err _ => {| wf_row := looping_row; wf_spec := VNull; wf_input_values := VNull |} end.

Lemma pump_respects_max_tasks_witness :
  exists r', workflowRow demo_id (wd_db looping_end) = Some r' /\ w_total_tasks r' <= Z.max (w_total_tasks looping_row) (limit_of (wf_spec looping_record) "max_tasks").
Proof.
  apply (pump_respects_max_tasks demo_env demo_id 20 10 looping looping_row looping_record).
  - apply demo_rely_tasks.
  - vm_compute. reflexivity.
  - vm_compute. reflexivity.
Defined.
