(* ===== verification/RuntimeCalls.v ===== *)
(** * The requests of the pump

    Every task the pump asks for is on behalf of a recorded step execution of its workflow,
    under that execution's identifier as idempotency key, and every task it cancels is
    bound to one of its steps. *)

From S2P Require Import Prelude Values Json Contract Conditions Templates Verification Validator Outputs ValidatorProps OutputProps StoreRows Store StoreOps StoreProps StoreInv StoreRun StoreOnce RuntimeEnv Runtime RuntimeProps RuntimeDemo RuntimeSafety.

#[local] Hint Constants Opaque : typeclass_instances.

(** ** Methods that send no request *)

Class NoCalls {E A : Type} (m : R E A) : Prop := no_calls : forall w, wd_calls (snd (m w)) = wd_calls w.

Section Generic.
Context {E : Type} (env : Env E).
#[global] Instance no_ret {A : Type} (a : A) : NoCalls (E := E) (mret a).
Proof. by intros w. Qed.
#[global] Instance no_throw {A : Type} (e : rt_error) : NoCalls (@rthrow E A e).
Proof. by intros w. Qed.
#[global] Instance no_require {A : Type} (o : option A) (e : rt_error) : NoCalls (E := E) (rrequire o e).
Proof. by destruct o. Qed.
#[global] Instance no_bind {A B : Type} (m : R E A) (k : A -> R E B) : NoCalls m -> (forall a, NoCalls (k a)) -> NoCalls (m ≫= k).
Proof.
  intros Hm Hk w. unfold mbind, R_bind. specialize (Hm w). destruct (m w) as [[a|e] w1]; cbn in *; [|done]. by rewrite (Hk a w1).
Qed.
#[global] Instance no_try {A : Type} (m : R E A) (h : rt_error -> R E A) : NoCalls m -> (forall e, NoCalls (h e)) -> NoCalls (try_catch m h).
Proof.
  intros Hm Hh w. unfold try_catch. specialize (Hm w). destruct (m w) as [[a|e] w1]; cbn in *; [done|]. destruct e; by rewrite ?(Hh _ w1).
Qed.
#[global] Instance no_from_env {A : Type} (f : E -> A * E) : NoCalls (from_env f).
Proof. intros w. unfold from_env. by destruct (f (wd_env w)). Qed.
#[global] Instance no_read_env {A : Type} (f : E -> A) : NoCalls (read_env f).
Proof. by intros w. Qed.
#[global] Instance no_client {A : Type} (f : E -> result ClientError A * E) : NoCalls (client f).
Proof. intros w. unfold client. by destruct (f (wd_env w)) as [[|] e]. Qed.
#[global] Instance no_lease {A : Type} (f : E -> result LeaseError A * E) : NoCalls (lease f).
Proof. intros w. unfold lease. by destruct (f (wd_env w)) as [[|] e]. Qed.
#[global] Instance no_store {A : Type} (m : string -> M A) : NoCalls (store env m).
Proof.
  intros w. unfold store. destruct (en_interfere env (wd_env w) (wd_db w)) as [e1 d1]. destruct (en_iso env e1) as [now e2].
  by destruct (m now d1) as [[a|x] d2].
Qed.
End Generic.

Ltac nocalls :=
  repeat first
    [ progress intros
    | apply _
    | lazymatch goal with
      | |- NoCalls (_ ≫= _) => apply no_bind
      | |- NoCalls (try_catch _ _) => apply no_try
      | |- NoCalls (match ?x with _ => _ end) => destruct x
      | |- NoCalls (let _ := _ in _) => cbv zeta
      | |- NoCalls ?m => let h := head_of m in unfold h
      end ].

Section Silent.
Context {E : Type} (env : Env E).
#[global] Instance no_observe_loop (fuel : nat) (lc : WorkspaceLeaseClient E) (id : string) (t : WorkspaceTarget) : NoCalls (observe_loop env fuel lc id t).
Proof. induction fuel; cbn [observe_loop]; nocalls. Qed.
#[global] Instance no_observe_after (n : nat) (lc : WorkspaceLeaseClient E) (t : WorkspaceTarget) (sid : string) : NoCalls (observe_after env n lc t sid).
Proof. induction n; cbn [observe_after]; nocalls. Qed.
#[global] Instance no_awaitTask (fuel : nat) (wf : WorkflowRecord) (t : string) (c : Z) : NoCalls (awaitTask env fuel wf t c).
Proof. revert c. induction fuel; intros c; cbn [awaitTask]; nocalls. Qed.
#[global] Instance no_resolve (fuel : nat) (id : string) (s : StepExecutionRecord) (r : AgentTaskTerminalRead) (c : Z) : NoCalls (resolveTerminalResult env fuel id s r c).
Proof. revert r c. induction fuel; intros r c; cbn [resolveTerminalResult]; nocalls. Qed.
#[global] Instance no_route (id : string) (spec : value) (s : StepExecutionRecord) : NoCalls (routeAndAdvance env id spec s).
Proof. nocalls. Qed.
#[global] Instance no_gate (id : string) (s : StepExecutionRecord) (g : value) : NoCalls (evaluatePauseGate env id s g).
Proof. nocalls. Qed.
#[global] Instance no_gateBefore (fuel : nat) (id : string) (s : StepExecutionRecord) (t : WorkspaceTarget) : NoCalls (revisionGateBefore env fuel id s t).
Proof. nocalls. Qed.
#[global] Instance no_release_loop (n : nat) (lc : WorkspaceLeaseClient E) (node l : string) : NoCalls (release_loop env n lc node l).
Proof. induction n; cbn [release_loop]; nocalls. Qed.
#[global] Instance no_release_all (lc : WorkspaceLeaseClient E) (b : bool) (ls : list LeaseRecord) : NoCalls (release_all env lc b ls).
Proof. induction ls; cbn [release_all]; nocalls. Qed.
#[global] Instance no_settle (id : string) : NoCalls (settleLeaseReleases env id).
Proof. nocalls. Qed.
End Silent.

(** ** Justified requests *)

(** A creation names, by its key and its metadata, a step execution of workflow [id]; a
    cancellation names a task bound to one. *)
Definition call_ok (id : string) (d : DB) (c : client_call) : Prop :=
  match c with
  | CallCreate req => exists row, stepRow (rq_idempotency_key req) d = Some row /\ s_workflow_id row = id
      /\ rq_metadata req = VObj [("workflow_id", VStr id); ("step_execution_id", VStr (rq_idempotency_key req)); ("step_id", VStr (s_step_id row));
                                 ("round", zval (s_round row)); ("attempt", zval (s_attempt row))]
  | CallCancel t => exists k row, stepRow k d = Some row /\ s_workflow_id row = id /\ s_task_id row = Some t
  end.

Lemma call_ok_mono (id : string) (d d' : DB) (c : client_call) : evolves d d' -> call_ok id d c -> call_ok id d' c.
Proof.
  intros He. destruct c as [req|t].
  - intros (row & Hr & Hw & Hm). destruct (ev_steps _ _ He _ row Hr) as (row' & Hr' & E1). exists row'. split; [done|].
    destruct (se_identity _ _ E1) as (_ & -> & -> & -> & -> & _). done.
  - intros (k & row & Hr & Hw & Ht). destruct (ev_steps _ _ He _ row Hr) as (row' & Hr' & E1). exists k, row'. split; [done|].
    destruct (se_identity _ _ E1) as (_ & -> & _). split; [done|]. by apply (se_task _ _ E1).
Qed.

(** From [w] to [w'] the database evolves by store operations and the requests sent are
    justified by it. *)
Definition calls_ok {E : Type} (id : string) : relation (World E) := fun w w' =>
  store_run (wd_db w) (wd_db w') /\ exists cs, wd_calls w' = wd_calls w ++ cs /\ Forall (call_ok id (wd_db w')) cs.

#[global] Instance calls_ok_preorder {E : Type} (id : string) : PreOrder (calls_ok (E := E) id).
Proof.
  split.
  - intros w. split; [reflexivity|]. exists []. by rewrite app_nil_r.
  - intros a b c [R1 (l1 & E1 & F1)] [R2 (l2 & E2 & F2)]. split; [by etransitivity|]. exists (l1 ++ l2). rewrite E2, E1, app_assoc. split; [done|].
    apply Forall_app. split; [|done]. eapply Forall_impl; [exact F1|]. intros x. apply call_ok_mono. by apply store_run_evolves.
Qed.

Section Calls.
Context {E : Type} (env : Env E) (id : string) {Hrun : Rely env store_run}.
Implicit Types (w : World E).

Lemma silent {A : Type} (m : R E A) w : RPreserves store_run m -> NoCalls m -> calls_ok id w (snd (m w)).
Proof. intros Hp Hn. split; [apply Hp|]. exists []. by rewrite app_nil_r, Hn. Qed.

Lemma calls_bind {A B : Type} (m : R E A) (k : A -> R E B) w :
  calls_ok id w (snd (m w)) -> (forall a w1, m w = (Ok a, w1) -> calls_ok id w1 (snd (k a w1))) -> calls_ok id w (snd ((m ≫= k) w)).
Proof.
  intros Hm Hk. destruct (rbind_inv m k w) as [(a & w1 & E1 & ->)|(e & w1 & E1 & ->)]; rewrite E1 in Hm; [|exact Hm].
  etransitivity; [exact Hm|by apply Hk].
Qed.
Lemma calls_skip {A B : Type} (m : R E A) (k : A -> R E B) w :
  RPreserves store_run m -> NoCalls m -> (forall a w1, m w = (Ok a, w1) -> calls_ok id w1 (snd (k a w1))) -> calls_ok id w (snd ((m ≫= k) w)).
Proof. intros Hp Hn. by apply calls_bind, silent. Qed.
Lemma calls_try {A : Type} (m : R E A) (h : rt_error -> R E A) w :
  calls_ok id w (snd (m w)) -> (forall e w1, m w = (Err e, w1) -> calls_ok id w1 (snd (h e w1))) -> calls_ok id w (snd (try_catch m h w)).
Proof.
  intros Hm Hh. unfold try_catch. destruct (m w) as [[a|e] w1] eqn:E1; [exact Hm|]. cbn in Hm.
  assert (calls_ok id w (snd (h e w1))) as Hc by (etransitivity; [exact Hm|by apply Hh]). by destruct e.
Qed.

(** The record of a step execution of the workflow in [d]. *)
Definition own_step (step : StepExecutionRecord) (d : DB) : Prop :=
  exists row, stepRow (st_id step) d = Some row /\ s_workflow_id row = id /\ s_step_id row = st_step step
    /\ s_round row = st_round step /\ s_attempt row = s_attempt (st_row step) /\ forall t, st_task step = Some t -> s_task_id row = Some t.
Lemma own_mono (step : StepExecutionRecord) (d d' : DB) : store_run d d' -> own_step step d -> own_step step d'.
Proof.
  intros He%store_run_evolves (row & Hr & Hw & Hs & Hn & Ha & Ht). destruct (ev_steps _ _ He _ row Hr) as (row' & Hr' & E1). exists row'. split; [done|].
  destruct (se_identity _ _ E1) as (_ & -> & -> & -> & -> & _). repeat (split; [done|]). intros t H%Ht. by apply (se_task _ _ E1).
Qed.
Lemma own_rp {A : Type} (m : R E A) (step : StepExecutionRecord) w x w1 :
  RPreserves store_run m -> m w = (x, w1) -> own_step step (wd_db w) -> own_step step (wd_db w1).
Proof. intros Hp H. apply own_mono. by eapply run_of. Qed.

Ltac quiet := apply silent; [solve [rpreserve]|solve [nocalls]].
Ltac skip := apply calls_skip; [solve [rpreserve]|solve [nocalls]|].

Lemma log_calls (c : client_call) w : call_ok id (wd_db w) c -> calls_ok id w (snd (log_call c w)).
Proof. intros Hc. split; [reflexivity|]. exists [c]. split; [done|]. by constructor. Qed.

Lemma create_loop_calls (fuel : nat) (wf : WorkflowRecord) (role specStep : value) (step : StepExecutionRecord) (text : string) (ws l : option string) w :
  own_step step (wd_db w) -> calls_ok id w (snd (create_loop env fuel id wf step (task_request id role specStep step text ws l) w)).
Proof.
  revert w. induction fuel as [|n IH]; intros w Ho; cbn [create_loop]; [quiet|].
  skip. intros st w1 E1. eapply own_rp in E1; [|rpreserve|exact Ho].
  skip. intros ab w2 E2. eapply own_rp in E2; [|rpreserve|exact E1].
  destruct (st || ab); [quiet|].
  skip. intros d w3 E3. eapply own_rp in E3; [|rpreserve|exact E2].
  destruct d; [quiet|].
  assert (calls_ok id w3 (snd (create_and_bind env id step (task_request id role specStep step text ws l) w3))) as Hc.
  { apply calls_bind; [apply log_calls|intros ? ? _; quiet].
    destruct E3 as (row & Hr & Hw & Hs & Hn & Ha & _). exists row. cbn. rewrite Hs, Hn, Ha. done. }
  apply calls_try; [apply calls_bind; [exact Hc|intros; quiet]|].
  intros e w4 E4. eapply own_rp in E4; [|rpreserve|exact E3].
  destruct e as [| []| | | |]; try quiet.
  skip. intros u w5 E5. apply IH. by eapply own_rp in E5; [|rpreserve|exact E4].
Qed.

Lemma createAndBind_calls (fuel : nat) (spec : value) (wf : WorkflowRecord) (step : StepExecutionRecord) w :
  own_step step (wd_db w) -> calls_ok id w (snd (createAndBindTask env fuel id spec wf step w)).
Proof.
  intros Ho. unfold createAndBindTask. destruct (find_step spec (st_step step)) as [specStep|]; [|quiet]. cbv zeta.
  destruct (negb (truthy (role_of spec specStep))); [quiet|].
  skip. intros ok w1 E1. eapply own_rp in E1; [|rpreserve|exact Ho].
  destruct (negb ok); [quiet|].
  skip. intros scope w2 E2. eapply own_rp in E2; [|rpreserve|exact E1].
  destruct (renderPrompt _ scope _) as [text|]; [|quiet].
  destruct (renderWorkspaceKey _ scope) as [ws|]; [|quiet].
  skip. intros g w3 E3. eapply own_rp in E3; [|rpreserve|exact E2].
  destruct (negb g); [quiet|]. by apply create_loop_calls.
Qed.

(** The record of the execution of step [sid] in round [round]. *)
Definition own_at (sid : string) (round : Z) (step : StepExecutionRecord) (d : DB) : Prop :=
  own_step step d /\ same_step_key id sid round 1 (st_row step) = true.

(** A step execution read by its key, or just started, is one of the workflow's. *)
Lemma own_row (key sid : string) (round : Z) (step : StepExecutionRecord) (d : DB) :
  steps_filed d -> stepRow key d = Some (st_row step) -> same_step_key id sid round 1 (st_row step) = true -> own_at sid round step d.
Proof.
  intros Hf Hr Hk. split; [|done]. exists (st_row step). unfold st_id. rewrite (proj1 (Hf _ _ Hr)). split; [done|].
  unfold same_step_key in Hk. apply andb_prop in Hk as [Hk _]. apply andb_prop in Hk as [Hk _]. apply andb_prop in Hk as [Hk _].
  by apply String.eqb_eq in Hk.
Qed.

Lemma read_own (sid : string) (round : Z) w o w1 :
  steps_filed (wd_db w1) -> read env (getStepExecutionByKey id sid round 1) w = (Ok (Some o), w1) -> own_at sid round o (wd_db w1).
Proof.
  intros Hf H. destruct (read_inv env store_run _ _ _ _ Hrun (reads_getStepByKey eq _ _ _ _) H) as (d & _ & E1 & [(a & Ha & [= <-])|(e & _ & [=])]).
  rewrite E1 in *. unfold getStepExecutionByKey in Ha. apply bind_ok in Ha as (u & d1 & [_ ->]%opened_ok & Ha).
  apply bind_ok in Ha as (r & d2 & [-> ->]%gets_ok & Ha). destruct (stepExecByKey id sid round 1 d) as [r|] eqn:Er; [|done].
  cbn in Ha. apply bind_ok in Ha as (x & d3 & Hx & Hret). apply find_row_some in Er as (key & Hk & Hs).
  apply toStep_row in Hx as [<- ->]. injection Hret as ->. by eapply own_row.
Qed.

Lemma start_own (sid : string) (round : Z) w x w1 :
  steps_filed (wd_db w1) -> startStep env id sid round w = (Ok x, w1) -> own_at sid round x (wd_db w1).
Proof.
  intros Hf. unfold startStep, iso, from_env, mbind, R_bind. destruct (en_iso env (wd_env w)) as [ts e1].
  unfold store. destruct (en_interfere env _ _) as [e2 d1]. destruct (en_iso env e2) as [now e3].
  destruct (ensureStepStarted _ _ _ _ d1) as [[[[y wf] b]|e] d2] eqn:E1; [|done]. intros [= <- <-]. cbn in *.
  apply ensureStepStarted_row in E1 as (k & Hk & Hs). by eapply own_row.
Qed.

(** Databases met on the way stay well filed. *)
Lemma filed_run (s s' : DB) : store_run s s' -> steps_filed s -> steps_filed s'.
Proof. induction 1; [done|]. intros Hs. apply IHrtc. by eapply filed_store_step. Qed.
Lemma filed_rp {A : Type} (m : R E A) w x w1 : RPreserves store_run m -> m w = (x, w1) -> steps_filed (wd_db w) -> steps_filed (wd_db w1).
Proof. intros Hp H. apply filed_run. by eapply run_of. Qed.

Lemma performCancellation_calls w : steps_filed (wd_db w) -> calls_ok id w (snd (performCancellation env id w)).
Proof.
  intros Hf. unfold performCancellation. skip. intros [wf|] w1 E1; [|quiet]. eapply filed_rp in E1; [|rpreserve|exact Hf].
  destruct (isTerminalWorkflowStatus (wf_status wf)); [quiet|]. skip. intros ? w2 E2. eapply filed_rp in E2; [|rpreserve|exact E1].
  apply calls_bind; [|intros; quiet].
  destruct (w_current_step_id (wf_row wf)) as [sid|]; [|quiet]. destruct (sid =s ""); [quiet|].
  skip. intros [step|] w3 E3; [|quiet].
  assert (own_at sid (w_current_round (wf_row wf)) step (wd_db w3)) as [Ho _]. { eapply read_own; [|exact E3]. by eapply filed_rp in E3; [|rpreserve|exact E2]. }
  apply calls_bind; [|intros; quiet]. destruct (st_task step) as [t|] eqn:Et; [|quiet]. destruct (t =s ""); [quiet|].
  apply calls_try; [|intros; quiet]. unfold cancelTask. apply calls_bind; [apply log_calls|intros; quiet].
  destruct Ho as (row & Hr & Hw & _ & _ & _ & Ht). exists (st_id step), row. auto.
Qed.

Lemma handle_calls (fuel : nat) (spec : value) (step : StepExecutionRecord) (r : AgentTaskTerminalRead) w :
  steps_filed (wd_db w) -> calls_ok id w (snd (handleTaskTerminal env fuel id spec step r w)).
Proof.
  intros Hf. unfold handleTaskTerminal. skip. intros o w1 E1. eapply filed_rp in E1; [|rpreserve|exact Hf].
  skip. intros wf w2 E2. eapply filed_rp in E2; [|rpreserve|exact E1]. skip. intros ? w3 E3. eapply filed_rp in E3; [|rpreserve|exact E2].
  destruct (w_cancel_requested (wf_row wf)); [|quiet]. apply calls_bind; [by apply performCancellation_calls|intros; quiet].
Qed.

Lemma ensure_task_calls (fuel : nat) (spec : value) (wf : WorkflowRecord) (step : StepExecutionRecord) w :
  own_step step (wd_db w) -> calls_ok id w (snd (ensure_task env fuel id spec wf step w)).
Proof.
  intros Ho. unfold ensure_task. destruct (st_task step); [quiet|]. destruct (_ <=? _); [quiet|].
  apply calls_bind; [by apply createAndBind_calls|intros; quiet].
Qed.

Lemma driveStep_calls (fuel : nat) w : steps_filed (wd_db w) -> calls_ok id w (snd (driveStep env fuel id w)).
Proof.
  intros Hf. unfold driveStep. skip. intros [wf|] w1 E1; [|quiet]. eapply filed_rp in E1; [|rpreserve|exact Hf].
  destruct (negb (wf_status wf =s "running")); [quiet|]. destruct (loadSpec wf) as [spec|]; [|quiet].
  destruct (w_cancel_requested (wf_row wf)); [apply calls_bind; [by apply performCancellation_calls|intros; quiet]|].
  skip. intros d w2 E2. eapply filed_rp in E2; [|rpreserve|exact E1]. destruct d; [quiet|]. cbv zeta.
  skip. intros os w3 E3. pose proof E3 as Eread. eapply filed_rp in E3; [|rpreserve|exact E2].
  apply calls_skip; [destruct os; rpreserve|destruct os; nocalls|]. intros step w4 E4.
  assert (steps_filed (wd_db w4)) as Hf4 by (eapply filed_rp; [|exact E4|exact E3]; destruct os; rpreserve).
  assert (own_step step (wd_db w4)) as Ho by (destruct os as [x|]; [injection E4 as <- <-; by eapply read_own|by eapply start_own]).
  destruct (s_status (st_row step) =s "completed"); [quiet|]. destruct (isTerminalStepStatus _); [quiet|].
  apply calls_bind; [by apply ensure_task_calls|]. intros [bound|] w5 E5; [|quiet]. eapply filed_rp in E5; [|rpreserve|exact Hf4].
  skip. intros out w6 E6. eapply filed_rp in E6; [|rpreserve|exact E5]. destruct out; [by apply handle_calls|quiet..|].
  apply calls_bind; [by apply performCancellation_calls|intros; quiet].
Qed.

Lemma drive_calls (turns fuel : nat) w : steps_filed (wd_db w) -> calls_ok id w (snd (driveWorkflow env turns fuel id w)).
Proof.
  revert w. induction turns as [|n IH]; intros w Hf; cbn [driveWorkflow]; [quiet|].
  skip. intros st w1 E1. eapply filed_rp in E1; [|rpreserve|exact Hf]. destruct st; [quiet|].
  apply calls_bind; [by apply driveStep_calls|]. intros b w2 E2. eapply filed_rp in E2; [|rpreserve|exact E1]. destruct b; [quiet|by apply IH].
Qed.
End Calls.

(** C21. The pump talks to the Agent Task service only about its own steps: whatever
    the clients answer and whoever else uses the store, every task a run of the pump asks
    for carries the identifier of a recorded step execution of the workflow as idempotency
    key and its coordinates as metadata, and every task it cancels is bound to a step of
    the workflow. *)
Theorem pump_requests_keyed {E : Type} (env : Env E) (id : string) (turns fuel : nat) (w : World E) :
  Rely env store_run -> store_run empty_db (wd_db w) ->
  exists cs, wd_calls (snd (runWorkflow env turns fuel id w)) = wd_calls w ++ cs
    /\ Forall (call_ok id (wd_db (snd (runWorkflow env turns fuel id w)))) cs.
Proof.
  intros Hr Hw. assert (steps_filed (wd_db w)) as Hf by (eapply filed_run; [exact Hw|by intros ??]).
  apply (calls_bind id); [by apply drive_calls|]. intros. apply silent; [rpreserve|nocalls].
Qed.

Lemma pump_requests_keyed_witness :
  exists cs, wd_calls looping_end = wd_calls looping ++ cs /\ Forall (call_ok demo_id (wd_db looping_end)) cs.
Proof.
  apply (pump_requests_keyed demo_env demo_id 20 10 looping); [apply demo_rely_run|].
  change empty_db with (wd_db (demo_start [decision "continue"; handoff; decision "continue"; handoff; decision "complete"])).
  apply (runtime_run demo_env); [apply demo_rely_run|]. eapply rtc_l; [apply rt_create|]. apply rtc_once, rt_start.
Defined.
