(* ===== verification/RuntimeTurns.v ===== *)
(** * The drive loop ends

    A turn of the pump that goes on either completes the current step or moves to a step
    execution that did not exist.  The executions of the current round lie on normal paths
    to the current step, and normal edges form no cycle, so a move within a round always
    finds a new execution; a loop edge starts a new round, of which there are at most
    [max_rounds].  Hence the number of turns is bounded by the spec. *)

From S2P Require Import Prelude Values Json Contract Conditions Templates Verification Validator Outputs Examples ValidatorProps OutputProps GraphProps StoreRows Store StoreOps StoreProps StoreInv StoreRun StoreOnce RuntimeEnv Runtime RuntimeProps RuntimeDemo RuntimeSafety RuntimeLimits RuntimeCalls.

(** ** Operations that do not move the workflow *)

(** The place of a workflow: its spec, current step and round. *)
Definition place (r : WorkflowRow) : string * option string * Z := (w_spec_json r, w_current_step_id r, w_current_round r).

(** Workflow [id] is at the same place and has the same step executions. *)
Definition same_position (id : string) : relation DB := fun d d' =>
  (forall r, workflowRow id d = Some r -> exists r', workflowRow id d' = Some r' /\ place r' = place r)
  /\ (forall s n, executed id s n 1 d' <-> executed id s n 1 d).

#[global] Instance same_position_preorder (id : string) : PreOrder (same_position id).
Proof.
  split.
  - intros d. split; [intros r Hr; by exists r|done].
  - intros a b c [R1 X1] [R2 X2]. split.
    + intros r Hr. destruct (R1 r Hr) as (r1 & Hr1 & E1). destruct (R2 r1 Hr1) as (r2 & Hr2 & E2). exists r2. split; [done|congruence].
    + intros s n. by rewrite X2, X1.
Qed.

Section Ops.
Context (id : string).

Lemma sp_modify (f : DB -> DB) : (forall s, db_workflows (f s) = db_workflows s /\ db_steps (f s) = db_steps s) -> Preserves (same_position id) (modify f).
Proof.
  intros H s. destruct (H s) as [E1 E2]. split; cbn.
  - intros r. unfold workflowRow. rewrite E1. eauto.
  - intros x n. unfold executed, stepRow. by rewrite E2.
Qed.

Lemma sp_alter (s : DB) (j : string) (f : WorkflowRow -> WorkflowRow) :
  (forall r, workflowRow j s = Some r -> place (f r) = place r) -> same_position id s (set_db_workflows (alter f j (db_workflows s)) s).
Proof.
  intros H. split; [|done]. intros r Hr. unfold workflowRow in *. cbn. destruct (decide (j = id)) as [->|Hne].
  - rewrite lookup_alter_eq, Hr. exists (f r). auto.
  - rewrite lookup_alter_ne by done. eauto.
Qed.
Lemma sp_update (j : string) (f : WorkflowRow -> WorkflowRow) : (forall r, place (f r) = place r) -> Preserves (same_position id) (update_workflow j f).
Proof. intros H s. by apply sp_alter. Qed.

Lemma sp_updateWorkflowSync (now j : string) (rev : Z) (p : WorkflowPatch) :
  wp_current_step_id p = None -> wp_current_round p = None -> Preserves (same_position id) (updateWorkflowSync now j rev p).
Proof.
  intros H1 H2 s. unfold updateWorkflowSync, theWorkflow, update_workflow. run. apply run_last; [apply _|].
  apply sp_alter. intros r Hr. assert (a = r) as -> by congruence. unfold place. cbn. by rewrite H1, H2.
Qed.

Lemma sp_update_step (k : string) (f : StepRow -> StepRow) :
  (forall r, step_key (f r) = step_key r) -> Preserves (same_position id) (update_step k f).
Proof.
  intros H s. split; [cbn; eauto|]. intros x n. unfold executed, stepRow. cbn.
  assert (forall r, same_step_key id x n 1 (f r) = same_step_key id x n 1 r) as Hk.
  { intros r. specialize (H r). unfold step_key in H. injection H as E1 E2 E3 E4. unfold same_step_key. by rewrite E1, E2, E3, E4. }
  split; intros (j & r & Hr & Hs); destruct (decide (k = j)) as [->|Hne].
  - rewrite lookup_alter_eq in Hr. destruct (db_steps s !! j) as [q|] eqn:Eq; [|done]. injection Hr as <-. rewrite Hk in Hs. eauto.
  - rewrite lookup_alter_ne in Hr by done. eauto.
  - exists j, (f r). rewrite lookup_alter_eq, Hr, Hk. done.
  - exists j, r. by rewrite lookup_alter_ne.
Qed.
End Ops.
#[global] Hint Extern 5 (Preserves (same_position _) (modify _)) => (apply sp_modify; by repeat split) : typeclass_instances.
#[global] Hint Extern 4 (Preserves (same_position _) (update_workflow _ _)) => (apply sp_update; done) : typeclass_instances.
#[global] Hint Extern 4 (Preserves (same_position _) (updateWorkflowSync _ _ _ _)) => (apply sp_updateWorkflowSync; repeat case_match; done) : typeclass_instances.
#[global] Hint Extern 4 (Preserves (same_position _) (update_step _ _)) => (apply sp_update_step; setters) : typeclass_instances.

Section Interface.
#[local] Hint Constants Opaque : typeclass_instances.
#[global] Instance sp_pump_ops (id : string) : PumpOps (same_position id).
Proof. split; preserve. Qed.
#[global] Instance sp_bind_ops (id : string) : BindOps (same_position id).
Proof. split; preserve. Qed.
#[global] Instance sp_complete_ops (id : string) : CompleteOps (same_position id).
Proof. split; preserve. Qed.
#[global] Instance sp_append (id now w : string) (e : WorkflowEventDraft) : Preserves (same_position id) (appendWorkflowEventAuto now w e).
Proof. preserve. Qed.
End Interface.

(** ** Operations that move it *)

(** From [d] to [d'] workflow [id] moves from step [c] and round [n] to [c'] and [n']. *)
Definition moves (id : string) (f : option string * Z -> option string * Z) (d d' : DB) : Prop :=
  forall r, workflowRow id d = Some r ->
    exists r', workflowRow id d' = Some r' /\ w_spec_json r' = w_spec_json r
      /\ (w_current_step_id r', w_current_round r') = f (w_current_step_id r, w_current_round r).
Lemma moves_trans (id : string) (f g : option string * Z -> option string * Z) (a b c : DB) :
  moves id f a b -> moves id g b c -> moves id (g ∘ f) a c.
Proof.
  intros H1 H2 r Hr. destruct (H1 r Hr) as (r1 & Hr1 & S1 & E1). destruct (H2 r1 Hr1) as (r2 & Hr2 & S2 & E2).
  exists r2. split; [done|]. split; [congruence|]. cbn. by rewrite <- E1.
Qed.
Lemma moves_same (id : string) (d d' : DB) : same_position id d d' -> moves id (fun p => p) d d'.
Proof. intros [H _] r Hr. destruct (H r Hr) as (r' & Hr' & [= E1 E2 E3]). exists r'. split; [done|]. split; [done|congruence]. Qed.

(** The executions of workflow [id] in [d'] are those in [d] and those [P] describes. *)
Definition adds (id : string) (P : string -> Z -> Prop) (d d' : DB) : Prop :=
  forall s n, executed id s n 1 d' <-> executed id s n 1 d \/ P s n.
Lemma adds_trans (id : string) (P Q : string -> Z -> Prop) (a b c : DB) : adds id P a b -> adds id Q b c -> adds id (fun s n => P s n \/ Q s n) a c.
Proof. intros H1 H2 s n. rewrite (H2 s n), (H1 s n). tauto. Qed.
Lemma adds_same (id : string) (d d' : DB) : same_position id d d' -> adds id (fun _ _ => False) d d'.
Proof. intros [_ H] s n. rewrite (H s n). tauto. Qed.

Lemma createStep_effect (id now : string) (i : CreateStepExecutionInput) (d d' : DB) (x : StepExecutionRecord) :
  createStepSync now i d = (Ok x, d') -> cs_workflow_id i = id -> cs_attempt i = 1 ->
  moves id (fun p => p) d d' /\ adds id (fun s n => s = cs_step_id i /\ n = cs_round i) d d'.
Proof.
  intros [-> Hfree]%createStep_ok Hw Ha. split; [intros r Hr; by exists r|].
  assert (forall s n, same_step_key id s n 1 (new_step_row now i) = true <-> s = cs_step_id i /\ n = cs_round i) as Hkey.
  { intros s n. unfold same_step_key. cbn. rewrite Hw, Ha, String.eqb_refl, Z.eqb_refl, andb_true_r. cbn.
    rewrite andb_true_iff, String.eqb_eq, Z.eqb_eq. naive_solver. }
  intros s n. rewrite <- Hkey. unfold executed, stepRow in *. cbn. split.
  - intros (k & r & [[<- <-]|[_ Hr]]%lookup_insert_Some & Hs); [by right|left; eauto].
  - intros [(k & r & Hr & Hs)|Hs].
    + exists k, r. rewrite lookup_insert_ne by congruence. done.
    + eexists _, _. rewrite lookup_insert_eq. done.
Qed.

Lemma updateWorkflow_effect (id now : string) (rev : Z) (p : WorkflowPatch) (d d' : DB) (x : WorkflowRecord) :
  updateWorkflowSync now id rev p d = (Ok x, d') ->
  moves id (fun q => (patched (wp_current_step_id p) (fst q), patched (wp_current_round p) (snd q))) d d' /\ adds id (fun _ _ => False) d d'.
Proof.
  intros (r & r' & Hr & Hr' & _ & _ & Hj & Hc & Hn & Hs)%updateWorkflow_ok. split.
  - intros q Hq. assert (q = r) as -> by congruence. exists r'. split; [done|]. split; [done|]. cbn. by rewrite Hc, Hn.
  - intros s n. unfold executed, stepRow. rewrite Hs. tauto.
Qed.

Lemma pointAt_effect (id now c : string) (wf : WorkflowRow) (d d' : DB) (u : unit) :
  workflowRow id d = Some wf -> pointAt now wf id c d = (Ok u, d') ->
  moves id (fun q => (Some c, snd q)) d d' /\ adds id (fun _ _ => False) d d'.
Proof.
  intros Hwf H. unfold pointAt, unless in H. destruct (opt_is (w_current_step_id wf) c) eqn:Eo.
  - injection H as _ <-. split; [|intros s n; tauto]. intros r Hr. assert (r = wf) as -> by congruence. exists wf. split; [done|]. split; [done|].
    cbn. by apply opt_is_spec in Eo as ->.
  - inv_run H. by match goal with H : updateWorkflowSync _ _ _ _ _ = _ |- _ => apply updateWorkflow_effect in H end.
Qed.

Lemma append_effect (id now w : string) (e : WorkflowEventDraft) (d d' : DB) (u : unit) :
  appendWorkflowEventAuto now w e d = (Ok u, d') -> moves id (fun p => p) d d' /\ adds id (fun _ _ => False) d d'.
Proof. intros H%(preserved (same_position id)); [|apply _]. split; [by apply moves_same|by apply adds_same]. Qed.

Lemma read_effect (id : string) (d : DB) : moves id (fun p => p) d d /\ adds id (fun _ _ => False) d d.
Proof. split; [intros r Hr; by exists r|intros s n; tauto]. Qed.

(** Both effects of an operation, in sequence, and up to equivalent descriptions. *)
Definition effect (id : string) (f : option string * Z -> option string * Z) (P : string -> Z -> Prop) (d d' : DB) : Prop :=
  moves id f d d' /\ adds id P d d'.
Lemma effect_seq (id : string) (f g : option string * Z -> option string * Z) (P Q : string -> Z -> Prop) (a b c : DB) :
  effect id f P a b -> effect id g Q b c -> effect id (fun q => g (f q)) (fun s n => P s n \/ Q s n) a c.
Proof. intros [M1 A1] [M2 A2]. split; [by apply (moves_trans _ f g _ b)|by apply (adds_trans _ P Q _ b)]. Qed.
Lemma effect_eq (id : string) (f g : option string * Z -> option string * Z) (P Q : string -> Z -> Prop) (a b : DB) :
  effect id f P a b -> (forall q, g q = f q) -> (forall s n, Q s n <-> P s n) -> effect id g Q a b.
Proof.
  intros [M A] Hf HP. split.
  - intros r Hr. destruct (M r Hr) as (r' & Hr' & Hj & E). exists r'. by rewrite Hf.
  - intros s n. by rewrite (A s n), HP.
Qed.

Section Effects.
Context (now c : string) (i : CreateStepExecutionInput) (Ha : cs_attempt i = 1).
Implicit Types (d : DB).

Abbreviation id := (cs_workflow_id i).
Abbreviation new := (fun s n => s = cs_step_id i /\ n = cs_round i).

Lemma ensure_effect (e : WorkflowEventDraft) d d' (x : StepExecutionRecord * WorkflowRecord * bool) :
  ensureStepStarted now i c e d = (Ok x, d') ->
  d' = d \/ effect id (fun q => (Some c, snd q)) new d d'.
Proof.
  intros H. unfold ensureStepStarted in H. inv_run H. branch Er; [left; by read_only|right].
  match goal with H : createStepSync _ _ _ = _ |- _ => pose proof (createStep_ok _ _ _ _ _ H) as [Es _]; pose proof (createStep_effect id _ _ _ _ _ H eq_refl Ha) as F1 end.
  match goal with H : pointAt _ ?wf _ _ ?s = _ |- _ => assert (workflowRow id s = Some wf) as Hwf by (by rewrite Es); pose proof (pointAt_effect _ _ _ _ _ _ _ Hwf H) as F2 end.
  match goal with H : appendWorkflowEventAuto _ _ _ _ = _ |- _ => apply (append_effect id) in H as F3 end. read_only.
  eapply effect_eq; [exact (effect_seq _ _ _ _ _ _ _ _ (effect_seq _ _ _ _ _ _ _ _ F1 F2) F3)|done|tauto].
Qed.

Lemma advance_effect (e1 : WorkflowEventDraft) (e2 : option WorkflowEventDraft) (e3 : WorkflowEventDraft) d d' (x : WorkflowRecord * StepExecutionRecord * bool) :
  advanceWorkflow now id e1 e2 i c e3 d = (Ok x, d') -> ~ executed id (cs_step_id i) (cs_round i) 1 d ->
  effect id (fun q => (Some c, if is_some e2 then cs_round i else snd q)) new d d'.
Proof.
  intros H Hn. unfold advanceWorkflow in H. inv_run H. branch Er.
  { destruct Hn. rewrite Ha in Er. by eapply stepExecByKey_executed. }
  match goal with H : appendWorkflowEventAuto _ _ e1 _ = _ |- _ => apply (append_effect id) in H as F1 end.
  match goal with H : appendWorkflowEventAuto _ _ e3 _ = _ |- _ => apply (append_effect id) in H as F5 end.
  match goal with H : createStepSync _ _ _ = _ |- _ => pose proof (createStep_effect id _ _ _ _ _ H eq_refl Ha) as F3 end.
  match goal with H : pointAt _ _ _ _ _ = _ |- _ => eapply pointAt_effect in H as F4; [|eassumption] end.
  assert (effect id (fun q => (fst q, if is_some e2 then cs_round i else snd q)) (fun _ _ => False) s s0) as F2.
  { destruct e2 as [ev|]; cbn [is_some]; [|injection H2 as _ <-; destruct (read_effect id s) as [M A]; split; [|done]].
    - inv_run H2. match goal with H : appendWorkflowEventAuto _ _ ev _ = _ |- _ => apply (append_effect id) in H as G2 end.
      match goal with H : updateWorkflowSync _ _ _ _ _ = _ |- _ => apply updateWorkflow_effect in H as G1 end.
      eapply effect_eq; [exact (effect_seq _ _ _ _ _ _ _ _ G1 G2)|done|tauto].
    - intros r Hr. destruct (M r Hr) as (r' & Hr' & Hj & E). exists r'. split; [done|]. split; [done|]. exact E. }
  read_only. eapply effect_eq;
    [exact (effect_seq _ _ _ _ _ _ _ _ (effect_seq _ _ _ _ _ _ _ _ (effect_seq _ _ _ _ _ _ _ _ (effect_seq _ _ _ _ _ _ _ _ F1 F2) F3) F4) F5)|done|tauto].
Qed.
End Effects.

(** ** Following a run that returned *)

Section Runs.
Context {E : Type} (env : Env E).
Implicit Types (w : World E).

Lemma rbind_ok {A B : Type} (m : R E A) (k : A -> R E B) w b w' :
  (m ≫= k) w = (Ok b, w') -> exists a w1, m w = (Ok a, w1) /\ k a w1 = (Ok b, w').
Proof. unfold mbind, R_bind. destruct (m w) as [[a|e] w1]; [|done]. by exists a, w1. Qed.

Lemma store_returns (Rel : relation DB) {A : Type} (m : string -> M A) w a w' :
  Rely env Rel -> store env m w = (Ok a, w') -> exists now d, Rel (wd_db w) d /\ m now d = (Ok a, wd_db w').
Proof.
  intros Hr. unfold store. specialize (Hr (wd_env w) (wd_db w)). destruct (en_interfere env (wd_env w) (wd_db w)) as [e1 d1].
  destruct (en_iso env e1) as [now e2]. destruct (m now d1) as [[x|c] d2] eqn:Em; [|done]. intros [= <- <-]. by exists now, d1.
Qed.

Lemma rp_returned (Rel : relation DB) {A : Type} (m : R E A) w r w1 : RPreserves Rel m -> m w = (r, w1) -> Rel (wd_db w) (wd_db w1).
Proof. intros Hm H. specialize (Hm w). by rewrite H in Hm. Qed.

Lemma rret_ok {A : Type} (a b : A) w w' : (mret a : R E A) w = (Ok b, w') -> a = b /\ w = w'.
Proof. by intros [= -> ->]. Qed.
End Runs.

(** Peel binds off a run that returned. *)
Ltac peel H a w E := apply rbind_ok in H as (a & w & E & H); cbv beta in H.

Section Turn.
Context {E : Type} (env : Env E) (id : string) {Hrun : Rely env store_run} {Hpos : Rely env (same_position id)}.
Implicit Types (w : World E).

#[local] Hint Constants Opaque : typeclass_instances.

(** Only a completed step lets the pump go on after its task ended. *)
Lemma handle_goes_on (fuel : nat) (spec : value) (step : StepExecutionRecord) (r : AgentTaskTerminalRead) w w' :
  handleTaskTerminal env fuel id spec step r w = (Ok false, w') -> step_status (st_id step) "completed" (wd_db w').
Proof.
  unfold handleTaskTerminal. intros H. peel H o w1 E1. peel H wf w2 E2. peel H u w3 E3.
  destruct (w_cancel_requested (wf_row wf)). { by peel H x w4 E4. }
  destruct (rd_status r =s "failed"). { by peel H x w4 E4. }
  destruct (rd_status r =s "cancelled"). { by peel H x w4 E4. }
  peel H res w4 E4. destruct res as [[r' text]|]; [|done].
  destruct (parseResultOutput text spec (st_step step)) as [out|[code field]]; [|by peel H x w5 E5].
  peel H specStep w5 E5. peel H cr w6 E6. peel H ts w7 E7. peel H x w8 E8. apply rret_ok in H as [_ <-].
  apply (store_returns env store_run) in E8 as (now & d & _ & Hc); [|apply _].
  by eapply ensures_completed.
Qed.

(** The pump goes on after routing only by a move to the selected step. *)
Lemma route_goes_on (spec : value) (step : StepExecutionRecord) w w' :
  routeAndAdvance env id spec step w = (Ok false, w') ->
  exists out t k, selectEdge spec (st_step step) out (st_round step) = RouteTo false t k
    /\ ((k =s "loop") = true -> st_round step < limit_of spec "max_rounds")
    /\ let n := if k =s "loop" then st_round step + 1 else st_round step in
       exists now d e1 e2 e3 x, same_position id (wd_db w) d /\ is_some e2 = (k =s "loop")
         /\ advanceWorkflow now id e1 e2 (next_step_input id t n) t e3 d = (Ok x, wd_db w').
Proof.
  unfold routeAndAdvance. intros H. destruct (output_obj step) as [out|]; [|by peel H x w1 E1].
  destruct (selectEdge spec (st_step step) out (st_round step)) as [[] t k| |] eqn:Es; [|..|by peel H x w1 E1|by peel H x w1 E1]; cbv zeta in H.
  - exfalso. destruct (_ && truthy _); [unfold gateCompletion in H; peel H ev w1 E1; cbv zeta in H; peel H u w2 E2; peel H ts1 w3 E3; peel H ts2 w4 E4;
      destruct (decision_outcome _) as [[st ty] pl]; by peel H x w5 E5|]. peel H ts1 w1 E1. peel H ts2 w2 E2. by peel H x w3 E3.
  - exists out, t, k. split; [done|].
    destruct ((k =s "loop") && negb (canTakeLoopEdge (NInt (st_round step)) (NInt (limit_of spec "max_rounds")))) eqn:El; [by peel H x w1 E1|].
    split. { intros Hk. rewrite Hk in El. cbn in El. apply negb_false_iff, Z.ltb_lt in El. done. }
    peel H stalled w1 E1. destruct stalled; [done|]. peel H ts1 w2 E2. peel H ts2 w3 E3. peel H ts3 w4 E4. peel H x w5 E5. apply rret_ok in H as [_ <-].
    apply (store_returns env (same_position id)) in E5 as (now & d & Hd & Ha); [|apply _].
    eexists now, d, _, _, _, x. split; [|split; [|exact Ha]]; [|by destruct (k =s "loop")].
    apply (rp_returned (same_position id)) in E1, E2, E3, E4; [|rpreserve..].
    by do 4 (etransitivity; [eassumption|]).
Qed.
End Turn.

(** ** The place of a running workflow *)

Section Position.
Context (id : string) (spec : value) (rmax : Z) (Hvalid : vr_valid (validateWorkflowSpec spec) = true).
Implicit Types (d : DB).

Definition cur_of (r : WorkflowRow) : string := patched (w_current_step_id r) (str_of (get "entry_step" spec)).

(** The executions of workflow [id] are in rounds up to the current one, and those of the
    current round lie on normal paths to the current step. *)
Definition position_ok d : Prop :=
  exists r, workflowRow id d = Some r /\ decodeJson (Some (w_spec_json r)) SIZE_LIMITS.spec_json false = Ok spec
    /\ In (cur_of r) (step_ids spec) /\ 1 <= w_current_round r <= rmax
    /\ forall s n, executed id s n 1 d -> n <= w_current_round r /\ (n = w_current_round r -> exists l, path (normal_edge spec) s (cur_of r) l).

(** The current step and round. *)
Definition at_place (c : string) (n : Z) d : Prop := exists r, workflowRow id d = Some r /\ cur_of r = c /\ w_current_round r = n.

Lemma place_same (c : string) (n : Z) d d' : same_position id d d' -> at_place c n d -> at_place c n d'.
Proof.
  intros [H _] (r & Hr & Hc & Hn). destruct (H r Hr) as (r' & Hr' & [= _ E2 E3]). exists r'. unfold cur_of in *. by rewrite E2, E3.
Qed.
Lemma position_same d d' : same_position id d d' -> position_ok d -> position_ok d'.
Proof.
  intros [H1 H2] (r & Hr & Hj & Hc & Hn & Hx). destruct (H1 r Hr) as (r' & Hr' & [= E1 E2 E3]). exists r'. unfold cur_of in *.
  rewrite E1, E2, E3. do 4 (split; [done|]). intros s n Hs. apply Hx. by apply H2.
Qed.

(** Starting the current step. *)
Lemma position_start (c : string) (n : Z) d d' :
  at_place c n d -> effect id (fun q => (Some c, snd q)) (fun s m => s = c /\ m = n) d d' ->
  position_ok d -> position_ok d' /\ at_place c n d'.
Proof.
  intros (r0 & Hr0 & <- & <-) [M A] (r & Hr & Hj & Hc & Hn & Hx). assert (r0 = r) as -> by congruence.
  destruct (M r Hr) as (r' & Hr' & Hj' & [= E1 E2]). assert (cur_of r' = cur_of r) as Ec by (unfold cur_of at 1; by rewrite E1).
  split; [|exists r'; by rewrite Ec]. exists r'. rewrite Hj', Ec, E2. do 4 (split; [done|]).
  intros s m [Hs|[-> ->]]%A; [by apply Hx|]. split; [lia|]. intros _. exists []. constructor.
Qed.

(** Moving on. *)
Lemma position_move (c t k : string) (n : Z) (out : value) (d d' : DB) :
  let n' := if k =s "loop" then n + 1 else n in
  at_place c n d -> selectEdge spec c out n = RouteTo false t k -> ((k =s "loop") = true -> n < rmax) ->
  effect id (fun q => (Some t, if k =s "loop" then n' else snd q)) (fun s m => s = t /\ m = n') d d' ->
  position_ok d -> position_ok d' /\ at_place t n' d' /\ In t (step_ids spec) /\ 1 <= n' <= rmax.
Proof.
  intros n' (r0 & Hr0 & <- & <-) He Hk [M A] (r & Hr & Hj & Hc & Hn & Hx). assert (r0 = r) as -> by congruence.
  destruct (selected_edge _ _ _ _ _ _ Hvalid He) as [Ht Hnormal].
  destruct (M r Hr) as (r' & Hr' & Hj' & [= E1 E2]). assert (cur_of r' = t) as Ec by (unfold cur_of; by rewrite E1).
  assert (w_current_round r' = n') as En by (rewrite E2; by destruct (k =s "loop")).
  assert (1 <= n' <= rmax) as Hb by (subst n'; destruct (k =s "loop"); [specialize (Hk eq_refl)|]; lia).
  split; [|split; [by exists r'|done]]. exists r'. rewrite Hj', Ec, En. do 4 (split; [done|]).
  intros s m [Hs|[-> ->]]%A; [|split; [lia|]; intros _; exists []; constructor].
  destruct (Hx s m Hs) as [Hle Hpath]. subst n'. destruct (k =s "loop"); [split; lia|]. split; [done|]. intros Hm.
  destruct (Hpath Hm) as [l Hl]. exists (l ++ [cur_of r]). eapply path_snoc; [exact Hl|]. by apply Hnormal.
Qed.

(** What the pump moves to has not been executed. *)
Lemma move_is_new (c t k : string) (n : Z) (out : value) d :
  at_place c n d -> selectEdge spec c out n = RouteTo false t k -> position_ok d ->
  ~ executed id t (if k =s "loop" then n + 1 else n) 1 d.
Proof.
  intros (r0 & Hr0 & <- & <-) He (r & Hr & Hj & Hc & Hn & Hx) Hex. assert (r0 = r) as -> by congruence.
  destruct (selected_edge _ _ _ _ _ _ Hvalid He) as [Ht Hnormal]. destruct (Hx _ _ Hex) as [Hle Hpath].
  destruct (k =s "loop"); [lia|]. destruct (Hpath eq_refl) as [l Hl].
  apply (normal_acyclic spec (cur_of r) (cur_of r) (cur_of r :: l)); [done| |done|done].
  eapply path_cons; [by apply Hnormal|exact Hl].
Qed.
End Position.

(** ** The measure *)

Section Measure.
Context (id : string) (spec : value) (rmax : Z).
Implicit Types (d : DB).

(** The coordinates of all possible executions, and those that do not exist yet. *)
Definition grid : list (string * Z) := list_prod (step_ids spec) (seqZ 1 rmax).
Definition missing d : nat := List.length (List.filter (fun p => negb (is_some (stepExecByKey id (fst p) (snd p) 1 d))) grid).

Definition done_at (s : string) (n : Z) d : Prop := exists k r, stepRow k d = Some r /\ same_step_key id s n 1 r = true /\ s_status r = "completed".
(** 1 unless the current step is completed. *)
Definition pending d : nat :=
  match workflowRow id d with
  | Some r => match find_row (fun q => same_step_key id (cur_of spec r) (w_current_round r) 1 q && (s_status q =s "completed")) (db_steps d) with
              | Some _ => 0
              | None => 1
              end
  | None => 1
  end.
Definition turns_left d : nat := 2 * missing d + pending d.

Lemma executed_bool (s : string) (n : Z) d : is_some (stepExecByKey id s n 1 d) = true <-> executed id s n 1 d.
Proof.
  split.
  - destruct (stepExecByKey id s n 1 d) as [r|] eqn:Er; [|done]. intros _. by eapply stepExecByKey_executed.
  - intros (r & ->)%stepExecByKey_some. done.
Qed.

Lemma missing_mono d d' : (forall s n, executed id s n 1 d -> executed id s n 1 d') -> (missing d' <= missing d)%nat.
Proof.
  intros H. apply filter_le. intros [s n]. cbn. rewrite !negb_true_iff, <- !not_true_iff_false, !executed_bool. auto.
Qed.
Lemma missing_less d d' (s : string) (n : Z) :
  (forall s n, executed id s n 1 d -> executed id s n 1 d') -> In s (step_ids spec) -> 1 <= n <= rmax ->
  ~ executed id s n 1 d -> executed id s n 1 d' -> (missing d' < missing d)%nat.
Proof.
  intros H Hs Hn H1 H2. apply (filter_lt _ _ _ (s, n)).
  - intros [x m]. cbn. rewrite !negb_true_iff, <- !not_true_iff_false, !executed_bool. auto.
  - apply in_prod; [done|]. apply list_elem_of_In, elem_of_seqZ. lia.
  - cbn. apply negb_false_iff, executed_bool. done.
  - cbn. rewrite negb_true_iff, <- not_true_iff_false, executed_bool. done.
Qed.

Lemma pending_le d : (pending d <= 1)%nat.
Proof. unfold pending. repeat case_match; lia. Qed.
Lemma pending_zero (c : string) (n : Z) d : at_place id spec c n d -> done_at c n d -> pending d = O.
Proof.
  intros (r & Hr & <- & <-) (k & q & Hq & Hs & Hst). unfold pending. rewrite Hr. destruct (find_row _ _) eqn:Ef; [done|].
  pose proof (proj1 (find_row_none _ _) Ef k q Hq) as Hf. cbv beta in Hf. by rewrite Hs, Hst in Hf.
Qed.
Lemma pending_one (c : string) (n : Z) d : at_place id spec c n d -> ~ done_at c n d -> pending d = 1%nat.
Proof.
  intros (r & Hr & <- & <-) Hn. unfold pending. rewrite Hr. destruct (find_row _ _) as [q|] eqn:Ef; [|done]. destruct Hn.
  apply find_row_some in Ef as (k & Hq & [Hs Hst%String.eqb_eq]%andb_true_iff). by exists k, q.
Qed.
End Measure.

(** ** One turn *)

Section OneTurn.
Context {E : Type} (env : Env E) (id : string) (spec : value) (rmax : Z) (fuel : nat).
Context (Hvalid : vr_valid (validateWorkflowSpec spec) = true) (Hmax : limit_of spec "max_rounds" <= rmax).
Context {Hrun : Rely env store_run} {Hpos : Rely env (same_position id)}.
Implicit Types (w : World E).

#[local] Hint Constants Opaque : typeclass_instances.

Lemma executed_run (s : string) (n : Z) (d d' : DB) : store_run d d' -> executed id s n 1 d -> executed id s n 1 d'.
Proof. intros H. apply (settled_run _ _ _ H). Qed.
Lemma done_run (s : string) (n : Z) (d d' : DB) : store_run d d' -> done_at id s n d -> done_at id s n d'.
Proof.
  intros H%store_run_evolves (k & r & Hr & Hk & Hst). destruct (ev_steps _ _ H k r Hr) as (r' & Hr' & Hev). exists k, r'. split; [done|].
  destruct (se_identity _ _ Hev) as (_ & Ew & Es & En & Ea & _). unfold same_step_key in *. rewrite Ew, Es, En, Ea. split; [done|].
  destruct (se_terminal _ _ Hev) as [-> _]; [by rewrite Hst|done].
Qed.

(** The record of an unfinished execution shows that the step is not done. *)
Lemma own_not_done (c : string) (n : Z) (step : StepExecutionRecord) (key : string) (d : DB) :
  step_keys_unique d -> stepRow key d = Some (st_row step) -> same_step_key id c n 1 (st_row step) = true ->
  s_status (st_row step) <> "completed" -> ~ done_at id c n d.
Proof.
  intros Hu Hr Hk Hst (k & r & Hr' & Hk' & Hst').
  assert (forall q, same_step_key id c n 1 q = true -> step_key q = Some (id, c, n, 1)) as Hkey.
  { intros q Hq. unfold same_step_key in Hq. repeat (apply andb_prop in Hq as [Hq ?]). bsimpl. unfold step_key. congruence. }
  assert (key = k) as -> by exact (Hu key k (st_row step) r (id, c, n, 1) Hr Hr' (Hkey _ Hk) (Hkey _ Hk')). congruence.
Qed.

Abbreviation left d := (turns_left id spec rmax d).

Lemma place_back (c : string) (n : Z) (d d' : DB) :
  position_ok id spec rmax d -> same_position id d d' -> at_place id spec c n d' -> at_place id spec c n d.
Proof.
  intros (r & Hr & _) Hs (q & Hq & <- & <-). exists r. split; [done|].
  destruct (proj1 Hs r Hr) as (r' & Hr' & [= _ E2 E3]). assert (q = r') as -> by congruence. unfold cur_of. by rewrite E2, E3.
Qed.
Lemma left_mono (c : string) (n : Z) (d d' : DB) :
  store_run d d' -> at_place id spec c n d -> at_place id spec c n d' -> (left d' <= left d)%nat.
Proof.
  intros Hr Hp Hp'. unfold turns_left. pose proof (missing_mono id spec rmax d d' (fun s m => executed_run s m _ _ Hr)).
  assert (pending id spec d' <= pending id spec d)%nat; [|lia]. pose proof (pending_le id spec d').
  destruct (decide (pending id spec d = 1%nat)) as [->|Hne]; [done|].
  assert (pending id spec d = O) as Hz by (pose proof (pending_le id spec d); lia). rewrite Hz.
  destruct Hp as (r & Hrow & <- & <-). unfold pending in Hz. rewrite Hrow in Hz. destruct (find_row _ _) as [q|] eqn:Ef; [|done].
  apply find_row_some in Ef as (k & Hq & [Hs Hst%String.eqb_eq]%andb_prop).
  rewrite (pending_zero id spec _ _ d' Hp'); [done|]. eapply done_run; [exact Hr|]. by exists k, q.
Qed.

(** A turn that completes the current step. *)
Lemma completing_turn (c : string) (n : Z) (d d' : DB) :
  store_run d d' -> at_place id spec c n d -> at_place id spec c n d' -> ~ done_at id c n d -> done_at id c n d' -> (left d' < left d)%nat.
Proof.
  intros Hr Hp Hp' Hn Hd. unfold turns_left. rewrite (pending_one id spec c n d Hp Hn), (pending_zero id spec c n d' Hp' Hd).
  pose proof (missing_mono id spec rmax d d' (fun s m => executed_run s m _ _ Hr)). lia.
Qed.

(** A turn that moves to a new execution. *)
Lemma moving_turn (t : string) (n : Z) (d d' : DB) :
  store_run d d' -> In t (step_ids spec) -> 1 <= n <= rmax -> ~ executed id t n 1 d -> executed id t n 1 d' -> pending id spec d = O -> (left d' < left d)%nat.
Proof.
  intros Hr Ht Hn H1 H2 Hp. unfold turns_left. rewrite Hp. pose proof (pending_le id spec d').
  pose proof (missing_less id spec rmax d d' t n (fun s m => executed_run s m _ _ Hr) Ht Hn H1 H2). lia.
Qed.

(** What a turn relies on: a well-formed store and a well-placed workflow. *)
Definition ready (d : DB) : Prop := store_ok d /\ position_ok id spec rmax d.

(** The step the turn works on, read or started. *)
Lemma current_step (c : string) (n : Z) (os : option StepExecutionRecord) w w1 step w2 :
  ready (wd_db w) -> at_place id spec c n (wd_db w) -> read env (getStepExecutionByKey id c n 1) w = (Ok os, w1) ->
  (match os with Some s => mret s | None => startStep env id c n end) w1 = (Ok step, w2) ->
  store_run (wd_db w) (wd_db w2) /\ ready (wd_db w2) /\ at_place id spec c n (wd_db w2) /\ own_at id c n step (wd_db w2)
  /\ (exists key, stepRow key (wd_db w2) = Some (st_row step)).
Proof.
  intros [Hok Hpo] Hp E1 E2. apply (rp_returned store_run) in E1 as R1; [|rpreserve]. apply (rp_returned (same_position id)) in E1 as S1; [|rpreserve].
  assert (store_run (wd_db w1) (wd_db w2)) as R2 by (eapply (rp_returned store_run); [|exact E2]; destruct os; rpreserve).
  assert (store_run (wd_db w) (wd_db w2)) as Rw by (etransitivity; eassumption).
  pose proof (store_ok_run _ _ Rw Hok) as Hok2. split; [done|].
  pose proof (position_same id spec rmax _ _ S1 Hpo) as Hpo1. pose proof (place_same id spec c n _ _ S1 Hp) as Hp1.
  destruct os as [x|].
  - injection E2 as <- <-. split; [done|]. split; [done|].
    split; [exact (read_own env id c n _ _ _ (ok_steps_filed _ Hok2) E1)|exact (step_read env id c n _ _ _ E1)].
  - assert (position_ok id spec rmax (wd_db w2) /\ at_place id spec c n (wd_db w2)) as [Hpo2 Hp2].
    { unfold startStep in E2. peel E2 ts wa Ea. peel E2 r wb Eb. apply rret_ok in E2 as [_ <-].
      apply (rp_returned (same_position id)) in Ea; [|rpreserve].
      apply (store_returns env (same_position id)) in Eb as (now & d & Hd & He); [|apply _].
      assert (same_position id (wd_db w1) d) as Sd by (etransitivity; eassumption).
      pose proof (position_same id spec rmax _ _ Sd Hpo1) as Hpod. pose proof (place_same id spec c n _ _ Sd Hp1) as Hpd.
      apply ensure_effect in He as [-> | He]; [done| |done]. by eapply position_start. }
    split; [done|]. split; [done|]. split; [exact (start_own env id c n _ _ _ (ok_steps_filed _ Hok2) E2)|exact (startStep_row env id c n _ _ _ E2)].
Qed.

(** A completed execution of [c] in round [n]. *)
Lemma own_done (c : string) (n : Z) (step : StepExecutionRecord) (d : DB) :
  own_at id c n step d -> step_status (st_id step) "completed" d -> done_at id c n d.
Proof.
  intros [(row & Hr & Hw & Hs & Hn & Ha & _) Hk] (q & Hq & Hst & _). assert (q = row) as -> by congruence. exists (st_id step), row.
  split; [done|]. split; [|done]. unfold same_step_key, st_step, st_round in *. rewrite Hs, Hn, Ha.
  repeat (apply andb_prop in Hk as [Hk ?]). repeat (apply andb_true_intro; split); try done. by rewrite Hw, String.eqb_refl.
Qed.
Lemma own_at_run (c : string) (n : Z) (step : StepExecutionRecord) (d d' : DB) : store_run d d' -> own_at id c n step d -> own_at id c n step d'.
Proof. intros H [Ho Hk]. split; [|done]. by eapply own_mono. Qed.

(** The coordinates of the record are those asked for. *)
Lemma own_coords (c : string) (n : Z) (step : StepExecutionRecord) (d : DB) : own_at id c n step d -> st_step step = c /\ st_round step = n.
Proof. intros [_ Hk]. unfold same_step_key in Hk. repeat (apply andb_prop in Hk as [Hk ?]). bsimpl. done. Qed.

(** The bound step is the current one. *)
Lemma ensure_task_own (c : string) (n : Z) (wf : WorkflowRecord) (step b : StepExecutionRecord) w w' :
  steps_filed (wd_db w) -> own_at id c n step (wd_db w) -> ensure_task env fuel id spec wf step w = (Ok (Some b), w') -> own_at id c n b (wd_db w').
Proof.
  intros Hf Ho H. apply (rp_returned store_run) in H as Hr; [|rpreserve]. pose proof (filed_run _ _ Hr Hf) as Hf'.
  unfold ensure_task in H. destruct (st_task step); [apply rret_ok in H as [[= <-] <-]; done|].
  destruct (_ <=? _); [by peel H x w1 E1|]. peel H ok w1 E1. destruct (negb ok); [done|]. peel H o w2 E2. peel H s w3 E3.
  apply rret_ok in H as [[= <-] <-]. destruct o as [o|]; [|done]. apply rret_ok in E3 as [<- <-].
  destruct (own_coords _ _ _ _ Ho) as [<- <-]. exact (read_own env id _ _ _ _ _ Hf' E2).
Qed.

Lemma ready_same (d d' : DB) : store_run d d' -> same_position id d d' -> ready d -> ready d'.
Proof. intros Hr Hs [Hok Hp]. split; [by eapply store_ok_run|by eapply position_same]. Qed.

(** The workflow read at the start of a turn, its place and its spec. *)
Lemma turn_place (wf : WorkflowRecord) (sp : value) (d : DB) :
  ready d -> getWorkflow id d = (Ok (Some wf), d) -> loadSpec wf = Some sp ->
  sp = spec /\ at_place id spec (patched (w_current_step_id (wf_row wf)) (str_of (get "entry_step" spec))) (w_current_round (wf_row wf)) d.
Proof.
  intros [_ (r & Hr & Hj & _)] Hw Hl. apply getWorkflow_row in Hw as [Hrow Hto]. assert (r = wf_row wf) as -> by congruence.
  apply toWorkflow_spec in Hto. unfold loadSpec in Hl. destruct (vr_valid (validateWorkflowSpec (wf_spec wf))); [|done]. apply (inj Some) in Hl as <-.
  split; [congruence|]. by exists (wf_row wf).
Qed.

(** A turn that routes and goes on. *)
Lemma routing_turn (c : string) (n : Z) (step : StepExecutionRecord) w w' :
  ready (wd_db w) -> at_place id spec c n (wd_db w) -> own_at id c n step (wd_db w) -> done_at id c n (wd_db w) ->
  routeAndAdvance env id spec step w = (Ok false, w') -> ready (wd_db w') /\ (left (wd_db w') < left (wd_db w))%nat.
Proof.
  intros Hrd Hp Ho Hd H. apply (rp_returned store_run) in H as Hrw; [|rpreserve].
  destruct (route_goes_on env id spec step w w' H) as (out & t & k & Hsel & Hlim & now & d & e1 & e2 & e3 & x & Hsame & He2 & Ha).
  destruct (own_coords _ _ _ _ Ho) as [Hc Hn]. rewrite Hc, Hn in *.
  pose proof (position_same id spec rmax _ _ Hsame (proj2 Hrd)) as Hpd. pose proof (place_same id spec c n _ _ Hsame Hp) as Hpl.
  pose proof (move_is_new id spec rmax Hvalid c t k n out d Hpl Hsel Hpd) as Hnew.
  pose proof (advance_effect now t (next_step_input id t (if k =s "loop" then n + 1 else n)) eq_refl e1 e2 e3 d (wd_db w') x Ha Hnew) as Heff.
  cbn in Heff. rewrite He2 in Heff.
  destruct (position_move id spec rmax Hvalid c t k n out d (wd_db w')) as (Hpo' & Hpl' & Ht & Hb); [done|done| |done|done|].
  { intros Hk. specialize (Hlim Hk). lia. }
  split; [split; [by eapply store_ok_run; [|apply Hrd]|done]|].
  eapply (moving_turn t); [done|done|exact Hb| | |].
  - intros Hx. apply Hnew. by apply (proj2 Hsame).
  - apply (proj2 Heff). by right.
  - by eapply pending_zero.
Qed.

(** A turn that goes on leaves fewer turns. *)
Lemma turn_decreases w w' :
  ready (wd_db w) -> driveStep env fuel id w = (Ok false, w') -> ready (wd_db w') /\ (left (wd_db w') < left (wd_db w))%nat.
Proof.
  intros Hrd H. unfold driveStep in H. peel H o w1 E1. destruct o as [wf|]; [|done]. destruct (negb (wf_status wf =s "running")); [done|].
  destruct (loadSpec wf) as [sp|] eqn:El; [|by peel H x w2 E2].
  apply (rp_returned store_run) in E1 as R1; [|rpreserve]. apply (rp_returned (same_position id)) in E1 as S1; [|rpreserve].
  pose proof (ready_same _ _ R1 S1 Hrd) as Hrd1.
  destruct (read_inv env store_run _ _ _ _ Hrun (reads_getWorkflow eq _) E1) as (d & _ & Ed & [(a & Hw & [= <-])|(e & _ & [=])]). subst d.
  destruct (turn_place wf sp (wd_db w1) Hrd1 Hw El) as [-> Hp1]. clear Hw.
  destruct (w_cancel_requested (wf_row wf)); [by peel H x w2 E2|]. peel H dl w2 E2. destruct dl; [by peel H x w3 E3|]. cbv zeta in H.
  set (c := patched (w_current_step_id (wf_row wf)) _) in *. set (n := w_current_round (wf_row wf)) in *.
  apply (rp_returned store_run) in E2 as R2; [|rpreserve]. apply (rp_returned (same_position id)) in E2 as S2; [|rpreserve].
  pose proof (ready_same _ _ R2 S2 Hrd1) as Hrd2. pose proof (place_same id spec c n _ _ S2 Hp1) as Hp2.
  peel H os w3 E3. peel H step w4 E4.
  destruct (current_step c n os w2 w3 step w4 Hrd2 Hp2 E3 E4) as (R4 & Hrd4 & Hp4 & Ho & key & Hkey).
  assert (store_run (wd_db w) (wd_db w4)) as Rw by (do 2 (etransitivity; [eassumption|]); done).
  assert (at_place id spec c n (wd_db w)) as Hp by (eapply place_back; [exact (proj2 Hrd)|exact S1|exact Hp1]).
  pose proof (left_mono c n _ _ Rw Hp Hp4) as Hle.
  destruct (s_status (st_row step) =s "completed") eqn:Ec; [apply String.eqb_eq in Ec|apply String.eqb_neq in Ec].
  { destruct (routing_turn c n step w4 w' Hrd4 Hp4 Ho) as [Hrd' Hlt]; [|exact H|split; [done|lia]].
    exists key, (st_row step). split; [done|]. split; [apply Ho|done]. }
  destruct (isTerminalStepStatus _); [done|]. peel H b w5 E5. destruct b as [b|]; [|done]. peel H out w6 E6.
  destruct out as [r| | |]; [|done|by peel H x w7 E7|by peel H x w7 E7].
  pose proof (ensure_task_own c n wf step b w4 w5 (ok_steps_filed _ (proj1 Hrd4)) Ho E5) as Hb.
  pose proof (handle_goes_on env id fuel spec b r w6 w' H) as Hst.
  apply (rp_returned store_run) in E5 as R5; [|rpreserve]. apply (rp_returned (same_position id)) in E5 as S5; [|rpreserve].
  apply (rp_returned store_run) in E6 as R6; [|rpreserve]. apply (rp_returned (same_position id)) in E6 as S6; [|rpreserve].
  apply (rp_returned store_run) in H as R7; [|rpreserve]. apply (rp_returned (same_position id)) in H as S7; [|rpreserve].
  assert (store_run (wd_db w5) (wd_db w')) as R57 by (etransitivity; eassumption).
  assert (store_run (wd_db w4) (wd_db w')) as R47 by (etransitivity; eassumption).
  assert (same_position id (wd_db w4) (wd_db w')) as S47 by (do 2 (etransitivity; [eassumption|]); done).
  split; [by eapply ready_same|]. eapply Nat.lt_le_trans; [|exact Hle].
  apply (completing_turn c n); [done|done|by eapply place_same| |].
  - eapply own_not_done; [exact (ok_step_keys _ (proj1 Hrd4))|exact Hkey|apply Ho|exact Ec].
  - apply (own_done c n b); [exact (own_at_run c n b _ _ R57 Hb)|exact Hst].
Qed.

(** *** Turns that stop *)

Lemma ready_rp {A : Type} (m : R E A) w : RPreserves store_run m -> RPreserves (same_position id) m -> ready (wd_db w) -> ready (wd_db (snd (m w))).
Proof. intros Hr Hs. apply ready_same; [apply Hr|apply Hs]. Qed.
Lemma ready_bind {A B : Type} (m : R E A) (k : A -> R E B) w :
  ready (wd_db (snd (m w))) -> (forall a w1, m w = (Ok a, w1) -> ready (wd_db w1) -> ready (wd_db (snd (k a w1)))) -> ready (wd_db (snd ((m ≫= k) w))).
Proof. intros Hm Hk. destruct (rbind_inv m k w) as [(a & w1 & E1 & ->)|(e & w1 & E1 & ->)]; rewrite E1 in Hm; [by apply Hk|exact Hm]. Qed.

(** A failed store operation that rolls back is no operation. *)
Lemma store_failed (Rel : relation DB) {A : Type} (m : string -> M A) w e w' :
  Rely env Rel -> (forall now d c d', m now d = (Err c, d') -> d' = d) -> store env m w = (Err e, w') -> Rel (wd_db w) (wd_db w').
Proof.
  intros Hr Hm. unfold store. specialize (Hr (wd_env w) (wd_db w)). destruct (en_interfere env (wd_env w) (wd_db w)) as [e1 d1].
  destruct (en_iso env e1) as [now e2]. destruct (m now d1) as [[x|c] d2] eqn:Em; [done|]. intros [= _ <-]. cbn. by apply Hm in Em as ->.
Qed.

Lemma start_ready (c : string) (n : Z) w :
  ready (wd_db w) -> at_place id spec c n (wd_db w) -> ready (wd_db (snd (startStep env id c n w))).
Proof.
  intros Hrd Hp. destruct (startStep env id c n w) as [[x|e] w'] eqn:H.
  - unfold startStep in H. peel H ts wa Ea. peel H r wb Eb. apply rret_ok in H as [_ <-].
    apply (rp_returned (same_position id)) in Ea as Sa; [|rpreserve]. apply (rp_returned store_run) in Ea as Ra; [|rpreserve].
    apply (rp_returned store_run) in Eb as Rb; [|rpreserve].
    apply (store_returns env (same_position id)) in Eb as (now & d & Hd & He); [|apply _].
    assert (same_position id (wd_db w) d) as Sd by (etransitivity; eassumption).
    split; [eapply store_ok_run; [|apply Hrd]; by etransitivity|]. cbn [snd].
    pose proof (position_same id spec rmax _ _ Sd (proj2 Hrd)) as Hpod. pose proof (place_same id spec c n _ _ Sd Hp) as Hpd.
    apply ensure_effect in He as [-> | He]; [done| |done]. by eapply position_start.
  - assert (store_run (wd_db w) (wd_db w')) as Hr by (eapply (rp_returned store_run); [|exact H]; rpreserve).
    eapply ready_same; [exact Hr| |exact Hrd]. unfold startStep in H.
    match type of H with (?m ≫= ?k) w = _ => destruct (rbind_inv m k w) as [(ts & wa & Ea & E2)|(e' & wa & Ea & E2)] end; rewrite E2 in H.
    + apply (rp_returned (same_position id)) in Ea; [|rpreserve]. etransitivity; [exact Ea|].
      match type of H with (?m ≫= ?k) wa = _ => destruct (rbind_inv m k wa) as [(r & wb & Eb & E3)|(e' & wb & Eb & E3)] end; rewrite E3 in H; [done|].
      injection H as _ <-. eapply store_failed; [exact Hpos| |exact Eb]. intros now d c0 d' Hf. by apply rolled_back in Hf.
    + injection H as _ <-. eapply (rp_returned (same_position id)); [|exact Ea]. rpreserve.
Qed.

Lemma sp_bind {A B : Type} (m : R E A) (k : A -> R E B) w r w' :
  (m ≫= k) w = (r, w') -> RPreserves (same_position id) m ->
  (forall a w1, k a w1 = (r, w') -> same_position id (wd_db w1) (wd_db w')) -> same_position id (wd_db w) (wd_db w').
Proof.
  intros H Hm Hk. specialize (Hm w). destruct (rbind_inv m k w) as [(a & w1 & E1 & E2)|(e & w1 & E1 & E2)]; rewrite E1 in Hm; rewrite E2 in H.
  - etransitivity; [exact Hm|by eapply Hk].
  - by injection H as _ <-.
Qed.

(** Routing that stops the pump does not move the workflow. *)
Lemma route_stops (step : StepExecutionRecord) w r w' :
  routeAndAdvance env id spec step w = (r, w') -> r <> Ok false -> same_position id (wd_db w) (wd_db w').
Proof.
  intros H Hne. unfold routeAndAdvance in H.
  assert (forall m : R E bool, RPreserves (same_position id) m -> m w = (r, w') -> same_position id (wd_db w) (wd_db w')) as Hrp.
  { intros m Hm Hrun'. by eapply rp_returned. }
  destruct (output_obj step) as [out|]; [|eapply Hrp; [|exact H]; rpreserve].
  destruct (selectEdge spec (st_step step) out (st_round step)) as [[] t k| |] eqn:Es; cbv zeta in H; [| |eapply Hrp; [|exact H]; rpreserve..].
  - eapply Hrp; [|exact H]. destruct (selectEdge_terminal _ _ _ _ _ _ Es) as [-> | [-> | ->]].
    + change (patched (terminalTargetToStatus "$complete") "") with "completed". rpreserve.
    + change (patched (terminalTargetToStatus "$failed") "") with "failed". rpreserve.
    + change (patched (terminalTargetToStatus "$blocked") "") with "blocked". rpreserve.
  - destruct (_ && negb (canTakeLoopEdge _ _)); [eapply Hrp; [|exact H]; rpreserve|].
    eapply sp_bind in H; [exact H|rpreserve|]. clear H Hrp. intros stalled w1 H. destruct stalled; [by injection H as _ <-|].
    eapply sp_bind in H; [exact H|rpreserve|]. clear H. intros ts1 w2 H. eapply sp_bind in H; [exact H|rpreserve|]. clear H. intros ts2 w3 H.
    eapply sp_bind in H; [exact H|rpreserve|]. clear H. intros ts3 w4 H.
    match type of H with (?m ≫= ?f) w4 = _ => destruct (rbind_inv m f w4) as [(x & wb & Eb & E3)|(e' & wb & Eb & E3)] end; rewrite E3 in H.
    + injection H as <- _. done.
    + injection H as _ <-. eapply store_failed; [exact Hpos| |exact Eb]. intros now d c0 d' Hf. by apply rolled_back in Hf.
Qed.

(** A turn keeps what it relies on, however it ends. *)
Lemma turn_ready w : ready (wd_db w) -> ready (wd_db (snd (driveStep env fuel id w))).
Proof.
  intros Hrd. unfold driveStep. apply ready_bind; [apply ready_rp; [rpreserve..|done]|]. intros [wf|] w1 E1 Hrd1; [|done].
  destruct (negb (wf_status wf =s "running")); [done|]. destruct (loadSpec wf) as [sp|] eqn:El; [|apply ready_rp; [rpreserve..|done]].
  destruct (read_inv env store_run _ _ _ _ Hrun (reads_getWorkflow eq _) E1) as (d & _ & Ed & [(a & Hw & [= <-])|(e & _ & [=])]). subst d.
  destruct (turn_place wf sp (wd_db w1) Hrd1 Hw El) as [-> Hp1]. clear Hw.
  destruct (w_cancel_requested (wf_row wf)); [apply ready_rp; [rpreserve..|done]|].
  apply ready_bind; [apply ready_rp; [rpreserve..|done]|]. intros dl w2 E2 Hrd2. destruct dl; [apply ready_rp; [rpreserve..|done]|]. cbv zeta.
  set (c := patched (w_current_step_id (wf_row wf)) _) in *. set (n := w_current_round (wf_row wf)) in *.
  apply (rp_returned (same_position id)) in E2 as S2; [|rpreserve]. pose proof (place_same id spec c n _ _ S2 Hp1) as Hp2.
  apply ready_bind; [apply ready_rp; [rpreserve..|done]|]. intros os w3 E3 Hrd3.
  apply (rp_returned (same_position id)) in E3 as S3; [|rpreserve]. pose proof (place_same id spec c n _ _ S3 Hp2) as Hp3.
  apply ready_bind; [destruct os; [done|by apply start_ready]|]. intros step w4 E4 Hrd4.
  destruct (current_step c n os w2 w3 step w4 Hrd2 Hp2 E3 E4) as (R4 & _ & Hp4 & Ho & key & Hkey).
  destruct (s_status (st_row step) =s "completed") eqn:Ec.
  - apply String.eqb_eq in Ec. destruct (routeAndAdvance env id spec step w4) as [r w'] eqn:H. cbn [snd].
    assert (r = Ok false \/ r <> Ok false) as [->|Hne] by (destruct r as [[]|]; auto; right; discriminate).
    + eapply routing_turn; [exact Hrd4|exact Hp4|exact Ho| |exact H]. exists key, (st_row step). split; [done|]. split; [apply Ho|done].
    + eapply ready_same; [|by eapply route_stops|exact Hrd4]. eapply (rp_returned store_run); [|exact H]. rpreserve.
  - destruct (isTerminalStepStatus _); [done|]. apply ready_rp; [rpreserve..|done].
Qed.

(** ** The loop *)

(** The drive loop as it is written, [while (true)]: it ends after [n] turns with [out]. *)
Inductive drives : World E -> nat -> result rt_error unit * World E -> Prop :=
  | drives_stopped w : en_stopped env (wd_env w) = true -> drives w 0 (Ok tt, w)
  | drives_done w w1 : en_stopped env (wd_env w) = false -> driveStep env fuel id w = (Ok true, w1) -> drives w 1 (Ok tt, w1)
  | drives_error w e w1 : en_stopped env (wd_env w) = false -> driveStep env fuel id w = (Err e, w1) -> drives w 1 (Err e, w1)
  | drives_next w w1 n out :
      en_stopped env (wd_env w) = false -> driveStep env fuel id w = (Ok false, w1) -> drives w1 n out -> drives w (S n) out.

(** [driveWorkflow] with enough turns is the loop. *)
Lemma drives_run w n out : drives w n out -> forall k, driveWorkflow env (S n + k) fuel id w = out.
Proof.
  induction 1 as [w Hs|w w1 Hs Ht|w e w1 Hs Ht|w w1 n out Hs Ht _ IH]; intros k; cbn [driveWorkflow Nat.add]; unfold isStopped, read_env, mbind, R_bind; cbv beta iota;
    rewrite Hs; cbv iota; [done|by rewrite Ht..|]. rewrite Ht. apply IH.
Qed.

Lemma loop_ends w : ready (wd_db w) -> exists n out, (n <= S (left (wd_db w)))%nat /\ drives w n out.
Proof.
  remember (left (wd_db w)) as m eqn:Em. revert w Em. induction m as [m IH] using lt_wf_ind. intros w -> Hrd.
  destruct (en_stopped env (wd_env w)) eqn:Hs; [exists O; eexists; split; [lia|by constructor]|].
  destruct (driveStep env fuel id w) as [[[]|e] w1] eqn:Ht; [exists 1%nat; eexists; split; [lia|by eapply drives_done]| |exists 1%nat; eexists; split; [lia|by eapply drives_error]].
  destruct (turn_decreases w w1 Hrd Ht) as [Hrd1 Hlt]. destruct (IH _ Hlt w1 eq_refl Hrd1) as (n & out & Hn & Hd).
  exists (S n), out. split; [lia|]. by eapply drives_next.
Qed.

Lemma drive_ready (turns : nat) w : ready (wd_db w) -> ready (wd_db (snd (driveWorkflow env turns fuel id w))).
Proof.
  revert w. induction turns as [|k IH]; intros w Hrd; cbn [driveWorkflow]; [done|].
  apply ready_bind; [apply ready_rp; [rpreserve..|done]|]. intros st w1 _ Hrd1. destruct st; [done|].
  apply ready_bind; [by apply turn_ready|]. intros b w2 _ Hrd2. destruct b; [done|by apply IH].
Qed.
Lemma run_ready (turns : nat) w : ready (wd_db w) -> ready (wd_db (snd (runWorkflow env turns fuel id w))).
Proof. intros Hrd. apply ready_bind; [by apply drive_ready|]. intros u w1 _ Hrd1. apply ready_rp; [rpreserve..|done]. Qed.
End OneTurn.

(** The measure is bounded by the spec. *)
Lemma turns_bounded (id : string) (spec : value) (rmax : Z) (d : DB) :
  (turns_left id spec rmax d <= 2 * (List.length (step_ids spec) * Z.to_nat rmax) + 1)%nat.
Proof.
  unfold turns_left. pose proof (pending_le id spec d). assert (missing id spec rmax d <= List.length (step_ids spec) * Z.to_nat rmax)%nat; [|lia].
  unfold missing, grid. etransitivity; [apply List.filter_length_le|]. by rewrite length_prod, length_seqZ.
Qed.

(** ** Every reachable world is ready *)

(** A move of another workflow leaves this one alone. *)
Section Others.
Context (id other : string) (Hne : other <> id).

Lemma sp_createStep_other (now : string) (i : CreateStepExecutionInput) : cs_workflow_id i = other -> Preserves (same_position id) (createStepSync now i).
Proof.
  intros Hi s. unfold createStepSync, validateCreateStepExecution, theWorkflow. run.
  apply run_read; [apply _|done|]. intros _ _. run. apply run_last; [apply _|].
  split; [intros r Hr; by exists r|]. intros x n. unfold executed, stepRow. cbn.
  match goal with H : negb (is_some (stepRow _ _)) = true |- _ => apply not_is_some in H as Hfree end. unfold stepRow in Hfree. split.
  - intros (k & r & [[<- <-]|[_ Hr]]%lookup_insert_Some & Hs); [|eauto]. exfalso. unfold same_step_key in Hs. cbn in Hs. rewrite Hi in Hs.
    by rewrite (proj2 (String.eqb_neq other id) Hne) in Hs.
  - intros (k & r & Hr & Hs). exists k, r. rewrite lookup_insert_ne by congruence. done.
Qed.

Lemma sp_updateWorkflow_other (now : string) (rev : Z) (p : WorkflowPatch) : Preserves (same_position id) (updateWorkflowSync now other rev p).
Proof.
  intros s. unfold updateWorkflowSync, theWorkflow, update_workflow. run. apply run_last; [apply _|].
  split; [|done]. intros r Hr. unfold workflowRow in *. cbn. exists r. by rewrite lookup_alter_ne.
Qed.

Section Instances.
#[local] Hint Constants Opaque : typeclass_instances.
#[local] Hint Extern 3 (Preserves (same_position id) (createStepSync _ _)) => (apply sp_createStep_other; done) : typeclass_instances.
#[local] Hint Extern 3 (Preserves (same_position id) (updateWorkflowSync _ other _ _)) => (apply sp_updateWorkflow_other) : typeclass_instances.
Lemma sp_step_other : StepOps (same_position id) other.
Proof. split. intros. unfold ensureStepStarted. cbn [next_step_input cs_workflow_id]. preserve. Qed.
Lemma sp_advance_other : AdvanceOps (same_position id) other.
Proof. split. preserve. Qed.
End Instances.
End Others.

#[global] Instance sp_createWorkflowSync (id now : string) (i : CreateWorkflowInput) : Preserves (same_position id) (createWorkflowSync now i).
Proof.
  intros s. unfold createWorkflowSync, validateCreateWorkflow. run. apply run_last; [apply _|]. split; [|done].
  intros r Hr. exists r. unfold workflowRow in *. cbn. split; [|done].
  match goal with H : negb (is_some _) = true |- _ => apply not_is_some in H end. rewrite lookup_insert_ne by congruence. done.
Qed.

Section Start.
#[local] Hint Constants Opaque : typeclass_instances.
#[global] Instance sp_start_ops (id : string) : StartOps (same_position id).
Proof. split; preserve. Qed.
End Start.

Lemma createWorkflow_ok (now : string) (i : CreateWorkflowInput) (d d' : DB) (x : WorkflowRecord) :
  createWorkflowSync now i d = (Ok x, d') ->
  workflowRow (cw_workflow_id i) d = None
  /\ exists j v, d' = set_db_workflows (<[cw_workflow_id i := new_workflow_row now i j v]> (db_workflows d)) d.
Proof. intros H. unfold createWorkflowSync in H. inv_run H. read_only. split; [by apply not_is_some|by eexists _, _]. Qed.

(** A workflow that was just created is at its entry step, with no execution. *)
Lemma create_position (now : string) (i : CreateWorkflowInput) (c : value) (e1 e2 : WorkflowEventDraft) (d d' : DB) (wf : WorkflowRecord) :
  let id := cw_workflow_id i in
  steps_filed d -> cw_current_step_id i = None -> cw_current_round i = None ->
  createWorkflowWithLifecycleEvents now i c e1 e2 d = (Ok wf, d') ->
  exists r, workflowRow id d' = Some r /\ toWorkflow r d' = (Ok wf, d') /\ w_current_step_id r = None /\ w_current_round r = 1
    /\ forall s n, ~ executed id s n 1 d'.
Proof.
  intros id Hf Hs0 Hr0 H. unfold createWorkflowWithLifecycleEvents in H. rewrite Hs0, Hr0 in H. inv_run H.
  match goal with H : createWorkflowSync _ _ d = (Ok _, ?s1) |- _ => apply createWorkflow_ok in H as (Hnew & j & v & ->) end. cbn in Hnew.
  match goal with H : workflowRecord _ _ = _ |- _ => apply workflowRecord_ok in H as (r & Hr & Hto & ->) end.
  repeat match goal with
  | H : saveContextOpt _ _ _ _ _ = _ |- _ => apply (preserved (same_position id)) in H; [|preserve]
  | H : appendWorkflowEventAuto _ _ _ _ = _ |- _ => apply (preserved (same_position id)) in H; [|apply _]
  end.
  match goal with H1 : same_position id ?a ?b, H2 : same_position id ?b ?c', H3 : same_position id ?c' ?e |- _ =>
    assert (same_position id a e) as [Hrow Hex] by (do 2 (etransitivity; [eassumption|]); done) end.
  edestruct Hrow as (r' & Hr' & Hp); [unfold workflowRow; cbn; by rewrite lookup_insert_eq|].
  fold id in Hr. assert (r' = r) as -> by (apply (inj Some); by rewrite <- Hr, <- Hr'). exists r. split; [done|]. split; [done|]. injection Hp as _ Hst Hn. split; [done|]. split; [done|].
  intros x n Hx%Hex. destruct Hx as (k & q & Hq & Hk). destruct (Hf k q Hq) as [_ [y Hy]].
  unfold same_step_key in Hk. repeat (apply andb_prop in Hk as [Hk ?]). apply String.eqb_eq in Hk.
  unfold workflowRow in Hy. rewrite Hk in Hy. unfold id in Hy. congruence.
Qed.

Section Reachable.
Context {E : Type} (env : Env E) (id : string) {Hrun : Rely env store_run} {Hpos : Rely env (same_position id)}.
Implicit Types (w : World E).

#[local] Hint Constants Opaque : typeclass_instances.

(** The rounds a spec allows; a spec without a loop limit stays in round 1. *)
Definition rounds (spec : value) : Z := Z.max 1 (limit_of spec "max_rounds").

Lemma create_ready (spec inputs : value) (wf : WorkflowRecord) w w1 :
  store_ok (wd_db w) -> Runtime.createWorkflow env spec inputs w = (Ok (id, wf), w1) -> vr_valid (validateWorkflowSpec (wf_spec wf)) = true ->
  ready id (wf_spec wf) (rounds (wf_spec wf)) (wd_db w1).
Proof.
  intros Hok H Hv. pose proof (rp_returned store_run _ _ _ _ (rp_createWorkflow env store_run spec inputs) H) as Hr.
  split; [by eapply store_ok_run|]. unfold Runtime.createWorkflow in H.
  destruct (negb (vr_valid (validateWorkflowSpec spec))); [done|]. destruct (_ && _); [done|]. destruct (normalizeInputValues spec inputs) as [vs|]; [|done].
  peel H hex w2 E2. cbv zeta in H. peel H ts w3 E3. peel H x w4 E4. apply rret_ok in H as [[= Hid ->] <-].
  pose proof (rp_returned store_run _ _ _ _ (rp_from_env store_run _) E2) as R2. pose proof (rp_returned store_run _ _ _ _ (rp_from_env store_run _) E3) as R3.
  apply (store_returns env store_run) in E4 as (now & d & R4 & Hc); [|apply _].
  assert (store_ok d) as Hd by (eapply store_ok_run; [|exact Hok]; etransitivity; [exact R2|]; etransitivity; [exact R3|exact R4]).
  eapply create_position in Hc as (r & Hrow & Hto & Hs & Hn & Hx); [|apply Hd|done|done]. cbn in Hrow, Hx. rewrite Hid in *.
  exists r. split; [done|]. split; [by eapply toWorkflow_spec|]. unfold cur_of. rewrite Hs, Hn. cbn [patched default].
  split; [by apply entry_is_step|]. split; [unfold rounds; lia|]. intros s n Hex. by destruct (Hx s n).
Qed.

Context (spec : value) (Hvalid : vr_valid (validateWorkflowSpec spec) = true).
Abbreviation Ready w := (ready id spec (rounds spec) (wd_db w)).

Lemma step_ready w w' : runtime_step env w w' -> Ready w -> Ready w'.
Proof.
  assert (limit_of spec "max_rounds" <= rounds spec) as Hmax by (unfold rounds; lia).
  intros Hst Hrd. destruct Hst as [| |turns fuel other w| | | | | | |]; try done;
    try (match goal with |- context [snd (?m w)] => apply (ready_rp id spec (rounds spec) m w); [apply _|apply _|done] end).
  destruct (decide (other = id)) as [->|Hne]; [by apply run_ready|].
  pose proof (sp_step_other id other Hne). pose proof (sp_advance_other id other Hne). apply ready_rp; [apply _|apply _|done].
Qed.
Lemma reach_ready w w' : rtc (runtime_step env) w w' -> Ready w -> Ready w'.
Proof. induction 1 as [|? ? ? Hs _ IH]; [done|]. intros Hrd. by apply IH, (step_ready _ _ Hs). Qed.
End Reachable.

(** Without a valid spec a turn ends the loop. *)
Lemma invalid_turn {E : Type} (env : Env E) (id : string) (fuel : nat) (spec : value) (r : WorkflowRow) (w : World E) :
  Rely env store_run -> workflowRow id (wd_db w) = Some r -> decodeJson (Some (w_spec_json r)) SIZE_LIMITS.spec_json false = Ok spec ->
  vr_valid (validateWorkflowSpec spec) = false -> exists n out, (n <= 1)%nat /\ drives env id fuel w n out.
Proof.
  intros Hr Hrow Hj Hv. destruct (en_stopped env (wd_env w)) eqn:Hs; [exists O; eexists; split; [lia|by constructor]|].
  destruct (driveStep env fuel id w) as [[[]|e] w1] eqn:Ht;
    [exists 1%nat; eexists; split; [lia|by eapply drives_done]| |exists 1%nat; eexists; split; [lia|by eapply drives_error]].
  exfalso. unfold driveStep in Ht. peel Ht o w2 E2. destruct o as [wf|]; [|done]. destruct (negb _); [done|].
  destruct (read_inv env store_run _ _ _ _ Hr (reads_getWorkflow eq _) E2) as (d & Hd & _ & [(a & Ha & [= <-])|(e & _ & [=])]).
  apply getWorkflow_row in Ha as [Hrow' Hto]. apply toWorkflow_spec in Hto.
  destruct (ev_workflows _ _ (store_run_evolves _ _ Hd) id r Hrow) as (r' & Hr' & Hev). destruct (we_identity _ _ Hev) as (_ & _ & _ & Ej & _).
  assert (wf_spec wf = spec) as Hw by (unfold workflowRow in *; congruence).
  unfold loadSpec in Ht. rewrite Hw, Hv in Ht. by peel Ht u w3 E3.
Qed.

(** What a created workflow is read as. *)
Lemma created_row {E : Type} (env : Env E) (id : string) (spec inputs : value) (wf : WorkflowRecord) (w w1 : World E) :
  Rely env store_run -> Runtime.createWorkflow env spec inputs w = (Ok (id, wf), w1) ->
  exists r, workflowRow id (wd_db w1) = Some r /\ decodeJson (Some (w_spec_json r)) SIZE_LIMITS.spec_json false = Ok (wf_spec wf).
Proof.
  intros Hr H. unfold Runtime.createWorkflow in H. destruct (negb (vr_valid (validateWorkflowSpec spec))); [done|]. destruct (_ && _); [done|].
  destruct (normalizeInputValues spec inputs) as [vs|]; [|done].
  peel H hex w2 E2. cbv zeta in H. peel H ts w3 E3. peel H x w4 E4. apply rret_ok in H as [[= <- ->] <-].
  apply (store_returns env store_run) in E4 as (now & d & _ & Hc); [|done]. unfold createWorkflowWithLifecycleEvents in Hc. inv_run Hc.
  match goal with H : workflowRecord _ _ = _ |- _ => apply workflowRecord_ok in H as (r & Hrow & Hto & ->) end.
  exists r. split; [done|by eapply toWorkflow_spec].
Qed.

(** C22. The pump terminates.  In every world reachable from the creation of a workflow by
    calls of the runtime, runs of any pumps, timers and restarts, with any clients and
    clock and with other users of the store who neither move this workflow nor add step
    executions to it, the drive loop of the workflow ends, after at most
    [2 * steps * max_rounds + 2] turns; and [driveWorkflow] given that many turns is the
    loop.  The bound is on turns: within a turn the waits for a task or a lease poll for
    as long as the task runs, which [fuel] stands for, whatever its value. *)
Theorem pump_terminates {E : Type} (env : Env E) (id : string) (fuel : nat) (spec inputs : value) (wf : WorkflowRecord) (w0 w1 w : World E) :
  Rely env store_run -> Rely env (same_position id) -> store_run empty_db (wd_db w0) ->
  Runtime.createWorkflow env spec inputs w0 = (Ok (id, wf), w1) -> rtc (runtime_step env) w1 w ->
  exists n out, (n <= 2 * (List.length (step_ids (wf_spec wf)) * Z.to_nat (rounds (wf_spec wf))) + 2)%nat
    /\ drives env id fuel w n out /\ forall k, driveWorkflow env (S n + k) fuel id w = out.
Proof.
  intros Hr Hp H0 Hc Hw. set (bound := (2 * _ + 2)%nat). assert (exists n out, (n <= bound)%nat /\ drives env id fuel w n out) as (n & out & Hn & Hd).
  2: { exists n, out. split; [done|]. split; [done|]. by apply drives_run. }
  destruct (vr_valid (validateWorkflowSpec (wf_spec wf))) eqn:Hv.
  - assert (ready id (wf_spec wf) (rounds (wf_spec wf)) (wd_db w)) as Hrd.
    { eapply (reach_ready env id); [done|exact Hw|]. eapply (create_ready env id); [|exact Hc|done]. eapply store_ok_run; [exact H0|apply store_ok_empty]. }
    destruct (loop_ends env id (wf_spec wf) (rounds (wf_spec wf)) fuel Hv ltac:(unfold rounds; lia) w Hrd) as (n & out & Hn & Hd).
    exists n, out. split; [|done]. pose proof (turns_bounded id (wf_spec wf) (rounds (wf_spec wf)) (wd_db w)). subst bound. lia.
  - destruct (created_row env id spec inputs wf w0 w1 Hr Hc) as (r & Hrow & Hj).
    destruct (ev_workflows _ _ (store_run_evolves _ _ (runtime_run env w1 w Hr Hw)) id r Hrow) as (r' & Hr' & Hev).
    destruct (we_identity _ _ Hev) as (_ & _ & _ & Ej & _). rewrite <- Ej in Hj.
    destruct (invalid_turn env id fuel _ r' w Hr Hr' Hj Hv) as (n & out & Hn & Hd). exists n, out. split; [subst bound; lia|done].
Qed.

#[global] Instance demo_rely_position (id : string) : Rely demo_env (same_position id).
Proof. apply demo_rely; [apply _|preserve..]. Qed.

(** The demonstration's looping workflow right after its creation. *)
Definition looping_start : World demo_state := demo_start [decision "continue"; handoff; decision "continue"; handoff; decision "complete"].
Definition creation : result rt_error (string * WorkflowRecord) * World demo_state :=
  Runtime.createWorkflow demo_env plannerExecutorLoopExample (VObj [("objective", VStr "o")]) looping_start.
Definition looping_created : World demo_state := snd creation.
Definition created_record : WorkflowRecord :=
  Eval vm_compute in match fst creation with Ok x => snd x | Err _ => looping_record end.

Lemma pump_terminates_witness :
  exists n out, (n <= 2 * (List.length (step_ids (wf_spec created_record)) * Z.to_nat (rounds (wf_spec created_record))) + 2)%nat
    /\ drives demo_env demo_id 10 looping n out /\ forall k, driveWorkflow demo_env (S n + k) 10 demo_id looping = out.
Proof.
  eapply (pump_terminates demo_env demo_id 10 plannerExecutorLoopExample (VObj [("objective", VStr "o")]) created_record
    looping_start looping_created looping).
  - apply demo_rely_run.
  - apply demo_rely_position.
  - reflexivity.
  - vm_compute. reflexivity.
  - apply rtc_once. apply (rt_start demo_env demo_id).
Defined.
