(* ===== verification/TaskContract.v ===== *)
(** * The Agent Task contract (src/types.ts, src/lib/agent-task-contract.ts,
      src/lib/run-error.ts, src/lib/request-fingerprint.ts)

    The external schema of the Gateway and the total mappings into it: run records, run
    events and errors become tasks, task events and API errors; creation requests are
    validated.  Messages of errors and the [ts] of API errors are left out. *)

From S2P Require Import Prelude Values Json Contract Templates Verification Outputs.

(** ** Runs *)

Inductive RunStatus : Type := run_queued | run_running | run_completed | run_failed | run_stopped | run_cancelled | run_blocked.

(** Optional fields that are absent are [None], or [VUndef] for JSON values. *)
Record RunRecord : Type := {
  rec_run_id : string; rec_session_id : string; rec_node_id : string; rec_node_selector : option string; rec_agent : string;
  rec_status : RunStatus; rec_workspace_path : string; rec_session_url : option string; rec_repo_url : option string;
  rec_branch : option string; rec_prompt_file : option string; rec_permission_mode : option string; rec_metadata : value;
  rec_child_pid : option Z; rec_started_agent : option string; rec_final_agent : option string; rec_switched : option bool;
  rec_switch_reason : option string; rec_handoff_path : option string; rec_failure_reason : option string; rec_recoverable : option bool;
  rec_exit_code : option Z; rec_error : option string; rec_result_status : option string; rec_task_result : value;
  rec_workspace_lease_id : option string; rec_workspace_key : option string; rec_workspace_write : option bool; rec_verify : value;
  rec_event_aes_key : option string; rec_stop_aes_key : option string; rec_approval_aes_key : option string;
  rec_created_at : string; rec_updated_at : string }.

Inductive RunEventBody : Type :=
  | StatusEvent (status : RunStatus)
  | LogEvent (stream message : string)
  | ApprovalRequiredEvent (approval_id message : string)
  | ApprovalResponseEvent (approval_id decision : string) (message : option string)
  | ToolCallEvent (tool : string) (input : value)
  | PrCreatedEvent (url : string)
  | ErrorEvent (message : string) (code : option string).
Record RunEvent : Type := { re_run_id : string; re_ts : string; re_body : RunEventBody }.

Definition TERMINAL_STATUSES (s : RunStatus) : bool := match s with run_completed | run_failed | run_stopped | run_cancelled => true | _ => false end.
Definition isTerminal (event : RunEvent) : bool := match re_body event with StatusEvent s => TERMINAL_STATUSES s | _ => false end.

(** ** Task statuses *)

Inductive TaskStatus : Type := ts_queued | ts_starting | ts_running | ts_completed | ts_failed | ts_cancelled.
#[global] Instance TaskStatus_eq : EqDecision TaskStatus.
Proof. solve_decision. Defined.

Definition TASK_STATUSES : list TaskStatus := [ts_queued; ts_starting; ts_running; ts_completed; ts_failed; ts_cancelled].
Definition TERMINAL_TASK_STATUSES : list TaskStatus := [ts_completed; ts_failed; ts_cancelled].
Definition isTerminalTaskStatus (s : TaskStatus) : bool := bool_decide (s ∈ TERMINAL_TASK_STATUSES).

Definition TASK_TRANSITIONS (s : TaskStatus) : list TaskStatus :=
  match s with
  | ts_queued => [ts_starting; ts_running; ts_cancelled; ts_failed]
  | ts_starting => [ts_running; ts_completed; ts_failed; ts_cancelled]
  | ts_running => [ts_completed; ts_failed; ts_cancelled]
  | ts_completed | ts_failed | ts_cancelled => []
  end.
Definition isLegalTaskTransition (a b : TaskStatus) : bool := bool_decide (b ∈ TASK_TRANSITIONS a).

Definition runStatusToTaskStatus (s : RunStatus) : TaskStatus :=
  match s with
  | run_queued => ts_queued
  | run_running => ts_running
  | run_completed => ts_completed
  | run_failed => ts_failed
  | run_stopped => ts_cancelled
  | run_cancelled => ts_cancelled
  | run_blocked => ts_running
  end.

(** The string of a status in a durable row. *)
Definition task_status (s : TaskStatus) : string :=
  match s with
  | ts_queued => "queued" | ts_starting => "starting" | ts_running => "running"
  | ts_completed => "completed" | ts_failed => "failed" | ts_cancelled => "cancelled"
  end.

(** ** The Task resource *)

Definition TASK_CONTRACT_VERSION : Z := 1.
Definition taskIdForRun (runId : string) : string := runId.
Definition runIdForTask (taskId : string) : string := taskId.
Definition isValidTaskId (v : value) : bool := match v with VStr s => negb (s =s "") | _ => false end.

Record TaskResult : Type := { tr_final_agent : option string; tr_switched : option bool; tr_exit_code : option Z }.
(** [te_message]: [None] stands for the default text. *)
Record TaskError : Type := { te_message : option string; te_reason : option string; te_recoverable : option bool; te_exit_code : option Z }.
Record Task : Type := {
  ta_task_id : string; ta_agent : string; ta_node_id : string; ta_status : string; ta_created_at : string; ta_updated_at : string;
  ta_result : option TaskResult; ta_error : option TaskError; ta_metadata : value }.

(** The string itself when it is truthy. *)
Definition truthy_string (o : option string) : option string := match o with Some s => if s =s "" then None else Some s | None => None end.
Definition truthy_bool (o : option bool) : option bool := match o with Some true => Some true | _ => None end.
Definition truthy_value (v : value) : value := if truthy v then v else VUndef.

Definition runRecordToTask (record : RunRecord) : Task :=
  let status := runStatusToTaskStatus (rec_status record) in
  {| ta_task_id := taskIdForRun (rec_run_id record);
     ta_agent := default (rec_agent record) (rec_final_agent record);
     ta_node_id := rec_node_id record; ta_status := task_status status;
     ta_created_at := rec_created_at record; ta_updated_at := rec_updated_at record;
     ta_result := if bool_decide (status = ts_completed)
                  then Some {| tr_final_agent := truthy_string (rec_final_agent record); tr_switched := truthy_bool (rec_switched record);
                               tr_exit_code := rec_exit_code record |}
                  else None;
     ta_error := if bool_decide (status = ts_failed)
                 then Some {| te_message := rec_error record; te_reason := truthy_string (rec_failure_reason record);
                              te_recoverable := rec_recoverable record; te_exit_code := rec_exit_code record |}
                 else None;
     ta_metadata := truthy_value (rec_metadata record) |}.

(** ** Errors *)

Inductive ApiErrorCode : Type :=
  | api_invalid_request | api_unauthorized | api_agent_unavailable | api_node_offline | api_service_unavailable | api_task_not_found
  | api_invalid_state_transition | api_cancellation_conflict | api_idempotency_conflict | api_workspace_lease_unsupported
  | api_cwd_not_allowed | api_internal_error.
Record ApiError : Type := { ae_code : ApiErrorCode; ae_retryable : bool; ae_task_id : option string; ae_details : value }.

Definition RETRYABLE (c : ApiErrorCode) : bool :=
  match c with api_node_offline | api_service_unavailable | api_internal_error => true | _ => false end.

Record ApiErrorOpts : Type := { ao_retryable : option bool; ao_task_id : option string; ao_details : value }.
Definition no_opts : ApiErrorOpts := {| ao_retryable := None; ao_task_id := None; ao_details := VUndef |}.
Definition for_task (id : string) : ApiErrorOpts := {| ao_retryable := None; ao_task_id := Some id; ao_details := VUndef |}.

Definition apiError (code : ApiErrorCode) (opts : ApiErrorOpts) : ApiError :=
  {| ae_code := code; ae_retryable := default (RETRYABLE code) (ao_retryable opts); ae_task_id := truthy_string (ao_task_id opts);
     ae_details := truthy_value (ao_details opts) |}.

Definition apiErrorHttpStatus (c : ApiErrorCode) : Z :=
  match c with
  | api_invalid_request => 400 | api_unauthorized => 401 | api_task_not_found => 404 | api_cancellation_conflict => 409
  | api_invalid_state_transition => 409 | api_idempotency_conflict => 409 | api_agent_unavailable => 422
  | api_workspace_lease_unsupported => 422 | api_cwd_not_allowed => 400 | api_node_offline => 503 | api_service_unavailable => 503
  | api_internal_error => 500
  end.

Inductive VibeErrorCode : Type := user_error | vibe_not_found | backend_error | read_only | node_not_found | vibe_agent_not_supported | no_runner_available.
Record VibeError : Type := { ve_code : VibeErrorCode; ve_run_id : option string }.
Definition VIBE_ERROR_MAP (c : VibeErrorCode) : ApiErrorCode :=
  match c with
  | user_error => api_invalid_request | vibe_not_found => api_task_not_found | backend_error => api_internal_error
  | read_only => api_invalid_request | node_not_found => api_node_offline | vibe_agent_not_supported => api_agent_unavailable
  | no_runner_available => api_agent_unavailable
  end.
Definition vibeErrorToApiError (e : VibeError) : ApiError :=
  apiError (VIBE_ERROR_MAP (ve_code e)) {| ao_retryable := None; ao_task_id := taskIdForRun <$> truthy_string (ve_run_id e); ao_details := VUndef |}.

Inductive RunErrorCode : Type :=
  | relay_unavailable | run_node_offline | run_unauthorized | run_not_found | run_agent_not_supported | already_terminal | remote_error | unknown_error.
Definition run_error_code (c : RunErrorCode) : string :=
  match c with
  | relay_unavailable => "relay_unavailable" | run_node_offline => "node_offline" | run_unauthorized => "unauthorized"
  | run_not_found => "run_not_found" | run_agent_not_supported => "agent_not_supported" | already_terminal => "already_terminal"
  | remote_error => "remote_error" | unknown_error => "unknown_error"
  end.
Definition RUN_ERROR_MAP (c : RunErrorCode) : ApiErrorCode :=
  match c with
  | relay_unavailable => api_service_unavailable | run_node_offline => api_node_offline | run_unauthorized => api_unauthorized
  | run_not_found => api_task_not_found | run_agent_not_supported => api_agent_unavailable | already_terminal => api_cancellation_conflict
  | remote_error => api_internal_error | unknown_error => api_internal_error
  end.
Definition runErrorToApiError (c : RunErrorCode) (opts : ApiErrorOpts) : ApiError := apiError (RUN_ERROR_MAP c) opts.

(** *** Classification of the message of a remote failure *)

Definition word_char (c : ascii) : bool := is_alpha c || is_digit c || is_one_of "_" c.
Definition to_lower (c : ascii) : ascii := if is_upper c then ascii_of_N (N_of_ascii c + 32) else c.
Definition lower (s : string) : string := string_of_list_ascii (map to_lower (list_ascii_of_string s)).

(** [/^([a-z][a-z0-9_]+):/]: the class excludes the colon, so the match is unique. *)
Definition leadingCode (message : string) : option string :=
  match split_at_char ":" message with
  | Some (String c r, _) => if is_lower c && negb (r =s "") && all_chars (fun x => is_lower x || is_digit x || is_one_of "_" x) r then Some (String c r) else None
  | _ => None
  end.

Definition CODE_MAP (head : string) : option RunErrorCode :=
  if head =s "run_not_found" then Some run_not_found
  else if head =s "already_terminal" then Some already_terminal
  else if head =s "node_offline" then Some run_node_offline
  else if head =s "node_not_found" then Some run_node_offline
  else if head =s "agent_not_supported" then Some run_agent_not_supported
  else None.

(** [/\bp/], and with [after] also [/p\b/], for a pattern that starts (and ends) with word
    characters; [prev]: is the preceding character a word character? *)
Fixpoint at_boundary (p : string) (after prev : bool) (s : string) : bool :=
  (negb prev && match strip_prefix p s with
                | Some EmptyString => true
                | Some (String c _) => negb (after && word_char c)
                | None => false
                end)
  || match s with EmptyString => false | String c r => at_boundary p after (word_char c) r end.

Definition auth_signal (m : string) : bool :=
  at_boundary "401" true false m || at_boundary "403" true false m
  || existsb (fun p => contains p (lower m))
       ["unauthor"; "forbidden"; "invalid token"; "bad token"; "requirepairing"; "require-pairing"; "require_pairing"; "require pairing"; "not paired"].
Definition transport_signal (m : string) : bool :=
  existsb (fun p => contains p (lower m))
    ["econnrefused"; "enotfound"; "eai_again"; "etimedout"; "econnreset"; "ehostunreach"; "enetunreach"; "epipe"; "socket hang up";
     "getaddrinfo"; "connection closed"; "closed before"; "timeout waiting"]
  || at_boundary "connect " false false (lower m).

Definition classifyRunError (message : string) : RunErrorCode :=
  let head := leadingCode message in
  match (h ← head; CODE_MAP h) with
  | Some c => c
  | None =>
      if auth_signal message then run_unauthorized
      else if transport_signal message then relay_unavailable
      else match head with Some _ => remote_error | None => unknown_error end
  end.

Record RunErrorEnvelope : Type := { ee_code : RunErrorCode; ee_message : string; ee_run_id : option string }.
Definition buildRunErrorEnvelope (message : string) (run_id : option string) : RunErrorEnvelope :=
  {| ee_code := classifyRunError message; ee_message := message; ee_run_id := truthy_string run_id |}.
Definition runErrorExitCode (c : RunErrorCode) : Z := match c with run_not_found => 3 | _ => 1 end.

(** ** Creation requests *)

(** The sub-objects [input], [workspace], [execution] and [verify] are flattened. *)
Record CreateTaskRequest : Type := {
  cr_agent : string; cr_node_id : option string; cr_input_text : string; cr_workspace_key : option string; cr_workspace_path : option string;
  cr_permission_mode : option string; cr_workspace_write : option bool; cr_metadata : value; cr_idempotency_key : option string;
  cr_workspace_lease_id : option string; cr_verify : option string }.

Definition IDEMPOTENCY_KEY_RE (s : string) : bool :=
  re_ident (fun c => is_alpha c || is_digit c) (fun c => is_alpha c || is_digit c || is_one_of "._:-" c) 127 s.
Definition DEFERRED_WORKSPACE_FIELDS : list string := ["repo_url"; "branch"].
Definition DEFERRED_EXECUTION_FIELDS : list string := ["timeout_seconds"].
Definition CWD_PATH_MAX : Z := 1024.
Definition CWD_CONTROL_RE (s : string) : bool := existsb (fun c => ((N_of_ascii c <? 32) || (N_of_ascii c =? 127))%N) (list_ascii_of_string s).
Definition isPlainObject (v : value) : bool := isObj v.

Definition str_field (v : value) : option string := match v with VStr s => Some s | _ => None end.
Definition opt_test (p : value -> bool) (v : value) : bool := is_undef v || p v.
Definition mode_ok (v : value) : bool := is_str_lit v "default" || is_str_lit v "unsafe-skip".
Definition safe_key (v : value) : bool := str_ok IDEMPOTENCY_KEY_RE v.

(** The first test that fails, by the field it is about. *)
Fixpoint first_failure (tests : list (bool * string)) : option string :=
  match tests with [] => None | (ok, field) :: rest => if ok : bool then first_failure rest else Some field end.

Definition execution_tests (exec : value) : list (bool * string) :=
  if is_undef exec then [] else
  (isPlainObject exec, "execution")
  :: map (fun f => (is_undef (get f exec), "execution." +:+ f)) DEFERRED_EXECUTION_FIELDS
  ++ [(opt_test mode_ok (get "permission_mode" exec), "execution.permission_mode");
      (opt_test isBool (get "workspace_write" exec), "execution.workspace_write")].

Definition path_tests (b exec workspace : value) : list (bool * string) :=
  let path := get "path" workspace in
  if is_undef path then [] else
  [ (str_ok (fun p => negb (p =s "") && (js_length p <=? CWD_PATH_MAX) && negb (CWD_CONTROL_RE p)) path, "workspace.path");
    (str_ok (starts_with "/") path, "workspace.path");
    (is_undef (get "workspace_key" workspace), "workspace.path");
    (negb (strict_eq (get "workspace_write" exec) (VBool true)), "workspace.path");
    (is_undef (get "workspace_lease_id" b), "workspace.path") ].

Definition workspace_tests (b exec workspace : value) : list (bool * string) :=
  if is_undef workspace then [] else
  (isPlainObject workspace, "workspace")
  :: map (fun f => (is_undef (get f workspace), "workspace." +:+ f)) DEFERRED_WORKSPACE_FIELDS
  ++ (opt_test (str_ok WORKSPACE_KEY_RE) (get "workspace_key" workspace), "workspace.workspace_key")
  :: path_tests b exec workspace.

Definition nonblank (v : value) : bool := str_ok (fun s => negb (trim s =s "")) v.

Definition request_tests (b : value) : list (bool * string) :=
  [ (isPlainObject b, "body"); (nonblank (get "agent" b), "agent"); (opt_test isStr (get "node_id" b), "node_id");
    (isPlainObject (get "input" b), "input"); (nonblank (get "text" (get "input" b)), "input.text") ]
  ++ execution_tests (get "execution" b)
  ++ workspace_tests b (get "execution" b) (get "workspace" b)
  ++ [ (opt_test isPlainObject (get "metadata" b), "metadata"); (opt_test safe_key (get "idempotency_key" b), "idempotency_key");
       (opt_test safe_key (get "workspace_lease_id" b), "workspace_lease_id");
       (opt_test (fun v => is_ok (validateTaskVerifyConfig v)) (get "verify" b), "verify") ].

(** The parsed request, or the field the [invalid_request] error is about. *)
Definition validateCreateTaskRequest (b : value) : result string CreateTaskRequest :=
  match first_failure (request_tests b) with
  | Some field => Err field
  | None =>
      let exec := get "execution" b in let workspace := get "workspace" b in
      Ok {| cr_agent := str_of (get "agent" b); cr_node_id := str_field (get "node_id" b); cr_input_text := str_of (get "text" (get "input" b));
            cr_workspace_key := str_field (get "workspace_key" workspace); cr_workspace_path := str_field (get "path" workspace);
            cr_permission_mode := str_field (get "permission_mode" exec);
            cr_workspace_write := match get "workspace_write" exec with VBool w => Some w | _ => None end;
            cr_metadata := (if isPlainObject (get "metadata" b) then get "metadata" b else VUndef);
            cr_idempotency_key := str_field (get "idempotency_key" b); cr_workspace_lease_id := str_field (get "workspace_lease_id" b);
            cr_verify := match validateTaskVerifyConfig (get "verify" b) with Ok p => Some p | Err _ => None end |}
  end.

(** ** Task events *)

Inductive TaskEventType : Type :=
  | task_created | task_started | agent_output_delta | agent_output_completed | task_completed | task_failed | task_cancelled.
#[global] Instance TaskEventType_eq : EqDecision TaskEventType.
Proof. solve_decision. Defined.
Definition task_event_type (t : TaskEventType) : string :=
  match t with
  | task_created => "task.created" | task_started => "task.started" | agent_output_delta => "agent.output.delta"
  | agent_output_completed => "agent.output.completed" | task_completed => "task.completed" | task_failed => "task.failed"
  | task_cancelled => "task.cancelled"
  end.
Record TaskEvent : Type := { ev_seq : Z; ev_task_id : string; ev_type : string; ev_ts : string; ev_payload : value }.

Definition runEventToTaskEvent (event : RunEvent) (seq : Z) : option TaskEvent :=
  let base type payload := Some {| ev_seq := seq; ev_task_id := taskIdForRun (re_run_id event); ev_type := task_event_type type;
                                   ev_ts := re_ts event; ev_payload := payload |} in
  match re_body event with
  | StatusEvent status =>
      match status with
      | run_running => base task_started (VObj [])
      | run_completed => base task_completed (VObj [])
      | run_failed => base task_failed (VObj [])
      | run_stopped | run_cancelled => base task_cancelled (VObj [])
      | run_queued | run_blocked => None
      end
  | LogEvent stream message => base agent_output_delta (VObj [("stream", VStr stream); ("text", VStr message)])
  | _ => None
  end.

(** ** Agents *)

Definition STREAMING_AGENTS : list string := ["mock"; "claude-code"; "codex"; "opencode"].
Record AgentDescriptor : Type := { ad_id : string; ad_node_id : option string; ad_available : bool; ad_streaming : bool }.
Definition buildAgentDescriptors (agentIds : list string) (node_id : option string) : list AgentDescriptor :=
  map (fun id => {| ad_id := id; ad_node_id := truthy_string node_id; ad_available := true; ad_streaming := id ∈b STREAMING_AGENTS |}) agentIds.

(** ** The fingerprint of a request *)

(** [Object.keys(v).sort()], with the values. *)
Fixpoint insert_key {A : Type} (kv : string * A) (o : list (string * A)) : list (string * A) :=
  match o with [] => [kv] | x :: r => if js_leb (fst kv) (fst x) then kv :: o else x :: insert_key kv r end.
Definition sort_keys {A : Type} (o : list (string * A)) : list (string * A) := fold_right insert_key [] o.

(** [out['__proto__'] = x] sets the prototype of the copy: such a key is lost. *)
Definition assign_key (out : list (string * value)) (kv : string * value) : list (string * value) :=
  if fst kv =s "__proto__" then out else obj_set (fst kv) (snd kv) out.
Fixpoint canonicalize (v : value) : value :=
  match v with
  | VArr l => VArr (map canonicalize l)
  | VObj o => VObj (fold_left assign_key (sort_keys (map (fun kv => (fst kv, canonicalize (snd kv))) o)) [])
  | _ => v
  end.

Definition or_null (o : option string) : value := match o with Some s => VStr s | None => VNull end.
Definition semantic_request (req : CreateTaskRequest) : value :=
  VObj [ ("agent", VStr (cr_agent req)); ("node_id", or_null (cr_node_id req)); ("input_text", VStr (cr_input_text req));
         ("workspace_key", or_null (cr_workspace_key req)); ("workspace_path", or_null (cr_workspace_path req));
         ("permission_mode", or_null (cr_permission_mode req));
         ("workspace_write", match cr_workspace_write req with Some b => VBool b | None => VNull end);
         ("workspace_lease_id", or_null (cr_workspace_lease_id req)); ("metadata", if is_nullish (cr_metadata req) then VNull else cr_metadata req) ].
Definition computeRequestFingerprint (sha256_hex : string -> string) (req : CreateTaskRequest) : string :=
  sha256_hex (default "undefined" (JSON_stringify (canonicalize (semantic_request req)))).
