(* ===== verification/Journal.v ===== *)
(** * The Node run-event journal and lease authority
      (src/node-journal/contract.ts, serialization.ts, sqlite-journal.ts, retention.ts)

    The journal is a SQLite file of runs, their events and results, workspace leases and
    revision observations, with in-memory subscriptions.  Operations run in [ST] over
    [Journal]; every method of the source is synchronous.  A consumer is modelled by the
    list of events its [onEvent] was called with.  One operation sees one instant [now]. *)

From S2P Require Import Prelude Machine Values Json Contract Verification Outputs.

(** ** Contract *)

Definition RUN_EVENT_REPLAY_CAPABILITY : string := "run_event_replay_v1".
Definition WORKSPACE_LEASE_CAPABILITY : string := "workspace_lease_v1".
Definition JOURNAL_SCHEMA_VERSION : Z := 1.
Definition NODE_RUN_EVENT_TYPES : list string := ["status"; "log"; "approval_required"; "approval_response"; "tool_call"; "pr_created"; "error"].

Module JOURNAL_LIMITS.
Definition event_payload_bytes : Z := 256 * 1024.
Definition events_per_run : Z := 200000.
End JOURNAL_LIMITS.

Inductive JournalErrorCode : Type :=
  | not_found | duplicate | event_conflict | event_gap | invalid_record | corruption | invalid_transition | too_large
  | events_per_run_exceeded | unsupported_schema | result_conflict | lease_conflict | closed | subscriber_overflow.

Inductive WorkspaceLeaseErrorCode : Type :=
  | workspace_lease_conflict | workspace_lease_unavailable | workspace_lease_invalid | workspace_lease_released
  | workspace_lease_required | workspace_lease_in_use | workspace_lease_unsupported | workspace_node_ambiguous
  | workspace_revision_conflict | workspace_revision_unavailable | workspace_release_pending.

(** What a method throws: a [JournalError], a [WorkspaceLeaseError] or a SQLite constraint error. *)
Inductive journal_error : Type :=
  | JournalError (code : JournalErrorCode)
  | WorkspaceLeaseError (code : WorkspaceLeaseErrorCode)
  | ConstraintError.

Record NodeRunEvent : Type := {
  ne_remote_run_id : string; ne_sequence : Z; ne_type : string; ne_timestamp : string; ne_payload : value }.

(** [ni_terminal] and [ni_status] are optional in the source. *)
Record NodeRunEventInput : Type := {
  ni_type : string; ni_timestamp : string; ni_payload : value; ni_terminal : bool; ni_status : option string }.

Record ReplayMetadata : Type := {
  rm_earliest_retained_sequence : Z; rm_latest_sequence : Z; rm_history_complete_for_request : bool;
  rm_status : string; rm_terminal : bool; rm_replay_capability : string }.

(** ** Tables *)

Record RunRow : Type := {
  rn_remote_run_id : string; rn_created_at : string; rn_updated_at : string; rn_status : string; rn_terminal_at : option string;
  rn_last_sequence : Z; rn_earliest_retained_sequence : Z; rn_terminal_event_recorded : bool; rn_workspace_lease_id : option string }.

Record EventRow : Type := {
  er_remote_run_id : string; er_sequence : Z; er_type : string; er_ts : string; er_payload_json : string; er_created_at : string }.

Record ResultRow : Type := {
  rr_remote_run_id : string; rr_schema_version : string; rr_result_status : string; rr_final_output_text : option string;
  rr_process_exit_code : option Z; rr_finalized_at : option string; rr_content_hash : option string;
  rr_evidence_refs_json : string; rr_artifact_refs_json : string; rr_verification_json : option string; rr_created_at : string }.

Record LeaseRow : Type := {
  lr_workspace_lease_id : string; lr_workflow_id : string; lr_node_id : string; lr_workspace_key : string; lr_mode : string;
  lr_status : string; lr_acquired_at : option string; lr_release_requested_at : option string; lr_released_at : option string;
  lr_base_revision_json : option string; lr_current_revision_json : option string; lr_created_at : string; lr_updated_at : string }.

Record RevisionRow : Type := {
  ro_observation_id : string; ro_workspace_lease_id : string; ro_step_execution_id : option string; ro_phase : string;
  ro_revision_json : string; ro_created_at : string }.

(** A subscription; [sub_registered]: it is in the set of its run; [sub_delivered]: the
    events its consumer was called with. *)
Record Sub : Type := {
  sub_runId : string; sub_cutoff : Z; sub_maxQueue : Z; sub_queue : list NodeRunEvent; sub_draining : bool;
  sub_overflowed : bool; sub_closed : bool; sub_registered : bool; sub_delivered : list NodeRunEvent }.

Record Journal : Type := mkJournal {
  j_closed : bool;
  j_runs : gmap string RunRow;
  j_events : list EventRow;
  j_results : gmap string ResultRow;
  j_leases : gmap string LeaseRow;
  j_revisions : gmap string RevisionRow;
  j_subs : gmap nat Sub }.

Definition set_runs (m : gmap string RunRow) (j : Journal) : Journal :=
  mkJournal (j_closed j) m (j_events j) (j_results j) (j_leases j) (j_revisions j) (j_subs j).
Definition set_events (l : list EventRow) (j : Journal) : Journal :=
  mkJournal (j_closed j) (j_runs j) l (j_results j) (j_leases j) (j_revisions j) (j_subs j).
Definition set_results (m : gmap string ResultRow) (j : Journal) : Journal :=
  mkJournal (j_closed j) (j_runs j) (j_events j) m (j_leases j) (j_revisions j) (j_subs j).
Definition set_leases (m : gmap string LeaseRow) (j : Journal) : Journal :=
  mkJournal (j_closed j) (j_runs j) (j_events j) (j_results j) m (j_revisions j) (j_subs j).
Definition set_revisions (m : gmap string RevisionRow) (j : Journal) : Journal :=
  mkJournal (j_closed j) (j_runs j) (j_events j) (j_results j) (j_leases j) m (j_subs j).
Definition set_subs (m : gmap nat Sub) (j : Journal) : Journal :=
  mkJournal (j_closed j) (j_runs j) (j_events j) (j_results j) (j_leases j) (j_revisions j) m.

Definition empty_journal : Journal := mkJournal false ∅ [] ∅ ∅ ∅ ∅.

Abbreviation J := (ST Journal journal_error).

(** ** Serialization *)

Definition encodeJson (v : value) (maxBytes : Z) : result journal_error string :=
  match JSON_stringify v with
  | None => Err (JournalError invalid_record)
  | Some text => if maxBytes <? byteLen text then Err (JournalError too_large) else Ok text
  end.

Definition decodeJson (text : string) (maxBytes : Z) : result journal_error value :=
  if maxBytes <? byteLen text then Err (JournalError corruption) else
  match JSON_parse text with Some v => Ok v | None => Err (JournalError corruption) end.

Definition REVISION_BYTES : Z := 256 * 1024.

(** ** Rows and reads *)

Definition opened : J unit := c ← asks j_closed; ensure (negb c) (JournalError closed).
Definition runRow (id : string) (j : Journal) : option RunRow := j_runs j !! id.
Definition leaseRow (id : string) (j : Journal) : option LeaseRow := j_leases j !! id.
Definition resultRow (id : string) (j : Journal) : option ResultRow := j_results j !! id.
Definition RUN_ID_RE (s : string) : bool :=
  re_ident (fun c => is_alpha c || is_digit c) (fun c => is_alpha c || is_digit c || is_one_of "._:-" c) 127 s.
Definition assertId (id : string) : J unit := ensure (RUN_ID_RE id) (JournalError invalid_record).

Definition toEvent (r : EventRow) : result journal_error NodeRunEvent :=
  try! p := decodeJson (er_payload_json r) JOURNAL_LIMITS.event_payload_bytes in
  Ok {| ne_remote_run_id := er_remote_run_id r; ne_sequence := er_sequence r; ne_type := er_type r; ne_timestamp := er_ts r; ne_payload := p |}.

Definition of_run (id : string) (r : EventRow) : bool := er_remote_run_id r =s id.
Definition events_of (id : string) (j : Journal) : list EventRow := List.filter (of_run id) (j_events j).
Definition event_at (id : string) (seq : Z) (j : Journal) : option EventRow := List.find (fun r => er_sequence r =? seq) (events_of id j).

(** [ORDER BY sequence ASC]. *)
Fixpoint insert_asc (r : EventRow) (l : list EventRow) : list EventRow :=
  match l with [] => [r] | x :: t => if er_sequence r <=? er_sequence x then r :: l else x :: insert_asc r t end.
Definition sort_asc (l : list EventRow) : list EventRow := fold_right insert_asc [] l.

Fixpoint map_result {A B : Type} (f : A -> result journal_error B) (l : list A) : result journal_error (list B) :=
  match l with [] => Ok [] | a :: t => try! b := f a in try! bs := map_result f t in Ok (b :: bs) end.

Definition readEvents (id : string) (after : Z) (limit : nat) : J (list NodeRunEvent) :=
  opened;;
  l ← asks (fun j => take limit (sort_asc (List.filter (fun r => after <? er_sequence r) (events_of id j))));
  from (map_result toEvent l).
(** The default [limit]. *)
Definition READ_LIMIT : nat := Z.to_nat 100000.

Definition replayMetadata (id : string) (after : Z) : J (option ReplayMetadata) :=
  opened;;
  o ← asks (runRow id);
  mret ((fun run => {| rm_earliest_retained_sequence := rn_earliest_retained_sequence run; rm_latest_sequence := rn_last_sequence run;
                       rm_history_complete_for_request := rn_earliest_retained_sequence run <=? after + 1; rm_status := rn_status run;
                       rm_terminal := rn_terminal_event_recorded run; rm_replay_capability := RUN_EVENT_REPLAY_CAPABILITY |}) <$> o).

Definition getRun (id : string) : J (option RunRow) := opened;; asks (runRow id).

(** ** Subscriptions *)

Definition set_sub (queue : list NodeRunEvent) (draining overflowed isclosed registered : bool) (delivered : list NodeRunEvent) (s : Sub) : Sub :=
  {| sub_runId := sub_runId s; sub_cutoff := sub_cutoff s; sub_maxQueue := sub_maxQueue s; sub_queue := queue; sub_draining := draining;
     sub_overflowed := overflowed; sub_closed := isclosed; sub_registered := registered; sub_delivered := delivered |}.

Definition overflow (s : Sub) : Sub := set_sub [] (sub_draining s) true (sub_closed s) false (sub_delivered s) s.

Definition fanout_sub (ev : NodeRunEvent) (s : Sub) : Sub :=
  if negb (sub_registered s && (sub_runId s =s ne_remote_run_id ev)) then s else
  if sub_closed s || sub_overflowed s then s else
  if ne_sequence ev <=? sub_cutoff s then s else
  let q := sub_queue s ++ [ev] in
  if sub_maxQueue s <? Z.of_nat (List.length q) then overflow s
  else set_sub q true (sub_overflowed s) (sub_closed s) (sub_registered s) (sub_delivered s) s.
Definition fanout (ev : NodeRunEvent) : J unit := update (fun j => set_subs (fanout_sub ev <$> j_subs j) j).

(** The [setImmediate] callback of a scheduled drain. *)
Definition drain_sub (s : Sub) : Sub :=
  if sub_closed s || sub_overflowed s then set_sub (sub_queue s) false (sub_overflowed s) (sub_closed s) (sub_registered s) (sub_delivered s) s
  else set_sub [] false (sub_overflowed s) (sub_closed s) (sub_registered s) (sub_delivered s ++ sub_queue s) s.

Definition close_sub (s : Sub) : Sub := set_sub (sub_queue s) (sub_draining s) (sub_overflowed s) true false (sub_delivered s) s.
(** [close()] of the handle. *)
Definition close_handle (sid : nat) (j : Journal) : Journal := set_subs (alter close_sub sid (j_subs j)) j.

Definition fresh_sub (j : Journal) : nat := fresh (dom (j_subs j) : gset nat).
Definition DEFAULT_MAX_QUEUE : Z := 1000.

(** The subscription after its replay was delivered. *)
Definition new_sub (id : string) (cutoff : Z) (maxQueue : option Z) (replay : list NodeRunEvent) : Sub :=
  {| sub_runId := id; sub_cutoff := cutoff; sub_maxQueue := default DEFAULT_MAX_QUEUE maxQueue; sub_queue := []; sub_draining := false;
     sub_overflowed := false; sub_closed := false; sub_registered := true; sub_delivered := replay |}.

Definition subscribe (id : string) (after : Z) (maxQueue : option Z) : J (nat * option ReplayMetadata) :=
  opened;;
  meta ← replayMetadata id after;
  let cutoff := match meta with Some m => rm_latest_sequence m | None => after end in
  replay ← readEvents id after READ_LIMIT;
  sid ← asks fresh_sub;
  update (fun j => set_subs (<[sid := new_sub id cutoff maxQueue replay]> (j_subs j)) j);;
  mret (sid, meta).

Definition close : J unit := update (fun j => if j_closed j then j else
  mkJournal true (j_runs j) (j_events j) (j_results j) (j_leases j) (j_revisions j)
    ((fun s => if sub_registered s then close_sub s else s) <$> j_subs j)).

(** ** Capture *)

Section Capture.
Context (now : string).

Definition new_run (id status : string) : RunRow :=
  {| rn_remote_run_id := id; rn_created_at := now; rn_updated_at := now; rn_status := status; rn_terminal_at := None; rn_last_sequence := -1;
     rn_earliest_retained_sequence := 0; rn_terminal_event_recorded := false; rn_workspace_lease_id := None |}.

Definition ensureRun (id status : string) : J RunRow :=
  opened;; assertId id;;
  o ← asks (runRow id);
  match o with
  | Some r => mret r
  | None => update (fun j => set_runs (<[id := new_run id status]> (j_runs j)) j);; mret (new_run id status)
  end.
(** [this.runRow(id)!] after [ensureRun]. *)
Definition theRun (id : string) : J RunRow := o ← asks (runRow id); obtain o (JournalError not_found).
Definition update_run (id : string) (f : RunRow -> RunRow) : J unit := update (fun j => set_runs (alter f id (j_runs j)) j).

Definition validate (e : NodeRunEventInput) : result journal_error string :=
  if negb (ni_type e ∈b NODE_RUN_EVENT_TYPES) then Err (JournalError invalid_record) else
  if negb (isIsoUtc (ni_timestamp e)) then Err (JournalError invalid_record) else
  encodeJson (if is_nullish (ni_payload e) then VNull else ni_payload e) JOURNAL_LIMITS.event_payload_bytes.

Definition record_event (seq : Z) (status : option string) (terminal : bool) (r : RunRow) : RunRow :=
  {| rn_remote_run_id := rn_remote_run_id r; rn_created_at := rn_created_at r; rn_updated_at := now; rn_status := default (rn_status r) status;
     rn_terminal_at := if terminal then Some now else rn_terminal_at r; rn_last_sequence := seq;
     rn_earliest_retained_sequence := rn_earliest_retained_sequence r;
     rn_terminal_event_recorded := if terminal then true else rn_terminal_event_recorded r; rn_workspace_lease_id := rn_workspace_lease_id r |}.

Definition insertEvent (id : string) (seq : Z) (e : NodeRunEventInput) (precomputed : option string) : J NodeRunEvent :=
  ensure (seq <? JOURNAL_LIMITS.events_per_run) (JournalError events_per_run_exceeded);;
  payload_json ← match precomputed with Some p => mret p | None => from (validate e) end;
  let status := match ni_status e with Some s => Some s | None => if ni_terminal e then Some "completed" else None end in
  atomic (
    present ← asks (fun j => is_some (event_at id seq j) || negb (is_some (runRow id j)));
    ensure (negb present) ConstraintError;;
    update (fun j => set_events (j_events j ++ [{| er_remote_run_id := id; er_sequence := seq; er_type := ni_type e; er_ts := ni_timestamp e;
                                                   er_payload_json := payload_json; er_created_at := now |}]) j);;
    update_run id (record_event seq status (ni_terminal e)));;
  mret {| ne_remote_run_id := id; ne_sequence := seq; ne_type := ni_type e; ne_timestamp := ni_timestamp e; ne_payload := ni_payload e |}.

Definition append (id : string) (e : NodeRunEventInput) : J NodeRunEvent :=
  opened;;
  ensureRun id "running";;
  run ← theRun id;
  ensure (negb (rn_terminal_event_recorded run)) (JournalError invalid_transition);;
  stored ← insertEvent id (rn_last_sequence run + 1) e None;
  fanout stored;;
  mret stored.

Definition same_event (e : NodeRunEventInput) (payload_json : string) (r : EventRow) : bool :=
  (er_type r =s ni_type e) && (er_ts r =s ni_timestamp e) && (er_payload_json r =s payload_json).

(** The event and whether it was a duplicate. *)
Definition appendAt (id : string) (seq : Z) (e : NodeRunEventInput) : J (NodeRunEvent * bool) :=
  opened;; ensureRun id "running";;
  ensure (0 <=? seq) (JournalError invalid_record);;
  run ← theRun id;
  payload_json ← from (validate e);
  if seq <=? rn_last_sequence run then
    o ← asks (event_at id seq);
    existing ← obtain o (JournalError event_gap);
    ensure (same_event e payload_json existing) (JournalError event_conflict);;
    ev ← from (toEvent existing);
    mret (ev, true)
  else
    ensure (seq =? rn_last_sequence run + 1) (JournalError event_gap);;
    ensure (negb (rn_terminal_event_recorded run)) (JournalError invalid_transition);;
    stored ← insertEvent id seq e (Some payload_json);
    fanout stored;;
    mret (stored, false).

Definition TERMINAL_STATUSES : list string := ["completed"; "failed"; "stopped"; "cancelled"].

Definition mark_status (status : string) (terminalAt : option string) (r : RunRow) : RunRow :=
  {| rn_remote_run_id := rn_remote_run_id r; rn_created_at := rn_created_at r; rn_updated_at := now; rn_status := status;
     rn_terminal_at := match terminalAt with Some t => Some t | None => rn_terminal_at r end; rn_last_sequence := rn_last_sequence r;
     rn_earliest_retained_sequence := rn_earliest_retained_sequence r; rn_terminal_event_recorded := rn_terminal_event_recorded r;
     rn_workspace_lease_id := rn_workspace_lease_id r |}.

Definition markStatus (id status : string) (terminalAt : option string) : J RunRow :=
  opened;;
  run ← theRun id;
  ensure (negb (rn_terminal_event_recorded run && negb (status ∈b TERMINAL_STATUSES))) (JournalError invalid_transition);;
  update_run id (mark_status status terminalAt);;
  theRun id.
End Capture.

(** ** Workspace leases *)

Definition ACTIVE_LEASE : list string := ["acquiring"; "active"; "release_requested"].
Definition live (r : LeaseRow) : bool := lr_status r ∈b ACTIVE_LEASE.
Definition on_workspace (node key : string) (r : LeaseRow) : bool := (lr_node_id r =s node) && (lr_workspace_key r =s key).
Definition activeLeaseRow (node key : string) (j : Journal) : option LeaseRow :=
  find_row (fun r => on_workspace node key r && live r) (j_leases j).

Definition opt_field (k : string) (o : option string) : list (string * value) :=
  match o with Some s => if s =s "" then [] else [(k, VStr s)] | None => [] end.

Definition decode_revision (o : option string) : result journal_error (option value) :=
  match o with
  | Some t => if t =s "" then Ok None else
      try! v := decodeJson t REVISION_BYTES in if isValidRevision v then Ok (Some v) else Err (JournalError corruption)
  | None => Ok None
  end.
Definition revision_field (k : string) (o : option value) : list (string * value) := match o with Some v => [(k, v)] | None => [] end.

(** The lease as a JSON value. *)
Definition toLease (r : LeaseRow) : result journal_error value :=
  try! base := decode_revision (lr_base_revision_json r) in
  try! current := decode_revision (lr_current_revision_json r) in
  let l := VObj ([("workspace_lease_id", VStr (lr_workspace_lease_id r)); ("workflow_id", VStr (lr_workflow_id r)); ("node_id", VStr (lr_node_id r));
                  ("workspace_key", VStr (lr_workspace_key r)); ("mode", VStr "exclusive"); ("status", VStr (lr_status r))]
                 ++ opt_field "acquired_at" (lr_acquired_at r) ++ opt_field "release_requested_at" (lr_release_requested_at r)
                 ++ opt_field "released_at" (lr_released_at r) ++ revision_field "base_revision" base ++ revision_field "current_revision" current) in
  if isValidLease l then Ok l else Err (JournalError corruption).

(** The partial unique index over the live leases of a workspace. *)
Definition index_free (id : string) (row : LeaseRow) (j : Journal) : bool :=
  negb (live row) || negb (existsb (fun kv => negb (fst kv =s id) && on_workspace (lr_node_id row) (lr_workspace_key row) (snd kv) && live (snd kv)) (map_to_list (j_leases j))).
Definition write_lease (id : string) (row : LeaseRow) : J unit :=
  ok ← asks (index_free id row);
  ensure ok ConstraintError;;
  update (fun j => set_leases (<[id := row]> (j_leases j)) j).

Section Leases.
Context (sha256_hex : string -> string) (now : string).

Definition new_lease (id workflow node key revJson : string) : LeaseRow :=
  {| lr_workspace_lease_id := id; lr_workflow_id := workflow; lr_node_id := node; lr_workspace_key := key; lr_mode := "exclusive"; lr_status := "active";
     lr_acquired_at := Some now; lr_release_requested_at := None; lr_released_at := None; lr_base_revision_json := Some revJson;
     lr_current_revision_json := Some revJson; lr_created_at := now; lr_updated_at := now |}.
Definition reactivate (revJson : string) (r : LeaseRow) : LeaseRow :=
  {| lr_workspace_lease_id := lr_workspace_lease_id r; lr_workflow_id := lr_workflow_id r; lr_node_id := lr_node_id r;
     lr_workspace_key := lr_workspace_key r; lr_mode := lr_mode r; lr_status := "active"; lr_acquired_at := Some now; lr_release_requested_at := None;
     lr_released_at := None; lr_base_revision_json := Some revJson; lr_current_revision_json := Some revJson; lr_created_at := lr_created_at r;
     lr_updated_at := now |}.
Definition mark_released (r : LeaseRow) : LeaseRow :=
  {| lr_workspace_lease_id := lr_workspace_lease_id r; lr_workflow_id := lr_workflow_id r; lr_node_id := lr_node_id r;
     lr_workspace_key := lr_workspace_key r; lr_mode := lr_mode r; lr_status := "released"; lr_acquired_at := lr_acquired_at r;
     lr_release_requested_at := lr_release_requested_at r; lr_released_at := Some now; lr_base_revision_json := lr_base_revision_json r;
     lr_current_revision_json := lr_current_revision_json r; lr_created_at := lr_created_at r; lr_updated_at := now |}.
Definition observe_revision (revJson : string) (r : LeaseRow) : LeaseRow :=
  {| lr_workspace_lease_id := lr_workspace_lease_id r; lr_workflow_id := lr_workflow_id r; lr_node_id := lr_node_id r;
     lr_workspace_key := lr_workspace_key r; lr_mode := lr_mode r; lr_status := lr_status r; lr_acquired_at := lr_acquired_at r;
     lr_release_requested_at := lr_release_requested_at r; lr_released_at := lr_released_at r; lr_base_revision_json := lr_base_revision_json r;
     lr_current_revision_json := Some revJson; lr_created_at := lr_created_at r; lr_updated_at := now |}.

Definition held_by_other (leaseId node key : string) (j : Journal) : bool :=
  match activeLeaseRow node key j with Some other => negb (lr_workspace_lease_id other =s leaseId) | None => false end.

(** The lease and whether it was created. *)
Definition attempt_acquire (leaseId workflow node key revJson : string) : J (value * bool) :=
  atomic (
    own ← asks (leaseRow leaseId);
    match own with
    | Some r => if live r then l ← from (toLease r); mret (l, false) else
        other ← asks (held_by_other leaseId node key);
        ensure (negb other) (WorkspaceLeaseError workspace_lease_conflict);;
        write_lease leaseId (reactivate revJson r);;
        l ← from (toLease (reactivate revJson r)); mret (l, true)
    | None =>
        other ← asks (held_by_other leaseId node key);
        ensure (negb other) (WorkspaceLeaseError workspace_lease_conflict);;
        write_lease leaseId (new_lease leaseId workflow node key revJson);;
        l ← from (toLease (new_lease leaseId workflow node key revJson)); mret (l, true)
    end).

Definition acquireWorkspaceLease (workflow node key : string) (baseRevision : value) : J (value * bool) :=
  opened;;
  let leaseId := workspaceLeaseId sha256_hex workflow node key in
  revJson ← from (encodeJson baseRevision REVISION_BYTES);
  catch (attempt_acquire leaseId workflow node key revJson) (fun e =>
    match e with
    | ConstraintError =>
        other ← asks (held_by_other leaseId node key);
        if (other : bool) then raise (WorkspaceLeaseError workspace_lease_conflict) else attempt_acquire leaseId workflow node key revJson
    | _ => raise e
    end).

Definition getWorkspaceLease (leaseId : string) : J (option value) :=
  opened;; o ← asks (leaseRow leaseId);
  match o with Some r => l ← from (toLease r); mret (Some l) | None => mret None end.
Definition getActiveWorkspaceLease (node key : string) : J (option value) :=
  opened;; o ← asks (activeLeaseRow node key);
  match o with Some r => l ← from (toLease r); mret (Some l) | None => mret None end.

Definition uses (leaseId : string) (r : RunRow) : bool := opt_is (rn_workspace_lease_id r) leaseId && negb (rn_terminal_event_recorded r).
Definition isLeaseInUse (leaseId : string) : J bool := opened;; asks (fun j => is_some (find_row (uses leaseId) (j_runs j))).

Definition releaseWorkspaceLease (leaseId : string) : J value :=
  opened;;
  atomic (
    o ← asks (leaseRow leaseId);
    r ← obtain o (WorkspaceLeaseError workspace_lease_invalid);
    if lr_status r =s "released" then from (toLease r) else
    inUse ← isLeaseInUse leaseId;
    ensure (negb inUse) (WorkspaceLeaseError workspace_lease_in_use);;
    update (fun j => set_leases (<[leaseId := mark_released r]> (j_leases j)) j);;
    from (toLease (mark_released r))).

Definition bind_lease (leaseId : string) (r : RunRow) : RunRow :=
  {| rn_remote_run_id := rn_remote_run_id r; rn_created_at := rn_created_at r; rn_updated_at := now; rn_status := rn_status r;
     rn_terminal_at := rn_terminal_at r; rn_last_sequence := rn_last_sequence r; rn_earliest_retained_sequence := rn_earliest_retained_sequence r;
     rn_terminal_event_recorded := rn_terminal_event_recorded r; rn_workspace_lease_id := Some leaseId |}.
(** The lease a run is bound to; the empty string counts as none. *)
Definition bound_lease (r : RunRow) : option string := match rn_workspace_lease_id r with Some l => if l =s "" then None else Some l | None => None end.

Definition bindRunToLease (runId leaseId : string) : J unit :=
  opened;; assertId runId;;
  atomic (
    ensureRun now runId "running";;
    r ← theRun runId;
    match bound_lease r with
    | Some l => ensure (l =s leaseId) (WorkspaceLeaseError workspace_lease_conflict)
    | None => update_run runId (bind_lease leaseId)
    end).

(** [presented]: a non-empty lease id, or none. *)
Definition validateWorkspaceLeaseForRun (node key : string) (presented : option string) : J unit :=
  opened;;
  active ← asks (activeLeaseRow node key);
  match presented, active with
  | Some p, None =>
      row ← asks (leaseRow p);
      raise (WorkspaceLeaseError (match row with Some r => if lr_status r =s "released" then workspace_lease_released else workspace_lease_invalid
                                  | None => workspace_lease_invalid end))
  | Some p, Some a => ensure (p =s lr_workspace_lease_id a) (WorkspaceLeaseError workspace_lease_invalid)
  | None, Some _ => raise (WorkspaceLeaseError workspace_lease_required)
  | None, None => mret tt
  end.

(** [hex] is [crypto.randomBytes(9).toString('hex')]. *)
Definition recordWorkspaceRevision (hex leaseId : string) (step : option string) (phase : string) (revision : value) : J string :=
  opened;;
  atomic (
    o ← asks (leaseRow leaseId);
    r ← obtain o (WorkspaceLeaseError workspace_lease_invalid);
    revJson ← from (encodeJson revision REVISION_BYTES);
    let oid := "wro_" +:+ hex in
    taken ← asks (fun j => is_some (j_revisions j !! oid));
    ensure (negb taken) ConstraintError;;
    update (fun j => set_revisions (<[oid := {| ro_observation_id := oid; ro_workspace_lease_id := leaseId; ro_step_execution_id := step;
      ro_phase := phase; ro_revision_json := revJson; ro_created_at := now |}]> (j_revisions j)) j);;
    update (fun j => set_leases (<[leaseId := observe_revision revJson r]> (j_leases j)) j);;
    mret oid).
End Leases.

(** ** Durable results *)

Section Results.
Context (sha256_hex : string -> string) (now : string).

Definition refs_json (l : list value) : result journal_error string := encodeJson (VArr l) REVISION_BYTES.
Definition verification_text (r : AgentTaskResultV1) : result journal_error (option string) :=
  match ar_verification r with Some v => try! t := encodeJson (verification_json v) REVISION_BYTES in Ok (Some t) | None => Ok None end.
Definition boundFinal (text : string) : result journal_error string :=
  if MAX_FINAL_OUTPUT_BYTES <? byteLen text then Err (JournalError too_large) else Ok text.
Definition opt_string_eqb (a b : option string) : bool :=
  match a, b with Some x, Some y => x =s y | None, None => true | _, _ => false end.

(** The comparison stops at the first difference, so a text that cannot be encoded throws
    only when everything before it agrees. *)
Definition resultMatches (row : ResultRow) (status : string) (result : option AgentTaskResultV1) : Prelude.result journal_error bool :=
  if negb (rr_result_status row =s status) then Ok false else
  match result with
  | None => Ok (negb (is_some (rr_content_hash row)))
  | Some r =>
      if negb ((rr_schema_version row =s "1") && opt_is (rr_content_hash row) (ar_content_hash r)
               && (default "" (rr_final_output_text row) =s ar_text r) && opt_z_eqb (rr_process_exit_code row) (ar_process_exit_code r)) then Ok false else
      try! e := refs_json (ar_evidence_refs r) in
      if negb (rr_evidence_refs_json row =s e) then Ok false else
      try! a := refs_json (ar_artifact_refs r) in
      if negb (rr_artifact_refs_json row =s a) then Ok false else
      try! v := verification_text r in
      Ok (opt_string_eqb (rr_verification_json row) v)
  end.

Definition result_row (id status : string) (result : option AgentTaskResultV1) : Prelude.result journal_error ResultRow :=
  match result with
  | None =>
      try! refs := refs_json [] in
      Ok {| rr_remote_run_id := id; rr_schema_version := "1"; rr_result_status := status; rr_final_output_text := None; rr_process_exit_code := None;
            rr_finalized_at := None; rr_content_hash := None; rr_evidence_refs_json := refs; rr_artifact_refs_json := refs; rr_verification_json := None;
            rr_created_at := now |}
  | Some r =>
      try! text := boundFinal (ar_text r) in
      try! e := refs_json (ar_evidence_refs r) in
      try! a := refs_json (ar_artifact_refs r) in
      try! v := verification_text r in
      Ok {| rr_remote_run_id := id; rr_schema_version := "1"; rr_result_status := status; rr_final_output_text := Some text;
            rr_process_exit_code := ar_process_exit_code r; rr_finalized_at := Some (ar_finalized_at r); rr_content_hash := Some (ar_content_hash r);
            rr_evidence_refs_json := e; rr_artifact_refs_json := a; rr_verification_json := v; rr_created_at := now |}
  end.

(** Whether the result was applied. *)
Definition persistRunResult (id status : string) (result : option AgentTaskResultV1) : J bool :=
  opened;; assertId id;;
  atomic (
    ensureRun now id "running";;
    o ← asks (resultRow id);
    match o with
    | Some row => same ← from (resultMatches row status result); ensure same (JournalError result_conflict);; mret false
    | None =>
        row ← from (result_row id status result);
        update (fun j => set_results (<[id := row]> (j_results j)) j);;
        mret true
    end).

Definition stored_result (row : ResultRow) : Prelude.result journal_error value :=
  try! e := decodeJson (rr_evidence_refs_json row) REVISION_BYTES in
  try! a := decodeJson (rr_artifact_refs_json row) REVISION_BYTES in
  try! v := match rr_verification_json row with Some t => try! x := decodeJson t REVISION_BYTES in Ok [("verification", x)] | None => Ok [] end in
  Ok (VObj ([("schema_version", VStr (rr_schema_version row));
             ("final_output", VObj [("kind", VStr "text"); ("text", VStr (default "" (rr_final_output_text row)))]);
             ("process_exit_code", match rr_process_exit_code row with Some z => VNum (NInt z) | None => VNull end);
             ("finalized_at", VStr (default "" (rr_finalized_at row))); ("content_hash", VStr (default "" (rr_content_hash row)));
             ("evidence_refs", e); ("artifact_refs", a)] ++ v)).

(** The status and the result of a run. *)
Definition getRunResult (id : string) : J (option (string * option AgentTaskResultV1)) :=
  opened;;
  o ← asks (resultRow id);
  match o with
  | None => mret None
  | Some row =>
      if negb (rr_result_status row =s "available") then mret (Some (rr_result_status row, None)) else
      v ← from (stored_result row);
      match validateTaskResult sha256_hex v with
      | Ok r => mret (Some ("available", Some r))
      | Err _ => raise (JournalError corruption)
      end
  end.
End Results.

(** ** Retention *)

Definition iso_before (a b : string) : bool := js_leb a b && negb (a =s b).

Definition expired (olderThan : string) (r : RunRow) : bool :=
  rn_terminal_event_recorded r && match rn_terminal_at r with Some t => iso_before t olderThan | None => false end.
Definition expired_run (olderThan : string) (j : Journal) (id : string) : bool := match runRow id j with Some r => expired olderThan r | None => false end.

(** DELETE FROM runs: events and results cascade. *)
Definition pruneTerminalRuns (olderThan : string) : J nat :=
  opened;;
  n ← asks (fun j => size (filter (fun kv => expired olderThan (snd kv) = true) (j_runs j)));
  update (fun j => set_runs (filter (fun kv => expired olderThan (snd kv) = false) (j_runs j))
    (set_events (List.filter (fun e => negb (expired_run olderThan j (er_remote_run_id e))) (j_events j))
      (set_results (filter (fun kv => expired_run olderThan j (fst kv) = false) (j_results j)) j)));;
  mret n.

Definition set_earliest (m : Z) (r : RunRow) : RunRow :=
  {| rn_remote_run_id := rn_remote_run_id r; rn_created_at := rn_created_at r; rn_updated_at := rn_updated_at r; rn_status := rn_status r;
     rn_terminal_at := rn_terminal_at r; rn_last_sequence := rn_last_sequence r; rn_earliest_retained_sequence := m;
     rn_terminal_event_recorded := rn_terminal_event_recorded r; rn_workspace_lease_id := rn_workspace_lease_id r |}.

Definition pruneRunEvents (id : string) (keepLast : Z) : J nat :=
  opened;;
  ensure (0 <=? keepLast) (JournalError invalid_record);;
  evs ← asks (events_of id);
  match sort_desc (map er_sequence evs) !! Z.to_nat keepLast with
  | None => mret O
  | Some boundary =>
      update (fun j => set_events (List.filter (fun e => negb (of_run id e && (er_sequence e <=? boundary))) (j_events j)) j);;
      rest ← asks (events_of id);
      match min_of (map er_sequence rest) with Some m => update_run id (set_earliest m) | None => mret tt end;;
      mret (List.length evs - List.length rest)%nat
  end.
