(* ===== verification/JournalProps.v ===== *)
(** * What the Node journal guarantees

    The steps of the journal, the invariant of its tables, and the feed of a
    subscription: replayed events and events published since, each once and in order. *)

From S2P Require Import Prelude Machine Values Json Contract Verification Outputs Journal.

(** ** Steps *)

Definition published (r : result journal_error NodeRunEvent) : option NodeRunEvent := match r with Ok ev => Some ev | Err _ => None end.
Definition published_at (r : result journal_error (NodeRunEvent * bool)) : option NodeRunEvent :=
  match r with Ok (ev, false) => Some ev | _ => None end.

(** A call of a method, a scheduled drain or the closing of a handle, with the event the
    step publishes.  [pruneTerminalRuns] is apart: it forgets runs. *)
Inductive journal_step (sha256_hex : string -> string) : Journal -> option NodeRunEvent -> Journal -> Prop :=
  | js_ensureRun now id st j : journal_step sha256_hex j None (snd (ensureRun now id st j))
  | js_append now id e j : journal_step sha256_hex j (published (fst (append now id e j))) (snd (append now id e j))
  | js_appendAt now id seq e j : journal_step sha256_hex j (published_at (fst (appendAt now id seq e j))) (snd (appendAt now id seq e j))
  | js_markStatus now id st t j : journal_step sha256_hex j None (snd (markStatus now id st t j))
  | js_acquire now w n k v j : journal_step sha256_hex j None (snd (acquireWorkspaceLease sha256_hex now w n k v j))
  | js_release now l j : journal_step sha256_hex j None (snd (releaseWorkspaceLease now l j))
  | js_bind now id l j : journal_step sha256_hex j None (snd (bindRunToLease now id l j))
  | js_revision now h l s p v j : journal_step sha256_hex j None (snd (recordWorkspaceRevision now h l s p v j))
  | js_persist now id st r j : journal_step sha256_hex j None (snd (persistRunResult now id st r j))
  | js_subscribe id after q j : journal_step sha256_hex j None (snd (subscribe id after q j))
  | js_drain sid s j : j_subs j !! sid = Some s -> sub_draining s = true -> journal_step sha256_hex j None (set_subs (<[sid := drain_sub s]> (j_subs j)) j)
  | js_closeHandle sid j : journal_step sha256_hex j None (close_handle sid j)
  | js_pruneEvents id k j : journal_step sha256_hex j None (snd (pruneRunEvents id k j))
  | js_close j : journal_step sha256_hex j None (snd (close j)).

(** A sequence of steps and the events they publish, in order. *)
Inductive journal_trace (sha256_hex : string -> string) : Journal -> list NodeRunEvent -> Journal -> Prop :=
  | jt_nil j : journal_trace sha256_hex j [] j
  | jt_step j o j1 tr j2 : journal_step sha256_hex j o j1 -> journal_trace sha256_hex j1 tr j2 ->
      journal_trace sha256_hex j (match o with Some ev => ev :: tr | None => tr end) j2.

(** Journals that can arise, retention included. *)
Inductive journal_reachable (sha256_hex : string -> string) : Journal -> Prop :=
  | jr_empty : journal_reachable sha256_hex empty_journal
  | jr_step j o j' : journal_reachable sha256_hex j -> journal_step sha256_hex j o j' -> journal_reachable sha256_hex j'
  | jr_prune t j : journal_reachable sha256_hex j -> journal_reachable sha256_hex (snd (pruneTerminalRuns t j)).

(** ** The log of a run *)

(** A suffix of [0 .. last] is retained, starting no earlier than recorded. *)
Definition log_ok (j : Journal) : Prop := forall id,
  match runRow id j with
  | Some r => rn_remote_run_id r = id /\ exists lo, 0 <= rn_earliest_retained_sequence r <= lo /\ lo <= rn_last_sequence r + 1
      /\ map er_sequence (events_of id j) = seqZ lo (rn_last_sequence r + 1 - lo)
  | None => events_of id j = []
  end.

(** [id]'s rows in [j'] are those in [j]. *)
Definition same_log (j j' : Journal) : Prop := j_events j' = j_events j /\ forall id,
  match runRow id j, runRow id j' with
  | Some r, Some r' => rn_remote_run_id r' = rn_remote_run_id r /\ rn_last_sequence r' = rn_last_sequence r /\ rn_earliest_retained_sequence r' = rn_earliest_retained_sequence r
  | None, Some r' => rn_remote_run_id r' = id /\ rn_last_sequence r' = -1 /\ rn_earliest_retained_sequence r' = 0
  | None, None => True
  | Some _, None => False
  end.

Lemma log_same (j j' : Journal) : same_log j j' -> log_ok j -> log_ok j'.
Proof.
  intros [He Hr] H id. specialize (Hr id). specialize (H id). unfold events_of in *. rewrite He.
  destruct (runRow id j) as [r|], (runRow id j') as [r'|]; try done.
  - destruct Hr as (-> & -> & ->). done.
  - destruct Hr as (-> & -> & ->). split; [done|]. exists 0. rewrite H. split; [lia|]. split; [lia|done].
Qed.

(** Running a method: the monad and the reads are computed away. *)
Ltac run_journal := repeat (unfold opened, assertId, theRun, update_run, mbind, ST_bind, asks, ensure, obtain, from, update, raise, mret, ST_ret, atomic, catch; cbn).

Section Log.
Implicit Types (j : Journal) (id : string).

Lemma log_runs j (m : gmap string RunRow) :
  (forall id, match j_runs j !! id, m !! id with
   | Some r, Some r' => rn_remote_run_id r' = rn_remote_run_id r /\ rn_last_sequence r' = rn_last_sequence r /\ rn_earliest_retained_sequence r' = rn_earliest_retained_sequence r
   | None, Some r' => rn_remote_run_id r' = id /\ rn_last_sequence r' = -1 /\ rn_earliest_retained_sequence r' = 0
   | None, None => True
   | Some _, None => False
   end) -> log_ok j -> log_ok (set_runs m j).
Proof. intros H. apply log_same. split; [done|exact H]. Qed.


(** The run exists in [j'], which differs from [j] at most by its fresh row. *)
Definition ensured (now id : string) (j j' : Journal) : Prop :=
  (j' = j /\ is_Some (runRow id j)) \/ (runRow id j = None /\ exists st, j' = set_runs (<[id := new_run now id st]> (j_runs j)) j).

Lemma ensureRun_spec (now id st : string) j :
  match ensureRun now id st j with
  | (Ok r, j') => ensured now id j j' /\ runRow id j' = Some r
  | (Err _, j') => j' = j
  end.
Proof.
  unfold ensureRun. run_journal. destruct (j_closed j); [done|]. cbn. destruct (RUN_ID_RE id); [|done]. cbn.
  destruct (runRow id j) as [r|] eqn:E; cbn.
  - split; [left; eauto|done].
  - split; [right; eauto|]. unfold runRow. cbn. by rewrite lookup_insert_eq.
Qed.

Lemma ensured_log (now id : string) j j' : ensured now id j j' -> same_log j j'.
Proof.
  intros [[-> _]|[Hn [st ->]]]; split; try done; intros k.
  - destruct (runRow k j); done.
  - unfold runRow in *. cbn. destruct (decide (k = id)) as [->|Hne].
    + by rewrite Hn, lookup_insert_eq.
    + rewrite lookup_insert_ne by done. by destruct (j_runs j !! k).
Qed.

(** The row and the run after an event. *)
Definition logged (now id : string) (seq : Z) (e : NodeRunEventInput) (payload : string) j : Journal :=
  let status := match ni_status e with Some s => Some s | None => if ni_terminal e then Some "completed" else None end in
  set_runs (alter (record_event now seq status (ni_terminal e)) id (j_runs j))
    (set_events (j_events j ++ [{| er_remote_run_id := id; er_sequence := seq; er_type := ni_type e; er_ts := ni_timestamp e;
                                   er_payload_json := payload; er_created_at := now |}]) j).

Lemma insertEvent_spec (now id : string) (seq : Z) (e : NodeRunEventInput) (p : option string) j :
  match insertEvent now id seq e p j with
  | (Ok ev, j') => ev = {| ne_remote_run_id := id; ne_sequence := seq; ne_type := ni_type e; ne_timestamp := ni_timestamp e; ne_payload := ni_payload e |}
      /\ seq < JOURNAL_LIMITS.events_per_run /\ exists t, (p = Some t \/ (p = None /\ validate e = Ok t)) /\ j' = logged now id seq e t j
  | (Err _, j') => j' = j
  end.
Proof.
  unfold insertEvent. run_journal. destruct (seq <? _) eqn:El; [|done]. apply Z.ltb_lt in El. cbn.
  destruct p as [t|]; [|destruct (validate e) as [t|c] eqn:Ev]; cbn; try done;
    destruct (is_some (event_at id seq j) || negb (is_some (runRow id j))); cbn; try done; (split; [done|]; split; [done|]; exists t; split; [auto|done]).
Qed.

(** A new event: its sequence number is the next one of a run that has not ended. *)
Definition appended (now id : string) (e : NodeRunEventInput) (ev : NodeRunEvent) j j' : Prop :=
  exists j1 r t, ensured now id j j1 /\ runRow id j1 = Some r /\ rn_terminal_event_recorded r = false
    /\ ev = {| ne_remote_run_id := id; ne_sequence := rn_last_sequence r + 1; ne_type := ni_type e; ne_timestamp := ni_timestamp e; ne_payload := ni_payload e |}
    /\ validate e = Ok t /\ j' = set_subs (fanout_sub ev <$> j_subs j) (logged now id (rn_last_sequence r + 1) e t j1).

Lemma ensured_subs (now id : string) j j1 : ensured now id j j1 -> j_subs j1 = j_subs j.
Proof. by intros [[-> _]|[_ [st ->]]]. Qed.

(** A call that fails leaves at most the fresh row of the run. *)
Lemma append_spec (now id : string) (e : NodeRunEventInput) j :
  match append now id e j with
  | (Ok ev, j') => appended now id e ev j j'
  | (Err _, j') => j' = j \/ ensured now id j j'
  end.
Proof.
  unfold append, fanout. run_journal. destruct (j_closed j); cbn; [by left|]. pose proof (ensureRun_spec now id "running" j) as He.
  destruct (ensureRun now id "running" j) as [[r0|c] j1]; cbn; [|by left]. destruct He as [He Hr].
  rewrite Hr. cbn. destruct (rn_terminal_event_recorded r0) eqn:Et; cbn; [by right|].
  pose proof (insertEvent_spec now id (rn_last_sequence r0 + 1) e None j1) as Hi. destruct (insertEvent _ _ _ _ _ _) as [[ev|c] j2]; [|subst; by right].
  destruct Hi as (-> & _ & t & [Ht|[_ Ht]] & ->); [done|]. cbn. exists j1, r0, t. do 3 (split; [done|]). split; [done|]. split; [done|].
  unfold logged. cbn. by rewrite (ensured_subs _ _ _ _ He).
Qed.

Lemma appendAt_spec (now id : string) (seq : Z) (e : NodeRunEventInput) j :
  match appendAt now id seq e j with
  | (Ok (ev, false), j') => appended now id e ev j j' /\ ne_sequence ev = seq
  | (Ok (ev, true), j') => ensured now id j j' /\ exists r row, runRow id j' = Some r /\ seq <= rn_last_sequence r
      /\ event_at id seq j' = Some row /\ toEvent row = Ok ev /\ exists t, validate e = Ok t /\ same_event e t row = true
  | (Err _, j') => j' = j \/ ensured now id j j'
  end.
Proof.
  unfold appendAt, fanout. run_journal. destruct (j_closed j); cbn; [by left|]. pose proof (ensureRun_spec now id "running" j) as He.
  destruct (ensureRun now id "running" j) as [[r0|c] j1]; cbn; [|by left]. destruct He as [He Hr].
  destruct (0 <=? seq); cbn; [|by right]. rewrite Hr. cbn.
  destruct (validate e) as [t|c] eqn:Ev; cbn; [|by right]. destruct (seq <=? rn_last_sequence r0) eqn:El.
  - apply Z.leb_le in El. destruct (event_at id seq j1) as [row|] eqn:Er; cbn; [|by right]. destruct (same_event e t row) eqn:Es; cbn; [|by right].
    destruct (toEvent row) as [ev|c] eqn:Et; cbn; [|by right]. split; [done|]. exists r0, row. do 4 (split; [done|]). by exists t.
  - destruct (seq =? rn_last_sequence r0 + 1) eqn:Eq; cbn; [|by right]. apply Z.eqb_eq in Eq as ->.
    destruct (rn_terminal_event_recorded r0) eqn:Et; cbn; [by right|].
    pose proof (insertEvent_spec now id (rn_last_sequence r0 + 1) e (Some t) j1) as Hi. destruct (insertEvent _ _ _ _ _ _) as [[ev|c] j2]; [|subst; by right].
    destruct Hi as (-> & _ & t' & [[= <-]|[? _]] & ->); [|done]. cbn. split; [|done]. exists j1, r0, t. do 3 (split; [done|]). split; [done|]. split; [done|].
    unfold logged. cbn. by rewrite (ensured_subs _ _ _ _ He).
Qed.

Lemma events_logged (now id t k : string) (seq : Z) (e : NodeRunEventInput) j :
  events_of k (logged now id seq e t j) = events_of k j ++ (if id =s k then [{| er_remote_run_id := id; er_sequence := seq; er_type := ni_type e; er_ts := ni_timestamp e; er_payload_json := t; er_created_at := now |}] else []).
Proof. unfold logged, events_of. cbn. by rewrite List.filter_app. Qed.

Lemma logged_ok (now id t : string) (e : NodeRunEventInput) (r : RunRow) j :
  runRow id j = Some r -> log_ok j -> log_ok (logged now id (rn_last_sequence r + 1) e t j).
Proof.
  intros Hr H k. specialize (H k). rewrite events_logged. unfold runRow in *. cbn. destruct (decide (k = id)) as [->|Hne].
  - rewrite lookup_alter_eq, Hr, String.eqb_refl in *. cbn. destruct H as (Hid & lo & Hlo & Hle & Hs). split; [done|]. exists lo. split; [done|]. split; [lia|].
    rewrite map_app, Hs. cbn. replace (rn_last_sequence r + 1 + 1 - lo) with ((rn_last_sequence r + 1 - lo) + 1) by lia.
    rewrite seqZ_app, (seqZ_cons (lo + _)), (seqZ_nil (Z.succ _)) by lia. do 2 f_equal. lia.
  - rewrite lookup_alter_ne by done. rewrite (proj2 (String.eqb_neq id k) (not_eq_sym Hne)), app_nil_r. exact H.
Qed.

#[global] Instance log_ensureRun (now id st : string) : Holds log_ok (ensureRun now id st).
Proof.
  intros j Hj. pose proof (ensureRun_spec now id st j) as H. destruct (ensureRun now id st j) as [[r|e] j']; [|by subst].
  destruct H as [H _]. eapply log_same; [by eapply ensured_log|done].
Qed.

Lemma run_log_alter (id : string) (f : RunRow -> RunRow) :
  (forall r, rn_remote_run_id (f r) = rn_remote_run_id r /\ rn_last_sequence (f r) = rn_last_sequence r /\ rn_earliest_retained_sequence (f r) = rn_earliest_retained_sequence r) ->
  Holds log_ok (update_run id f).
Proof.
  intros Hf j. apply log_runs. intros k. destruct (decide (k = id)) as [->|Hne].
  - rewrite lookup_alter_eq. destruct (j_runs j !! id); cbn; [apply Hf|done].
  - rewrite lookup_alter_ne by done. by destruct (j_runs j !! k).
Qed.
End Log.
#[global] Hint Extern 4 (Holds log_ok (update_run _ _)) => (apply run_log_alter; by repeat split) : typeclass_instances.
#[global] Hint Extern 5 (Holds log_ok (update (fun j => set_leases _ j))) => (intros ? H; exact H) : typeclass_instances.
#[global] Hint Extern 5 (Holds log_ok (update (fun j => set_results _ j))) => (intros ? H; exact H) : typeclass_instances.
#[global] Hint Extern 5 (Holds log_ok (update (fun j => set_revisions _ j))) => (intros ? H; exact H) : typeclass_instances.
#[global] Hint Extern 5 (Holds log_ok (update (fun j => set_subs _ j))) => (intros ? H; exact H) : typeclass_instances.

(** ** Retention *)

Lemma sort_desc_perm (l : list Z) : Permutation (sort_desc l) l.
Proof.
  assert (forall z m, Permutation (insert_desc z m) (z :: m)) as Hi.
  { intros z m. induction m as [|x m IH]; cbn; [done|]. destruct (x <=? z); [done|]. rewrite IH. apply Permutation_swap. }
  induction l as [|z l IH]; cbn; [done|]. fold (sort_desc l). by rewrite Hi, IH.
Qed.

Lemma filter_above (lo n b : Z) :
  lo - 1 <= b -> b < lo + n -> List.filter (fun x => negb (x <=? b)) (seqZ lo n) = seqZ (b + 1) (lo + n - (b + 1)).
Proof.
  intros H1 H2. replace n with ((b + 1 - lo) + (lo + n - (b + 1))) at 1 by lia. rewrite seqZ_app by lia. rewrite List.filter_app.
  replace (lo + (b + 1 - lo)) with (b + 1) by lia. rewrite (proj2 (filter_nil _ (seqZ lo _))), List.forallb_filter_id; [done|apply forallb_forall|]; intros x Hx.
  - apply list_elem_of_In, elem_of_seqZ in Hx. apply negb_true_iff, Z.leb_gt. lia.
  - apply list_elem_of_In, elem_of_seqZ in Hx. apply negb_false_iff, Z.leb_le. lia.
Qed.

Lemma filter_map {A B : Type} (f : A -> B) (p : B -> bool) (l : list A) : map f (List.filter (fun x => p (f x)) l) = List.filter p (map f l).
Proof. induction l as [|a l IH]; cbn; [done|]. destruct (p (f a)); cbn; by rewrite IH. Qed.

Lemma min_of_seqZ (lo n : Z) : min_of (seqZ lo n) = if 0 <? n then Some lo else None.
Proof.
  destruct (0 <? n) eqn:E; bsimpl; [|by rewrite seqZ_nil]. rewrite seqZ_cons by done. cbn. f_equal.
  assert (forall l z, (forall x, In x l -> z <= x) -> fold_left Z.min l z = z) as H.
  { induction l as [|x l IH]; intros z Hz; cbn; [done|]. rewrite Z.min_l by (apply Hz; by left). apply IH. intros y Hy. apply Hz. by right. }
  apply H. intros x Hx%list_elem_of_In%elem_of_seqZ. lia.
Qed.

(** What is left of the events of [id] after dropping those up to [b]. *)
Lemma events_pruned (id k : string) (b : Z) (j : Journal) :
  let j' := set_events (List.filter (fun e => negb (of_run id e && (er_sequence e <=? b))) (j_events j)) j in
  map er_sequence (events_of k j') = if id =s k then List.filter (fun x => negb (x <=? b)) (map er_sequence (events_of k j)) else map er_sequence (events_of k j).
Proof.
  cbn. unfold events_of. cbn. generalize (j_events j) as l. intros l. destruct (id =s k) eqn:E.
  - apply String.eqb_eq in E as <-. rewrite <- filter_map. f_equal. induction l as [|e l IH]; cbn; [done|].
    destruct (of_run id e) eqn:Eo; cbn; [|by rewrite Eo]. destruct (er_sequence e <=? b); cbn; [done|]. by rewrite Eo, IH.
  - f_equal. induction l as [|e l IH]; cbn; [done|]. destruct (of_run k e) eqn:Eo; [|destruct (negb _); cbn; by rewrite ?Eo].
    assert (of_run id e = false) as ->; [|cbn; by rewrite Eo, IH]. unfold of_run in *. apply String.eqb_eq in Eo as ->. by rewrite String.eqb_sym.
Qed.

#[global] Instance log_pruneRunEvents (id : string) (keep : Z) : Holds log_ok (pruneRunEvents id keep).
Proof.
  intros j Hj. unfold pruneRunEvents. run_journal. destruct (j_closed j); cbn; [done|]. destruct (0 <=? keep); cbn; [|done].
  destruct (sort_desc _ !! _) as [b|] eqn:Eb; [|done]. cbn. pose proof (events_pruned id) as Hev. cbn in Hev.
  set (j' := set_events _ j). specialize (fun k => Hev k b j). fold j' in Hev. pose proof (Hj id) as Hid.
  apply list_elem_of_lookup_2 in Eb. rewrite sort_desc_perm, list_elem_of_In in Eb. destruct (runRow id j) as [r|] eqn:Er; [|by rewrite Hid in Eb].
  destruct Hid as (Hrid & lo & Hlo & Hle & Hs). rewrite Hs in Eb. apply list_elem_of_In, elem_of_seqZ in Eb.
  specialize (Hev id) as Hevi. rewrite String.eqb_refl, Hs, filter_above in Hevi by lia.
  replace (lo + (rn_last_sequence r + 1 - lo) - (b + 1)) with (rn_last_sequence r + 1 - (b + 1)) in Hevi by lia.
  rewrite Hevi, min_of_seqZ. intros k. destruct (decide (k = id)) as [->|Hne].
  - destruct (0 <? rn_last_sequence r + 1 - (b + 1)) eqn:E0; bsimpl; cbn; unfold runRow in *; cbn.
    + rewrite lookup_alter_eq, Er. cbn. split; [done|]. exists (b + 1). split; [lia|]. split; [lia|exact Hevi].
    + rewrite Er. split; [done|]. exists (b + 1). split; [lia|]. split; [lia|exact Hevi].
  - specialize (Hj k). specialize (Hev k). rewrite (proj2 (String.eqb_neq id k) (not_eq_sym Hne)) in Hev.
    destruct (0 <? _); cbn; unfold runRow in *; cbn; rewrite ?lookup_alter_ne by done; destruct (j_runs j !! k) as [q|]; try (by rewrite <- Hev in Hj);
      (apply (List.map_eq_nil er_sequence); unfold events_of in *; rewrite Hj in Hev; exact Hev).
Qed.

Lemma filter_comm {A : Type} (p q : A -> bool) (l : list A) : List.filter p (List.filter q l) = List.filter q (List.filter p l).
Proof. induction l as [|a l IH]; cbn; [done|]. destruct (p a) eqn:Ep, (q a) eqn:Eq; cbn; rewrite ?Ep, ?Eq, IH; done. Qed.

Lemma of_run_events (id : string) (e : EventRow) (j : Journal) : In e (events_of id j) -> er_remote_run_id e = id.
Proof. intros [_ H]%List.filter_In. by apply String.eqb_eq. Qed.

#[global] Instance log_pruneTerminalRuns (t : string) : Holds log_ok (pruneTerminalRuns t).
Proof.
  intros j Hj. unfold pruneTerminalRuns. run_journal. destruct (j_closed j); cbn; [done|].
  intros k. specialize (Hj k). unfold runRow, events_of in *. cbn. rewrite filter_comm. fold (events_of k j) in *. rewrite map_lookup_filter.
  assert (forall r, j_runs j !! k = Some r -> forall e, In e (events_of k j) -> negb (expired_run t j (er_remote_run_id e)) = negb (expired t r)) as Hg.
  { intros r Hr e He%of_run_events. unfold expired_run, runRow. by rewrite He, Hr. }
  destruct (j_runs j !! k) as [r|] eqn:Er; cbn; [|by rewrite Hj]. specialize (Hg r eq_refl). case_guard as Hd; cbn in *.
  - rewrite List.forallb_filter_id; [done|]. apply forallb_forall. intros e He. by rewrite (Hg e He), Hd.
  - apply filter_nil. intros e He. rewrite (Hg e He). by destruct (expired t r).
Qed.

Lemma log_appended (now id : string) (e : NodeRunEventInput) (ev : NodeRunEvent) (j j' : Journal) : appended now id e ev j j' -> log_ok j -> log_ok j'.
Proof.
  intros (j1 & r & t & He & Hr & _ & _ & _ & ->) Hj. apply (log_same (logged now id (rn_last_sequence r + 1) e t j1)); [split; [done|]|].
  - intros k. by destruct (runRow k _).
  - apply logged_ok; [done|]. eapply log_same; [by eapply ensured_log|done].
Qed.

Lemma log_step (sha : string -> string) (o : option NodeRunEvent) (j j' : Journal) : journal_step sha j o j' -> log_ok j -> log_ok j'.
Proof.
  intros H Hj. destruct H; try (match goal with |- log_ok (snd (?m ?j)) => let H := fresh in assert (Holds log_ok m) as H by hold; exact (H j Hj) end); try exact Hj.
  - pose proof (append_spec now id e j) as H. destruct (append now id e j) as [[ev|c] j']; [by eapply log_appended|].
    destruct H as [->|H]; [done|]. eapply log_same; [by eapply ensured_log|done].
  - pose proof (appendAt_spec now id seq e j) as H. destruct (appendAt now id seq e j) as [[[ev []]|c] j']; cbn.
    + eapply log_same; [eapply ensured_log, H|done].
    + by eapply log_appended; [apply H|].
    + destruct H as [->|H]; [done|]. eapply log_same; [by eapply ensured_log|done].
  - unfold close, update. cbn. by destruct (j_closed j).
Qed.

(** ** The feed of a subscription *)

(** [s] was offered the events [feed]: what it has been given is a prefix, and as long as
    it is open the rest is in its queue and a drain of the queue is scheduled. *)
Record sub_ok (id : string) (cutoff : Z) (feed : list NodeRunEvent) (s : Sub) : Prop := {
  so_run : sub_runId s = id;
  so_cutoff : sub_cutoff s = cutoff;
  so_prefix : sub_delivered s `prefix_of` feed;
  so_open : sub_closed s = false -> sub_overflowed s = false ->
    sub_registered s = true /\ sub_delivered s ++ sub_queue s = feed /\ (sub_queue s <> [] -> sub_draining s = true);
}.

Definition wants (id : string) (cutoff : Z) (ev : NodeRunEvent) : bool := (id =s ne_remote_run_id ev) && (cutoff <? ne_sequence ev).
Definition offered (id : string) (cutoff : Z) (o : option NodeRunEvent) : list NodeRunEvent :=
  match o with Some ev => if wants id cutoff ev then [ev] else [] | None => [] end.

Section Feed.
Context (id : string) (cutoff : Z) (feed : list NodeRunEvent).

Lemma sub_fanout (ev : NodeRunEvent) (s : Sub) : sub_ok id cutoff feed s -> sub_ok id cutoff (feed ++ offered id cutoff (Some ev)) (fanout_sub ev s).
Proof.
  intros [Hr Hc Hp Ho]. cbn. assert (sub_delivered s `prefix_of` feed ++ (if wants id cutoff ev then [ev] else [])) as Hp' by (etransitivity; [exact Hp|by eexists]).
  unfold fanout_sub. rewrite Hr, Hc. destruct (sub_closed s || sub_overflowed s) eqn:Ed.
  { assert (sub_closed s = false -> sub_overflowed s = false -> False) as Hx by (intros H1 H2; by rewrite H1, H2 in Ed).
    destruct (negb _); (constructor; [done..|]; intros H1 H2; by destruct (Hx H1 H2)). }
  apply orb_false_elim in Ed as [E1 E2]. destruct (Ho E1 E2) as (Hreg & Hq & Hd). rewrite Hreg. cbn [andb].
  unfold wants in *. destruct (id =s ne_remote_run_id ev); cbn [negb andb] in *; [|rewrite app_nil_r in *; by constructor].
  rewrite Z.ltb_antisym in *. destruct (ne_sequence ev <=? cutoff); cbn [negb] in *; [rewrite app_nil_r in *; by constructor|].
  destruct (sub_maxQueue s <? _); [by constructor|]. constructor; [done..|]. cbn. intros _ _. split; [done|]. split; [by rewrite app_assoc, Hq|done].
Qed.

Lemma sub_drain (s : Sub) : sub_ok id cutoff feed s -> sub_ok id cutoff feed (drain_sub s).
Proof.
  intros [Hr Hc Hp Ho]. unfold drain_sub. destruct (sub_closed s || sub_overflowed s) eqn:Ed; constructor; try done; cbn.
  - intros H1 H2. by rewrite H1, H2 in Ed.
  - apply orb_false_elim in Ed as [E1 E2]. destruct (Ho E1 E2) as (_ & -> & _). done.
  - intros H1 H2. destruct (Ho H1 H2) as (Hreg & Hq & _). by rewrite app_nil_r.
Qed.

Lemma sub_close (s : Sub) : sub_ok id cutoff feed s -> sub_ok id cutoff feed (close_sub s).
Proof. intros [Hr Hc Hp Ho]. by constructor. Qed.
End Feed.

(** The methods that have nothing to do with subscriptions. *)
#[global] Hint Extern 5 (Holds (fun j => j_subs j = _) (update _)) => (intros ? H; exact H) : typeclass_instances.

Lemma subs_ensured (now id : string) (j j' : Journal) : j' = j \/ ensured now id j j' -> j_subs j' = j_subs j.
Proof. intros [->|H]; [done|by eapply ensured_subs]. Qed.

(** The stored events of a run after a sequence number. *)
Definition stored_after (id : string) (after : Z) (j : Journal) : list EventRow := List.filter (fun r => after <? er_sequence r) (events_of id j).
Definition cutoff_of (id : string) (after : Z) (j : Journal) : Z := match runRow id j with Some r => rn_last_sequence r | None => after end.

Lemma subscribe_spec (id : string) (after : Z) (q : option Z) (j : Journal) :
  match subscribe id after q j with
  | (Ok (sid, _), j') => j_subs j !! sid = None /\ exists replay, map_result toEvent (take READ_LIMIT (sort_asc (stored_after id after j))) = Ok replay
      /\ j' = set_subs (<[sid := new_sub id (cutoff_of id after j) q replay]> (j_subs j)) j
  | (Err _, j') => j' = j
  end.
Proof.
  unfold subscribe, replayMetadata, readEvents. run_journal. destruct (j_closed j) eqn:Ec; [done|]. cbn. rewrite Ec. cbn. rewrite Ec. cbn.
  destruct (map_result toEvent (take READ_LIMIT (sort_asc (List.filter (fun r => after <? er_sequence r) (events_of id j))))) as [replay|c] eqn:E; cbn; [|done].
  split; [apply (not_elem_of_dom (D := gset nat)); exact (is_fresh (dom (j_subs j) : gset nat))|]. exists replay. split; [done|]. unfold cutoff_of. by destruct (runRow id j).
Qed.

Lemma feed_step (sha : string -> string) (o : option NodeRunEvent) (j j' : Journal) (sid : nat) (s : Sub) (id : string) (cutoff : Z) (feed : list NodeRunEvent) :
  journal_step sha j o j' -> j_subs j !! sid = Some s -> sub_ok id cutoff feed s ->
  exists s', j_subs j' !! sid = Some s' /\ sub_ok id cutoff (feed ++ offered id cutoff o) s'.
Proof.
  intros H Hs Hok. assert (forall m : Journal, j_subs m = j_subs j -> exists s', j_subs m !! sid = Some s' /\ sub_ok id cutoff (feed ++ offered id cutoff None) s') as Hsame.
  { intros m Hm. rewrite Hm. exists s. cbn. by rewrite app_nil_r. }
  assert (forall ev m, j_subs m = fanout_sub ev <$> j_subs j -> exists s', j_subs m !! sid = Some s' /\ sub_ok id cutoff (feed ++ offered id cutoff (Some ev)) s') as Hfan.
  { intros ev m Hm. rewrite Hm, lookup_fmap, Hs. exists (fanout_sub ev s). split; [done|by apply sub_fanout]. }
  destruct H; try (match goal with |- context [snd (?m ?j)] => apply Hsame; let H := fresh in assert (Holds (fun x => j_subs x = j_subs j) m) as H by hold; exact (H j eq_refl) end).
  - pose proof (append_spec now id0 e j) as H. destruct (append now id0 e j) as [[ev|c] j']; cbn; [|exact (Hsame _ (subs_ensured _ _ _ _ H))].
    destruct H as (j1 & r & t & _ & _ & _ & _ & _ & ->). by apply Hfan.
  - pose proof (appendAt_spec now id0 seq e j) as H. destruct (appendAt now id0 seq e j) as [[[ev []]|c] j']; cbn; [exact (Hsame _ (subs_ensured _ _ _ _ (or_intror (proj1 H))))| |exact (Hsame _ (subs_ensured _ _ _ _ H))].
    destruct H as [(j1 & r & t & _ & _ & _ & _ & _ & ->) _]. by apply Hfan.
  - pose proof (subscribe_spec id0 after q j) as H. destruct (subscribe id0 after q j) as [[[sid' m]|c] j']; cbn; [|apply Hsame; by rewrite H].
    destruct H as (Hfree & replay & _ & ->). cbn. rewrite app_nil_r. exists s. split; [|done]. rewrite lookup_insert_ne by congruence. done.
  - cbn. rewrite app_nil_r. destruct (decide (sid0 = sid)) as [->|Hne]; [|exists s; by rewrite lookup_insert_ne].
    rewrite lookup_insert_eq. assert (s0 = s) as -> by congruence. exists (drain_sub s). split; [done|by apply sub_drain].
  - cbn. rewrite app_nil_r. destruct (decide (sid0 = sid)) as [->|Hne]; [|exists s; by rewrite lookup_alter_ne].
    rewrite lookup_alter_eq, Hs. exists (close_sub s). split; [done|by apply sub_close].
  - cbn. rewrite app_nil_r. destruct (j_closed j); [by exists s|]. cbn. rewrite lookup_fmap, Hs. cbn. eexists. split; [done|].
    destruct (sub_registered s); [by apply sub_close|done].
Qed.

(** ** Published sequence numbers *)

(** The last event of run [id] has number [n]. *)
Definition at_last (id : string) (n : Z) (j : Journal) : Prop := exists r, runRow id j = Some r /\ rn_last_sequence r = n.

Lemma at_last_ensured (id now k : string) (n : Z) (j j' : Journal) : ensured now k j j' -> at_last id n j -> at_last id n j'.
Proof.
  intros [[-> _]|[Hn [st ->]]] (r & Hr & Hl); exists r; [done|]. split; [|done]. unfold runRow in *. cbn. rewrite lookup_insert_ne by congruence. done.
Qed.
#[global] Instance at_last_ensureRun (id : string) (n : Z) (now k st : string) : Holds (at_last id n) (ensureRun now k st).
Proof.
  intros j Hj. pose proof (ensureRun_spec now k st j) as H. destruct (ensureRun now k st j) as [[r|e] j']; [|by subst]. eapply at_last_ensured; [apply H|done].
Qed.
Lemma at_last_alter (id : string) (n : Z) (k : string) (f : RunRow -> RunRow) :
  (forall r, rn_last_sequence (f r) = rn_last_sequence r) -> Holds (at_last id n) (update_run k f).
Proof.
  intros Hf j (r & Hr & Hl). unfold runRow in *. cbn. destruct (decide (k = id)) as [->|Hne].
  - exists (f r). unfold runRow. cbn. by rewrite lookup_alter_eq, Hr, Hf.
  - exists r. unfold runRow. cbn. by rewrite lookup_alter_ne.
Qed.
#[global] Hint Extern 4 (Holds (at_last _ _) (update_run _ _)) => (apply at_last_alter; done) : typeclass_instances.
#[global] Hint Extern 5 (Holds (at_last _ _) (update _)) => (intros ? H; exact H) : typeclass_instances.

Definition by_run (id : string) (ev : NodeRunEvent) : bool := ne_remote_run_id ev =s id.

Lemma at_last_appended (now k id : string) (e : NodeRunEventInput) (ev : NodeRunEvent) (n : Z) (j j' : Journal) :
  appended now k e ev j j' -> at_last id n j -> if by_run id ev then ne_sequence ev = n + 1 /\ at_last id (n + 1) j' else at_last id n j'.
Proof.
  intros (j1 & r & t & He & Hr & _ & -> & _ & ->) Hl. apply (at_last_ensured _ _ _ _ _ _ He) in Hl as (q & Hq & <-). unfold by_run, at_last, runRow in *. cbn.
  destruct (k =s id) eqn:E.
  - apply String.eqb_eq in E as ->. assert (q = r) as -> by congruence. split; [done|]. rewrite lookup_alter_eq, Hr. cbn. eauto.
  - apply String.eqb_neq in E. rewrite lookup_alter_ne by done. eauto.
Qed.

Lemma at_last_step (sha : string -> string) (o : option NodeRunEvent) (j j' : Journal) (id : string) (n : Z) :
  journal_step sha j o j' -> at_last id n j ->
  match o with Some ev => if by_run id ev then ne_sequence ev = n + 1 /\ at_last id (n + 1) j' else at_last id n j' | None => at_last id n j' end.
Proof.
  intros H Hj. destruct H; try (match goal with |- at_last _ _ (snd (?m ?j)) => let H := fresh in assert (Holds (at_last id n) m) as H by hold; exact (H j Hj) end); try exact Hj.
  - pose proof (append_spec now id0 e j) as H. destruct (append now id0 e j) as [[ev|c] j']; cbn; [by eapply at_last_appended|].
    destruct H as [->|H]; [done|by eapply at_last_ensured].
  - pose proof (appendAt_spec now id0 seq e j) as H. destruct (appendAt now id0 seq e j) as [[[ev []]|c] j']; cbn.
    + eapply at_last_ensured; [apply H|done].
    + eapply at_last_appended; [apply H|done].
    + destruct H as [->|H]; [done|by eapply at_last_ensured].
  - unfold close, update. cbn. by destruct (j_closed j).
Qed.

Lemma trace_sequences (sha : string -> string) (tr : list NodeRunEvent) (j j' : Journal) (id : string) (n : Z) :
  journal_trace sha j tr j' -> at_last id n j ->
  exists m, n <= m /\ at_last id m j' /\ map ne_sequence (List.filter (by_run id) tr) = seqZ (n + 1) (m - n).
Proof.
  intros H. revert n. induction H as [j|j o j1 tr j2 Hs _ IH]; intros n Hn; [exists n; rewrite seqZ_nil by lia; done|].
  apply (at_last_step _ _ _ _ _ _ Hs) in Hn. destruct o as [ev|]; [|by apply IH]. cbn. destruct (by_run id ev); [|by apply IH].
  destruct Hn as [Hev Hn]. destruct (IH _ Hn) as (m & Hm & Hl & Hseq). exists m. split; [lia|]. split; [done|]. cbn.
  rewrite Hseq, Hev, (seqZ_cons (n + 1)) by lia. f_equal. f_equal; lia.
Qed.

Lemma feed_trace (sha : string -> string) (tr : list NodeRunEvent) (j j' : Journal) (sid : nat) (s : Sub) (id : string) (cutoff : Z) (feed : list NodeRunEvent) :
  journal_trace sha j tr j' -> j_subs j !! sid = Some s -> sub_ok id cutoff feed s ->
  exists s', j_subs j' !! sid = Some s' /\ sub_ok id cutoff (feed ++ List.filter (wants id cutoff) tr) s'.
Proof.
  intros H. revert s feed. induction H as [j|j o j1 tr j2 Hs _ IH]; intros s feed Hsub Hok; [exists s; cbn; by rewrite app_nil_r|].
  destruct (feed_step _ _ _ _ _ _ _ _ _ Hs Hsub Hok) as (s1 & Hs1 & Hok1). destruct (IH _ _ Hs1 Hok1) as (s2 & Hs2 & Hok2).
  exists s2. split; [done|]. rewrite <- app_assoc in Hok2. destruct o as [ev|]; cbn in *; [|done]. by destruct (wants id cutoff ev).
Qed.

(** ** Replay *)

Lemma filter_after (lo n b : Z) :
  0 <= n -> List.filter (fun x => b <? x) (seqZ lo n) = seqZ (Z.min (Z.max lo (b + 1)) (lo + n)) (lo + n - Z.min (Z.max lo (b + 1)) (lo + n)).
Proof.
  intros Hn. assert (forall x, (b <? x) = negb (x <=? b)) as Hx by (intros x; apply Z.ltb_antisym).
  rewrite (List.filter_ext _ _ Hx). destruct (decide (b < lo - 1)); [|destruct (decide (b < lo + n))].
  - rewrite List.forallb_filter_id; [f_equal; lia|]. apply forallb_forall. intros x Hi%list_elem_of_In%elem_of_seqZ. apply negb_true_iff, Z.leb_gt. lia.
  - rewrite filter_above by lia. f_equal; lia.
  - rewrite (seqZ_nil (Z.min _ _)) by lia. apply filter_nil.
    intros x Hi%list_elem_of_In%elem_of_seqZ. apply negb_false_iff, Z.leb_le. lia.
Qed.

Lemma sort_asc_seqZ (l : list EventRow) (lo n : Z) : map er_sequence l = seqZ lo n -> sort_asc l = l.
Proof.
  revert lo n. induction l as [|r l IH]; intros lo n H; cbn; [done|]. destruct (decide (0 < n)); [|by rewrite seqZ_nil in H by lia].
  rewrite seqZ_cons in H by done. injection H as Hr Hl. fold (sort_asc l). rewrite (IH _ _ Hl). destruct l as [|x l]; cbn; [done|].
  destruct (decide (1 < n)); [|by rewrite seqZ_nil in Hl by lia]. rewrite seqZ_cons in Hl by lia. injection Hl as Hx _.
  assert (er_sequence r <=? er_sequence x = true) as -> by (apply Z.leb_le; lia). done.
Qed.

Lemma replay_sequences (l : list EventRow) (evs : list NodeRunEvent) : map_result toEvent l = Ok evs -> map ne_sequence evs = map er_sequence l.
Proof.
  revert evs. induction l as [|r l IH]; intros evs H; cbn in *; [by injection H as <-|]. unfold toEvent at 1 in H. cbn in H.
  destruct (decodeJson _ _); cbn in H; [|done]. destruct (map_result toEvent l) as [bs|]; cbn in H; [|done]. injection H as <-. cbn. by rewrite (IH bs).
Qed.

Lemma reachable_log (sha : string -> string) (j : Journal) : journal_reachable sha j -> log_ok j.
Proof. induction 1 as [|j o j' _ IH Hs|t j _ IH]; [by intros id|by eapply log_step|by apply log_pruneTerminalRuns]. Qed.

Lemma at_last_subs (id : string) (n : Z) (m : gmap nat Sub) (j : Journal) : at_last id n (set_subs m j) <-> at_last id n j.
Proof. done. Qed.

(** C23. A subscription to a run of the journal is an exact tail of the run's log, as far
    as its replay reaches.  Whatever happens to the journal after the subscription (appends,
    other subscriptions, drains, pruning of events, a close), the consumer is given the first
    READ_LIMIT (100,000) of the retained events after its cursor followed by the events
    published since, in order and without repetition: always a prefix of that feed, and
    together with the queue all of it as long as the subscription is open.  When no more than
    READ_LIMIT retained events follow the cursor the sequence numbers of the feed are
    consecutive up to the last of the run, so there is no gap; the retained events beyond that
    limit are never delivered. *)
Theorem subscription_exact (sha : string -> string) (j j1 j2 : Journal) (id : string) (after : Z) (q : option Z) (sid : nat)
    (meta : option ReplayMetadata) (r : RunRow) (tr : list NodeRunEvent) :
  journal_reachable sha j -> runRow id j = Some r -> subscribe id after q j = (Ok (sid, meta), j1) -> journal_trace sha j1 tr j2 ->
  exists s replay lo last, j_subs j2 !! sid = Some s /\ map_result toEvent (take READ_LIMIT (stored_after id after j)) = Ok replay
    /\ let feed := replay ++ List.filter (by_run id) tr in
       sub_delivered s `prefix_of` feed
       /\ (sub_closed s = false -> sub_overflowed s = false -> sub_delivered s ++ sub_queue s = feed)
       /\ rn_earliest_retained_sequence r <= lo /\ rn_last_sequence r <= last /\ at_last id last j2
       /\ let start := Z.min (Z.max lo (after + 1)) (rn_last_sequence r + 1) in
          map ne_sequence feed = take READ_LIMIT (seqZ start (rn_last_sequence r + 1 - start)) ++ seqZ (rn_last_sequence r + 1) (last - rn_last_sequence r)
          /\ ((List.length (stored_after id after j) <= READ_LIMIT)%nat -> map ne_sequence feed = seqZ start (last + 1 - start)).
Proof.
  intros Hj Hr Hsub Htr. pose proof (subscribe_spec id after q j) as Hs. rewrite Hsub in Hs. destruct Hs as (_ & replay & Hrep & ->).
  pose proof (reachable_log sha j Hj id) as Hlog. rewrite Hr in Hlog. destruct Hlog as (_ & lo & Hlo & Hle & Hseq).
  assert (map er_sequence (stored_after id after j) = seqZ (Z.min (Z.max lo (after + 1)) (rn_last_sequence r + 1)) (rn_last_sequence r + 1 - Z.min (Z.max lo (after + 1)) (rn_last_sequence r + 1))) as Hst.
  { unfold stored_after. rewrite (filter_map er_sequence (fun x => after <? x)), Hseq, filter_after by lia. f_equal; lia. }
  rewrite (sort_asc_seqZ _ _ _ Hst) in Hrep.
  assert (at_last id (rn_last_sequence r) (set_subs (<[sid := new_sub id (cutoff_of id after j) q replay]> (j_subs j)) j)) as Hat by by exists r.
  destruct (trace_sequences _ _ _ _ _ _ Htr Hat) as (last & Hge & Hlast & Htseq).
  assert (cutoff_of id after j = rn_last_sequence r) as Hcut by (unfold cutoff_of; by rewrite Hr). rewrite Hcut in Htr.
  assert (sub_ok id (rn_last_sequence r) replay (new_sub id (rn_last_sequence r) q replay)) as Hok by (constructor; cbn; try done; intros _ _; by rewrite app_nil_r).
  destruct (feed_trace _ _ _ _ sid _ _ _ _ Htr (lookup_insert_eq _ _ _) Hok) as (s & Hs & [_ _ Hp Ho]).
  assert (List.filter (wants id (rn_last_sequence r)) tr = List.filter (by_run id) tr) as Hw.
  { apply List.filter_ext_in. intros ev Hin. unfold wants, by_run. rewrite String.eqb_sym. destruct (_ =s _) eqn:E; [|done]. cbn. apply Z.ltb_lt.
    assert (In (ne_sequence ev) (map ne_sequence (List.filter (by_run id) tr))) as Hi by (apply in_map, List.filter_In; by split).
    rewrite Htseq in Hi. apply list_elem_of_In, elem_of_seqZ in Hi. lia. }
  rewrite Hw in *. exists s, replay, lo, last. split; [done|]. split; [done|]. cbv zeta. split; [done|]. split; [by intros H1 H2; apply Ho|].
  split; [lia|]. split; [done|]. split; [done|]. rewrite map_app, (replay_sequences _ _ Hrep), <- firstn_map, Hst, Htseq.
  set (start := Z.min _ _) in *. split; [done|]. intros Hlim. rewrite <- (length_map er_sequence), Hst in Hlim. rewrite firstn_all2 by done.
  replace (last + 1 - start) with ((rn_last_sequence r + 1 - start) + (last - rn_last_sequence r)) by lia.
  rewrite (seqZ_app start) by lia. do 2 f_equal. lia.
Qed.

Definition demo_log (text : string) (terminal : bool) : NodeRunEventInput :=
  {| ni_type := if terminal then "status" else "log"; ni_timestamp := "2026-01-01T00:00:00.000Z"; ni_payload := VObj [("text", VStr text)];
     ni_terminal := terminal; ni_status := None |}.
Definition demo_now : string := "2026-01-01T00:00:00.000Z".
Definition demo_journal : Journal := snd (append demo_now "run" (demo_log "b" false) (snd (append demo_now "run" (demo_log "a" false) empty_journal))).
Definition demo_subscribed : Journal := snd (subscribe "run" 0 None demo_journal).
Definition demo_more : Journal := snd (append demo_now "run" (demo_log "c" true) demo_subscribed).
Definition demo_published : list NodeRunEvent :=
  Eval vm_compute in match fst (append demo_now "run" (demo_log "c" true) demo_subscribed) with Ok ev => [ev] | Err _ => [] end.
Definition demo_run : RunRow := Eval vm_compute in default (new_run "" "" "") (runRow "run" demo_journal).
Definition no_hash (s : string) : string := "".

Lemma demo_reachable : journal_reachable no_hash demo_journal.
Proof. eapply jr_step; [eapply jr_step; [apply jr_empty|apply (js_append no_hash demo_now "run" (demo_log "a" false))]|apply (js_append no_hash demo_now "run" (demo_log "b" false))]. Qed.

Lemma subscription_exact_witness :
  (List.length (stored_after "run" 0 demo_journal) <= READ_LIMIT)%nat
  /\ exists s replay last, j_subs demo_more !! 0%nat = Some s /\ at_last "run" last demo_more
    /\ sub_delivered s `prefix_of` replay ++ List.filter (by_run "run") demo_published
    /\ exists start, map ne_sequence (replay ++ List.filter (by_run "run") demo_published) = seqZ start (last + 1 - start).
Proof.
  assert (List.length (stored_after "run" 0 demo_journal) <= READ_LIMIT)%nat as Hl
    by (apply Nat2Z.inj_le; unfold READ_LIMIT; rewrite Z2Nat.id by lia; vm_compute; discriminate).
  split; [exact Hl|].
  destruct (subscription_exact no_hash demo_journal demo_subscribed demo_more "run" 0 None 0%nat
      (match fst (subscribe "run" 0 None demo_journal) with Ok (_, m) => m | Err _ => None end) demo_run demo_published)
    as (s & replay & lo & last & Hs & _ & Hp & _ & _ & _ & Hlast & _ & Hseq).
  - apply demo_reachable.
  - vm_compute. reflexivity.
  - vm_compute. reflexivity.
  - apply (jt_step _ _ _ _ _ _ (js_append no_hash demo_now "run" (demo_log "c" true) demo_subscribed) (jt_nil _ _)).
  - exists s, replay, last. split; [exact Hs|]. split; [exact Hlast|]. split; [exact Hp|]. eexists. exact (Hseq Hl).
Defined.

(** ** Delivery *)

(** Every open subscription is registered and has its drain scheduled when events wait. *)
Definition subs_scheduled (j : Journal) : Prop := forall sid s, j_subs j !! sid = Some s ->
  sub_ok (sub_runId s) (sub_cutoff s) (sub_delivered s ++ sub_queue s) s.

Lemma step_subs_dom (sha : string -> string) (o : option NodeRunEvent) (j j' : Journal) (sid : nat) (s' : Sub) :
  journal_step sha j o j' -> j_subs j' !! sid = Some s' -> is_Some (j_subs j !! sid) \/ exists id c q l, s' = new_sub id c q l.
Proof.
  intros H Hs. assert (j_subs j' = j_subs j -> is_Some (j_subs j !! sid)) as Hsame by (intros <-; eauto).
  assert (forall ev, j_subs j' = fanout_sub ev <$> j_subs j -> is_Some (j_subs j !! sid)) as Hfan.
  { intros ev E. rewrite E, lookup_fmap in Hs. by destruct (j_subs j !! sid). }
  destruct H; try (match type of Hs with context [snd (?m ?j)] => left; apply Hsame; let H := fresh in assert (Holds (fun x => j_subs x = j_subs j) m) as H by hold; exact (H j eq_refl) end).
  - left. pose proof (append_spec now id e j) as H. destruct (append now id e j) as [[ev|c] j']; cbn in *; [|exact (Hsame (subs_ensured _ _ _ _ H))].
    destruct H as (j1 & r & t & _ & _ & _ & _ & _ & ->). by eapply Hfan.
  - left. pose proof (appendAt_spec now id seq e j) as H. destruct (appendAt now id seq e j) as [[[ev []]|c] j']; cbn in *;
      [exact (Hsame (subs_ensured _ _ _ _ (or_intror (proj1 H))))| |exact (Hsame (subs_ensured _ _ _ _ H))].
    destruct H as [(j1 & r & t & _ & _ & _ & _ & _ & ->) _]. by eapply Hfan.
  - pose proof (subscribe_spec id after q j) as H. destruct (subscribe id after q j) as [[[sid' m]|c] j']; cbn in *; [|left; apply Hsame; by rewrite H].
    destruct H as (_ & replay & _ & ->). cbn in Hs. apply lookup_insert_Some in Hs as [[_ <-]|[_ Hs]]; [right; eauto 10|left; eauto].
  - left. cbn in Hs. apply lookup_insert_Some in Hs as [[<- _]|[_ Hs]]; eauto.
  - left. cbn in Hs. destruct (decide (sid0 = sid)) as [->|Hne]; [rewrite lookup_alter_eq in Hs; by destruct (j_subs j !! sid)|rewrite lookup_alter_ne in Hs by done; eauto].
  - left. cbn in Hs. destruct (j_closed j); [eauto|]. cbn in Hs. rewrite lookup_fmap in Hs. by destruct (j_subs j !! sid).
Qed.

Lemma sub_ok_self (id : string) (c : Z) (feed : list NodeRunEvent) (s : Sub) : sub_ok id c feed s -> sub_ok (sub_runId s) (sub_cutoff s) (sub_delivered s ++ sub_queue s) s.
Proof. intros [Hr Hc Hp Ho]. constructor; [done|done|by eexists|]. intros H1 H2. destruct (Ho H1 H2) as (? & _ & ?). done. Qed.

Lemma scheduled_step (sha : string -> string) (o : option NodeRunEvent) (j j' : Journal) : journal_step sha j o j' -> subs_scheduled j -> subs_scheduled j'.
Proof.
  intros H Hj sid s' Hs'. destruct (step_subs_dom _ _ _ _ _ _ H Hs') as [[s Hs]|(id & c & q & l & ->)].
  - destruct (feed_step _ _ _ _ _ _ _ _ _ H Hs (Hj _ _ Hs)) as (s2 & Hs2 & Hok). assert (s2 = s') as -> by congruence. by eapply sub_ok_self.
  - apply (sub_ok_self id c l). constructor; cbn; try done. intros _ _. by rewrite app_nil_r.
Qed.

Lemma reachable_scheduled (sha : string -> string) (j : Journal) : journal_reachable sha j -> subs_scheduled j.
Proof.
  induction 1 as [|j o j' _ IH Hs|t j _ IH]; [by intros sid s|by eapply scheduled_step|].
  assert (Holds (fun x => j_subs x = j_subs j) (pruneTerminalRuns t)) as Hh by hold. specialize (Hh j eq_refl). cbn beta in Hh. unfold subs_scheduled. by rewrite Hh.
Qed.

(** Waiting events are delivered: whenever an open subscription has events in its
    queue, a drain is scheduled, and running it hands exactly those events to the consumer
    in order, leaving the queue empty and the subscription open. *)
Theorem waiting_events_delivered (sha : string -> string) (j : Journal) (sid : nat) (s : Sub) :
  journal_reachable sha j -> j_subs j !! sid = Some s -> sub_closed s = false -> sub_overflowed s = false -> sub_queue s <> [] ->
  exists j' s', journal_step sha j None j' /\ j_subs j' !! sid = Some s' /\ sub_delivered s' = sub_delivered s ++ sub_queue s
    /\ sub_queue s' = [] /\ sub_closed s' = false /\ sub_overflowed s' = false.
Proof.
  intros Hj Hs Hc Ho Hq. destruct (so_open _ _ _ _ (reachable_scheduled sha j Hj sid s Hs) Hc Ho) as (_ & _ & Hd).
  eexists _, (drain_sub s). split; [apply (js_drain _ sid s); [done|by apply Hd]|]. cbn. rewrite lookup_insert_eq. split; [done|].
  unfold drain_sub. by rewrite Hc, Ho.
Qed.

Definition demo_sub : Sub := Eval vm_compute in default (new_sub "" 0 None []) (j_subs demo_more !! 0%nat).
Lemma waiting_events_delivered_witness :
  exists j' s', journal_step no_hash demo_more None j' /\ j_subs j' !! 0%nat = Some s' /\ sub_delivered s' = sub_delivered demo_sub ++ sub_queue demo_sub
    /\ sub_queue s' = [] /\ sub_closed s' = false /\ sub_overflowed s' = false.
Proof.
  apply (waiting_events_delivered no_hash demo_more 0%nat demo_sub).
  - eapply jr_step; [eapply jr_step; [apply demo_reachable|apply (js_subscribe no_hash "run" 0 None)]|apply (js_append no_hash demo_now "run" (demo_log "c" true))].
  - vm_compute. reflexivity.
  - reflexivity.
  - reflexivity.
  - discriminate.
Defined.
