(* ===== verification/Workspace.v ===== *)
(** * The Node's filesystem boundary and repository policy
      (src/workspace.ts, src/repo-policy.ts)

    POSIX [path] functions work on the list of segments of a path.  The filesystem is a
    parameter: what [realpathSync], [statSync] and [existsSync] answer at the time of the
    call ([None]: they throw).  Case folding is ASCII. *)

From S2P Require Import Prelude Values Contract Templates Verification Validator Outputs.

(** ** node:path, POSIX *)

Fixpoint split_char (c : ascii) (s : string) : list string :=
  match s with
  | EmptyString => [EmptyString]
  | String a r =>
      if Ascii.eqb a c then EmptyString :: split_char c r
      else match split_char c r with h :: t => String a h :: t | [] => [String a EmptyString] end
  end.
Fixpoint join_with (sep : string) (l : list string) : string :=
  match l with [] => "" | [x] => x | x :: t => x +:+ sep +:+ join_with sep t end.

Definition nonempty (s : string) : bool := negb (s =s "").
Definition isAbsolute (p : string) : bool := starts_with "/" p.
(** The segments of a path, ["."] and [".."] resolved; [".."] at the root stays there. *)
Definition push_segment (acc : list string) (s : string) : list string :=
  if (s =s "") || (s =s ".") then acc else if s =s ".." then tl acc else s :: acc.
Definition segments (p : string) : list string := rev (fold_left push_segment (split_char "/" p) []).
Definition render (l : list string) : string := "/" +:+ join_with "/" l.
(** [path.resolve(base, p)] for an absolute [base]. *)
Definition path_resolve (base p : string) : string := render (if isAbsolute p then segments p else segments (base +:+ "/" +:+ p)).

Fixpoint strip_common (a b : list string) : list string * list string :=
  match a, b with
  | x :: a', y :: b' => if x =s y then strip_common a' b' else (a, b)
  | _, _ => (a, b)
  end.
(** [path.relative(from, to)] for absolute paths. *)
Definition path_relative (from to : string) : string :=
  let '(up, down) := strip_common (segments from) (segments to) in join_with "/" (map (fun _ => "..") up ++ down).

(** ** Directories *)

Record Fs : Type := {
  fs_realpath : string -> option string;
  fs_isDirectory : string -> option bool;
  fs_exists : string -> bool }.

(** [deny] messages are left out: every refusal is [cwd_not_allowed]. *)
Definition is_directory (fs : Fs) (p : string) : bool := match fs_isDirectory fs p with Some b => b | None => false end.
Definition under (cwd root : string) : bool := (cwd =s root) || starts_with (root +:+ "/") cwd.

Definition authorizes (fs : Fs) (realCwd root : string) : bool :=
  nonempty root && isAbsolute root
  && match fs_realpath fs root with Some realRoot => is_directory fs realRoot && under realCwd realRoot | None => false end.

Definition resolveAllowedCwd (fs : Fs) (cwd : value) (allowedRoots : list string) : option string :=
  match cwd with
  | VStr c =>
      if (c =s "") || negb (isAbsolute c) then None else
      if Nat.eqb (List.length allowedRoots) 0 then None else
      match fs_realpath fs c with
      | None => None
      | Some realCwd => if is_directory fs realCwd && existsb (authorizes fs realCwd) allowedRoots then Some realCwd else None
      end
  | _ => None
  end.

Definition validAllowedCwdRoots (fs : Fs) (allowedRoots : list string) : list string :=
  List.filter (fun root => nonempty root && isAbsolute root
    && match fs_realpath fs root with Some r => is_directory fs r | None => false end) allowedRoots.

Definition CWD_CAPABILITY : string := "cwd".
Definition withCwdCapability (fs : Fs) (base allowedRoots : list string) : list string :=
  if negb (Nat.eqb (List.length (validAllowedCwdRoots fs allowedRoots)) 0) && negb (CWD_CAPABILITY ∈b base) then base ++ [CWD_CAPABILITY] else base.

Inductive workspace_error : Type := invalid_workspace_key | filesystem_error.

Definition escapes (rel : string) : bool := (rel =s "") || starts_with ".." rel || isAbsolute rel.

(** The filesystem is the one after the root was created. *)
Definition resolveContainedWorkspace (fs : Fs) (key root : string) : result workspace_error string :=
  if negb (WORKSPACE_KEY_RE key) then Err invalid_workspace_key else
  match fs_realpath fs root with
  | None => Err filesystem_error
  | Some realRoot =>
      let resolved := path_resolve realRoot key in
      if escapes (path_relative realRoot resolved) then Err invalid_workspace_key else
      if fs_exists fs resolved then
        match fs_realpath fs resolved with
        | None => Err filesystem_error
        | Some real => if escapes (path_relative realRoot real) then Err invalid_workspace_key else Ok resolved
        end
      else Ok resolved
  end.

(** ** Repository URLs *)

Definition lower (c : ascii) : ascii := if is_upper c then ascii_of_N (N_of_ascii c + 32) else c.
Fixpoint lower_string (s : string) : string := match s with EmptyString => EmptyString | String c r => String (lower c) (lower_string r) end.

(** The longest prefix of characters in the class, and the rest. *)
Fixpoint span (p : ascii -> bool) (s : string) : string * string :=
  match s with
  | String c r => if p c then let '(a, b) := span p r in (String c a, b) else (EmptyString, s)
  | EmptyString => (EmptyString, EmptyString)
  end.
(** [/^[class]+<c>/]: the text of the class and what follows the character. *)
Definition token (p : ascii -> bool) (c : ascii) (s : string) : option (string * string) :=
  let '(a, b) := span p s in
  match b with String x r => if nonempty a && Ascii.eqb x c then Some (a, r) else None | EmptyString => None end.
Definition not_in (s : string) (c : ascii) : bool := negb (is_one_of s c).

(** [/^https?:\/\/[^/@]+@/i]. *)
Definition has_credentials (s : string) : bool :=
  let after_http r := match strip_prefix "://" r with Some t => is_some (token (not_in "/@") "@" t) | None => false end in
  starts_with "http" (lower_string s)
  && (after_http (String.substring 4 (String.length s) s)
      || (starts_with "https" (lower_string s) && after_http (String.substring 5 (String.length s) s))).
(** Does [assertCleanRepoUrl] accept the URL? *)
Definition assertCleanRepoUrl (repoUrl : string) : bool := negb (has_credentials (trim repoUrl)).

Record CanonicalRepo : Type := { cr_host : string; cr_owner : string; cr_repo : string }.

(** [/^[a-z][a-z0-9+.-]*:\/\/], and what follows. *)
Definition scheme_rest (s : string) : option string :=
  match s with
  | String c _ => if is_alpha c then strip_prefix "://" (snd (span (fun c => is_alpha c || is_digit c || is_one_of "+.-" c) s)) else None
  | EmptyString => None
  end.

Definition isRemoteUrl (url : string) : bool :=
  let s := trim url in
  is_some (scheme_rest s)
  || match token (not_in "/@") "@" s with Some (_, r) => is_some (token (not_in "/:") ":" r) | None => false end.

(** [.+$]: non-empty, no line terminator. *)
Definition LS : string := of_bytes [226; 128; 168]%N.
Definition PS : string := of_bytes [226; 128; 169]%N.
Definition CR : ascii := ascii_of_N 13.
Definition NL : ascii := ascii_of_N 10.
Definition one_line (s : string) : bool :=
  nonempty s && all_chars (fun c => negb (Ascii.eqb c NL || Ascii.eqb c CR)) s && negb (contains LS s) && negb (contains PS s).

(** [host.replace(/:\d+$/, '')]. *)
Definition rev_string (s : string) : string := string_of_list_ascii (rev (list_ascii_of_string s)).
Definition drop_port (host : string) : string :=
  let '(digits, r) := span is_digit (rev_string host) in
  match r with String c h => if nonempty digits && Ascii.eqb c ":" then rev_string h else host | EmptyString => host end.
Definition drop_leading (c : ascii) (s : string) : string := snd (span (Ascii.eqb c) s).
Definition drop_trailing (c : ascii) (s : string) : string := rev_string (drop_leading c (rev_string s)).
(** [s.replace(/\.git$/i, '')]. *)
Definition drop_git (s : string) : string := match strip_prefix "tig." (lower_string (rev_string s)) with Some _ => rev_string (String.substring 4 (String.length s) (rev_string s)) | None => s end.

(** [user@host/path] without the user, as host and path. *)
Definition split_authority (rest : string) : option (string * string) :=
  let rest := match split_at_char "@" rest with
              | Some (u, r) => if contains "/" u then rest else r
              | None => rest
              end in
  match split_at_char "/" rest with Some (h, p) => Some (drop_port h, p) | None => None end.
(** [/^(?:[^/@]+@)?([^/:]+):(.+)$/]. *)
Definition host_path (s : string) : option (string * string) :=
  match token (not_in "/:") ":" s with Some (h, p) => if one_line p then Some (h, p) else None | None => None end.
Definition split_scp (s : string) : option (string * string) :=
  match match token (not_in "/@") "@" s with Some (_, r) => host_path r | None => None end with
  | Some hp => Some hp
  | None => host_path s
  end.

Definition split_remote (s : string) : option (string * string) :=
  match scheme_rest s with
  | Some rest => if one_line rest then split_authority rest else split_scp s
  | None => split_scp s
  end.

Definition canonicalizeRepo (url : string) : option CanonicalRepo :=
  match split_remote (trim url) with
  | None => None
  | Some (host, pathPart) =>
      if host =s "" then None else
      match List.filter nonempty (split_char "/" (drop_git (drop_trailing "/" (drop_leading "/" pathPart)))) with
      | owner :: ((_ :: _) as rest) => Some {| cr_host := lower_string host; cr_owner := owner; cr_repo := join_with "/" rest |}
      | _ => None
      end
  end.

(** [segmentRegex(seg).test(x)]: ["*"] is one or more characters other than ["/"]. *)
Fixpoint glob (pat s : list ascii) : bool :=
  match pat with
  | [] => match s with [] => true | _ => false end
  | p :: pat' =>
      if Ascii.eqb p "*" then
        (fix star (s : list ascii) : bool :=
           match s with c :: s' => negb (Ascii.eqb c "/") && (glob pat' s' || star s') | [] => false end) s
      else match s with c :: s' => Ascii.eqb (lower p) (lower c) && glob pat' s' | [] => false end
  end.
Definition segment_matches (seg x : string) : bool := glob (list_ascii_of_string seg) (list_ascii_of_string x).

Definition entry_allows (canon : CanonicalRepo) (raw : string) : bool :=
  match canonicalizeRepo raw with
  | Some entry => (cr_host entry =s cr_host canon) && segment_matches (cr_owner entry) (cr_owner canon) && segment_matches (cr_repo entry) (cr_repo canon)
  | None => false
  end.

Definition isRepoAllowed (url : string) (allowlist : list string) : bool :=
  if negb (isRemoteUrl url) then true else
  match canonicalizeRepo url with Some canon => existsb (entry_allows canon) allowlist | None => false end.

Definition DEFAULT_REPO_ALLOWLIST : list string := ["https://github.com/JozzyAI/*"; "git@github.com:JozzyAI/*"].

Definition resolveRepoAllowlist (env : option string) (config : list string) : list string :=
  match List.filter nonempty (map trim (split_char "," (default "" env))) with
  | [] => match config with [] => DEFAULT_REPO_ALLOWLIST | _ => config end
  | l => l
  end.

Definition repoAllowlistEnabled (flag : option string) (config : option bool) : bool :=
  match flag with
  | Some f => if (f =s "0") || (f =s "false") then false else if (f =s "1") || (f =s "true") then true else default true config
  | None => default true config
  end.

(** [s.trim().replace(/\/+$/, '').replace(/\.git$/i, '')]. *)
Definition normalizeRepoUrl (url : string) : string := drop_git (drop_trailing "/" (trim url)).

Inductive repo_error : Type := repo_url_has_credentials | repo_not_allowed | workspace_repo_mismatch.

(** The policy of one process: the environment variables and the configuration. *)
Record RepoPolicy : Type := { rp_allowlist_env : option string; rp_enforce_env : option string }.
Definition enforceRepoAllowlist (policy : RepoPolicy) (repoUrl : string) : bool :=
  negb (repoAllowlistEnabled (rp_enforce_env policy) None) || isRepoAllowed repoUrl (resolveRepoAllowlist (rp_allowlist_env policy) []).

(** [entries]: what [readdirSync] lists; [isGit]: [.git] exists; [origin]: what
    [readOriginUrl] returns. *)
Definition checkWorkspaceRepoMatch (policy : RepoPolicy) (entries : list string) (isGit : bool) (origin : option string) (repoUrl : string) : result repo_error unit :=
  if negb (assertCleanRepoUrl repoUrl) then Err repo_url_has_credentials else
  if negb (enforceRepoAllowlist policy repoUrl) then Err repo_not_allowed else
  match entries with
  | [] => Ok tt
  | _ => if negb isGit then Err workspace_repo_mismatch else
      match origin with
      | Some o => if nonempty o && (normalizeRepoUrl o =s normalizeRepoUrl repoUrl) then Ok tt else Err workspace_repo_mismatch
      | None => Err workspace_repo_mismatch
      end
  end.

(** Whether a clone is run, or the refusal. *)
Definition cloneIfEmpty (policy : RepoPolicy) (entries : list string) (isGit : bool) (origin : option string) (repoUrl : string) : result repo_error bool :=
  if negb (assertCleanRepoUrl repoUrl) then Err repo_url_has_credentials else
  if negb (enforceRepoAllowlist policy repoUrl) then Err repo_not_allowed else
  try! _u := checkWorkspaceRepoMatch policy entries isGit origin repoUrl in
  Ok (match entries with [] => true | _ => false end).
