(* ===== verification/WorkspaceProps.v ===== *)
(** * The Node's boundary holds

    Scratch workspaces stay inside the workspace root, working directories inside an
    allowed root, and repositories that the policy takes for remote inside the allowlist. *)

From S2P Require Import Prelude Values Contract Templates Verification Validator Outputs Workspace.

(** ** Paths *)

(** A path segment. *)
Definition clean (s : string) : Prop := s <> "" /\ s <> "." /\ s <> ".." /\ contains "/" s = false.

Lemma append_empty (s : string) : s +:+ "" = s.
Proof. induction s as [|c s IH]; [done|]. by rewrite append_cons, IH. Qed.
Lemma split_char_app (c : ascii) (a b : string) : split_char c (a +:+ String c b) = split_char c a ++ split_char c b.
Proof.
  induction a as [|x a IH]; [change ("" +:+ String c b) with (String c b); cbn; by rewrite Ascii.eqb_refl|]. rewrite append_cons. cbn. rewrite IH. destruct (Ascii.eqb x c); [done|].
  assert (split_char c a <> []) as Hn by (destruct a as [|y a]; cbn; [done|]; destruct (Ascii.eqb y c); [done|]; by destruct (split_char c a)).
  by destruct (split_char c a).
Qed.

Lemma split_char_none (s : string) : contains "/" s = false -> split_char "/" s = [s].
Proof.
  induction s as [|x s IH]; [done|]. cbn. unfold starts_with. cbn. rewrite (Ascii.eqb_sym "/" x). destruct (Ascii.eqb x "/"); [done|]. cbn. intros H. by rewrite IH.
Qed.

Lemma split_join (l : list string) : l <> [] -> Forall clean l -> split_char "/" (join_with "/" l) = l.
Proof.
  intros Hn H. induction H as [|s l Hs Hl IH]; [done|]. destruct Hs as (_ & _ & _ & Hs). destruct l as [|t l]; [by apply split_char_none|].
  change (join_with "/" (s :: t :: l)) with (s +:+ String "/" (join_with "/" (t :: l))). rewrite split_char_app, split_char_none, IH by done. done.
Qed.

Lemma push_clean (l acc : list string) : Forall clean l -> fold_left push_segment l acc = rev l ++ acc.
Proof.
  revert acc. induction l as [|s l IH]; intros acc H; cbn; [done|]. apply Forall_cons in H as [(H1 & H2 & H3 & _) H]. unfold push_segment at 2.
  rewrite !(proj2 (String.eqb_neq _ _)) by done. cbn. rewrite IH by done. by rewrite <- app_assoc.
Qed.

Lemma split_render (l : list string) : Forall clean l -> split_char "/" (render l) = "" :: match l with [] => [""] | _ => l end.
Proof. intros H. unfold render. change ("/" +:+ ?x) with (String "/" x). cbn. f_equal. destruct l; [done|]. by apply split_join. Qed.

Lemma segments_render (l : list string) : Forall clean l -> segments (render l) = l.
Proof. intros H. unfold segments. rewrite split_render by done. destruct l as [|s l]; [done|]. change (rev (fold_left push_segment (s :: l) []) = s :: l). rewrite push_clean by done. by rewrite app_nil_r, rev_involutive. Qed.

Lemma segments_child (l : list string) (s : string) : Forall clean l -> clean s -> segments (render l +:+ "/" +:+ s) = l ++ [s].
Proof.
  intros Hl Hs. unfold segments. change ("/" +:+ s) with (String "/" s). rewrite split_char_app, split_render, (split_char_none s) by (done || apply Hs).
  rewrite fold_left_app. assert (fold_left push_segment ("" :: match l with [] => [""] | _ => l end) [] = rev l) as ->.
  { destruct l as [|x l]; [done|]. change (fold_left push_segment (x :: l) [] = rev (x :: l)). rewrite push_clean by done. by rewrite app_nil_r. }
  cbn. unfold push_segment. destruct Hs as (H1 & H2 & H3 & _). rewrite !(proj2 (String.eqb_neq _ _)) by done. cbn. by rewrite rev_involutive.
Qed.

Lemma strip_common_spec (a b : list string) : exists p, a = p ++ fst (strip_common a b) /\ b = p ++ snd (strip_common a b).
Proof.
  revert b. induction a as [|x a IH]; intros b; [by exists []|]. destruct b as [|y b]; [by exists []|]. cbn.
  destruct (x =s y) eqn:E; [|by exists []]. apply String.eqb_eq in E as ->. destruct (IH b) as (p & H1 & H2). exists (y :: p). cbn. split; by f_equal.
Qed.

(** A relative path that does not escape is a non-empty descent. *)
Lemma relative_inside (a b : string) : escapes (path_relative a b) = false -> exists d, d <> [] /\ segments b = segments a ++ d.
Proof.
  unfold escapes, path_relative. destruct (strip_common_spec (segments a) (segments b)) as (p & Ha & Hb).
  destruct (strip_common (segments a) (segments b)) as [up down]. cbn in Ha, Hb. intros H. apply orb_false_elim in H as [H _]. apply orb_false_elim in H as [Hn Hu].
  destruct up as [|u up].
  - rewrite app_nil_r in Ha. subst p. exists down. split; [|done]. intros ->. done.
  - exfalso. cbn [map app] in Hu. destruct (map (fun _ => "..") up ++ down); [done|]. cbn in Hu. done.
Qed.

Lemma key_clean (key : string) : WORKSPACE_KEY_RE key = true -> clean key /\ isAbsolute key = false.
Proof.
  unfold WORKSPACE_KEY_RE, re_ident, clean, isAbsolute, starts_with. destruct key as [|c r]; [done|]. intros H. bsimpl.
  assert (Ascii.eqb "/" c = false) as Hc by (destruct c as [[][][][][][][][]]; done || discriminate).
  assert (Ascii.eqb "." c = false) as Hd by (destruct c as [[][][][][][][][]]; done || discriminate).
  assert (contains "/" r = false) as Hr.
  { match goal with H : all_chars _ r = true |- _ => revert H end. clear. unfold all_chars. induction r as [|x r IH]; [done|]. cbn. intros H. apply andb_prop in H as [H1 H2].
    unfold starts_with. cbn. replace (Ascii.eqb "/" x) with false by (destruct x as [[][][][][][][][]]; done || discriminate). cbn. by apply IH. }
  cbn. rewrite Hc. split; [|done]. split; [done|]. split; [intros [= -> _]; done|]. split; [intros [= -> _]; done|]. unfold starts_with. cbn. by rewrite Hc, Hr.
Qed.

(** ** Directories *)

Section Boundary.
Context (fs : Fs).

(** [realpath] returns an absolute path without empty, ["."] or [".."] segments. *)
Definition realpath_canonical : Prop := forall p r, fs_realpath fs p = Some r -> exists l, r = render l /\ Forall clean l.

(** C25. The filesystem boundary of scratch workspaces: an accepted key is one path
    segment, the directory is that segment directly under the real workspace root, and if
    it exists already its real path is inside the real root as well. *)
Theorem workspace_contained (key root path : string) :
  realpath_canonical -> resolveContainedWorkspace fs key root = Ok path ->
  exists l, fs_realpath fs root = Some (render l) /\ Forall clean (l ++ [key]) /\ path = render (l ++ [key])
    /\ (fs_exists fs path = true -> exists d, d <> [] /\ Forall clean (l ++ d) /\ fs_realpath fs path = Some (render (l ++ d))).
Proof.
  intros Hfs. unfold resolveContainedWorkspace. destruct (WORKSPACE_KEY_RE key) eqn:Ek; cbn; [|done]. destruct (key_clean key Ek) as [Hk Ha].
  destruct (fs_realpath fs root) as [r|] eqn:Er; [|done]. destruct (Hfs _ _ Er) as (l & -> & Hl).
  unfold path_resolve. rewrite Ha, segments_child by done. set (target := render (l ++ [key])).
  assert (Forall clean (l ++ [key])) as Hlk by (apply Forall_app; split; [done|constructor; [done|constructor]]).
  destruct (escapes _); [done|]. destruct (fs_exists fs target) eqn:Ex.
  - destruct (fs_realpath fs target) as [t|] eqn:Et; [|done]. destruct (escapes (path_relative _ t)) eqn:Ee; [done|]. intros [= <-].
    exists l. do 3 (split; [done|]). intros _. destruct (Hfs _ _ Et) as (m & -> & Hm). destruct (relative_inside _ _ Ee) as (d & Hd & Heq).
    rewrite !segments_render in Heq by done. subst m. by exists d.
  - intros [= <-]. exists l. do 3 (split; [done|]). by rewrite Ex.
Qed.

Lemma under_segments (l m : list string) : Forall clean l -> Forall clean m -> under (render m) (render l) = true -> exists d, m = l ++ d.
Proof.
  intros Hl Hm. unfold under, starts_with. intros H. apply orb_prop in H as [H%String.eqb_eq|H].
  - exists []. rewrite app_nil_r, <- (segments_render m), H, segments_render; done.
  - destruct (strip_prefix _ _) as [r|] eqn:E; [|done]. apply strip_prefix_Some in E. rewrite append_assoc in E.
    change ("/" +:+ r) with (String "/" r) in E. apply (f_equal (split_char "/")) in E. rewrite split_char_app, !split_render in E by done.
    cbn in E. injection E as E. destruct l as [|x l]; [destruct m as [|y m]; [by exists []|]|].
    + cbn in E. injection E as E _. apply Forall_cons in Hm as [[Hy _] _]. done.
    + destruct m as [|y m]; [|by exists (split_char "/" r)]. injection E as E _. apply Forall_cons in Hl as [[Hx _] _]. done.
Qed.

(** Working directories: an authorized directory is the real path of the requested
    one, it is a directory, and its segments extend those of the real path of an allowed
    root, so neither a symbolic link nor a sibling with the same prefix gets through. *)
Theorem cwd_authorized (cwd : value) (roots : list string) (path : string) :
  realpath_canonical -> resolveAllowedCwd fs cwd roots = Some path ->
  exists c root l d, cwd = VStr c /\ isAbsolute c = true /\ fs_realpath fs c = Some path /\ is_directory fs path = true
    /\ In root roots /\ fs_realpath fs root = Some (render l) /\ is_directory fs (render l) = true
    /\ Forall clean (l ++ d) /\ path = render (l ++ d).
Proof.
  intros Hfs. unfold resolveAllowedCwd. destruct cwd as [| | | |c| |]; try done. destruct (_ || _) eqn:Ec; [done|]. apply orb_false_elim in Ec as [_ Ha%negb_false_iff].
  destruct (Nat.eqb _ _); [done|]. destruct (fs_realpath fs c) as [real|] eqn:Er; [|done]. destruct (is_directory fs real) eqn:Ed; cbn; [|done].
  destruct (existsb _ _) eqn:Ex; [|done]. intros [= <-]. apply existsb_exists in Ex as (root & Hin & Hok). unfold authorizes in Hok. bsimpl.
  destruct (fs_realpath fs root) as [rr|] eqn:Err; [|done]. bsimpl. destruct (Hfs _ _ Err) as (l & -> & Hl). destruct (Hfs _ _ Er) as (m & -> & Hm).
  destruct (under_segments l m) as [d ->]; [done..|]. exists c, root, l, d. done.
Qed.
End Boundary.

(** A filesystem with a root, a workspace in it and a link that leaves it. *)
Definition demo_fs : Fs := {|
  fs_realpath := fun p => if p =s "/root/link" then Some "/etc" else if (p =s "/root") || (p =s "/root/ws") || (p =s "/root-evil") then Some p else None;
  fs_isDirectory := fun p => Some true;
  fs_exists := fun p => (p =s "/root") || (p =s "/root/ws") || (p =s "/root/link") |}.

Lemma demo_fs_canonical : realpath_canonical demo_fs.
Proof.
  intros p r. cbn. destruct (p =s "/root/link"); [intros [= <-]; exists ["etc"]; split; [done|]; repeat constructor; done|].
  destruct (_ || _) eqn:E; [|done]. intros [= <-]. apply orb_prop in E as [E|E%String.eqb_eq]; [apply orb_prop in E as [E%String.eqb_eq|E%String.eqb_eq]|]; subst p.
  - exists ["root"]. split; [done|]. repeat constructor; done.
  - exists ["root"; "ws"]. split; [done|]. repeat constructor; done.
  - exists ["root-evil"]. split; [done|]. repeat constructor; done.
Qed.
Example demo_fs_escapes : resolveContainedWorkspace demo_fs "link" "/root" = Err invalid_workspace_key /\ resolveAllowedCwd demo_fs (VStr "/root-evil") ["/root"] = None.
Proof. split; vm_compute; reflexivity. Qed.

Lemma workspace_contained_witness :
  exists l, fs_realpath demo_fs "/root" = Some (render l) /\ Forall clean (l ++ ["ws"]) /\ "/root/ws" = render (l ++ ["ws"])
    /\ (fs_exists demo_fs "/root/ws" = true -> exists d, d <> [] /\ Forall clean (l ++ d) /\ fs_realpath demo_fs "/root/ws" = Some (render (l ++ d))).
Proof. apply (workspace_contained demo_fs "ws" "/root" "/root/ws"); [apply demo_fs_canonical|vm_compute; reflexivity]. Defined.
Lemma cwd_authorized_witness :
  exists c root l d, VStr "/root/ws" = VStr c /\ isAbsolute c = true /\ fs_realpath demo_fs c = Some "/root/ws" /\ is_directory demo_fs "/root/ws" = true
    /\ In root ["/root"] /\ fs_realpath demo_fs root = Some (render l) /\ is_directory demo_fs (render l) = true
    /\ Forall clean (l ++ d) /\ "/root/ws" = render (l ++ d).
Proof. apply (cwd_authorized demo_fs (VStr "/root/ws") ["/root"] "/root/ws"); [apply demo_fs_canonical|vm_compute; reflexivity]. Defined.

(** ** Repositories *)

(** A pattern without a star matches the text itself, up to case. *)
Lemma glob_literal (pat s : list ascii) : forallb (fun c => negb (Ascii.eqb c "*")) pat = true -> glob pat s = true -> map lower s = map lower pat.
Proof.
  revert s. induction pat as [|p pat IH]; intros s Hp H; cbn in *; [by destruct s|]. apply andb_prop in Hp as [Hs Hp]. apply negb_true_iff in Hs. rewrite Hs in H.
  destruct s as [|c s]; [done|]. apply andb_prop in H as [H1%Ascii.eqb_eq H2]. cbn. by rewrite H1, (IH s).
Qed.

(** A star alone matches one path segment. *)
Lemma glob_star (s : list ascii) : glob ["*"%char] s = true -> s <> [] /\ forallb (fun c => negb (Ascii.eqb c "/")) s = true.
Proof.
  cbn. intros H. split; [by destruct s|]. induction s as [|c s IH]; [done|]. apply andb_prop in H as [H1 H2]. cbn. rewrite H1. cbn.
  apply orb_prop in H2 as [H2|H2]; [by destruct s|by apply IH].
Qed.

Lemma lower_string_list (s : string) : list_ascii_of_string (lower_string s) = map lower (list_ascii_of_string s).
Proof. induction s as [|c s IH]; cbn; [done|]. by rewrite IH. Qed.

Lemma string_of_list (s : string) : string_of_list_ascii (list_ascii_of_string s) = s.
Proof. apply string_of_list_ascii_of_string. Qed.

Lemma no_slash (s : string) : forallb (fun c => negb (Ascii.eqb c "/")) (list_ascii_of_string s) = true -> contains "/" s = false.
Proof.
  induction s as [|c s IH]; cbn; [done|]. intros H. apply andb_prop in H as [H1%negb_true_iff H2]. unfold starts_with. cbn. by rewrite Ascii.eqb_sym, H1, IH.
Qed.

(** A repository of the default owner. *)
Definition default_repo (url : string) : Prop := exists c, canonicalizeRepo url = Some c /\ cr_host c = "github.com" /\ lower_string (cr_owner c) = "jozzyai"
  /\ cr_repo c <> "" /\ contains "/" (cr_repo c) = false.

Lemma default_allowlist (url : string) : isRemoteUrl url = true -> isRepoAllowed url DEFAULT_REPO_ALLOWLIST = true -> default_repo url.
Proof.
  intros Hr. unfold isRepoAllowed. rewrite Hr. cbn [negb]. destruct (canonicalizeRepo url) as [c|] eqn:Ec; [|done]. intros H.
  assert ((("github.com" =s cr_host c) && segment_matches "JozzyAI" (cr_owner c) && segment_matches "*" (cr_repo c)) = true) as Hm.
  { apply existsb_exists in H as (raw & [<-|[<-|[]]] & H); exact H. }
  bsimpl. exists c. split; [done|]. split; [done|]. unfold segment_matches in *.
  split; [|match goal with H : glob (list_ascii_of_string "*") _ = true |- _ => destruct (glob_star _ H) as [Hn Hs] end; split; [intros E; by rewrite E in Hn|by apply no_slash]].
  match goal with H : glob (list_ascii_of_string "JozzyAI") _ = true |- _ => apply glob_literal in H; [|done] end.
  rewrite <- (string_of_list (lower_string (cr_owner c))), lower_string_list. match goal with H : map lower _ = _ |- _ => by rewrite H end.
Qed.

(** Under the default policy a workspace is cloned or reused only for a URL that carries no
    credentials of the form the code looks for and that it takes for a local path or parses
    as a repository of the default owner on github.com; a clone happens only into an empty
    directory, and a non-empty one is reused only if it is a checkout with the same origin. *)
Lemma clone_gated (entries : list string) (isGit : bool) (origin : option string) (url : string) (cloned : bool) :
  cloneIfEmpty {| rp_allowlist_env := None; rp_enforce_env := None |} entries isGit origin url = Ok cloned ->
  has_credentials (trim url) = false /\ (isRemoteUrl url = false \/ default_repo url)
  /\ if cloned then entries = [] else entries <> [] /\ isGit = true /\ exists o, origin = Some o /\ normalizeRepoUrl o = normalizeRepoUrl url.
Proof.
  unfold cloneIfEmpty, checkWorkspaceRepoMatch, assertCleanRepoUrl. destruct (has_credentials (trim url)); cbn [negb]; [done|].
  destruct (enforceRepoAllowlist _ url) eqn:Ea; cbn [negb]; [|done].
  assert (isRemoteUrl url = false \/ default_repo url) as Hd.
  { destruct (isRemoteUrl url) eqn:Er; [right|by left]. apply default_allowlist; [done|]. unfold enforceRepoAllowlist in Ea. cbn [rp_enforce_env repoAllowlistEnabled default negb orb] in Ea. exact Ea. }
  destruct entries as [|x entries]; cbn; [intros [= <-]; done|]. destruct isGit; cbn; [|done]. destruct origin as [o|]; cbn; [|done].
  destruct (nonempty o && _) eqn:Eo; cbn; [|done]. intros [= <-]. bsimpl. split; [done|]. split; [done|]. split; [done|]. split; [done|]. by exists o.
Qed.

(** An scp-style remote without a user is not recognized as a remote, so the allowlist does
    not govern it. *)
Example scp_without_user_not_governed :
  isRepoAllowed "github.com:someone/else" DEFAULT_REPO_ALLOWLIST = true
  /\ canonicalizeRepo "github.com:someone/else" = Some {| cr_host := "github.com"; cr_owner := "someone"; cr_repo := "else" |}
  /\ isRepoAllowed "git@github.com:someone/else" DEFAULT_REPO_ALLOWLIST = false.
Proof. vm_compute. auto. Qed.
