(* ===== verification/NodeStart.v ===== *)
(** * Starting runs and serving lease requests on the Node
      (src/relay/client.ts: handleRunStart; src/relay/node-lease-dispatch.ts)

    What [handleRunStart] decides before the backend is started: the acknowledgement or
    the run record, and its effect on the journal.  The supported agents, the generated
    run id, the configuration and the filesystem are parameters.  The lease and revision
    handlers are total functions to an acknowledgement body. *)

From S2P Require Import Prelude Machine Values Json Contract Templates Verification Validator Outputs TaskContract Journal Workspace.

Record NodeConfig : Type := { nc_workspace_root : string; nc_allowed_cwd_roots : list string }.

(** [rs_workspace_key], [rs_cwd]: untrusted JSON; [VUndef] when absent. *)
Record RunStartMsg : Type := {
  rs_agent : string; rs_workspace_key : value; rs_cwd : value; rs_workspace_write : bool; rs_workspace_lease_id : option string;
  rs_repo_url : option string; rs_branch : option string; rs_prompt_content : option string; rs_permission_mode : option string;
  rs_verify : value; rs_metadata : value }.

(** A negative acknowledgement with its code, a rejected promise, or a run whose backend
    is about to be started. *)
Inductive start_code : Type :=
  | agent_not_supported | cwd_not_allowed | start_invalid_workspace_key | lease_refused (code : WorkspaceLeaseErrorCode).
Inductive start_outcome : Type := Refused (code : start_code) | Rejected | Started (record : RunRecord).

Section Start.
Context (fs : Fs) (supportedAgents : list string) (config : NodeConfig) (nodeId runId now : string).
(** [os.tmpdir()], and the keys of an encrypted request. *)
Context (tmpdir : string) (stopAesKey approvalAesKey : option string).

(** The workspace of the run: key and path. *)
Definition start_workspace (msg : RunStartMsg) : start_outcome + (string * string) :=
  if negb (is_undef (rs_cwd msg)) then
    if negb (is_undef (rs_workspace_key msg)) || rs_workspace_write msg || is_some (truthy_string (rs_workspace_lease_id msg)) then inl (Refused cwd_not_allowed) else
    match resolveAllowedCwd fs (rs_cwd msg) (nc_allowed_cwd_roots config) with
    | Some path => inr (runId, path)
    | None => inl (Refused cwd_not_allowed)
    end
  else
    match (if is_nullish (rs_workspace_key msg) then VStr runId else rs_workspace_key msg) with
    | VStr key => match resolveContainedWorkspace fs key (nc_workspace_root config) with
                  | Ok path => inr (key, path)
                  | Err invalid_workspace_key => inl (Refused start_invalid_workspace_key)
                  | Err filesystem_error => inl Rejected
                  end
    | _ => inl (Refused start_invalid_workspace_key)
    end.

Definition run_record (msg : RunStartMsg) (key path : string) (lease : option string) : RunRecord :=
  {| rec_run_id := runId; rec_session_id := ""; rec_node_id := nodeId; rec_node_selector := Some nodeId; rec_agent := rs_agent msg;
     rec_status := run_queued; rec_workspace_path := path; rec_session_url := None; rec_repo_url := truthy_string (rs_repo_url msg);
     rec_branch := truthy_string (rs_branch msg);
     rec_prompt_file := (fun _ => tmpdir +:+ "/vibe-prompt-" +:+ runId +:+ ".md") <$> rs_prompt_content msg;
     rec_permission_mode := truthy_string (rs_permission_mode msg); rec_metadata := truthy_value (rs_metadata msg);
     rec_child_pid := None; rec_started_agent := None; rec_final_agent := None; rec_switched := None; rec_switch_reason := None;
     rec_handoff_path := None; rec_failure_reason := None; rec_recoverable := None; rec_exit_code := None; rec_error := None;
     rec_result_status := None; rec_task_result := VUndef; rec_workspace_lease_id := lease; rec_workspace_key := Some key;
     rec_workspace_write := (if rs_workspace_write msg then Some true else None); rec_verify := truthy_value (rs_verify msg);
     rec_event_aes_key := None; rec_stop_aes_key := truthy_string stopAesKey; rec_approval_aes_key := truthy_string approvalAesKey;
     rec_created_at := now; rec_updated_at := now |}.

(** With the journal of the Node, if it could be opened. *)
Definition handleRunStart (journal : option Journal) (msg : RunStartMsg) : start_outcome * option Journal :=
  if negb (rs_agent msg ∈b supportedAgents) then (Refused agent_not_supported, journal) else
  match start_workspace msg with
  | inl refusal => (refusal, journal)
  | inr (key, path) =>
      let presented := truthy_string (rs_workspace_lease_id msg) in
      match journal, presented with
      | None, Some _ => (Refused (lease_refused workspace_lease_unsupported), None)
      | None, None => (Started (run_record msg key path None), None)
      | Some j, _ =>
          match fst (validateWorkspaceLeaseForRun nodeId key presented j) with
          | Err (WorkspaceLeaseError code) => (Refused (lease_refused code), Some j)
          | Err _ => (Rejected, Some j)
          | Ok _ =>
              let j' := match presented with Some l => snd (catch (bindRunToLease now runId l) (fun _ => mret tt) j) | None => j end in
              (Started (run_record msg key path presented), Some j')
          end
      end
  end.
End Start.

(** ** Lease and revision requests *)

Definition WORKSPACE_LEASE_REQUEST_TYPES : list string := ["workspace_lease_acquire"; "workspace_lease_get"; "workspace_lease_release"].
Definition WORKSPACE_REVISION_REQUEST_TYPES : list string := ["workspace_revision_observe"].
Definition isWorkspaceLeaseRequestType (t : value) : bool := match t with VStr s => s ∈b WORKSPACE_LEASE_REQUEST_TYPES | _ => false end.
Definition isWorkspaceRevisionRequestType (t : value) : bool := match t with VStr s => s ∈b WORKSPACE_REVISION_REQUEST_TYPES | _ => false end.

(** [String(field)] of an optional field. *)
Definition String_of (o : option string) : string := default "undefined" o.

Record LeaseReq : Type := { lq_type : string; lq_workflow_id : option string; lq_workspace_key : option string; lq_workspace_lease_id : option string }.

Inductive ack_code : Type := lease_code (c : WorkspaceLeaseErrorCode) | internal_error.
Inductive LeaseAckBody : Type := LeaseOk (created : option bool) (lease : value) | LeaseError (code : ack_code).
Inductive RevisionAckBody : Type := RevisionOk (revision : value) | RevisionError (code : ack_code).

Section Dispatch.
Context (sha256_hex : string -> string) (fs : Fs) (nodeId workspaceRoot now : string).
(** [observeRevision(path)]; [None]: it throws. *)
Context (observe : string -> option value).

Definition lease_error (e : journal_error) : LeaseAckBody :=
  match e with WorkspaceLeaseError c => LeaseError (lease_code c) | _ => LeaseError internal_error end.

Definition handleWorkspaceLeaseRequest (authority : option Journal) (msg : LeaseReq) : LeaseAckBody * option Journal :=
  match authority with
  | None => (LeaseError (lease_code workspace_lease_unavailable), None)
  | Some j =>
      if lq_type msg =s "workspace_lease_acquire" then
        match resolveContainedWorkspace fs (String_of (lq_workspace_key msg)) workspaceRoot with
        | Err invalid_workspace_key => (LeaseError (lease_code workspace_lease_invalid), Some j)
        | Err filesystem_error => (LeaseError internal_error, Some j)
        | Ok path =>
            match observe path with
            | None => (LeaseError internal_error, Some j)
            | Some base =>
                match acquireWorkspaceLease sha256_hex now (String_of (lq_workflow_id msg)) nodeId (String_of (lq_workspace_key msg)) base j with
                | (Ok (lease, created), j') => (LeaseOk (Some created) lease, Some j')
                | (Err e, j') => (lease_error e, Some j')
                end
            end
        end
      else if lq_type msg =s "workspace_lease_get" then
        match getWorkspaceLease (String_of (lq_workspace_lease_id msg)) j with
        | (Ok (Some lease), j') => (LeaseOk None lease, Some j')
        | (Ok None, j') => (LeaseError (lease_code workspace_lease_invalid), Some j')
        | (Err e, j') => (lease_error e, Some j')
        end
      else if lq_type msg =s "workspace_lease_release" then
        match releaseWorkspaceLease now (String_of (lq_workspace_lease_id msg)) j with
        | (Ok lease, j') => (LeaseOk None lease, Some j')
        | (Err e, j') => (lease_error e, Some j')
        end
      else (LeaseError (lease_code workspace_lease_unavailable), Some j)
  end.

Definition handleWorkspaceRevisionRequest (workspace_key : option string) : RevisionAckBody :=
  match resolveContainedWorkspace fs (String_of workspace_key) workspaceRoot with
  | Err invalid_workspace_key => RevisionError (lease_code workspace_revision_unavailable)
  | Err filesystem_error => RevisionError internal_error
  | Ok path => match observe path with Some revision => RevisionOk revision | None => RevisionError internal_error end
  end.
End Dispatch.

Definition workspaceLeaseCapability (authority : option Journal) : option string := match authority with Some _ => Some WORKSPACE_LEASE_CAPABILITY | None => None end.
