(* ===== verification/JournalLeases.v ===== *)
(** * Leases are exclusive and protect running work

    At most one live lease per workspace; a run started under a lease keeps it live until
    the run ended; lease requests get one sound answer each. *)

From S2P Require Import Prelude Machine Values Json Contract Templates Verification Validator Outputs TaskContract Journal JournalProps Workspace NodeStart.

(** ** The invariant *)

Record leases_ok (j : Journal) : Prop := {
  lo_filed : forall id r, leaseRow id j = Some r -> lr_workspace_lease_id r = id;
  lo_exclusive : forall id1 id2 r1 r2, leaseRow id1 j = Some r1 -> leaseRow id2 j = Some r2 -> live r1 = true -> live r2 = true ->
    lr_node_id r1 = lr_node_id r2 -> lr_workspace_key r1 = lr_workspace_key r2 -> id1 = id2;
  lo_held : forall run r l, runRow run j = Some r -> rn_terminal_event_recorded r = false -> bound_lease r = Some l ->
    exists row, leaseRow l j = Some row /\ live row = true;
}.

(** A run that is not ended in [j'] was there with the same lease in [j], or has none. *)
Definition runs_weaken (j j' : Journal) : Prop := j_leases j' = j_leases j /\ forall run r', runRow run j' = Some r' ->
  (exists r, runRow run j = Some r /\ rn_workspace_lease_id r' = rn_workspace_lease_id r /\ (rn_terminal_event_recorded r = true -> rn_terminal_event_recorded r' = true))
  \/ rn_workspace_lease_id r' = None.

Lemma leases_weaken (j j' : Journal) : runs_weaken j j' -> leases_ok j -> leases_ok j'.
Proof.
  intros [El Hr] [Hf He Hh]. unfold leaseRow in *. constructor; unfold leaseRow; rewrite ?El; [done|done|]. intros run r' l Hrun Ht Hb.
  destruct (Hr _ _ Hrun) as [(r & Hrow & Hid & Hterm)|Hn]; [|unfold bound_lease in Hb; by rewrite Hn in Hb].
  apply (Hh run r l Hrow).
  - destruct (rn_terminal_event_recorded r); [|done]. rewrite Hterm in Ht; done.
  - unfold bound_lease in *. by rewrite <- Hid.
Qed.

Lemma weaken_ensured (now id : string) (j j' : Journal) : ensured now id j j' -> runs_weaken j j'.
Proof.
  intros [[-> _]|[Hn [st ->]]]; (split; [done|]); intros run r' Hr; [left; by exists r'|]. unfold runRow in *. cbn in Hr.
  apply lookup_insert_Some in Hr as [[_ <-]|[_ Hr]]; [by right|left; by exists r'].
Qed.
Lemma weaken_alter (id : string) (f : RunRow -> RunRow) (j : Journal) :
  (forall r, rn_workspace_lease_id (f r) = rn_workspace_lease_id r /\ (rn_terminal_event_recorded r = true -> rn_terminal_event_recorded (f r) = true)) ->
  runs_weaken j (set_runs (alter f id (j_runs j)) j).
Proof.
  intros Hf. split; [done|]. intros run r' Hr. left. unfold runRow in *. cbn in Hr. destruct (decide (id = run)) as [->|Hne].
  - rewrite lookup_alter_eq in Hr. destruct (j_runs j !! run) as [r|]; [|done]. injection Hr as <-. exists r. split; [done|apply Hf].
  - rewrite lookup_alter_ne in Hr by done. by exists r'.
Qed.
Lemma weaken_same (j j' : Journal) : j_leases j' = j_leases j -> j_runs j' = j_runs j -> runs_weaken j j'.
Proof. intros H1 H2. split; [done|]. intros run r' Hr. left. exists r'. unfold runRow in *. by rewrite H2 in Hr. Qed.

#[global] Instance runs_weaken_trans : Transitive runs_weaken.
Proof.
  intros a b c [E1 H1] [E2 H2]. split; [congruence|]. intros run r' Hr. destruct (H2 _ _ Hr) as [(r & Hrow & Hid & Ht)|Hn]; [|by right].
  destruct (H1 _ _ Hrow) as [(q & Hq & Hid' & Ht')|Hn]; [left; exists q; split; [done|]; split; [congruence|auto]|right; congruence].
Qed.

(** ** Operations on runs *)

#[global] Instance leases_ensureRun (now id st : string) : Holds leases_ok (ensureRun now id st).
Proof.
  intros j Hj. pose proof (ensureRun_spec now id st j) as H. destruct (ensureRun now id st j) as [[r|e] j']; [|by subst].
  destruct H as [H _]. eapply leases_weaken; [by eapply weaken_ensured|done].
Qed.
Lemma leases_alter (id : string) (f : RunRow -> RunRow) :
  (forall r, rn_workspace_lease_id (f r) = rn_workspace_lease_id r /\ (rn_terminal_event_recorded r = true -> rn_terminal_event_recorded (f r) = true)) ->
  Holds leases_ok (update_run id f).
Proof. intros Hf j. apply leases_weaken. by apply weaken_alter. Qed.
Lemma leases_other (f : Journal -> Journal) : (forall j, j_leases (f j) = j_leases j /\ j_runs (f j) = j_runs j) -> Holds leases_ok (update (Er := journal_error) f).
Proof. intros Hf j. apply leases_weaken. destruct (Hf j). by apply weaken_same. Qed.
#[global] Hint Extern 4 (Holds leases_ok (update_run _ _)) => (apply leases_alter; by repeat split) : typeclass_instances.
#[global] Hint Extern 5 (Holds leases_ok (update _)) => (apply leases_other; by repeat split) : typeclass_instances.

Lemma leases_appended (now id : string) (e : NodeRunEventInput) (ev : NodeRunEvent) (j j' : Journal) : appended now id e ev j j' -> leases_ok j -> leases_ok j'.
Proof.
  intros (j1 & r & t & He & _ & _ & _ & _ & ->). apply leases_weaken. etransitivity; [by eapply weaken_ensured|].
  unfold logged. set (j2 := set_events _ j1).
  etransitivity; [by apply (weaken_same j1 j2)|]. etransitivity; [|by apply weaken_same]. apply (weaken_alter id _ j2). intros q. split; [done|]. cbn. by destruct (ni_terminal e).
Qed.
Lemma leases_ensured (now id : string) (j j' : Journal) : j' = j \/ ensured now id j j' -> leases_ok j -> leases_ok j'.
Proof. intros [->|H]; [done|]. apply leases_weaken. by eapply weaken_ensured. Qed.

(** ** Operations on leases *)

Lemma index_free_spec (id : string) (row : LeaseRow) (j : Journal) :
  index_free id row j = true -> live row = true ->
  forall id' r', leaseRow id' j = Some r' -> live r' = true -> lr_node_id r' = lr_node_id row -> lr_workspace_key r' = lr_workspace_key row -> id' = id.
Proof.
  unfold index_free. intros H Hl id' r' Hr Hl' Hn Hk. rewrite Hl in H. cbn [negb orb] in H. apply negb_true_iff in H.
  pose proof (proj1 (existsb_false _ _) H (id', r')) as Hx. cbn [fst snd] in Hx. unfold on_workspace in Hx. rewrite Hn, Hk, Hl', !String.eqb_refl in Hx. cbn [negb andb] in Hx.
  destruct (id' =s id) eqn:E; [by apply String.eqb_eq|]. exfalso. assert (true = false) by (apply Hx, list_elem_of_In, elem_of_map_to_list, Hr). done.
Qed.

(** Writing a row that is live if a run needs it. *)
Lemma leases_write (id : string) (row : LeaseRow) (j : Journal) :
  lr_workspace_lease_id row = id -> (live row = true -> index_free id row j = true) ->
  (live row = false -> forall run r, runRow run j = Some r -> rn_terminal_event_recorded r = false -> bound_lease r <> Some id) ->
  leases_ok j -> leases_ok (set_leases (<[id := row]> (j_leases j)) j).
Proof.
  intros Hid Hix Hfree [Hf He Hh]. constructor; unfold leaseRow; cbn.
  - intros k r [[<- <-]|[_ Hr]]%lookup_insert_Some; [done|by apply Hf].
  - intros k1 k2 r1 r2 [[<- <-]|[N1 H1]]%lookup_insert_Some [[<- <-]|[N2 H2]]%lookup_insert_Some L1 L2 En Ek; [done|..].
    + symmetry. by apply (index_free_spec _ _ _ (Hix L1) L1 k2 r2).
    + by apply (index_free_spec _ _ _ (Hix L2) L2 k1 r1).
    + by apply (He k1 k2 r1 r2).
  - intros run r l Hr Ht Hb. destruct (decide (l = id)) as [->|Hne]; [|rewrite lookup_insert_ne by done; by apply (Hh run r)].
    exists row. rewrite lookup_insert_eq. split; [done|]. destruct (live row) eqn:E; [done|]. by destruct (Hfree eq_refl run r Hr Ht).
Qed.

Lemma active_row (node key : string) (j : Journal) (r : LeaseRow) :
  leases_ok j -> activeLeaseRow node key j = Some r ->
  leaseRow (lr_workspace_lease_id r) j = Some r /\ live r = true /\ lr_node_id r = node /\ lr_workspace_key r = key.
Proof.
  intros Hj (k & Hk & H)%find_row_some. unfold on_workspace in H. apply andb_prop in H as [H Hl]. apply andb_prop in H as [Hn%String.eqb_eq Hkey%String.eqb_eq].
  rewrite (lo_filed _ Hj k r Hk). done.
Qed.

Lemma decode_error (o : option string) (c : journal_error) : decode_revision o = Err c -> exists d, c = JournalError d.
Proof.
  destruct o as [t|]; cbn; [|done]. destruct (t =s ""); [done|]. unfold decodeJson. destruct (_ <? _); cbn; [intros [= <-]; eauto|].
  destruct (JSON_parse t) as [v|]; cbn; [|intros [= <-]; eauto]. destruct (isValidRevision v); [done|]. intros [= <-]. eauto.
Qed.
Lemma toLease_error (row : LeaseRow) (c : journal_error) : toLease row = Err c -> exists d, c = JournalError d.
Proof.
  unfold toLease. destruct (decode_revision (lr_base_revision_json row)) as [b|e] eqn:Eb; cbn; [|intros [= <-]; by eapply decode_error].
  destruct (decode_revision (lr_current_revision_json row)) as [b'|e] eqn:Ec; cbn; [|intros [= <-]; by eapply decode_error].
  destruct (isValidLease _); [done|]. intros [= <-]. eauto.
Qed.

#[local] Arguments toLease : simpl never.
#[local] Arguments live : simpl never.

Section Acquire.
Context (sha256_hex : string -> string) (now workflow node key : string) (j : Journal) (Hj : leases_ok j).

(** The row an acquisition writes. *)
Definition granted (leaseId revJson : string) (row : LeaseRow) : Prop :=
  (leaseRow leaseId j = None /\ row = new_lease now leaseId workflow node key revJson)
  \/ exists r, leaseRow leaseId j = Some r /\ live r = false /\ row = reactivate now revJson r.

Lemma attempt_spec (leaseId revJson : string) :
  match attempt_acquire now leaseId workflow node key revJson j with
  | (Ok (l, false), j') => j' = j /\ exists r, leaseRow leaseId j = Some r /\ live r = true /\ toLease r = Ok l
  | (Ok (l, true), j') => exists row, granted leaseId revJson row /\ toLease row = Ok l /\ held_by_other leaseId node key j = false
      /\ index_free leaseId row j = true /\ j' = set_leases (<[leaseId := row]> (j_leases j)) j
  | (Err (WorkspaceLeaseError c), j') => j' = j /\ c = workspace_lease_conflict /\ held_by_other leaseId node key j = true
  | (Err ConstraintError, j') => j' = j /\ held_by_other leaseId node key j = false /\ exists row, granted leaseId revJson row /\ index_free leaseId row j = false
  | (Err (JournalError _), j') => j' = j
  end.
Proof.
  unfold attempt_acquire, write_lease. run_journal. destruct (leaseRow leaseId j) as [r|] eqn:Er; cbn; [destruct (live r) eqn:El; cbn|].
  - destruct (toLease r) as [l|c] eqn:Et; cbn; [split; [done|]; by exists r|]. by destruct (toLease_error _ _ Et) as [d ->].
  - destruct (held_by_other leaseId node key j) eqn:Eh; cbn; [done|].
    assert (granted leaseId revJson (reactivate now revJson r)) as Hg by (right; by exists r).
    destruct (index_free leaseId (reactivate now revJson r) j) eqn:Ei; cbn; [|split; [done|]; split; [done|]; by exists (reactivate now revJson r)].
    destruct (toLease (reactivate now revJson r)) as [l|c] eqn:Et; cbn; [by exists (reactivate now revJson r)|]. by destruct (toLease_error _ _ Et) as [d ->].
  - destruct (held_by_other leaseId node key j) eqn:Eh; cbn; [done|]. set (row := new_lease now leaseId workflow node key revJson).
    assert (granted leaseId revJson row) as Hg by (left; done).
    destruct (index_free leaseId row j) eqn:Ei; cbn; [|split; [done|]; split; [done|]; by exists row].
    destruct (toLease row) as [l|c] eqn:Et; cbn; [by exists row|]. by destruct (toLease_error _ _ Et) as [d ->].
Qed.

Lemma granted_ok (leaseId revJson : string) (row : LeaseRow) : granted leaseId revJson row -> lr_workspace_lease_id row = leaseId /\ live row = true.
Proof. intros [[_ ->]|(r & Hr & _ & ->)]; (split; [|reflexivity]); [done|exact (lo_filed _ Hj _ _ Hr)]. Qed.

Lemma attempt_leases (leaseId revJson : string) : leases_ok (snd (attempt_acquire now leaseId workflow node key revJson j)).
Proof.
  pose proof (attempt_spec leaseId revJson) as H. destruct (attempt_acquire _ _ _ _ _ _ j) as [[[l []]|[c|c|]] j']; cbn.
  - destruct H as (row & Hg & _ & _ & Hi & ->). destruct (granted_ok _ _ _ Hg) as [Hid Hl]. apply leases_write; [done|done|by rewrite Hl|done].
  - by destruct H as [-> _].
  - by subst.
  - by destruct H as [-> _].
  - by destruct H as [-> _].
Qed.
End Acquire.

#[global] Instance leases_acquire (sha256_hex : string -> string) (now w n k : string) (v : value) : Holds leases_ok (acquireWorkspaceLease sha256_hex now w n k v).
Proof.
  assert (forall l r, Holds leases_ok (attempt_acquire now l w n k r)) as Ha by (intros l r j Hj; by apply attempt_leases). unfold acquireWorkspaceLease. hold.
Qed.

#[global] Instance leases_release (now l : string) : Holds leases_ok (releaseWorkspaceLease now l).
Proof.
  intros j Hj. unfold releaseWorkspaceLease, isLeaseInUse. run_journal. destruct (j_closed j) eqn:Ec; cbn; [done|].
  destruct (leaseRow l j) as [r|] eqn:Er; cbn; [|done]. destruct (lr_status r =s "released"); [by destruct (toLease r)|]. cbn. rewrite Ec. cbn.
  destruct (find_row (uses l) (j_runs j)) eqn:Eu; cbn; [done|]. destruct (toLease _); [|done]. cbn.
  apply leases_write; [exact (lo_filed _ Hj _ _ Er)|intros H; discriminate H| |done]. intros _ run q Hq Ht Hb.
  pose proof (proj1 (find_row_none _ _) Eu run q Hq) as Hu. unfold uses, bound_lease in *. destruct (rn_workspace_lease_id q) as [x|]; [|done].
  destruct (x =s ""); [done|]. injection Hb as ->. cbn in Hu. by rewrite String.eqb_refl, Ht in Hu.
Qed.

#[global] Instance leases_revision (now h l : string) (s : option string) (p : string) (v : value) : Holds leases_ok (recordWorkspaceRevision now h l s p v).
Proof.
  intros j Hj. unfold recordWorkspaceRevision. run_journal. destruct (j_closed j); cbn; [done|]. destruct (leaseRow l j) as [r|] eqn:Er; cbn; [|done].
  destruct (encodeJson v REVISION_BYTES) as [t|]; cbn; [|done]. destruct (is_some _); cbn; [done|]. set (j1 := set_revisions _ j).
  assert (leases_ok j1) as Hj1 by (eapply leases_weaken; [by apply (weaken_same j)|done]).
  change (leases_ok (set_leases (<[l := observe_revision now t r]> (j_leases j1)) j1)). apply leases_write; [exact (lo_filed _ Hj _ _ Er)| | |done].
  - intros Hl. unfold index_free. apply orb_true_iff. right. apply negb_true_iff, existsb_false. intros [k q] Hin. apply list_elem_of_In, elem_of_map_to_list in Hin. cbn in *.
    destruct (k =s l) eqn:E; [done|]. cbn. apply String.eqb_neq in E. destruct (on_workspace _ _ q) eqn:Eo; [|done]. cbn. destruct (live q) eqn:Eq; [|done].
    exfalso. apply E. apply andb_prop in Eo as [E1%String.eqb_eq E2%String.eqb_eq]. by apply (lo_exclusive _ Hj k l q r Hin Er Eq).
  - intros Hl run q Hq Ht Hb. destruct (lo_held _ Hj run q l Hq Ht Hb) as (row & Hrow & Hlive). assert (row = r) as -> by congruence.
    change (live r = false) in Hl. congruence.
Qed.

#[global] Instance leases_pruneTerminalRuns (t : string) : Holds leases_ok (pruneTerminalRuns t).
Proof.
  intros j. apply leases_weaken. unfold pruneTerminalRuns. run_journal. destruct (j_closed j); cbn; [by apply weaken_same|]. split; [done|].
  intros run r' Hr. left. exists r'. unfold runRow in *. cbn in Hr. apply map_lookup_filter_Some in Hr as [Hr _]. done.
Qed.

(** ** The Node *)

(** What the Node does with its journal: it starts runs, serves lease requests, captures
    events and results, serves replays and prunes. *)
Inductive node_step (sha256_hex : string -> string) : relation Journal :=
  | ns_start fs agents config node run now tmp stop_key approval_key msg j j' : snd (handleRunStart fs agents config node run now tmp stop_key approval_key (Some j) msg) = Some j' -> node_step sha256_hex j j'
  | ns_lease fs node root now observe msg j j' : snd (handleWorkspaceLeaseRequest sha256_hex fs node root now observe (Some j) msg) = Some j' -> node_step sha256_hex j j'
  | ns_append now id e j : node_step sha256_hex j (snd (append now id e j))
  | ns_appendAt now id seq e j : node_step sha256_hex j (snd (appendAt now id seq e j))
  | ns_markStatus now id st t j : node_step sha256_hex j (snd (markStatus now id st t j))
  | ns_persist now id st r j : node_step sha256_hex j (snd (persistRunResult now id st r j))
  | ns_revision now h l s p v j : node_step sha256_hex j (snd (recordWorkspaceRevision now h l s p v j))
  | ns_subscribe id after q j : node_step sha256_hex j (snd (subscribe id after q j))
  | ns_subs m j : node_step sha256_hex j (set_subs m j)
  | ns_pruneRuns t j : node_step sha256_hex j (snd (pruneTerminalRuns t j))
  | ns_pruneEvents id k j : node_step sha256_hex j (snd (pruneRunEvents id k j))
  | ns_close j : node_step sha256_hex j (snd (close j)).

(** Binding a run to a live lease. *)
Lemma leases_bind (now run l : string) (row : LeaseRow) (j : Journal) :
  leaseRow l j = Some row -> live row = true -> leases_ok j -> leases_ok (snd (bindRunToLease now run l j)).
Proof.
  intros Hl Hlive Hj. unfold bindRunToLease. run_journal. destruct (j_closed j); cbn; [done|]. destruct (RUN_ID_RE run); cbn; [|done].
  pose proof (ensureRun_spec now run "running" j) as He. destruct (ensureRun now run "running" j) as [[r0|e] j1]; cbn; [|done]. destruct He as [He Hr]. rewrite Hr. cbn.
  assert (leases_ok j1) as Hj1 by (eapply leases_ensured; [right; exact He|done]).
  assert (j_leases j1 = j_leases j) as El by by destruct (weaken_ensured _ _ _ _ He).
  destruct (bound_lease r0) as [x|] eqn:Eb; [by destruct (x =s l)|]. cbn. destruct Hj1 as [Hf Hx Hh]. constructor; [exact Hf|exact Hx|].
  intros k r x Hrun Ht Hbd. unfold runRow, leaseRow in *. cbn in Hrun |- *. rewrite El. destruct (decide (run = k)) as [->|Hne].
  - rewrite lookup_alter_eq, Hr in Hrun. injection Hrun as <-. unfold bound_lease in Hbd. cbn in Hbd. destruct (l =s ""); [done|]. injection Hbd as <-. by exists row.
  - rewrite lookup_alter_ne in Hrun by done. rewrite <- El. by apply (Hh k r).
Qed.

Lemma leases_start (fs : Fs) (agents : list string) (config : NodeConfig) (node run now tmp : string) (stop_key approval_key : option string) (msg : RunStartMsg) (j j' : Journal) :
  snd (handleRunStart fs agents config node run now tmp stop_key approval_key (Some j) msg) = Some j' -> leases_ok j -> leases_ok j'.
Proof.
  intros H Hj. unfold handleRunStart in H. destruct (negb _); [by injection H as <-|]. destruct (start_workspace _ _ _ _) as [x|[key path]]; [by injection H as <-|].
  destruct (fst (validateWorkspaceLeaseForRun node key (truthy_string (rs_workspace_lease_id msg)) j)) as [u|[c|c|]] eqn:Ev; try (by injection H as <-).
  injection H as <-. destruct (truthy_string (rs_workspace_lease_id msg)) as [l|]; [|done].
  unfold validateWorkspaceLeaseForRun in Ev. revert Ev. run_journal. destruct (j_closed j); cbn; [done|].
  destruct (activeLeaseRow node key j) as [a|] eqn:Ea; [|done]. destruct (l =s lr_workspace_lease_id a) eqn:El; [|done]. intros _.
  apply String.eqb_eq in El as ->. destruct (active_row _ _ _ _ Hj Ea) as (Hrow & Hlive & _).
  pose proof (leases_bind now run _ a j Hrow Hlive Hj) as Hb. by destruct (bindRunToLease now run (lr_workspace_lease_id a) j) as [[?|?] ?].
Qed.

Lemma leases_request (sha256_hex : string -> string) (fs : Fs) (node root now : string) (observe : string -> option value) (msg : LeaseReq) (j j' : Journal) :
  snd (handleWorkspaceLeaseRequest sha256_hex fs node root now observe (Some j) msg) = Some j' -> leases_ok j -> leases_ok j'.
Proof.
  intros H Hj. assert (forall A (m : J A), Holds leases_ok m -> leases_ok (snd (m j))) as Hh by (intros A m Hm; by apply Hm).
  unfold handleWorkspaceLeaseRequest in H. destruct (_ =s _).
  - destruct (resolveContainedWorkspace _ _ _) as [path|[]]; try (by injection H as <-). destruct (observe path) as [base|]; [|by injection H as <-].
    match type of H with context [acquireWorkspaceLease ?a ?b ?c ?d ?e ?f j] => pose proof (Hh _ _ (leases_acquire a b c d e f)) as Ha; destruct (acquireWorkspaceLease a b c d e f j) as [[[l c']|e'] j1] end;
      by injection H as <-.
  - destruct (_ =s _).
    + match type of H with context [getWorkspaceLease ?a j] => assert (Holds leases_ok (getWorkspaceLease a)) as Hg by hold; specialize (Hg j Hj); destruct (getWorkspaceLease a j) as [[[l|]|e'] j1] end; by injection H as <-.
    + destruct (_ =s _); [|by injection H as <-].
      match type of H with context [releaseWorkspaceLease ?a ?b j] => pose proof (Hh _ _ (leases_release a b)) as Ha; destruct (releaseWorkspaceLease a b j) as [[l|e'] j1] end; by injection H as <-.
Qed.

Lemma leases_step (sha256_hex : string -> string) (j j' : Journal) : node_step sha256_hex j j' -> leases_ok j -> leases_ok j'.
Proof.
  intros H Hj. destruct H as [| | now id e j|now id seq e j| | | | | | | |];
    try (match goal with |- leases_ok (snd (?m ?j)) => let H := fresh in assert (Holds leases_ok m) as H by hold; exact (H j Hj) end).
  - by eapply leases_start.
  - by eapply leases_request.
  - pose proof (append_spec now id e j) as H. destruct (append now id e j) as [[ev|c] j']; [by eapply leases_appended|by eapply leases_ensured].
  - pose proof (appendAt_spec now id seq e j) as H. destruct (appendAt now id seq e j) as [[[ev []]|c] j'];
      [eapply leases_ensured; [right; apply H|done]|eapply leases_appended; [apply H|done]|by eapply leases_ensured].
  - eapply leases_weaken; [|exact Hj]. by apply weaken_same.
  - eapply leases_weaken; [|exact Hj]. cbn. destruct (j_closed j); by apply weaken_same.
Qed.

Lemma leases_empty : leases_ok empty_journal.
Proof. by constructor. Qed.
Lemma leases_reachable (sha256_hex : string -> string) (j : Journal) : rtc (node_step sha256_hex) empty_journal j -> leases_ok j.
Proof. intros H. pose proof leases_empty as H0. revert H0. induction H as [|x y z Hs _ IH]; [done|]. intros Hx. apply IH. by eapply leases_step. Qed.

(** C28. Leased runs exclude each other: in every journal a Node can reach, two runs that
    have not ended and are bound to leases of the same workspace are bound to the same
    lease, and that lease is live, so it has been neither released nor given to another
    workflow while a run under it may still write. *)
Theorem leased_runs_exclusive (sha256_hex : string -> string) (j : Journal) (run1 run2 : string) (r1 r2 : RunRow) (l1 l2 : string) (row1 row2 : LeaseRow) :
  rtc (node_step sha256_hex) empty_journal j ->
  runRow run1 j = Some r1 -> rn_terminal_event_recorded r1 = false -> bound_lease r1 = Some l1 -> leaseRow l1 j = Some row1 ->
  runRow run2 j = Some r2 -> rn_terminal_event_recorded r2 = false -> bound_lease r2 = Some l2 -> leaseRow l2 j = Some row2 ->
  lr_node_id row1 = lr_node_id row2 -> lr_workspace_key row1 = lr_workspace_key row2 -> l1 = l2 /\ live row1 = true.
Proof.
  intros Hj Hr1 Ht1 Hb1 Hl1 Hr2 Ht2 Hb2 Hl2 Hn Hk. pose proof (leases_reachable _ _ Hj) as Hok.
  destruct (lo_held _ Hok _ _ _ Hr1 Ht1 Hb1) as (q1 & Hq1 & Hlive1). destruct (lo_held _ Hok _ _ _ Hr2 Ht2 Hb2) as (q2 & Hq2 & Hlive2).
  assert (q1 = row1) as -> by congruence. assert (q2 = row2) as -> by congruence. split; [|done]. by apply (lo_exclusive _ Hok l1 l2 row1 row2).
Qed.


(** ** A concrete Node *)

Module Demo.
Definition hash (s : string) : string := "0123456789abcdef0123456789abcdef0123456789abcdef0123456789abcdef".
Definition fs : Fs := {| fs_realpath := fun p => Some p; fs_isDirectory := fun _ => Some true; fs_exists := fun _ => true |}.
Definition observe (path : string) : option value :=
  Some (VObj [("revision_kind", VStr "unavailable"); ("state_hash", VStr (hash path)); ("observed_at", VStr demo_now)]).
Definition config : NodeConfig := {| nc_workspace_root := "/root"; nc_allowed_cwd_roots := [] |}.
Definition acquire (workflow : string) : LeaseReq :=
  {| lq_type := "workspace_lease_acquire"; lq_workflow_id := Some workflow; lq_workspace_key := Some "ws"; lq_workspace_lease_id := None |}.
Definition lease_id : string := "wl_0123456789abcdef0123456789abcdef".
Definition start (lease : option string) : RunStartMsg :=
  {| rs_agent := "mock"; rs_workspace_key := VStr "ws"; rs_cwd := VUndef; rs_workspace_write := true; rs_workspace_lease_id := lease; rs_repo_url := None;
     rs_branch := None; rs_prompt_content := None; rs_permission_mode := None; rs_verify := VUndef; rs_metadata := VUndef |}.

Definition after (o : option Journal) : Journal := default empty_journal o.
Definition leased : Journal := after (snd (handleWorkspaceLeaseRequest hash fs "node" "/root" demo_now observe (Some empty_journal) (acquire "wf"))).
Definition one : Journal := after (snd (handleRunStart fs ["mock"] config "node" "run1" demo_now "/tmp" None None (Some leased) (start (Some lease_id)))).
Definition two : Journal := after (snd (handleRunStart fs ["mock"] config "node" "run2" demo_now "/tmp" None None (Some one) (start (Some lease_id)))).
Definition row : LeaseRow := Eval vm_compute in default (new_lease "" "" "" "" "" "") (leaseRow lease_id two).
Definition bound (run : string) : RunRow := Eval vm_compute in default (new_run "" "" "") (runRow run two).

Lemma reach_leased : rtc (node_step hash) empty_journal leased.
Proof. apply rtc_once. eapply (ns_lease hash fs "node" "/root" demo_now observe (acquire "wf")). vm_compute. reflexivity. Qed.
Lemma reach_two : rtc (node_step hash) empty_journal two.
Proof.
  eapply rtc_r; [eapply rtc_r; [apply reach_leased|]|].
  - eapply (ns_start hash fs ["mock"] config "node" "run1" demo_now "/tmp" None None (start (Some lease_id))). vm_compute. reflexivity.
  - eapply (ns_start hash fs ["mock"] config "node" "run2" demo_now "/tmp" None None (start (Some lease_id))). vm_compute. reflexivity.
Qed.

(** Without the lease, and after its release was refused, no run gets in. *)
Example guarded :
  fst (handleRunStart fs ["mock"] config "node" "run3" demo_now "/tmp" None None (Some two) (start None)) = Refused (lease_refused workspace_lease_required)
  /\ fst (releaseWorkspaceLease demo_now lease_id two) = Err (WorkspaceLeaseError workspace_lease_in_use).
Proof. split; vm_compute; reflexivity. Qed.
End Demo.

Lemma leased_runs_exclusive_witness : Demo.lease_id = Demo.lease_id /\ live Demo.row = true.
Proof.
  apply (leased_runs_exclusive Demo.hash Demo.two "run1" "run2" (Demo.bound "run1") (Demo.bound "run2") Demo.lease_id Demo.lease_id Demo.row Demo.row);
    [apply Demo.reach_two|vm_compute; reflexivity..].
Defined.

