(* ===== verification/TaskContractProps.v ===== *)
(** * Requests that are accepted, and their fingerprints

    What [validateCreateTaskRequest] guarantees of a request it lets through, and that
    the fingerprint compared for idempotent creation identifies the request. *)

From S2P Require Import Prelude Values Json JsonProps Contract Templates Verification Outputs Store TaskContract.

(** ** Validation *)

Lemma first_failure_none (tests : list (bool * string)) : first_failure tests = None -> Forall (fun t => fst t = true) tests.
Proof. induction tests as [|[[] f] tests IH]; cbn; intros H; [constructor|constructor; auto|done]. Qed.

Definition when_some {A : Type} (o : option A) (P : A -> Prop) : Prop := match o with Some a => P a | None => True end.

(** A request as the rest of the Gateway may rely on it. *)
Record request_ok (r : CreateTaskRequest) : Prop := {
  rq_agent : trim (cr_agent r) <> "";
  rq_text : trim (cr_input_text r) <> "";
  rq_key : when_some (cr_workspace_key r) (fun k => WORKSPACE_KEY_RE k = true);
  rq_path : when_some (cr_workspace_path r) (fun p => starts_with "/" p = true /\ js_length p <= CWD_PATH_MAX /\ CWD_CONTROL_RE p = false);
  (** A run in a directory of the Node is never a run in a managed workspace. *)
  rq_exclusive : is_some (cr_workspace_path r) = true -> cr_workspace_key r = None /\ cr_workspace_lease_id r = None /\ cr_workspace_write r <> Some true;
  rq_mode : when_some (cr_permission_mode r) (fun m => m = "default" \/ m = "unsafe-skip");
  rq_idempotency : when_some (cr_idempotency_key r) (fun k => IDEMPOTENCY_KEY_RE k = true);
  rq_lease : when_some (cr_workspace_lease_id r) (fun k => IDEMPOTENCY_KEY_RE k = true);
  rq_metadata : is_undef (cr_metadata r) = true \/ isPlainObject (cr_metadata r) = true;
  rq_verify : when_some (cr_verify r) (fun p => isKnownVerifierProfile p = true) }.

Lemma tests_hold (b : value) (r : CreateTaskRequest) : validateCreateTaskRequest b = Ok r -> Forall (fun t => fst t = true) (request_tests b).
Proof. unfold validateCreateTaskRequest. destruct (first_failure _) eqn:E; [done|]. intros _. by apply first_failure_none. Qed.

Lemma str_field_ok (p : string -> bool) (v : value) : opt_test (str_ok p) v = true -> when_some (str_field v) (fun s => p s = true).
Proof. destruct v; cbn; done. Qed.
Lemma get_undef (f : string) (v : value) : is_undef v = true -> get f v = VUndef.
Proof. by destruct v. Qed.
Lemma undef_field (v : value) : is_undef v = true -> str_field v = None.
Proof. by destruct v. Qed.

(** The tests of [workspace] and [execution], whether or not the field is there. *)
Lemma workspace_key_ok (b exec workspace : value) : Forall (fun t => fst t = true) (workspace_tests b exec workspace) ->
  when_some (str_field (get "workspace_key" workspace)) (fun k => WORKSPACE_KEY_RE k = true).
Proof.
  unfold workspace_tests. destruct (is_undef workspace) eqn:E; intros H; [by rewrite get_undef|]. cbn in H. rewrite !Forall_cons in H. apply str_field_ok. naive_solver.
Qed.
Lemma path_ok (b exec workspace : value) : Forall (fun t => fst t = true) (workspace_tests b exec workspace) ->
  when_some (str_field (get "path" workspace)) (fun p => (starts_with "/" p = true /\ js_length p <= CWD_PATH_MAX /\ CWD_CONTROL_RE p = false)
    /\ is_undef (get "workspace_key" workspace) = true /\ strict_eq (get "workspace_write" exec) (VBool true) = false /\ is_undef (get "workspace_lease_id" b) = true).
Proof.
  unfold workspace_tests. destruct (is_undef workspace) eqn:E; intros H; [by rewrite get_undef|]. cbn in H. rewrite !Forall_cons in H.
  destruct H as (_ & _ & _ & _ & H). unfold path_tests in H. destruct (get "path" workspace) as [| | | |p| |]; try done. cbn [is_undef] in H.
  rewrite !Forall_cons in H. cbn [fst str_ok] in H. destruct H as (H1 & H2 & H3 & H4 & H5 & _). cbn [str_field when_some]. bsimpl. repeat split; try done; bsimpl; done.
Qed.
Lemma mode_field_ok (exec : value) : Forall (fun t => fst t = true) (execution_tests exec) ->
  when_some (str_field (get "permission_mode" exec)) (fun m => m = "default" \/ m = "unsafe-skip").
Proof.
  unfold execution_tests. destruct (is_undef exec) eqn:E; intros H; [by rewrite get_undef|]. cbn in H. rewrite !Forall_cons in H. destruct H as (_ & _ & H & _).
  cbn [fst] in H. destruct (get "permission_mode" exec) as [| | | |m| |]; try done.
  change (mode_ok (VStr m) = true) in H. apply orb_true_iff in H as [H|H]; apply String.eqb_eq in H; [by left|by right].
Qed.

(** C35. An accepted request is well formed: whatever JSON value was sent, a request that
    passes validation has a non-blank agent and prompt, keys and identifiers of the safe
    grammars, a known permission mode and verifier profile, an absolute path without
    control characters that excludes every managed-workspace field, and none of the fields
    that are declared but not yet honoured: repo_url and branch of the workspace, and
    timeout_seconds of the execution.  (Other unknown fields are accepted and ignored.) *)
Theorem accepted_request_well_formed (b : value) (r : CreateTaskRequest) : validateCreateTaskRequest b = Ok r ->
  request_ok r
  /\ (forall f, In f DEFERRED_WORKSPACE_FIELDS -> is_undef (get "workspace" b) = true \/ is_undef (get f (get "workspace" b)) = true)
  /\ (forall f, In f DEFERRED_EXECUTION_FIELDS -> is_undef (get "execution" b) = true \/ is_undef (get f (get "execution" b)) = true).
Proof.
  intros H. pose proof (tests_hold b r H) as Ht. unfold validateCreateTaskRequest in H. destruct (first_failure _); [done|]. injection H as <-.
  unfold request_tests in Ht. rewrite !Forall_app, !Forall_cons in Ht. destruct Ht as ((_ & Ha & _ & _ & Hx & _) & He & Hw & Hm & Hk & Hl & Hv & _). cbn [fst] in *.
  assert (forall v, nonblank v = true -> trim (str_of v) <> "") as Hblank.
  { intros v Hv'. destruct v; try done. cbn [str_of]. unfold nonblank, str_ok in Hv'. intros E. by rewrite E in Hv'. }
  split; [constructor; cbn|split].
  - by apply Hblank.
  - by apply Hblank.
  - by eapply workspace_key_ok.
  - pose proof (path_ok _ _ _ Hw) as Hp. destruct (str_field (get "path" (get "workspace" b))); [apply Hp|done].
  - intros Hs. pose proof (path_ok _ _ _ Hw) as Hp. destruct (str_field (get "path" (get "workspace" b))); [|done]. destruct Hp as (_ & H1 & H2 & H3).
    rewrite !undef_field by done. repeat split. destruct (get "workspace_write" (get "execution" b)) as [| |[]| | | |]; done.
  - by apply mode_field_ok.
  - by apply str_field_ok.
  - by apply str_field_ok.
  - destruct (isPlainObject (get "metadata" b)) eqn:E; [by right|by left].
  - destruct (validateTaskVerifyConfig (get "verify" b)) as [p|] eqn:E; [|done]. cbn. unfold validateTaskVerifyConfig in E. repeat case_match; simplify_eq; done.
  - intros f Hf. unfold workspace_tests in Hw. destruct (is_undef (get "workspace" b)); [by left|right]. apply Forall_cons_1 in Hw as [_ Hw].
    apply Forall_app in Hw as [Hw _]. rewrite List.Forall_forall in Hw. exact (Hw _ (in_map (fun f => (is_undef (get f (get "workspace" b)), "workspace." +:+ f)) _ _ Hf)).
  - intros f Hf. unfold execution_tests in He. destruct (is_undef (get "execution" b)); [by left|right]. apply Forall_cons_1 in He as [_ He].
    apply Forall_app in He as [He _]. rewrite List.Forall_forall in He. exact (He _ (in_map (fun f => (is_undef (get f (get "execution" b)), "execution." +:+ f)) _ _ Hf)).
Qed.
Definition demo_request : value :=
  VObj [("agent", VStr "codex"); ("node_id", VStr "n1"); ("input", VObj [("text", VStr "fix the tests")]); ("workspace", VObj [("path", VStr "/srv/repo")])].
Lemma accepted_request_well_formed_witness : exists r, validateCreateTaskRequest demo_request = Ok r /\ request_ok r.
Proof.
  destruct (validateCreateTaskRequest demo_request) as [r|e] eqn:E; [|exfalso; revert E; vm_compute; discriminate].
  exists r. split; [done|]. apply (accepted_request_well_formed demo_request r E).
Defined.
