(* ===== verification/Fingerprint.v ===== *)
(** * Request fingerprints

    [computeRequestFingerprint] hashes a canonical text.  Two requests have the same
    fingerprint exactly when they agree on the fields it covers, and their metadata is
    equal up to the order of object keys and keys that are lost. *)

From S2P Require Import Prelude Values Json JsonProps Contract Templates Verification Outputs Store TaskContract.

(** ** JavaScript's order of strings *)

Lemma utf16_rank_inj (a b : ascii) : utf16_rank a = utf16_rank b -> a = b.
Proof.
  intros H. assert (N_of_ascii a = N_of_ascii b) as E; [|by rewrite <- (ascii_N_embedding a), E, ascii_N_embedding].
  pose proof (N_ascii_bounded a). pose proof (N_ascii_bounded b). unfold utf16_rank in H. destruct (N.leb_spec 240 (N_of_ascii a)), (N.leb_spec 240 (N_of_ascii b)); lia.
Qed.
Lemma js_leb_total (a b : string) : js_leb a b = true \/ js_leb b a = true.
Proof.
  revert b. induction a as [|x a IH]; intros [|y b]; cbn; auto. destruct (utf16_rank x <? utf16_rank y)%N eqn:E1; [by left|].
  destruct (utf16_rank y <? utf16_rank x)%N eqn:E2; [by right|apply IH].
Qed.
Lemma js_leb_antisym (a b : string) : js_leb a b = true -> js_leb b a = true -> a = b.
Proof.
  revert b. induction a as [|x a IH]; intros [|y b]; cbn; auto; try done. destruct (utf16_rank x <? utf16_rank y)%N eqn:E1.
  - destruct (utf16_rank y <? utf16_rank x)%N eqn:E2; [apply N.ltb_lt in E1, E2; lia|done].
  - destruct (utf16_rank y <? utf16_rank x)%N eqn:E2; [done|]. intros H1 H2. apply N.ltb_ge in E1, E2. f_equal; [apply utf16_rank_inj; lia|auto].
Qed.
Lemma js_leb_trans (a b c : string) : js_leb a b = true -> js_leb b c = true -> js_leb a c = true.
Proof.
  revert b c. induction a as [|x a IH]; intros [|y b] [|z c]; cbn; auto; try done.
  repeat match goal with |- context [(?p <? ?q)%N] => destruct (N.ltb_spec p q) end; try done; try lia; eauto.
Qed.

(** ** Sorting the properties of an object *)

Definition keys_le (a b : string * value) : Prop := js_leb (fst a) (fst b) = true.

Lemma insert_key_perm (kv : string * value) (o : list (string * value)) : Permutation (insert_key kv o) (kv :: o).
Proof. induction o as [|x o IH]; cbn; [done|]. destruct (js_leb _ _); [done|]. rewrite IH. constructor. Qed.
Lemma sort_keys_perm (o : list (string * value)) : Permutation (sort_keys o) o.
Proof. induction o as [|x o IH]; cbn; [done|]. unfold sort_keys in *. by rewrite insert_key_perm, IH. Qed.
Lemma insert_key_sorted (kv : string * value) (o : list (string * value)) : StronglySorted keys_le o -> StronglySorted keys_le (insert_key kv o).
Proof.
  induction 1 as [|x o Hs IH Hx]; cbn; [repeat constructor|]. destruct (js_leb (fst kv) (fst x)) eqn:E.
  - constructor; [by constructor|]. constructor; [done|]. eapply Forall_impl; [exact Hx|]. intros y Hy. by eapply js_leb_trans.
  - constructor; [done|]. rewrite insert_key_perm. constructor; [|done]. destruct (js_leb_total (fst kv) (fst x)); [congruence|done].
Qed.
Lemma sort_keys_sorted (o : list (string * value)) : StronglySorted keys_le (sort_keys o).
Proof. induction o; cbn; [constructor|by apply insert_key_sorted]. Qed.

(** A sorted list without repeated keys is determined by its elements. *)
Lemma sorted_unique (l1 l2 : list (string * value)) : StronglySorted keys_le l1 -> StronglySorted keys_le l2 -> NoDup (map fst l1) -> Permutation l1 l2 -> l1 = l2.
Proof.
  intros H1. revert l2. induction H1 as [|x l1 Hs IH Hx]; intros l2 H2 Hnd Hp; [by apply Permutation_nil_l in Hp|].
  destruct H2 as [|y l2 Hs2 Hy]; [by apply Permutation_nil_r in Hp|]. cbn in Hnd. apply NoDup_cons in Hnd as [Hn Hnd].
  assert (x = y) as ->.
  { assert (In y (x :: l1)) as Hiny by (apply (Permutation_in y (Permutation_sym Hp)); by left). assert (In x (y :: l2)) as Hinx by (apply (Permutation_in x Hp); by left).
    destruct Hiny as [->|Hiny]; [done|]. destruct Hinx as [->|Hinx]; [done|]. exfalso. apply Hn, list_elem_of_In. rewrite List.Forall_forall in Hx, Hy.
    rewrite (js_leb_antisym (fst x) (fst y) (Hx y Hiny) (Hy x Hinx)). exact (in_map fst _ _ Hiny). }
  f_equal. apply IH; [done..|]. by apply Permutation_cons_inv in Hp.
Qed.
Lemma sort_keys_unique (o1 o2 : list (string * value)) : NoDup (map fst o1) -> Permutation o1 o2 -> sort_keys o1 = sort_keys o2.
Proof.
  intros Hnd Hp. apply sorted_unique; [apply sort_keys_sorted..| |by rewrite !sort_keys_perm].
  by rewrite (Permutation_map fst (sort_keys_perm o1)).
Qed.

(** ** Building an object *)

Definition put (o : list (string * value)) (kv : string * value) : list (string * value) := obj_set (fst kv) (snd kv) o.

Lemma absent_key (k : string) (o : list (string * value)) : ~ In k (map fst o) -> existsb (fun kv => fst kv =s k) o = false.
Proof.
  intros H. destruct (existsb _ o) eqn:E; [|done]. apply existsb_exists in E as (kv & Hin & Hk). bsimpl. exfalso. apply H. subst. exact (in_map fst _ _ Hin).
Qed.
Lemma insert_index_perm (i : N) (kv : string * value) (o : list (string * value)) : Permutation (insert_index i kv o) (kv :: o).
Proof.
  induction o as [|[k v] o IH]; cbn; [done|]. destruct (is_index_key k) as [j|]; [|done]. destruct (j <? i)%N; [|done]. rewrite IH. constructor.
Qed.
Lemma obj_set_new (k : string) (v : value) (o : list (string * value)) : ~ In k (map fst o) -> Permutation (obj_set k v o) ((k, v) :: o).
Proof.
  intros H. unfold obj_set. rewrite absent_key by done. destruct (is_index_key k); [apply insert_index_perm|]. by rewrite Permutation_app_comm.
Qed.
Lemma build_perm (l acc : list (string * value)) : NoDup (map fst (acc ++ l)) -> Permutation (fold_left put l acc) (acc ++ l).
Proof.
  revert acc. induction l as [|[k v] l IH]; intros acc Hnd; cbn [fold_left]; [by rewrite app_nil_r|].
  rewrite map_app in Hnd. cbn in Hnd. apply NoDup_app in Hnd as (N1 & D & [Hk N2]%NoDup_cons).
  assert (~ In k (map fst acc)) as Hnew by (intros Hin%list_elem_of_In; apply (D k Hin); by left).
  assert (Permutation (put acc (k, v)) (acc ++ [(k, v)])) as Hp by (unfold put; cbn; rewrite obj_set_new by done; by rewrite Permutation_app_comm).
  rewrite IH; [by rewrite Hp, <- app_assoc|]. rewrite (Permutation_map fst (Permutation_app_tail l Hp)), <- app_assoc, map_app. cbn.
  apply NoDup_app. split; [done|]. split; [done|]. by constructor.
Qed.

(** The order in which JavaScript enumerates properties: index keys ascending, then the
    other keys. *)
Definition index (kv : string * value) : option N := is_index_key (fst kv).
Definition before (a b : string * value) : Prop :=
  fst a <> fst b /\ match index a, index b with Some i, Some j => (i < j)%N | None, Some _ => False | _, None => True end.
Definition distinct (l : list (string * value)) : Prop := NoDup (map fst l) /\ NoDup (omap index l).

Lemma distinct_perm (l l' : list (string * value)) : Permutation l l' -> distinct l -> distinct l'.
Proof. intros Hp [H1 H2]. split; [by rewrite <- (Permutation_map fst Hp)|]. by rewrite <- (omap_Permutation index l l' Hp). Qed.

Lemma sorted_distinct (l : list (string * value)) : StronglySorted before l -> distinct l.
Proof.
  induction 1 as [|x l Hs [H1 H2] Hx]; [split; constructor|]. rewrite List.Forall_forall in Hx. split; cbn.
  - constructor; [|done]. intros Hin%list_elem_of_In. apply in_map_iff in Hin as (y & Hy & Hin). by destruct (Hx y Hin).
  - destruct (index x) as [i|] eqn:Ei; [|done]. constructor; [|done]. intros (y & Hin & Hy)%list_elem_of_omap. apply list_elem_of_In in Hin.
    destruct (Hx y Hin) as [_ Hb]. rewrite Ei, Hy in Hb. lia.
Qed.

Lemma sorted_snoc (l : list (string * value)) (x : string * value) : StronglySorted before l -> Forall (fun a => before a x) l -> StronglySorted before (l ++ [x]).
Proof.
  induction 1 as [|y l Hs IH Hy]; cbn; intros Hl; [repeat constructor|]. apply Forall_cons_1 in Hl as [Hyx Hl]. constructor; [by apply IH|]. apply Forall_app. split; [done|]. constructor; [done|constructor].
Qed.
Lemma sorted_last (l r : list (string * value)) (x : string * value) : StronglySorted before (l ++ x :: r) -> Forall (fun a => before a x) l.
Proof.
  induction l as [|y l IH]; cbn; intros H; [constructor|]. inversion H as [|? ? Hs Hy]; subst. constructor; [|by apply IH].
  rewrite List.Forall_forall in Hy. apply Hy, in_or_app. right. by left.
Qed.

(** Appending is what [obj_set] does, when the key comes last. *)
Lemma insert_index_last (i : N) (kv : string * value) (o : list (string * value)) :
  Forall (fun a => exists j, index a = Some j /\ (j < i)%N) o -> insert_index i kv o = o ++ [kv].
Proof.
  induction 1 as [|[k v] o (j & Hj & Hlt) _ IH]; cbn; [done|]. unfold index in Hj. cbn in Hj. rewrite Hj. by rewrite (proj2 (N.ltb_lt j i) Hlt), IH.
Qed.
Lemma insert_index_last_inv (i : N) (kv : string * value) (o : list (string * value)) : ~ In (fst kv) (map fst o) ->
  insert_index i kv o = o ++ [kv] -> Forall (fun a => exists j, index a = Some j /\ (j < i)%N) o.
Proof.
  induction o as [|[k v] o IH]; cbn; intros Hn H; [constructor|]. destruct (is_index_key k) as [j|] eqn:Ej; [|injection H as -> _; exfalso; apply Hn; by left].
  destruct (N.ltb_spec j i); [|injection H as -> _; exfalso; apply Hn; by left]. injection H as H. constructor; [by exists j|]. apply IH; [|done]. intros Hin. apply Hn. by right.
Qed.

Lemma appended (k : string) (v : value) (acc : list (string * value)) : Forall (fun a => before a (k, v)) acc -> obj_set k v acc = acc ++ [(k, v)].
Proof.
  intros H. rewrite List.Forall_forall in H. unfold obj_set. rewrite absent_key.
  - destruct (is_index_key k) as [i|] eqn:Ei; [|done]. apply insert_index_last, List.Forall_forall. intros a Ha. destruct (H a Ha) as [_ Hb].
    change (index (k, v)) with (is_index_key k) in Hb. rewrite Ei in Hb. destruct (index a) as [j|]; [by exists j|done].
  - intros Hin. apply in_map_iff in Hin as (a & Hk & Ha). by destruct (H a Ha).
Qed.
Lemma appended_inv (k : string) (v : value) (acc : list (string * value)) : obj_set k v acc = acc ++ [(k, v)] -> Forall (fun a => before a (k, v)) acc.
Proof.
  unfold obj_set. destruct (existsb _ acc) eqn:Ex; intros H.
  { apply (f_equal List.length) in H. rewrite length_map, length_app in H. cbn in H. lia. }
  assert (forall a, In a acc -> fst a <> k) as Hk.
  { intros a Ha E. assert (existsb (fun kv => fst kv =s k) acc = true) as E'; [|congruence]. apply existsb_exists. exists a. split; [done|]. by apply String.eqb_eq. }
  apply List.Forall_forall. intros a Ha. split; [by apply Hk|]. change (index (k, v)) with (is_index_key k). destruct (is_index_key k) as [i|]; [|by destruct (index a)].
  apply insert_index_last_inv in H; [|intros Hin; apply in_map_iff in Hin as (b & Hb & Hin); by apply (Hk b Hin)].
  rewrite List.Forall_forall in H. destruct (H a Ha) as (j & -> & Hlt). done.
Qed.

Lemma in_order_sorted (acc o : list (string * value)) : in_order acc o -> StronglySorted before acc -> StronglySorted before (acc ++ o).
Proof.
  revert acc. induction o as [|[k v] o IH]; intros acc; cbn; [by rewrite app_nil_r|]. intros [Hset Ho] Hs.
  change ((k, v) :: o) with ([(k, v)] ++ o). rewrite app_assoc. apply IH; [done|]. apply sorted_snoc; [done|by apply appended_inv].
Qed.
Lemma sorted_in_order (acc o : list (string * value)) : StronglySorted before (acc ++ o) -> in_order acc o.
Proof.
  revert acc. induction o as [|[k v] o IH]; intros acc Hs; [done|]. split; [apply appended; by eapply sorted_last|]. apply IH. by rewrite <- app_assoc.
Qed.

Lemma distinct_from (l : list (string * value)) (x : string * value) : distinct (x :: l) ->
  Forall (fun a => fst a <> fst x /\ match index a, index x with Some i, Some j => i <> j | _, _ => True end) l.
Proof.
  intros [[Hn _]%NoDup_cons H2]. apply List.Forall_forall. intros a Ha. split; [intros E; apply Hn, list_elem_of_In; rewrite <- E; exact (in_map fst _ _ Ha)|].
  destruct (index a) as [i|] eqn:Ei; [|done]. destruct (index x) as [j|] eqn:Ej; [|done]. intros ->. cbn in H2. rewrite Ej in H2. apply NoDup_cons in H2 as [H2 _].
  apply H2, list_elem_of_omap. exists a. split; [by apply list_elem_of_In|done].
Qed.

Lemma insert_index_sorted (i : N) (kv : string * value) (o : list (string * value)) : index kv = Some i -> StronglySorted before o ->
  Forall (fun a => fst a <> fst kv /\ match index a, index kv with Some i, Some j => i <> j | _, _ => True end) o -> StronglySorted before (insert_index i kv o).
Proof.
  intros Hi. induction 1 as [|[k v] o Hs IH Hx]; intros Hd; cbn; [repeat constructor|]. apply Forall_cons_1 in Hd as [[Hk Hne] Hd]. rewrite Hi in Hne.
  change (is_index_key k) with (index (k, v)). destruct (index (k, v)) as [j|] eqn:Ej.
  - destruct (N.ltb_spec j i).
    + constructor; [by apply IH|]. rewrite insert_index_perm. constructor; [|done]. split; [done|]. by rewrite Ej, Hi.
    + assert (before kv (k, v)) as Hb by (split; [done|]; rewrite Hi, Ej; lia). constructor; [by constructor|]. constructor; [done|].
      rewrite List.Forall_forall in *. intros a Ha. destruct (Hd a Ha) as [Hka _], (Hx a Ha) as [_ Hxa]. split; [done|]. rewrite Hi. rewrite Ej in Hxa.
      destruct (index a); [|done]. destruct Hb as [_ Hb]. rewrite Hi, Ej in Hb. lia.
  - assert (before kv (k, v)) as Hb by (split; [done|]; by rewrite Hi, Ej). constructor; [by constructor|]. constructor; [done|].
    rewrite List.Forall_forall in *. intros a Ha. destruct (Hd a Ha) as [Hka _], (Hx a Ha) as [_ Hxa]. split; [done|]. rewrite Hi. rewrite Ej in Hxa. by destruct (index a).
Qed.

Lemma put_sorted (acc : list (string * value)) (kv : string * value) : StronglySorted before acc -> distinct (kv :: acc) -> StronglySorted before (put acc kv).
Proof.
  intros Hs Hd. pose proof (distinct_from _ _ Hd) as Hf. destruct kv as [k v]. unfold put, obj_set. cbn [fst snd]. rewrite absent_key.
  - change (is_index_key k) with (index (k, v)). destruct (index (k, v)) as [i|] eqn:Ei; [apply insert_index_sorted; [done..|]; by rewrite Ei|].
    apply sorted_snoc; [done|]. eapply Forall_impl; [exact Hf|]. intros a [Hk _]. split; [done|]. rewrite Ei. by destruct (index a).
  - destruct Hd as [[Hn _]%NoDup_cons _]. by rewrite <- list_elem_of_In.
Qed.

Lemma build_sorted (l acc : list (string * value)) : distinct (acc ++ l) -> StronglySorted before acc -> StronglySorted before (fold_left put l acc).
Proof.
  revert acc. induction l as [|kv l IH]; intros acc Hd Hs; cbn [fold_left]; [done|].
  assert (distinct (kv :: acc ++ l)) as Hd' by (eapply distinct_perm; [|exact Hd]; by rewrite Permutation_middle).
  assert (distinct (kv :: acc)) as Hd1.
  { destruct Hd' as [H1 H2]. split.
    - change (kv :: acc ++ l) with ((kv :: acc) ++ l) in H1. rewrite map_app in H1. by apply NoDup_app in H1 as [? _].
    - change (kv :: acc ++ l) with ((kv :: acc) ++ l) in H2. rewrite omap_app in H2. by apply NoDup_app in H2 as [? _]. }
  apply IH; [|by apply put_sorted]. eapply distinct_perm; [|exact Hd'].
  unfold put. rewrite obj_set_new; [by destruct kv|]. destruct Hd1 as [[Hn _]%NoDup_cons _]. by rewrite <- list_elem_of_In.
Qed.

(** ** Canonical values *)

(** Equal up to the order of object keys, at every level. *)
Inductive same_json : value -> value -> Prop :=
  | same_leaf (v : value) : same_json v v
  | same_arr (l l' : list value) : Forall2 same_json l l' -> same_json (VArr l) (VArr l')
  | same_obj (o o' p : list (string * value)) :
      Forall2 (fun a b => fst a = fst b /\ same_json (snd a) (snd b)) o p -> Permutation p o' -> same_json (VObj o) (VObj o').

(** The value with the keys of its objects in canonical order. *)
Fixpoint sorted_json (v : value) : value :=
  match v with
  | VArr l => VArr (map sorted_json l)
  | VObj o => VObj (fold_left put (sort_keys (map (fun kv => (fst kv, sorted_json (snd kv))) o)) [])
  | _ => v
  end.
Definition canonical_members (o : list (string * value)) : list (string * value) := map (fun kv => (fst kv, sorted_json (snd kv))) o.
Definition built (o : list (string * value)) : list (string * value) := fold_left put (sort_keys (canonical_members o)) [].
Lemma sorted_obj (o : list (string * value)) : sorted_json (VObj o) = VObj (built o).
Proof. reflexivity. Qed.

Lemma members_distinct (o : list (string * value)) : distinct o -> distinct (canonical_members o).
Proof.
  intros [H1 H2]. unfold canonical_members. split; [by rewrite List.map_map|]. replace (omap index _) with (omap index o); [done|].
  clear. induction o as [|[k v] o IH]; [done|]. cbn. change (index (k, sorted_json v)) with (index (k, v)). by rewrite IH.
Qed.
Lemma json_distinct (o : list (string * value)) : json_data (VObj o) -> distinct o.
Proof. intros [H _]%json_data_obj. apply sorted_distinct. exact (in_order_sorted [] o H (SSorted_nil _)). Qed.
Lemma built_perm (o : list (string * value)) : distinct o -> Permutation (built o) (canonical_members o).
Proof.
  intros H. apply members_distinct in H as [H _]. unfold built. rewrite build_perm; cbn; [apply sort_keys_perm|]. by rewrite (Permutation_map fst (sort_keys_perm _)).
Qed.
Lemma built_order (o : list (string * value)) : distinct o -> in_order [] (built o).
Proof.
  intros H. apply sorted_in_order. cbn. apply build_sorted; [|constructor]. cbn. eapply distinct_perm; [symmetry; apply sort_keys_perm|]. by apply members_distinct.
Qed.

Lemma canonical_json (v : value) : json_data v -> json_data (sorted_json v).
Proof.
  induction v as [| |b|n|s|l IH|o IH] using value_ind'; intros Hd; try done.
  - apply json_data_arr. apply json_data_arr in Hd. apply List.Forall_forall. intros x (y & <- & Hy)%in_map_iff. rewrite List.Forall_forall in IH, Hd. auto.
  - rewrite sorted_obj. pose proof (json_distinct o Hd) as Hdist. apply json_data_obj in Hd as [_ Hd]. apply json_data_obj. split; [by apply built_order|].
    rewrite (built_perm o Hdist). apply List.Forall_forall. intros x (y & <- & Hy)%in_map_iff. cbn. rewrite List.Forall_forall in IH, Hd. apply (IH y Hy), (Hd y Hy).
Qed.

(** Sorted forms agree exactly on values that are equal up to key order. *)
Lemma canonical_sound (v w : value) : json_data v -> same_json v w -> sorted_json v = sorted_json w.
Proof.
  revert w. induction v as [| |b|n|s|l IH|o IH] using value_ind'; intros w Hd H; inversion H as [|? l' Hl|? o' p Hf Hp]; subst; try done.
  - cbn. f_equal. apply json_data_arr in Hd. clear H. induction Hl as [|x y l l' Hxy _ IHl]; [done|]. cbn.
    apply Forall_cons_1 in IH as [IHx IH], Hd as [Hx Hd]. f_equal; [by apply IHx|by apply IHl].
  - rewrite !sorted_obj. f_equal. pose proof (json_distinct o Hd) as Hdist. apply json_data_obj in Hd as [_ Hd].
    assert (canonical_members o = canonical_members p) as E.
    { clear Hdist H Hp. induction Hf as [|[k x] [k' y] o p [Hk Hxy] _ IHf]; [done|]. cbn in *. apply Forall_cons_1 in IH as [IHx IH], Hd as [Hx Hd]. cbn in *. subst k'.
      f_equal; [f_equal; by apply IHx|by apply IHf]. }
    unfold built. f_equal. rewrite E. apply sort_keys_unique; [|by apply Permutation_map]. rewrite <- E. apply (members_distinct o Hdist).
Qed.
Lemma canonical_complete (v w : value) : json_data v -> json_data w -> sorted_json v = sorted_json w -> same_json v w.
Proof.
  revert w. induction v as [| |b|n|s|l IH|o IH] using value_ind'; intros w Hd Hw H; destruct w as [| |b'|n'|s'|l'|o']; try discriminate H; try (rewrite ?H; constructor; done); try (injection H as ->; constructor).
  - injection H as H. constructor. apply json_data_arr in Hd, Hw. revert l' Hw H. induction l as [|x l IHl]; intros [|y l'] Hw H; try discriminate H; [constructor|].
    injection H as Hx H. apply Forall_cons_1 in IH as [IHx IH], Hd as [Hdx Hd], Hw as [Hwy Hw]. constructor; [by apply IHx|by apply IHl].
  - rewrite !sorted_obj in H. injection H as H. pose proof (built_perm o (json_distinct o Hd)) as P1. pose proof (built_perm o' (json_distinct o' Hw)) as P2.
    rewrite H, P2 in P1. destruct (Permutation_map_inv _ _ (Permutation_sym P1)) as (p & Ep & Hp). apply json_data_obj in Hd as [_ Hd], Hw as [_ Hw].
    apply (same_obj o o' p); [|by symmetry]. rewrite Hp in Hw. clear H P1 P2 Hp. revert p Hw Ep. induction o as [|[k x] o IHo]; intros [|[k' y] p] Hw Ep; try discriminate Ep; [constructor|].
    injection Ep as Hk Hxy Ep. cbn in *. apply Forall_cons_1 in IH as [IHx IH], Hd as [Hdx Hd], Hw as [Hwy Hw]. constructor; [split; [done|by apply IHx]|by apply IHo].
Qed.

(** ** Keys that are lost *)

(** The value without the keys named [__proto__], at every level. *)
Definition plain_key (kv : string * value) : bool := negb (fst kv =s "__proto__").
Fixpoint plain (v : value) : value :=
  match v with
  | VArr l => VArr (map plain l)
  | VObj o => VObj (List.filter plain_key (map (fun kv => (fst kv, plain (snd kv))) o))
  | _ => v
  end.

Lemma filter_insert_key (kv : string * value) (o : list (string * value)) : StronglySorted keys_le o ->
  List.filter plain_key (insert_key kv o) = if plain_key kv then insert_key kv (List.filter plain_key o) else List.filter plain_key o.
Proof.
  induction 1 as [|x o Hs IH Hx]; cbn [insert_key List.filter]; [by destruct (plain_key kv)|]. destruct (js_leb (fst kv) (fst x)) eqn:E.
  - cbn [List.filter]. destruct (plain_key kv) eqn:Ek; [|done]. destruct (plain_key x); [cbn [insert_key]; by rewrite E|].
    destruct (List.filter plain_key o) as [|y l] eqn:Ef; [done|]. cbn [insert_key]. assert (js_leb (fst kv) (fst y) = true) as ->; [|done].
    assert (In y (List.filter plain_key o)) as Hy by (rewrite Ef; by left). apply List.filter_In in Hy as [Hy _]. rewrite List.Forall_forall in Hx.
    eapply js_leb_trans; [exact E|by apply Hx].
  - cbn [List.filter]. rewrite IH. destruct (plain_key x) eqn:Ex, (plain_key kv) eqn:Ek; try done. cbn [insert_key]. by rewrite E.
Qed.
Lemma filter_sort_keys (o : list (string * value)) : List.filter plain_key (sort_keys o) = sort_keys (List.filter plain_key o).
Proof.
  induction o as [|kv o IH]; [done|]. change (sort_keys (kv :: o)) with (insert_key kv (sort_keys o)). rewrite filter_insert_key by apply sort_keys_sorted.
  cbn [List.filter]. rewrite IH. by destruct (plain_key kv).
Qed.
Lemma assign_keys (l acc : list (string * value)) : fold_left assign_key l acc = fold_left put (List.filter plain_key l) acc.
Proof.
  revert acc. induction l as [|kv l IH]; intros acc; [done|]. cbn [fold_left List.filter]. unfold assign_key at 2, plain_key at 1. destruct (fst kv =s "__proto__"); cbn [negb]; apply IH.
Qed.
Lemma filter_keys {A B : Type} (f : A -> B) (p : string -> bool) (o : list (string * A)) :
  List.filter (fun kv => p (fst kv)) (map (fun kv => (fst kv, f (snd kv))) o) = map (fun kv => (fst kv, f (snd kv))) (List.filter (fun kv => p (fst kv)) o).
Proof. induction o as [|kv o IH]; cbn; [done|]. destruct (p (fst kv)); cbn; by rewrite IH. Qed.

(** [canonicalize] sorts the keys that are not lost. *)
Lemma canonicalize_plain (v : value) : canonicalize v = sorted_json (plain v).
Proof.
  induction v as [| |b|n|s|l IH|o IH] using value_ind'; try done; cbn [canonicalize plain sorted_json].
  - f_equal. rewrite List.map_map. apply List.map_ext_Forall. exact IH.
  - f_equal. rewrite assign_keys, filter_sort_keys. do 2 f_equal. unfold plain_key.
    rewrite !(filter_keys _ (fun k => negb (k =s "__proto__"))), List.map_map. apply List.map_ext_Forall. apply List.Forall_forall. intros kv Hin.
    apply List.filter_In in Hin as [Hin _]. rewrite List.Forall_forall in IH. cbn. by rewrite (IH kv Hin).
Qed.

Lemma sorted_filter (R : relation (string * value)) (p : string * value -> bool) (l : list (string * value)) : StronglySorted R l -> StronglySorted R (List.filter p l).
Proof.
  induction 1 as [|x l Hs IH Hx]; cbn; [constructor|]. destruct (p x); [|done]. constructor; [done|]. rewrite List.Forall_forall in *. intros y Hy. apply List.filter_In in Hy as [Hy _]. auto.
Qed.
Lemma plain_sorted (o : list (string * value)) : StronglySorted before o -> StronglySorted before (map (fun kv => (fst kv, plain (snd kv))) o).
Proof. induction 1 as [|x l Hs IH Hx]; cbn; [constructor|]. constructor; [done|]. rewrite List.Forall_forall in *. intros y (z & <- & Hz)%in_map_iff. apply (Hx z Hz). Qed.
Lemma plain_json (v : value) : json_data v -> json_data (plain v).
Proof.
  induction v as [| |b|n|s|l IH|o IH] using value_ind'; intros Hd; try done; cbn [plain].
  - apply json_data_arr. apply json_data_arr in Hd. apply List.Forall_forall. intros x (y & <- & Hy)%in_map_iff. rewrite List.Forall_forall in IH, Hd. auto.
  - apply json_data_obj in Hd as [Ho Hd]. apply json_data_obj. split.
    + apply sorted_in_order. cbn. apply sorted_filter, plain_sorted. exact (in_order_sorted [] o Ho (SSorted_nil _)).
    + apply List.Forall_forall. intros x Hx. apply List.filter_In in Hx as [Hx _]. apply in_map_iff in Hx as (y & <- & Hy). cbn. rewrite List.Forall_forall in IH, Hd. apply (IH y Hy), (Hd y Hy).
Qed.
Lemma canonicalize_json (v : value) : json_data v -> json_data (canonicalize v).
Proof. intros H. rewrite canonicalize_plain. by apply canonical_json, plain_json. Qed.

(** ** Fingerprints *)

Definition metadata_of (r : CreateTaskRequest) : value := if is_nullish (cr_metadata r) then VNull else cr_metadata r.
(** The text that is hashed. *)
Definition canonical_text (r : CreateTaskRequest) : string := default "undefined" (JSON_stringify (canonicalize (semantic_request r))).

(** Requests that mean the same to the Gateway. *)
Record same_request (a b : CreateTaskRequest) : Prop := {
  sr_agent : cr_agent a = cr_agent b; sr_node : cr_node_id a = cr_node_id b; sr_text : cr_input_text a = cr_input_text b;
  sr_key : cr_workspace_key a = cr_workspace_key b; sr_path : cr_workspace_path a = cr_workspace_path b; sr_mode : cr_permission_mode a = cr_permission_mode b;
  sr_write : cr_workspace_write a = cr_workspace_write b; sr_lease : cr_workspace_lease_id a = cr_workspace_lease_id b;
  sr_metadata : same_json (plain (metadata_of a)) (plain (metadata_of b)) }.

Definition write_value (o : option bool) : value := match o with Some b => VBool b | None => VNull end.
Lemma canonical_semantic (r : CreateTaskRequest) : canonicalize (semantic_request r) =
  VObj [ ("agent", VStr (cr_agent r)); ("input_text", VStr (cr_input_text r)); ("metadata", canonicalize (metadata_of r)); ("node_id", canonicalize (or_null (cr_node_id r)));
         ("permission_mode", canonicalize (or_null (cr_permission_mode r))); ("workspace_key", canonicalize (or_null (cr_workspace_key r)));
         ("workspace_lease_id", canonicalize (or_null (cr_workspace_lease_id r))); ("workspace_path", canonicalize (or_null (cr_workspace_path r)));
         ("workspace_write", canonicalize (write_value (cr_workspace_write r))) ].
Proof. reflexivity. Qed.
Lemma or_null_leaf (o : option string) : canonicalize (or_null o) = or_null o /\ json_data (or_null o).
Proof. by destruct o. Qed.
Lemma write_leaf (o : option bool) : canonicalize (write_value o) = write_value o /\ json_data (write_value o).
Proof. by destruct o. Qed.
Lemma or_null_inj (a b : option string) : or_null a = or_null b -> a = b.
Proof. destruct a, b; cbn; congruence. Qed.
Lemma write_inj (a b : option bool) : write_value a = write_value b -> a = b.
Proof. destruct a, b; cbn; congruence. Qed.

Lemma semantic_json (r : CreateTaskRequest) : json_data (metadata_of r) -> json_data (canonicalize (semantic_request r)).
Proof.
  intros H. rewrite canonical_semantic, !(fun o => proj1 (or_null_leaf o)), (proj1 (write_leaf _)). apply json_data_obj. split; [repeat split|].
  repeat constructor; cbn [snd]; try apply or_null_leaf; try apply write_leaf; try done. by apply canonicalize_json.
Qed.

Lemma text_inj (a b : CreateTaskRequest) : json_data (metadata_of a) -> json_data (metadata_of b) -> canonical_text a = canonical_text b ->
  canonicalize (semantic_request a) = canonicalize (semantic_request b).
Proof.
  intros Ha Hb. destruct (JSON_roundtrip _ (semantic_json a Ha)) as (s & Es & Ps). destruct (JSON_roundtrip _ (semantic_json b Hb)) as (t & Et & Pt).
  unfold canonical_text. rewrite Es, Et. intros E. change (s = t) in E. subst t. rewrite Ps in Pt. by apply (inj Some) in Pt.
Qed.

(** C36. What a fingerprint identifies.  For requests whose metadata is JSON data with
    integers below 10^21 as numbers, and as far as SHA-256 does not collide on their two
    canonical texts, the fingerprints agree exactly when agent, node, prompt, workspace key
    and path, permission mode, write grant and lease agree, and the metadata, without keys
    named [__proto__], which the code loses, is equal up to the order of object keys at
    every level.  So a retry with reordered keys is recognised, and a change to one of
    these is a conflict; the idempotency key and the verifier of a request are not part of
    its fingerprint. *)
Theorem fingerprint_identifies_request (sha256_hex : string -> string) (a b : CreateTaskRequest) :
  json_data (metadata_of a) -> json_data (metadata_of b) ->
  (sha256_hex (canonical_text a) = sha256_hex (canonical_text b) -> canonical_text a = canonical_text b) ->
  (computeRequestFingerprint sha256_hex a = computeRequestFingerprint sha256_hex b <-> same_request a b).
Proof.
  intros Ha Hb Hsha. change (computeRequestFingerprint sha256_hex a) with (sha256_hex (canonical_text a)). change (computeRequestFingerprint sha256_hex b) with (sha256_hex (canonical_text b)).
  split; intros H.
  - apply Hsha, text_inj in H; [|done..]. rewrite !canonical_semantic, !(fun o => proj1 (or_null_leaf o)), !(fun o => proj1 (write_leaf o)) in H.
    injection H as E1 E2 E3 E4 E5 E6 E7 E8 E9. constructor; auto using or_null_inj, write_inj.
    rewrite !canonicalize_plain in E3. by apply canonical_complete; [apply plain_json..|].
  - f_equal. unfold canonical_text. do 2 f_equal. destruct H. rewrite !canonical_semantic. rewrite sr_agent0, sr_node0, sr_text0, sr_key0, sr_path0, sr_mode0, sr_write0, sr_lease0.
    rewrite !canonicalize_plain. by rewrite (canonical_sound _ _ (plain_json _ Ha) sr_metadata0).
Qed.

Definition demo_create (metadata : value) : CreateTaskRequest :=
  {| cr_agent := "codex"; cr_node_id := Some "n1"; cr_input_text := "fix"; cr_workspace_key := None; cr_workspace_path := None; cr_permission_mode := None;
     cr_workspace_write := None; cr_metadata := metadata; cr_idempotency_key := Some "k"; cr_workspace_lease_id := None; cr_verify := None |}.
Lemma fingerprint_identifies_request_witness :
  computeRequestFingerprint (fun s => s) (demo_create (VObj [("a", VNum (NInt 1)); ("b", VNull)]))
  = computeRequestFingerprint (fun s => s) (demo_create (VObj [("b", VNull); ("a", VNum (NInt 1))])).
Proof.
  apply (fingerprint_identifies_request (fun s => s)); [cbn; repeat split; lia..|done|]. constructor; try reflexivity.
  eapply same_obj; [repeat constructor|]. cbn. apply perm_swap.
Defined.
