(* ===== verification/GatewayState.v ===== *)
(** * The Agent Gateway: state (src/lib/agent-gateway.ts)

    The in-memory registry of the Gateway and what its asynchronous handlers wait for.
    Task objects live in a heap, because callbacks keep a reference to an object after the
    registry [tasks] has dropped it.  A handler that awaits leaves a [Pending] value with
    the local variables its continuation needs. *)

From S2P Require Import Prelude Machine Values Json Contract Templates Verification Outputs StoreRows Store StoreOps TaskContract.

Inductive task_mode : Type := local | remote.

(** [gt_pump]: the running remote stream, live or replaying after a source sequence;
    [gt_registered]: is the object in the map [tasks]?  Timer handles are flags. *)
Record GatewayTask : Type := {
  gt_taskId : string; gt_agent : string; gt_mode : task_mode; gt_events : list TaskEvent; gt_nextSeq : Z; gt_emittedRunEvents : nat;
  gt_subscribers : list nat; gt_terminal : bool; gt_cancelInFlight : bool; gt_poll : bool; gt_pump : option (option Z);
  gt_reconciling : bool; gt_resumeCount : Z; gt_lastRecord : option RunRecord; gt_revision : Z; gt_nodeId : option string;
  gt_remoteRunId : option string; gt_recovered : bool; gt_historyTruncated : bool; gt_replayCapable : bool; gt_resultCapable : option bool;
  gt_replayCutoff : option num; gt_replayHistoryComplete : bool; gt_catchUpCleared : bool;
  gt_pendingResult : option (string * option AgentTaskResultV1); gt_registered : bool }.

Definition set_gt_events (x : list TaskEvent) (r : GatewayTask) : GatewayTask :=
  {| gt_taskId := gt_taskId r; gt_agent := gt_agent r; gt_mode := gt_mode r; gt_events := x; gt_nextSeq := gt_nextSeq r;
     gt_emittedRunEvents := gt_emittedRunEvents r; gt_subscribers := gt_subscribers r; gt_terminal := gt_terminal r; gt_cancelInFlight
     := gt_cancelInFlight r; gt_poll := gt_poll r; gt_pump := gt_pump r; gt_reconciling := gt_reconciling r; gt_resumeCount :=
     gt_resumeCount r; gt_lastRecord := gt_lastRecord r; gt_revision := gt_revision r; gt_nodeId := gt_nodeId r; gt_remoteRunId :=
     gt_remoteRunId r; gt_recovered := gt_recovered r; gt_historyTruncated := gt_historyTruncated r; gt_replayCapable :=
     gt_replayCapable r; gt_resultCapable := gt_resultCapable r; gt_replayCutoff := gt_replayCutoff r; gt_replayHistoryComplete :=
     gt_replayHistoryComplete r; gt_catchUpCleared := gt_catchUpCleared r; gt_pendingResult := gt_pendingResult r; gt_registered :=
     gt_registered r |}.
Definition set_gt_nextSeq (x : Z) (r : GatewayTask) : GatewayTask :=
  {| gt_taskId := gt_taskId r; gt_agent := gt_agent r; gt_mode := gt_mode r; gt_events := gt_events r; gt_nextSeq := x;
     gt_emittedRunEvents := gt_emittedRunEvents r; gt_subscribers := gt_subscribers r; gt_terminal := gt_terminal r; gt_cancelInFlight
     := gt_cancelInFlight r; gt_poll := gt_poll r; gt_pump := gt_pump r; gt_reconciling := gt_reconciling r; gt_resumeCount :=
     gt_resumeCount r; gt_lastRecord := gt_lastRecord r; gt_revision := gt_revision r; gt_nodeId := gt_nodeId r; gt_remoteRunId :=
     gt_remoteRunId r; gt_recovered := gt_recovered r; gt_historyTruncated := gt_historyTruncated r; gt_replayCapable :=
     gt_replayCapable r; gt_resultCapable := gt_resultCapable r; gt_replayCutoff := gt_replayCutoff r; gt_replayHistoryComplete :=
     gt_replayHistoryComplete r; gt_catchUpCleared := gt_catchUpCleared r; gt_pendingResult := gt_pendingResult r; gt_registered :=
     gt_registered r |}.
Definition set_gt_emittedRunEvents (x : nat) (r : GatewayTask) : GatewayTask :=
  {| gt_taskId := gt_taskId r; gt_agent := gt_agent r; gt_mode := gt_mode r; gt_events := gt_events r; gt_nextSeq := gt_nextSeq r;
     gt_emittedRunEvents := x; gt_subscribers := gt_subscribers r; gt_terminal := gt_terminal r; gt_cancelInFlight := gt_cancelInFlight
     r; gt_poll := gt_poll r; gt_pump := gt_pump r; gt_reconciling := gt_reconciling r; gt_resumeCount := gt_resumeCount r;
     gt_lastRecord := gt_lastRecord r; gt_revision := gt_revision r; gt_nodeId := gt_nodeId r; gt_remoteRunId := gt_remoteRunId r;
     gt_recovered := gt_recovered r; gt_historyTruncated := gt_historyTruncated r; gt_replayCapable := gt_replayCapable r;
     gt_resultCapable := gt_resultCapable r; gt_replayCutoff := gt_replayCutoff r; gt_replayHistoryComplete := gt_replayHistoryComplete
     r; gt_catchUpCleared := gt_catchUpCleared r; gt_pendingResult := gt_pendingResult r; gt_registered := gt_registered r |}.
Definition set_gt_subscribers (x : list nat) (r : GatewayTask) : GatewayTask :=
  {| gt_taskId := gt_taskId r; gt_agent := gt_agent r; gt_mode := gt_mode r; gt_events := gt_events r; gt_nextSeq := gt_nextSeq r;
     gt_emittedRunEvents := gt_emittedRunEvents r; gt_subscribers := x; gt_terminal := gt_terminal r; gt_cancelInFlight :=
     gt_cancelInFlight r; gt_poll := gt_poll r; gt_pump := gt_pump r; gt_reconciling := gt_reconciling r; gt_resumeCount :=
     gt_resumeCount r; gt_lastRecord := gt_lastRecord r; gt_revision := gt_revision r; gt_nodeId := gt_nodeId r; gt_remoteRunId :=
     gt_remoteRunId r; gt_recovered := gt_recovered r; gt_historyTruncated := gt_historyTruncated r; gt_replayCapable :=
     gt_replayCapable r; gt_resultCapable := gt_resultCapable r; gt_replayCutoff := gt_replayCutoff r; gt_replayHistoryComplete :=
     gt_replayHistoryComplete r; gt_catchUpCleared := gt_catchUpCleared r; gt_pendingResult := gt_pendingResult r; gt_registered :=
     gt_registered r |}.
Definition set_gt_terminal (x : bool) (r : GatewayTask) : GatewayTask :=
  {| gt_taskId := gt_taskId r; gt_agent := gt_agent r; gt_mode := gt_mode r; gt_events := gt_events r; gt_nextSeq := gt_nextSeq r;
     gt_emittedRunEvents := gt_emittedRunEvents r; gt_subscribers := gt_subscribers r; gt_terminal := x; gt_cancelInFlight :=
     gt_cancelInFlight r; gt_poll := gt_poll r; gt_pump := gt_pump r; gt_reconciling := gt_reconciling r; gt_resumeCount :=
     gt_resumeCount r; gt_lastRecord := gt_lastRecord r; gt_revision := gt_revision r; gt_nodeId := gt_nodeId r; gt_remoteRunId :=
     gt_remoteRunId r; gt_recovered := gt_recovered r; gt_historyTruncated := gt_historyTruncated r; gt_replayCapable :=
     gt_replayCapable r; gt_resultCapable := gt_resultCapable r; gt_replayCutoff := gt_replayCutoff r; gt_replayHistoryComplete :=
     gt_replayHistoryComplete r; gt_catchUpCleared := gt_catchUpCleared r; gt_pendingResult := gt_pendingResult r; gt_registered :=
     gt_registered r |}.
Definition set_gt_cancelInFlight (x : bool) (r : GatewayTask) : GatewayTask :=
  {| gt_taskId := gt_taskId r; gt_agent := gt_agent r; gt_mode := gt_mode r; gt_events := gt_events r; gt_nextSeq := gt_nextSeq r;
     gt_emittedRunEvents := gt_emittedRunEvents r; gt_subscribers := gt_subscribers r; gt_terminal := gt_terminal r; gt_cancelInFlight
     := x; gt_poll := gt_poll r; gt_pump := gt_pump r; gt_reconciling := gt_reconciling r; gt_resumeCount := gt_resumeCount r;
     gt_lastRecord := gt_lastRecord r; gt_revision := gt_revision r; gt_nodeId := gt_nodeId r; gt_remoteRunId := gt_remoteRunId r;
     gt_recovered := gt_recovered r; gt_historyTruncated := gt_historyTruncated r; gt_replayCapable := gt_replayCapable r;
     gt_resultCapable := gt_resultCapable r; gt_replayCutoff := gt_replayCutoff r; gt_replayHistoryComplete := gt_replayHistoryComplete
     r; gt_catchUpCleared := gt_catchUpCleared r; gt_pendingResult := gt_pendingResult r; gt_registered := gt_registered r |}.
Definition set_gt_poll (x : bool) (r : GatewayTask) : GatewayTask :=
  {| gt_taskId := gt_taskId r; gt_agent := gt_agent r; gt_mode := gt_mode r; gt_events := gt_events r; gt_nextSeq := gt_nextSeq r;
     gt_emittedRunEvents := gt_emittedRunEvents r; gt_subscribers := gt_subscribers r; gt_terminal := gt_terminal r; gt_cancelInFlight
     := gt_cancelInFlight r; gt_poll := x; gt_pump := gt_pump r; gt_reconciling := gt_reconciling r; gt_resumeCount := gt_resumeCount
     r; gt_lastRecord := gt_lastRecord r; gt_revision := gt_revision r; gt_nodeId := gt_nodeId r; gt_remoteRunId := gt_remoteRunId r;
     gt_recovered := gt_recovered r; gt_historyTruncated := gt_historyTruncated r; gt_replayCapable := gt_replayCapable r;
     gt_resultCapable := gt_resultCapable r; gt_replayCutoff := gt_replayCutoff r; gt_replayHistoryComplete := gt_replayHistoryComplete
     r; gt_catchUpCleared := gt_catchUpCleared r; gt_pendingResult := gt_pendingResult r; gt_registered := gt_registered r |}.
Definition set_gt_pump (x : option (option Z)) (r : GatewayTask) : GatewayTask :=
  {| gt_taskId := gt_taskId r; gt_agent := gt_agent r; gt_mode := gt_mode r; gt_events := gt_events r; gt_nextSeq := gt_nextSeq r;
     gt_emittedRunEvents := gt_emittedRunEvents r; gt_subscribers := gt_subscribers r; gt_terminal := gt_terminal r; gt_cancelInFlight
     := gt_cancelInFlight r; gt_poll := gt_poll r; gt_pump := x; gt_reconciling := gt_reconciling r; gt_resumeCount := gt_resumeCount
     r; gt_lastRecord := gt_lastRecord r; gt_revision := gt_revision r; gt_nodeId := gt_nodeId r; gt_remoteRunId := gt_remoteRunId r;
     gt_recovered := gt_recovered r; gt_historyTruncated := gt_historyTruncated r; gt_replayCapable := gt_replayCapable r;
     gt_resultCapable := gt_resultCapable r; gt_replayCutoff := gt_replayCutoff r; gt_replayHistoryComplete := gt_replayHistoryComplete
     r; gt_catchUpCleared := gt_catchUpCleared r; gt_pendingResult := gt_pendingResult r; gt_registered := gt_registered r |}.
Definition set_gt_reconciling (x : bool) (r : GatewayTask) : GatewayTask :=
  {| gt_taskId := gt_taskId r; gt_agent := gt_agent r; gt_mode := gt_mode r; gt_events := gt_events r; gt_nextSeq := gt_nextSeq r;
     gt_emittedRunEvents := gt_emittedRunEvents r; gt_subscribers := gt_subscribers r; gt_terminal := gt_terminal r; gt_cancelInFlight
     := gt_cancelInFlight r; gt_poll := gt_poll r; gt_pump := gt_pump r; gt_reconciling := x; gt_resumeCount := gt_resumeCount r;
     gt_lastRecord := gt_lastRecord r; gt_revision := gt_revision r; gt_nodeId := gt_nodeId r; gt_remoteRunId := gt_remoteRunId r;
     gt_recovered := gt_recovered r; gt_historyTruncated := gt_historyTruncated r; gt_replayCapable := gt_replayCapable r;
     gt_resultCapable := gt_resultCapable r; gt_replayCutoff := gt_replayCutoff r; gt_replayHistoryComplete := gt_replayHistoryComplete
     r; gt_catchUpCleared := gt_catchUpCleared r; gt_pendingResult := gt_pendingResult r; gt_registered := gt_registered r |}.
Definition set_gt_resumeCount (x : Z) (r : GatewayTask) : GatewayTask :=
  {| gt_taskId := gt_taskId r; gt_agent := gt_agent r; gt_mode := gt_mode r; gt_events := gt_events r; gt_nextSeq := gt_nextSeq r;
     gt_emittedRunEvents := gt_emittedRunEvents r; gt_subscribers := gt_subscribers r; gt_terminal := gt_terminal r; gt_cancelInFlight
     := gt_cancelInFlight r; gt_poll := gt_poll r; gt_pump := gt_pump r; gt_reconciling := gt_reconciling r; gt_resumeCount := x;
     gt_lastRecord := gt_lastRecord r; gt_revision := gt_revision r; gt_nodeId := gt_nodeId r; gt_remoteRunId := gt_remoteRunId r;
     gt_recovered := gt_recovered r; gt_historyTruncated := gt_historyTruncated r; gt_replayCapable := gt_replayCapable r;
     gt_resultCapable := gt_resultCapable r; gt_replayCutoff := gt_replayCutoff r; gt_replayHistoryComplete := gt_replayHistoryComplete
     r; gt_catchUpCleared := gt_catchUpCleared r; gt_pendingResult := gt_pendingResult r; gt_registered := gt_registered r |}.
Definition set_gt_lastRecord (x : option RunRecord) (r : GatewayTask) : GatewayTask :=
  {| gt_taskId := gt_taskId r; gt_agent := gt_agent r; gt_mode := gt_mode r; gt_events := gt_events r; gt_nextSeq := gt_nextSeq r;
     gt_emittedRunEvents := gt_emittedRunEvents r; gt_subscribers := gt_subscribers r; gt_terminal := gt_terminal r; gt_cancelInFlight
     := gt_cancelInFlight r; gt_poll := gt_poll r; gt_pump := gt_pump r; gt_reconciling := gt_reconciling r; gt_resumeCount :=
     gt_resumeCount r; gt_lastRecord := x; gt_revision := gt_revision r; gt_nodeId := gt_nodeId r; gt_remoteRunId := gt_remoteRunId r;
     gt_recovered := gt_recovered r; gt_historyTruncated := gt_historyTruncated r; gt_replayCapable := gt_replayCapable r;
     gt_resultCapable := gt_resultCapable r; gt_replayCutoff := gt_replayCutoff r; gt_replayHistoryComplete := gt_replayHistoryComplete
     r; gt_catchUpCleared := gt_catchUpCleared r; gt_pendingResult := gt_pendingResult r; gt_registered := gt_registered r |}.
Definition set_gt_revision (x : Z) (r : GatewayTask) : GatewayTask :=
  {| gt_taskId := gt_taskId r; gt_agent := gt_agent r; gt_mode := gt_mode r; gt_events := gt_events r; gt_nextSeq := gt_nextSeq r;
     gt_emittedRunEvents := gt_emittedRunEvents r; gt_subscribers := gt_subscribers r; gt_terminal := gt_terminal r; gt_cancelInFlight
     := gt_cancelInFlight r; gt_poll := gt_poll r; gt_pump := gt_pump r; gt_reconciling := gt_reconciling r; gt_resumeCount :=
     gt_resumeCount r; gt_lastRecord := gt_lastRecord r; gt_revision := x; gt_nodeId := gt_nodeId r; gt_remoteRunId := gt_remoteRunId
     r; gt_recovered := gt_recovered r; gt_historyTruncated := gt_historyTruncated r; gt_replayCapable := gt_replayCapable r;
     gt_resultCapable := gt_resultCapable r; gt_replayCutoff := gt_replayCutoff r; gt_replayHistoryComplete := gt_replayHistoryComplete
     r; gt_catchUpCleared := gt_catchUpCleared r; gt_pendingResult := gt_pendingResult r; gt_registered := gt_registered r |}.
Definition set_gt_remoteRunId (x : option string) (r : GatewayTask) : GatewayTask :=
  {| gt_taskId := gt_taskId r; gt_agent := gt_agent r; gt_mode := gt_mode r; gt_events := gt_events r; gt_nextSeq := gt_nextSeq r;
     gt_emittedRunEvents := gt_emittedRunEvents r; gt_subscribers := gt_subscribers r; gt_terminal := gt_terminal r; gt_cancelInFlight
     := gt_cancelInFlight r; gt_poll := gt_poll r; gt_pump := gt_pump r; gt_reconciling := gt_reconciling r; gt_resumeCount :=
     gt_resumeCount r; gt_lastRecord := gt_lastRecord r; gt_revision := gt_revision r; gt_nodeId := gt_nodeId r; gt_remoteRunId := x;
     gt_recovered := gt_recovered r; gt_historyTruncated := gt_historyTruncated r; gt_replayCapable := gt_replayCapable r;
     gt_resultCapable := gt_resultCapable r; gt_replayCutoff := gt_replayCutoff r; gt_replayHistoryComplete := gt_replayHistoryComplete
     r; gt_catchUpCleared := gt_catchUpCleared r; gt_pendingResult := gt_pendingResult r; gt_registered := gt_registered r |}.
Definition set_gt_historyTruncated (x : bool) (r : GatewayTask) : GatewayTask :=
  {| gt_taskId := gt_taskId r; gt_agent := gt_agent r; gt_mode := gt_mode r; gt_events := gt_events r; gt_nextSeq := gt_nextSeq r;
     gt_emittedRunEvents := gt_emittedRunEvents r; gt_subscribers := gt_subscribers r; gt_terminal := gt_terminal r; gt_cancelInFlight
     := gt_cancelInFlight r; gt_poll := gt_poll r; gt_pump := gt_pump r; gt_reconciling := gt_reconciling r; gt_resumeCount :=
     gt_resumeCount r; gt_lastRecord := gt_lastRecord r; gt_revision := gt_revision r; gt_nodeId := gt_nodeId r; gt_remoteRunId :=
     gt_remoteRunId r; gt_recovered := gt_recovered r; gt_historyTruncated := x; gt_replayCapable := gt_replayCapable r;
     gt_resultCapable := gt_resultCapable r; gt_replayCutoff := gt_replayCutoff r; gt_replayHistoryComplete := gt_replayHistoryComplete
     r; gt_catchUpCleared := gt_catchUpCleared r; gt_pendingResult := gt_pendingResult r; gt_registered := gt_registered r |}.
Definition set_gt_replayCapable (x : bool) (r : GatewayTask) : GatewayTask :=
  {| gt_taskId := gt_taskId r; gt_agent := gt_agent r; gt_mode := gt_mode r; gt_events := gt_events r; gt_nextSeq := gt_nextSeq r;
     gt_emittedRunEvents := gt_emittedRunEvents r; gt_subscribers := gt_subscribers r; gt_terminal := gt_terminal r; gt_cancelInFlight
     := gt_cancelInFlight r; gt_poll := gt_poll r; gt_pump := gt_pump r; gt_reconciling := gt_reconciling r; gt_resumeCount :=
     gt_resumeCount r; gt_lastRecord := gt_lastRecord r; gt_revision := gt_revision r; gt_nodeId := gt_nodeId r; gt_remoteRunId :=
     gt_remoteRunId r; gt_recovered := gt_recovered r; gt_historyTruncated := gt_historyTruncated r; gt_replayCapable := x;
     gt_resultCapable := gt_resultCapable r; gt_replayCutoff := gt_replayCutoff r; gt_replayHistoryComplete := gt_replayHistoryComplete
     r; gt_catchUpCleared := gt_catchUpCleared r; gt_pendingResult := gt_pendingResult r; gt_registered := gt_registered r |}.
Definition set_gt_resultCapable (x : option bool) (r : GatewayTask) : GatewayTask :=
  {| gt_taskId := gt_taskId r; gt_agent := gt_agent r; gt_mode := gt_mode r; gt_events := gt_events r; gt_nextSeq := gt_nextSeq r;
     gt_emittedRunEvents := gt_emittedRunEvents r; gt_subscribers := gt_subscribers r; gt_terminal := gt_terminal r; gt_cancelInFlight
     := gt_cancelInFlight r; gt_poll := gt_poll r; gt_pump := gt_pump r; gt_reconciling := gt_reconciling r; gt_resumeCount :=
     gt_resumeCount r; gt_lastRecord := gt_lastRecord r; gt_revision := gt_revision r; gt_nodeId := gt_nodeId r; gt_remoteRunId :=
     gt_remoteRunId r; gt_recovered := gt_recovered r; gt_historyTruncated := gt_historyTruncated r; gt_replayCapable :=
     gt_replayCapable r; gt_resultCapable := x; gt_replayCutoff := gt_replayCutoff r; gt_replayHistoryComplete :=
     gt_replayHistoryComplete r; gt_catchUpCleared := gt_catchUpCleared r; gt_pendingResult := gt_pendingResult r; gt_registered :=
     gt_registered r |}.
Definition set_gt_replayCutoff (x : option num) (r : GatewayTask) : GatewayTask :=
  {| gt_taskId := gt_taskId r; gt_agent := gt_agent r; gt_mode := gt_mode r; gt_events := gt_events r; gt_nextSeq := gt_nextSeq r;
     gt_emittedRunEvents := gt_emittedRunEvents r; gt_subscribers := gt_subscribers r; gt_terminal := gt_terminal r; gt_cancelInFlight
     := gt_cancelInFlight r; gt_poll := gt_poll r; gt_pump := gt_pump r; gt_reconciling := gt_reconciling r; gt_resumeCount :=
     gt_resumeCount r; gt_lastRecord := gt_lastRecord r; gt_revision := gt_revision r; gt_nodeId := gt_nodeId r; gt_remoteRunId :=
     gt_remoteRunId r; gt_recovered := gt_recovered r; gt_historyTruncated := gt_historyTruncated r; gt_replayCapable :=
     gt_replayCapable r; gt_resultCapable := gt_resultCapable r; gt_replayCutoff := x; gt_replayHistoryComplete :=
     gt_replayHistoryComplete r; gt_catchUpCleared := gt_catchUpCleared r; gt_pendingResult := gt_pendingResult r; gt_registered :=
     gt_registered r |}.
Definition set_gt_replayHistoryComplete (x : bool) (r : GatewayTask) : GatewayTask :=
  {| gt_taskId := gt_taskId r; gt_agent := gt_agent r; gt_mode := gt_mode r; gt_events := gt_events r; gt_nextSeq := gt_nextSeq r;
     gt_emittedRunEvents := gt_emittedRunEvents r; gt_subscribers := gt_subscribers r; gt_terminal := gt_terminal r; gt_cancelInFlight
     := gt_cancelInFlight r; gt_poll := gt_poll r; gt_pump := gt_pump r; gt_reconciling := gt_reconciling r; gt_resumeCount :=
     gt_resumeCount r; gt_lastRecord := gt_lastRecord r; gt_revision := gt_revision r; gt_nodeId := gt_nodeId r; gt_remoteRunId :=
     gt_remoteRunId r; gt_recovered := gt_recovered r; gt_historyTruncated := gt_historyTruncated r; gt_replayCapable :=
     gt_replayCapable r; gt_resultCapable := gt_resultCapable r; gt_replayCutoff := gt_replayCutoff r; gt_replayHistoryComplete := x;
     gt_catchUpCleared := gt_catchUpCleared r; gt_pendingResult := gt_pendingResult r; gt_registered := gt_registered r |}.
Definition set_gt_catchUpCleared (x : bool) (r : GatewayTask) : GatewayTask :=
  {| gt_taskId := gt_taskId r; gt_agent := gt_agent r; gt_mode := gt_mode r; gt_events := gt_events r; gt_nextSeq := gt_nextSeq r;
     gt_emittedRunEvents := gt_emittedRunEvents r; gt_subscribers := gt_subscribers r; gt_terminal := gt_terminal r; gt_cancelInFlight
     := gt_cancelInFlight r; gt_poll := gt_poll r; gt_pump := gt_pump r; gt_reconciling := gt_reconciling r; gt_resumeCount :=
     gt_resumeCount r; gt_lastRecord := gt_lastRecord r; gt_revision := gt_revision r; gt_nodeId := gt_nodeId r; gt_remoteRunId :=
     gt_remoteRunId r; gt_recovered := gt_recovered r; gt_historyTruncated := gt_historyTruncated r; gt_replayCapable :=
     gt_replayCapable r; gt_resultCapable := gt_resultCapable r; gt_replayCutoff := gt_replayCutoff r; gt_replayHistoryComplete :=
     gt_replayHistoryComplete r; gt_catchUpCleared := x; gt_pendingResult := gt_pendingResult r; gt_registered := gt_registered r |}.
Definition set_gt_pendingResult (x : option (string * option AgentTaskResultV1)) (r : GatewayTask) : GatewayTask :=
  {| gt_taskId := gt_taskId r; gt_agent := gt_agent r; gt_mode := gt_mode r; gt_events := gt_events r; gt_nextSeq := gt_nextSeq r;
     gt_emittedRunEvents := gt_emittedRunEvents r; gt_subscribers := gt_subscribers r; gt_terminal := gt_terminal r; gt_cancelInFlight
     := gt_cancelInFlight r; gt_poll := gt_poll r; gt_pump := gt_pump r; gt_reconciling := gt_reconciling r; gt_resumeCount :=
     gt_resumeCount r; gt_lastRecord := gt_lastRecord r; gt_revision := gt_revision r; gt_nodeId := gt_nodeId r; gt_remoteRunId :=
     gt_remoteRunId r; gt_recovered := gt_recovered r; gt_historyTruncated := gt_historyTruncated r; gt_replayCapable :=
     gt_replayCapable r; gt_resultCapable := gt_resultCapable r; gt_replayCutoff := gt_replayCutoff r; gt_replayHistoryComplete :=
     gt_replayHistoryComplete r; gt_catchUpCleared := gt_catchUpCleared r; gt_pendingResult := x; gt_registered := gt_registered r |}.
Definition set_gt_registered (x : bool) (r : GatewayTask) : GatewayTask :=
  {| gt_taskId := gt_taskId r; gt_agent := gt_agent r; gt_mode := gt_mode r; gt_events := gt_events r; gt_nextSeq := gt_nextSeq r;
     gt_emittedRunEvents := gt_emittedRunEvents r; gt_subscribers := gt_subscribers r; gt_terminal := gt_terminal r; gt_cancelInFlight
     := gt_cancelInFlight r; gt_poll := gt_poll r; gt_pump := gt_pump r; gt_reconciling := gt_reconciling r; gt_resumeCount :=
     gt_resumeCount r; gt_lastRecord := gt_lastRecord r; gt_revision := gt_revision r; gt_nodeId := gt_nodeId r; gt_remoteRunId :=
     gt_remoteRunId r; gt_recovered := gt_recovered r; gt_historyTruncated := gt_historyTruncated r; gt_replayCapable :=
     gt_replayCapable r; gt_resultCapable := gt_resultCapable r; gt_replayCutoff := gt_replayCutoff r; gt_replayHistoryComplete :=
     gt_replayHistoryComplete r; gt_catchUpCleared := gt_catchUpCleared r; gt_pendingResult := gt_pendingResult r; gt_registered := x |}.

(** An event stream of a client: what was sent on it and whether it was ended;
    [ss_live]: was it opened on a task in memory? *)
Record Sse : Type := { ss_task : string; ss_live : bool; ss_sent : list TaskEvent; ss_ended : bool }.

(** A node as the relay's registry describes it; [None] for a field that is not an array. *)
Record RemoteNode : Type := {
  vn_node_id : string; vn_online : bool; vn_agents : option (list string); vn_capabilities : option (list string); vn_encryption_public_key : option string }.

(** What asynchronous code waits for. *)
Inductive Pending : Type :=
  | PResult (id : string) (ev : TaskEvent) (attempt : nat)          (** finishRemoteWithResult: remoteRunResult *)
  | PResultTimer (id : string) (ev : TaskEvent) (attempt : nat)
  | PFetch (id : string)                                            (** fetchRemoteResult: remoteRunResult *)
  | PPersist (id : string)                                          (** fetchAndPersistRemoteResult, after its await *)
  | PStatus (id : string) (attempt : nat)                           (** reconcileViaStatus: remoteRunStatus *)
  | PStatusTimer (id : string) (attempt : nat)
  | PRecover (id : string) (attempt : nat)                          (** a recovery timer *)
  | PRecoverStatus (id : string) (attempt : nat)                    (** reconcileRecovered: remoteRunStatus *)
  | PBody                                                           (** handleCreate: readBody *)
  | PNodes (req : CreateTaskRequest) (fp : option string)           (** handleCreate: fetchRemoteNodes *)
  | PRemoteStart (req : CreateTaskRequest) (task : GatewayTask) (created : TaskEvent) (replay result : bool)
                                                                    (** handleCreate: remoteRunStart of a persisted task *)
  | PStart (req : CreateTaskRequest) (fp : option string) (mode : task_mode)   (** handleCreate: startRun or remoteRunStart *)
  | PGet (id : string)                                              (** handleGet: remoteRunStatus *)
  | PCancelStatus (id : string)                                     (** handleCancel: remoteRunStatus *)
  | PCancelStop (id : string)                                       (** handleCancel: remoteStop *)
  | PCancelRetry (id message : string).                             (** handleCancel: remoteRunStatus after a failed stop *)

(** Does it hold a reservation of [pendingCreates]? *)
Definition reserves (p : Pending) : bool := match p with PNodes _ _ | PRemoteStart _ _ _ _ _ | PStart _ _ _ => true | _ => false end.

Record Gateway : Type := {
  gw_heap : gmap string GatewayTask; gw_completedOrder : list string; gw_activeCount : Z; gw_pendingCreates : Z; gw_shuttingDown : bool;
  gw_db : option DB; gw_streams : gmap nat Sse; gw_pending : list Pending }.

Definition set_gw_heap (x : gmap string GatewayTask) (r : Gateway) : Gateway :=
  {| gw_heap := x; gw_completedOrder := gw_completedOrder r; gw_activeCount := gw_activeCount r; gw_pendingCreates := gw_pendingCreates
     r; gw_shuttingDown := gw_shuttingDown r; gw_db := gw_db r; gw_streams := gw_streams r; gw_pending := gw_pending r |}.
Definition set_gw_completedOrder (x : list string) (r : Gateway) : Gateway :=
  {| gw_heap := gw_heap r; gw_completedOrder := x; gw_activeCount := gw_activeCount r; gw_pendingCreates := gw_pendingCreates r;
     gw_shuttingDown := gw_shuttingDown r; gw_db := gw_db r; gw_streams := gw_streams r; gw_pending := gw_pending r |}.
Definition set_gw_activeCount (x : Z) (r : Gateway) : Gateway :=
  {| gw_heap := gw_heap r; gw_completedOrder := gw_completedOrder r; gw_activeCount := x; gw_pendingCreates := gw_pendingCreates r;
     gw_shuttingDown := gw_shuttingDown r; gw_db := gw_db r; gw_streams := gw_streams r; gw_pending := gw_pending r |}.
Definition set_gw_pendingCreates (x : Z) (r : Gateway) : Gateway :=
  {| gw_heap := gw_heap r; gw_completedOrder := gw_completedOrder r; gw_activeCount := gw_activeCount r; gw_pendingCreates := x;
     gw_shuttingDown := gw_shuttingDown r; gw_db := gw_db r; gw_streams := gw_streams r; gw_pending := gw_pending r |}.
Definition set_gw_db (x : option DB) (r : Gateway) : Gateway :=
  {| gw_heap := gw_heap r; gw_completedOrder := gw_completedOrder r; gw_activeCount := gw_activeCount r; gw_pendingCreates :=
     gw_pendingCreates r; gw_shuttingDown := gw_shuttingDown r; gw_db := x; gw_streams := gw_streams r; gw_pending := gw_pending r |}.
Definition set_gw_streams (x : gmap nat Sse) (r : Gateway) : Gateway :=
  {| gw_heap := gw_heap r; gw_completedOrder := gw_completedOrder r; gw_activeCount := gw_activeCount r; gw_pendingCreates :=
     gw_pendingCreates r; gw_shuttingDown := gw_shuttingDown r; gw_db := gw_db r; gw_streams := x; gw_pending := gw_pending r |}.
Definition set_gw_pending (x : list Pending) (r : Gateway) : Gateway :=
  {| gw_heap := gw_heap r; gw_completedOrder := gw_completedOrder r; gw_activeCount := gw_activeCount r; gw_pendingCreates :=
     gw_pendingCreates r; gw_shuttingDown := gw_shuttingDown r; gw_db := gw_db r; gw_streams := gw_streams r; gw_pending := x |}.

(** ** The monad *)

(** [Exited]: [process.exit], which no [catch] intercepts. *)
Inductive gw_error : Type := StoreError (code : err_code) | Unreadable | Exited.
Definition G (A : Type) : Type := ST Gateway gw_error A.

(** [try { m } catch { h }]. *)
Definition attempt {A : Type} (m h : G A) : G A := catch m (fun e => match e with Exited => raise Exited | _ => h end).

(** A call to the durable store. *)
Definition store {A : Type} (m : M A) : G A := fun g =>
  match gw_db g with
  | None => (Err (StoreError type_error), g)
  | Some db => let (r, db') := m db in (match r with Ok a => Ok a | Err e => Err (StoreError e) end, set_gw_db (Some db') g)
  end.
Definition persist : G bool := asks (fun g => is_some (gw_db g)).

Definition the_task (id : string) : G GatewayTask := o ← asks (fun g => gw_heap g !! id); obtain o (StoreError type_error).
Definition modify_task (id : string) (f : GatewayTask -> GatewayTask) : G unit := update (fun g => set_gw_heap (alter f id (gw_heap g)) g).
Definition awaits (p : Pending) : G unit := update (fun g => set_gw_pending (gw_pending g ++ [p]) g).
