(* ===== verification/Gateway.v ===== *)
(** * The Agent Gateway: tasks, streams and recovery (src/lib/agent-gateway.ts)

    The synchronous sections of the Gateway as functions over [Gateway]; a section ends
    where the code awaits, and what follows the await is a function of the answer.  Runs
    on the local machine, the clock and generated identifiers come from a [World]. *)

From S2P Require Import Prelude Machine Values Json Contract Templates Verification Outputs StoreRows Store StoreOps RuntimeEnv TaskContract Workspace GatewayState.

Definition MAX_BODY_BYTES : Z := 1048576.
Definition MAX_EVENTS_PER_TASK : Z := 1000.
Definition MAX_RETAINED_COMPLETED_TASKS : Z := 100.
Definition MAX_ACTIVE_TASKS : Z := 32.
Definition GATEWAY_LOCAL_AGENTS : list string := ["mock"].
Definition RUN_EVENT_REPLAY_CAPABILITY : string := "run_event_replay_v1".
Definition RUN_RESULT_CAPABILITY : string := "run_result_v1".
Definition WORKSPACE_LEASE_CAPABILITY : string := "workspace_lease_v1".
Definition REMOTE_RESULT_ATTEMPTS : nat := 3.
Definition REMOTE_RECONCILE_ATTEMPTS : nat := 3.
Definition REMOTE_MAX_RESUMES : Z := 3.

(** [readRun]: a missing record ends the process, an unreadable one throws. *)
Inductive local_run : Type := RunFound (r : RunRecord) | RunMissing | RunUnreadable.
(** [stopRun]: also ends the process when the run is already terminal. *)
Inductive local_stop : Type := Stopped (r : RunRecord) | StopExits | StopThrows.

(** What one synchronous section sees of the machine. *)
Record World : Type := {
  wd_now : string; wd_new_id : string; wd_run : string -> local_run; wd_events : string -> option (list RunEvent); wd_stop : string -> local_stop;
  wd_prompt_written : bool }.

Record GatewayOptions : Type := {
  go_maxRetained : Z; go_maxEvents : Z; go_maxActive : Z; go_remoteEnabled : bool; go_recoverOnStart : bool }.
Definition default_options (remoteEnabled : bool) : GatewayOptions :=
  {| go_maxRetained := MAX_RETAINED_COMPLETED_TASKS; go_maxEvents := MAX_EVENTS_PER_TASK; go_maxActive := MAX_ACTIVE_TASKS;
     go_remoteEnabled := remoteEnabled; go_recoverOnStart := true |}.

Definition toEventInput (ev : TaskEvent) : TaskEventInput :=
  {| tei_sequence := ev_seq ev; tei_event_type := ev_type ev; tei_ts := ev_ts ev; tei_payload := ev_payload ev; tei_source_sequence := None |}.
Definition TERMINAL_EVENT_TYPES : list string := ["task.completed"; "task.failed"; "task.cancelled"].
Definition terminal_event (ev : TaskEvent) : bool := ev_type ev ∈b TERMINAL_EVENT_TYPES.
Definition terminalStatusFor (type : string) : string :=
  if type =s "task.completed" then "completed" else if type =s "task.failed" then "failed" else "cancelled".
(** The terminal event of a terminal status. *)
Definition terminal_type (status : TaskStatus) : TaskEventType :=
  match status with ts_completed => task_completed | ts_failed => task_failed | _ => task_cancelled end.

(** ** The durable store's reads *)

Definition getTaskByIdempotencyKey (key : string) : M (option TaskRecord) := opened;; o ← gets (task_by_key key); opt_map toTask o.
(** ORDER BY created_at ASC. *)
Definition by_created (l : list TaskRow) : list TaskRow := merge_sort (fun a b => js_leb (t_created_at a) (t_created_at b)) l.
Fixpoint map_records (l : list TaskRow) : M (list TaskRecord) :=
  match l with [] => mret [] | r :: rest => t ← toTask r; ts ← map_records rest; mret (t :: ts) end.
Definition listNonTerminalTasks : M (list TaskRecord) :=
  opened;;
  rows ← gets (fun s => by_created (List.filter (fun r => negb (task_terminal (t_status r))) (map snd (map_to_list (db_tasks s)))));
  map_records rows.
(** ORDER BY sequence ASC: the log of a task is in sequence order. *)
Fixpoint map_events (l : list TaskEventRow) : M (list (TaskEventRow * value)) :=
  match l with
  | [] => mret []
  | r :: rest => p ← lift (decodeJson (Some (te_payload_json r)) SIZE_LIMITS.task_event_payload false); es ← map_events rest; mret ((r, p) :: es)
  end.
Definition loadTaskEvents (taskId : string) : M (list (TaskEventRow * value)) := opened;; rows ← gets (task_events_of taskId); map_events rows.

(** ** Projections *)

Definition taskRecordToTask (rec : TaskRecord) : Task :=
  let r := tk_row rec in
  {| ta_task_id := t_task_id r; ta_agent := t_agent r; ta_node_id := default "local" (t_node_id r); ta_status := t_status r;
     ta_created_at := t_created_at r; ta_updated_at := t_updated_at r; ta_result := None;
     ta_error := match truthy_string (t_error_code r), truthy_string (t_error_message r) with
                 | None, None => None
                 | _, _ => Some {| te_message := coalesce (t_error_message r) (t_error_code r); te_reason := t_error_code r;
                                   te_recoverable := None; te_exit_code := None |}
                 end;
     ta_metadata := truthy_value (tk_metadata rec) |}.

Record TaskHistoryInfo : Type := {
  hi_complete : bool; hi_incomplete_reason : option string; hi_earliest_retained_sequence : Z; hi_boundary_sequence : option Z }.
Definition historyField (rec : TaskRecord) : TaskHistoryInfo :=
  let r := tk_row rec in
  {| hi_complete := negb (t_history_incomplete r); hi_incomplete_reason := truthy_string (t_history_reason r);
     hi_earliest_retained_sequence := t_earliest_retained_sequence r; hi_boundary_sequence := t_history_boundary_sequence r |}.

Definition with_task_id (id : string) (t : Task) : Task :=
  {| ta_task_id := id; ta_agent := ta_agent t; ta_node_id := ta_node_id t; ta_status := ta_status t; ta_created_at := ta_created_at t;
     ta_updated_at := ta_updated_at t; ta_result := ta_result t; ta_error := ta_error t; ta_metadata := ta_metadata t |}.

(** The answer to a request; [RAwait]: the handler is waiting. *)
Inductive Reply : Type :=
  | RTask (status : Z) (task : Task) (history : option TaskHistoryInfo) (result : option (string * option AgentTaskResultV1)) (replayed : bool)
  | RError (status : Z) (error : ApiError)
  | RStream
  | RAwait.

(** [remoteApiError]. *)
Definition remoteApiError (message : string) (taskId : option string) : Reply :=
  let opts := {| ao_retryable := None; ao_task_id := taskId; ao_details := VUndef |} in
  let error := if starts_with "cwd_not_allowed:" message then apiError api_cwd_not_allowed opts
               else runErrorToApiError (classifyRunError message) opts in
  RError (apiErrorHttpStatus (ae_code error)) error.

(** [task.replayCutoff <= n] on numbers. *)
Definition num_le (x : num) (n : Z) : bool :=
  match x with NInt z => z <=? n | NDec m e => m <=? n * 10 ^ Z.pos e | NInf neg => neg | NNaN => false end.

(** ** Replay cursors *)

Definition digits_only (s : string) : bool := negb (s =s "") && all_chars is_digit s.

(** The events to replay, whether some are missing, and the cursor. *)
Definition computeSseReplay (buffer : list TaskEvent) (lastEventId : option string) : list TaskEvent * bool * option Z :=
  match lastEventId with
  | Some raw =>
      if digits_only raw then
        let cursor := Z.of_N (digits_val (lit raw)) in
        (List.filter (fun e => cursor <? ev_seq e) buffer, match buffer with e :: _ => cursor + 1 <? ev_seq e | [] => false end, Some cursor)
      else (buffer, false, None)
  | None => (buffer, false, None)
  end.

Section Gateway.
Context (sha256_hex : string -> string) (opts : GatewayOptions) (world : World).

Definition now : string := wd_now world.

(** ** Publishing *)

(** A write to a response that was ended sends nothing. *)
Definition send (ev : TaskEvent) (s : Sse) : Sse :=
  if ss_ended s then s else {| ss_task := ss_task s; ss_live := ss_live s; ss_sent := ss_sent s ++ [ev]; ss_ended := false |}.

Definition pushEvent (id : string) (ev : TaskEvent) : G unit :=
  t ← the_task id;
  let events := gt_events t ++ [ev] in
  modify_task id (set_gt_events (if go_maxEvents opts <? Z.of_nat (List.length events) then tail events else events));;
  update (fun g => set_gw_streams
    (foldr (alter (send ev)) (gw_streams g) (gt_subscribers t)) g).

Definition persistThenPush (id : string) (ev : TaskEvent) : G unit :=
  p ← persist;
  saved ← (if p : bool then attempt (store (appendTaskEventDurable now id (toEventInput ev));; mret true) (mret false) else mret true);
  on saved (pushEvent id ev).

Definition synthEvent (id : string) (type : TaskEventType) (payload : value) : G TaskEvent :=
  t ← the_task id;
  modify_task id (set_gt_nextSeq (gt_nextSeq t + 1));;
  mret {| ev_seq := gt_nextSeq t; ev_task_id := id; ev_type := task_event_type type; ev_ts := now; ev_payload := payload |}.

(** ** Finishing *)

Fixpoint evict (heap : gmap string GatewayTask) (order : list string) : gmap string GatewayTask * list string :=
  match order with
  | victim :: rest =>
      if go_maxRetained opts <? Z.of_nat (List.length order)
      then evict (alter (fun t => if gt_registered t && gt_terminal t then set_gt_registered false t else t) victim heap) rest
      else (heap, order)
  | [] => (heap, [])
  end.
Definition evictIfNeeded : G unit := update (fun g =>
  let (heap, order) := evict (gw_heap g) (gw_completedOrder g) in set_gw_completedOrder order (set_gw_heap heap g)).

Definition end_stream (s : Sse) : Sse := {| ss_task := ss_task s; ss_live := ss_live s; ss_sent := ss_sent s; ss_ended := true |}.

Definition finishTask (id : string) : G unit :=
  t ← the_task id;
  if gt_terminal t then mret tt else
  modify_task id (fun t => set_gt_terminal true (set_gt_poll false (set_gt_subscribers [] t)));;
  update (fun g => set_gw_streams (foldr (alter end_stream) (gw_streams g) (gt_subscribers t)) (set_gw_activeCount (gw_activeCount g - 1) g));;
  update (fun g => set_gw_completedOrder (gw_completedOrder g ++ [id]) g);;
  evictIfNeeded.

Definition readRun (id : string) : G RunRecord :=
  match wd_run world id with RunFound r => mret r | RunMissing => raise Exited | RunUnreadable => raise Unreadable end.

Definition missing_result : string * option AgentTaskResultV1 := ("missing", None).

Definition resolveTerminalResult (id : string) (ev : TaskEvent) : G (string * option AgentTaskResultV1) :=
  t ← the_task id;
  match gt_pendingResult t with
  | Some r => mret r
  | None =>
      match gt_mode t with
      | local =>
          if ev_type ev =s "task.completed" then
            attempt (rec ← readRun id;
                     mret (if opt_is (rec_result_status rec) "available" && truthy (rec_task_result rec)
                           then match validateTaskResult sha256_hex (rec_task_result rec) with Ok v => ("available", Some v) | Err _ => ("invalid", None) end
                           else missing_result))
                    (mret missing_result)
          else mret missing_result
      | remote => mret missing_result
      end
  end.

Definition terminal_task_patch (type : string) (durableError : option (string * string)) : TaskPatch :=
  {| tp_status := Some (terminalStatusFor type); tp_remote_run_id := None; tp_workspace_key := None; tp_permission_mode := None; tp_metadata := VUndef;
     tp_terminal_at := None; tp_error_code := (fun e => Some (fst e)) <$> durableError; tp_error_message := (fun e => Some (snd e)) <$> durableError |}.

Definition finishWithTerminal (id : string) (ev : TaskEvent) (durableError : option (string * string)) : G unit :=
  t ← the_task id;
  if gt_terminal t then mret tt else
  p ← persist;
  on p (res ← resolveTerminalResult id ev;
        attempt (rec ← store (terminalizeTaskWithResultDurable now id (gt_revision t) (terminal_task_patch (ev_type ev) durableError) (toEventInput ev) (fst res) (snd res));
                 modify_task id (set_gt_revision (t_revision (tk_row rec))))
                (mret tt));;
  pushEvent id ev;;
  finishTask id.

(** ** Remote results *)

Definition no_run (t : GatewayTask) : bool := negb (go_remoteEnabled opts) || match gt_mode t with local => true | remote => false end
                                              || negb (is_some (truthy_string (gt_remoteRunId t))).

(** The loop of [finishRemoteWithResult] from an attempt on. *)
Definition request_result (id : string) (ev : TaskEvent) (n : nat) : G unit :=
  t ← the_task id;
  if (n <? REMOTE_RESULT_ATTEMPTS)%nat && negb (gt_terminal t) then awaits (PResult id ev n)
  else if negb (is_some (gt_resultCapable t)) && negb (gt_terminal t)
  then modify_task id (set_gt_pendingResult (Some missing_result));; finishWithTerminal id ev None
  else mret tt.

Definition finishRemoteWithResult (id : string) (ev : TaskEvent) : G unit :=
  t ← the_task id;
  if gt_terminal t then mret tt
  else if no_run t then finishWithTerminal id ev None
  else if opt_bool_is (gt_resultCapable t) false then modify_task id (set_gt_pendingResult (Some missing_result));; finishWithTerminal id ev None
  else request_result id ev 0.

(** After the await of [remoteRunResult]; [None]: it failed. *)
Definition on_result (id : string) (ev : TaskEvent) (n : nat) (answer : option (string * option AgentTaskResultV1)) : G unit :=
  match answer with
  | Some r => modify_task id (set_gt_pendingResult (Some r));; finishWithTerminal id ev None
  | None => if (S n <? REMOTE_RESULT_ATTEMPTS)%nat then awaits (PResultTimer id ev (S n)) else request_result id ev (S n)
  end.

(** [fetchRemoteResult] up to its await. *)
Definition fetchAndPersistRemoteResult (id : string) : G unit :=
  t ← the_task id;
  p ← persist;
  if negb p || match gt_mode t with local => true | remote => false end then mret tt
  else if is_some (gt_pendingResult t) || no_run t then awaits (PPersist id)
  else if opt_bool_is (gt_resultCapable t) false then modify_task id (set_gt_pendingResult (Some missing_result));; awaits (PPersist id)
  else awaits (PFetch id).

Definition on_persist (id : string) : G unit :=
  t ← the_task id;
  match gt_pendingResult t with
  | None => mret tt
  | Some (status, res) => attempt (store (persistTaskResultDurable now id status res);; mret tt) (mret tt)
  end.
Definition on_fetch (id : string) (answer : option (string * option AgentTaskResultV1)) : G unit :=
  match answer with Some r => modify_task id (set_gt_pendingResult (Some r)) | None => mret tt end;;
  on_persist id.

Definition reconcileRemoteRecord (id : string) (record : RunRecord) : G unit :=
  modify_task id (set_gt_lastRecord (Some record));;
  t ← the_task id;
  let status := runStatusToTaskStatus (rec_status record) in
  if gt_terminal t || negb (isTerminalTaskStatus status) then mret tt
  else ev ← synthEvent id (terminal_type status) (VObj []); finishRemoteWithResult id ev.

(** ** Run events *)

Definition ingest (id : string) (event : RunEvent) : G bool :=
  t ← the_task id;
  if gt_terminal t then mret true else
  match runEventToTaskEvent event (gt_nextSeq t) with
  | None => mret false
  | Some te0 =>
      let te := {| ev_seq := ev_seq te0; ev_task_id := id; ev_type := ev_type te0; ev_ts := ev_ts te0; ev_payload := ev_payload te0 |} in
      modify_task id (set_gt_nextSeq (gt_nextSeq t + 1));;
      if terminal_event te
      then match gt_mode t with remote => finishRemoteWithResult id te | local => finishWithTerminal id te None end;; mret true
      else persistThenPush id te;; mret false
  end.

Fixpoint drain_loop (id : string) (i : nat) (rest : list RunEvent) : G unit :=
  match rest with
  | [] => modify_task id (set_gt_emittedRunEvents i)
  | e :: rest => stop ← ingest id e; if stop : bool then modify_task id (set_gt_emittedRunEvents (S i)) else drain_loop id (S i) rest
  end.
Definition drain (id : string) : G unit :=
  t ← the_task id;
  match wd_events world id with
  | None => mret tt
  | Some all => drain_loop id (Nat.min (gt_emittedRunEvents t) (List.length all)) (skipn (gt_emittedRunEvents t) all)
  end.

Definition startPoll (id : string) : G unit :=
  drain id;; t ← the_task id; if gt_terminal t then mret tt else modify_task id (set_gt_poll true).

(** ** Pumps *)

Definition startRemotePump (id : string) : G unit :=
  t ← the_task id;
  if gt_terminal t || is_some (gt_pump t) then mret tt else modify_task id (set_gt_pump (Some None)).
Definition startReplayPump (id : string) (afterSequence : Z) : G unit :=
  t ← the_task id; p ← persist;
  if gt_terminal t || is_some (gt_pump t) || negb p then mret tt else modify_task id (set_gt_pump (Some (Some afterSequence))).

Definition source_cursor (rec : option TaskRecord) : Z := default (-1) (r ← rec; t_last_remote_event_sequence (tk_row r)).

Definition resumePump (id : string) : G unit :=
  t ← the_task id; p ← persist;
  if gt_terminal t || is_some (gt_pump t) then mret tt
  else if gt_replayCapable t && p then rec ← store (getTask id); startReplayPump id (source_cursor rec)
  else startRemotePump id.

Definition mark_incomplete (id reason : string) : G unit :=
  t ← the_task id;
  attempt (store (markTaskHistoryIncomplete id reason (gt_nextSeq t - 1))) (mret tt);;
  modify_task id (set_gt_historyTruncated true).

Definition maybeClearCatchUp (id : string) : G unit :=
  t ← the_task id; p ← persist;
  match gt_replayCutoff t with
  | Some cutoff =>
      if gt_catchUpCleared t || negb (gt_replayHistoryComplete t) || negb p then mret tt else
      rec ← store (getTask id);
      on (is_some rec && num_le cutoff (source_cursor rec))
        (attempt (store (clearTaskHistoryIncomplete id);; modify_task id (fun t => set_gt_catchUpCleared true (set_gt_historyTruncated false t))) (mret tt))
  | None => mret tt
  end.

(** [meta]: the Node's description of the replay, [VNull] when it has none. *)
Definition handleReplayMeta (id : string) (meta : value) : G unit :=
  p ← persist;
  if negb p then mret tt
  else if is_nullish meta then mark_incomplete id "remote_source_cursor_unknown"
  else
    modify_task id (fun t =>
      set_gt_replayCutoff (match get "latest_sequence" meta with VNum n => Some n | _ => None end)
      (set_gt_replayHistoryComplete (strict_eq (get "history_complete_for_request" meta) (VBool true)) t));;
    if strict_eq (get "history_complete_for_request" meta) (VBool false) then mark_incomplete id "node_journal_truncated"
    else maybeClearCatchUp id.

Definition ingestSource (id : string) (event : RunEvent) (sourceSeq : Z) : G unit :=
  t ← the_task id; p ← persist;
  if gt_terminal t || negb p then mret tt else
  match runEventToTaskEvent event 0 with
  | None => attempt (store (advanceSourceCursor now id sourceSeq);; mret tt) (mret tt);; maybeClearCatchUp id
  | Some te =>
      let terminal := terminal_event te in
      attempt (
        r ← store (ingestSourceEventDurable now id sourceSeq
              {| is_event_type := ev_type te; is_ts := ev_ts te; is_payload := ev_payload te; is_terminal := terminal;
                 is_status := if terminal then Some (terminalStatusFor (ev_type te)) else None; is_error_code := None; is_error_message := None |});
        let '(rec, applied, seq) := r in
        modify_task id (set_gt_revision (t_revision (tk_row rec)));;
        on applied (
          modify_task id (fun t => set_gt_nextSeq (Z.max (gt_nextSeq t) (seq + 1)) t);;
          pushEvent id {| ev_seq := seq; ev_task_id := id; ev_type := ev_type te; ev_ts := ev_ts te; ev_payload := ev_payload te |};;
          on terminal (finishTask id;; fetchAndPersistRemoteResult id));;
        maybeClearCatchUp id) (mret tt)
  end.

(** ** Reconciliation by status *)

Definition status_loop (id : string) (n : nat) : G unit :=
  t ← the_task id;
  if (n <? REMOTE_RECONCILE_ATTEMPTS)%nat && negb (gt_terminal t) then awaits (PStatus id n) else modify_task id (set_gt_reconciling false).

Definition reconcileViaStatus (id : string) : G unit :=
  t ← the_task id;
  if gt_terminal t || gt_reconciling t then mret tt else modify_task id (set_gt_reconciling true);; status_loop id 0.

(** After the await of [remoteRunStatus]; [None]: it failed. *)
Definition on_status (id : string) (n : nat) (answer : option RunRecord) : G unit :=
  match answer with
  | Some record =>
      attempt (
        reconcileRemoteRecord id record;;
        t ← the_task id;
        on (negb (gt_terminal t) && (gt_resumeCount t <? REMOTE_MAX_RESUMES))
          (modify_task id (set_gt_resumeCount (gt_resumeCount t + 1));; resumePump id);;
        modify_task id (set_gt_reconciling false)) (awaits (PStatusTimer id (S n)))
  | None => awaits (PStatusTimer id (S n))
  end.
End Gateway.
