(* ===== verification/GatewayApi.v ===== *)
(** * The Agent Gateway: recovery, handlers and the event loop (src/lib/agent-gateway.ts)

    [react] is one turn of the event loop: a request, a callback of a pump, a timer or
    the answer to something a handler awaited, in any order the environment chooses. *)

From S2P Require Import Prelude Machine Values Json Contract Templates Verification Outputs StoreRows Store StoreOps RuntimeEnv TaskContract Workspace GatewayState Gateway.

Section Api.
Context (sha256_hex : string -> string) (opts : GatewayOptions) (world : World).

(** ** Recovery *)

Definition toTaskEvent (taskId : string) (e : TaskEventRow * value) : TaskEvent :=
  {| ev_seq := te_sequence (fst e); ev_task_id := taskId; ev_type := te_event_type (fst e); ev_ts := te_ts (fst e);
     ev_payload := if is_nullish (snd e) then VObj [] else snd e |}.

Definition maps (e : RunEvent) : bool := is_some (runEventToTaskEvent e 0).
(** The index of the first event after [todo] mapped ones. *)
Fixpoint seed_cursor (i : nat) (todo : Z) (all : list RunEvent) : nat :=
  match all with
  | [] => i
  | e :: rest => if todo <=? 0 then i else seed_cursor (S i) (if maps e then todo - 1 else todo) rest
  end.
Definition seedRecoveredLocalCursor (id : string) : G unit :=
  t ← the_task id;
  match wd_events world id with
  | None => mret tt
  | Some all => modify_task id (set_gt_emittedRunEvents (seed_cursor 0 (Z.max 0 (gt_nextSeq t - 1)) all))
  end.

Definition recovery_payload (reason : string) (message : string) : value := VObj [("reason", VStr reason); ("message", VStr message)].

(** The [catch] of [reconcileRecovered]. *)
Definition recover_failed (id : string) (n : nat) : G unit :=
  t ← the_task id; down ← asks gw_shuttingDown;
  if (S n <? REMOTE_RECONCILE_ATTEMPTS)%nat && negb down then awaits (PRecover id (S n))
  else match gt_mode t with
       | local =>
           let message := "local run state unavailable after restart" in
           ev ← synthEvent world id task_failed (recovery_payload "recovery_run_missing" message);
           finishWithTerminal sha256_hex opts world id ev (Some ("recovery_run_missing", message))
       | remote => mret tt
       end.

Definition reconcileRecovered (id : string) (n : nat) : G unit :=
  t ← the_task id; down ← asks gw_shuttingDown; p ← persist;
  if gt_terminal t || down then mret tt else
  match gt_mode t with
  | remote =>
      if gt_replayCapable t && p
      then attempt (rec ← store (getTask id); startReplayPump id (source_cursor rec)) (recover_failed id n)
      else awaits (PRecoverStatus id n)
  | local =>
      attempt (
        record ← readRun world id;
        let status := runStatusToTaskStatus (rec_status record) in
        if isTerminalTaskStatus status
        then ev ← synthEvent world id (terminal_type status) (VObj []); finishWithTerminal sha256_hex opts world id ev None
        else seedRecoveredLocalCursor id;; startPoll sha256_hex opts world id) (recover_failed id n)
  end.

Definition on_recover_status (id : string) (n : nat) (answer : option RunRecord) : G unit :=
  match answer with
  | Some record =>
      attempt (
        reconcileRemoteRecord sha256_hex opts world id record;;
        t ← the_task id; p ← persist;
        on (negb (gt_terminal t)) (on (p && gt_recovered t) (mark_incomplete id "remote_source_cursor_unknown");; startRemotePump id))
        (recover_failed id n)
  | None => recover_failed id n
  end.

Definition remote_node (node : option string) : bool :=
  match truthy_string node with Some n => negb (n =s "local") && negb (n =s "auto") | None => false end.
(** [rec.node_id !== null && rec.node_id !== 'local' && rec.node_id !== 'auto']. *)
Definition foreign_node (node : option string) : bool := match node with Some n => negb (n =s "local") && negb (n =s "auto") | None => false end.

Definition recovered_task (rec : TaskRecord) (events : list TaskEvent) : GatewayTask :=
  let r := tk_row rec in
  let long := go_maxEvents opts <? Z.of_nat (List.length events) in
  {| gt_taskId := t_task_id r; gt_agent := t_agent r; gt_mode := if is_some (t_remote_run_id r) || foreign_node (t_node_id r) then remote else local;
     gt_events := (if long then skipn (List.length events - Z.to_nat (go_maxEvents opts)) events else events);
     gt_nextSeq := t_last_event_sequence r + 1; gt_emittedRunEvents := 0; gt_subscribers := []; gt_terminal := false; gt_cancelInFlight := false;
     gt_poll := false; gt_pump := None; gt_reconciling := false; gt_resumeCount := 0; gt_lastRecord := None; gt_revision := t_revision r;
     gt_nodeId := t_node_id r; gt_remoteRunId := t_remote_run_id r; gt_recovered := true;
     gt_historyTruncated := (0 <? t_earliest_retained_sequence r) || long; gt_replayCapable := is_some (t_last_remote_event_sequence r);
     gt_resultCapable := None; gt_replayCutoff := None; gt_replayHistoryComplete := false; gt_catchUpCleared := false; gt_pendingResult := None;
     gt_registered := true |}.

Definition register (t : GatewayTask) : G unit :=
  update (fun g => set_gw_activeCount (gw_activeCount g + 1) (set_gw_heap (<[gt_taskId t := t]> (gw_heap g)) g)).

Definition recover_one (rec : TaskRecord) : G unit :=
  let id := t_task_id (tk_row rec) in
  events ← attempt (es ← store (loadTaskEvents id); mret (map (toTaskEvent id) es)) (mret []);
  let t := recovered_task rec events in
  register t;;
  match gt_mode t with
  | remote =>
      if is_some (truthy_string (gt_remoteRunId t)) then awaits (PRecover id 0) else
      ev ← synthEvent world id task_failed (recovery_payload "recovery_unknown_start"
             "task start outcome is unknown after gateway restart; not resumed to avoid a duplicate execution");
      finishWithTerminal sha256_hex opts world id ev
        (Some ("recovery_unknown_start", "remote start outcome unknown after gateway restart; not resumed"))
  | local => awaits (PRecover id 0)
  end.
Fixpoint recover_all (records : list TaskRecord) : G unit :=
  match records with [] => mret tt | rec :: rest => recover_one rec;; recover_all rest end.
Definition recoverTasks : G unit :=
  p ← persist;
  if negb p || negb (go_recoverOnStart opts) then mret tt else
  records ← attempt (store listNonTerminalTasks) (mret []);
  recover_all records.

(** ** POST /v1/tasks *)

Definition failure (status : Z) (code : ApiErrorCode) : G Reply := mret (RError status (apiError code no_opts)).
Definition node_failure (status : Z) (code : ApiErrorCode) (node : option string) (retryable : option bool) : G Reply :=
  mret (RError status (apiError code {| ao_retryable := retryable; ao_task_id := None; ao_details := VObj [("node_id", or_null node)] |})).
Definition replay_reply (rec : TaskRecord) : Reply := RTask 200 (taskRecordToTask rec) (Some (historyField rec)) None true.

Definition reserve : G unit := update (fun g => set_gw_pendingCreates (gw_pendingCreates g + 1) g).
Definition release : G unit := update (fun g => set_gw_pendingCreates (gw_pendingCreates g - 1) g).

(** [fs.writeFileSync(promptFile, ...)], outside every [try] of the handler. *)
Definition write_prompt : G unit := ensure (wd_prompt_written world) Unreadable.

Definition admit_request (req : CreateTaskRequest) (fp : option string) (isRemote : bool) : G Reply :=
  g ← asks (fun g => gw_activeCount g + gw_pendingCreates g);
  if go_maxActive opts <=? g then failure 503 api_service_unavailable else
  reserve;;
  if isRemote : bool then awaits (PNodes req fp);; mret RAwait
  else write_prompt;; awaits (PStart req fp local);; mret RAwait.

Definition handleCreate (ctype : option string) : G Reply :=
  if match truthy_string ctype with Some c => negb (contains "application/json" c) | None => false end then failure 415 api_invalid_request
  else awaits PBody;; mret RAwait.

(** [readBody] on all that was received; [None]: too large. *)
Definition readBody (limit : Z) (text : string) : option string := if limit <? byteLen text then None else Some text.

(** After the await of [readBody]. *)
Definition on_body (text : string) : G Reply :=
  match readBody MAX_BODY_BYTES text with
  | None => failure 413 api_invalid_request
  | Some text =>
  match JSON_parse text with
  | None => failure 400 api_invalid_request
  | Some parsed =>
  match validateCreateTaskRequest parsed with
  | Err _ => failure 400 api_invalid_request
  | Ok req =>
      let isRemote := remote_node (cr_node_id req) in
      if isRemote && negb (go_remoteEnabled opts) then node_failure 400 api_invalid_request (cr_node_id req) None
      else if negb isRemote && negb (cr_agent req ∈b GATEWAY_LOCAL_AGENTS) then failure 422 api_agent_unavailable
      else if is_some (truthy_string (cr_workspace_lease_id req)) && negb isRemote then failure 422 api_workspace_lease_unsupported
      else if is_some (truthy_string (cr_workspace_path req)) && negb isRemote then failure 422 api_agent_unavailable
      else
      match truthy_string (cr_idempotency_key req) with
      | None => admit_request req None isRemote
      | Some key =>
          p ← persist;
          if negb p then failure 400 api_invalid_request else
          let fingerprint := computeRequestFingerprint sha256_hex req in
          existing ← attempt (store (getTaskByIdempotencyKey key)) (mret None);
          match existing with
          | Some rec => if opt_is (t_request_fingerprint (tk_row rec)) fingerprint then mret (replay_reply rec) else failure 409 api_idempotency_conflict
          | None => admit_request req (Some fingerprint) isRemote
          end
      end
  end end end.

Definition new_task (id agent : string) (mode : task_mode) (nodeId remoteRunId : option string) : GatewayTask :=
  {| gt_taskId := id; gt_agent := agent; gt_mode := mode; gt_events := []; gt_nextSeq := 1; gt_emittedRunEvents := 0; gt_subscribers := [];
     gt_terminal := false; gt_cancelInFlight := false; gt_poll := false; gt_pump := None; gt_reconciling := false; gt_resumeCount := 0;
     gt_lastRecord := None; gt_revision := 1; gt_nodeId := nodeId; gt_remoteRunId := remoteRunId; gt_recovered := false; gt_historyTruncated := false;
     gt_replayCapable := false; gt_resultCapable := None; gt_replayCutoff := None; gt_replayHistoryComplete := false; gt_catchUpCleared := false;
     gt_pendingResult := None; gt_registered := true |}.
(** Its first event: [synthEvent] took sequence 0. *)
Definition created_event (id agent : string) : TaskEvent :=
  {| ev_seq := 0; ev_task_id := id; ev_type := task_event_type task_created; ev_ts := wd_now world; ev_payload := VObj [("agent", VStr agent)] |}.

Definition create_input (req : CreateTaskRequest) (fp : option string) (id agent : string) (nodeId remoteRunId : option string) (status : string) : CreateTaskInput :=
  let key := truthy_string (cr_idempotency_key req) in
  {| ct_task_id := id; ct_node_id := nodeId; ct_agent := agent; ct_workspace_key := cr_workspace_key req; ct_permission_mode := cr_permission_mode req;
     ct_status := status; ct_remote_run_id := remoteRunId; ct_input_text := Some (cr_input_text req);
     ct_metadata := (if is_nullish (cr_metadata req) then VNull else cr_metadata req);
     ct_idempotency_key := key; ct_request_fingerprint := if is_some key then fp else None |}.
Definition persistCreate (req : CreateTaskRequest) (input : CreateTaskInput) (ev : TaskEvent) : G (TaskRecord * bool) :=
  match truthy_string (cr_idempotency_key req) with
  | Some _ => store (createTaskIdempotently (wd_now world) input (toEventInput ev))
  | None => rec ← store (createTaskDurable (wd_now world) input (toEventInput ev)); mret (rec, true)
  end.
Definition create_error (e : gw_error) : G Reply :=
  match e with StoreError idempotency_conflict => failure 409 api_idempotency_conflict | _ => failure 500 api_internal_error end.

Definition advertises (caps : option (list string)) (c : string) : bool := match caps with Some l => c ∈b l | None => false end.

(** What the registry says of the node, as the preflight checks it. *)
Definition preflight (req : CreateTaskRequest) (nodes : list RemoteNode) : Reply + RemoteNode :=
  let refuse status code retryable := inl (RError status (apiError code
        {| ao_retryable := retryable; ao_task_id := None; ao_details := VObj [("node_id", or_null (cr_node_id req))] |})) in
  match List.find (fun n => opt_is (cr_node_id req) (vn_node_id n)) nodes with
  | None => refuse 503 api_node_offline None
  | Some node =>
      if negb (vn_online node) then refuse 503 api_node_offline None
      else if negb (advertises (vn_agents node) (cr_agent req)) then refuse 422 api_agent_unavailable None
      else if negb (is_some (truthy_string (vn_encryption_public_key node))) then refuse 503 api_service_unavailable (Some false)
      else if is_some (truthy_string (cr_workspace_lease_id req)) && negb (advertises (vn_capabilities node) WORKSPACE_LEASE_CAPABILITY)
      then refuse 422 api_workspace_lease_unsupported None
      else if is_some (truthy_string (cr_workspace_path req)) && negb (advertises (vn_capabilities node) CWD_CAPABILITY)
      then refuse 422 api_agent_unavailable None
      else inr node
  end.

(** The durable record of a remote task, before its start is attempted. *)
Definition persist_remote (req : CreateTaskRequest) (fp : option string) (node : RemoteNode) : G Reply :=
  let id := wd_new_id world in
  let ev := created_event id (cr_agent req) in
  catch (
    r ← persistCreate req (create_input req fp id (cr_agent req) (cr_node_id req) None "queued") ev;
    if negb (snd r) then release;; mret (replay_reply (fst r)) else
    awaits (PRemoteStart req (set_gt_revision (t_revision (tk_row (fst r))) (new_task id (cr_agent req) remote (cr_node_id req) None)) ev
              (advertises (vn_capabilities node) RUN_EVENT_REPLAY_CAPABILITY) (advertises (vn_capabilities node) RUN_RESULT_CAPABILITY));;
    mret RAwait)
  (fun e => match e with Exited => raise Exited | _ => release;; create_error e end).

(** After the await of [fetchRemoteNodes]. *)
Definition on_nodes (req : CreateTaskRequest) (fp : option string) (answer : result string (list RemoteNode)) : G Reply :=
  match answer with
  | Err message => release;; mret (remoteApiError message None)
  | Ok nodes =>
      match preflight req nodes with
      | inl reply => release;; mret reply
      | inr node =>
          write_prompt;;
          p ← persist;
          if p : bool then persist_remote req fp node else awaits (PStart req fp remote);; mret RAwait
      end
  end.

Definition admitted (t : GatewayTask) (ev : TaskEvent) : G unit := register t;; release;; pushEvent opts (gt_taskId t) ev.

(** After the await of [remoteRunStart], for a persisted task. *)
Definition on_remote_start (task : GatewayTask) (created : TaskEvent) (replay results : bool) (answer : result string RunRecord) : G Reply :=
  let id := gt_taskId task in
  match answer with
  | Err message =>
      release;;
      let code := run_error_code (classifyRunError message) in
      let ev := {| ev_seq := gt_nextSeq task; ev_task_id := id; ev_type := task_event_type task_failed; ev_ts := wd_now world; ev_payload := VObj [("reason", VStr code)] |} in
      attempt (store (terminalizeTaskDurable (wd_now world) id (gt_revision task) (terminal_task_patch "task.failed" (Some (code, message))) (toEventInput ev));; mret tt)
              (mret tt);;
      mret (remoteApiError message (Some id))
  | Ok rrec =>
      rev ← attempt (rec ← store (updateTaskDurable (wd_now world) id (gt_revision task)
                       {| tp_status := Some (task_status (runStatusToTaskStatus (rec_status rrec))); tp_remote_run_id := Some (Some (rec_run_id rrec));
                          tp_workspace_key := None; tp_permission_mode := None; tp_metadata := VUndef; tp_terminal_at := None; tp_error_code := None;
                          tp_error_message := None |});
                     mret (t_revision (tk_row rec)))
                    (mret (gt_revision task));
      on replay (attempt (store (initReplayCursor id)) (mret tt));;
      admitted (set_gt_revision rev (set_gt_remoteRunId (Some (rec_run_id rrec)) (set_gt_replayCapable replay (set_gt_resultCapable (Some results) task)))) created;;
      (if replay then startReplayPump id (-1) else startRemotePump id);;
      mret (RTask 202 (with_task_id id (runRecordToTask rrec)) None None false)
  end.

Definition stopRun (id : string) : G RunRecord :=
  match wd_stop world id with Stopped r => mret r | StopExits => raise Exited | StopThrows => raise Unreadable end.
Definition compensate (id : string) : G unit := attempt (stopRun id;; mret tt) (mret tt).

(** After the await of [startRun], or of [remoteRunStart] without a store. *)
Definition on_start (req : CreateTaskRequest) (fp : option string) (mode : task_mode) (answer : result string RunRecord) : G Reply :=
  match answer with
  | Err message => release;; match mode with remote => mret (remoteApiError message None) | local => failure 500 api_internal_error end
  | Ok record =>
      let id := rec_run_id record in
      let nodeId := match mode with remote => cr_node_id req | local => None end in
      let remoteRunId := match mode with remote => Some id | local => None end in
      let ev := created_event id (rec_agent record) in
      let t := new_task id (rec_agent record) mode nodeId remoteRunId in
      p ← persist;
      out ← (if negb p then (mret (inr t) : G (Reply + GatewayTask)) else
             catch (
               r ← persistCreate req (create_input req fp id (rec_agent record) nodeId remoteRunId (task_status (runStatusToTaskStatus (rec_status record)))) ev;
               if (snd r : bool) then mret (inr (set_gt_revision (t_revision (tk_row (fst r))) t)) else
               release;; compensate id;;
               winner ← match truthy_string (cr_idempotency_key req) with Some key => store (getTaskByIdempotencyKey key) | None => mret None end;
               match winner with
               | Some rec => mret (inl (replay_reply rec))
               | None => x ← failure 500 api_internal_error; mret (inl x)
               end)
             (fun e => match e with Exited => raise Exited | _ => release;; compensate id;; x ← create_error e; mret (inl x) end));
      match out with
      | inl reply => mret reply
      | inr t =>
          admitted t ev;;
          match mode with remote => startRemotePump id | local => startPoll sha256_hex opts world id end;;
          mret (RTask 202 (runRecordToTask record) None None false)
      end
  end.

(** ** GET /v1/tasks/:id *)

Definition registered (id : string) : G (option GatewayTask) := asks (fun g => t ← gw_heap g !! id; if gt_registered t then Some t else None).
Definition stored (id : string) : G (option TaskRecord) := p ← persist; if p : bool then store (getTask id) else mret None.
Definition resultProjection (id : string) : G (option (string * option AgentTaskResultV1)) :=
  p ← persist; if p : bool then attempt (store (getTaskResultDurable sha256_hex id)) (mret (Some ("invalid", None))) else mret None.
Definition task_missing (id : string) : Reply := RError 404 (apiError api_task_not_found (for_task id)).

Definition project (id : string) (record : RunRecord) : G Reply :=
  hist ← stored id; res ← resultProjection id;
  mret (RTask 200 (with_task_id id (runRecordToTask record)) (historyField <$> hist) res false).

(** The final projection of a terminal remote task, where there is one. *)
Definition final_projection (t : GatewayTask) (with_history : bool) : G (option Reply) :=
  let id := gt_taskId t in
  match gt_mode t with
  | remote =>
      if negb (gt_terminal t) then mret None else
      o ← stored id;
      match o with
      | Some rec =>
          if with_history : bool
          then res ← resultProjection id; mret (Some (RTask 200 (with_task_id id (taskRecordToTask rec)) (Some (historyField rec)) res false))
          else mret (Some (RTask 200 (with_task_id id (taskRecordToTask rec)) None None false))
      | None => mret ((fun r => RTask 200 (with_task_id id (runRecordToTask r)) None None false) <$> gt_lastRecord t)
      end
  | local => mret None
  end.

Definition handleGet (id : string) : G Reply :=
  o ← registered id;
  match o with
  | None =>
      r ← stored id;
      match r with
      | Some rec => res ← resultProjection id; mret (RTask 200 (taskRecordToTask rec) (Some (historyField rec)) res false)
      | None => mret (task_missing id)
      end
  | Some t =>
      final ← final_projection t true;
      match final with
      | Some reply => mret reply
      | None =>
          match gt_mode t with
          | remote => awaits (PGet id);; mret RAwait
          | local =>
              r ← attempt (x ← readRun world id; mret (Some x)) (mret None);
              match r with Some record => project id record | None => mret (task_missing id) end
          end
      end
  end.
(** After the await of [remoteRunStatus]. *)
Definition on_get (id : string) (answer : result string RunRecord) : G Reply :=
  match answer with
  | Err message => mret (remoteApiError message (Some id))
  | Ok record => reconcileRemoteRecord sha256_hex opts world id record;; project id record
  end.

(** ** GET /v1/tasks/:id/events *)

Definition open_stream (sid : nat) (s : Sse) : G unit := update (fun g => set_gw_streams (<[sid := s]> (gw_streams g)) g).

Definition handleEvents (sid : nat) (id : string) (lastEventId : option string) : G Reply :=
  o ← registered id;
  match o with
  | None =>
      r ← stored id;
      match r with
      | Some _ =>
          es ← store (loadTaskEvents id);
          let '(events, _, _) := computeSseReplay (map (toTaskEvent id) es) lastEventId in
          open_stream sid {| ss_task := id; ss_live := false; ss_sent := events; ss_ended := true |};; mret RStream
      | None => mret (task_missing id)
      end
  | Some t =>
      let '(events, _, _) := computeSseReplay (gt_events t) lastEventId in
      open_stream sid {| ss_task := id; ss_live := true; ss_sent := events; ss_ended := gt_terminal t |};;
      if gt_terminal t then mret RStream else
      modify_task id (fun t => set_gt_subscribers (sid :: gt_subscribers t) t);;
      match gt_mode t with
      | remote => on (negb (is_some (gt_pump t))) (attempt (resumePump id) (update (fun g => set_gw_streams (alter end_stream sid (gw_streams g)) g)))
      | local => mret tt
      end;;
      mret RStream
  end.
(** [req.on('close')]. *)
Definition on_close (sid : nat) : G unit :=
  o ← asks (fun g => gw_streams g !! sid);
  match o with
  | Some s => modify_task (ss_task s) (fun t => set_gt_subscribers (List.filter (fun x => negb (Nat.eqb x sid)) (gt_subscribers t)) t)
  | None => mret tt
  end.

(** ** POST /v1/tasks/:id/cancel *)

Definition terminal_record (r : RunRecord) : bool := isTerminalTaskStatus (runStatusToTaskStatus (rec_status r)).
Definition plain (record : RunRecord) : Reply := RTask 200 (runRecordToTask record) None None false.

Definition handleCancel (id : string) : G Reply :=
  o ← registered id;
  match o with
  | None =>
      r ← stored id;
      match r with Some rec => mret (RTask 200 (taskRecordToTask rec) None None false) | None => mret (task_missing id) end
  | Some t =>
      final ← final_projection t false;
      match final with
      | Some reply => mret reply
      | None =>
          match gt_mode t with
          | remote => awaits (PCancelStatus id);; mret RAwait
          | local =>
              r ← attempt (x ← readRun world id; mret (Some x)) (mret None);
              match r with
              | None => mret (task_missing id)
              | Some record =>
                  if terminal_record record || gt_cancelInFlight t then mret (plain record) else
                  modify_task id (set_gt_cancelInFlight true);;
                  reply ← attempt (stopped ← stopRun id; drain sha256_hex opts world id;; mret (plain stopped))
                            (attempt (cur ← readRun world id; mret (plain cur)) (failure 500 api_internal_error));
                  modify_task id (set_gt_cancelInFlight false);; mret reply
              end
          end
      end
  end.
Definition on_cancel_status (id : string) (answer : result string RunRecord) : G Reply :=
  match answer with
  | Err message => mret (remoteApiError message (Some id))
  | Ok record =>
      t ← the_task id;
      if terminal_record record || gt_cancelInFlight t then mret (plain record) else
      modify_task id (set_gt_cancelInFlight true);; awaits (PCancelStop id);; mret RAwait
  end.
Definition on_cancel_stop (id : string) (answer : result string RunRecord) : G Reply :=
  match answer with
  | Ok stopped => reconcileRemoteRecord sha256_hex opts world id stopped;; modify_task id (set_gt_cancelInFlight false);; mret (plain stopped)
  | Err message => awaits (PCancelRetry id message);; mret RAwait
  end.
Definition on_cancel_retry (id message : string) (answer : result string RunRecord) : G Reply :=
  modify_task id (set_gt_cancelInFlight false);;
  mret (match answer with Ok cur => plain cur | Err _ => remoteApiError message (Some id) end).

(** ** GET /v1/agents *)

(** [nodes]: [None] when the gateway has no relay or it cannot be reached. *)
Definition handleAgents (nodes : option (list RemoteNode)) : list AgentDescriptor :=
  buildAgentDescriptors GATEWAY_LOCAL_AGENTS None
  ++ flat_map (fun n => match vn_agents n with
                        | Some agents => if vn_online n then buildAgentDescriptors agents (Some (vn_node_id n)) else []
                        | None => []
                        end) (default [] nodes).

(** ** The event loop *)

Inductive Answer : Type :=
  | ATimer
  | AResult (r : option (string * option AgentTaskResultV1))
  | ARecord (r : result string RunRecord)
  | ANodes (r : result string (list RemoteNode))
  | ABody (text : string).

Inductive Input : Type :=
  | ICreate (ctype : option string)
  | IGet (id : string)
  | ICancel (id : string)
  | IEvents (sid : nat) (id : string) (lastEventId : option string)
  | IClose (sid : nat)
  | IPoll (id : string)
  | IRunEvent (id : string) (event : RunEvent)
  | ISourceEvent (id : string) (event : RunEvent) (seq : Z)
  | IReplayMeta (id : string) (meta : value)
  | IGiveUp (id : string)
  | IPumpEnd (id : string)
  | IAnswer (n : nat) (a : Answer)
  | IShutdown.

Definition ok_record (a : result string RunRecord) : option RunRecord := match a with Ok r => Some r | Err _ => None end.
Definition silent (m : G unit) : G Reply := m;; mret RAwait.

(** The continuation of what was awaited; an answer of another kind does not occur. *)
Definition resume (p : Pending) (a : Answer) : G Reply :=
  match p, a with
  | PResult id ev n, AResult r => silent (on_result sha256_hex opts world id ev n r)
  | PResultTimer id ev n, ATimer => silent (request_result sha256_hex opts world id ev n)
  | PFetch id, AResult r => silent (on_fetch world id r)
  | PPersist id, ATimer => silent (on_persist world id)
  | PStatus id n, ARecord r => silent (on_status sha256_hex opts world id n (ok_record r))
  | PStatusTimer id n, ATimer => silent (status_loop id n)
  | PRecover id n, ATimer => silent (reconcileRecovered id n)
  | PRecoverStatus id n, ARecord r => silent (on_recover_status id n (ok_record r))
  | PBody, ABody text => on_body text
  | PNodes req fp, ANodes r => on_nodes req fp r
  | PRemoteStart _ t ev replay results, ARecord r => on_remote_start t ev replay results r
  | PStart req fp mode, ARecord r => on_start req fp mode r
  | PGet id, ARecord r => on_get id r
  | PCancelStatus id, ARecord r => on_cancel_status id r
  | PCancelStop id, ARecord r => on_cancel_stop id r
  | PCancelRetry id message, ARecord r => on_cancel_retry id message r
  | _, _ => awaits p;; mret RAwait
  end.

(** [close]: the API stops, the runs go on. *)
Definition is_recovery_timer (p : Pending) : bool := match p with PRecover _ _ => true | _ => false end.
Definition shutdown : G unit := update (fun g =>
  {| gw_heap := (fun t => set_gt_poll false (set_gt_subscribers [] t)) <$> gw_heap g; gw_completedOrder := gw_completedOrder g;
     gw_activeCount := gw_activeCount g; gw_pendingCreates := gw_pendingCreates g; gw_shuttingDown := true; gw_db := gw_db g;
     gw_streams := end_stream <$> gw_streams g; gw_pending := List.filter (fun p => negb (is_recovery_timer p)) (gw_pending g) |}).

(** A request is refused while shutting down, and an exception that reaches the server
    becomes a 500. *)
Definition serve (m : G Reply) : G Reply :=
  down ← asks gw_shuttingDown;
  if down : bool then failure 503 api_service_unavailable else attempt m (failure 500 api_internal_error).
(** An exception in a callback is dropped. *)
Definition callback (m : G unit) : G Reply := attempt (silent m) (mret RAwait).
(** A callback of a stream the task may have outlived. *)
Definition while_live (id : string) (m : G unit) : G unit := t ← the_task id; if gt_terminal t then mret tt else m.

(** One turn of the event loop. *)
Definition react (i : Input) : G Reply :=
  match i with
  | ICreate ctype => serve (handleCreate ctype)
  | IGet id => serve (handleGet id)
  | ICancel id => serve (handleCancel id)
  | IEvents sid id cursor => serve (handleEvents sid id cursor)
  | IClose sid => callback (on_close sid)
  | IPoll id => callback (t ← the_task id; on (gt_poll t) (drain sha256_hex opts world id))
  | IRunEvent id e => callback (while_live id (ingest sha256_hex opts world id e;; mret tt))
  | ISourceEvent id e q => callback (while_live id (ingestSource opts world id e q))
  | IReplayMeta id meta => callback (handleReplayMeta id meta)
  | IGiveUp id => callback (reconcileViaStatus id)
  | IPumpEnd id => callback (modify_task id (set_gt_pump None))
  | IAnswer n a =>
      o ← asks (fun g => gw_pending g !! n);
      match o with
      | None => mret RAwait
      | Some p => update (fun g => set_gw_pending (delete n (gw_pending g)) g);; attempt (resume p a) (failure 500 api_internal_error)
      end
  | IShutdown => silent shutdown
  end.
End Api.

(** A Gateway over a database, or over none, before it listens. *)
Definition empty_gateway (db : option DB) : Gateway :=
  {| gw_heap := ∅; gw_completedOrder := []; gw_activeCount := 0; gw_pendingCreates := 0; gw_shuttingDown := false; gw_db := db; gw_streams := ∅; gw_pending := [] |}.
