(* ===== verification/GatewayInv.v ===== *)
(** * The Gateway's invariant

    [inv bound k g]: what holds of the registry, the streams and the accounting between
    any two operations, with [k] reservations held by the running handler.  Events that
    are published are durable, a task's stream ends with its only terminal event, and the
    counters bound the tasks in flight. *)

From S2P Require Import Prelude Machine Values Json Contract Templates Verification Outputs StoreRows Store StoreOps StoreProps StoreInv StoreRun StoreOnce RuntimeEnv TaskContract Workspace GatewayState Gateway GatewayApi.

#[global] Arguments terminal_event ev : simpl never.
#[global] Arguments evictIfNeeded opts : simpl never.

(** ** Durable events *)

(** The row of an event: as it was appended, or as it was loaded. *)
Definition row_of (id : string) (ev : TaskEvent) (r : TaskEventRow) : Prop :=
  te_task_id r = id /\ te_sequence r = ev_seq ev /\ te_event_type r = ev_type ev /\ te_ts r = ev_ts ev
  /\ (encodeJson (null_payload (ev_payload ev)) SIZE_LIMITS.task_event_payload = Ok (te_payload_json r)
      \/ exists p, decodeJson (Some (te_payload_json r)) SIZE_LIMITS.task_event_payload false = Ok p /\ ev_payload ev = if is_nullish p then VObj [] else p).

Definition durable (db : option DB) (id : string) (ev : TaskEvent) : Prop :=
  terminal_event ev = true \/ match db with None => True | Some s => exists r, In r (db_task_events s) /\ row_of id ev r end.

Lemma durable_evolves (s s' : DB) (id : string) (ev : TaskEvent) : tasks_evolve s s' -> durable (Some s) id ev -> durable (Some s') id ev.
Proof.
  intros [_ _ [l Hl]] [H|(r & Hr & Hev)]; [by left|right]. exists r. split; [|done]. rewrite Hl. apply in_or_app. by left.
Qed.

Lemma append_row (now id : string) (i : TaskEventInput) (s s' : DB) (u : unit) :
  appendTaskEventSync now id i s = (Ok u, s') ->
  exists r, In r (db_task_events s') /\ te_task_id r = id /\ te_sequence r = tei_sequence i /\ te_event_type r = tei_event_type i /\ te_ts r = tei_ts i
            /\ encodeJson (null_payload (tei_payload i)) SIZE_LIMITS.task_event_payload = Ok (te_payload_json r).
Proof.
  intros H. unfold appendTaskEventSync in H. inv_run H. branch E.
  - match goal with H : task_event_at id _ _ = Some ?x |- _ => rename x into r; apply List.find_some in H as [Hin Hseq]; apply List.filter_In in Hin as [Hin Hid] end.
    unfold is_task_event in Hid. bsimpl. exists r. subst. repeat split; congruence.
  - unfold insert_task_event, update_task in *. repeat match goal with H : (_ ≫= _) _ = (Ok _, _) |- _ => inv_run H | H : modify _ _ = _ |- _ => apply modify_ok in H as -> end.
    cbn. eexists. split; [apply in_or_app; right; by left|]. done.
Qed.

Lemma append_durable (now id : string) (ev : TaskEvent) (s s' : DB) (u : unit) :
  appendTaskEventSync now id (toEventInput ev) s = (Ok u, s') -> durable (Some s') id ev.
Proof. intros (r & Hin & Hid & Hq & Ht & Hs & Hp)%append_row. right. exists r. split; [done|]. repeat split; auto. Qed.

(** Later operations keep it. *)
Lemma durable_after {A : Type} (m : M A) (id : string) (ev : TaskEvent) (s s' : DB) (r : result err_code A) :
  Preserves tasks_evolve m -> m s = (r, s') -> durable (Some s) id ev -> durable (Some s') id ev.
Proof. intros Hm H. specialize (Hm s). rewrite H in Hm. by apply durable_evolves. Qed.

Lemma create_durable (now : string) (i : CreateTaskInput) (ev : TaskEvent) (s s' : DB) (x : TaskRecord) :
  createTaskDurable now i (toEventInput ev) s = (Ok x, s') -> durable (Some s') (ct_task_id i) ev.
Proof. intros H. unfold createTaskDurable in H. inv_run H. read_only. by eapply append_durable. Qed.

Lemma create_idempotently_durable (now : string) (i : CreateTaskInput) (ev : TaskEvent) (s s' : DB) (x : TaskRecord) :
  createTaskIdempotently now i (toEventInput ev) s = (Ok (x, true), s') -> durable (Some s') (ct_task_id i) ev.
Proof.
  intros H. unfold createTaskIdempotently in H. inv_run H.
  match goal with H : on_constraint _ _ _ = _ |- _ => apply on_constraint_ok in H as [H|H]; inv_run H end; branch E;
    unfold resolveExisting in *; repeat match goal with H : (_ ≫= _) _ = (Ok _, _) |- _ => inv_run H end; try done; simplify_eq.
  read_only. by eapply append_durable.
Qed.

Lemma ingest_durable (now id : string) (q seq : Z) (e : IngestSourceEvent) (s s' : DB) (x : TaskRecord) :
  ingestSourceEventDurable now id q e s = (Ok (x, true, seq), s') ->
  durable (Some s') id {| ev_seq := seq; ev_task_id := id; ev_type := is_event_type e; ev_ts := is_ts e; ev_payload := is_payload e |}.
Proof.
  intros H. unfold ingestSourceEventDurable in H. inv_run H. branch E.
  { unfold resolveExisting in *. repeat match goal with H : (_ ≫= _) _ = (Ok _, _) |- _ => inv_run H end. simplify_eq. }
  match goal with H : appendTaskEventSync _ _ ?i _ = (Ok _, ?s1) |- _ =>
    apply append_row in H as (r & Hin & Hid & Hq & Ht & Hs & Hp); cbn in *;
    assert (durable (Some s1) id {| ev_seq := te_sequence r; ev_task_id := id; ev_type := is_event_type e; ev_ts := is_ts e; ev_payload := is_payload e |}) as Hd
      by (right; exists r; split; [done|]; repeat split; auto) end.
  rewrite Hq in Hd. simplify_eq. read_only.
  match goal with H : applySourceStatus _ _ _ _ = _ |- _ => eapply (durable_after _ _ _ _ _ _ _ H) end.
  match goal with H : update_task _ _ _ = _ |- _ => apply modify_ok in H as -> end. exact Hd.
Qed.

(** A creation that lost the race finds the winner under its key. *)
Lemma lost_race (now key : string) (i : CreateTaskInput) (e : TaskEventInput) (s s' : DB) (x : TaskRecord) :
  ct_idempotency_key i = Some key -> createTaskIdempotently now i e s = (Ok (x, false), s') ->
  exists rec, getTaskByIdempotencyKey key s' = (Ok (Some rec), s').
Proof.
  intros Hk H. unfold createTaskIdempotently in H. inv_run H. rewrite Hk in *. simplify_eq.
  assert (forall fp row, task_by_key a0 s = Some row -> resolveExisting fp row s = (Ok (x, false), s') -> exists rec, getTaskByIdempotencyKey a0 s' = (Ok (Some rec), s')) as Hres.
  { intros fp row Hrow Hr. unfold resolveExisting in Hr. inv_run Hr.
    match goal with H : toTask _ _ = _ |- _ => pose proof (toTask_row _ _ _ _ H) as [_ ->]; rename H into Ht end.
    exists x. unfold getTaskByIdempotencyKey. rewrite run_opened by done. unfold mbind, M_bind, gets. rewrite Hrow. unfold opt_map, mbind, M_bind, mret, M_ret.
    simplify_eq. by rewrite Ht. }
  match goal with H : on_constraint _ _ _ = _ |- _ => apply on_constraint_ok in H as [H|H]; inv_run H end; branch E; simplify_eq; eauto; try done.
Qed.

(** ** The invariant *)

Definition no_terminal (l : list TaskEvent) : Prop := Forall (fun e => terminal_event e = false) l.
Definition ends_terminal (l : list TaskEvent) : Prop := exists l0 e, l = l0 ++ [e] /\ no_terminal l0 /\ terminal_event e = true.

(** [c]: the task whose terminal event has been pushed and which is about to finish. *)
Record task_ok (c : option string) (db : option DB) (streams : gmap nat Sse) (id : string) (t : GatewayTask) : Prop := {
  to_id : gt_taskId t = id;
  to_log : if gt_terminal t || opt_is c id then ends_terminal (gt_events t) else no_terminal (gt_events t);
  to_durable : forall ev, In ev (gt_events t) -> durable db id ev;
  to_subs : NoDup (gt_subscribers t);
  to_streams : forall sid, In sid (gt_subscribers t) ->
    exists s, streams !! sid = Some s /\ ss_task s = id /\ ss_live s = true
      /\ (ss_ended s = false -> if opt_is c id then ends_terminal (ss_sent s) else no_terminal (ss_sent s));
  to_done : gt_terminal t = true -> gt_subscribers t = [];
  to_registered : gt_registered t = false -> gt_terminal t = true }.

Record stream_ok (db : option DB) (s : Sse) : Prop := {
  st_durable : forall ev, In ev (ss_sent s) -> durable db (ss_task s) ev;
  st_closed : ss_live s = true -> no_terminal (ss_sent s) \/ ends_terminal (ss_sent s) }.

(** The number of tasks that have not ended. *)
Definition live_tasks (heap : gmap string GatewayTask) : Z := Z.of_nat (size (filter (fun kv => gt_terminal kv.2 = false) heap)).
Definition reserved (l : list Pending) : Z := Z.of_nat (List.length (List.filter reserves l)).
(** Identifiers of tasks whose remote start is awaited. *)
Definition starting (l : list Pending) : list string := flat_map (fun p => match p with PRemoteStart _ t _ _ _ => [gt_taskId t] | _ => [] end) l.

Definition pending_ok (db : option DB) (p : Pending) : Prop :=
  match p with
  | PResult _ ev _ | PResultTimer _ ev _ => terminal_event ev = true
  | PRemoteStart _ t ev _ _ =>
      gt_events t = [] /\ gt_terminal t = false /\ gt_subscribers t = [] /\ gt_registered t = true
      /\ terminal_event ev = false /\ durable db (gt_taskId t) ev
  | _ => True
  end.

Record inv_closing (c : option string) (bound k : Z) (g : Gateway) : Prop := {
  in_tasks : forall id t, gw_heap g !! id = Some t -> task_ok c (gw_db g) (gw_streams g) id t;
  in_streams : forall sid s, gw_streams g !! sid = Some s -> stream_ok (gw_db g) s;
  in_active : gw_activeCount g = live_tasks (gw_heap g);
  in_bound : gw_activeCount g + gw_pendingCreates g <= bound;
  in_reserved : reserved (gw_pending g) + k <= gw_pendingCreates g;
  in_pending : Forall (pending_ok (gw_db g)) (gw_pending g);
  in_starting : NoDup (starting (gw_pending g));
  in_fresh : forall id, In id (starting (gw_pending g)) -> gw_heap g !! id = None }.

Abbreviation inv := (inv_closing None).
#[global] Arguments starting l : simpl never.
#[global] Arguments reserved l : simpl never.
#[global] Arguments live_tasks heap : simpl never.

(** ** Operations that leave the streams alone *)

Definition benign (f : GatewayTask -> GatewayTask) : Prop := forall t,
  gt_taskId (f t) = gt_taskId t /\ gt_events (f t) = gt_events t /\ gt_subscribers (f t) = gt_subscribers t
  /\ gt_terminal (f t) = gt_terminal t /\ gt_registered (f t) = gt_registered t.

Lemma task_ok_benign (c : option string) (db : option DB) (streams : gmap nat Sse) (id : string) (f : GatewayTask -> GatewayTask) (t : GatewayTask) :
  benign f -> task_ok c db streams id t -> task_ok c db streams id (f t).
Proof. intros Hf []. destruct (Hf t) as (E1 & E2 & E3 & E4 & E5). constructor; rewrite ?E1, ?E2, ?E3, ?E4, ?E5; auto. Qed.

Lemma task_ok_db (c : option string) (s s' : DB) (streams : gmap nat Sse) (id : string) (t : GatewayTask) :
  tasks_evolve s s' -> task_ok c (Some s) streams id t -> task_ok c (Some s') streams id t.
Proof. intros He []. constructor; auto. intros ev Hev. eapply durable_evolves; eauto. Qed.

(** The other tasks, and the one at a key. *)
Lemma live_insert (heap : gmap string GatewayTask) (id : string) (t : GatewayTask) :
  live_tasks (<[id := t]> heap) = live_tasks (delete id heap) + if gt_terminal t then 0 else 1.
Proof.
  unfold live_tasks. rewrite <- insert_delete_eq. destruct (gt_terminal t) eqn:E.
  - rewrite map_filter_insert_False by (cbn; congruence). rewrite delete_delete_eq. lia.
  - rewrite map_filter_insert_True by done. rewrite map_size_insert_None; [lia|]. apply map_lookup_filter_None. left. apply lookup_delete_eq.
Qed.
Lemma live_at (heap : gmap string GatewayTask) (id : string) (t : GatewayTask) :
  heap !! id = Some t -> live_tasks heap = live_tasks (delete id heap) + if gt_terminal t then 0 else 1.
Proof. intros H. rewrite <- live_insert. by rewrite insert_id. Qed.
Lemma alter_insert_at {A : Type} (m : gmap string A) (k : string) (f : A -> A) (x : A) : m !! k = Some x -> alter f k m = <[k := f x]> m.
Proof. intros H. apply map_eq. intros j. destruct (decide (j = k)) as [->|]; [by rewrite lookup_alter_eq, lookup_insert_eq, H|by rewrite lookup_alter_ne, lookup_insert_ne]. Qed.
Lemma alter_absent {A : Type} (m : gmap string A) (k : string) (f : A -> A) : m !! k = None -> alter f k m = m.
Proof. intros H. apply map_eq. intros j. destruct (decide (j = k)) as [->|]; [by rewrite lookup_alter_eq, H|by rewrite lookup_alter_ne]. Qed.
Lemma live_alter (heap : gmap string GatewayTask) (id : string) (f : GatewayTask -> GatewayTask) :
  (forall t, heap !! id = Some t -> gt_terminal (f t) = gt_terminal t) -> live_tasks (alter f id heap) = live_tasks heap.
Proof.
  intros Hf. destruct (heap !! id) as [t|] eqn:E; [|by rewrite alter_absent].
  rewrite (alter_insert_at _ _ _ _ E), live_insert, (live_at _ _ _ E), Hf; done.
Qed.

Lemma heap_alter (P : string -> GatewayTask -> Prop) (heap : gmap string GatewayTask) (id : string) (f : GatewayTask -> GatewayTask) :
  (forall j t, heap !! j = Some t -> P j t) -> (forall t, heap !! id = Some t -> P id t -> P id (f t)) -> forall j t, alter f id heap !! j = Some t -> P j t.
Proof. intros H Hf j t [(-> & x & Hx & ->)|[? Hx]]%lookup_alter_Some; auto. Qed.

Section Steps.
Context (c : option string) (bound k : Z).

Lemma inv_modify (id : string) (f : GatewayTask -> GatewayTask) : benign f -> Holds (inv_closing c bound k) (modify_task id f).
Proof.
  intros Hf g []. constructor; cbn; auto.
  - apply heap_alter; [done|]. intros t _. by apply task_ok_benign.
  - rewrite live_alter; [done|]. intros t _. apply Hf.
  - intros j Hj. apply lookup_alter_None. auto.
Qed.

Lemma pending_ok_db (s s' : DB) (p : Pending) : tasks_evolve s s' -> pending_ok (Some s) p -> pending_ok (Some s') p.
Proof. intros He. destruct p; cbn; auto. intros (? & ? & ? & ? & ? & ?). repeat split; auto. by eapply durable_evolves. Qed.

#[global] Instance inv_store {A : Type} (m : M A) : Preserves tasks_evolve m -> Holds (inv_closing c bound k) (store m).
Proof.
  intros Hm g Hg. unfold store. destruct (gw_db g) as [db|] eqn:Edb; [|done]. specialize (Hm db). destruct (m db) as [r db']; cbn in *.
  destruct Hg. rewrite Edb in *. constructor; cbn; auto.
  - intros id t Ht. eapply task_ok_db; eauto.
  - intros sid s Hs. destruct (in_streams0 _ _ Hs). constructor; auto. intros ev Hev. eapply durable_evolves; eauto.
  - eapply Forall_impl; [done|]. intros p. by apply pending_ok_db.
Qed.

Lemma inv_awaits (p : Pending) : reserves p = false -> match p with PResult _ ev _ | PResultTimer _ ev _ => terminal_event ev = true | _ => True end -> Holds (inv_closing c bound k) (awaits p).
Proof.
  intros Hr Hp g []. assert (starting (gw_pending g ++ [p]) = starting (gw_pending g)) as Hst.
  { unfold starting. rewrite flat_map_app. destruct p; try done; by rewrite app_nil_r. }
  constructor; cbn; rewrite ?Hst; auto.
  - unfold reserved in *. rewrite List.filter_app, length_app. cbn. rewrite Hr. cbn. lia.
  - apply Forall_app. split; [done|]. constructor; [|constructor]. by destruct p.
Qed.
End Steps.

(** ** Publishing and finishing *)

Lemma alter_each (f : Sse -> Sse) (subs : list nat) (m : gmap nat Sse) (sid : nat) : NoDup subs ->
  foldr (alter f) m subs !! sid = if bool_decide (sid ∈ subs) then f <$> m !! sid else m !! sid.
Proof.
  induction 1 as [|x subs Hx _ IH]; [done|]. cbn. destruct (decide (sid = x)) as [->|Hne].
  - rewrite lookup_alter_eq, IH, (bool_decide_false (x ∈ subs)) by done. by rewrite bool_decide_true by set_solver.
  - rewrite lookup_alter_ne, IH by done. apply symmetry. erewrite bool_decide_ext; [done|]. set_solver.
Qed.

(** Is the task there, and has it not ended? *)
Definition live (id : string) (g : Gateway) : Prop := exists t, gw_heap g !! id = Some t /\ gt_terminal t = false.

Lemma no_terminal_snoc (l : list TaskEvent) (ev : TaskEvent) : no_terminal l -> terminal_event ev = false -> no_terminal (l ++ [ev]).
Proof. intros H He. apply Forall_app. split; [done|]. by constructor. Qed.
Lemma no_terminal_tail (l : list TaskEvent) : no_terminal l -> no_terminal (tail l).
Proof. intros H. destruct H; [constructor|done]. Qed.
Lemma ends_snoc (l : list TaskEvent) (ev : TaskEvent) : no_terminal l -> terminal_event ev = true -> ends_terminal (l ++ [ev]).
Proof. intros. by exists l, ev. Qed.
Lemma ends_tail (l : list TaskEvent) (n : Z) : ends_terminal l -> 1 <= n -> n < Z.of_nat (List.length l) -> ends_terminal (tail l).
Proof.
  intros (l0 & e & -> & Hl & He) Hn Hlen. rewrite length_app in Hlen. cbn in Hlen. destruct l0 as [|x l0]; [cbn in Hlen; lia|]. cbn. exists l0, e.
  split; [done|]. split; [|done]. by apply Forall_cons_1 in Hl as [_ ?].
Qed.
Lemma In_tail {A : Type} (x : A) (l : list A) : In x (tail l) -> In x l.
Proof. destruct l; [done|]. by right. Qed.

Section Publish.
Context (opts : GatewayOptions) (Hmax : 1 <= go_maxEvents opts) (bound k : Z).

Definition trimmed (l : list TaskEvent) : list TaskEvent := if go_maxEvents opts <? Z.of_nat (List.length l) then tail l else l.

(** The state after [pushEvent]. *)
Definition pushed (id : string) (ev : TaskEvent) (t : GatewayTask) (g : Gateway) : Gateway :=
  set_gw_streams (foldr (alter (send ev)) (gw_streams g) (gt_subscribers t)) (set_gw_heap (<[id := set_gt_events (trimmed (gt_events t ++ [ev])) t]> (gw_heap g)) g).

Lemma pushEvent_run (id : string) (ev : TaskEvent) (t : GatewayTask) (g : Gateway) :
  gw_heap g !! id = Some t -> pushEvent opts id ev g = (Ok tt, pushed id ev t g).
Proof.
  intros Ht. unfold pushEvent, the_task, mbind, ST_bind, asks. cbn. rewrite Ht. cbn. unfold modify_task, update. cbn. unfold pushed, trimmed.
  by rewrite (alter_insert_at _ _ _ _ Ht).
Qed.

Lemma inv_pushed (id : string) (ev : TaskEvent) (t : GatewayTask) (g : Gateway) :
  gw_heap g !! id = Some t -> gt_terminal t = false -> durable (gw_db g) id ev -> inv bound k g ->
  inv_closing (if terminal_event ev then Some id else None) bound k (pushed id ev t g).
Proof.
  intros Ht Hlive Hd []. pose proof (in_tasks0 _ _ Ht) as [Hid Hlog Hdur Hnd Hstr Hdone Hreg]. rewrite Hlive in *. cbn in Hlog.
  constructor; cbn; auto.
  - intros j t' Hj. destruct (decide (j = id)) as [->|Hne].
    + rewrite lookup_insert_eq in Hj. injection Hj as <-. constructor; cbn; auto.
      * rewrite Hlive. cbn. unfold trimmed. destruct (terminal_event ev) eqn:Ee; cbn; rewrite ?String.eqb_refl.
        -- pose proof (ends_snoc _ _ Hlog Ee) as Hends. destruct (_ <? _) eqn:El; [|done]. bsimpl. by eapply ends_tail.
        -- pose proof (no_terminal_snoc _ _ Hlog Ee). by destruct (_ <? _); [apply no_terminal_tail|].
      * intros x Hx. assert (In x (gt_events t ++ [ev])) as Hin by (unfold trimmed in Hx; by destruct (_ <? _); [apply In_tail|]).
        apply in_app_or in Hin as [?|[->|[]]]; auto.
      * intros sid Hsid. destruct (Hstr sid Hsid) as (s & Hs & Hst & Hsl & Hsent). rewrite alter_each, bool_decide_true, Hs by (done || by apply list_elem_of_In).
        exists (send ev s). split; [done|]. unfold send. destruct (ss_ended s) eqn:Een; [by rewrite Een|]. cbn. split; [done|]. split; [done|]. intros _.
        specialize (Hsent eq_refl). cbn in Hsent. destruct (terminal_event ev) eqn:Ee; cbn; rewrite ?String.eqb_refl; [by apply ends_snoc|by apply no_terminal_snoc].
      * congruence.
      * intros Hr. by specialize (Hreg Hr).
    + rewrite lookup_insert_ne in Hj by done. destruct (in_tasks0 _ _ Hj) as [Hid' Hlog' Hdur' Hnd' Hstr' Hdone' Hreg'].
      assert (opt_is (if terminal_event ev then Some id else None) j = false) as Ec by (destruct (terminal_event ev); [|done]; by apply String.eqb_neq).
      constructor; rewrite ?Ec; auto. intros sid Hsid. destruct (Hstr' sid Hsid) as (s & Hs & Hst & Hrest). exists s. split; [|done].
      rewrite alter_each by done. rewrite bool_decide_false; [done|]. intros Hin%list_elem_of_In. destruct (Hstr sid Hin) as (s' & Hs' & Hst' & _). congruence.
  - intros sid s Hs. rewrite alter_each in Hs by done. destruct (bool_decide _) eqn:Eb; [|by apply (in_streams0 sid)].
    apply bool_decide_eq_true in Eb. apply list_elem_of_In in Eb. destruct (Hstr sid Eb) as (s0 & Hs0 & Hst & Hsl & Hsent). rewrite Hs0 in Hs. injection Hs as <-.
    destruct (in_streams0 _ _ Hs0) as [Hsd Hsc]. unfold send. destruct (ss_ended s0) eqn:Een; [by constructor|]. specialize (Hsent eq_refl). cbn in Hsent. constructor; cbn.
    + intros x [Hx|[->|[]]]%in_app_or; [auto|by rewrite Hst].
    + intros _. destruct (terminal_event ev) eqn:Ee; [right; by apply ends_snoc|left; by apply no_terminal_snoc].
  - rewrite live_insert. cbn. by rewrite <- live_at.
  - intros j Hj. specialize (in_fresh0 j Hj). rewrite lookup_insert_ne; congruence.
Qed.

(** Eviction only drops tasks that have ended. *)
Definition drop_ended (t : GatewayTask) : GatewayTask := if gt_registered t && gt_terminal t then set_gt_registered false t else t.

Lemma task_ok_drop (c : option string) (db : option DB) (streams : gmap nat Sse) (id : string) (t : GatewayTask) :
  task_ok c db streams id t -> task_ok c db streams id (drop_ended t).
Proof. intros Ht. unfold drop_ended. destruct (gt_registered t && gt_terminal t) eqn:E; [|done]. destruct Ht. constructor; cbn; auto. intros _. by bsimpl. Qed.

Lemma evict_ok (c : option string) (db : option DB) (streams : gmap nat Sse) (order : list string) (heap : gmap string GatewayTask) :
  (forall id t, heap !! id = Some t -> task_ok c db streams id t) ->
  let heap' := fst (evict opts heap order) in
  (forall id t, heap' !! id = Some t -> task_ok c db streams id t) /\ live_tasks heap' = live_tasks heap /\ (forall id, heap !! id = None -> heap' !! id = None).
Proof.
  revert heap. induction order as [|v order IH]; intros heap H; [done|]. cbn [evict]. destruct (_ <? _); [|done].
  change (fun t => if gt_registered t && gt_terminal t then set_gt_registered false t else t) with drop_ended.
  destruct (IH (alter drop_ended v heap)) as (H1 & H2 & H3).
  { apply heap_alter; [done|]. intros t _. apply task_ok_drop. }
  split; [done|]. split.
  - rewrite H2. apply live_alter. intros t _. unfold drop_ended. by destruct (_ && _).
  - intros id Hid. apply H3, lookup_alter_None. done.
Qed.

Lemma inv_evict (g : Gateway) : inv bound k g -> inv bound k (snd (evictIfNeeded opts g)).
Proof.
  intros []. unfold evictIfNeeded, update. cbn. destruct (evict_ok _ _ _ (gw_completedOrder g) _ in_tasks0) as (H1 & H2 & H3).
  destruct (evict _ _ _) as [heap order]. cbn in *. constructor; cbn; auto. congruence.
Qed.

Lemma inv_finish (id : string) : hoare (fun g => inv_closing (Some id) bound k g /\ live id g) (finishTask opts id) (inv bound k).
Proof.
  intros g [[] (t & Ht & Hlive)]. unfold finishTask, the_task, mbind, ST_bind, asks. cbn. rewrite Ht. cbn. rewrite Hlive. cbn.
  pose proof (in_tasks0 _ _ Ht) as [Hid Hlog Hdur Hnd Hstr Hdone Hreg]. cbn in Hlog, Hstr. rewrite String.eqb_refl, orb_true_r in Hlog.
  rewrite (alter_insert_at _ _ _ _ Ht). apply inv_evict. constructor; cbn; auto.
  - intros j t' Hj. destruct (decide (j = id)) as [->|Hne].
    + rewrite lookup_insert_eq in Hj. injection Hj as <-. constructor; cbn; auto; [constructor|done].
    + rewrite lookup_insert_ne in Hj by done. destruct (in_tasks0 _ _ Hj) as [Hid' Hlog' Hdur' Hnd' Hstr' Hdone' Hreg'].
      cbn in Hlog', Hstr'. rewrite (proj2 (String.eqb_neq id j) (not_eq_sym Hne)) in *. constructor; auto.
      intros sid Hsid. destruct (Hstr' sid Hsid) as (s & Hs & Hst & Hrest). exists s. split; [|done].
      rewrite alter_each by done. rewrite bool_decide_false; [done|]. intros Hin%list_elem_of_In. destruct (Hstr sid Hin) as (s' & Hs' & Hst' & _). congruence.
  - intros sid s Hs. rewrite alter_each in Hs by done. destruct (bool_decide _); [|by apply (in_streams0 sid)].
    destruct (gw_streams g !! sid) as [s0|] eqn:E0; [|done]. injection Hs as <-. by destruct (in_streams0 _ _ E0).
  - rewrite live_insert. cbn. rewrite (live_at _ _ _ Ht), Hlive in in_active0. lia.
  - lia.
  - intros j Hj. specialize (in_fresh0 j Hj). rewrite lookup_insert_ne; congruence.
Qed.

(** Publishing an event of a task that goes on. *)
Lemma inv_push (id : string) (ev : TaskEvent) : terminal_event ev = false ->
  hoare (fun g => inv bound k g /\ live id g /\ durable (gw_db g) id ev) (pushEvent opts id ev) (fun g => inv bound k g /\ live id g).
Proof.
  intros He g (Hg & (t & Ht & Hl) & Hd). rewrite (pushEvent_run _ _ _ _ Ht). cbn. split.
  - pose proof (inv_pushed id ev t g Ht Hl Hd Hg) as H. by rewrite He in H.
  - eexists. unfold pushed. cbn. rewrite lookup_insert_eq. by split.
Qed.
(** Publishing its terminal event. *)
Lemma inv_push_last (id : string) (ev : TaskEvent) : terminal_event ev = true ->
  hoare (fun g => inv bound k g /\ live id g) (pushEvent opts id ev) (fun g => inv_closing (Some id) bound k g /\ live id g).
Proof.
  intros He g (Hg & (t & Ht & Hl)). rewrite (pushEvent_run _ _ _ _ Ht). cbn. split.
  - pose proof (inv_pushed id ev t g Ht Hl (or_introl He) Hg) as H. by rewrite He in H.
  - eexists. unfold pushed. cbn. rewrite lookup_insert_eq. by split.
Qed.
End Publish.
