(* ===== verification/GatewayKeeps.v ===== *)
(** * Every operation of the Gateway keeps its invariant

    The synchronous sections, bottom up: publishing, finishing, ingestion, pumps,
    reconciliation, recovery and the request handlers. *)

From S2P Require Import Prelude Machine Values Json Contract Templates Verification Outputs StoreRows Store StoreOps StoreProps StoreInv StoreRun StoreOnce RuntimeEnv TaskContract Workspace GatewayState Gateway GatewayApi GatewayInv.

(** ** Reads of the store *)

#[global] Instance reads_events (l : list TaskEventRow) : Preserves eq (map_events l).
Proof. induction l as [|r l IH]; cbn [map_events]; preserve. Qed.
#[global] Instance reads_records (l : list TaskRow) : Preserves eq (map_records l).
Proof. induction l as [|r l IH]; cbn [map_records]; preserve. Qed.
Lemma reads_evolve {A : Type} (m : M A) : Preserves eq m -> Preserves tasks_evolve m.
Proof. intros H s. rewrite <- (H s). reflexivity. Qed.
#[global] Instance evolve_loadTaskEvents (id : string) : Preserves tasks_evolve (loadTaskEvents id).
Proof. apply reads_evolve. unfold loadTaskEvents. preserve. Qed.
#[global] Instance evolve_listNonTerminalTasks : Preserves tasks_evolve listNonTerminalTasks.
Proof. apply reads_evolve. unfold listNonTerminalTasks. preserve. Qed.

#[global] Hint Extern 3 (Holds (inv_closing _ _ _) (store _)) => (apply inv_store; solve [preserve]) : typeclass_instances.
#[global] Hint Extern 3 (Holds (inv_closing _ _ _) (modify_task _ _)) => (apply inv_modify; intros ?; by repeat split) : typeclass_instances.
#[global] Hint Extern 3 (Holds (inv_closing _ _ _) (awaits _)) => (apply inv_awaits; done) : typeclass_instances.

(** ** Tasks that have not ended *)

#[global] Instance live_store {A : Type} (id : string) (m : M A) : Holds (live id) (store m).
Proof. intros g Hg. unfold store. destruct (gw_db g); [|done]. by destruct (m d). Qed.
#[global] Instance live_awaits (id : string) (p : Pending) : Holds (live id) (awaits p).
Proof. by intros g Hg. Qed.
Lemma live_modify (id j : string) (f : GatewayTask -> GatewayTask) : (forall t, gt_terminal (f t) = gt_terminal t) -> Holds (live id) (modify_task j f).
Proof.
  intros Hf g (t & Ht & Hl). unfold live. cbn. destruct (decide (j = id)) as [->|].
  - exists (f t). by rewrite lookup_alter_eq, Ht, Hf.
  - exists t. by rewrite lookup_alter_ne.
Qed.
#[global] Hint Extern 3 (Holds (live _) (modify_task _ _)) => (apply live_modify; done) : typeclass_instances.

Lemma hoare_the {A : Type} (P R : Gateway -> Prop) (id : string) (k : GatewayTask -> G A) :
  (forall t, hoare (fun g => P g /\ gw_heap g !! id = Some t) (k t) R) -> (forall g, P g -> R g) -> hoare P (the_task id ≫= k) R.
Proof.
  intros H Hr g Hg. unfold the_task, mbind, ST_bind, asks. cbn. destruct (gw_heap g !! id) as [t|] eqn:E; cbn; [by apply H|by apply Hr].
Qed.

(** A call to the store, with what its run tells. *)
Definition stored_by {A : Type} (m : M A) (a : A) (g : Gateway) : Prop := exists db db', m db = (Ok a, db') /\ gw_db g = Some db'.
Lemma hoare_store {A B : Type} (P R : Gateway -> Prop) (m : M A) (k : A -> G B) :
  Holds P (store m) -> (forall a, hoare (fun g => P g /\ stored_by m a g) (k a) R) -> (forall g, P g -> R g) -> hoare P (store m ≫= k) R.
Proof.
  intros Hm Hk Hr g Hg. specialize (Hm g Hg). unfold store, mbind, ST_bind in *. destruct (gw_db g) as [db|] eqn:Edb; [|by apply Hr].
  destruct (m db) as [[a|e] db'] eqn:Em; cbn in *; [|by apply Hr]. apply Hk. split; [done|]. by exists db, db'.
Qed.
Lemma hoare_attempt {A : Type} (P R : Gateway -> Prop) (m h : G A) : hoare P m R -> hoare R h R -> hoare P (attempt m h) R.
Proof. intros Hm Hh g Hg. unfold attempt, catch. specialize (Hm g Hg). destruct (m g) as [[a|[]] g']; try done; by apply Hh. Qed.

(** The event buffer of a task holds at least one event. *)
Class Buffers (opts : GatewayOptions) : Prop := buffers : 1 <= go_maxEvents opts.
#[global] Instance buffers_default (remoteEnabled : bool) : Buffers (default_options remoteEnabled).
Proof. done. Qed.

Section Keeps.
Context (sha256_hex : string -> string) (opts : GatewayOptions) `{Hmax : !Buffers opts} (world : World) (bound k : Z).

#[local] Abbreviation keeps := (Holds (inv bound k)).
#[local] Abbreviation going id := (fun g => inv bound k g /\ live id g).

Lemma going_of (id : string) (t : GatewayTask) (g : Gateway) : inv bound k g /\ gw_heap g !! id = Some t -> gt_terminal t = false -> going id g.
Proof. intros [H Ht] Hl. split; [done|]. by exists t. Qed.

(** A read of the task that returns when it has ended. *)
Lemma keeps_unless_ended {A : Type} (id : string) (a : A) (body : GatewayTask -> G A) :
  (forall t, hoare (going id) (body t) (inv bound k)) -> keeps (t ← the_task id; if gt_terminal t then mret a else body t).
Proof.
  intros H. apply hoare_the; [|done]. intros t. destruct (gt_terminal t) eqn:E; [apply hoare_ret; naive_solver|].
  eapply hoare_weaken; [apply (H t)| |done]. intros g Hg. by eapply going_of.
Qed.

Lemma keeps_resolve (id j : string) (ev : TaskEvent) : Holds (going j) (resolveTerminalResult sha256_hex world id ev).
Proof. unfold resolveTerminalResult, readRun. apply holds_and; hold. Qed.

(** [pushEvent] of a terminal event, then what ends with [finishTask]. *)
Lemma keeps_push_last {A : Type} (id : string) (ev : TaskEvent) (rest : G A) : terminal_event ev = true ->
  hoare (fun g => inv_closing (Some id) bound k g /\ live id g) rest (inv bound k) -> hoare (going id) (pushEvent opts id ev;; rest) (inv bound k).
Proof.
  intros He Hr g [Hg (t & Ht & Hl)]. unfold mbind, ST_bind. rewrite (pushEvent_run _ _ _ _ _ Ht). apply Hr.
  pose proof (inv_push_last opts Hmax bound k id ev He g) as H. rewrite (pushEvent_run _ _ _ _ _ Ht) in H. apply H. split; [done|]. by exists t.
Qed.

Lemma keeps_finishWithTerminal (id : string) (ev : TaskEvent) (e : option (string * string)) :
  terminal_event ev = true -> keeps (finishWithTerminal sha256_hex opts world id ev e).
Proof.
  intros He. unfold finishWithTerminal. apply keeps_unless_ended. intros t.
  eapply (hoare_bind _ (going id)); [apply hoare_holds, _|intros p|by intros g []].
  eapply (hoare_bind _ (going id)); [|intros _|by intros g []].
  - apply hoare_holds, holds_on, holds_bind; [apply keeps_resolve|]. intros res. apply holds_and; hold.
  - apply keeps_push_last; [done|]. apply inv_finish.
Qed.

Lemma keeps_persistThenPush (id : string) (ev : TaskEvent) : terminal_event ev = false -> hoare (going id) (persistThenPush opts world id ev) (inv bound k).
Proof.
  intros He g [Hg Hl]. unfold persistThenPush, persist, asks, mbind, ST_bind. cbn.
  assert (forall g, inv bound k g -> live id g -> durable (gw_db g) id ev -> inv bound k (snd (pushEvent opts id ev g))) as Hpush
    by (intros g' H1 H2 H3; by apply (inv_push opts Hmax bound k id ev He)).
  destruct (gw_db g) as [db|] eqn:Edb; cbn; [|apply Hpush; [done|done|by right; rewrite Edb]].
  pose proof (inv_store None bound k (appendTaskEventDurable (wd_now world) id (toEventInput ev)) _ g Hg) as Hs.
  pose proof (live_store id (appendTaskEventDurable (wd_now world) id (toEventInput ev)) g Hl) as Hls.
  unfold attempt, catch, store in *. rewrite Edb in *. unfold now.
  destruct (appendTaskEventDurable _ _ _ db) as [[u|c] db'] eqn:Ea; cbn in *; [|done].
  apply Hpush; [done|done|]. cbn. unfold appendTaskEventDurable in Ea. inv_run Ea. by eapply append_durable.
Qed.

Lemma terminal_type_terminal (status : TaskStatus) (ev : TaskEvent) : ev_type ev = task_event_type (terminal_type status) -> terminal_event ev = true.
Proof. unfold terminal_event. intros ->. by destruct status. Qed.

Lemma keeps_synthEvent {A : Type} (id : string) (type : TaskEventType) (payload : value) (rest : TaskEvent -> G A) :
  (forall ev, ev_type ev = task_event_type type -> keeps (rest ev)) -> keeps (synthEvent world id type payload ≫= rest).
Proof.
  intros H g Hg. unfold synthEvent, the_task, mbind, ST_bind, asks. cbn. destruct (gw_heap g !! id) as [t|] eqn:Et; cbn; [|done].
  apply H; [done|]. apply (inv_modify None bound k id (set_gt_nextSeq (gt_nextSeq t + 1))); [|done]. intros ?. by repeat split.
Qed.

#[local] Hint Extern 3 (Holds (inv_closing _ _ _) (finishWithTerminal _ _ _ _ _ _)) =>
  (apply keeps_finishWithTerminal; first [assumption|by eapply terminal_type_terminal]) : typeclass_instances.
#[local] Hint Extern 3 (Holds (inv_closing _ _ _) (awaits (PResult _ _ _))) => (apply inv_awaits; [done|assumption]) : typeclass_instances.
#[local] Hint Extern 3 (Holds (inv_closing _ _ _) (awaits (PResultTimer _ _ _))) => (apply inv_awaits; [done|assumption]) : typeclass_instances.

(** *** Remote results *)

Section Result.
Context (id : string) (ev : TaskEvent) (He : terminal_event ev = true).
Lemma keeps_request_result (n : nat) : keeps (request_result sha256_hex opts world id ev n).
Proof. unfold request_result. hold. Qed.
Lemma keeps_finishRemote : keeps (finishRemoteWithResult sha256_hex opts world id ev).
Proof. pose proof keeps_request_result. unfold finishRemoteWithResult. hold. Qed.
Lemma keeps_on_result (n : nat) (a : option (string * option AgentTaskResultV1)) : keeps (on_result sha256_hex opts world id ev n a).
Proof. pose proof keeps_request_result. unfold on_result. hold. Qed.
End Result.

#[global] Instance keeps_fetchAndPersist (id : string) : keeps (fetchAndPersistRemoteResult opts id).
Proof. hold. Qed.
#[global] Instance keeps_on_persist (id : string) : keeps (on_persist world id).
Proof. hold. Qed.
#[global] Instance keeps_on_fetch (id : string) (a : option (string * option AgentTaskResultV1)) : keeps (on_fetch world id a).
Proof. hold. Qed.

#[global] Instance keeps_reconcile (id : string) (record : RunRecord) : keeps (reconcileRemoteRecord sha256_hex opts world id record).
Proof.
  unfold reconcileRemoteRecord. apply holds_bind; [apply _|]. intros _. apply holds_bind; [hold|]. intros t. cbv zeta. destruct (_ || _); [apply _|].
  apply keeps_synthEvent. intros ev Hev. apply keeps_finishRemote. by eapply terminal_type_terminal.
Qed.

(** *** Run events *)

#[global] Instance keeps_ingest (id : string) (e : RunEvent) : keeps (ingest sha256_hex opts world id e).
Proof.
  unfold ingest. apply keeps_unless_ended. intros t. destruct (runEventToTaskEvent e (gt_nextSeq t)) as [te|]; [|apply hoare_ret; by intros g []].
  eapply (hoare_bind _ (going id)); [apply hoare_holds, holds_and; apply _|intros _|by intros g []].
  match goal with |- context [terminal_event ?te] => destruct (terminal_event te) eqn:Ee end.
  - apply (hoare_weaken _ _ _ (inv bound k) (inv bound k)); [apply hoare_holds|by intros g []|done].
    apply holds_bind; [|apply _]. destruct (gt_mode t); [apply _|by apply keeps_finishRemote].
  - eapply (hoare_bind _ (inv bound k)); [by apply keeps_persistThenPush|intros _; by apply hoare_ret|done].
Qed.

#[global] Instance keeps_drain_loop (id : string) (i : nat) (rest : list RunEvent) : keeps (drain_loop sha256_hex opts world id i rest).
Proof. revert i. induction rest as [|e rest IH]; intros i; cbn [drain_loop]; hold. Qed.
#[global] Instance keeps_drain (id : string) : keeps (drain sha256_hex opts world id).
Proof. hold. Qed.
#[global] Instance keeps_startPoll (id : string) : keeps (startPoll sha256_hex opts world id).
Proof. hold. Qed.

(** *** Pumps *)

#[global] Instance keeps_startRemotePump (id : string) : keeps (startRemotePump id).
Proof. hold. Qed.
#[global] Instance keeps_resumePump (id : string) : keeps (resumePump id).
Proof. hold. Qed.
#[global] Instance keeps_mark_incomplete (id reason : string) : keeps (mark_incomplete id reason).
Proof. hold. Qed.
#[global] Instance keeps_maybeClear (id : string) : keeps (maybeClearCatchUp id).
Proof. hold. Qed.
#[global] Instance keeps_handleReplayMeta (id : string) (meta : value) : keeps (handleReplayMeta id meta).
Proof. hold. Qed.

#[global] Instance keeps_ingestSource (id : string) (e : RunEvent) (q : Z) : keeps (ingestSource opts world id e q).
Proof.
  unfold ingestSource. apply hoare_the; [|done]. intros t. apply hoare_asks. intros p.
  destruct (gt_terminal t) eqn:Et; [apply hoare_ret; naive_solver|]. destruct p; cbn; [|apply hoare_ret; naive_solver].
  destruct (runEventToTaskEvent e 0) as [te|]; [|apply (hoare_weaken _ _ _ (inv bound k) (inv bound k)); [apply hoare_holds; hold|naive_solver|done]].
  apply (hoare_weaken _ _ _ (going id) (inv bound k)); [|intros g [[Hg Ht] _]; by eapply going_of|done].
  apply hoare_attempt; [|by apply hoare_ret]. apply hoare_store; [apply holds_and; apply _| |by intros g []].
  intros [[rec applied] seq].
  set (ev := {| ev_seq := seq; ev_task_id := id; ev_type := ev_type te; ev_ts := ev_ts te; ev_payload := ev_payload te |}).
  set (P := fun g => going id g /\ (applied = true -> durable (gw_db g) id ev)).
  assert (forall j f, Holds (going id) (modify_task j f) -> Holds P (modify_task j f)) as Hmod by (intros j f Hj g [Hg Hd]; split; [by apply Hj|done]).
  apply (hoare_weaken _ _ _ P (inv bound k)); [|intros g [Hg (db & db' & Hm & Hdb)]; split; [done|]; intros ->; rewrite Hdb; exact (ingest_durable _ _ _ _ _ _ _ _ Hm)|done].
  eapply (hoare_bind _ P); [apply Hmod, holds_and; apply _|intros _|by intros g [[]]].
  eapply (hoare_bind _ (inv bound k)); [|intros _; apply hoare_holds, _|done].
  destruct applied; cbn [on]; [|apply hoare_ret; by intros g [[]]].
  eapply (hoare_bind _ P); [apply Hmod, holds_and; apply _|intros _|by intros g [[]]].
  change (terminal_event te) with (terminal_event ev). destruct (terminal_event ev) eqn:Ee; cbn [on].
  - apply (hoare_weaken _ _ _ (going id) (inv bound k)); [|by intros g []|done]. apply keeps_push_last; [done|].
    eapply (hoare_bind _ (inv bound k)); [apply inv_finish|intros _; apply hoare_holds, _|done].
  - eapply (hoare_bind _ (going id)); [|intros _; apply hoare_ret; by intros g []|by intros g []].
    apply (hoare_weaken _ _ _ (fun g => inv bound k g /\ live id g /\ durable (gw_db g) id ev) (going id)); [by apply inv_push| |done]. intros g [[Hg Hl] Hd]. split; [done|]. split; [done|by apply Hd].
Qed.

(** *** Reconciliation and recovery *)

#[global] Instance keeps_status_loop (id : string) (n : nat) : keeps (status_loop id n).
Proof. hold. Qed.
#[global] Instance keeps_reconcileViaStatus (id : string) : keeps (reconcileViaStatus id).
Proof. hold. Qed.
#[global] Instance keeps_on_status (id : string) (n : nat) (a : option RunRecord) : keeps (on_status sha256_hex opts world id n a).
Proof. hold. Qed.
#[global] Instance keeps_seed (id : string) : keeps (seedRecoveredLocalCursor world id).
Proof. hold. Qed.
Lemma keeps_failed_event (id : string) (payload : value) (e : option (string * string)) :
  keeps (ev ← synthEvent world id task_failed payload; finishWithTerminal sha256_hex opts world id ev e).
Proof. apply keeps_synthEvent. intros ev Hev. apply keeps_finishWithTerminal. by apply (terminal_type_terminal ts_failed). Qed.
#[global] Instance keeps_recover_failed (id : string) (n : nat) : keeps (recover_failed sha256_hex opts world id n).
Proof. pose proof keeps_failed_event. unfold recover_failed. hold. Qed.
#[global] Instance keeps_reconcileRecovered (id : string) (n : nat) : keeps (reconcileRecovered sha256_hex opts world id n).
Proof.
  assert (forall id s, keeps (ev ← synthEvent world id (terminal_type s) (VObj []); finishWithTerminal sha256_hex opts world id ev None))
    by (intros; apply keeps_synthEvent; intros; apply keeps_finishWithTerminal; by eapply terminal_type_terminal).
  unfold reconcileRecovered. hold.
Qed.
#[global] Instance keeps_on_recover_status (id : string) (n : nat) (a : option RunRecord) : keeps (on_recover_status sha256_hex opts world id n a).
Proof. hold. Qed.
End Keeps.
