(* ===== verification/GatewayDurable.v ===== *)
(** * The durable log the Gateway leaves behind

    A terminal event enters the log of a task in the transaction that ends the task, so
    at every turn a task whose row has not ended has no terminal event: what recovery
    relies on. *)

From S2P Require Import Prelude Machine Values Json Contract Templates Verification Outputs StoreRows Store StoreOps StoreProps StoreInv StoreRun StoreOnce RuntimeEnv TaskContract Workspace GatewayState Gateway GatewayApi GatewayInv GatewayKeeps.

(** ** Whose log an operation extends *)

Definition only_events (id : string) (s s' : DB) : Prop := exists l, db_task_events s' = db_task_events s ++ l /\ Forall (fun r => te_task_id r = id) l.
#[global] Instance only_events_preorder (id : string) : PreOrder (only_events id).
Proof.
  split.
  - intros s. exists []. by rewrite app_nil_r.
  - intros a b c (l1 & E1 & H1) (l2 & E2 & H2). exists (l1 ++ l2). rewrite E2, E1, app_assoc. split; [done|]. by apply Forall_app.
Qed.
Lemma only_modify (id : string) (f : DB -> DB) : (forall s, db_task_events (f s) = db_task_events s) -> Preserves (only_events id) (modify f).
Proof. intros H s. exists []. cbn. by rewrite H, app_nil_r. Qed.
#[global] Hint Extern 5 (Preserves (only_events _) (modify _)) => (apply only_modify; done) : typeclass_instances.
#[global] Instance only_update_task (id j : string) (f : TaskRow -> TaskRow) : Preserves (only_events id) (update_task j f).
Proof. by apply only_modify. Qed.
Lemma only_insert (r : TaskEventRow) : Preserves (only_events (te_task_id r)) (insert_task_event r).
Proof. unfold insert_task_event. repeat (apply preserves_bind; [apply _|apply _|intros ?]). intros s. exists [r]. cbn. split; [done|]. by constructor. Qed.
#[global] Hint Extern 3 (Preserves (only_events _) (insert_task_event _)) => (apply only_insert) : typeclass_instances.
#[global] Instance only_append (now id : string) (i : TaskEventInput) : Preserves (only_events id) (appendTaskEventSync now id i).
Proof. preserve. Qed.
#[global] Instance only_terminalize (now id : string) (rev : Z) (p : TaskPatch) (i : TaskEventInput) (st : string) (res : option AgentTaskResultV1) :
  Preserves (only_events id) (terminalizeTaskWithResultDurable now id rev p i st res).
Proof. preserve. Qed.

(** ** Steps of the store *)

Definition terminal_row (r : TaskEventRow) : bool := te_event_type r ∈b TERMINAL_EVENT_TYPES.
Definition ended (id : string) (s : DB) : Prop := exists r, db_tasks s !! id = Some r /\ task_terminal (t_status r) = true.

(** A terminal event belongs to a task that has ended. *)
Definition clean_db (s : DB) : Prop := forall r, In r (db_task_events s) -> terminal_row r = true -> ended (te_task_id r) s.

Record clean_step (s s' : DB) : Prop := {
  cs_ended : forall id, ended id s -> ended id s';
  cs_events : exists l, db_task_events s' = db_task_events s ++ l /\ Forall (fun r => terminal_row r = true -> ended (te_task_id r) s') l }.
#[global] Instance clean_step_preorder : PreOrder clean_step.
Proof.
  split.
  - intros s. constructor; [done|]. exists []. by rewrite app_nil_r.
  - intros a b c [E1 (l1 & L1 & F1)] [E2 (l2 & L2 & F2)]. constructor; [auto|]. exists (l1 ++ l2). rewrite L2, L1, app_assoc. split; [done|].
    apply Forall_app. split; [|done]. eapply Forall_impl; [exact F1|]. auto.
Qed.

Lemma clean_after (s s' : DB) : clean_step s s' -> clean_db s -> clean_db s'.
Proof.
  intros [He (l & El & Hl)] H r Hr Ht. rewrite El in Hr. apply in_app_or in Hr as [Hr|Hr]; [by apply He, H|].
  rewrite List.Forall_forall in Hl. by apply Hl.
Qed.

Lemma clean_same (s s' : DB) : db_tasks s' = db_tasks s -> db_task_events s' = db_task_events s -> clean_step s s'.
Proof. intros E1 E2. constructor; [unfold ended; by rewrite E1|]. exists []. by rewrite app_nil_r. Qed.
Lemma clean_modify (f : DB -> DB) : (forall s, db_tasks (f s) = db_tasks s /\ db_task_events (f s) = db_task_events s) -> Preserves clean_step (modify f).
Proof. intros H s. destruct (H s). by apply clean_same. Qed.
#[global] Hint Extern 5 (Preserves clean_step (modify _)) => (apply clean_modify; by repeat split) : typeclass_instances.

Lemma clean_rows (s : DB) (m : gmap string TaskRow) :
  (forall id r, db_tasks s !! id = Some r -> task_terminal (t_status r) = true -> exists r', m !! id = Some r' /\ task_terminal (t_status r') = true) ->
  clean_step s (set_db_tasks m s).
Proof. intros H. constructor; [intros id (r & Hr & Ht); by apply (H id r)|]. exists []. by rewrite app_nil_r. Qed.

Lemma clean_alter (id : string) (f : TaskRow -> TaskRow) (s : DB) :
  (forall r, db_tasks s !! id = Some r -> task_terminal (t_status r) = true -> task_terminal (t_status (f r)) = true) -> clean_step s (snd (update_task id f s)).
Proof.
  intros H. apply clean_rows. intros j r Hr Ht. destruct (decide (id = j)) as [->|Hne].
  - exists (f r). rewrite lookup_alter_eq, Hr. auto.
  - exists r. by rewrite lookup_alter_ne.
Qed.
Lemma clean_update (id : string) (f : TaskRow -> TaskRow) : (forall r, t_status (f r) = t_status r) -> Preserves clean_step (update_task id f).
Proof. intros H s. apply clean_alter. intros r _. by rewrite H. Qed.
#[global] Hint Extern 5 (Preserves clean_step (update_task _ _)) => (apply clean_update; intros ?; repeat case_match; done) : typeclass_instances.

#[global] Instance clean_insert_task (r : TaskRow) : Preserves clean_step (insert_task r).
Proof.
  intros s. unfold insert_task. run. apply clean_rows. intros j q Hq Ht. exists q. split; [|done]. rewrite lookup_insert_ne; [done|].
  intros <-. match goal with H : negb (is_some _) = true |- _ => apply not_is_some in H; unfold taskRow in H; congruence end.
Qed.

#[global] Instance clean_updateTaskSync (now id : string) (rev : Z) (p : TaskPatch) : Preserves clean_step (updateTaskSync now id rev p).
Proof.
  intros s. unfold updateTaskSync, theTask. run.
  apply run_read; [destruct (is_undef (tp_metadata p)); apply _|done|]. intros md _.
  apply run_read; [destruct (tp_error_message p); apply _|done|]. intros em _. unfold update_task. run. apply run_last; [apply _|].
  apply (clean_alter id). unfold taskRow in *. intros r Hr Ht. cbn.
  match goal with H : db_tasks s !! id = Some ?a |- _ => assert (a = r) as -> by congruence end.
  destruct (tp_status p) as [st|]; cbn; [|done]. rewrite Ht in *. bsimpl. destruct (st =s t_status r) eqn:E; [|done]. bsimpl. by subst.
Qed.

Lemma clean_append (now id : string) (i : TaskEventInput) (s : DB) :
  (tei_event_type i ∈b TERMINAL_EVENT_TYPES = true -> ended id s) -> clean_step s (snd (appendTaskEventSync now id i s)).
Proof.
  intros H. unfold appendTaskEventSync, theTask. run.
  destruct (tei_sequence i <=? t_last_event_sequence a); [apply run_last; [apply _|reflexivity]|]. run. unfold insert_task_event. run.
  etransitivity; [|by apply clean_update]. constructor; cbn; [done|]. eexists. split; [done|]. constructor; [|constructor]. exact H.
Qed.
#[global] Instance clean_append_open (now id : string) (ev : TaskEvent) : TCEq (terminal_event ev) false ->
  Preserves clean_step (appendTaskEventSync now id (toEventInput ev)).
Proof. intros H%TCEq_eq s. apply clean_append. intros Ht. change (terminal_event ev = true) in Ht. congruence. Qed.

Lemma updateTask_ended (now id : string) (rev : Z) (p : TaskPatch) (s s' : DB) (x : TaskRecord) :
  terminal_patch p = true -> updateTaskSync now id rev p s = (Ok x, s') -> ended id s'.
Proof.
  unfold terminal_patch. intros Hp H. destruct (tp_status p) as [st|] eqn:Est; [|done]. unfold updateTaskSync in H. inv_run H.
  match goal with H : taskRecord _ _ = _ |- _ => apply taskRecord_ok in H as [Hrow ->] end.
  match goal with H : update_task _ _ _ = _ |- _ => apply modify_ok in H as -> end. read_only.
  unfold ended. cbn. rewrite lookup_alter_eq. match goal with H : taskRow id _ = Some _ |- _ => unfold taskRow in H; rewrite H end.
  eexists. split; [done|]. cbn. by rewrite Est.
Qed.

#[global] Instance clean_recordTerminal (now id : string) (rev : Z) (p : TaskPatch) (i : TaskEventInput) : Preserves clean_step (recordTerminal now id rev p i).
Proof.
  intros s. unfold recordTerminal. apply run_check; [done|]. intros Hp. apply run_sub; [apply _|apply _|done|]. intros x s1 H1 Hs1.
  assert (ended id s1) as He by (by eapply updateTask_ended; [|exact H1]).
  pose proof (clean_append now id i s1 (fun _ => He)) as H2. unfold mbind, M_bind.
  destruct (appendTaskEventSync now id i s1) as [[u|e] s2]; cbn in *; [|by etransitivity].
  etransitivity; [exact Hs1|]. etransitivity; [exact H2|]. by apply clean_update.
Qed.

(** An event of the source, as the Gateway stores it. *)
Definition source_input (type ts : string) (payload : value) : IngestSourceEvent :=
  {| is_event_type := type; is_ts := ts; is_payload := payload; is_terminal := type ∈b TERMINAL_EVENT_TYPES;
     is_status := if type ∈b TERMINAL_EVENT_TYPES then Some (terminalStatusFor type) else None; is_error_code := None; is_error_message := None |}.
Lemma terminal_status (type : string) : task_terminal (terminalStatusFor type) = true.
Proof. unfold terminalStatusFor. repeat case_match; done. Qed.

(** Tasks that have ended stay so. *)
Definition still_ended (s s' : DB) : Prop := forall id, ended id s -> ended id s'.
#[global] Instance still_ended_preorder : PreOrder still_ended.
Proof. split; [by intros s id|]. intros a b c H1 H2 id H. auto. Qed.
Lemma still_modify (f : DB -> DB) : (forall s, db_tasks (f s) = db_tasks s) -> Preserves still_ended (modify f).
Proof. intros H s id. unfold ended. cbn. by rewrite H. Qed.
#[global] Hint Extern 5 (Preserves still_ended (modify _)) => (apply still_modify; done) : typeclass_instances.
#[global] Hint Extern 5 (Preserves still_ended (update_task _ _)) => (intros ? ?; apply cs_ended, clean_alter; intros ?; done) : typeclass_instances.

Lemma clean_closing (id : string) (s s' : DB) : still_ended s s' -> only_events id s s' -> ended id s' -> clean_step s s'.
Proof.
  intros H (l & El & Hl) He. constructor; [done|]. exists l. split; [done|]. eapply Forall_impl; [exact Hl|]. by intros r ->.
Qed.

Lemma source_status_ended (now id type ts : string) (payload : value) (s s' : DB) (u : unit) : (type ∈b TERMINAL_EVENT_TYPES) = true ->
  applySourceStatus now id (source_input type ts payload) s = (Ok u, s') -> still_ended s s' /\ only_events id s s' /\ ended id s'.
Proof.
  intros Ht H. unfold applySourceStatus in H. inv_run H. cbn [is_terminal is_status source_input] in *. rewrite Ht in H0.
  assert (exists f, s' = set_db_tasks (alter f id (db_tasks s)) s /\ forall r, t_status (f r) = terminalStatusFor type) as (f & -> & Hf).
  { destruct (_ && _); [apply modify_ok in H0 as ->; by eexists|].
    assert (terminalStatusFor type =s "" = false) as E by (unfold terminalStatusFor; repeat case_match; done).
    rewrite E in H0. apply modify_ok in H0 as ->. by eexists. }
  split; [|split].
  - intros j. apply cs_ended, (clean_alter id f). intros q _ _. rewrite Hf. apply terminal_status.
  - exists []. by rewrite app_nil_r.
  - unfold ended. cbn. rewrite lookup_alter_eq. unfold taskRow in *. match goal with H : db_tasks _ !! id = Some ?x |- _ => rewrite H; exists (f x) end.
    rewrite Hf. split; [done|]. apply terminal_status.
Qed.

#[global] Instance clean_ingest (now id : string) (q : Z) (type ts : string) (payload : value) :
  Preserves clean_step (ingestSourceEventDurable now id q (source_input type ts payload)).
Proof.
  unfold ingestSourceEventDurable. do 4 (apply preserves_bind; [apply _|apply _|intros _]). intros s.
  match goal with |- clean_step s (snd (transaction ?body s)) => unfold transaction; destruct (body s) as [[x|e] s'] eqn:H end; [|reflexivity].
  cbn [snd]. inv_run H. branch E; [read_only; reflexivity|]. read_only.
  match goal with H : appendTaskEventSync now id ?i s = (Ok _, ?s1), H' : update_task id _ ?s1 = (Ok _, ?s2), H'' : applySourceStatus _ _ _ ?s2 = _ |- _ =>
    rename H into Happ, H' into Hup, H'' into Hst; set (input := i) in Happ end.
  destruct (type ∈b TERMINAL_EVENT_TYPES) eqn:Et.
  - destruct (source_status_ended _ _ _ _ _ _ _ _ Et Hst) as (Q1 & Q2 & Q3). apply (clean_closing id); [..|done].
    + etransitivity; [eapply (preserved still_ended); [|exact Happ]; preserve|]. etransitivity; [eapply (preserved still_ended); [|exact Hup]; apply _|done].
    + etransitivity; [eapply (preserved (only_events id)); [|exact Happ]; apply _|]. etransitivity; [eapply (preserved (only_events id)); [|exact Hup]; apply _|done].
  - pose proof (clean_append now id input s) as Hc. rewrite Happ in Hc. cbn [snd] in Hc. cbn [tei_event_type input is_event_type source_input] in Hc.
    etransitivity; [apply Hc; congruence|]. etransitivity; [eapply (preserved clean_step); [|exact Hup]; apply _|].
    unfold applySourceStatus in Hst. inv_run Hst. cbn [is_terminal is_status source_input] in *. rewrite Et in *. cbn [andb] in *.
    match goal with H : mret () _ = _ |- _ => by injection H as _ <- end.
Qed.

#[global] Instance clean_idempotent_create (now : string) (i : CreateTaskInput) (ev : TaskEvent) : TCEq (terminal_event ev) false ->
  Preserves clean_step (createTaskIdempotently now i (toEventInput ev)).
Proof. intros H. preserve. Qed.

(** ** The Gateway *)

Definition good_db (g : Gateway) : Prop := match gw_db g with Some s => task_log s /\ clean_db s | None => True end.

Lemma good_store {A : Type} (m : M A) : Preserves (keeps task_log) m -> Preserves clean_step m -> Holds good_db (store m).
Proof.
  intros H1 H2 g Hg. unfold store, good_db in *. destruct (gw_db g) as [db|] eqn:E; [|cbn; by rewrite E]. specialize (H1 db). specialize (H2 db).
  destruct (m db) as [r db']. cbn in *. destruct Hg as [Hl Hc]. split; [by apply H1|by eapply clean_after].
Qed.
#[global] Hint Extern 3 (Holds good_db (store _)) => (apply good_store; solve [preserve]) : typeclass_instances.
Lemma good_update (f : Gateway -> Gateway) : (forall g, gw_db (f g) = gw_db g) -> Holds good_db (update f : G unit).
Proof. intros H g Hg. unfold good_db. cbn. by rewrite H. Qed.
#[global] Hint Extern 3 (Holds good_db (update _)) => (apply good_update; intros ?; repeat case_match; done) : typeclass_instances.
#[global] Instance good_modify_task (id : string) (f : GatewayTask -> GatewayTask) : Holds good_db (modify_task id f).
Proof. by apply good_update. Qed.

Lemma good_read {A : Type} (m : M A) : Preserves eq m -> Holds good_db (store m).
Proof. intros H. apply good_store; intros s; rewrite <- (H s); [by intros ?|reflexivity]. Qed.
#[global] Instance good_load (id : string) : Holds good_db (store (loadTaskEvents id)).
Proof. apply good_read. unfold loadTaskEvents. preserve. Qed.
#[global] Instance good_list : Holds good_db (store listNonTerminalTasks).
Proof. apply good_read. unfold listNonTerminalTasks. preserve. Qed.

Section Good.
Context (sha256_hex : string -> string) (opts : GatewayOptions) (world : World).
#[local] Abbreviation good := (Holds good_db).

#[global] Instance good_pushEvent (id : string) (ev : TaskEvent) : good (pushEvent opts id ev).
Proof. hold. Qed.
Lemma good_persistThenPush (id : string) (ev : TaskEvent) : terminal_event ev = false -> good (persistThenPush opts world id ev).
Proof. intros H%TCEq_eq. hold. Qed.
#[local] Hint Extern 2 (Holds good_db (persistThenPush _ _ _ _)) => (apply good_persistThenPush; eassumption) : typeclass_instances.
#[global] Instance good_finishTask (id : string) : good (finishTask opts id).
Proof. hold. Qed.
#[global] Instance good_finishWithTerminal (id : string) (ev : TaskEvent) (e : option (string * string)) : good (finishWithTerminal sha256_hex opts world id ev e).
Proof. hold. Qed.
#[global] Instance good_request_result (id : string) (ev : TaskEvent) (n : nat) : good (request_result sha256_hex opts world id ev n).
Proof. hold. Qed.
#[global] Instance good_finishRemote (id : string) (ev : TaskEvent) : good (finishRemoteWithResult sha256_hex opts world id ev).
Proof. hold. Qed.
#[global] Instance good_on_result (id : string) (ev : TaskEvent) (n : nat) (a : option (string * option AgentTaskResultV1)) : good (on_result sha256_hex opts world id ev n a).
Proof. hold. Qed.
#[global] Instance good_fetchAndPersist (id : string) : good (fetchAndPersistRemoteResult opts id).
Proof. hold. Qed.
#[global] Instance good_on_fetch (id : string) (a : option (string * option AgentTaskResultV1)) : good (on_fetch world id a).
Proof. hold. Qed.
#[global] Instance good_reconcile (id : string) (record : RunRecord) : good (reconcileRemoteRecord sha256_hex opts world id record).
Proof. hold. Qed.
#[global] Instance good_ingest (id : string) (e : RunEvent) : good (ingest sha256_hex opts world id e).
Proof. hold. Qed.
#[global] Instance good_drain_loop (id : string) (i : nat) (rest : list RunEvent) : good (drain_loop sha256_hex opts world id i rest).
Proof. revert i. induction rest as [|e rest IH]; intros i; cbn [drain_loop]; hold. Qed.
#[global] Instance good_drain (id : string) : good (drain sha256_hex opts world id).
Proof. hold. Qed.
#[global] Instance good_startPoll (id : string) : good (startPoll sha256_hex opts world id).
Proof. hold. Qed.
#[global] Instance good_startRemotePump (id : string) : good (startRemotePump id).
Proof. hold. Qed.
#[global] Instance good_startReplayPump (id : string) (after : Z) : good (startReplayPump id after).
Proof. hold. Qed.
#[global] Instance good_resumePump (id : string) : good (resumePump id).
Proof. hold. Qed.
#[global] Instance good_mark_incomplete (id reason : string) : good (mark_incomplete id reason).
Proof. hold. Qed.
#[global] Instance good_maybeClear (id : string) : good (maybeClearCatchUp id).
Proof. hold. Qed.
#[global] Instance good_handleReplayMeta (id : string) (meta : value) : good (handleReplayMeta id meta).
Proof. hold. Qed.
#[global] Instance good_ingestSource (id : string) (e : RunEvent) (q : Z) : good (ingestSource opts world id e q).
Proof.
  unfold ingestSource. apply holds_bind; [hold|]. intros t. apply holds_bind; [hold|]. intros p. destruct (_ || _); [apply _|].
  destruct (runEventToTaskEvent e 0) as [te|]; [|hold]. cbv zeta. apply holds_catch; [|hold]. apply holds_bind; [|hold].
  apply good_store; [preserve|]. exact (clean_ingest (wd_now world) id q (ev_type te) (ev_ts te) (ev_payload te)).
Qed.
#[global] Instance good_status_loop (id : string) (n : nat) : good (status_loop id n).
Proof. hold. Qed.
#[global] Instance good_on_status (id : string) (n : nat) (a : option RunRecord) : good (on_status sha256_hex opts world id n a).
Proof. hold. Qed.
#[global] Instance good_recover_failed (id : string) (n : nat) : good (recover_failed sha256_hex opts world id n).
Proof. hold. Qed.
#[global] Instance good_reconcileRecovered (id : string) (n : nat) : good (reconcileRecovered sha256_hex opts world id n).
Proof. hold. Qed.
#[global] Instance good_on_recover_status (id : string) (n : nat) (a : option RunRecord) : good (on_recover_status sha256_hex opts world id n a).
Proof. hold. Qed.
#[global] Instance good_recover_one (rec : TaskRecord) : good (recover_one sha256_hex opts world rec).
Proof. hold. Qed.
#[global] Instance good_recover_all (records : list TaskRecord) : good (recover_all sha256_hex opts world records).
Proof. induction records as [|rec rest IH]; cbn [recover_all]; hold. Qed.
#[global] Instance good_recoverTasks : good (recoverTasks sha256_hex opts world).
Proof. hold. Qed.

#[global] Instance good_persistCreate (req : CreateTaskRequest) (i : CreateTaskInput) (id agent : string) : good (persistCreate world req i (created_event world id agent)).
Proof. assert (TCEq (terminal_event (created_event world id agent)) false) by done. hold. Qed.
#[global] Instance good_admitted (t : GatewayTask) (ev : TaskEvent) : good (admitted opts t ev).
Proof. hold. Qed.
#[global] Instance good_compensate (id : string) : good (compensate world id).
Proof. hold. Qed.
#[global] Instance good_release : good release.
Proof. hold. Qed.
#[global] Instance good_create_error (e : gw_error) : good (create_error e).
Proof. hold. Qed.
#[global] Instance good_updateTask (now id : string) (rev : Z) (p : TaskPatch) : good (store (updateTaskDurable now id rev p)).
Proof. hold. Qed.
#[global] Instance good_terminalize (now id : string) (rev : Z) (p : TaskPatch) (i : TaskEventInput) : good (store (terminalizeTaskDurable now id rev p i)).
Proof. hold. Qed.
#[global] Instance good_initReplay (id : string) : good (store (initReplayCursor id)).
Proof. hold. Qed.
#[global] Instance good_byKey (key : string) : good (store (getTaskByIdempotencyKey key)).
Proof. hold. Qed.
#[global] Instance good_admit (req : CreateTaskRequest) (fp : option string) (isRemote : bool) : good (admit_request opts world req fp isRemote).
Proof. hold. Qed.
#[global] Instance good_handleCreate (ctype : option string) : good (handleCreate ctype).
Proof. hold. Qed.
#[global] Instance good_on_body (text : string) : good (on_body sha256_hex opts world text).
Proof. unfold on_body, failure, node_failure. hold. Qed.
#[global] Instance good_on_nodes (req : CreateTaskRequest) (fp : option string) (a : result string (list RemoteNode)) : good (on_nodes world req fp a).
Proof. hold. Qed.
#[global] Instance good_on_remote_start (t : GatewayTask) (ev : TaskEvent) (replay results : bool) (a : result string RunRecord) :
  good (on_remote_start opts world t ev replay results a).
Proof. hold. Qed.
#[global] Instance good_on_start (req : CreateTaskRequest) (fp : option string) (mode : task_mode) (a : result string RunRecord) :
  good (on_start sha256_hex opts world req fp mode a).
Proof. hold. Qed.
#[global] Instance good_project (id : string) (r : RunRecord) : good (project sha256_hex id r).
Proof. hold. Qed.
#[global] Instance good_final (t : GatewayTask) (b : bool) : good (final_projection sha256_hex t b).
Proof. hold. Qed.
#[global] Instance good_handleGet (id : string) : good (handleGet sha256_hex world id).
Proof. hold. Qed.
#[global] Instance good_handleEvents (sid : nat) (id : string) (cursor : option string) : good (handleEvents sid id cursor).
Proof. hold. Qed.
#[global] Instance good_handleCancel (id : string) : good (handleCancel sha256_hex opts world id).
Proof. hold. Qed.
#[global] Instance good_resume (p : Pending) (a : Answer) : good (resume sha256_hex opts world p a).
Proof. unfold resume. destruct p, a; hold. Qed.
#[global] Instance good_react (i : Input) : good (react sha256_hex opts world i).
Proof. unfold react. destruct i; unfold serve, failure; hold. Qed.
End Good.
