(* ===== verification/GatewayCreate.v ===== *)
(** * Creating tasks keeps the Gateway's invariant

    A creation holds one reservation from its admission to the moment its task is
    registered or its failure is answered, across every await. *)

From S2P Require Import Prelude Machine Values Json Contract Templates Verification Outputs StoreRows Store StoreOps StoreProps StoreInv StoreRun StoreOnce RuntimeEnv TaskContract Workspace GatewayState Gateway GatewayApi GatewayInv GatewayKeeps.

Definition fresh_id (id : string) (g : Gateway) : Prop := gw_heap g !! id = None /\ ~ In id (starting (gw_pending g)).

#[global] Instance fresh_store {A : Type} (id : string) (m : M A) : Holds (fresh_id id) (store m).
Proof. intros g Hg. unfold store. destruct (gw_db g); [|done]. by destruct (m d). Qed.
Lemma starting_snoc (l : list Pending) (p : Pending) : starting (l ++ [p]) = starting l ++ starting [p].
Proof. apply flat_map_app. Qed.
Lemma reserved_snoc (l : list Pending) (p : Pending) : reserved (l ++ [p]) = reserved l + if reserves p then 1 else 0.
Proof. unfold reserved. rewrite List.filter_app, length_app. cbn. destruct (reserves p); cbn; lia. Qed.

Section Reservations.
Context (bound k : Z).

Lemma inv_drop (g : Gateway) : inv bound (k + 1) g -> inv bound k g.
Proof. intros []. constructor; auto. lia. Qed.
Lemma inv_release : hoare (inv bound (k + 1)) release (inv bound k).
Proof. intros g []. constructor; cbn; auto; lia. Qed.
Lemma inv_reserve : hoare (fun g => inv bound k g /\ gw_activeCount g + gw_pendingCreates g < bound) reserve (inv bound (k + 1)).
Proof. intros g [[] ?]. constructor; cbn; auto; lia. Qed.
(** The reservation is handed to what is awaited. *)
Lemma inv_handover (p : Pending) : reserves p = true -> hoare
  (fun g => inv bound (k + 1) g /\ pending_ok (gw_db g) p /\ (forall id, In id (starting [p]) -> fresh_id id g)) (awaits p) (inv bound k).
Proof.
  intros Hr g ([] & Hp & Hf). constructor; cbn; rewrite ?starting_snoc, ?reserved_snoc, ?Hr; auto; try lia.
  - apply Forall_app. split; [done|]. by constructor.
  - apply NoDup_app. split; [done|]. split.
    + intros x Hx Hy. apply list_elem_of_In in Hx, Hy. by apply (proj2 (Hf x Hy)).
    + destruct p; try constructor; [|constructor]. cbn. set_solver.
  - intros id [H|H]%in_app_or; [auto|by apply Hf].
Qed.
End Reservations.

(** Taking an answer back, with the reservation that was handed over. *)
Lemma inv_take (bound k : Z) (n : nat) (p : Pending) (g : Gateway) : gw_pending g !! n = Some p -> inv bound k g ->
  let g' := set_gw_pending (delete n (gw_pending g)) g in
  inv bound (k + if reserves p then 1 else 0) g' /\ pending_ok (gw_db g') p /\ (forall id, In id (starting [p]) -> fresh_id id g').
Proof.
  intros Hn [Ht Hs Ha Hb Hr Hpend Hnd Hfr]. destruct (list_elem_of_split_length _ _ _ Hn) as (l1 & l2 & El & ->). cbn. rewrite El, delete_middle. rewrite El in Hr, Hpend, Hnd, Hfr.
  assert (starting (l1 ++ p :: l2) = starting l1 ++ starting [p] ++ starting l2) as Es.
  { change (p :: l2) with ([p] ++ l2). unfold starting. by rewrite !flat_map_app. }
  rewrite Es in Hnd, Hfr. apply Forall_app in Hpend as [Hp1 [Hp Hp2]%Forall_cons_1].
  apply NoDup_app in Hnd as (N1 & D1 & (N2 & D2 & N3)%NoDup_app).
  split; [|split; [done|]].
  - constructor; cbn; auto.
    + revert Hr. unfold reserved. rewrite !List.filter_app, !length_app. cbn. destruct (reserves p); cbn; lia.
    + by apply Forall_app.
    + unfold starting. rewrite flat_map_app. apply NoDup_app. split; [done|]. split; [|done]. intros x Hx. specialize (D1 x Hx). set_solver.
    + intros id Hid. apply Hfr. unfold starting in Hid. rewrite flat_map_app in Hid. apply in_app_or in Hid as [?|?]; apply in_or_app; [by left|right]. apply in_or_app. by right.
  - intros id Hid. split; [cbn; apply Hfr, in_or_app; right; apply in_or_app; by left|]. cbn. unfold starting. rewrite flat_map_app. intros [H|H]%in_app_or.
    + apply (D1 id); [by apply list_elem_of_In|]. apply elem_of_app. left. by apply list_elem_of_In.
    + apply (D2 id); by apply list_elem_of_In.
Qed.

Section Create.
Context (sha256_hex : string -> string) (opts : GatewayOptions) `{Hmax : !Buffers opts} (world : World) (bound k : Z).
Context (Hbound : go_maxActive opts <= bound).
#[local] Abbreviation keeps := (Holds (inv bound k)).

#[global] Instance keeps_admit (req : CreateTaskRequest) (fp : option string) (isRemote : bool) : keeps (admit_request opts world req fp isRemote).
Proof.
  unfold admit_request. apply hoare_asks. intros n. destruct (go_maxActive opts <=? n) eqn:E; [apply hoare_ret; by intros g []|]. bsimpl.
  eapply (hoare_bind _ (inv bound (k + 1))); [|intros _|by apply inv_drop].
  { eapply hoare_weaken; [apply inv_reserve| |done]. intros g [Hg <-]. split; [done|lia]. }
  assert (forall p, reserves p = true -> (forall db, pending_ok db p) -> starting [p] = [] -> hoare (inv bound (k + 1)) (awaits p;; mret RAwait) (inv bound k)) as Ha.
  { intros p Hr Hp Hs. eapply (hoare_bind _ (inv bound k)); [|intros _; by apply hoare_ret|done].
    eapply hoare_weaken; [by apply inv_handover| |done]. intros g Hg. rewrite Hs. done. }
  destruct isRemote; [by apply Ha|].
  eapply (hoare_bind _ (inv bound (k + 1))); [apply hoare_holds; unfold write_prompt; apply _|intros _; by apply Ha|by apply inv_drop].
Qed.

#[global] Instance keeps_handleCreate (ctype : option string) : keeps (handleCreate ctype).
Proof. unfold handleCreate, failure. hold. Qed.
#[global] Instance keeps_on_body (text : string) : keeps (on_body sha256_hex opts world text).
Proof. unfold on_body, failure, node_failure. hold. Qed.

Lemma persistCreate_run (req : CreateTaskRequest) (i : CreateTaskInput) (ev : TaskEvent) (P : Gateway -> Prop) (g : Gateway) :
  (forall A (m : M A), Preserves tasks_evolve m -> Holds P (store m)) -> P g ->
  match persistCreate world req i ev g with
  | (Ok (rec, made), g') => P g' /\ is_some (gw_db g') = true /\ (made = true -> durable (gw_db g') (ct_task_id i) ev)
  | (Err e, g') => P g' /\ e <> Exited
  end.
Proof.
  intros HP Hg. unfold persistCreate. destruct (truthy_string (cr_idempotency_key req)).
  - pose proof (HP _ (createTaskIdempotently (wd_now world) i (toEventInput ev)) ltac:(preserve) g Hg) as Hs. unfold store in *.
    destruct (gw_db g) as [db|]; [|done]. destruct (createTaskIdempotently _ _ _ db) as [[[rec made]|c] db'] eqn:E; [|done].
    split; [done|]. split; [done|]. intros ->. by eapply create_idempotently_durable.
  - pose proof (HP _ (createTaskDurable (wd_now world) i (toEventInput ev)) ltac:(preserve) g Hg) as Hs. unfold store, mbind, ST_bind in *.
    destruct (gw_db g) as [db|]; [|done]. destruct (createTaskDurable _ _ _ db) as [[rec|c] db'] eqn:E; [|done].
    split; [done|]. split; [done|]. intros _. by eapply create_durable.
Qed.

(** A task as it is when it is registered. *)
Definition newborn (t : GatewayTask) : Prop := gt_events t = [] /\ gt_terminal t = false /\ gt_subscribers t = [] /\ gt_registered t = true.

Lemma inv_registered (t : GatewayTask) (g : Gateway) : newborn t -> fresh_id (gt_taskId t) g -> inv bound (k + 1) g ->
  inv bound k (snd ((register t;; release) g)) /\ live (gt_taskId t) (snd ((register t;; release) g)).
Proof.
  intros (E1 & E2 & E3 & E4) [Hf Hs] [Ht Hst Ha Hb Hr Hp Hnd Hfr].
  change (snd ((register t;; release) g)) with
    (set_gw_pendingCreates (gw_pendingCreates g - 1) (set_gw_activeCount (gw_activeCount g + 1) (set_gw_heap (<[gt_taskId t := t]> (gw_heap g)) g))).
  split; [|exists t; split; [apply lookup_insert_eq|done]].
  constructor; cbn; auto; try lia.
  - intros j t' Hj. destruct (decide (j = gt_taskId t)) as [->|Hne]; [|rewrite lookup_insert_ne in Hj by done; by apply Ht].
    rewrite lookup_insert_eq in Hj. injection Hj as <-. constructor; rewrite ?E1, ?E2, ?E3, ?E4; try done; constructor.
  - rewrite live_insert, E2, delete_id by done. lia.
  - intros j Hj. destruct (decide (j = gt_taskId t)) as [->|]; [done|]. rewrite lookup_insert_ne by done. by apply Hfr.
Qed.

Lemma inv_admitted (t : GatewayTask) (ev : TaskEvent) : newborn t -> terminal_event ev = false ->
  hoare (fun g => inv bound (k + 1) g /\ fresh_id (gt_taskId t) g /\ durable (gw_db g) (gt_taskId t) ev) (admitted opts t ev) (inv bound k).
Proof.
  intros Ht He g (Hg & Hf & Hd). destruct (inv_registered t g Ht Hf Hg) as [H1 H2].
  pose proof (inv_push opts Hmax bound k (gt_taskId t) ev He _ (conj H1 (conj H2 Hd))) as [H3 _]. exact H3.
Qed.

(** The state of a creation: its reservation and its identifier. *)
Definition creating (id : string) (g : Gateway) : Prop := inv bound (k + 1) g /\ fresh_id id g.
Lemma creating_store (id : string) (A : Type) (m : M A) : Preserves tasks_evolve m -> Holds (creating id) (store m).
Proof. intros Hm. apply holds_and; apply _. Qed.

Lemma release_then {A : Type} (id : string) (m : G A) : keeps m -> hoare (creating id) (release;; m) (inv bound k).
Proof.
  intros Hm. eapply (hoare_bind _ (inv bound k)); [|intros _; by apply hoare_holds|done].
  eapply hoare_weaken; [apply inv_release| |done]. by intros g [].
Qed.
#[local] Instance keeps_failure (status : Z) (c : ApiErrorCode) : keeps (failure status c).
Proof. apply _. Qed.
#[local] Instance keeps_create_error (e : gw_error) : keeps (create_error e).
Proof. unfold create_error. hold. Qed.

Lemma inv_persist_remote (req : CreateTaskRequest) (fp : option string) (node : RemoteNode) :
  hoare (creating (wd_new_id world)) (persist_remote world req fp node) (inv bound k).
Proof.
  intros g Hg. unfold persist_remote, catch, mbind at 1, ST_bind at 1.
  match goal with |- context [persistCreate world req ?i ?ev g] =>
    pose proof (persistCreate_run req i ev (creating (wd_new_id world)) g (creating_store _) Hg) as H; destruct (persistCreate world req i ev g) as [[[rec made]|e] g'] end.
  - destruct H as (Hg' & _ & Hd). destruct made; cbn [negb snd fst].
    + assert (forall q, q = PRemoteStart req (set_gt_revision (t_revision (tk_row rec)) (new_task (wd_new_id world) (cr_agent req) remote (cr_node_id req) None))
          (created_event world (wd_new_id world) (cr_agent req)) (advertises (vn_capabilities node) RUN_EVENT_REPLAY_CAPABILITY)
          (advertises (vn_capabilities node) RUN_RESULT_CAPABILITY) -> inv bound k (snd (awaits q g'))) as Ha; [|exact (Ha _ eq_refl)].
      intros q ->. apply inv_handover; [done|]. destruct Hg' as [Hg' Hf]. split; [done|]. split; [|intros id [<-|[]]; exact Hf].
      cbn. repeat split. by apply Hd.
    + exact (release_then (wd_new_id world) (mret (replay_reply rec)) _ g' Hg').
  - destruct H as [Hg' He]. destruct e as [c| |]; [exact (release_then (wd_new_id world) (create_error (StoreError c)) _ g' Hg')
      |exact (release_then (wd_new_id world) (create_error Unreadable) _ g' Hg')|done].
Qed.

Lemma inv_on_nodes (req : CreateTaskRequest) (fp : option string) (a : result string (list RemoteNode)) :
  hoare (creating (wd_new_id world)) (on_nodes world req fp a) (inv bound k).
Proof.
  unfold on_nodes. destruct a as [nodes|message]; [|apply release_then, _]. destruct (preflight req nodes) as [reply|node]; [apply release_then, _|].
  assert (forall g, creating (wd_new_id world) g -> inv bound k g) as Hdrop by (intros g [? _]; by apply inv_drop).
  eapply (hoare_bind _ (creating (wd_new_id world))); [apply hoare_holds; unfold write_prompt; apply _|intros _|done].
  eapply (hoare_bind _ (creating (wd_new_id world))); [apply hoare_holds; unfold persist; apply _|intros p|done].
  destruct p; [apply inv_persist_remote|]. eapply (hoare_bind _ (inv bound k)); [|intros _; by apply hoare_ret|done].
  eapply hoare_weaken; [by apply inv_handover| |done]. intros g [Hg _]. split; [done|]. split; [done|]. intros id [].
Qed.

Lemma inv_on_remote_start (task : GatewayTask) (created : TaskEvent) (replay results : bool) (a : result string RunRecord) :
  newborn task -> terminal_event created = false ->
  hoare (fun g => creating (gt_taskId task) g /\ durable (gw_db g) (gt_taskId task) created) (on_remote_start opts world task created replay results a) (inv bound k).
Proof.
  intros Ht He. unfold on_remote_start. set (id := gt_taskId task). set (P := fun g => creating id g /\ durable (gw_db g) id created).
  assert (forall A (m : M A), Preserves tasks_evolve m -> Holds P (store m)) as HP.
  { intros A m Hm g [Hg Hd]. split; [by apply (creating_store id A m Hm)|]. unfold store. destruct (gw_db g) as [db|] eqn:E; [|cbn; by rewrite E in *].
    destruct (m db) as [r db'] eqn:Em. cbn. by eapply durable_after. }
  assert (forall g, P g -> inv bound k g) as Hdrop by (intros g [[? _] _]; by apply inv_drop).
  destruct a as [rrec|message].
  - eapply (hoare_bind _ P); [|intros rev|done].
    { apply hoare_holds. apply holds_catch; [apply holds_bind; [apply HP; preserve|apply _]|]. intros []; apply _. }
    eapply (hoare_bind _ P); [|intros _|done].
    { apply hoare_holds, holds_on, holds_catch; [apply HP; preserve|]. intros []; apply _. }
    eapply (hoare_bind _ (inv bound k)); [|intros _; apply hoare_holds; apply holds_bind; [destruct replay; hold|apply _]|done].
    eapply hoare_weaken; [by apply inv_admitted| |done]. intros g [[Hg Hf] Hd]. done.
  - apply (hoare_weaken _ _ _ (creating id) (inv bound k)); [|by intros g []|done]. apply release_then. hold.
Qed.

Lemma compensate_run (id : string) (g : Gateway) : compensate world id g = (Ok tt, g) \/ compensate world id g = (Err Exited, g).
Proof. unfold compensate, attempt, catch, stopRun. destruct (wd_stop world id); [by left|by right|by left]. Qed.

Lemma inv_on_start (req : CreateTaskRequest) (fp : option string) (mode : task_mode) (a : result string RunRecord) (id : string) :
  (forall r, a = Ok r -> rec_run_id r = id) -> hoare (creating id) (on_start sha256_hex opts world req fp mode a) (inv bound k).
Proof.
  intros Hid. unfold on_start. destruct a as [record|message]; [|apply release_then; hold]. rewrite (Hid record eq_refl).
  set (t := new_task id (rec_agent record) mode _ _). set (ev := created_event world id (rec_agent record)). set (input := create_input _ _ _ _ _ _ _).
  intros g Hg. unfold persist, asks, mbind at 1, ST_bind at 1. cbv beta iota zeta.
  assert (forall u, newborn u -> gt_taskId u = id -> hoare (fun g' => creating id g' /\ durable (gw_db g') id ev)
    (admitted opts u ev;; match mode with remote => startRemotePump id | local => startPoll sha256_hex opts world id end;;
     mret (RTask 202 (runRecordToTask record) None None false)) (inv bound k)) as Hreg.
  { intros u Hu Hidu. eapply (hoare_bind _ (inv bound k)); [|intros _; apply hoare_holds; destruct mode; hold|done].
    eapply hoare_weaken; [apply (inv_admitted u ev Hu eq_refl)| |done]. intros g' [[Hg' Hf] Hd]. by rewrite Hidu. }
  unfold mbind at 1, ST_bind at 1. destruct (gw_db g) as [db|] eqn:Edb; cbn [is_some negb]; [|cbv iota; apply Hreg; [done..|split; [done|right; by rewrite Edb]]].
  unfold catch, mbind at 1, ST_bind at 1.
  pose proof (persistCreate_run req input ev (creating id) g (creating_store id) Hg) as Hrun.
  destruct (persistCreate world req input ev g) as [[[rec made]|e] g'] eqn:Er.
  - destruct Hrun as (Hg' & _ & Hd). destruct made; cbn [fst snd]; [apply (Hreg (set_gt_revision (t_revision (tk_row rec)) t)); [done..|split; [done|by apply Hd]]|].
    (* the race was lost *)
    assert (inv bound k (snd (release g'))) as Hrel by (apply inv_release, Hg').
    unfold mbind at 1, ST_bind at 1. cbn [release update]. set (g1 := set_gw_pendingCreates _ g') in *.
    unfold mbind at 1, ST_bind at 1. destruct (compensate_run id g1) as [-> | ->]; [|exact Hrel]. unfold mbind at 1, ST_bind at 1.
    unfold persistCreate in Er. destruct (truthy_string (cr_idempotency_key req)) as [key|] eqn:Ek.
    2:{ unfold mbind, ST_bind in Er. destruct (store _ g) as [[?|?] ?]; discriminate. }
    unfold store in Er. rewrite Edb in Er. destruct (createTaskIdempotently _ _ _ db) as [[x|c] db'] eqn:Ec; [|done]. injection Er as Ex Eg. subst x.
    destruct (lost_race _ key input _ _ _ _ Ek Ec) as [winner Hw]. unfold store. assert (gw_db g1 = Some db') as -> by (subst g1; by rewrite <- Eg).
    rewrite Hw. cbn. assert (set_gw_db (Some db') g1 = g1) as -> by (subst g1; by rewrite <- Eg). exact Hrel.
  - destruct Hrun as [Hg' He]. assert (inv bound k (snd (release g'))) as Hrel by (apply inv_release, Hg').
    destruct e as [c| |]; [..|done]; unfold mbind at 1, ST_bind at 1; cbn [release update]; set (g1 := set_gw_pendingCreates _ g') in *;
      unfold mbind at 1, ST_bind at 1; (destruct (compensate_run id g1) as [-> | ->]; [|exact Hrel]);
      unfold create_error; first [exact Hrel|destruct c; exact Hrel].
Qed.
End Create.
