(* ===== verification/GatewayProps.v ===== *)
(** * What the Gateway guarantees

    The handlers and the event loop keep the invariant, so it holds in every state a
    Gateway reaches from its start over any database, whatever requests, run events,
    answers, timers and failures occur, in whatever order. *)

From S2P Require Import Prelude Machine Values Json Contract Templates Verification Outputs StoreRows Store StoreOps StoreProps StoreInv StoreRun StoreOnce RuntimeEnv TaskContract Workspace GatewayState Gateway GatewayApi GatewayInv GatewayKeeps GatewayCreate.

(** ** Streams *)

Lemma no_terminal_filter (p : TaskEvent -> bool) (l : list TaskEvent) : no_terminal l -> no_terminal (List.filter p l).
Proof. unfold no_terminal. rewrite !List.Forall_forall. intros H x [Hx _]%List.filter_In. auto. Qed.
Lemma closed_filter (p : TaskEvent -> bool) (l : list TaskEvent) : ends_terminal l -> no_terminal (List.filter p l) \/ ends_terminal (List.filter p l).
Proof.
  intros (l0 & e & -> & Hl & He). rewrite List.filter_app. cbn. destruct (p e); [|left; rewrite app_nil_r; by apply no_terminal_filter].
  right. exists (List.filter p l0), e. split; [done|]. split; [by apply no_terminal_filter|done].
Qed.

(** A replay is what the cursor keeps of the buffer. *)
Lemma replay_filter (buffer events : list TaskEvent) (cursor : option string) (b : bool) (c : option Z) :
  computeSseReplay buffer cursor = (events, b, c) -> exists p, events = List.filter p buffer.
Proof.
  unfold computeSseReplay. assert (buffer = List.filter (fun _ => true) buffer) as Hall by (induction buffer; cbn; congruence).
  destruct cursor as [raw|]; [destruct (digits_only raw)|]; intros [= <- _ _]; eauto.
Qed.

Lemma loaded_row (id : string) (s s' : DB) (es : list (TaskEventRow * value)) (ev : TaskEvent) :
  loadTaskEvents id s = (Ok es, s') -> In ev (map (toTaskEvent id) es) -> exists r, In r (db_task_events s') /\ row_of id ev r.
Proof.
  intros H Hin. assert (Preserves eq (loadTaskEvents id)) as Hread by (unfold loadTaskEvents; preserve). pose proof (read_ok _ _ _ _ Hread H) as ->. unfold loadTaskEvents in H. inv_run H.
  assert (forall l es s1, map_events l s = (Ok es, s1) -> forall e, In e es -> In (fst e) l /\ decodeJson (Some (te_payload_json (fst e))) SIZE_LIMITS.task_event_payload false = Ok (snd e)) as Hmap.
  { clear. induction l as [|r l IH]; intros es s1 H e He; cbn [map_events] in H; inv_run H; [done|]. destruct He as [<-|He]; [by split; [left|]|].
    edestruct IH as [? ?]; [eassumption|eassumption|]. split; [by right|done]. }
  apply in_map_iff in Hin as (e & <- & He). destruct (Hmap _ _ _ H2 e He) as [Hr Hd]. apply List.filter_In in Hr as [Hr Hid]. unfold is_task_event in Hid. bsimpl.
  exists (fst e). split; [done|]. repeat split; [done|]. right. by exists (snd e).
Qed.

Section Handlers.
Context (sha256_hex : string -> string) (opts : GatewayOptions) `{Hmax : !Buffers opts} (world : World) (bound : Z) (Hbound : go_maxActive opts <= bound).
#[local] Abbreviation keeps := (Holds (inv bound 0)).

Lemma inv_open (sid : nat) (s : Sse) (g : Gateway) : gw_streams g !! sid = None -> stream_ok (gw_db g) s -> inv bound 0 g ->
  inv bound 0 (set_gw_streams (<[sid := s]> (gw_streams g)) g).
Proof.
  intros Hsid Hs [Ht Hst Ha Hb Hr Hp Hnd Hfr]. constructor; cbn; auto.
  - intros id t Hid. destruct (Ht _ _ Hid) as [? ? ? ? Hstr ? ?]. constructor; auto. intros x Hx. destruct (Hstr x Hx) as (s' & Hs' & Hrest).
    exists s'. split; [|done]. rewrite lookup_insert_ne; congruence.
  - intros x s' Hx. destruct (decide (x = sid)) as [->|]; [rewrite lookup_insert_eq in Hx; by injection Hx as <-|rewrite lookup_insert_ne in Hx by done; by apply (Hst x)].
Qed.

Lemma inv_subscribe (sid : nat) (id : string) (t : GatewayTask) (s : Sse) (g : Gateway) :
  gw_heap g !! id = Some t -> gt_terminal t = false -> gw_streams g !! sid = Some s -> ss_task s = id -> ss_live s = true -> no_terminal (ss_sent s) ->
  (forall id' t', gw_heap g !! id' = Some t' -> ~ In sid (gt_subscribers t')) -> inv bound 0 g ->
  inv bound 0 (set_gw_heap (alter (fun t => set_gt_subscribers (sid :: gt_subscribers t) t) id (gw_heap g)) g).
Proof.
  intros Hid Hl Hs Hst Hsl Hno Hnew [Ht Hstr Ha Hb Hr Hp Hnd Hfr]. constructor; cbn; auto.
  - apply heap_alter; [done|]. intros t' Ht' []. assert (t' = t) as -> by congruence. constructor; cbn; auto.
    + constructor; [|done]. intros Hin%list_elem_of_In. by apply (Hnew _ _ Hid).
    + intros x [<-|Hx]; [|auto]. exists s. by repeat split.
    + congruence.
  - rewrite live_alter; done.
  - intros j Hj. apply lookup_alter_None. by apply Hfr.
Qed.

#[global] Instance keeps_on_close (sid : nat) : keeps (on_close sid).
Proof.
  unfold on_close. apply holds_bind; [apply _|]. intros [s|]; [|apply _]. intros g [Ht Hst Ha Hb Hr Hp Hnd Hfr]. constructor; cbn; auto.
  - apply heap_alter; [done|]. intros t _ [? ? ? Hn Hs Hd ?]. constructor; cbn; auto.
    + apply NoDup_ListNoDup, List.NoDup_filter, NoDup_ListNoDup. done.
    + intros x [Hx _]%List.filter_In. auto.
    + intros Htt. by rewrite (Hd Htt).
  - rewrite live_alter; done.
  - intros j Hj. apply lookup_alter_None. by apply Hfr.
Qed.

#[global] Instance keeps_shutdown : keeps shutdown.
Proof.
  intros g [Ht Hst Ha Hb Hr Hp Hnd Hfr].
  assert (forall l, List.filter reserves (List.filter (fun p => negb (is_recovery_timer p)) l) = List.filter reserves l
    /\ starting (List.filter (fun p => negb (is_recovery_timer p)) l) = starting l) as Hf.
  { induction l as [|p l [IH1 IH2]]; [done|]. unfold starting in *. cbn. destruct p; cbn; rewrite ?IH1, ?IH2; done. }
  destruct (Hf (gw_pending g)) as [Hf1 Hf2]. constructor; cbn; rewrite ?Hf2; auto.
  - intros id t. rewrite lookup_fmap. destruct (gw_heap g !! id) as [t0|] eqn:E; [|done]. intros [= <-]. destruct (Ht _ _ E). constructor; cbn; auto; [constructor|done].
  - intros sid s. rewrite lookup_fmap. destruct (gw_streams g !! sid) as [s0|] eqn:E; [|done]. intros [= <-]. by destruct (Hst _ _ E).
  - rewrite Ha. unfold live_tasks. f_equal. rewrite map_filter_fmap. by rewrite map_size_fmap.
  - unfold reserved in *. by rewrite Hf1.
  - apply List.Forall_forall. intros p [Hin _]%List.filter_In. rewrite List.Forall_forall in Hp. auto.
  - intros id Hid. rewrite lookup_fmap, (Hfr id Hid). done.
Qed.

#[global] Instance keeps_end_stream (sid : nat) : keeps (update (fun g => set_gw_streams (alter end_stream sid (gw_streams g)) g) : G unit).
Proof.
  intros g [Ht Hst Ha Hb Hr Hp Hnd Hfr]. constructor; cbn; auto.
  - intros id t Hid. destruct (Ht _ _ Hid) as [? ? ? ? Hstr ? ?]. constructor; auto. intros x Hx. destruct (Hstr x Hx) as (s & Hs & Htk & Hl & Hrest).
    destruct (decide (x = sid)) as [->|]; [|exists s; by rewrite lookup_alter_ne].
    exists (end_stream s). rewrite lookup_alter_eq, Hs. done.
  - intros x s [(-> & s0 & Hs0 & ->)|[_ Hs]]%lookup_alter_Some; [by destruct (Hst _ _ Hs0)|by apply (Hst x)].
Qed.

(** A stream that is not known yet. *)
Lemma keeps_handleEvents (sid : nat) (id : string) (cursor : option string) :
  hoare (fun g => inv bound 0 g /\ gw_streams g !! sid = None) (handleEvents sid id cursor) (inv bound 0).
Proof.
  set (P := fun g => inv bound 0 g /\ gw_streams g !! sid = None).
  assert (forall A (m : M A), Preserves tasks_evolve m -> Holds P (store m)) as HP.
  { intros A m Hm g [Hg Hs]. split; [by apply (inv_store None bound 0 m)|]. unfold store. destruct (gw_db g); [|done]. by destruct (m d). }
  assert (forall g, P g -> inv bound 0 g) as Hdrop by (by intros g []).
  unfold handleEvents. apply hoare_asks. intros [t|].
  - destruct (computeSseReplay (gt_events t) cursor) as [[events b] c] eqn:Er. destruct (replay_filter _ _ _ _ _ Er) as [p Hp].
    set (s := {| ss_task := id; ss_live := true; ss_sent := events; ss_ended := gt_terminal t |}).
    intros g [[Hg Hsid] Hreg]. destruct (gw_heap g !! id) as [t'|] eqn:Et; [|done]. cbn in Hreg. destruct (gt_registered t'); [|done]. injection Hreg as ->.
    destruct (in_tasks _ _ _ _ Hg _ _ Et) as [Hidt Hlog Hdur Hnd Hstr Hdone Hregt]. rewrite orb_false_r in Hlog.
    assert (stream_ok (gw_db g) s) as Hs.
    { constructor; subst s; cbn.
      - intros ev Hev. apply Hdur. rewrite Hp in Hev. by apply List.filter_In in Hev as [? _].
      - intros _. rewrite Hp. destruct (gt_terminal t); [by apply closed_filter|left; by apply no_terminal_filter]. }
    pose proof (inv_open sid s g Hsid Hs Hg) as Hg1. unfold open_stream, mbind at 1, ST_bind at 1, update at 1. cbv beta iota.
    set (g1 := set_gw_streams (<[sid := s]> (gw_streams g)) g) in *.
    destruct (gt_terminal t) eqn:Etm; [done|]. unfold modify_task, mbind at 1, ST_bind at 1, update at 1. cbv beta iota.
    assert (inv bound 0 (set_gw_heap (alter (fun t => set_gt_subscribers (sid :: gt_subscribers t) t) id (gw_heap g1)) g1)) as Hg2.
    { apply (inv_subscribe sid id t s); [done|done|apply lookup_insert_eq|done|done| |  |done].
      - subst s. cbn. rewrite Hp. by apply no_terminal_filter.
      - intros id' t' Ht' Hin. destruct (to_streams _ _ _ _ _ (in_tasks _ _ _ _ Hg id' t' Ht') sid Hin) as (s' & Hs' & _). congruence. }
    set (g2 := set_gw_heap _ g1) in *. apply (fun H => H g2 Hg2 : inv bound 0 (snd (_ g2))).
    apply holds_bind; [|apply _]. destruct (gt_mode t); [apply _|]. apply holds_on, holds_catch; [apply _|]. intros []; apply _.
  - apply (hoare_weaken _ _ _ P (inv bound 0)); [|by intros g []|done]. unfold stored.
    eapply (hoare_bind _ P); [apply hoare_holds; unfold persist; hold; apply HP; preserve| |done]. intros [rec|]; [|by apply hoare_ret].
    apply hoare_store; [apply HP, _| |done]. intros es. destruct (computeSseReplay _ cursor) as [[events b] c] eqn:Er. destruct (replay_filter _ _ _ _ _ Er) as [p Hp].
    intros g [[Hg Hsid] (db & db' & Hload & Hdb)]. apply inv_open; [done| |done]. constructor; cbn; [|done].
    intros ev Hev. rewrite Hp in Hev. apply List.filter_In in Hev as [Hev _]. rewrite Hdb. right. by eapply loaded_row.
Qed.

#[global] Instance keeps_project (id : string) (r : RunRecord) : keeps (project sha256_hex id r).
Proof. hold. Qed.
#[global] Instance keeps_final (t : GatewayTask) (b : bool) : keeps (final_projection sha256_hex t b).
Proof. hold. Qed.
#[global] Instance keeps_handleGet (id : string) : keeps (handleGet sha256_hex world id).
Proof. hold. Qed.
#[global] Instance keeps_on_get (id : string) (a : result string RunRecord) : keeps (on_get sha256_hex opts world id a).
Proof. hold. Qed.
#[global] Instance keeps_handleCancel (id : string) : keeps (handleCancel sha256_hex opts world id).
Proof. hold. Qed.
#[global] Instance keeps_on_cancel_status (id : string) (a : result string RunRecord) : keeps (on_cancel_status id a).
Proof. hold. Qed.
#[global] Instance keeps_on_cancel_stop (id : string) (a : result string RunRecord) : keeps (on_cancel_stop sha256_hex opts world id a).
Proof. hold. Qed.
#[global] Instance keeps_on_cancel_retry (id message : string) (a : result string RunRecord) : keeps (on_cancel_retry id message a).
Proof. hold. Qed.
End Handlers.
