(* ===== verification/GatewayRecovery.v ===== *)
(** * Recovery establishes the Gateway's invariant

    [recoverTasks] over a database in which a task that has not ended has no terminal
    event in its log. *)

From S2P Require Import Prelude Machine Values Json Contract Templates Verification Outputs StoreRows Store StoreOps StoreProps StoreInv StoreRun StoreOnce RuntimeEnv TaskContract Workspace GatewayState Gateway GatewayApi GatewayInv GatewayKeeps GatewayDurable GatewayCreate GatewayProps.

(** ** Tasks still to be recovered *)

Definition clean_log (id : string) (s : DB) : Prop := forall r, In r (db_task_events s) -> te_task_id r = id -> (te_event_type r ∈b TERMINAL_EVENT_TYPES) = false.

Definition awaiting (ids : list string) (g : Gateway) : Prop :=
  forall id, In id ids -> fresh_id id g /\ match gw_db g with Some s => clean_log id s | None => True end.

Section Awaiting.
Context (ids : list string).

Lemma awaiting_store {A : Type} (id : string) (m : M A) : ~ In id ids -> Preserves (only_events id) m -> Holds (awaiting ids) (store m).
Proof.
  intros Hid Hm g Hg. unfold store. destruct (gw_db g) as [db|] eqn:E; [|done]. specialize (Hm db). destruct (m db) as [r db']; cbn in *.
  intros j Hj. destruct (Hg j Hj) as [Hh Hc]. rewrite E in Hc. split; [done|]. cbn. destruct Hm as (l & El & Hl). intros x Hx Hxj. rewrite El in Hx.
  apply in_app_or in Hx as [Hx|Hx]; [by apply Hc|]. rewrite List.Forall_forall in Hl. rewrite (Hl x Hx) in Hxj. congruence.
Qed.
#[global] Instance awaiting_modify (id : string) (f : GatewayTask -> GatewayTask) : Holds (awaiting ids) (modify_task id f).
Proof. intros g Hg j Hj. destruct (Hg j Hj) as [[? ?] ?]. split; [split; [by apply lookup_alter_None|done]|done]. Qed.
Lemma awaiting_same (f : Gateway -> Gateway) : (forall g, gw_heap (f g) = gw_heap g /\ gw_db (f g) = gw_db g /\ starting (gw_pending (f g)) = starting (gw_pending g)) -> Holds (awaiting ids) (update f : G unit).
Proof. intros H g Hg j Hj. unfold fresh_id. cbn. destruct (H g) as (-> & -> & ->). by apply Hg. Qed.
#[global] Instance awaiting_evict (opts : GatewayOptions) : Holds (awaiting ids) (evictIfNeeded opts).
Proof.
  intros g Hg j Hj. destruct (Hg j Hj) as [[Hh Hs] Hc]. unfold evictIfNeeded, update. cbn.
  assert (forall order heap, heap !! j = None -> fst (evict opts heap order) !! j = None) as He.
  { induction order as [|v order IH]; intros heap H; cbn [evict]; [done|]. destruct (_ <? _); [|done]. apply IH. by apply lookup_alter_None. }
  specialize (He (gw_completedOrder g) _ Hh). by destruct (evict _ _ _).
Qed.
End Awaiting.
#[global] Hint Extern 4 (Holds (awaiting _) (update _)) => (apply awaiting_same; done) : typeclass_instances.
#[global] Hint Extern 4 (Holds (awaiting _) (awaits _)) => (apply awaiting_same; intros ?; cbn; rewrite starting_snoc, app_nil_r; done) : typeclass_instances.

Section Recovery.
Context (sha256_hex : string -> string) (opts : GatewayOptions) `{Hmax : !Buffers opts} (world : World).

(** The invariant under some bound: recovery does not ask for room. *)
Definition sound (g : Gateway) : Prop := exists b, inv b 0 g.
Lemma sound_holds {A : Type} (m : G A) : (forall b, Holds (inv b 0) m) -> Holds sound m.
Proof. intros H g [b Hg]. exists b. by apply (H b). Qed.

Lemma awaiting_finish (ids : list string) (id : string) (ev : TaskEvent) (e : option (string * string)) :
  ~ In id ids -> Holds (awaiting ids) (finishWithTerminal sha256_hex opts world id ev e).
Proof.
  intros Hid. assert (forall A (m : M A), Preserves (only_events id) m -> Holds (awaiting ids) (store m)) by (intros; by eapply awaiting_store).
  unfold finishWithTerminal, resolveTerminalResult, readRun, pushEvent, finishTask. hold.
Qed.

Lemma inv_recovered (b : Z) (t : GatewayTask) (g : Gateway) :
  gt_terminal t = false -> gt_subscribers t = [] -> gt_registered t = true -> no_terminal (gt_events t) ->
  (forall ev, In ev (gt_events t) -> durable (gw_db g) (gt_taskId t) ev) -> fresh_id (gt_taskId t) g -> inv b 0 g -> inv (b + 1) 0 (snd (register t g)).
Proof.
  intros E2 E3 E4 Hno Hd [Hf Hs] [Ht Hst Ha Hb Hr Hp Hnd Hfr].
  change (snd (register t g)) with (set_gw_activeCount (gw_activeCount g + 1) (set_gw_heap (<[gt_taskId t := t]> (gw_heap g)) g)).
  constructor; cbn; auto; try lia.
  - intros j t' Hj. destruct (decide (j = gt_taskId t)) as [->|Hne]; [|rewrite lookup_insert_ne in Hj by done; by apply Ht].
    rewrite lookup_insert_eq in Hj. injection Hj as <-. constructor; rewrite ?E2, ?E3, ?E4; try done; constructor.
  - rewrite live_insert, E2, delete_id by done. lia.
  - intros j Hj. destruct (decide (j = gt_taskId t)) as [->|]; [done|]. rewrite lookup_insert_ne by done. by apply Hfr.
Qed.

Lemma skipn_no_terminal (n : nat) (l : list TaskEvent) : no_terminal l -> no_terminal (skipn n l).
Proof. intros H. by apply Forall_drop. Qed.

(** The events of a task as they are loaded. *)
Lemma load_run (id : string) (g : Gateway) : match gw_db g with Some s => clean_log id s | None => True end ->
  exists events, attempt (es ← store (loadTaskEvents id); mret (map (toTaskEvent id) es)) (mret []) g = (Ok events, g)
    /\ no_terminal events /\ forall ev, In ev events -> durable (gw_db g) id ev.
Proof.
  intros Hc. assert (no_terminal [] /\ forall ev, In ev [] -> durable (gw_db g) id ev) as Hnil by (split; [constructor|by intros ev []]).
  unfold attempt, catch, store, mbind, ST_bind. destruct (gw_db g) as [db|] eqn:Edb; [|by exists []].
  assert (Preserves eq (loadTaskEvents id)) as Hread by (unfold loadTaskEvents; preserve). specialize (Hread db).
  assert (set_gw_db (Some db) g = g) as Hsame by (rewrite <- Edb; by destruct g).
  destruct (loadTaskEvents id db) as [[es|c] db'] eqn:El; cbn in Hread; subst db'; cbn; rewrite Hsame; [|by exists []].
  exists (map (toTaskEvent id) es). split; [done|]. split; [|intros ev Hev; right; by eapply loaded_row].
  apply List.Forall_forall. intros ev Hev. destruct (loaded_row _ _ _ _ _ El Hev) as (r & Hr & Hid & _ & Hty & _).
  unfold terminal_event. rewrite <- Hty. by apply Hc.
Qed.

Lemma bind_run {A B : Type} (m : G A) (k : A -> G B) (g g' : Gateway) (a : A) : m g = (Ok a, g') -> (m ≫= k) g = k a g'.
Proof. intros H. unfold mbind, ST_bind. by rewrite H. Qed.

Lemma recover_one_ok (ids : list string) (rec : TaskRecord) : ~ In (t_task_id (tk_row rec)) ids ->
  hoare (fun g => sound g /\ awaiting (t_task_id (tk_row rec) :: ids) g) (recover_one sha256_hex opts world rec) (fun g => sound g /\ awaiting ids g).
Proof.
  intros Hid g [[b Hg] Haw]. unfold recover_one. set (id := t_task_id (tk_row rec)) in *. destruct (Haw id (or_introl eq_refl)) as [Hf Hc].
  destruct (load_run id g Hc) as (events & Hload & Hno & Hdur). rewrite (bind_run _ _ _ _ _ Hload). cbv zeta.
  set (t := recovered_task opts rec events).
  assert (no_terminal (gt_events t) /\ forall ev, In ev (gt_events t) -> durable (gw_db g) id ev) as [Hno' Hdur'].
  { subst t. cbn. destruct (_ <? _); [|done]. split; [by apply skipn_no_terminal|]. intros ev Hev. apply Hdur.
    rewrite <- (firstn_skipn (List.length events - Z.to_nat (go_maxEvents opts)) events). apply in_or_app. by right. }
  pose proof (inv_recovered b t g eq_refl eq_refl eq_refl Hno' Hdur' Hf Hg) as Hg1. set (g1 := snd (register t g)) in Hg1.
  rewrite (bind_run (register t) _ g g1 tt eq_refl).
  assert (awaiting ids g1) as Haw1.
  { intros j Hj. destruct (Haw j (or_intror Hj)) as [[Hh Hs] Hcj]. split; [split; [|done]|done]. subst g1. cbn. rewrite lookup_insert_ne; [done|]. intros <-. by apply Hid. }
  assert (forall m : G unit, (forall b, Holds (inv b 0) m) -> Holds (awaiting ids) m -> sound (snd (m g1)) /\ awaiting ids (snd (m g1))) as Hfin.
  { intros m H1 H2. split; [|by apply H2]. exists (b + 1). by apply (H1 (b + 1)). }
  destruct (gt_mode t); [apply Hfin; intros; apply _|]. destruct (is_some _); apply Hfin; intros; try apply _.
  - by apply keeps_failed_event.
  - apply holds_bind; [unfold synthEvent; hold|]. intros ev. by apply awaiting_finish.
Qed.

Lemma recover_all_ok (records : list TaskRecord) : NoDup (map (fun r => t_task_id (tk_row r)) records) ->
  hoare (fun g => sound g /\ awaiting (map (fun r => t_task_id (tk_row r)) records) g) (recover_all sha256_hex opts world records) sound.
Proof.
  induction records as [|rec rest IH]; intros Hnd; cbn [recover_all map]; [apply hoare_ret; by intros g []|].
  apply NoDup_cons in Hnd as [Hn Hnd]. eapply hoare_bind; [apply recover_one_ok; intros Hin; apply Hn; by apply list_elem_of_In|intros _; by apply IH|by intros g []].
Qed.

(** The tasks recovery reads. *)
Lemma map_records_rows (l : list TaskRow) (s s' : DB) (recs : list TaskRecord) : map_records l s = (Ok recs, s') -> map tk_row recs = l.
Proof.
  revert recs s'. induction l as [|r l IH]; intros recs s' H; cbn [map_records] in H; inv_run H; [done|]. cbn.
  match goal with H : toTask _ _ = _ |- _ => pose proof (toTask_row _ _ _ _ H) as [Hr ->] end. f_equal; [done|]. by eapply IH.
Qed.

Lemma keyed_rows (l : list (string * TaskRow)) (p : TaskRow -> bool) : Forall (fun kv => t_task_id kv.2 = kv.1) l -> NoDup (map fst l) ->
  NoDup (map t_task_id (List.filter p (map snd l))) /\ forall id, In id (map t_task_id (List.filter p (map snd l))) -> exists r, In (id, r) l /\ p r = true.
Proof.
  induction 1 as [|[k r] l Hk Hl IH]; cbn; intros Hnd; [split; [constructor|done]|]. cbn in Hk. apply NoDup_cons in Hnd as [Hn Hnd]. destruct (IH Hnd) as [H1 H2].
  destruct (p r) eqn:Ep; cbn; [|split; [done|intros id Hid; destruct (H2 id Hid) as (q & ? & ?); exists q; auto]]. split.
  - constructor; [|done]. intros Hin%list_elem_of_In. destruct (H2 _ Hin) as (q & Hq & _). apply Hn, list_elem_of_In. rewrite <- Hk. exact (in_map fst _ _ Hq).
  - intros id [<-|Hid]; [exists r; rewrite Hk; auto|]. destruct (H2 id Hid) as (q & ? & ?). exists q. auto.
Qed.

Lemma listed_rows (s s' : DB) (recs : list TaskRecord) : task_log s -> listNonTerminalTasks s = (Ok recs, s') ->
  NoDup (map (fun r => t_task_id (tk_row r)) recs) /\
  forall id, In id (map (fun r => t_task_id (tk_row r)) recs) -> exists r, db_tasks s !! id = Some r /\ task_terminal (t_status r) = false.
Proof.
  intros Hlog H. unfold listNonTerminalTasks in H. inv_run H.
  match goal with H : map_records _ _ = _ |- _ => apply map_records_rows in H as Hrows end.
  rewrite <- (List.map_map tk_row t_task_id), Hrows. unfold by_created. set (rows := List.filter _ _).
  assert (Permutation (merge_sort (fun a b => js_leb (t_created_at a) (t_created_at b)) rows) rows) as Hperm by apply merge_sort_Permutation.
  destruct (keyed_rows (map_to_list (db_tasks s)) (fun r => negb (task_terminal (t_status r)))) as [Q1 Q2].
  { apply Forall_forall. intros [k r] Hkr%elem_of_map_to_list. by destruct (lo_row _ _ _ _ _ _ Hlog k r Hkr) as [Hid _]. }
  { apply NoDup_fst_map_to_list. }
  fold rows in Q1, Q2. pose proof (Permutation_map t_task_id Hperm) as Hp. split; [by rewrite Hp|].
  intros id Hid. apply (Permutation_in id Hp) in Hid. destruct (Q2 id Hid) as (r & Hr & Ht). exists r. split; [by apply elem_of_map_to_list, list_elem_of_In|by bsimpl].
Qed.

Lemma listed_all (s s' : DB) (recs : list TaskRecord) (id : string) (r : TaskRow) : listNonTerminalTasks s = (Ok recs, s') ->
  db_tasks s !! id = Some r -> task_terminal (t_status r) = false -> exists rec, In rec recs /\ tk_row rec = r.
Proof.
  intros H Hr Ht. unfold listNonTerminalTasks in H. inv_run H.
  match goal with H : map_records _ _ = _ |- _ => apply map_records_rows in H as Hrows end.
  assert (In r (map tk_row recs)) as Hin; [|apply in_map_iff in Hin as (rec & <- & Hin); by exists rec].
  rewrite Hrows. eapply Permutation_in; [symmetry; apply merge_sort_Permutation|]. apply List.filter_In. rewrite Ht. split; [|done].
  apply in_map_iff. exists (id, r). split; [done|]. by apply list_elem_of_In, elem_of_map_to_list.
Qed.

Lemma listed_clean (s : DB) (id : string) (r : TaskRow) : clean_db s -> db_tasks s !! id = Some r -> task_terminal (t_status r) = false -> clean_log id s.
Proof.
  intros Hc Hr Ht e He Hid. destruct (te_event_type e ∈b TERMINAL_EVENT_TYPES) eqn:E; [|done]. destruct (Hc e He E) as (q & Hq & Hqt).
  rewrite Hid, Hr in Hq. congruence.
Qed.

(** Recovery over a database the Gateway left. *)
Lemma recoverTasks_ok (db : option DB) : good_db (empty_gateway db) -> sound (snd (recoverTasks sha256_hex opts world (empty_gateway db))).
Proof.
  intros Hgood. set (g := empty_gateway db).
  assert (sound g) as Hg by (exists 0; constructor; cbn; try done; constructor).
  unfold recoverTasks, persist. rewrite (bind_run (asks _) _ g g (is_some db) eq_refl). destruct (negb (is_some db) || _); [done|].
  assert (exists recs, attempt (store listNonTerminalTasks) (mret []) g = (Ok recs, g)
    /\ NoDup (map (fun r => t_task_id (tk_row r)) recs) /\ awaiting (map (fun r => t_task_id (tk_row r)) recs) g) as (recs & Hrun & Hnd & Haw).
  { unfold attempt, catch, store. destruct db as [s|]; [|by exists []; split; [|split; [apply NoDup_nil_2|intros id []]]].
    destruct Hgood as [Hlog Hc]. assert (Preserves eq listNonTerminalTasks) as Hread by (unfold listNonTerminalTasks; preserve). specialize (Hread s). cbn [gw_db g empty_gateway].
    destruct (listNonTerminalTasks s) as [[recs|c] s'] eqn:El; cbn in Hread; subst s'; cbn; [|by exists []; split; [|split; [apply NoDup_nil_2|intros id []]]].
    exists recs. split; [done|]. destruct (listed_rows s s recs Hlog El) as [H1 H2]. split; [done|].
    intros id Hid. destruct (H2 id Hid) as (r & Hr & Ht). split; [split; [done|by intros []]|]. by eapply listed_clean. }
  rewrite (bind_run _ _ _ _ _ Hrun). by apply recover_all_ok.
Qed.
End Recovery.

(** ** What recovery does with each task *)

(** A task other operations do not touch; eviction only drops tasks that have ended. *)
Definition holds_task (id : string) (P : GatewayTask -> Prop) (g : Gateway) : Prop := exists t, gw_heap g !! id = Some t /\ P t.
Definition waits (p : Pending) (g : Gateway) : Prop := In p (gw_pending g).

Section Others.
Context (sha256_hex : string -> string) (opts : GatewayOptions) (world : World).
Context (id : string) (P : GatewayTask -> Prop) (Hdrop : forall t, P t -> P (drop_ended t)).

#[local] Instance task_store {A : Type} (m : M A) : Holds (holds_task id P) (store m).
Proof. intros g Hg. unfold store. destruct (gw_db g); [|done]. by destruct (m d). Qed.
Lemma task_other (j : string) (f : GatewayTask -> GatewayTask) : j <> id -> Holds (holds_task id P) (modify_task j f).
Proof. intros Hj g (t & Ht & HP). exists t. cbn. by rewrite lookup_alter_ne. Qed.
Lemma task_update (f : Gateway -> Gateway) : (forall g, gw_heap (f g) = gw_heap g) -> Holds (holds_task id P) (update f : G unit).
Proof. intros H g (t & Ht & HP). exists t. cbn. by rewrite H. Qed.
Lemma evict_task (order : list string) (heap : gmap string GatewayTask) (t : GatewayTask) :
  heap !! id = Some t -> P t -> exists t', fst (evict opts heap order) !! id = Some t' /\ P t'.
Proof.
  revert heap t. induction order as [|v order IH]; intros heap t Ht HP; cbn [evict]; [by exists t|]. destruct (_ <? _); [|by exists t].
  change (fun t => if gt_registered t && gt_terminal t then set_gt_registered false t else t) with drop_ended.
  destruct (decide (v = id)) as [->|Hne]; [eapply (IH _ (drop_ended t)); [by rewrite lookup_alter_eq, Ht|auto]|eapply (IH _ t); [by rewrite lookup_alter_ne|done]].
Qed.
#[local] Instance task_evict : Holds (holds_task id P) (evictIfNeeded opts).
Proof.
  intros g (t & Ht & HP). destruct (evict_task (gw_completedOrder g) _ t Ht HP) as (t' & Ht' & HP'). exists t'. unfold evictIfNeeded, update. cbn.
  by destruct (evict _ _ _).
Qed.
#[local] Hint Extern 3 (Holds (holds_task _ _) (update _)) => (apply task_update; done) : typeclass_instances.
#[local] Hint Extern 3 (Holds (holds_task _ _) (awaits _)) => (apply task_update; done) : typeclass_instances.
#[local] Hint Extern 3 (Holds (holds_task _ _) (modify_task _ _)) => (apply task_other; done) : typeclass_instances.

Lemma task_finish_other (j : string) (ev : TaskEvent) (e : option (string * string)) : j <> id ->
  Holds (holds_task id P) (finishWithTerminal sha256_hex opts world j ev e).
Proof. intros Hj. unfold finishWithTerminal, resolveTerminalResult, readRun, pushEvent, finishTask. hold. Qed.

Lemma task_recover_other (rec : TaskRecord) : t_task_id (tk_row rec) <> id -> Holds (holds_task id P) (recover_one sha256_hex opts world rec).
Proof.
  intros Hj. unfold recover_one, register, synthEvent. apply holds_bind; [hold|]. intros events. cbv zeta. apply holds_bind; [|intros _].
  - intros g (t & Ht & HP). exists t. cbn. by rewrite lookup_insert_ne.
  - pose proof task_finish_other. hold; by apply task_finish_other.
Qed.
Lemma task_recover_others (recs : list TaskRecord) : ~ In id (map (fun r => t_task_id (tk_row r)) recs) ->
  Holds (holds_task id P) (recover_all sha256_hex opts world recs).
Proof.
  induction recs as [|rec recs IH]; cbn [recover_all map]; intros Hn; [apply _|]. apply holds_bind; [apply task_recover_other; intros E; apply Hn; by left|].
  intros _. apply IH. intros Hin. apply Hn. by right.
Qed.
End Others.

Section Each.
Context (sha256_hex : string -> string) (opts : GatewayOptions) (world : World).
#[local] Abbreviation over := (fun t => gt_terminal t = true).

Lemma over_drop (t : GatewayTask) : over t -> over (drop_ended t).
Proof. unfold drop_ended. by destruct (_ && _). Qed.

(** An attempt at durable calls returns. *)
Lemma attempt_returns {A : Type} (m h : G A) (g : Gateway) :
  (forall g', m g <> (Err Exited, g')) -> (forall g', exists a g'', h g' = (Ok a, g'')) -> exists a g', attempt m h g = (Ok a, g').
Proof.
  intros Hm Hh. unfold attempt, catch. destruct (m g) as [[a|[c| |]] g'] eqn:E; [by exists a, g'|apply Hh|apply Hh|by destruct (Hm g')].
Qed.

Lemma finishTask_over (id : string) (g : Gateway) (t : GatewayTask) : gw_heap g !! id = Some t ->
  exists g', finishTask opts id g = (Ok tt, g') /\ holds_task id over g'.
Proof.
  intros Ht. unfold finishTask, the_task, mbind, ST_bind, asks. cbn. rewrite Ht. cbn. destruct (gt_terminal t) eqn:E; [exists g; split; [done|by exists t]|].
  eexists. split; [done|]. apply (task_evict opts id over over_drop). cbn. unfold holds_task. cbn. rewrite lookup_alter_eq, Ht. by eexists.
Qed.

(** A remote task is ended without reading a local run. *)
Lemma finishWithTerminal_over (id : string) (ev : TaskEvent) (e : option (string * string)) (g : Gateway) :
  holds_task id (fun t => gt_mode t = remote /\ gt_terminal t = false) g ->
  exists g', finishWithTerminal sha256_hex opts world id ev e g = (Ok tt, g') /\ holds_task id over g'.
Proof.
  intros (t & Ht & Hm & Hlive).
  assert (forall g1, gw_heap g1 = gw_heap g -> resolveTerminalResult sha256_hex world id ev g1 = (Ok (default missing_result (gt_pendingResult t)), g1)) as Hres.
  { intros g1 E. unfold resolveTerminalResult, the_task, mbind, ST_bind, asks. cbn. rewrite E, Ht. cbn. rewrite Hm. by destruct (gt_pendingResult t). }
  assert (exists g1, on (is_some (gw_db g)) (res ← resolveTerminalResult sha256_hex world id ev;
      attempt (rec ← store (terminalizeTaskWithResultDurable (wd_now world) id (gt_revision t) (terminal_task_patch (ev_type ev) e) (toEventInput ev) (fst res) (snd res));
               modify_task id (set_gt_revision (t_revision (tk_row rec)))) (mret tt)) g = (Ok tt, g1) /\ exists t1, gw_heap g1 !! id = Some t1) as (g1 & Hg1 & t1 & Ht1).
  { destruct (is_some (gw_db g)); [|exists g; split; [done|by exists t]]. cbn [on].
    rewrite (bind_run _ _ _ _ _ (Hres g eq_refl)). unfold attempt, catch, store, mbind, ST_bind. destruct (gw_db g) as [db|]; [|exists g; split; [done|by exists t]].
    destruct (terminalizeTaskWithResultDurable _ _ _ _ _ _ _ db) as [[x|c] db']; cbn; eexists; (split; [done|]); cbn; [rewrite lookup_alter_eq, Ht|]; by eexists. }
  assert (the_task id g = (Ok t, g)) as Hthe by (unfold the_task, mbind, ST_bind, asks; cbn; by rewrite Ht).
  unfold finishWithTerminal, now. rewrite (bind_run _ _ _ _ _ Hthe), Hlive, (bind_run persist _ g g _ eq_refl), (bind_run _ _ _ _ _ Hg1).
  rewrite (bind_run _ _ _ _ _ (pushEvent_run opts id ev t1 g1 Ht1)). eapply finishTask_over. unfold pushed. cbn. by rewrite lookup_insert_eq.
Qed.

End Each.

(** Reading the log of another task. *)
Definition same_history (id : string) (s s' : DB) : Prop := db_closed s' = db_closed s /\ task_events_of id s' = task_events_of id s.
#[global] Instance same_history_preorder (id : string) : PreOrder (same_history id).
Proof. split; [by intros s|]. intros a b c [H1 H2] [H3 H4]. split; congruence. Qed.
Lemma history_modify (id : string) (f : DB -> DB) : (forall s, db_closed (f s) = db_closed s /\ db_task_events (f s) = db_task_events s) -> Preserves (same_history id) (modify f).
Proof. intros H s. destruct (H s) as [H1 H2]. split; [done|]. cbn. unfold task_events_of. by rewrite H2. Qed.
#[global] Hint Extern 5 (Preserves (same_history _) (modify _)) => (apply history_modify; by split) : typeclass_instances.
#[global] Instance history_update_task (id j : string) (f : TaskRow -> TaskRow) : Preserves (same_history id) (update_task j f).
Proof. by apply history_modify. Qed.
Lemma history_insert (id : string) (r : TaskEventRow) : te_task_id r <> id -> Preserves (same_history id) (insert_task_event r).
Proof.
  intros Hr. unfold insert_task_event. repeat (apply preserves_bind; [apply _|apply _|intros ?]). intros s. split; [done|]. unfold task_events_of. cbn.
  rewrite List.filter_app. cbn. unfold is_task_event. rewrite (proj2 (String.eqb_neq _ _) Hr). by rewrite app_nil_r.
Qed.
#[global] Hint Extern 3 (Preserves (same_history _) (insert_task_event _)) => (apply history_insert; assumption) : typeclass_instances.
Lemma history_terminalize (id j now : string) (rev : Z) (p : TaskPatch) (i : TaskEventInput) (st : string) (res : option AgentTaskResultV1) :
  j <> id -> Preserves (same_history id) (terminalizeTaskWithResultDurable now j rev p i st res).
Proof. intros Hj. preserve. Qed.

Definition with_history (id : string) (s : DB) (g : Gateway) : Prop := exists s', gw_db g = Some s' /\ same_history id s s'.
Lemma history_store {A : Type} (id : string) (s : DB) (m : M A) : Preserves (same_history id) m -> Holds (with_history id s) (store m).
Proof.
  intros Hm g (s' & Hs' & Hh). unfold store, with_history. rewrite Hs'. specialize (Hm s'). destruct (m s') as [r s'']. cbn in *. exists s''. split; [done|]. by etransitivity.
Qed.
Lemma history_same (id : string) (s : DB) (f : Gateway -> Gateway) : (forall g, gw_db (f g) = gw_db g) -> Holds (with_history id s) (update f : G unit).
Proof. intros H g Hg. unfold with_history. cbn. by rewrite H. Qed.

Section Outcome.
Context (sha256_hex : string -> string) (opts : GatewayOptions) (world : World).

#[local] Hint Extern 3 (Holds (with_history _ _) (update _)) => (apply history_same; intros ?; repeat case_match; done) : typeclass_instances.
#[local] Hint Extern 3 (Holds (with_history _ _) (store (terminalizeTaskWithResultDurable _ _ _ _ _ _ _))) => (by apply history_store, history_terminalize) : typeclass_instances.
Lemma history_recover_one (id : string) (s : DB) (rec : TaskRecord) : t_task_id (tk_row rec) <> id -> Holds (with_history id s) (recover_one sha256_hex opts world rec).
Proof.
  intros Hid. assert (forall j, Holds (with_history id s) (store (loadTaskEvents j))) as Hload.
  { intros j. apply history_store. intros x. assert (Preserves eq (loadTaskEvents j)) as Hr by (unfold loadTaskEvents; preserve). by rewrite <- (Hr x). }
  unfold recover_one, register, synthEvent, finishWithTerminal, resolveTerminalResult, readRun, pushEvent, finishTask, evictIfNeeded, modify_task, awaits. hold.
Qed.

Lemma waits_update (p : Pending) (f : Gateway -> Gateway) : (forall g, gw_pending g `prefix_of` gw_pending (f g)) -> Holds (waits p) (update f : G unit).
Proof. intros H g Hg. unfold waits in *. cbn. destruct (H g) as [l ->]. apply in_or_app. by left. Qed.
#[local] Hint Extern 3 (Holds (waits _) (awaits _)) => (apply waits_update; intros ?; by apply prefix_app_r) : typeclass_instances.
#[local] Hint Extern 4 (Holds (waits _) (update _)) => (apply waits_update; intros ?; repeat case_match; done) : typeclass_instances.
#[local] Instance waits_store {A : Type} (p : Pending) (m : M A) : Holds (waits p) (store m).
Proof. intros g Hg. unfold store. destruct (gw_db g); [|done]. by destruct (m d). Qed.
Lemma waits_recover_one (p : Pending) (rec : TaskRecord) : Holds (waits p) (recover_one sha256_hex opts world rec).
Proof. unfold recover_one, register, synthEvent, finishWithTerminal, resolveTerminalResult, readRun, pushEvent, finishTask, evictIfNeeded, modify_task. hold. Qed.

(** The events recovery loads for a task. *)
Definition durable_history (id : string) (s : DB) : list TaskEvent :=
  match loadTaskEvents id s with (Ok es, _) => map (toTaskEvent id) es | (Err _, _) => [] end.
(** A remote task whose start was never confirmed. *)
Definition unknown_start (rec : TaskRecord) : bool :=
  (is_some (t_remote_run_id (tk_row rec)) || foreign_node (t_node_id (tk_row rec))) && negb (is_some (truthy_string (t_remote_run_id (tk_row rec)))).

(** It is ended, and every other task is registered as it was and gets a timer. *)
Definition outcome (s : DB) (rec : TaskRecord) (g : Gateway) : Prop :=
  let id := t_task_id (tk_row rec) in
  if unknown_start rec then holds_task id (fun t => gt_terminal t = true) g
  else holds_task id (eq (recovered_task opts rec (durable_history id s))) g /\ waits (PRecover id 0) g.

Lemma history_load (id : string) (s : DB) (g : Gateway) : with_history id s g ->
  attempt (es ← store (loadTaskEvents id); mret (map (toTaskEvent id) es)) (mret []) g = (Ok (durable_history id s), g).
Proof.
  intros (s' & Hs' & Hc & He).
  assert (loadTaskEvents id s' = (fst (loadTaskEvents id s), s')) as Hload.
  { unfold loadTaskEvents, opened, mbind, M_bind, gets, check. rewrite Hc. destruct (db_closed s); [done|]. cbn. rewrite He.
    assert (forall l a b, map_events l b = (fst (map_events l a), b)) as Hm; [|apply Hm].
    induction l as [|r l IH]; intros a b; cbn [map_events]; [done|]. unfold mbind, M_bind, lift. destruct (decodeJson _ _ _); [|done]. cbn.
    rewrite (IH a b). by destruct (map_events l a) as [[?|?] ?]. }
  unfold attempt, catch, store, mbind, ST_bind. rewrite Hs', Hload. assert (set_gw_db (Some s') g = g) as Hg by (destruct g; cbn in *; by subst).
  unfold durable_history. destruct (loadTaskEvents id s) as [[es|c] x]; cbn; by rewrite Hg.
Qed.

Lemma synthEvent_run (id : string) (type : TaskEventType) (payload : value) (t : GatewayTask) (g : Gateway) : gw_heap g !! id = Some t ->
  synthEvent world id type payload g
  = (Ok {| ev_seq := gt_nextSeq t; ev_task_id := id; ev_type := task_event_type type; ev_ts := wd_now world; ev_payload := payload |},
     snd (modify_task id (set_gt_nextSeq (gt_nextSeq t + 1)) g)).
Proof. intros Ht. unfold synthEvent, the_task, mbind, ST_bind, asks. cbn. by rewrite Ht. Qed.

Lemma recover_one_outcome (s : DB) (rec : TaskRecord) (g : Gateway) : with_history (t_task_id (tk_row rec)) s g ->
  exists g', recover_one sha256_hex opts world rec g = (Ok tt, g') /\ outcome s rec g'.
Proof.
  intros Hh. unfold recover_one, outcome. set (id := t_task_id (tk_row rec)) in *. rewrite (bind_run _ _ _ _ _ (history_load id s g Hh)). cbv zeta.
  set (t := recovered_task opts rec (durable_history id s)). set (g1 := snd (register t g)). rewrite (bind_run (register t) _ g g1 tt eq_refl).
  assert (gw_heap g1 !! id = Some t) as Hg1 by (subst g1; cbn; apply lookup_insert_eq).
  assert (exists g', awaits (PRecover id 0) g1 = (Ok tt, g') /\ holds_task id (eq t) g' /\ waits (PRecover id 0) g') as Haw.
  { eexists. split; [done|]. split; [by exists t|]. unfold waits. cbn. apply in_or_app. right. by left. }
  change (gt_mode t) with (if is_some (t_remote_run_id (tk_row rec)) || foreign_node (t_node_id (tk_row rec)) then remote else local).
  change (gt_remoteRunId t) with (t_remote_run_id (tk_row rec)). unfold unknown_start.
  destruct (_ || _) eqn:Em; cbn [andb]; [|exact Haw]. destruct (is_some (truthy_string _)); cbn [negb]; [exact Haw|].
  rewrite (bind_run _ _ _ _ _ (synthEvent_run id task_failed _ t g1 Hg1)).
  apply finishWithTerminal_over. exists (set_gt_nextSeq (gt_nextSeq t + 1) t). split; [cbn; by rewrite lookup_alter_eq, lookup_insert_eq|]. split; [|done]. subst t. cbn. by rewrite Em.
Qed.

Lemma outcome_kept (s : DB) (rec rec' : TaskRecord) : t_task_id (tk_row rec') <> t_task_id (tk_row rec) -> Holds (outcome s rec) (recover_one sha256_hex opts world rec').
Proof.
  intros Hid g. unfold outcome. cbv zeta. destruct (unknown_start rec).
  - apply task_recover_other; [|done]. intros t Ht. unfold drop_ended. by destruct (_ && _).
  - intros [H1 H2]. split; [|by apply waits_recover_one]. revert H1. apply task_recover_other; [|done]. by intros t <-.
Qed.

Lemma recover_all_outcome (s : DB) (recs : list TaskRecord) (g : Gateway) : NoDup (map (fun r => t_task_id (tk_row r)) recs) ->
  (forall rec, In rec recs -> with_history (t_task_id (tk_row rec)) s g) ->
  exists g', recover_all sha256_hex opts world recs g = (Ok tt, g') /\ (forall rec, In rec recs -> outcome s rec g')
    /\ forall rec, ~ In (t_task_id (tk_row rec)) (map (fun r => t_task_id (tk_row r)) recs) -> outcome s rec g -> outcome s rec g'.
Proof.
  revert g. induction recs as [|r recs IH]; intros g Hnd Hh; cbn [recover_all map]; [exists g; by repeat split|].
  apply NoDup_cons in Hnd as [Hn Hnd]. destruct (recover_one_outcome s r g (Hh r (or_introl eq_refl))) as (g1 & Hr & Ho). rewrite (bind_run _ _ _ _ _ Hr).
  assert (forall rec, In rec recs -> t_task_id (tk_row r) <> t_task_id (tk_row rec)) as Hne.
  { intros rec Hin E. apply Hn, list_elem_of_In. rewrite E. by apply (in_map (fun r => t_task_id (tk_row r))). }
  destruct (IH g1 Hnd) as (g2 & Hr2 & Ho2 & Hk2).
  { intros rec Hin. pose proof (history_recover_one (t_task_id (tk_row rec)) s r (Hne rec Hin) g (Hh rec (or_intror Hin))) as H. by rewrite Hr in H. }
  exists g2. split; [done|]. split.
  - intros rec [<-|Hin]; [apply Hk2; [by rewrite <- list_elem_of_In|done]|by apply Ho2].
  - intros rec Hni Hrec. apply Hk2; [intros Hin; apply Hni; by right|]. pose proof (outcome_kept s rec r) as Hkeep.
    specialize (Hkeep (fun E => Hni (or_introl E)) g Hrec). by rewrite Hr in Hkeep.
Qed.

(** Recovery returns, having dealt with every task that had not ended. *)
Lemma recoverTasks_outcome (s : DB) (recs : list TaskRecord) : go_recoverOnStart opts = true -> task_log s -> listNonTerminalTasks s = (Ok recs, s) ->
  exists g, recoverTasks sha256_hex opts world (empty_gateway (Some s)) = (Ok tt, g) /\ forall rec, In rec recs -> outcome s rec g.
Proof.
  intros Ho Hlog Hl. unfold recoverTasks, persist. set (g := empty_gateway (Some s)). rewrite (bind_run (asks _) _ g g true eq_refl), Ho. cbn [negb orb].
  assert (attempt (store listNonTerminalTasks) (mret []) g = (Ok recs, g)) as Hrun by (unfold attempt, catch, store; cbn; by rewrite Hl).
  rewrite (bind_run _ _ _ _ _ Hrun). destruct (recover_all_outcome s recs g) as (g' & Hr & Hall & _).
  - by apply (listed_rows s s recs).
  - intros rec _. by exists s.
  - by exists g'.
Qed.
End Outcome.
