(* ===== verification/GatewaySafety.v ===== *)
(** * What the Gateway guarantees

    [gateway_run bound g]: a Gateway that recovered from some database, then took turns of
    its event loop with any requests, run events, answers, timers and failures in any
    order, shared its database with other writers, and was restarted any number of times,
    can be in state [g].  The invariant holds in all of them. *)

From S2P Require Import Prelude Machine Values Json Contract Templates Verification Outputs StoreRows Store StoreOps StoreProps StoreInv StoreRun StoreOnce RuntimeEnv TaskContract Workspace GatewayState Gateway GatewayApi GatewayInv GatewayKeeps GatewayDurable GatewayCreate GatewayProps GatewayRecovery.

(** ** Turns *)

(** A connection is new, and so is the identifier of a task that is created. *)
Definition fresh_input (w : World) (i : Input) (g : Gateway) : Prop :=
  match i with
  | IEvents sid _ _ => gw_streams g !! sid = None
  | IAnswer n a =>
      match gw_pending g !! n, a with
      | Some (PNodes _ _), _ => fresh_id (wd_new_id w) g
      | Some (PStart _ _ _), ARecord (Ok r) => fresh_id (rec_run_id r) g
      | _, _ => True
      end
  | _ => True
  end.

Section Turns.
Context (sha256_hex : string -> string) (opts : GatewayOptions) `{Hmax : !Buffers opts} (world : World) (bound : Z) (Hbound : go_maxActive opts <= bound).

Lemma starting_delete (n : nat) (l : list Pending) (id : string) : In id (starting (delete n l)) -> In id (starting l).
Proof.
  unfold starting. rewrite !in_flat_map. intros (p & Hp & Hid). exists p. split; [|done]. apply list_elem_of_In in Hp. apply list_elem_of_In.
  eapply elem_of_sublist; [exact Hp|apply sublist_delete].
Qed.

(** An answer that does not fit goes back to the queue. *)
Lemma put_back (p : Pending) (k : Z) (g : Gateway) :
  inv bound (if reserves p then 1 else 0) g -> pending_ok (gw_db g) p -> (forall id, In id (starting [p]) -> fresh_id id g) ->
  inv bound 0 (snd ((awaits p;; (mret RAwait : G Reply)) g)).
Proof.
  intros Hg Hp Hf. destruct (reserves p) eqn:Er.
  - exact (inv_handover bound 0 p Er g (conj Hg (conj Hp Hf))).
  - apply (inv_awaits None bound 0 p Er); [|done]. by destruct p.
Qed.

Lemma inv_resume (p : Pending) (a : Answer) (g : Gateway) :
  inv bound (if reserves p then 1 else 0) g -> pending_ok (gw_db g) p -> (forall id, In id (starting [p]) -> fresh_id id g) ->
  match p, a with PNodes _ _, _ => fresh_id (wd_new_id world) g | PStart _ _ _, ARecord (Ok r) => fresh_id (rec_run_id r) g | _, _ => True end ->
  inv bound 0 (snd (resume sha256_hex opts world p a g)).
Proof.
  intros Hg Hp Hf Hn. pose proof (put_back p 0 g Hg Hp Hf) as Hback.
  destruct p, a; try exact Hback; cbn [reserves] in Hg; cbn [resume]; unfold silent.
  1: apply (fun H : Holds (inv bound 0) _ => H g Hg), holds_bind; [by apply keeps_on_result|apply _].
  1: apply (fun H : Holds (inv bound 0) _ => H g Hg), holds_bind; [by apply keeps_request_result|apply _].
  all: try (match goal with Hg : inv bound 0 ?g |- _ => apply (fun H : Holds (inv bound 0) _ => H g Hg); solve [hold] end).
  - apply (fun H : Holds (inv bound 0) _ => H g Hg). by apply keeps_on_body.
  - apply (inv_on_nodes world bound 0 req fp r g). by split.
  - destruct Hp as (H1 & H2 & H3 & H4 & H5 & H6). apply (inv_on_remote_start opts world bound 0 task created replay result r); [done..|].
    split; [|done]. split; [done|]. apply Hf. by left.
  - destruct r as [r|message].
    + apply (inv_on_start sha256_hex opts world bound 0 req fp mode (Ok r) (rec_run_id r)); [by intros x [= <-]|]. by split.
    + apply (hoare_bind (inv bound 1) (inv bound 0) (inv bound 0) release); [exact (inv_release bound 0)|intros _; apply hoare_holds; hold|done|exact Hg].
Qed.

Lemma keeps_serve (m : G Reply) : Holds (inv bound 0) m -> Holds (inv bound 0) (serve m).
Proof. intros Hm. unfold serve, failure. apply holds_bind; [apply _|]. intros []; [apply _|]. apply holds_catch; [done|]. intros []; apply _. Qed.
Lemma keeps_callback (m : G unit) : Holds (inv bound 0) m -> Holds (inv bound 0) (callback m).
Proof. intros Hm. unfold callback, silent. apply holds_catch; [apply holds_bind; [done|apply _]|]. intros []; apply _. Qed.
Lemma keeps_while_live (id : string) (m : G unit) : Holds (inv bound 0) m -> Holds (inv bound 0) (while_live id m).
Proof. intros Hm. unfold while_live. apply holds_bind; [hold|]. intros t. by destruct (gt_terminal t); [apply _|]. Qed.

Lemma inv_react (i : Input) (g : Gateway) : inv bound 0 g -> fresh_input world i g -> inv bound 0 (snd (react sha256_hex opts world i g)).
Proof.
  intros Hg Hf. destruct i as [ctype|id|id|sid id cursor|sid|id|id e|id e q|id meta|id|id|n a|];
    try (apply (fun H : Holds (inv bound 0) _ => H g Hg); cbn [react];
      first [apply keeps_serve|apply keeps_callback; try apply keeps_while_live|unfold silent; apply holds_bind; [|apply _]]; solve [apply _|hold]).
  - apply (hoare_asks (fun g => inv bound 0 g /\ gw_streams g !! sid = None) (inv bound 0) gw_shuttingDown); [|by split].
    intros down. destruct down; [apply hoare_ret; by intros ? [[]]|].
    eapply (hoare_weaken _ _ _ (fun g => inv bound 0 g /\ gw_streams g !! sid = None) (inv bound 0)); [|by intros ? []|done].
    apply hoare_attempt; [by apply keeps_handleEvents|by apply hoare_ret].
  - cbn [react]. unfold asks, mbind at 1, ST_bind at 1. cbn [fresh_input] in Hf. destruct (gw_pending g !! n) as [p|] eqn:En; [|done].
    destruct (inv_take bound 0 n p g En Hg) as (H1 & H2 & H3). set (g' := set_gw_pending (delete n (gw_pending g)) g) in *.
    change (inv bound 0 (snd (attempt (resume sha256_hex opts world p a) (failure 500 api_internal_error) g'))).
    assert (inv bound 0 (snd (resume sha256_hex opts world p a g'))) as Hr.
    { apply inv_resume; [exact H1|exact H2|exact H3|].
      assert (forall id, fresh_id id g -> fresh_id id g') as Hfr by (intros id [? Hs]; split; [done|]; intros Hin; exact (Hs (starting_delete n _ id Hin))).
      destruct p, a; auto; destruct r; auto. }
    unfold attempt, catch. destruct (resume _ _ _ p a g') as [[x|[]] g'']; exact Hr.
Qed.
End Turns.

(** ** Runs of the Gateway *)

Section Runs.
Context (sha256_hex : string -> string) (opts : GatewayOptions) `{Hmax : !Buffers opts}.

(** The Gateway after its recovery, and the room its tasks in flight leave. *)
Definition recovered (w : World) (db : option DB) : Gateway := snd (recoverTasks sha256_hex opts w (empty_gateway db)).
Definition room (g : Gateway) : Z := Z.max (go_maxActive opts) (gw_activeCount g + gw_pendingCreates g).

Inductive gateway_run : Z -> Gateway -> Prop :=
  | run_start (w : World) (db : option DB) :
      (forall s, db = Some s -> rtc store_step empty_db s /\ clean_db s) -> gateway_run (room (recovered w db)) (recovered w db)
  | run_turn (w : World) (i : Input) (bound : Z) (g g' : Gateway) (reply : Reply) :
      gateway_run bound g -> fresh_input w i g -> react sha256_hex opts w i g = (Ok reply, g') -> gateway_run bound g'
  (** Another component writes its own tables of the database. *)
  | run_shared (bound : Z) (g : Gateway) (s s' : DB) :
      gateway_run bound g -> gw_db g = Some s -> rtc store_step s s' -> same_task_log s s' -> gateway_run bound (set_gw_db (Some s') g)
  (** The process stops, between two turns or in one, and is started again. *)
  | run_restart (w : World) (bound : Z) (g g' : Gateway) :
      gateway_run bound g -> (g' = g \/ exists w0 i e, react sha256_hex opts w0 i g = (Err e, g')) ->
      gateway_run (room (recovered w (gw_db g'))) (recovered w (gw_db g')).

Lemma good_recovered (w : World) (db : option DB) : good_db (empty_gateway db) -> good_db (recovered w db).
Proof. intros H. by apply (good_recoverTasks sha256_hex opts w). Qed.
Lemma inv_recovered_room (w : World) (db : option DB) : good_db (empty_gateway db) -> inv (room (recovered w db)) 0 (recovered w db).
Proof. intros H. destruct (recoverTasks_ok sha256_hex opts w db H) as [b []]. constructor; auto. unfold room, recovered. lia. Qed.

Lemma run_bound (bound : Z) (g : Gateway) : gateway_run bound g -> go_maxActive opts <= bound.
Proof. induction 1; unfold room; lia. Qed.

Lemma good_react_any (w : World) (i : Input) (g g' : Gateway) (r : result gw_error Reply) :
  good_db g -> react sha256_hex opts w i g = (r, g') -> good_db g'.
Proof. intros Hg Hr. pose proof (good_react sha256_hex opts w i g Hg) as H. by rewrite Hr in H. Qed.
Lemma good_initial (db : option DB) : (forall s, db = Some s -> rtc store_step empty_db s /\ clean_db s) -> good_db (empty_gateway db).
Proof.
  intros Hdb. unfold good_db. cbn. destruct db as [s|]; [|done]. destruct (Hdb s eq_refl) as [Hr Hc]. split; [|done].
  apply ok_task_log. eapply store_ok_run; [exact Hr|apply store_ok_empty].
Qed.
Lemma good_restarted (g g' : Gateway) : good_db g -> (g' = g \/ exists w0 i e, react sha256_hex opts w0 i g = (Err e, g')) -> good_db (empty_gateway (gw_db g')).
Proof. intros Hg [->|(w0 & i & e & Hr)]; [done|]. exact (good_react_any _ _ _ _ _ Hg Hr). Qed.

Lemma good_run (bound : Z) (g : Gateway) : gateway_run bound g -> good_db g.
Proof.
  induction 1 as [w db Hdb|w i b g g' reply Hrun IH Hf Hr|b g s s' Hrun IH Hs Hss Hsame|w b g g' Hrun IH Hg'].
  - by apply good_recovered, good_initial.
  - by eapply good_react_any.
  - unfold good_db in *. cbn. rewrite Hs in IH. destruct IH as [Hlog Hc], Hsame as [E1 E2]. split; [unfold task_log; by rewrite E1, E2|].
    eapply clean_after; [by apply clean_same|done].
  - by eapply good_recovered, good_restarted.
Qed.

Lemma inv_shared (bound : Z) (g : Gateway) (s s' : DB) : gw_db g = Some s -> tasks_evolve s s' -> inv bound 0 g -> inv bound 0 (set_gw_db (Some s') g).
Proof.
  intros Hs He [Ht Hst Ha Hb Hr Hp Hnd Hfr]. rewrite Hs in Ht, Hst, Hp. constructor; cbn; auto.
  - intros id t Hid. eapply task_ok_db; eauto.
  - intros sid x Hx. destruct (Hst _ _ Hx). constructor; auto. intros ev Hev. eapply durable_evolves; eauto.
  - eapply Forall_impl; [done|]. intros p. by apply pending_ok_db.
Qed.

Lemma run_inv (bound : Z) (g : Gateway) : gateway_run bound g -> inv bound 0 g.
Proof.
  induction 1 as [w db Hdb|w i b g g' reply Hrun IH Hf Hr|b g s s' Hrun IH Hs Hss Hsame|w b g g' Hrun IH Hg'].
  - by apply inv_recovered_room, good_initial.
  - pose proof (inv_react sha256_hex opts w b (run_bound _ _ Hrun) i g IH Hf) as H. by rewrite Hr in H.
  - eapply inv_shared; [done|by apply tasks_store_run|done].
  - eapply inv_recovered_room, good_restarted; [by eapply good_run|done].
Qed.
End Runs.

(** ** A run *)

Module Demo.
Definition w : World :=
  {| wd_now := "2026-01-01T00:00:00.000Z"; wd_new_id := "run_1"; wd_run := fun _ => RunMissing; wd_events := fun _ => None; wd_stop := fun _ => StopExits;
     wd_prompt_written := true |}.
Definition hash (s : string) : string := s.
Definition opts : GatewayOptions := default_options true.
Definition body : string := default "" (JSON_stringify (VObj [("agent", VStr "codex"); ("node_id", VStr "n1"); ("input", VObj [("text", VStr "hi")])])).
Definition node : RemoteNode :=
  {| vn_node_id := "n1"; vn_online := true; vn_agents := Some ["codex"]; vn_capabilities := Some [RUN_EVENT_REPLAY_CAPABILITY; RUN_RESULT_CAPABILITY];
     vn_encryption_public_key := Some "k" |}.
Definition run (s : RunStatus) : RunRecord := {|
  rec_run_id := "r1"; rec_session_id := ""; rec_node_id := "n1"; rec_node_selector := None; rec_agent := "codex";
  rec_status := s; rec_workspace_path := ""; rec_session_url := None; rec_repo_url := None;
  rec_branch := None; rec_prompt_file := None; rec_permission_mode := None; rec_metadata := VUndef;
  rec_child_pid := None; rec_started_agent := None; rec_final_agent := None; rec_switched := None;
  rec_switch_reason := None; rec_handoff_path := None; rec_failure_reason := None; rec_recoverable := None;
  rec_exit_code := None; rec_error := None; rec_result_status := None; rec_task_result := VUndef;
  rec_workspace_lease_id := None; rec_workspace_key := None; rec_workspace_write := None; rec_verify := VUndef;
  rec_event_aes_key := None; rec_stop_aes_key := None; rec_approval_aes_key := None;
  rec_created_at := ""; rec_updated_at := "" |}.
Definition log : RunEvent := {| re_run_id := "r1"; re_ts := "2026-01-01T00:00:00.000Z"; re_body := LogEvent "stdout" "x" |}.

Fixpoint turns (l : list Input) (g : Gateway) : Gateway := match l with [] => g | i :: l => turns l (snd (react hash opts w i g)) end.
Definition started : list Input := [ICreate None; IAnswer 0 (ABody body); IAnswer 0 (ANodes (Ok [node])); IAnswer 0 (ARecord (Ok (run run_running))); IEvents 0 "run_1" None].
(** A GET sees the run completed and asks for its result; the Node's log goes on. *)
Definition race : list Input :=
  [IGet "run_1"; IAnswer 0 (ARecord (Ok (run run_completed))); ISourceEvent "run_1" log 0; IAnswer 0 (AResult (Some ("missing", None)))].

Definition answered (r : result gw_error Reply) : bool := match r with Ok _ => true | Err _ => false end.
Fixpoint fit (l : list Input) (g : Gateway) : Prop :=
  match l with [] => True | i :: l => fresh_input w i g /\ answered (fst (react hash opts w i g)) = true /\ fit l (snd (react hash opts w i g)) end.

Lemma run_turns (l : list Input) (bound : Z) (g : Gateway) : gateway_run hash opts bound g -> fit l g -> gateway_run hash opts bound (turns l g).
Proof.
  revert g. induction l as [|i l IH]; intros g Hg; [done|]. intros (Hf & Ha & Hl). cbn [turns]. apply IH; [|done].
  destruct (react hash opts w i g) as [[x|e] g'] eqn:E; [|done]. by eapply run_turn.
Qed.

Definition g0 : Gateway := recovered hash opts w (Some empty_db).
Definition g1 : Gateway := turns started g0.
Definition g2 : Gateway := turns race g1.
Lemma g0_run : gateway_run hash opts (room opts g0) g0.
Proof. apply run_start. intros s [= <-]. split; [apply rtc_refl|by intros r []]. Qed.
Lemma g1_run : gateway_run hash opts MAX_ACTIVE_TASKS g1.
Proof. apply (run_turns started _ g0 g0_run). vm_compute. tauto. Qed.
Lemma g2_run : gateway_run hash opts MAX_ACTIVE_TASKS g2.
Proof. apply (run_turns race _ g1 g1_run). vm_compute. tauto. Qed.
Definition db1 : DB := default empty_db (gw_db g1).
Definition db2 : DB := default empty_db (gw_db g2).
Definition recs1 : list TaskRecord := match fst (listNonTerminalTasks db1) with Ok l => l | Err _ => [] end.
End Demo.

(** ** Claims *)

(** C30. A task's event stream closes exactly once.  In every state of every run, through
    restarts, the buffer of a task that has ended ends with its only terminal event and
    the buffer of one that has not holds none; what a subscriber was sent holds at most
    one terminal event, at the end; and a response that is still attached to a task has
    not been sent one. *)
Theorem task_streams_close_once (sha256_hex : string -> string) (opts : GatewayOptions) `{!Buffers opts} (bound : Z) (g : Gateway) :
  gateway_run sha256_hex opts bound g ->
  (forall id t, gw_heap g !! id = Some t ->
     (if gt_terminal t then ends_terminal (gt_events t) /\ gt_subscribers t = [] else no_terminal (gt_events t))
     /\ forall sid, In sid (gt_subscribers t) -> exists s, gw_streams g !! sid = Some s /\ ss_task s = id /\ (ss_ended s = false -> no_terminal (ss_sent s)))
  /\ (forall sid s, gw_streams g !! sid = Some s -> ss_live s = true -> no_terminal (ss_sent s) \/ ends_terminal (ss_sent s)).
Proof.
  intros H. destruct (run_inv _ _ _ _ H) as [Htasks Hstreams Hact Hsum Hres _ _ _]. split.
  - intros id t Ht. destruct (Htasks id t Ht) as [_ Hlog _ _ Hstr Hdone _]. rewrite orb_false_r in Hlog. split.
    + destruct (gt_terminal t); [by split; [|apply Hdone]|done].
    + intros sid Hsid. destruct (Hstr sid Hsid) as (s & Hs & Htk & _ & Hn). by exists s.
  - intros sid s Hs. by destruct (Hstreams sid s Hs).
Qed.
Lemma task_streams_close_once_witness : exists t, gw_heap Demo.g2 !! "run_1" = Some t /\ gt_terminal t = true /\ ends_terminal (gt_events t).
Proof.
  destruct (gw_heap Demo.g2 !! "run_1") as [t|] eqn:E; [|exfalso; revert E; vm_compute; discriminate]. exists t. split; [done|].
  pose proof (proj1 (proj1 (task_streams_close_once Demo.hash Demo.opts MAX_ACTIVE_TASKS Demo.g2 Demo.g2_run) "run_1" t E)) as H.
  assert (gt_terminal t = true) as Ht by (revert E; vm_compute; by intros [= <-]). rewrite Ht in H. by split; [|apply H].
Defined.

(** C31. Admission is bounded: the Gateway counts exactly the tasks that have not ended,
    every creation in flight holds a reservation across its awaits, and the two together
    never exceed the configured maximum, or what recovery found in flight when that is
    more. *)
Theorem admission_bounded (sha256_hex : string -> string) (opts : GatewayOptions) `{!Buffers opts} (bound : Z) (g : Gateway) :
  gateway_run sha256_hex opts bound g ->
  gw_activeCount g = live_tasks (gw_heap g) /\ reserved (gw_pending g) <= gw_pendingCreates g /\ live_tasks (gw_heap g) + reserved (gw_pending g) <= bound.
Proof. intros H. destruct (run_inv _ _ _ _ H) as [Htasks Hstreams Hact Hsum Hres _ _ _]. repeat split; lia. Qed.
Lemma admission_bounded_witness : live_tasks (gw_heap Demo.g1) = 1 /\ live_tasks (gw_heap Demo.g1) + reserved (gw_pending Demo.g1) <= MAX_ACTIVE_TASKS.
Proof. split; [by vm_compute|]. apply (admission_bounded Demo.hash Demo.opts MAX_ACTIVE_TASKS Demo.g1 Demo.g1_run). Defined.

(** C32. What is published is durable: with a store, every event that is buffered for a
    task or was sent on any response, terminal events apart, has a row in the durable
    log with its sequence, type, time and payload.  A restart therefore never
    contradicts what a client saw. *)
Theorem published_events_durable (sha256_hex : string -> string) (opts : GatewayOptions) `{!Buffers opts} (bound : Z) (g : Gateway) (s : DB) :
  gateway_run sha256_hex opts bound g -> gw_db g = Some s ->
  (forall id t ev, gw_heap g !! id = Some t -> In ev (gt_events t) -> terminal_event ev = false -> exists r, In r (db_task_events s) /\ row_of id ev r)
  /\ (forall sid x ev, gw_streams g !! sid = Some x -> In ev (ss_sent x) -> terminal_event ev = false -> exists r, In r (db_task_events s) /\ row_of (ss_task x) ev r).
Proof.
  intros H Hs. destruct (run_inv _ _ _ _ H) as [Htasks Hstreams Hact Hsum Hres _ _ _]. rewrite Hs in *. split.
  - intros id t ev Ht Hev He. by destruct (to_durable _ _ _ _ _ (Htasks id t Ht) ev Hev) as [?|?]; [congruence|].
  - intros sid x ev Hx Hev He. by destruct (st_durable _ _ (Hstreams sid x Hx) ev Hev) as [?|?]; [congruence|].
Qed.
Lemma published_events_durable_witness : exists s x ev, gw_db Demo.g1 = Some s /\ gw_streams Demo.g1 !! 0%nat = Some x /\ In ev (ss_sent x)
  /\ exists r, In r (db_task_events s) /\ row_of (ss_task x) ev r.
Proof.
  destruct (gw_db Demo.g1) as [s|] eqn:Es; [|exfalso; revert Es; vm_compute; discriminate].
  destruct (gw_streams Demo.g1 !! 0%nat) as [x|] eqn:Ex; [|exfalso; revert Ex; vm_compute; discriminate].
  destruct (ss_sent x) as [|ev l] eqn:El; [exfalso; revert Ex El; vm_compute; intros [= <-]; discriminate|].
  assert (terminal_event ev = false) as Ht by (revert Ex El; vm_compute; intros [= <-] [= <- _]; reflexivity).
  exists s, x, ev. rewrite El. repeat split; [by left|].
  apply (proj2 (published_events_durable Demo.hash Demo.opts MAX_ACTIVE_TASKS Demo.g1 s Demo.g1_run Es) 0%nat x ev Ex); [rewrite El; by left|done].
Defined.

(** A node other than this one was asked to run the task. *)
Definition elsewhere (r : TaskRow) : Prop := exists n, t_node_id r = Some n /\ n <> "local" /\ n <> "auto".
(** Whether a remote run was started is not known. *)
Definition start_unknown (r : TaskRow) : Prop := t_remote_run_id r = Some "" \/ t_remote_run_id r = None /\ elsewhere r.
(** The task [t] in memory continues the row [r] of the database [s]: not ended, under the
    row's names, mode and revision; its next sequence number is the one after the last of its
    log, above all of them; it holds the events of the log, the newest [maxEvents] where
    there are more, and says whether older ones are missing; it holds no event where one of
    the log cannot be decoded. *)
Record resumed (opts : GatewayOptions) (s : DB) (r : TaskRow) (t : GatewayTask) : Prop := {
  rs_live : gt_terminal t = false;
  rs_names : gt_taskId t = t_task_id r /\ gt_agent t = t_agent r /\ gt_nodeId t = t_node_id r /\ gt_remoteRunId t = t_remote_run_id r;
  rs_mode : gt_mode t = remote <-> t_remote_run_id r <> None \/ elsewhere r;
  rs_revision : gt_revision t = t_revision r;
  rs_next : gt_nextSeq t = t_last_event_sequence r + 1 /\ forall e, In e (db_task_events s) -> te_task_id e = t_task_id r -> te_sequence e < gt_nextSeq t;
  rs_events : (exists e, In e (db_task_events s) /\ te_task_id e = t_task_id r /\ forall p, decodeJson (Some (te_payload_json e)) SIZE_LIMITS.task_event_payload false <> Ok p) /\ gt_events t = [] \/
    exists older newer, task_events_of (t_task_id r) s = older ++ newer /\ Forall2 (row_of (t_task_id r)) (gt_events t) newer /\
      (older <> [] -> List.length newer = Z.to_nat (go_maxEvents opts)) /\
      (0 <= go_maxEvents opts -> gt_historyTruncated t = true <-> older <> [] \/ 0 < t_earliest_retained_sequence r) }.

Lemma foreign_spec (r : TaskRow) : foreign_node (t_node_id r) = true <-> elsewhere r.
Proof.
  unfold foreign_node, elsewhere. destruct (t_node_id r) as [n|]; [|naive_solver]. rewrite andb_true_iff, !negb_true_iff, !String.eqb_neq. naive_solver.
Qed.
Lemma unknown_spec (rec : TaskRecord) : unknown_start rec = true <-> start_unknown (tk_row rec).
Proof.
  unfold unknown_start, start_unknown. rewrite <- foreign_spec. destruct (t_remote_run_id (tk_row rec)) as [x|]; cbn; [|destruct (foreign_node _); naive_solver].
  destruct (String.eqb_spec x ""); naive_solver.
Qed.

(** The log of a task, decoded: each row with its payload; or a row that cannot be. *)
Lemma map_events_rows (l : list TaskEventRow) (s : DB) :
  match map_events l s with
  | (Ok es, _) => Forall2 (fun e r => fst e = r /\ decodeJson (Some (te_payload_json r)) SIZE_LIMITS.task_event_payload false = Ok (snd e)) es l
  | (Err _, _) => exists e, In e l /\ forall p, decodeJson (Some (te_payload_json e)) SIZE_LIMITS.task_event_payload false <> Ok p
  end.
Proof.
  induction l as [|r l IH]; cbn [map_events]; [constructor|]. unfold mbind, M_bind, lift. destruct (decodeJson _ _ _) as [p|c] eqn:Ed; [|exists r; split; [by left|]; by rewrite Ed].
  destruct (map_events l s) as [[es|c] s1]; cbn; [by constructor|]. destruct IH as (e & He & Hp). exists e. split; [by right|done].
Qed.

Lemma recovered_resumes (opts : GatewayOptions) (s : DB) (rec : TaskRecord) : task_log s -> db_closed s = false -> db_tasks s !! t_task_id (tk_row rec) = Some (tk_row rec) ->
  resumed opts s (tk_row rec) (recovered_task opts rec (durable_history (t_task_id (tk_row rec)) s)).
Proof.
  intros Hlog Hc Hrow. set (r := tk_row rec) in *. destruct (lo_row _ _ _ _ _ _ Hlog _ _ Hrow) as [_ [Hlast Hnum]].
  constructor; cbn [recovered_task gt_terminal gt_taskId gt_agent gt_nodeId gt_remoteRunId gt_mode gt_revision gt_nextSeq gt_events gt_historyTruncated]; fold r; try done.
  - rewrite <- foreign_spec. destruct (t_remote_run_id r), (foreign_node (t_node_id r)); cbn; naive_solver.
  - split; [done|]. intros e He Hid. assert (Hin : In (te_sequence e) (map te_sequence (task_events_of (t_task_id r) s))).
    { apply in_map, List.filter_In. split; [done|]. by apply String.eqb_eq. }
    assert (map te_sequence (task_events_of (t_task_id r) s) = seqZ 0 (t_last_event_sequence r + 1)) as E by exact Hnum. rewrite E in Hin. apply list_elem_of_In, elem_of_seqZ in Hin. lia.
  - unfold durable_history, loadTaskEvents, opened, mbind, M_bind, gets, check. rewrite Hc. cbn [negb mret M_ret]. 
    pose proof (map_events_rows (task_events_of (t_task_id r) s) s) as Hm. destruct (map_events _ s) as [[es|c] s1].
    + right. set (rows := task_events_of (t_task_id r) s) in *. assert (Hown : Forall (fun e => te_task_id e = t_task_id r) rows).
      { apply List.Forall_forall. intros e He. apply List.filter_In in He as [_ He]. by apply String.eqb_eq. }
      assert (HF : Forall2 (row_of (t_task_id r)) (map (toTaskEvent (t_task_id r)) es) rows).
      { clear Hnum. clearbody rows. induction Hm as [|e x es l [<- Hd] _ IH]; [constructor|]. apply Forall_cons_1 in Hown as [Hx Hown]. constructor; [|by apply IH].
        split; [done|]. do 3 (split; [done|]). right. by exists (snd e). }
      pose proof (Forall2_length _ _ _ HF) as Hlen. set (evs := map _ es) in *. destruct (Z.ltb_spec (go_maxEvents opts) (Z.of_nat (List.length evs))) as [Hlong|Hshort].
      * set (n := (List.length evs - Z.to_nat (go_maxEvents opts))%nat). exists (take n rows), (drop n rows). split; [by rewrite take_drop|]. split; [by apply Forall2_drop|].
        split; [intros _; rewrite length_drop; subst n; lia|]. intros Hpos. rewrite orb_true_r. split; [intros _; left|done]. intros E%(f_equal List.length). rewrite length_take in E. change (Nat.min n (List.length rows) = 0)%nat in E. subst n. lia.
      * exists [], rows. split; [done|]. split; [done|]. split; [done|]. intros _. rewrite orb_false_r, Z.ltb_lt. naive_solver.
    + left. split; [|by destruct (_ <? _); [destruct (_ - _)%nat|]]. destruct Hm as (e & He & Hp). apply List.filter_In in He as [He Hid]. exists e. split; [done|]. split; [by apply String.eqb_eq|done].
Qed.

(** C33. A restart resumes every unfinished task.  At any point between two turns of the
    event loop where the process stops, recovery over the database it left, when it is enabled
    and the store can list the unfinished tasks, returns, and each task whose row has not ended is
    dealt with: a remote task of which it is not known whether a run was started is
    ended, so it is not executed twice; every other one is resumed from its row and its log, as
    [resumed] says, has no terminal event in its log, and gets a timer that reconciles it. *)
Theorem restart_resumes_every_task (sha256_hex : string -> string) (opts : GatewayOptions) (bound : Z) (g : Gateway) (s : DB) (recs : list TaskRecord) (w : World) :
  gateway_run sha256_hex opts bound g -> gw_db g = Some s -> go_recoverOnStart opts = true -> listNonTerminalTasks s = (Ok recs, s) ->
  exists g', recoverTasks sha256_hex opts w (empty_gateway (Some s)) = (Ok tt, g') /\ gateway_run sha256_hex opts (room opts g') g'
  /\ forall id r, db_tasks s !! id = Some r -> task_terminal (t_status r) = false ->
     (start_unknown r /\ (exists t, gw_heap g' !! id = Some t /\ gt_terminal t = true) \/
      ~ start_unknown r /\ (exists t, gw_heap g' !! id = Some t /\ resumed opts s r t) /\ In (PRecover id 0) (gw_pending g'))
     /\ (forall e, In e (db_task_events s) -> te_task_id e = id -> terminal_row e = false).
Proof.
  intros H Hs Ho Hl. pose proof (good_run _ _ _ _ H) as Hgood. unfold good_db in Hgood. rewrite Hs in Hgood. destruct Hgood as [Hlog Hc].
  destruct (recoverTasks_outcome sha256_hex opts w s recs Ho Hlog Hl) as (g' & Hr & Hout). exists g'. split; [done|]. split.
  - pose proof (run_restart sha256_hex opts w bound g g H (or_introl eq_refl)) as H'. unfold recovered in H'. by rewrite Hs, Hr in H'.
  - intros id r Hrow Ht. destruct (listed_all s s recs id r Hl Hrow Ht) as (rec & Hin & Hrec).
    assert (t_task_id r = id) as Hid by apply (lo_row _ _ _ _ _ _ Hlog id r Hrow). split; [|intros e He Hte; by eapply listed_clean].
    specialize (Hout rec Hin). unfold outcome in Hout. rewrite Hrec, Hid in Hout. pose proof (unknown_spec rec) as Hu. rewrite Hrec in Hu. destruct (unknown_start rec).
    + left. split; [by apply Hu|done].
    + right. split; [intros Hx; by apply Hu in Hx|]. destruct Hout as [(t & Ht' & <-) Hw]. split; [|done]. eexists. split; [exact Ht'|]. subst id r.
      apply recovered_resumes; [done| |done]. unfold listNonTerminalTasks in Hl. by apply bind_ok in Hl as (? & ? & [? _]%opened_ok & _).
Qed.
Lemma restart_resumes_every_task_witness : List.length Demo.recs1 = 1%nat
  /\ exists g', recoverTasks Demo.hash Demo.opts Demo.w (empty_gateway (Some Demo.db1)) = (Ok tt, g').
Proof.
  split; [by vm_compute|].
  destruct (restart_resumes_every_task Demo.hash Demo.opts MAX_ACTIVE_TASKS Demo.g1 Demo.db1 Demo.recs1 Demo.w Demo.g1_run) as (g' & Hg' & _);
    [vm_compute; reflexivity..|]. by exists g'.
Defined.

(** A GET races the replay of source events.  The Gateway can reach a state, without
    any failure, in which a task has ended in memory and for its subscribers while its
    durable row has not: the GET takes the next sequence number before it awaits the
    run's result, a source event meanwhile takes the same number in the log, and the
    durable terminalization then fails with a conflict that is swallowed.  The subscriber
    receives two events under one sequence number. *)
Theorem get_races_replay : exists (bound : Z) (g : Gateway) (t : GatewayTask) (s : DB) (r : TaskRow) (x : Sse),
  gateway_run Demo.hash Demo.opts bound g /\ gw_heap g !! "run_1" = Some t /\ gt_terminal t = true
  /\ gw_db g = Some s /\ db_tasks s !! "run_1" = Some r /\ task_terminal (t_status r) = false
  /\ gw_streams g !! 0%nat = Some x /\ map ev_seq (ss_sent x) = [0; 1; 1].
Proof.
  destruct (gw_heap Demo.g2 !! "run_1") as [t|] eqn:Et; [|exfalso; revert Et; vm_compute; discriminate].
  destruct (db_tasks Demo.db2 !! "run_1") as [r|] eqn:Er; [|exfalso; revert Er; vm_compute; discriminate].
  destruct (gw_streams Demo.g2 !! 0%nat) as [x|] eqn:Ex; [|exfalso; revert Ex; vm_compute; discriminate].
  exists MAX_ACTIVE_TASKS, Demo.g2, t, Demo.db2, r, x. split; [apply Demo.g2_run|]. split; [done|]. split; [revert Et; vm_compute; by intros [= <-]|].
  split; [vm_compute; reflexivity|]. split; [done|]. split; [revert Er; vm_compute; by intros [= <-]|]. split; [done|]. revert Ex. vm_compute. by intros [= <-].
Qed.
