(* ===== verification/Crypto.v ===== *)
(** * Signed envelopes (src/crypto.ts)

    [canonicalize] prints a value with its object keys sorted; an envelope is signed and
    verified over that text.  Ed25519 and the decoding of keys belong to Node's crypto
    module and are parameters ([SignatureScheme]).  The canonical text determines an
    envelope up to the order of its keys, so a signature covers exactly that much. *)

From S2P Require Import Prelude Values Json JsonProps Contract Templates Verification Outputs Store TaskContract Fingerprint.

(** ** Canonical JSON *)

(** [JSON.stringify(k):canonicalize(obj[k])]; an undefined value prints as "undefined". *)
Definition canonical_member (kt : string * option chars) : chars := quote (fst kt) ++ ":"%char :: default (lit "undefined") (snd kt).

(** [None] is the [undefined] that [JSON.stringify(undefined)] returns; [join] prints it
    as the empty string. *)
Fixpoint canonical_chars (v : value) : option chars :=
  match v with
  | VArr l => Some ("["%char :: join_comma (map (fun x => default [] (canonical_chars x)) l) ++ ["]"%char])
  | VObj o =>
      Some ("{"%char :: join_comma (map canonical_member (sort_keys (map (fun kv => (fst kv, canonical_chars (snd kv))) o))) ++ ["}"%char])
  | _ => print v
  end.

Definition canonicalize (v : value) : option string := string_of_list_ascii <$> canonical_chars v.

(** ** Signing *)

(** [sign priv text]: [createPrivateKey] and [crypto.sign], base64; [public_key pub]:
    [createPublicKey]; [check pk text sig]: [crypto.verify] with [Buffer.from(sig, 'base64')].
    [None] where the call throws. *)
Record SignatureScheme : Type := {
  PublicKey : Type;
  sign : string -> string -> option string;
  public_key : value -> option PublicKey;
  check : PublicKey -> string -> value -> option bool }.
Arguments sign {_}. Arguments public_key {_}. Arguments check {_}.

Section Envelopes.
Context {K : SignatureScheme}.

Definition EnvelopeSignature (key_id : string) (sig : string) : value := VObj [("alg", VStr "Ed25519"); ("key_id", VStr key_id); ("value", VStr sig)].

(** [None] where [createPrivateKey] or [crypto.sign] throws. *)
Definition signEnvelope (privateKeyBase64 keyId : string) (envelopeWithoutSig : value) : option value :=
  EnvelopeSignature keyId <$> sign (s := K) privateKeyBase64 (default "undefined" (canonicalize envelopeWithoutSig)).

(** [const { signature, ...withoutSig } = envelope]. *)
Definition without_signature (envelope : value) : value := VObj (List.filter (fun kv => negb (fst kv =s "signature")) (entries envelope)).

Definition typeof_object (v : value) : bool := match v with VNull | VArr _ | VObj _ => true | _ => false end.

(** [None] where it throws: [createPublicKey] is outside the [try]. *)
Definition verifyEnvelope (signingPublicKeyBase64 : value) (envelope : value) : option bool :=
  let signature := get "signature" envelope in
  if negb (truthy signature) || negb (typeof_object signature) then Some false else
  if negb (strict_eq (get "alg" signature) (VStr "Ed25519")) then Some false else
  let canonical := default "undefined" (canonicalize (without_signature envelope)) in
  pubKey ← public_key (s := K) signingPublicKeyBase64;
  Some (default false (check pubKey canonical (get "value" signature))).
End Envelopes.

(** ** The canonical text *)

Lemma insert_key_map {A B : Type} (f : A -> B) (kv : string * A) (o : list (string * A)) :
  insert_key (fst kv, f (snd kv)) (map (fun kv => (fst kv, f (snd kv))) o) = map (fun kv => (fst kv, f (snd kv))) (insert_key kv o).
Proof. induction o as [|x o IH]; cbn; [done|]. destruct (js_leb _ _); cbn; [done|]. by rewrite IH. Qed.
Lemma sort_keys_map {A B : Type} (f : A -> B) (o : list (string * A)) :
  sort_keys (map (fun kv => (fst kv, f (snd kv))) o) = map (fun kv => (fst kv, f (snd kv))) (sort_keys o).
Proof. unfold sort_keys. induction o as [|x o IH]; cbn; [done|]. by rewrite IH, insert_key_map. Qed.

Definition ct (v : value) : chars := default [] (canonical_chars v).

Lemma ct_arr (l : list value) : canonical_chars (VArr l) = Some ("["%char :: join_comma (map ct l) ++ ["]"%char]).
Proof. done. Qed.
Lemma ct_obj (o : list (string * value)) : Forall (fun kv => is_Some (canonical_chars (snd kv))) o ->
  canonical_chars (VObj o) = Some ("{"%char :: join_comma (map (laid_member ct [] []) (sort_keys o)) ++ ["}"%char]).
Proof.
  intros H. cbn [canonical_chars]. rewrite sort_keys_map, List.map_map. do 4 f_equal. rewrite <- sort_keys_perm in H. induction H as [|[k x] l [c Hc] _ IH]; [done|].
  cbn in *. rewrite IH. f_equal. unfold canonical_member, laid_member, ct. cbn. by rewrite Hc.
Qed.

Lemma canonical_opener (v : value) : json_data v -> canonical_chars v = Some (ct v) /\ exists c r, ct v = c :: r /\ opener c.
Proof.
  intros Hd. unfold ct. destruct v as [| |b|n|s|l|o]; try (change (canonical_chars _) with (print (VBool b))); try done;
    try (by destruct (pr_opener _ Hd) as [E (c & r & Er & Hc)]; cbn [canonical_chars]; rewrite E; split; [done|]; exists c, r).
  - split; [done|]. eexists _, _. split; [cbn; reflexivity|]. by intros r.
  - split; [done|]. eexists _, _. split; [cbn; reflexivity|]. by intros r.
Qed.

Lemma canonical_opener_elems (l : list value) (x : value) (r : chars) : json_data x ->
  exists c q, join_comma (map ct (x :: l)) ++ r = c :: q /\ opener c.
Proof. intros Hx. destruct (canonical_opener x Hx) as (_ & c & q & E & Hc). destruct l as [|y l]; cbn; rewrite E; cbn; eauto. Qed.
Lemma laid_opener (o : list (string * value)) (kv : string * value) (r : chars) :
  exists q, join_comma (map (laid_member ct [] []) (kv :: o)) ++ r = dquote :: q.
Proof. destruct o as [|kv' o]; cbn; eauto. Qed.
Lemma needs_perm (l l' : list value) : Permutation l l' -> needs l = needs l'.
Proof. induction 1; rewrite ?needs_cons; lia. Qed.
Lemma fold_put (f : value -> value) (o acc : list (string * value)) :
  fold_left put (map (fun kv => (fst kv, f (snd kv))) o) acc = fold_left (set_member f) o acc.
Proof. revert acc. induction o as [|kv o IH]; intros acc; cbn; [done|]. apply IH. Qed.

(** The canonical text reads back as the value with its keys in canonical order. *)
Lemma canonical_reads (v : value) : json_data v -> reads ct sorted_json v.
Proof.
  induction v as [| |b|n|s|l IH|o IH] using value_ind'; intros Hd fuel rest Hf Hr; try done; try exact (value_parses _ Hd fuel rest Hf Hr).
  all: destruct fuel as [|f]; [cbn in Hf; lia|].
  - rewrite need_arr in Hf. apply json_data_arr in Hd. unfold ct. rewrite ct_arr. cbn [default from_option id app]. rewrite <- app_assoc. cbn [parse_value]. punct.
    change (Ascii.eqb "[" dquote) with false. change (Ascii.eqb "[" "[") with true. cbv iota. cbn [app].
    destruct l as [|x l]; [done|]. destruct (canonical_opener_elems l x ("]"%char :: rest)) as (c & q & E & Hc); [by inversion Hd|].
    rewrite E, (proj1 (Hc q)), (proj1 (proj2 (Hc q))), <- E.
    pose proof (read_elems ct sorted_json [] [] blank_nil blank_nil l x rest) as H. cbn [app] in H. rewrite H; [done| |lia].
    rewrite List.Forall_forall in *. auto.
  - rewrite need_obj in Hf. apply json_data_obj in Hd as [Ho Hd]. unfold ct. rewrite ct_obj by (eapply Forall_impl; [exact Hd|]; intros kv Hk; by rewrite (proj1 (canonical_opener _ Hk))).
    cbn [default from_option id app]. rewrite <- app_assoc. cbn [parse_value]. punct.
    change (Ascii.eqb "{" dquote) with false. change (Ascii.eqb "{" "[") with false. change (Ascii.eqb "{" "{") with true. cbv iota. cbn [app].
    rewrite sorted_obj. unfold built, canonical_members. rewrite sort_keys_map. rewrite <- (sort_keys_perm o) in IH, Hd.
    rewrite (needs_perm _ _ (Permutation_map snd (Permutation_sym (sort_keys_perm o)))) in Hf.
    destruct (sort_keys o) as [|[k x] p]; [done|].
    destruct (laid_opener p (k, x) ("}"%char :: rest)) as (q & E). rewrite E. punct. rewrite <- E.
    pose proof (read_members ct sorted_json [] [] [] blank_nil blank_nil blank_nil p k x rest []) as H. cbn [app] in H. rewrite H; [|by rewrite List.Forall_forall in *; auto|lia].
    by rewrite fold_put.
Qed.

(** ** What a signature covers *)

Lemma canonical_text_inj (v w : value) : json_data v -> json_data w -> canonicalize v = canonicalize w -> same_json v w.
Proof.
  intros Hv Hw. unfold canonicalize. rewrite (proj1 (canonical_opener v Hv)), (proj1 (canonical_opener w Hw)). cbn. intros E. injection E as E.
  apply (f_equal list_ascii_of_string) in E. rewrite !list_ascii_of_string_of_list_ascii in E.
  pose proof (canonical_reads v Hv (need v + need w)%nat [] ltac:(lia) I) as Pv. pose proof (canonical_reads w Hw (need v + need w)%nat [] ltac:(lia) I) as Pw.
  rewrite E, Pw in Pv. injection Pv as Pv. by apply canonical_complete.
Qed.

Lemma canonical_chars_same (v w : value) : json_data v -> same_json v w -> canonical_chars v = canonical_chars w.
Proof.
  revert w. induction v as [| |b|n|s|l IH|o IH] using value_ind'; intros w Hd H; inversion H as [|? l' Hl|? o' p Hf Hp]; subst; try done.
  - cbn. do 3 f_equal. f_equal. apply json_data_arr in Hd. clear H. induction Hl as [|x y l l' Hxy _ IHl]; [done|]. cbn.
    apply Forall_cons_1 in IH as [IHx IH], Hd as [Hx Hd]. f_equal; [by rewrite (IHx y)|by apply IHl].
  - pose proof (json_distinct o Hd) as [Hdist _]. apply json_data_obj in Hd as [_ Hd].
    assert (map (fun kv => (fst kv, canonical_chars (snd kv))) o = map (fun kv => (fst kv, canonical_chars (snd kv))) p /\ map fst o = map fst p) as [E Ek].
    { clear Hdist H Hp. induction Hf as [|[k x] [k' y] o p [Hk Hxy] _ IHf]; [done|]. cbn in *. apply Forall_cons_1 in IH as [IHx IH], Hd as [Hx Hd]. cbn in *. subst k'.
      destruct (IHf IH Hd) as [-> ->]. by rewrite (IHx y). }
    cbn [canonical_chars]. do 3 f_equal. f_equal. f_equal. rewrite E, !sort_keys_map. f_equal. apply sort_keys_unique; [by rewrite <- Ek|done].
Qed.

Lemma same_text_iff (v w : value) : json_data v -> json_data w -> canonicalize v = canonicalize w <-> same_json v w.
Proof.
  intros Hv Hw. split; [by apply canonical_text_inj|]. intros H. unfold canonicalize. by rewrite (canonical_chars_same v w).
Qed.

Lemma canonical_some (v : value) : json_data v -> exists t, canonicalize v = Some t.
Proof. intros H. unfold canonicalize. rewrite (proj1 (canonical_opener v H)). cbn. eauto. Qed.

(** The text that is signed. *)
Definition signed_text (v : value) : string := default "undefined" (canonicalize v).

(** What the scheme must give for two texts: the public key reads, a signature of [text] is
    accepted for [text], and, if it is accepted for [other] too, then [other] is that
    text. *)
Record sound_for {K : SignatureScheme} (priv : string) (pub : value) (pk : PublicKey K) (text other : string) : Prop := {
  sf_public : public_key pub = Some pk;
  sf_accepts : forall sig, sign (s := K) priv text = Some sig -> check pk text (VStr sig) = Some true;
  sf_rejects : forall sig, sign (s := K) priv text = Some sig -> check pk other (VStr sig) = Some true -> other = text }.

(** C37. What a signature covers: the signature [signEnvelope] makes for an envelope
    verifies, attached to another envelope, exactly when that envelope without its
    signature is the signed one up to the order of object keys at every level; so a member
    added, dropped or changed anywhere is refused, and re-serialization is not.  This
    assumes that both envelopes are JSON data with integers below 10^21 as numbers, and of
    the signature scheme only that it accepts its signature for the signed text, and does
    not accept it for the text of the other envelope where that text is different. *)
Theorem signature_covers_envelope {K : SignatureScheme} (priv keyId : string) (pub : value) (pk : PublicKey K) (unsigned sig envelope : value) :
  sound_for priv pub pk (signed_text unsigned) (signed_text (without_signature envelope)) ->
  json_data unsigned -> json_data (without_signature envelope) ->
  signEnvelope (K := K) priv keyId unsigned = Some sig -> get "signature" envelope = sig ->
  verifyEnvelope (K := K) pub envelope = Some true <-> same_json (without_signature envelope) unsigned.
Proof.
  intros [Hpub Hacc Hrej] Hu He Hs Hsig. unfold signEnvelope in Hs. destruct (sign priv _) as [s|] eqn:Es; [|done]. injection Hs as <-.
  unfold verifyEnvelope. rewrite Hsig, Hpub. cbn [truthy typeof_object negb orb EnvelopeSignature]. change (get "alg" _) with (VStr "Ed25519").
  change (get "value" _) with (VStr s). change (strict_eq (VStr "Ed25519") (VStr "Ed25519")) with true. cbn [negb].
  specialize (Hacc s eq_refl). specialize (Hrej s eq_refl). fold (signed_text (without_signature envelope)). rewrite <- same_text_iff by done.
  destruct (canonical_some _ Hu) as [t Et], (canonical_some _ He) as [t' Et']. unfold signed_text in *. rewrite Et in *. rewrite Et' in *. cbn [from_option id mbind option_bind default] in *. split.
  - destruct (check pk t' (VStr s)) as [[]|]; cbn; intros H; try done. f_equal. by apply Hrej.
  - intros [= ->]. by rewrite Hacc.
Qed.

(** A scheme whose signature of a text is the key followed by the text. *)
Definition toy_scheme : SignatureScheme := {|
  PublicKey := string; sign := fun priv text => Some (priv +:+ text);
  public_key := fun v => match v with VStr s => Some s | _ => None end;
  check := fun pk text sig => match sig with VStr s => Some (s =s pk +:+ text) | _ => None end |}.

Lemma toy_sound (text other : string) : sound_for (K := toy_scheme) "k" (VStr "k") "k" text other.
Proof.
  split; [done|..]; cbn; intros sig [= <-]; rewrite eqb_str_dec; [by rewrite bool_decide_true|].
  intros [= H]. apply bool_decide_eq_true in H. cbn in H. by injection H.
Qed.

Definition demo_unsigned : value := VObj [("type", VStr "node_register"); ("node", VObj [("node_id", VStr "n1"); ("max_runs", VNum (NInt 2))])].
(** The same envelope with its keys in another order, and one with a member changed. *)
Definition demo_envelope (max_runs : Z) : value :=
  VObj [("node", VObj [("max_runs", VNum (NInt max_runs)); ("node_id", VStr "n1")]);
        ("signature", default VNull (signEnvelope (K := toy_scheme) "k" "n1" demo_unsigned)); ("type", VStr "node_register")].

Lemma signature_covers_envelope_witness :
  verifyEnvelope (K := toy_scheme) (VStr "k") (demo_envelope 2) = Some true
  /\ verifyEnvelope (K := toy_scheme) (VStr "k") (demo_envelope 3) = Some false
  /\ same_json (without_signature (demo_envelope 2)) demo_unsigned.
Proof.
  split; [vm_compute; reflexivity|]. split; [vm_compute; reflexivity|].
  apply (signature_covers_envelope (K := toy_scheme) "k" "n1" (VStr "k") "k" demo_unsigned (get "signature" (demo_envelope 2))); [apply toy_sound| | |vm_compute; reflexivity..];
    vm_compute; repeat split.
Defined.
