(* ===== verification/RelayState.v ===== *)
(** * The relay server: data and state (src/relay/server.ts, token.ts, pairing-store.ts)

    Messages are JSON values.  The relay's [Map]s are lists of entries in insertion order
    whose keys are JavaScript values: primitives compare by SameValueZero, objects by
    reference.  Two objects are the same reference only when they come from the same
    received message, so a key carries the number of the message it was read from.
    Sockets are numbers; what is sent on them is logged. *)

From S2P Require Import Prelude Machine Values Json JsonProps Contract Templates Verification Validator Outputs StoreRows Store StoreOps RuntimeEnv Workspace Crypto.

(** ** Conversions of the language *)

(** [`${v}`]: [None] where [ToPrimitive] throws a TypeError (an object whose own
    [toString] property hides the inherited function). *)
Fixpoint to_text (v : value) : option string :=
  match v with
  | VUndef => Some "undefined"
  | VNull => Some "null"
  | VBool b => Some (if b then "true" else "false")
  | VNum n => Some (num_to_string n)
  | VStr s => Some s
  | VArr l =>
      (fix go (l : list value) : option string :=
         match l with
         | [] => Some ""
         | x :: r =>
             a ← (if is_nullish x then Some "" else to_text x);
             match r with [] => Some a | _ => b ← go r; Some (a +:+ "," +:+ b) end
         end) l
  | VObj o => if has_own "toString" v then None else Some "[object Object]"
  end.

(** [n.toString(36)] for a natural number. *)
Definition digit36 (d : N) : ascii := if (d <? 10)%N then ascii_of_N (48 + d) else ascii_of_N (87 + d).
Fixpoint base36_go (fuel : nat) (n : N) (acc : chars) : chars :=
  match fuel with
  | O => acc
  | S f => let acc' := digit36 (n mod 36) :: acc in if (n <? 36)%N then acc' else base36_go f (n / 36) acc'
  end.
Definition toString36 (n : N) : string := string_of_list_ascii (base36_go (S (N.to_nat (N.log2 n))) n []).

(** [parseInt(s, 10)], exact: [None] is NaN. *)
Definition parseInt10 (s : string) : option Z :=
  let l := map ascii_of_N (drop_while_opt ws_head (String.length s) (bytes_of s)) in
  let '(neg, r) := match l with
                   | c :: r => if Ascii.eqb c "-" then (true, r) else if Ascii.eqb c "+" then (false, r) else (false, l)
                   | [] => (false, l) end in
  match fst (span_digits r) with
  | [] => None
  | d => let n := Z.of_N (digits_val d) in Some (if neg : bool then - n else n)
  end.

(** The calendar date of a day number (days since 1970-01-01). *)
Definition civil_from_days (z0 : Z) : Z * Z * Z :=
  let z := z0 + 719468 in
  let era := z / 146097 in
  let doe := z - era * 146097 in
  let yoe := (doe - doe / 1460 + doe / 36524 - doe / 146096) / 365 in
  let doy := doe - (365 * yoe + yoe / 4 - yoe / 100) in
  let mp := (5 * doy + 2) / 153 in
  let d := doy - (153 * mp + 2) / 5 + 1 in
  let m := if mp <? 10 then mp + 3 else mp - 9 in
  (yoe + era * 400 + (if m <=? 2 then 1 else 0), m, d).

(** A number in [k] decimal digits. *)
Definition padded (k : nat) (n : Z) : string :=
  let d := digits_of (Z.to_N n) in string_of_list_ascii (replicate (k - List.length d) "0"%char ++ d).

(** [new Date(ms).toISOString()] in the years 0 to 9999. *)
Definition toISOString (ms : Z) : string :=
  let '(y, m, d) := civil_from_days (ms / 86400000) in
  let t := ms mod 86400000 in
  padded 4 y +:+ "-" +:+ padded 2 m +:+ "-" +:+ padded 2 d +:+ "T" +:+ padded 2 (t / 3600000) +:+ ":" +:+ padded 2 (t / 60000 mod 60) +:+ ":"
  +:+ padded 2 (t / 1000 mod 60) +:+ "." +:+ padded 3 (t mod 1000) +:+ "Z".

Example toISOString_ex : toISOString 1709210096789 = "2024-02-29T12:34:56.789Z" /\ Date_parse (toISOString 253402300799999) = Some 253402300799999.
Proof. split; vm_compute; reflexivity. Qed.
Example toString36_ex : toString36 1709210096789 = "lt77k785" /\ parseInt10 " -12ab" = Some (-12).
Proof. split; vm_compute; reflexivity. Qed.

(** ** Keys and maps *)

(** A value read from the message of number [rf_msg]. *)
Record ref : Type := { rf_val : value; rf_msg : nat }.

(** What distinguishes keys: the primitive value, or the message an object came in. *)
Inductive key : Type :=
  | KUndef | KNull | KBool (b : bool) | KNum (n : num) | KStr (s : string) | KObj (message : nat).

#[global] Instance num_eq : EqDecision num.
Proof. solve_decision. Defined.
#[global] Instance key_eq : EqDecision key.
Proof. solve_decision. Defined.

Definition key_of (x : ref) : key :=
  match rf_val x with
  | VUndef => KUndef | VNull => KNull | VBool b => KBool b | VNum n => KNum n | VStr s => KStr s
  | VArr _ | VObj _ => KObj (rf_msg x)
  end.

Definition same_key (a b : ref) : bool := bool_decide (key_of a = key_of b).

Definition jsmap (A : Type) : Type := list (ref * A).

Section Maps.
Context {A : Type}.
Implicit Types (m : jsmap A) (k : ref).

Definition m_get k m : option A := snd <$> List.find (fun e => same_key (fst e) k) m.
(** [m.set(k, a)]: a present key keeps its place. *)
Definition m_set k (a : A) m : jsmap A :=
  if existsb (fun e => same_key (fst e) k) m then map (fun e => if same_key (fst e) k then (fst e, a) else e) m else m ++ [(k, a)].
Definition m_delete k m : jsmap A := List.filter (fun e => negb (same_key (fst e) k)) m.
End Maps.

(** [Set<WebSocket>]. *)
Definition set_add (ws : nat) (l : list nat) : list nat := if bool_decide (ws ∈ l) then l else l ++ [ws].
Definition set_remove (ws : nat) (l : list nat) : list nat := List.filter (fun x => negb (x =? ws)%nat) l.

(** [{ ...v, [k]: x }].  A spread array contributes its elements, a string its
    characters (its bytes here: the same for ASCII text). *)
Definition spread (v : value) : list (string * value) :=
  match v with
  | VObj o => o
  | VArr l => imap (fun i x => (zstr (Z.of_nat i), x)) l
  | VStr s => imap (fun i c => (zstr (Z.of_nat i), VStr (String c ""))) (lit s)
  | _ => []
  end.
Definition spread_with (v : value) (k : string) (x : value) : value := VObj (obj_set k x (spread v)).

(** ** State *)

Record NodeEntry : Type := { ne_node : value; ne_ws : nat; ne_registered_at : string; ne_last_heartbeat_at : string }.

(** The six tables of requests that wait for an answer, req_id to requesting socket. *)
Inductive PendingTable : Type := pendingReqs | pendingStops | pendingResults | pendingLeases | pendingStatuses | pendingApprovals.
#[global] Instance PendingTable_eq : EqDecision PendingTable.
Proof. solve_decision. Defined.
Definition all_pending : list PendingTable := [pendingReqs; pendingStops; pendingResults; pendingLeases; pendingStatuses; pendingApprovals].

Record RelayServerOpts : Type := {
  token : string; tokens : list string; staleOverride : option Z; requirePairing : bool; pairingsFile : bool }.

(** [rl_nodeId]: the variable nodeId of each connection (absent is null); [rl_open]: the
    sockets whose readyState is OPEN; [rl_file]: the text of the pairings file; [rl_sent]:
    what was sent, latest first; [rl_messages], [rl_sockets]: how many were received and
    accepted. *)
Record Relay : Type := {
  rl_registry : jsmap NodeEntry; rl_allConns : list nat; rl_pending : PendingTable -> jsmap nat; rl_runOwnership : jsmap ref;
  rl_subscribers : jsmap (list nat); rl_replayRefs : jsmap (nat * ref); rl_replaySeq : N; rl_terminalSubscribers : jsmap (list nat);
  rl_pairedIdentities : jsmap value; rl_nodeId : gmap nat ref; rl_open : gset nat; rl_file : option string;
  rl_sent : list (nat * value); rl_messages : nat; rl_sockets : nat }.

Definition set_rl_registry (x : jsmap NodeEntry) (r : Relay) : Relay :=
  {| rl_registry := x; rl_allConns := rl_allConns r; rl_pending := rl_pending r; rl_runOwnership := rl_runOwnership r; rl_subscribers
     := rl_subscribers r; rl_replayRefs := rl_replayRefs r; rl_replaySeq := rl_replaySeq r; rl_terminalSubscribers :=
     rl_terminalSubscribers r; rl_pairedIdentities := rl_pairedIdentities r; rl_nodeId := rl_nodeId r; rl_open := rl_open r; rl_file :=
     rl_file r; rl_sent := rl_sent r; rl_messages := rl_messages r; rl_sockets := rl_sockets r |}.
Definition set_rl_allConns (x : list nat) (r : Relay) : Relay :=
  {| rl_registry := rl_registry r; rl_allConns := x; rl_pending := rl_pending r; rl_runOwnership := rl_runOwnership r; rl_subscribers
     := rl_subscribers r; rl_replayRefs := rl_replayRefs r; rl_replaySeq := rl_replaySeq r; rl_terminalSubscribers :=
     rl_terminalSubscribers r; rl_pairedIdentities := rl_pairedIdentities r; rl_nodeId := rl_nodeId r; rl_open := rl_open r; rl_file :=
     rl_file r; rl_sent := rl_sent r; rl_messages := rl_messages r; rl_sockets := rl_sockets r |}.
Definition set_rl_pending (x : PendingTable -> jsmap nat) (r : Relay) : Relay :=
  {| rl_registry := rl_registry r; rl_allConns := rl_allConns r; rl_pending := x; rl_runOwnership := rl_runOwnership r; rl_subscribers
     := rl_subscribers r; rl_replayRefs := rl_replayRefs r; rl_replaySeq := rl_replaySeq r; rl_terminalSubscribers :=
     rl_terminalSubscribers r; rl_pairedIdentities := rl_pairedIdentities r; rl_nodeId := rl_nodeId r; rl_open := rl_open r; rl_file :=
     rl_file r; rl_sent := rl_sent r; rl_messages := rl_messages r; rl_sockets := rl_sockets r |}.
Definition set_rl_runOwnership (x : jsmap ref) (r : Relay) : Relay :=
  {| rl_registry := rl_registry r; rl_allConns := rl_allConns r; rl_pending := rl_pending r; rl_runOwnership := x; rl_subscribers :=
     rl_subscribers r; rl_replayRefs := rl_replayRefs r; rl_replaySeq := rl_replaySeq r; rl_terminalSubscribers :=
     rl_terminalSubscribers r; rl_pairedIdentities := rl_pairedIdentities r; rl_nodeId := rl_nodeId r; rl_open := rl_open r; rl_file :=
     rl_file r; rl_sent := rl_sent r; rl_messages := rl_messages r; rl_sockets := rl_sockets r |}.
Definition set_rl_subscribers (x : jsmap (list nat)) (r : Relay) : Relay :=
  {| rl_registry := rl_registry r; rl_allConns := rl_allConns r; rl_pending := rl_pending r; rl_runOwnership := rl_runOwnership r;
     rl_subscribers := x; rl_replayRefs := rl_replayRefs r; rl_replaySeq := rl_replaySeq r; rl_terminalSubscribers :=
     rl_terminalSubscribers r; rl_pairedIdentities := rl_pairedIdentities r; rl_nodeId := rl_nodeId r; rl_open := rl_open r; rl_file :=
     rl_file r; rl_sent := rl_sent r; rl_messages := rl_messages r; rl_sockets := rl_sockets r |}.
Definition set_rl_replayRefs (x : jsmap (nat * ref)) (r : Relay) : Relay :=
  {| rl_registry := rl_registry r; rl_allConns := rl_allConns r; rl_pending := rl_pending r; rl_runOwnership := rl_runOwnership r;
     rl_subscribers := rl_subscribers r; rl_replayRefs := x; rl_replaySeq := rl_replaySeq r; rl_terminalSubscribers :=
     rl_terminalSubscribers r; rl_pairedIdentities := rl_pairedIdentities r; rl_nodeId := rl_nodeId r; rl_open := rl_open r; rl_file :=
     rl_file r; rl_sent := rl_sent r; rl_messages := rl_messages r; rl_sockets := rl_sockets r |}.
Definition set_rl_replaySeq (x : N) (r : Relay) : Relay :=
  {| rl_registry := rl_registry r; rl_allConns := rl_allConns r; rl_pending := rl_pending r; rl_runOwnership := rl_runOwnership r;
     rl_subscribers := rl_subscribers r; rl_replayRefs := rl_replayRefs r; rl_replaySeq := x; rl_terminalSubscribers :=
     rl_terminalSubscribers r; rl_pairedIdentities := rl_pairedIdentities r; rl_nodeId := rl_nodeId r; rl_open := rl_open r; rl_file :=
     rl_file r; rl_sent := rl_sent r; rl_messages := rl_messages r; rl_sockets := rl_sockets r |}.
Definition set_rl_terminalSubscribers (x : jsmap (list nat)) (r : Relay) : Relay :=
  {| rl_registry := rl_registry r; rl_allConns := rl_allConns r; rl_pending := rl_pending r; rl_runOwnership := rl_runOwnership r;
     rl_subscribers := rl_subscribers r; rl_replayRefs := rl_replayRefs r; rl_replaySeq := rl_replaySeq r; rl_terminalSubscribers := x;
     rl_pairedIdentities := rl_pairedIdentities r; rl_nodeId := rl_nodeId r; rl_open := rl_open r; rl_file := rl_file r; rl_sent :=
     rl_sent r; rl_messages := rl_messages r; rl_sockets := rl_sockets r |}.
Definition set_rl_pairedIdentities (x : jsmap value) (r : Relay) : Relay :=
  {| rl_registry := rl_registry r; rl_allConns := rl_allConns r; rl_pending := rl_pending r; rl_runOwnership := rl_runOwnership r;
     rl_subscribers := rl_subscribers r; rl_replayRefs := rl_replayRefs r; rl_replaySeq := rl_replaySeq r; rl_terminalSubscribers :=
     rl_terminalSubscribers r; rl_pairedIdentities := x; rl_nodeId := rl_nodeId r; rl_open := rl_open r; rl_file := rl_file r; rl_sent
     := rl_sent r; rl_messages := rl_messages r; rl_sockets := rl_sockets r |}.
Definition set_rl_nodeId (x : gmap nat ref) (r : Relay) : Relay :=
  {| rl_registry := rl_registry r; rl_allConns := rl_allConns r; rl_pending := rl_pending r; rl_runOwnership := rl_runOwnership r;
     rl_subscribers := rl_subscribers r; rl_replayRefs := rl_replayRefs r; rl_replaySeq := rl_replaySeq r; rl_terminalSubscribers :=
     rl_terminalSubscribers r; rl_pairedIdentities := rl_pairedIdentities r; rl_nodeId := x; rl_open := rl_open r; rl_file := rl_file
     r; rl_sent := rl_sent r; rl_messages := rl_messages r; rl_sockets := rl_sockets r |}.
Definition set_rl_open (x : gset nat) (r : Relay) : Relay :=
  {| rl_registry := rl_registry r; rl_allConns := rl_allConns r; rl_pending := rl_pending r; rl_runOwnership := rl_runOwnership r;
     rl_subscribers := rl_subscribers r; rl_replayRefs := rl_replayRefs r; rl_replaySeq := rl_replaySeq r; rl_terminalSubscribers :=
     rl_terminalSubscribers r; rl_pairedIdentities := rl_pairedIdentities r; rl_nodeId := rl_nodeId r; rl_open := x; rl_file := rl_file
     r; rl_sent := rl_sent r; rl_messages := rl_messages r; rl_sockets := rl_sockets r |}.
Definition set_rl_file (x : option string) (r : Relay) : Relay :=
  {| rl_registry := rl_registry r; rl_allConns := rl_allConns r; rl_pending := rl_pending r; rl_runOwnership := rl_runOwnership r;
     rl_subscribers := rl_subscribers r; rl_replayRefs := rl_replayRefs r; rl_replaySeq := rl_replaySeq r; rl_terminalSubscribers :=
     rl_terminalSubscribers r; rl_pairedIdentities := rl_pairedIdentities r; rl_nodeId := rl_nodeId r; rl_open := rl_open r; rl_file :=
     x; rl_sent := rl_sent r; rl_messages := rl_messages r; rl_sockets := rl_sockets r |}.
Definition set_rl_sent (x : list (nat * value)) (r : Relay) : Relay :=
  {| rl_registry := rl_registry r; rl_allConns := rl_allConns r; rl_pending := rl_pending r; rl_runOwnership := rl_runOwnership r;
     rl_subscribers := rl_subscribers r; rl_replayRefs := rl_replayRefs r; rl_replaySeq := rl_replaySeq r; rl_terminalSubscribers :=
     rl_terminalSubscribers r; rl_pairedIdentities := rl_pairedIdentities r; rl_nodeId := rl_nodeId r; rl_open := rl_open r; rl_file :=
     rl_file r; rl_sent := x; rl_messages := rl_messages r; rl_sockets := rl_sockets r |}.
Definition set_rl_messages (x : nat) (r : Relay) : Relay :=
  {| rl_registry := rl_registry r; rl_allConns := rl_allConns r; rl_pending := rl_pending r; rl_runOwnership := rl_runOwnership r;
     rl_subscribers := rl_subscribers r; rl_replayRefs := rl_replayRefs r; rl_replaySeq := rl_replaySeq r; rl_terminalSubscribers :=
     rl_terminalSubscribers r; rl_pairedIdentities := rl_pairedIdentities r; rl_nodeId := rl_nodeId r; rl_open := rl_open r; rl_file :=
     rl_file r; rl_sent := rl_sent r; rl_messages := x; rl_sockets := rl_sockets r |}.
Definition set_rl_sockets (x : nat) (r : Relay) : Relay :=
  {| rl_registry := rl_registry r; rl_allConns := rl_allConns r; rl_pending := rl_pending r; rl_runOwnership := rl_runOwnership r;
     rl_subscribers := rl_subscribers r; rl_replayRefs := rl_replayRefs r; rl_replaySeq := rl_replaySeq r; rl_terminalSubscribers :=
     rl_terminalSubscribers r; rl_pairedIdentities := rl_pairedIdentities r; rl_nodeId := rl_nodeId r; rl_open := rl_open r; rl_file :=
     rl_file r; rl_sent := rl_sent r; rl_messages := rl_messages r; rl_sockets := x |}.

Definition getStaleMs (override : option Z) (env : option string) : Z :=
  match override with
  | Some v => v
  | None => match parseInt10 (default "" env) with Some v => if v <=? 0 then 15000 else v | None => 15000 end
  end.

(** ** Pairings on disk (src/relay/pairing-store.ts) *)

(** [JSON.stringify(v, null, 2)] of JSON data at an indentation. *)
Definition line (indent : nat) : chars := "010"%char :: replicate indent " "%char.
Fixpoint pretty (indent : nat) (v : value) : chars :=
  match v with
  | VArr (_ :: _ as l) =>
      "["%char :: join_comma (map (fun x => line (indent + 2) ++ pretty (indent + 2) x) l) ++ line indent ++ ["]"%char]
  | VObj (_ :: _ as o) =>
      "{"%char :: join_comma (map (fun kv => line (indent + 2) ++ quote (fst kv) ++ ":"%char :: " "%char :: pretty (indent + 2) (snd kv)) o)
      ++ line indent ++ ["}"%char]
  | _ => default (lit "null") (print v)
  end.

Definition loadPairings (raw : option string) : jsmap value :=
  match raw with
  | None => []
  | Some text =>
      match JSON_parse text with
      | None => []
      | Some parsed =>
          let pairings := get "pairings" parsed in
          if truthy pairings && typeof_object pairings then
            fold_left (fun m kv => if truthy (snd kv) && typeof_object (snd kv) then m_set {| rf_val := VStr (fst kv); rf_msg := 0 |} (snd kv) m else m)
              (spread pairings) []
          else []
      end
  end.

(** The text written; [None] where [Object.fromEntries] throws on a key. *)
Definition savePairings (pairings : jsmap value) : option string :=
  o ← foldl (fun acc e => o ← acc; k ← to_text (rf_val (fst e)); Some (obj_set k (snd e) o)) (Some []) pairings;
  Some (string_of_list_ascii (pretty 0 (VObj [("version", VNum (NInt 1)); ("pairings", VObj o)]))).

(** ** Tokens (src/relay/token.ts) *)

Record RelayTokenSources : Type := { tokenFile : option string; token_arg : option string }.

Inductive TokenError : Type := token_file_unreadable | token_file_empty | token_required.

Section Tokens.
(** [readFile]: [fs.readFileSync] of a path; [env]: [process.env]. *)
Context (readFile : string -> option string) (env : string -> option string).

Definition nonblank_token (o : option string) : option string := t ← o; if trim t =s "" then None else Some (trim t).

Definition resolveRelayToken (sources : RelayTokenSources) : result TokenError string :=
  match tokenFile sources with
  | Some path =>
      match readFile path with
      | None => Err token_file_unreadable
      | Some raw => if trim raw =s "" then Err token_file_empty else Ok (trim raw)
      end
  | None =>
      match nonblank_token (token_arg sources), nonblank_token (env "VIBE_RELAY_TOKEN") with
      | Some t, _ => Ok t
      | None, Some t => Ok t
      | None, None => Err token_required
      end
  end.

Definition token_add (v : option string) (out : list string) : list string :=
  match nonblank_token v with Some t => if t ∈b out then out else out ++ [t] | None => out end.

Definition resolveRelayServerTokens (sources : RelayTokenSources) : list string :=
  let out := match tokenFile sources with Some path => token_add (readFile path) [] | None => [] end in
  let out := token_add (token_arg sources) out in
  let out := match env "VIBE_RELAY_TOKENS" with
             | Some list => if list =s "" then out else fold_left (fun out part => token_add (Some part) out) (split_char "," list) out
             | None => out end in
  token_add (env "VIBE_RELAY_TOKEN_NEXT") (token_add (env "VIBE_RELAY_TOKEN_CURRENT") (token_add (env "VIBE_RELAY_TOKEN") out)).
End Tokens.

(** ** Reconnecting (src/relay/reconnect.ts) *)

Definition nextBackoffMs (attempt : Z) (baseMs capMs : option Z) : Z :=
  let base := default 1000 baseMs in
  let cap := default 30000 capMs in
  let n := if attempt <? 0 then 0 else attempt in
  Z.min (base * 2 ^ n) cap.
