(* ===== verification/Relay.v ===== *)
(** * The relay server: handlers (src/relay/server.ts)

    One definition per message the relay handles, the dispatch on the message's type, and
    the connection and close handlers.  A handler runs to completion without yielding, so
    it is a state transformer; it throws where the code would read a property of null or
    undefined, print an object without a string form, decode a bad key or fail to write
    the pairings file.  Nothing catches that error: the process ends. *)

From S2P Require Import Prelude Machine Values Json JsonProps Contract Templates Verification Validator Outputs StoreRows Store StoreOps RuntimeEnv Workspace Crypto RelayState.

Inductive Crash : Type := TypeError | KeyError | FileError.

Definition R (A : Type) : Type := ST Relay Crash A.

(** A received message and its number. *)
Record Msg : Type := { mg : value; mg_no : nat }.
Definition fld (k : string) (m : Msg) : ref := {| rf_val := get k (mg m); rf_msg := mg_no m |}.
Definition fv (k : string) (m : Msg) : value := get k (mg m).

Definition rendered (v : value) : R string := obtain (to_text v) TypeError.
(** [v.k] of a value that may be null or undefined. *)
Definition member_of (v : value) (k : string) : R value := if is_nullish v then raise TypeError else mret (get k v).

Definition sendMsg (ws : nat) (msg : value) : R unit :=
  update (fun r => if bool_decide (ws ∈ rl_open r) then set_rl_sent ((ws, msg) :: rl_sent r) r else r).
Definition fan_out (subs : list nat) (msg : value) : R unit := foldr (fun ws k => sendMsg ws msg;; k) (mret tt) subs.

Definition fn_set (t : PendingTable) (m : jsmap nat) (f : PendingTable -> jsmap nat) : PendingTable -> jsmap nat :=
  fun t' => if decide (t' = t) then m else f t'.
Definition pend (t : PendingTable) (req_id : ref) (ws : nat) : R unit :=
  update (fun r => set_rl_pending (fn_set t (m_set req_id ws (rl_pending r t)) (rl_pending r)) r).
Definition unpend (t : PendingTable) (req_id : ref) : R unit :=
  update (fun r => set_rl_pending (fn_set t (m_delete req_id (rl_pending r t)) (rl_pending r)) r).
Definition set_nodeId (ws : nat) (id : option ref) : R unit :=
  update (fun r => set_rl_nodeId (match id with Some x => <[ws := x]> (rl_nodeId r) | None => delete ws (rl_nodeId r) end) r).

Section Handlers.
Context {K : SignatureScheme} (opts : RelayServerOpts) (staleMs : Z).
(** The clock during the handler, and whether a write of the pairings file succeeds. *)
Context (ms : Z) (writable : bool).

Definition now : value := VStr (toISOString ms).
(** [{ version: 1, kind: 'plaintext', from: 'relay', to, ts: now(), type, ...fields }]. *)
Definition plaintext (to : value) (type : string) (fields : list (string * value)) : value :=
  VObj ([("version", VNum (NInt 1)); ("kind", VStr "plaintext"); ("from", VStr "relay"); ("to", to); ("ts", now); ("type", VStr type)] ++ fields).
Definition yes : value := VBool true.
Definition no : value := VBool false.

(** ** Requests and answers *)

(** Forward the request to the node; without one, refuse it and forget it. *)
Definition forward_or_refuse (t : PendingTable) (ws : nat) (m : Msg) (target : option NodeEntry) (refusal : R value) : R unit :=
  match target with
  | Some e => sendMsg (ne_ws e) (mg m)
  | None => msg ← refusal; sendMsg ws msg;; unpend t (fld "req_id" m)
  end.

(** A request to the node the message names. *)
Definition request_to (t : PendingTable) (ws : nat) (m : Msg) (node : ref) (refusal : R value) : R unit :=
  pend t (fld "req_id" m) ws;;
  target ← asks (fun r => m_get node (rl_registry r));
  forward_or_refuse t ws m target refusal.

(** [runOwnership.get(run_id)], when truthy. *)
Definition owner_of (run_id : ref) (r : Relay) : option ref :=
  o ← m_get run_id (rl_runOwnership r); if truthy (rf_val o) then Some o else None.

(** A request to the node that owns the run. *)
Definition request_to_owner (t : PendingTable) (ws : nat) (m : Msg) (refusal : string -> string -> value) : R unit :=
  pend t (fld "req_id" m) ws;;
  owner ← asks (owner_of (fld "run_id" m));
  match owner with
  | None => forward_or_refuse t ws m None (s ← rendered (fv "run_id" m); mret (refusal ("Run not found in relay: " +:+ s) "run_not_found"))
  | Some ownerId =>
      target ← asks (fun r => m_get ownerId (rl_registry r));
      forward_or_refuse t ws m target (s ← rendered (rf_val ownerId); mret (refusal ("Owning node is offline: " +:+ s) "node_offline"))
  end.

(** Hand an answer to the socket that asked, and forget the request. *)
Definition answer (t : PendingTable) (m : Msg) : R unit :=
  requester ← asks (fun r => m_get (fld "req_id" m) (rl_pending r t));
  match requester with
  | Some ws => sendMsg ws (mg m);; unpend t (fld "req_id" m)
  | None => mret tt
  end.

Definition run_refusal (type : string) (m : Msg) (error code : string) : value :=
  plaintext (fv "from" m) type [("req_id", fv "req_id" m); ("run_id", fv "run_id" m); ("ok", no); ("error", VStr error); ("code", VStr code)].
Definition start_refusal (m : Msg) : R value :=
  s ← rendered (fv "to" m);
  mret (plaintext (fv "from" m) "run_start_ack"
    [("req_id", fv "req_id" m); ("ok", no); ("error", VStr ("Node not found: " +:+ s)); ("code", VStr "node_not_found")]).
Definition approval_refusal (m : Msg) (message code : string) : value :=
  plaintext (fv "from" m) "relay_error" [("code", VStr code); ("message", VStr message)].
Definition session_refusal (type : string) (extra : list (string * value)) (m : Msg) : R value :=
  s ← rendered (fv "to" m);
  mret (plaintext (fv "from" m) type ([("req_id", fv "req_id" m); ("ok", no)] ++ extra
    ++ [("code", VStr "node_offline"); ("message", VStr ("Node not found: " +:+ s))])).
Definition lease_refusal (type code : string) (m : Msg) : R value :=
  s ← rendered (fv "node_id" m);
  mret (plaintext (fv "from" m) type
    [("req_id", fv "req_id" m); ("ok", no); ("error", VStr ("node offline or unknown: " +:+ s)); ("code", VStr code)]).

(** ** Encrypted envelopes: routed, never read *)

Definition on_encrypted (ws : nat) (m : Msg) : R unit :=
  let encType := fv "type" m in
  if is_str_lit encType "run_start" then request_to pendingReqs ws m (fld "to" m) (start_refusal m)
  else if is_str_lit encType "encrypted_run_event" then
    subs ← asks (fun r => m_get (fld "run_id" m) (rl_subscribers r)); fan_out (default [] subs) (mg m)
  else if is_str_lit encType "encrypted_run_stop_request" then request_to_owner pendingStops ws m (run_refusal "run_stop_ack" m)
  else if is_str_lit encType "encrypted_run_stop_ack" then answer pendingStops m
  else if is_str_lit encType "encrypted_approval_response" then request_to_owner pendingApprovals ws m (approval_refusal m)
  else if is_str_lit encType "encrypted_approval_response_ack" then answer pendingApprovals m
  else mret tt.

(** ** Pairing and registration *)

Definition persistPairings : R unit :=
  if pairingsFile opts then
    paired ← asks rl_pairedIdentities;
    text ← obtain (savePairings paired) TypeError;
    ensure writable FileError;;
    update (set_rl_file (Some text))
  else mret tt.

Definition on_node_pair_request (ws : nat) (m : Msg) : R unit :=
  pid ← member_of (fv "identity" m) "id";
  update (fun r => set_rl_pairedIdentities (m_set {| rf_val := pid; rf_msg := mg_no m |} (fv "identity" m) (rl_pairedIdentities r)) r);;
  persistPairings;;
  sendMsg ws (plaintext (fv "from" m) "node_pair_ack" [("node_id", pid); ("ok", yes)]).

(** Is the registration backed by a pairing, when pairings are required? *)
Definition registration_proved (id : ref) (m : Msg) : R bool :=
  if requirePairing opts then
    identity ← asks (fun r => m_get id (rl_pairedIdentities r));
    match identity with
    | None => mret false
    | Some identity =>
        if negb (truthy identity) then mret false else
        if negb (truthy (fv "signature" m)) then mret false else
        obtain (verifyEnvelope (K := K) (get "signing_public_key" identity) (mg m)) KeyError
    end
  else mret true.

Definition on_node_register (ws : nat) (m : Msg) : R unit :=
  v ← member_of (fv "node" m) "node_id";
  let id := {| rf_val := v; rf_msg := mg_no m |} in
  set_nodeId ws (Some id);;
  proved ← registration_proved id m;
  if proved : bool then
    update (fun r => set_rl_registry (m_set id {| ne_node := spread_with (fv "node" m) "transport" (VStr "relay"); ne_ws := ws;
                                                  ne_registered_at := toISOString ms; ne_last_heartbeat_at := toISOString ms |} (rl_registry r)) r);;
    sendMsg ws (plaintext v "node_register_ack" [("node_id", v); ("ok", yes)])
  else
    sendMsg ws (plaintext (fv "from" m) "node_register_ack" [("node_id", v); ("ok", no)]);;
    set_nodeId ws None.

Definition beat (active_runs : value) (e : NodeEntry) : NodeEntry :=
  {| ne_node := spread_with (ne_node e) "active_runs" active_runs; ne_ws := ne_ws e; ne_registered_at := ne_registered_at e;
     ne_last_heartbeat_at := toISOString ms |}.
Definition on_node_heartbeat (ws : nat) (m : Msg) : R unit :=
  update (fun r => match m_get (fld "node_id" m) (rl_registry r) with
                   | Some e => set_rl_registry (m_set (fld "node_id" m) (beat (fv "active_runs" m) e) (rl_registry r)) r
                   | None => r end);;
  sendMsg ws (plaintext (fv "node_id" m) "node_heartbeat_ack" [("node_id", fv "node_id" m)]).

(** [age < staleMs]: comparing with NaN is false. *)
Definition is_fresh (e : NodeEntry) : bool :=
  match Date_parse (ne_last_heartbeat_at e) with Some t => ms - t <? staleMs | None => false end.
Definition listed_node (e : NodeEntry) : value := spread_with (ne_node e) "status" (VStr (if is_fresh e then "online" else "offline")).
Definition on_node_list_request (ws : nat) (m : Msg) : R unit :=
  nodes ← asks (fun r => map (fun e => listed_node (snd e)) (rl_registry r));
  sendMsg ws (plaintext (fv "from" m) "node_list_response" [("nodes", VArr nodes)]).

(** ** Streams *)

Definition subscribe (id : ref) (ws : nat) (m : jsmap (list nat)) : jsmap (list nat) := m_set id (set_add ws (default [] (m_get id m))) m.

Definition on_run_stream_subscribe (ws : nat) (m : Msg) : R unit :=
  let run_id := fld "run_id" m in
  let acked := plaintext (fv "from" m) "run_stream_subscribe_ack" [("run_id", fv "run_id" m); ("ok", yes)] in
  owner ← asks (fun r => ownerId ← owner_of run_id r; e ← m_get ownerId (rl_registry r); Some (ownerId, e));
  match owner with
  | Some (ownerId, e) =>
      if is_undef (fv "after_sequence" m) then
        update (fun r => set_rl_subscribers (subscribe run_id ws (rl_subscribers r)) r);; sendMsg ws acked
      else
        seq ← asks rl_replaySeq;
        let ref := VStr ("sr_" +:+ toString36 (Z.to_N ms) +:+ "_" +:+ toString36 seq) in
        update (set_rl_replaySeq (seq + 1));;
        update (fun r => set_rl_replayRefs (m_set {| rf_val := ref; rf_msg := mg_no m |} (ws, run_id) (rl_replayRefs r)) r);;
        sendMsg ws acked;;
        sendMsg (ne_ws e) (plaintext (rf_val ownerId) "run_replay_open"
          [("run_id", fv "run_id" m); ("after_sequence", fv "after_sequence" m); ("subscriber_ref", ref)])
  | None => update (fun r => set_rl_subscribers (subscribe run_id ws (rl_subscribers r)) r);; sendMsg ws acked
  end.

Definition on_run_event (m : Msg) : R unit :=
  subs ← asks (fun r => m_get (fld "run_id" m) (rl_subscribers r)); fan_out (default [] subs) (mg m).

Definition on_run_replay (m : Msg) : R unit :=
  entry ← asks (fun r => m_get (fld "subscriber_ref" m) (rl_replayRefs r));
  match entry with Some (ws, _) => sendMsg ws (mg m) | None => mret tt end.

Definition on_terminal_open (ws : nat) (m : Msg) : R unit :=
  update (fun r => set_rl_terminalSubscribers (subscribe (fld "session_id" m) ws (rl_terminalSubscribers r)) r);;
  target ← asks (fun r => m_get (fld "to" m) (rl_registry r));
  match target with
  | None =>
      s ← rendered (fv "to" m);
      sendMsg ws (plaintext (fv "from" m) "terminal_error"
        [("session_id", fv "session_id" m); ("code", VStr "node_offline"); ("message", VStr ("Node not found: " +:+ s))])
  | Some e => sendMsg (ne_ws e) (mg m)
  end.
Definition on_terminal_to_node (m : Msg) : R unit :=
  target ← asks (fun r => m_get (fld "to" m) (rl_registry r));
  match target with Some e => sendMsg (ne_ws e) (mg m) | None => mret tt end.
Definition on_terminal_from_node (m : Msg) : R unit :=
  subs ← asks (fun r => m_get (fld "session_id" m) (rl_terminalSubscribers r)); fan_out (default [] subs) (mg m).

(** ** Runs *)

Definition on_run_start_ack (m : Msg) : R unit :=
  answer pendingReqs m;;
  if truthy (fv "ok" m) && truthy (fv "record" m) then
    update (fun r => set_rl_runOwnership (m_set {| rf_val := get "run_id" (fv "record" m); rf_msg := mg_no m |} (fld "from" m) (rl_runOwnership r)) r)
  else mret tt.

Definition on_default (ws : nat) (m : Msg) : R unit :=
  match fv "req_id" m with
  | VStr reqId =>
      if reqId =s "" then mret tt else
      t ← rendered (if is_nullish (fv "type" m) then VStr "unknown" else fv "type" m);
      sendMsg ws (plaintext (if is_nullish (fv "from" m) then VStr "cli" else fv "from" m) "relay_error"
        [("req_id", VStr reqId); ("ok", no); ("error", VStr ("unsupported request type: " +:+ t)); ("code", VStr "unsupported_request")])
  | _ => mret tt
  end.

(** ** Requests by type *)

Definition on_terminal_session_list (ws : nat) (m : Msg) : R unit :=
  request_to pendingReqs ws m (fld "to" m) (session_refusal "terminal_session_list_ack" [("sessions", VArr [])] m).
Definition on_terminal_session_kill (ws : nat) (m : Msg) : R unit :=
  request_to pendingReqs ws m (fld "to" m) (session_refusal "terminal_session_kill_ack" [] m).
Definition on_run_start (ws : nat) (m : Msg) : R unit := request_to pendingReqs ws m (fld "to" m) (start_refusal m).
Definition on_run_stop_request (ws : nat) (m : Msg) : R unit := request_to_owner pendingStops ws m (run_refusal "run_stop_ack" m).
Definition on_run_status_request (ws : nat) (m : Msg) : R unit := request_to_owner pendingStatuses ws m (run_refusal "run_status_ack" m).
Definition on_run_result_request (ws : nat) (m : Msg) : R unit := request_to_owner pendingResults ws m (run_refusal "run_result_ack" m).
Definition on_workspace_lease (ws : nat) (m : Msg) : R unit :=
  request_to pendingLeases ws m (fld "node_id" m) (lease_refusal "workspace_lease_ack" "workspace_lease_unavailable" m).
Definition on_workspace_revision_observe (ws : nat) (m : Msg) : R unit :=
  request_to pendingLeases ws m (fld "node_id" m) (lease_refusal "workspace_revision_ack" "workspace_revision_unavailable" m).

(** The cases of [switch (msg.type)]. *)
Definition cases : list (string * (nat -> Msg -> R unit)) :=
  [ ("node_pair_request", on_node_pair_request);
    ("node_register", on_node_register);
    ("node_heartbeat", on_node_heartbeat);
    ("node_list_request", on_node_list_request);
    ("run_stream_subscribe", on_run_stream_subscribe);
    ("run_event", fun _ m => on_run_event m);
    ("run_replay_meta", fun _ m => on_run_replay m);
    ("run_replay_event", fun _ m => on_run_replay m);
    ("terminal_open", on_terminal_open);
    ("terminal_input", fun _ m => on_terminal_to_node m);
    ("terminal_resize", fun _ m => on_terminal_to_node m);
    ("terminal_close", fun _ m => on_terminal_to_node m);
    ("terminal_open_ack", fun _ m => on_terminal_from_node m);
    ("terminal_output", fun _ m => on_terminal_from_node m);
    ("terminal_error", fun _ m => on_terminal_from_node m);
    ("terminal_session_list", on_terminal_session_list);
    ("terminal_session_kill", on_terminal_session_kill);
    ("terminal_session_list_ack", fun _ m => answer pendingReqs m);
    ("terminal_session_kill_ack", fun _ m => answer pendingReqs m);
    ("run_start", on_run_start);
    ("run_start_ack", fun _ m => on_run_start_ack m);
    ("run_stop_request", on_run_stop_request);
    ("run_stop_ack", fun _ m => answer pendingStops m);
    ("run_status_request", on_run_status_request);
    ("run_status_ack", fun _ m => answer pendingStatuses m);
    ("run_result_request", on_run_result_request);
    ("run_result_ack", fun _ m => answer pendingResults m);
    ("workspace_lease_acquire", on_workspace_lease);
    ("workspace_lease_get", on_workspace_lease);
    ("workspace_lease_release", on_workspace_lease);
    ("workspace_revision_observe", on_workspace_revision_observe);
    ("workspace_lease_ack", fun _ m => answer pendingLeases m);
    ("workspace_revision_ack", fun _ m => answer pendingLeases m) ].

Definition case_of (type : value) : option (nat -> Msg -> R unit) :=
  match type with VStr t => snd <$> List.find (fun c => fst c =s t) cases | _ => None end.

Definition on_plaintext (ws : nat) (m : Msg) : R unit :=
  match case_of (fv "type" m) with Some h => h ws m | None => on_default ws m end.

(** [ws.on('message')]: text that is not JSON is ignored, JSON null has no property kind. *)
Definition on_message (ws : nat) (raw : string) : R unit :=
  match JSON_parse raw with
  | None => mret tt
  | Some msg =>
      n ← asks rl_messages;
      update (set_rl_messages (S n));;
      kind ← member_of msg "kind";
      let m := {| mg := msg; mg_no := S n |} in
      if is_str_lit kind "encrypted" then on_encrypted ws m else on_plaintext ws m
  end.

(** ** Connections *)

(** [subs.delete(ws)] for every set; an emptied set leaves the map. *)
Definition drop_subscriber (ws : nat) (m : jsmap (list nat)) : jsmap (list nat) :=
  List.filter (fun e => match snd e with [] => false | _ => true end) (map (fun e => (fst e, set_remove ws (snd e))) m).

(** The node that owns a replayed run is told that its subscriber is gone. *)
Definition close_replay (ws : nat) (e : ref * (nat * ref)) : R unit :=
  if negb (fst (snd e) =? ws)%nat then mret tt else
  owner ← asks (fun r => ownerId ← owner_of (snd (snd e)) r; n ← m_get ownerId (rl_registry r); Some (ownerId, n));
  (match owner with
   | Some (ownerId, n) =>
       sendMsg (ne_ws n) (plaintext (rf_val ownerId) "run_replay_close" [("run_id", rf_val (snd (snd e))); ("subscriber_ref", rf_val (fst e))])
   | None => mret tt
   end);;
  update (fun r => set_rl_replayRefs (m_delete (fst e) (rl_replayRefs r)) r).

(** [nodeId && registry.get(nodeId)?.ws === ws]. *)
Definition registered_here (ws : nat) (r : Relay) : option ref :=
  id ← rl_nodeId r !! ws;
  if truthy (rf_val id) then e ← m_get id (rl_registry r); if (ne_ws e =? ws)%nat then Some id else None else None.

(** [ws.on('close')]. *)
Definition on_close (ws : nat) : R unit :=
  update (fun r => set_rl_open (rl_open r ∖ {[ws]}) (set_rl_allConns (set_remove ws (rl_allConns r)) r));;
  update (fun r => match registered_here ws r with Some id => set_rl_registry (m_delete id (rl_registry r)) r | None => r end);;
  update (fun r => set_rl_pending (fun t => List.filter (fun e => negb (snd e =? ws)%nat) (rl_pending r t)) r);;
  update (fun r => set_rl_subscribers (drop_subscriber ws (rl_subscribers r)) r);;
  refs ← asks rl_replayRefs;
  foldr (fun e k => close_replay ws e;; k) (mret tt) refs;;
  update (fun r => set_rl_terminalSubscribers (drop_subscriber ws (rl_terminalSubscribers r)) r).
End Handlers.

Definition acceptedTokens (opts : RelayServerOpts) : list string := List.filter (fun t => negb (t =s "")) (token opts :: tokens opts).
(** [presented]: the token parameter of the request's URL; [None] when there is none or
    the URL does not parse. *)
Definition verifyClient (opts : RelayServerOpts) (presented : option string) : bool :=
  match presented with Some t => t ∈b acceptedTokens opts | None => false end.

(** [wss.on('connection')] with a new socket. *)
Definition on_connection : R nat :=
  ws ← asks rl_sockets;
  update (set_rl_sockets (S ws));;
  update (fun r => set_rl_open ({[ws]} ∪ rl_open r) (set_rl_allConns (set_add ws (rl_allConns r)) r));;
  mret ws.

(** ** Runs of the relay *)

(** What happens to the process: an upgrade request with the token it presents, a frame,
    a socket that leaves the state OPEN, a closed socket.  [ms] is the clock, [writable]
    whether the pairings file can be written. *)
Inductive RelayInput : Type :=
  | Upgrade (presented : option string)
  | Frame (ws : nat) (raw : string) (ms : Z) (writable : bool)
  | Closing (ws : nat)
  | Closed (ws : nat) (ms : Z).

Definition relay_step {K : SignatureScheme} (opts : RelayServerOpts) (staleMs : Z) (i : RelayInput) : R unit :=
  match i with
  | Upgrade presented => if verifyClient opts presented then on_connection;; mret tt else mret tt
  | Frame ws raw ms writable =>
      live ← asks (fun r => bool_decide (ws ∈ rl_allConns r));
      if live : bool then on_message (K := K) opts staleMs ms writable ws raw else mret tt
  | Closing ws => update (fun r => set_rl_open (rl_open r ∖ {[ws]}) r)
  | Closed ws ms =>
      live ← asks (fun r => bool_decide (ws ∈ rl_allConns r));
      if live : bool then on_close ms ws else mret tt
  end.

(** [startRelayServer] with the pairings file it finds. *)
Definition startRelayServer (opts : RelayServerOpts) (file : option string) : Relay := {|
  rl_registry := []; rl_allConns := []; rl_pending := fun _ => []; rl_runOwnership := []; rl_subscribers := []; rl_replayRefs := [];
  rl_replaySeq := 0; rl_terminalSubscribers := []; rl_pairedIdentities := if pairingsFile opts then loadPairings file else [];
  rl_nodeId := ∅; rl_open := ∅; rl_file := file; rl_sent := []; rl_messages := 0; rl_sockets := 0 |}.
