(* ===== verification/RelayProps.v ===== *)
(** * The relay: maps, frames of the handlers, runs *)

From S2P Require Import Prelude Machine Values Json JsonProps Contract Templates Verification Validator Outputs StoreRows Store StoreOps RuntimeEnv Workspace Crypto RelayState Relay.

#[global] Arguments m_get {A} k m : simpl never.
#[global] Arguments m_set {A} k a m : simpl never.
#[global] Arguments m_delete {A} k m : simpl never.
#[global] Arguments owner_of run_id r : simpl never.

(** ** Maps *)

Lemma same_key_spec (a b : ref) : same_key a b = true <-> key_of a = key_of b.
Proof. unfold same_key. by rewrite bool_decide_eq_true. Qed.
Lemma same_key_refl (a : ref) : same_key a a = true.
Proof. by apply same_key_spec. Qed.

Section Maps.
Context {A : Type}.
Implicit Types (m : jsmap A) (k : ref) (e : ref * A).

Lemma m_get_in k m (a : A) : m_get k m = Some a -> exists k', In (k', a) m /\ key_of k' = key_of k.
Proof.
  unfold m_get. destruct (List.find _ m) as [[k' x]|] eqn:E; [|done]. intros [= ->]. apply List.find_some in E as [Hin Hk].
  exists k'. split; [done|]. by apply same_key_spec in Hk.
Qed.
Lemma m_get_none k m : m_get k m = None <-> (forall e, In e m -> key_of (fst e) <> key_of k).
Proof.
  unfold m_get. destruct (List.find _ m) as [x|] eqn:E; cbn; split; intros H; try done.
  - apply List.find_some in E as [Hin Hk]. apply same_key_spec in Hk. by destruct (H x Hin).
  - intros e He Hk. pose proof (List.find_none _ _ E e He) as Hn. cbn in Hn. apply same_key_spec in Hk. congruence.
Qed.
Lemma m_get_key k k' m : key_of k = key_of k' -> m_get k m = m_get k' m.
Proof. intros H. unfold m_get, same_key. by rewrite H. Qed.

Lemma in_m_set k (a : A) m e : In e (m_set k a m) -> (key_of (fst e) = key_of k /\ snd e = a) \/ (In e m /\ key_of (fst e) <> key_of k).
Proof.
  unfold m_set. destruct (existsb _ m) eqn:E.
  - intros (x & <- & Hx)%in_map_iff. destruct (same_key (fst x) k) eqn:Ek; [left; by apply same_key_spec in Ek|right].
    split; [done|]. intros H%same_key_spec. congruence.
  - rewrite existsb_false in E. intros [H|[<-|[]]]%in_app_or; [right|by left]. split; [done|]. intros Hk%same_key_spec. by rewrite E in Hk.
Qed.
Lemma in_m_delete k m e : In e (m_delete k m) <-> In e m /\ key_of (fst e) <> key_of k.
Proof.
  unfold m_delete. rewrite List.filter_In. destruct (same_key (fst e) k) eqn:E; cbn.
  - apply same_key_spec in E. by split; intros [? ?].
  - split; intros [H1 H2]; split; try done. intros Hk%same_key_spec. congruence.
Qed.
Lemma m_get_set k k' (a : A) m : m_get k (m_set k' a m) = if decide (key_of k = key_of k') then Some a else m_get k m.
Proof.
  case_decide as Hk.
  - rewrite (m_get_key k k') by done. unfold m_set. destruct (existsb _ m) eqn:E.
    + unfold m_get. induction m as [|e m IH]; cbn in *; [done|]. destruct (same_key (fst e) k') eqn:Ee; cbn; rewrite Ee; [done|by apply IH].
    + unfold m_get. induction m as [|e m IH]; cbn in *; [by rewrite same_key_refl|]. apply orb_false_iff in E as [-> E]. by apply IH.
  - destruct (m_get k m) as [x|] eqn:E.
    + unfold m_get, m_set in *. destruct (existsb _ m).
      * induction m as [|e m IH]; cbn in *; [done|]. destruct (same_key (fst e) k') eqn:Ee; cbn.
        -- assert (same_key (fst e) k = false) as En by (apply same_key_spec in Ee; unfold same_key; apply bool_decide_eq_false; congruence). rewrite En in *. by apply IH.
        -- destruct (same_key (fst e) k); [done|by apply IH].
      * induction m as [|e m IH]; cbn in *; [done|]. destruct (same_key (fst e) k); [done|by apply IH].
    + apply m_get_none. rewrite m_get_none in E. intros e He Hke. apply in_m_set in He as [[H1 _]|[H1 _]]; [congruence|by apply (E e)].
Qed.
Lemma m_get_delete k k' m : key_of k = key_of k' -> m_get k (m_delete k' m) = None.
Proof. intros H. apply m_get_none. intros e He. apply in_m_delete in He as [_ He]. congruence. Qed.
Lemma m_get_delete_other k k' m : key_of k <> key_of k' -> m_get k (m_delete k' m) = m_get k m.
Proof.
  intros H. unfold m_get, m_delete. f_equal. induction m as [|e m IH]; cbn; [done|]. destruct (same_key (fst e) k') eqn:E'; cbn.
  - destruct (same_key (fst e) k) eqn:E; [|done]. apply same_key_spec in E, E'. congruence.
  - by destruct (same_key (fst e) k).
Qed.
Lemma m_get_filter k m (a : A) (p : A -> bool) : m_get k m = Some a -> p a = true -> m_get k (List.filter (fun e => p (snd e)) m) = Some a.
Proof.
  unfold m_get. intros H Hp. induction m as [|e m IH]; cbn in *; [done|]. destruct (same_key (fst e) k) eqn:E; cbn in H.
  - injection H as <-. rewrite Hp. cbn. by rewrite E.
  - destruct (p (snd e)); cbn; [rewrite E|]; by apply IH.
Qed.
End Maps.

(** ** Running *)

Lemma run_update {B : Type} (g : Relay -> Relay) (k : unit -> R B) (r : Relay) : ((update g : R unit) ≫= k) r = k tt (g r).
Proof. done. Qed.
Lemma run_asks {A B : Type} (g : Relay -> A) (k : A -> R B) (r : Relay) : ((asks g : R A) ≫= k) r = k (g r) r.
Proof. done. Qed.

Lemma relay_ret {A B : Type} (a : A) (k : A -> R B) (r : Relay) : ((mret a : R A) ≫= k) r = k a r.
Proof. done. Qed.

(** ** What the handlers leave alone *)

(** [Frames f m]: running [m] does not change [f]. *)
Definition Frames {X A : Type} (f : Relay -> X) (m : R A) : Prop := forall r, f (snd (m r)) = f r.

Section Frames.
Context {X : Type} (f : Relay -> X).

Lemma frames_holds {A : Type} (m : R A) : (forall c, Holds (fun r => f r = c) m) -> Frames f m.
Proof. intros H r. by apply (H (f r)). Qed.
End Frames.

(** Projections that sending and the tables of requests do not touch. *)
Class Apart {X : Type} (f : Relay -> X) : Prop := {
  apart_sent : forall x r, f (set_rl_sent x r) = f r;
  apart_messages : forall x r, f (set_rl_messages x r) = f r }.
Class ApartPending {X : Type} (f : Relay -> X) : Prop := apart_pending : forall x r, f (set_rl_pending x r) = f r.

#[global] Instance apart_registry : Apart rl_registry := ltac:(by split).
#[global] Instance apart_conns : Apart rl_allConns := ltac:(by split).
#[global] Instance apart_pend : Apart rl_pending := ltac:(by split).
#[global] Instance apart_paired : Apart rl_pairedIdentities := ltac:(by split).
#[global] Instance apart_open : Apart rl_open := ltac:(by split).
#[global] Instance apart_node : Apart rl_nodeId := ltac:(by split).
#[global] Instance pending_registry : ApartPending rl_registry := ltac:(done).
#[global] Instance pending_conns : ApartPending rl_allConns := ltac:(done).
#[global] Instance pending_paired : ApartPending rl_pairedIdentities := ltac:(done).
#[global] Instance pending_open : ApartPending rl_open := ltac:(done).

Section Leaves.
Context {X : Type} (f : Relay -> X) (c : X).

#[global] Instance holds_sendMsg (ws : nat) (msg : value) : Apart f -> Holds (fun r => f r = c) (sendMsg ws msg).
Proof. intros H r Hr. unfold sendMsg, update. cbn. case_bool_decide; [by rewrite apart_sent|done]. Qed.
#[global] Instance holds_fan_out (subs : list nat) (msg : value) : Apart f -> Holds (fun r => f r = c) (fan_out subs msg).
Proof. intros H. unfold fan_out. induction subs as [|ws subs IH]; cbn; [apply _|]. apply holds_bind; [apply _|]. by intros _. Qed.
#[global] Instance holds_pend (t : PendingTable) (k : ref) (ws : nat) : ApartPending f -> Holds (fun r => f r = c) (pend t k ws).
Proof. intros H r Hr. unfold pend, update. cbn. by rewrite apart_pending. Qed.
#[global] Instance holds_unpend (t : PendingTable) (k : ref) : ApartPending f -> Holds (fun r => f r = c) (unpend t k).
Proof. intros H r Hr. unfold unpend, update. cbn. by rewrite apart_pending. Qed.
#[global] Instance holds_rendered (v : value) : Holds (fun r => f r = c) (rendered v).
Proof. unfold rendered. apply _. Qed.
#[global] Instance holds_member_of (v : value) (k : string) : Holds (fun r => f r = c) (member_of v k).
Proof. unfold member_of. destruct (is_nullish v); apply _. Qed.
End Leaves.

(** An update that does not concern the projection. *)
Lemma holds_update {X : Type} (f : Relay -> X) (c : X) (g : Relay -> Relay) : (forall r, f (g r) = f r) -> Holds (fun r => f r = c) (update g : R unit).
Proof. intros H r Hr. unfold update. cbn. by rewrite H. Qed.

Ltac framed :=
  repeat first
    [ progress intros
    | apply _
    | lazymatch goal with
      | |- Holds _ (update _) => apply holds_update; intros ?; try reflexivity; repeat case_match; reflexivity
      | |- Holds _ (_ ≫= _) => apply holds_bind
      | |- Holds _ (match ?x with _ => _ end) => destruct x eqn:?
      | |- Holds _ (let _ := _ in _) => cbv zeta
      | |- Holds _ ?m => let h := head_sym m in unfold h
      end ].

Section Handlers.
Context {K : SignatureScheme} (opts : RelayServerOpts) (staleMs ms : Z) (writable : bool).

Lemma registry_frames : Forall (fun c => ~ In (fst c) ["node_register"; "node_heartbeat"] -> forall ws m k, Holds (fun r => rl_registry r = k) (snd c ws m))
  (cases (K := K) opts staleMs ms writable).
Proof. unfold cases. repeat constructor; cbn [fst snd]; intros Hn; try (exfalso; apply Hn; cbn; tauto); framed. Qed.
Lemma paired_frames : Forall (fun c => ~ In (fst c) ["node_pair_request"] -> forall ws m k, Holds (fun r => rl_pairedIdentities r = k) (snd c ws m))
  (cases (K := K) opts staleMs ms writable).
Proof. unfold cases. repeat constructor; cbn [fst snd]; intros Hn; try (exfalso; apply Hn; cbn; tauto); framed. Qed.
Lemma conns_frames : Forall (fun c => forall ws m k, Holds (fun r => rl_allConns r = k) (snd c ws m)) (cases (K := K) opts staleMs ms writable).
Proof. unfold cases. repeat constructor; cbn [fst snd]; framed. Qed.
End Handlers.
