(* ===== verification/RelayRequests.v ===== *)
(** * The relay: requests and answers

    A request goes to the node it addresses or is refused at once; an answer goes to the
    socket that asked last under its req_id, if it is still connected, and only once. *)

From S2P Require Import Prelude Machine Values Json JsonProps Contract Templates Verification Validator Outputs StoreRows Store StoreOps RuntimeEnv Workspace Crypto RelayState Relay RelayProps.

(** ** The protocol: which messages are requests, which are answers *)

(** How the node is found: by the message's [to], by its [node_id], as owner of [run_id]. *)
Inductive Route : Type := ByTo | ByNode | ByOwner.

Definition plain_requests : list (string * (PendingTable * Route)) :=
  [ ("terminal_session_list", (pendingReqs, ByTo)); ("terminal_session_kill", (pendingReqs, ByTo)); ("run_start", (pendingReqs, ByTo));
    ("run_stop_request", (pendingStops, ByOwner)); ("run_status_request", (pendingStatuses, ByOwner)); ("run_result_request", (pendingResults, ByOwner));
    ("workspace_lease_acquire", (pendingLeases, ByNode)); ("workspace_lease_get", (pendingLeases, ByNode));
    ("workspace_lease_release", (pendingLeases, ByNode)); ("workspace_revision_observe", (pendingLeases, ByNode)) ].
Definition encrypted_requests : list (string * (PendingTable * Route)) :=
  [ ("run_start", (pendingReqs, ByTo)); ("encrypted_run_stop_request", (pendingStops, ByOwner)); ("encrypted_approval_response", (pendingApprovals, ByOwner)) ].
Definition plain_answers : list (string * PendingTable) :=
  [ ("terminal_session_list_ack", pendingReqs); ("terminal_session_kill_ack", pendingReqs); ("run_start_ack", pendingReqs); ("run_stop_ack", pendingStops);
    ("run_status_ack", pendingStatuses); ("run_result_ack", pendingResults); ("workspace_lease_ack", pendingLeases); ("workspace_revision_ack", pendingLeases) ].
Definition encrypted_answers : list (string * PendingTable) :=
  [ ("encrypted_run_stop_ack", pendingStops); ("encrypted_approval_response_ack", pendingApprovals) ].

Definition typed {A : Type} (plain enc : list (string * A)) (msg : value) : option A :=
  match get "type" msg with
  | VStr t => snd <$> List.find (fun c => fst c =s t) (if is_str_lit (get "kind" msg) "encrypted" then enc else plain)
  | _ => None
  end.
Definition request_of (msg : value) : option (PendingTable * Route) := typed plain_requests encrypted_requests msg.
Definition answer_of (msg : value) : option PendingTable := typed plain_answers encrypted_answers msg.

Lemma typed_cases {A : Type} (plain enc : list (string * A)) (msg : value) (x : A) : typed plain enc msg = Some x ->
  exists t, get "type" msg = VStr t /\ In (t, x) (if is_str_lit (get "kind" msg) "encrypted" then enc else plain).
Proof.
  unfold typed. destruct (get "type" msg) as [| | | |t| |]; try done. destruct (List.find _ _) as [[t' y]|] eqn:E; [|done]. intros [= ->].
  exists t. split; [done|]. apply List.find_some in E as [Hin He]. cbn in He. apply String.eqb_eq in He. by subst.
Qed.

(** ** States *)

Definition delivered (ws : nat) (msg : value) (r : Relay) : Relay := if bool_decide (ws ∈ rl_open r) then set_rl_sent ((ws, msg) :: rl_sent r) r else r.
Definition pended (t : PendingTable) (k : ref) (ws : nat) (r : Relay) : Relay := set_rl_pending (fn_set t (m_set k ws (rl_pending r t)) (rl_pending r)) r.
Definition unpended (t : PendingTable) (k : ref) (r : Relay) : Relay := set_rl_pending (fn_set t (m_delete k (rl_pending r t)) (rl_pending r)) r.

Lemma pended_pending (t : PendingTable) (k : ref) (ws : nat) (r : Relay) (t' : PendingTable) :
  rl_pending (pended t k ws r) t' = if decide (t' = t) then m_set k ws (rl_pending r t') else rl_pending r t'.
Proof. cbn. unfold fn_set. case_decide; by subst. Qed.
Lemma unpended_pending (t : PendingTable) (k : ref) (r : Relay) (t' : PendingTable) :
  rl_pending (unpended t k r) t' = if decide (t' = t) then m_delete k (rl_pending r t') else rl_pending r t'.
Proof. cbn. unfold fn_set. case_decide; by subst. Qed.
Lemma delivered_pending (ws : nat) (msg : value) (r : Relay) : rl_pending (delivered ws msg r) = rl_pending r.
Proof. unfold delivered. by case_bool_decide. Qed.
Lemma delivered_open (ws : nat) (msg : value) (r : Relay) : ws ∈ rl_open r -> rl_sent (delivered ws msg r) = (ws, msg) :: rl_sent r.
Proof. intros H. unfold delivered. by rewrite bool_decide_true. Qed.

Section Requests.
Context {K : SignatureScheme} (opts : RelayServerOpts) (staleMs ms : Z) (writable : bool).

Definition addressee (route : Route) (m : Msg) (r : Relay) : option NodeEntry :=
  match route with
  | ByTo => m_get (fld "to" m) (rl_registry r)
  | ByNode => m_get (fld "node_id" m) (rl_registry r)
  | ByOwner => o ← owner_of (fld "run_id" m) r; m_get o (rl_registry r)
  end.

(** The value a refusal names. *)
Definition blamed (route : Route) (m : Msg) (r : Relay) : value :=
  match route with
  | ByTo => fv "to" m
  | ByNode => fv "node_id" m
  | ByOwner => match owner_of (fld "run_id" m) r with Some o => rf_val o | None => fv "run_id" m end
  end.

(** What the refusal of a request says: to its sender, under its req_id, with a code. *)
Definition refuses (msg refusal : value) : Prop :=
  get "from" refusal = VStr "relay" /\ get "to" refusal = get "from" msg /\ (exists code, get "code" refusal = VStr code)
  /\ (if is_str_lit (get "type" msg) "encrypted_approval_response" then get "type" refusal = VStr "relay_error"
      else get "req_id" refusal = get "req_id" msg /\ get "ok" refusal = VBool false).

(** The whole effect of a request. *)
Definition request_effect (t : PendingTable) (route : Route) (ws : nat) (m : Msg) (r r' : Relay) : Prop :=
  let k := fld "req_id" m in
  match addressee route m r with
  | Some e => r' = delivered (ne_ws e) (mg m) (pended t k ws r)
  | None => exists refusal, refuses (mg m) refusal /\ r' = unpended t k (delivered ws refusal (pended t k ws r))
  end.

Definition dispatch (ws : nat) (m : Msg) : R unit :=
  if is_str_lit (fv "kind" m) "encrypted" then on_encrypted ms ws m else on_plaintext (K := K) opts staleMs ms writable ws m.

(** A run that has the effect, or the TypeError of a refusal that cannot be printed. *)
Definition settles (t : PendingTable) (route : Route) (ws : nat) (m : Msg) (r : Relay) (run : result Crash unit * Relay) : Prop :=
  (exists r', run = (Ok tt, r') /\ request_effect t route ws m r r') \/ (exists r', run = (Err TypeError, r') /\ to_text (blamed route m r) = None).

Lemma request_to_effect (t : PendingTable) (route : Route) (ws : nat) (m : Msg) (node : ref) (g : string -> value) (r : Relay) :
  addressee route m r = m_get node (rl_registry r) -> blamed route m r = rf_val node -> (forall s, refuses (mg m) (g s)) ->
  settles t route ws m r (request_to t ws m node (s ← rendered (rf_val node); mret (g s)) r).
Proof.
  intros Ha Hb Hg. unfold settles, request_effect. rewrite Ha, Hb. unfold request_to, forward_or_refuse, rendered, pend, sendMsg, unpend, update, asks, mbind, ST_bind, mret, ST_ret, obtain.
  cbn. destruct (m_get node (rl_registry r)) as [e|]; cbn; [left; by eexists; split; reflexivity|].
  destruct (to_text (rf_val node)) as [s|]; cbn; [left|right; by eexists]. eexists. split; [reflexivity|]. exists (g s). split; [done|reflexivity].
Qed.
Lemma request_to_owner_effect (t : PendingTable) (ws : nat) (m : Msg) (g : string -> string -> value) (r : Relay) :
  (forall e c, refuses (mg m) (g e c)) -> settles t ByOwner ws m r (request_to_owner t ws m g r).
Proof.
  intros Hg. unfold settles, request_effect, blamed. cbn [addressee]. unfold request_to_owner, forward_or_refuse, rendered, pend, sendMsg, unpend, update, asks, mbind, ST_bind, mret, ST_ret, obtain.
  cbn. change (owner_of _ (set_rl_pending _ r)) with (owner_of (fld "run_id" m) r). destruct (owner_of (fld "run_id" m) r) as [o|]; cbn.
  - destruct (m_get o (rl_registry r)) as [e|]; cbn; [left; by eexists; split; reflexivity|].
    destruct (to_text (rf_val o)) as [s|]; cbn; [left|right; by eexists]. eexists. split; [reflexivity|]. eexists. split; [apply Hg|reflexivity].
  - destruct (to_text (fv "run_id" m)) as [s|]; cbn; [left|right; by eexists]. eexists. split; [reflexivity|]. eexists. split; [apply Hg|reflexivity].
Qed.

Ltac to_case := lazymatch goal with |- context [on_plaintext] => unfold on_plaintext; lazymatch goal with H : fv "type" _ = _ |- _ => rewrite H end;
  lazy [case_of cases List.find fst snd String.eqb Ascii.eqb Bool.eqb fmap option_fmap option_map] end.
Ltac to_request Ety :=
  try lazymatch goal with |- settles _ _ _ _ _ (?h _ _ _) => unfold h | |- settles _ _ _ _ _ (?h _ _ _ _) => unfold h end;
  first [ apply request_to_owner_effect | eapply (request_to_effect _ ByTo); [done|done|] | eapply (request_to_effect _ ByNode); [done|done|] ];
  intros; unfold refuses; cbv delta [fv] in Ety; rewrite Ety; repeat split; eauto.

Lemma request_dispatched (t : PendingTable) (route : Route) (ws : nat) (m : Msg) (r : Relay) :
  request_of (mg m) = Some (t, route) -> settles t route ws m r (dispatch ws m r).
Proof.
  intros Hq. apply typed_cases in Hq as (ty & Ety & Hin). unfold dispatch. change (fv "kind" m) with (get "kind" (mg m)). change (get "type" (mg m)) with (fv "type" m) in Ety.
  destruct (is_str_lit (get "kind" (mg m)) "encrypted").
  - unfold on_encrypted. rewrite Ety. cbn in Hin. repeat destruct Hin as [[= <- <- <-]|Hin]; try done; lazy [is_str_lit strict_eq String.eqb Ascii.eqb Bool.eqb]; to_request Ety.
  - cbn in Hin. repeat destruct Hin as [[= <- <- <-]|Hin]; try done; to_case; to_request Ety.
Qed.

(** ** Answers *)

Definition answered (t : PendingTable) (m : Msg) (r : Relay) : Relay :=
  match m_get (fld "req_id" m) (rl_pending r t) with Some ws => unpended t (fld "req_id" m) (delivered ws (mg m) r) | None => r end.

Lemma answer_run (t : PendingTable) (m : Msg) (r : Relay) : answer t m r = (Ok tt, answered t m r).
Proof. unfold answer, answered, sendMsg, unpend, update, asks, mbind, ST_bind. cbn. by destruct (m_get _ _). Qed.

(** Answers touch nothing else that is routed; run_start_ack also records the owner. *)
Lemma answer_dispatched (t : PendingTable) (ws : nat) (m : Msg) (r : Relay) : answer_of (mg m) = Some t ->
  exists r', dispatch ws m r = (Ok tt, r') /\ rl_sent r' = rl_sent (answered t m r) /\ rl_pending r' = rl_pending (answered t m r).
Proof.
  intros Hq. apply typed_cases in Hq as (ty & Ety & Hin). unfold dispatch. change (fv "kind" m) with (get "kind" (mg m)). change (get "type" (mg m)) with (fv "type" m) in Ety.
  destruct (is_str_lit (get "kind" (mg m)) "encrypted").
  - unfold on_encrypted. rewrite Ety. cbn in Hin. repeat destruct Hin as [[= <- <-]|Hin]; try done; lazy [is_str_lit strict_eq String.eqb Ascii.eqb Bool.eqb]; rewrite answer_run; eauto.
  - cbn in Hin. repeat destruct Hin as [[= <- <-]|Hin]; try done; to_case; unfold on_run_start_ack, mbind, ST_bind; rewrite answer_run; eauto.
    destruct (truthy (fv "ok" m) && truthy (fv "record" m)); eauto.
Qed.

Lemma pending_frames : Forall (fun c => ~ In (fst c) (map fst plain_requests ++ map fst plain_answers) -> forall ws m k, Holds (fun r => rl_pending r = k) (snd c ws m))
  (cases (K := K) opts staleMs ms writable).
Proof. unfold cases. repeat constructor; cbn [fst snd]; intros Hn; try (exfalso; apply Hn; cbn; tauto); framed. Qed.

Lemma typed_none {A : Type} (plain enc : list (string * A)) (msg : value) (t : string) : typed plain enc msg = None -> get "type" msg = VStr t ->
  ~ In t (map fst (if is_str_lit (get "kind" msg) "encrypted" then enc else plain)).
Proof.
  unfold typed. intros H Et. rewrite Et in H. destruct (List.find _ _) as [x|] eqn:E in H; [done|]. intros (c & Hc & Hin)%in_map_iff.
  pose proof (List.find_none _ _ E c Hin) as Hn. cbn in Hn. apply String.eqb_neq in Hn. done.
Qed.

Lemma other_dispatched (ws : nat) (m : Msg) (r : Relay) : request_of (mg m) = None -> answer_of (mg m) = None -> rl_pending (snd (dispatch ws m r)) = rl_pending r.
Proof.
  intros Hq Ha. revert r. apply (frames_holds rl_pending). intros k. unfold dispatch. change (fv "kind" m) with (get "kind" (mg m)).
  destruct (get "type" (mg m)) as [| | | |ty| |] eqn:Ety; unfold on_encrypted, on_plaintext; change (fv "type" m) with (get "type" (mg m)); rewrite Ety;
    try (destruct (is_str_lit (get "kind" (mg m)) "encrypted"); cbn; solve [framed]).
  pose proof (typed_none _ _ _ _ Hq Ety) as Nq. pose proof (typed_none _ _ _ _ Ha Ety) as Na. destruct (is_str_lit (get "kind" (mg m)) "encrypted").
  - assert (forall s, In s (map fst encrypted_requests ++ map fst encrypted_answers) -> is_str_lit (VStr ty) s = false) as Hno.
    { intros s Hs. apply String.eqb_neq. intros ->. apply in_app_or in Hs as [Hs|Hs]; [by apply Nq|by apply Na]. }
    cbv zeta. repeat match goal with |- context [is_str_lit (VStr ty) ?s] => rewrite (Hno s) by (cbn; tauto) end. framed.
  - cbn [case_of]. destruct (List.find _ _) as [[n h]|] eqn:E; cbn; [|framed]. apply List.find_some in E as [Hin He]. cbn in He. apply String.eqb_eq in He. subst n.
    pose proof pending_frames as Hf. rewrite List.Forall_forall in Hf. apply (Hf _ Hin). cbn [fst]. intros [?|?]%in_app_or; [by apply Nq|by apply Na].
Qed.
End Requests.
