(* ===== verification/RelaySafety.v ===== *)
(** * The relay: runs and their guarantees

    A run is a history of inputs, latest first, with the state it leads to.  Answers go to
    the socket that asked last, once; requests are forwarded or refused; with required
    pairing every registered node has proved its key. *)

From S2P Require Import Prelude Machine Values Json JsonProps Contract Templates Verification Validator Outputs StoreRows Store StoreOps RuntimeEnv Workspace Crypto RelayState Relay RelayProps RelayRequests.

Section Runs.
Context {K : SignatureScheme} (opts : RelayServerOpts) (staleMs : Z) (file : option string).

(** Frames and close events come from connected sockets. *)
Definition possible (i : RelayInput) (r : Relay) : Prop :=
  match i with Frame ws _ _ _ | Closed ws _ => ws ∈ rl_allConns r | _ => True end.

Inductive runs : list RelayInput -> Relay -> Prop :=
  | runs_start : runs [] (startRelayServer opts file)
  | runs_step (h : list RelayInput) (r : Relay) (i : RelayInput) (r' : Relay) :
      runs h r -> possible i r -> relay_step (K := K) opts staleMs i r = (Ok tt, r') -> runs (i :: h) r'.

(** The state a frame is handled in, and the message. *)
Definition counted (r : Relay) : Relay := set_rl_messages (S (rl_messages r)) r.
Definition message (msg : value) (r : Relay) : Msg := {| mg := msg; mg_no := S (rl_messages r) |}.

Lemma frame_step (ws : nat) (raw : string) (ms : Z) (writable : bool) (r : Relay) (msg : value) : ws ∈ rl_allConns r -> JSON_parse raw = Some msg ->
  relay_step (K := K) opts staleMs (Frame ws raw ms writable) r =
  if is_nullish msg then (Err TypeError, counted r) else dispatch (K := K) opts staleMs ms writable ws (message msg r) (counted r).
Proof.
  intros Hws Hp. cbn. unfold asks, mbind, ST_bind. rewrite bool_decide_true by done. unfold on_message. rewrite Hp. unfold member_of, asks, update, mbind, ST_bind.
  cbn [fst snd]. destruct (is_nullish msg); reflexivity.
Qed.
Lemma frame_ignored (ws : nat) (raw : string) (ms : Z) (writable : bool) (r : Relay) : JSON_parse raw = None ->
  relay_step (K := K) opts staleMs (Frame ws raw ms writable) r = (Ok tt, r).
Proof. intros Hp. cbn. unfold asks, mbind, ST_bind, on_message. case_bool_decide; [by rewrite Hp|done]. Qed.

(** ** Closing a socket *)

Lemma close_replay_frames {X : Type} (f : Relay -> X) (ms : Z) (ws : nat) (e : ref * (nat * ref)) :
  Apart f -> (forall x r, f (set_rl_replayRefs x r) = f r) -> forall c, Holds (fun r => f r = c) (close_replay ms ws e).
Proof.
  intros Ha Hf c. unfold close_replay. destruct (negb _); [apply _|]. apply holds_bind; [apply _|]. intros o. apply holds_bind.
  - destruct o as [[? ?]|]; apply _.
  - intros _. apply holds_update. intros r. apply Hf.
Qed.
Lemma close_replays_frames {X : Type} (f : Relay -> X) (ms : Z) (ws : nat) (l : list (ref * (nat * ref))) :
  Apart f -> (forall x r, f (set_rl_replayRefs x r) = f r) -> forall c, Holds (fun r => f r = c) (foldr (fun e (k : R unit) => close_replay ms ws e;; k) (mret tt) l).
Proof.
  intros Ha Hf c. induction l as [|e l IH]; cbn; [apply _|]. apply holds_bind; [by apply close_replay_frames|]. by intros _.
Qed.

(** What closing does to a table that only the first and last steps write. *)
Lemma close_frames {X : Type} (f : Relay -> X) (ms : Z) (ws : nat) (r : Relay) :
  Apart f -> (forall x r, f (set_rl_replayRefs x r) = f r) -> (forall x r, f (set_rl_terminalSubscribers x r) = f r) ->
  (forall x r, f (set_rl_subscribers x r) = f r) ->
  f (snd (on_close ms ws r)) =
  f (let r1 := set_rl_open (rl_open r ∖ {[ws]}) (set_rl_allConns (set_remove ws (rl_allConns r)) r) in
     let r2 := match registered_here ws r1 with Some id => set_rl_registry (m_delete id (rl_registry r1)) r1 | None => r1 end in
     set_rl_pending (fun t => List.filter (fun e => negb (snd e =? ws)%nat) (rl_pending r2 t)) r2).
Proof.
  intros Ha Hr Ht Hs. unfold on_close. rewrite !run_update, run_asks. unfold mbind at 1, ST_bind at 1.
  match goal with |- context [foldr ?g ?b ?l ?r3] => pose proof (close_replays_frames f ms ws l Ha Hr (f r3) r3 eq_refl) as H; destruct (foldr g b l r3) as [[[]|e] r5] end;
    cbn [fst snd] in *; [unfold update; cbn [fst snd]; rewrite Ht|]; by rewrite H, Hs.
Qed.

(** ** Who waits for an answer *)

(** An input that ends the wait of socket [w] for the request [req_id] of table [t]: a
    request or an answer with the same req_id for the same table, or the socket closes. *)
Definition ends_wait (t : PendingTable) (req_id : string) (w : nat) (i : RelayInput) : Prop :=
  match i with
  | Frame _ raw _ _ => exists msg, JSON_parse raw = Some msg /\ get "req_id" msg = VStr req_id /\ (fst <$> request_of msg = Some t \/ answer_of msg = Some t)
  | Closed ws _ => ws = w
  | _ => False
  end.

(** The history's latest request with this req_id was [w]'s and was forwarded to a node;
    nothing ended the wait since. *)
Inductive awaits (t : PendingTable) (req_id : string) (w : nat) : list RelayInput -> Prop :=
  | awaits_forwarded (h : list RelayInput) (r : Relay) (raw : string) (ms : Z) (writable : bool) (msg : value) (route : Route) (e : NodeEntry) :
      runs h r -> JSON_parse raw = Some msg -> request_of msg = Some (t, route) -> get "req_id" msg = VStr req_id ->
      addressee route (message msg r) r = Some e -> awaits t req_id w (Frame w raw ms writable :: h)
  | awaits_still (h : list RelayInput) (i : RelayInput) : awaits t req_id w h -> ~ ends_wait t req_id w i -> awaits t req_id w (i :: h).

Lemma request_not_answer (msg : value) (x : PendingTable * Route) : request_of msg = Some x -> answer_of msg = None.
Proof.
  intros (ty & Ety & Hin)%typed_cases. unfold answer_of, typed. rewrite Ety. destruct (is_str_lit (get "kind" msg) "encrypted"); cbn in Hin;
    repeat destruct Hin as [[= <- <-]|Hin]; try done; reflexivity.
Qed.

(** Where an entry of a table comes from after a message. *)
Lemma dispatch_pending (ms : Z) (writable : bool) (ws : nat) (m : Msg) (r r' : Relay) : dispatch (K := K) opts staleMs ms writable ws m r = (Ok tt, r') ->
  forall t e, In e (rl_pending r' t) ->
    (exists route, request_of (mg m) = Some (t, route) /\ addressee route m r <> None /\ key_of (fst e) = key_of (fld "req_id" m) /\ snd e = ws)
    \/ (In e (rl_pending r t) /\ ~ ((fst <$> request_of (mg m) = Some t \/ answer_of (mg m) = Some t) /\ key_of (fst e) = key_of (fld "req_id" m))).
Proof.
  intros Hrun t e He. destruct (request_of (mg m)) as [[t0 route]|] eqn:Eq; [|destruct (answer_of (mg m)) as [t0|] eqn:Ea]; cbn.
  - destruct (request_dispatched (K := K) opts staleMs ms writable t0 route ws m r Eq) as [(r1 & E1 & He1)|(r1 & E1 & _)]; [|congruence].
    rewrite Hrun in E1. injection E1 as <-. rewrite (request_not_answer _ _ Eq). unfold request_effect in He1. destruct (addressee route m r) as [n|] eqn:En.
    + rewrite He1, delivered_pending, pended_pending in He. case_decide as Ht; [subst t0|right; split; [done|naive_solver]].
      apply in_m_set in He as [[Hk Hs]|[Hin Hk]]; [left; exists route; by rewrite En|right]. split; [done|naive_solver].
    + destruct He1 as (x & _ & ->). right. rewrite unpended_pending, delivered_pending, pended_pending in He. case_decide as Ht; [subst t0|split; [done|naive_solver]].
      apply in_m_delete in He as [He Hk]. apply in_m_set in He as [[Hk' _]|[Hin _]]; [done|]. split; [done|naive_solver].
  - destruct (answer_dispatched (K := K) opts staleMs ms writable t0 ws m r Ea) as (r1 & E1 & _ & Hp). rewrite Hrun in E1. injection E1 as <-. rewrite Hp in He.
    right. unfold answered in He. destruct (m_get _ _) as [dst|] eqn:Eg.
    + rewrite unpended_pending, delivered_pending in He. case_decide as Ht; [|split; [done|naive_solver]]. apply in_m_delete in He as [Hin Hk]. split; [done|naive_solver].
    + split; [done|]. intros [[[=]|[= <-]] Hk]. rewrite m_get_none in Eg. by apply (Eg e).
  - right. pose proof (other_dispatched (K := K) opts staleMs ms writable ws m r Eq Ea) as Hp. rewrite Hrun in Hp. cbn in Hp. rewrite Hp in He. split; [done|naive_solver].
Qed.

Lemma string_key (v : value) (n : nat) (s : string) : key_of {| rf_val := v; rf_msg := n |} = KStr s <-> v = VStr s.
Proof. unfold key_of. destruct v; cbn; split; intros H; try done; by injection H as ->. Qed.

Lemma closed_step (ws : nat) (ms : Z) (r : Relay) : ws ∈ rl_allConns r -> relay_step (K := K) opts staleMs (Closed ws ms) r = on_close ms ws r.
Proof. intros H. cbn [relay_step]. by rewrite run_asks, bool_decide_true. Qed.
Lemma closed_pending (ws : nat) (ms : Z) (r : Relay) (t : PendingTable) :
  rl_pending (snd (on_close ms ws r)) t = List.filter (fun e => negb (snd e =? ws)%nat) (rl_pending r t).
Proof.
  rewrite (close_frames rl_pending ms ws r _ (fun _ _ => eq_refl) (fun _ _ => eq_refl) (fun _ _ => eq_refl)). cbn. by destruct (registered_here _ _).
Qed.
Lemma upgrade_pending (presented : option string) (r : Relay) : rl_pending (snd (relay_step (K := K) opts staleMs (Upgrade presented) r)) = rl_pending r.
Proof. cbn. by destruct (verifyClient opts presented). Qed.

(** Only sockets that wait are in the tables. *)
Lemma pending_awaits (h : list RelayInput) (r : Relay) : runs h r ->
  forall t e s, In e (rl_pending r t) -> key_of (fst e) = KStr s -> awaits t s (snd e) h.
Proof.
  induction 1 as [|h r i r' Hr IH Hi Hs]; [by intros t e s []|]. intros t e s He Hk. destruct i as [presented|ws raw ms w|ws|ws ms].
  - apply awaits_still; [|by intros []]. apply (IH t e s); [|done]. by rewrite <- (upgrade_pending presented), Hs.
  - destruct (JSON_parse raw) as [msg|] eqn:Ep.
    2: { rewrite frame_ignored in Hs by done. injection Hs as <-. apply awaits_still; [by apply (IH t e s)|]. intros (msg & E & _). congruence. }
    rewrite (frame_step ws raw ms w r msg) in Hs by done. destruct (is_nullish msg); [done|].
    destruct (dispatch_pending ms w ws (message msg r) (counted r) r' Hs t e He) as [(route & Hq & Hadd & Hke & <-)|(Hin & Hn)]; cbn [mg message] in *.
    + rewrite Hk in Hke. symmetry in Hke. apply string_key in Hke. change (addressee route (message msg r) r <> None) in Hadd.
      destruct (addressee route (message msg r) r) as [n|] eqn:En; [|done]. by eapply awaits_forwarded.
    + apply awaits_still; [by apply (IH t e s)|]. intros (q & Eq & Hid & Hte). assert (q = msg) as -> by congruence. apply Hn. split; [done|]. rewrite Hk. symmetry. by apply string_key.
  - injection Hs as <-. apply awaits_still; [by apply (IH t e s)|by intros []].
  - rewrite closed_step in Hs by done. pose proof (closed_pending ws ms r t) as Hf. rewrite Hs in Hf. cbn in Hf. rewrite Hf in He.
    apply List.filter_In in He as [Hin Hne]. apply awaits_still; [by apply (IH t e s)|]. cbn. intros ->. by rewrite Nat.eqb_refl in Hne.
Qed.

Lemma m_get_unpended (t t' : PendingTable) (k k' : ref) (r : Relay) : ~ (t' = t /\ key_of k = key_of k') ->
  m_get k (rl_pending (unpended t k' r) t') = m_get k (rl_pending r t').
Proof. intros H. rewrite unpended_pending. case_decide; [|done]. apply m_get_delete_other. naive_solver. Qed.
Lemma m_get_pended (t t' : PendingTable) (k k' : ref) (ws : nat) (r : Relay) : ~ (t' = t /\ key_of k = key_of k') ->
  m_get k (rl_pending (pended t k' ws r) t') = m_get k (rl_pending r t').
Proof. intros H. rewrite pended_pending. case_decide; [|done]. rewrite m_get_set, decide_False by naive_solver. done. Qed.

Lemma dispatch_keeps (ms : Z) (writable : bool) (ws : nat) (m : Msg) (r r' : Relay) (t : PendingTable) (k : ref) : dispatch (K := K) opts staleMs ms writable ws m r = (Ok tt, r') ->
  ~ ((fst <$> request_of (mg m) = Some t \/ answer_of (mg m) = Some t) /\ key_of k = key_of (fld "req_id" m)) -> m_get k (rl_pending r' t) = m_get k (rl_pending r t).
Proof.
  intros Hrun Hn. destruct (request_of (mg m)) as [[t0 route]|] eqn:Eq; [|destruct (answer_of (mg m)) as [t0|] eqn:Ea]; cbn in Hn.
  - destruct (request_dispatched (K := K) opts staleMs ms writable t0 route ws m r Eq) as [(r1 & E1 & He1)|(r1 & E1 & _)]; [|congruence].
    rewrite Hrun in E1. injection E1 as <-. unfold request_effect in He1. destruct (addressee route m r) as [n|].
    + rewrite He1, delivered_pending, m_get_pended; [done|naive_solver].
    + destruct He1 as (x & _ & ->). rewrite m_get_unpended, delivered_pending, m_get_pended; [done|naive_solver..].
  - destruct (answer_dispatched (K := K) opts staleMs ms writable t0 ws m r Ea) as (r1 & E1 & _ & Hp). rewrite Hrun in E1. injection E1 as <-. rewrite Hp.
    unfold answered. destruct (m_get (fld "req_id" m) _); [|done]. rewrite m_get_unpended, delivered_pending; [done|naive_solver].
  - pose proof (other_dispatched (K := K) opts staleMs ms writable ws m r Eq Ea) as Hp. rewrite Hrun in Hp. cbn in Hp. by rewrite Hp.
Qed.

Lemma runs_deterministic (h : list RelayInput) (r r' : Relay) : runs h r -> runs h r' -> r = r'.
Proof.
  intros H. revert r'. induction H as [|h r i r1 Hr IH Hi Hs]; intros r' H'; inversion H' as [|h0 r0 i0 r2 Hr' Hi' Hs']; subst; [done|].
  rewrite <- (IH r0 Hr') in Hs'. congruence.
Qed.

Definition string_ref (s : string) : ref := {| rf_val := VStr s; rf_msg := 0 |}.

Lemma awaits_pending (t : PendingTable) (s : string) (w : nat) (h : list RelayInput) : awaits t s w h ->
  forall r, runs h r -> m_get (string_ref s) (rl_pending r t) = Some w.
Proof.
  induction 1 as [h r raw ms writable msg route e Hr Hp Hq Hid Hadd|h i Ha IH Hn]; intros r' H'; inversion H' as [|h0 r0 i0 r1 Hr0 Hi Hs]; subst.
  - rewrite <- (runs_deterministic _ _ _ Hr Hr0) in *. cbn in Hi. rewrite (frame_step w raw ms writable r msg) in Hs by done.
    destruct (is_nullish msg); [done|]. destruct (request_dispatched (K := K) opts staleMs ms writable t route w (message msg r) (counted r) Hq) as [(r2 & E & He)|(r2 & E & _)]; [|congruence].
    rewrite Hs in E. injection E as <-. unfold request_effect in He. change (addressee route (message msg r) (counted r)) with (addressee route (message msg r) r) in He. rewrite Hadd in He. subst r'.
    rewrite delivered_pending, pended_pending, decide_True by done. rewrite m_get_set, decide_True; [done|]. symmetry. by apply string_key.
  - specialize (IH _ Hr0). destruct i as [presented|ws raw ms wr|ws|ws ms].
    + rewrite <- IH. by rewrite <- (upgrade_pending presented r0), Hs.
    + destruct (JSON_parse raw) as [msg|] eqn:Ep; [|rewrite frame_ignored in Hs by done; by injection Hs as <-].
      rewrite (frame_step ws raw ms wr r0 msg) in Hs by done. destruct (is_nullish msg); [done|].
      rewrite (dispatch_keeps ms wr ws (message msg r0) (counted r0) r' t _ Hs); [done|]. intros [Hte Hk]. apply Hn. exists msg. split; [done|]. split; [|done].
      symmetry in Hk. by apply string_key in Hk.
    + injection Hs as <-. done.
    + rewrite closed_step in Hs by done. pose proof (closed_pending ws ms r0 t) as Hf. rewrite Hs in Hf. cbn in Hf. rewrite Hf.
      apply (m_get_filter (string_ref s) (rl_pending r0 t) w (fun x => negb (x =? ws)%nat)); [done|]. cbn in Hn. destruct (Nat.eqb_spec w ws); [by subst|done].
Qed.

Lemma pending_iff_awaits (t : PendingTable) (s : string) (w : nat) (h : list RelayInput) (r : Relay) : runs h r ->
  m_get (string_ref s) (rl_pending r t) = Some w <-> awaits t s w h.
Proof.
  intros Hr. split; [|intros H; by apply (awaits_pending t s w h)]. intros (k & Hin & Hk)%m_get_in. by apply (pending_awaits h r Hr t (k, w) s).
Qed.

(** ** Pairings and registrations *)

Definition plain_type (type : string) (msg : value) : bool := negb (is_str_lit (get "kind" msg) "encrypted") && is_str_lit (get "type" msg) type.

(** The identity paired with a node id: that of the latest pairing request for it, or
    else the one loaded from the file. *)
Fixpoint paired_identity (id : string) (h : list RelayInput) : option value :=
  match h with
  | [] => if pairingsFile opts then m_get (string_ref id) (loadPairings file) else None
  | Frame _ raw _ _ :: h =>
      match JSON_parse raw with
      | Some msg => if plain_type "node_pair_request" msg && strict_eq (get "id" (get "identity" msg)) (VStr id) then Some (get "identity" msg) else paired_identity id h
      | None => paired_identity id h
      end
  | _ :: h => paired_identity id h
  end.

(** Handlers of other types leave a projection alone when all but the named cases do. *)
Lemma dispatch_frames {X : Type} (f : Relay -> X) (names : list string) (ms : Z) (writable : bool) (ws : nat) (m : Msg) (r : Relay) :
  Apart f -> ApartPending f ->
  Forall (fun c => ~ In (fst c) names -> forall ws m k, Holds (fun r => f r = k) (snd c ws m)) (cases (K := K) opts staleMs ms writable) ->
  (forall n, In n names -> plain_type n (mg m) = false) -> f (snd (dispatch (K := K) opts staleMs ms writable ws m r)) = f r.
Proof.
  intros H1 H2 Hc Hn. revert r. apply (frames_holds f). intros k. unfold dispatch. unfold plain_type in Hn. change (fv "kind" m) with (get "kind" (mg m)).
  destruct (is_str_lit (get "kind" (mg m)) "encrypted"); [framed|]. unfold on_plaintext. change (fv "type" m) with (get "type" (mg m)).
  destruct (get "type" (mg m)) as [| | | |ty| |] eqn:Ety; cbn [case_of]; try solve [framed].
  destruct (List.find _ _) as [[n g]|] eqn:E; cbn; [|framed]. apply List.find_some in E as [Hin He]. cbn in He. apply String.eqb_eq in He. subst n.
  rewrite List.Forall_forall in Hc. apply (Hc _ Hin). cbn [fst]. intros Hname. specialize (Hn ty Hname). cbn in Hn. by rewrite String.eqb_refl in Hn.
Qed.

(** The handler of a plaintext type. *)
Lemma dispatch_plain (type : string) (hd : nat -> Msg -> R unit) (ms : Z) (writable : bool) (ws : nat) (m : Msg) : plain_type type (mg m) = true ->
  case_of (K := K) opts staleMs ms writable (VStr type) = Some hd -> dispatch (K := K) opts staleMs ms writable ws m = hd ws m.
Proof.
  unfold plain_type. intros [Hk Ht]%andb_true_iff Hc. unfold dispatch. change (fv "kind" m) with (get "kind" (mg m)). apply negb_true_iff in Hk. rewrite Hk.
  unfold on_plaintext. change (fv "type" m) with (get "type" (mg m)). unfold is_str_lit in Ht. destruct (get "type" (mg m)); try done. apply String.eqb_eq in Ht. subst. by rewrite Hc.
Qed.
Lemma pair_dispatched (ms : Z) (writable : bool) (ws : nat) (m : Msg) (r r' : Relay) : dispatch (K := K) opts staleMs ms writable ws m r = (Ok tt, r') ->
  rl_pairedIdentities r' = if plain_type "node_pair_request" (mg m)
    then m_set {| rf_val := get "id" (fv "identity" m); rf_msg := mg_no m |} (fv "identity" m) (rl_pairedIdentities r) else rl_pairedIdentities r.
Proof.
  intros Hrun. destruct (plain_type "node_pair_request" (mg m)) eqn:Ep.
  - rewrite (dispatch_plain "node_pair_request" (on_node_pair_request opts ms writable)) in Hrun by done. unfold on_node_pair_request, member_of in Hrun.
    destruct (is_nullish (fv "identity" m)); [done|]. rewrite relay_ret in Hrun. apply bind_returned in Hrun as ([] & r0 & H0 & Hrun). apply update_returned in H0.
    set (r1 := set_rl_pairedIdentities _ r) in H0. subst r0. apply bind_returned in Hrun as ([] & r2 & H1 & H2).
    assert (rl_pairedIdentities r2 = rl_pairedIdentities r1) as E2.
    { assert (Holds (fun s => rl_pairedIdentities s = rl_pairedIdentities r1) (persistPairings opts writable)) as Hh by framed. specialize (Hh r1 eq_refl). by rewrite H1 in Hh. }
    assert (rl_pairedIdentities r' = rl_pairedIdentities r2) as ->; [|done].
    unfold sendMsg, update in H2. injection H2 as <-. by case_bool_decide.
  - pose proof (dispatch_frames rl_pairedIdentities ["node_pair_request"] ms writable ws m r _ _ (paired_frames opts staleMs ms writable)) as H. rewrite Hrun in H. apply H. by intros n [<-|[]].
Qed.

Lemma on_close_frames {X : Type} (f : Relay -> X) (ms : Z) (ws : nat) : Apart f -> ApartPending f ->
  (forall x r, f (set_rl_replayRefs x r) = f r) -> (forall x r, f (set_rl_terminalSubscribers x r) = f r) -> (forall x r, f (set_rl_subscribers x r) = f r) ->
  (forall x y r, f (set_rl_open x (set_rl_allConns y r)) = f r) -> (forall x r, f (set_rl_registry x r) = f r) -> forall r, f (snd (on_close ms ws r)) = f r.
Proof.
  intros Ha Hp Hr Ht Hs Ho Hg r. rewrite close_frames by done. cbv zeta. rewrite apart_pending. destruct (registered_here _ _); by rewrite ?Hg, Ho.
Qed.

Lemma paired_runs (h : list RelayInput) (r : Relay) : runs h r -> forall id, m_get (string_ref id) (rl_pairedIdentities r) = paired_identity id h.
Proof.
  induction 1 as [|h r i r' Hr IH Hi Hs]; intros id; [cbn; by destruct (pairingsFile opts)|]. destruct i as [presented|ws raw ms w|ws|ws ms]; cbn [paired_identity].
  - rewrite <- IH. cbn in Hs. destruct (verifyClient opts presented); cbn in Hs; by injection Hs as <-.
  - destruct (JSON_parse raw) as [msg|] eqn:Ep; [|rewrite frame_ignored in Hs by done; by injection Hs as <-].
    rewrite (frame_step ws raw ms w r msg) in Hs by done. destruct (is_nullish msg); [done|]. rewrite (pair_dispatched _ _ _ _ _ _ Hs). cbn [mg message].
    destruct (plain_type "node_pair_request" msg); cbn [andb]; [|apply IH]. rewrite m_get_set. change (fv "identity" (message msg r)) with (get "identity" msg).
    case_decide as Hk.
    + symmetry in Hk. apply string_key in Hk. rewrite Hk. cbn. by rewrite String.eqb_refl.
    + destruct (strict_eq _ _) eqn:E; [|apply IH]. exfalso. apply Hk. symmetry. apply string_key. destruct (get "id" (get "identity" msg)); try done. apply String.eqb_eq in E. by subst.
  - injection Hs as <-. apply IH.
  - rewrite closed_step in Hs by done. rewrite <- IH. pose proof (on_close_frames rl_pairedIdentities ms ws) as H. rewrite <- (H _ _ (fun _ _ => eq_refl) (fun _ _ => eq_refl) (fun _ _ => eq_refl) (fun _ _ _ => eq_refl) (fun _ _ => eq_refl) r). by rewrite Hs.
Qed.

(** ** Registrations *)

(** The socket sent a registration of [id] signed with the key paired with it then. *)
Definition registration_of (id : string) (ws : nat) (h : list RelayInput) : Prop :=
  exists h2 raw ms writable h1 msg identity, h = h2 ++ Frame ws raw ms writable :: h1 /\ JSON_parse raw = Some msg
    /\ plain_type "node_register" msg = true /\ get "node_id" (get "node" msg) = VStr id
    /\ paired_identity id h1 = Some identity /\ verifyEnvelope (K := K) (get "signing_public_key" identity) msg = Some true.

Lemma registration_of_cons (id : string) (ws : nat) (i : RelayInput) (h : list RelayInput) : registration_of id ws h -> registration_of id ws (i :: h).
Proof. intros (h2 & raw & ms & w & h1 & msg & identity & -> & H). by exists (i :: h2), raw, ms, w, h1, msg, identity. Qed.

Lemma registration_proved_run (id : ref) (m : Msg) (r r' : Relay) (b : bool) : requirePairing opts = true -> registration_proved (K := K) opts id m r = (Ok b, r') ->
  r' = r /\ (b = true -> exists identity, m_get id (rl_pairedIdentities r) = Some identity /\ verifyEnvelope (K := K) (get "signing_public_key" identity) (mg m) = Some true).
Proof.
  intros Hreq. unfold registration_proved. rewrite Hreq, run_asks. destruct (m_get id _) as [identity|]; [|by intros [= <- <-]].
  destruct (negb (truthy identity)); [by intros [= <- <-]|]. destruct (negb (truthy _)); [by intros [= <- <-]|]. intros [E ->]%obtain_returned. split; [done|]. intros ->. eauto.
Qed.

(** Where a registry entry comes from after a message. *)
Lemma dispatch_registry (ms : Z) (writable : bool) (ws : nat) (m : Msg) (r r' : Relay) (e : ref * NodeEntry) : requirePairing opts = true ->
  dispatch (K := K) opts staleMs ms writable ws m r = (Ok tt, r') -> In e (rl_registry r') ->
  (exists e0, In e0 (rl_registry r) /\ key_of (fst e0) = key_of (fst e) /\ ne_ws (snd e0) = ne_ws (snd e))
  \/ (plain_type "node_register" (mg m) = true /\ ne_ws (snd e) = ws
      /\ let id := {| rf_val := get "node_id" (fv "node" m); rf_msg := mg_no m |} in
         key_of (fst e) = key_of id
         /\ exists identity, m_get id (rl_pairedIdentities r) = Some identity /\ verifyEnvelope (K := K) (get "signing_public_key" identity) (mg m) = Some true).
Proof.
  intros Hreq Hrun He. destruct (plain_type "node_register" (mg m)) eqn:Er; [|destruct (plain_type "node_heartbeat" (mg m)) eqn:Eh].
  - rewrite (dispatch_plain "node_register" (on_node_register (K := K) opts ms)) in Hrun by done. unfold on_node_register, member_of in Hrun.
    destruct (is_nullish (fv "node" m)); [done|]. rewrite relay_ret in Hrun. cbv beta zeta in Hrun.
    apply bind_returned in Hrun as ([] & r0 & H0 & Hrun). unfold set_nodeId in H0. apply update_returned in H0. subst r0.
    apply bind_returned in Hrun as (b & r1 & H1 & H2). apply (registration_proved_run _ _ _ _ _ Hreq) in H1 as [-> Hb]. destruct b.
    + rewrite run_update in H2. unfold sendMsg, update in H2. injection H2 as <-.
      match type of He with In e (rl_registry (if bool_decide ?p then _ else ?x)) => assert (In e (rl_registry x)) as He' by (by destruct (bool_decide p)) end. clear He. cbn in He'.
      apply in_m_set in He' as [[Hk Hs]|[Hin _]]; [right|left; by exists e]. rewrite Hs. split; [done|]. split; [done|]. split; [done|]. by apply Hb.
    + left. exists e. split; [|done]. unfold sendMsg in H2. rewrite run_update in H2. unfold set_nodeId, update in H2. injection H2 as <-. cbn in He. by destruct (bool_decide _).
  - rewrite (dispatch_plain "node_heartbeat" (on_node_heartbeat ms)) in Hrun by done. unfold on_node_heartbeat in Hrun. rewrite run_update in Hrun. left.
    unfold sendMsg, update in Hrun. injection Hrun as <-.
    match type of He with In e (rl_registry (if bool_decide ?p then _ else ?x)) => assert (In e (rl_registry x)) as He' by (by destruct (bool_decide p)) end. clear He.
    destruct (m_get (fld "node_id" m) (rl_registry r)) as [n|] eqn:En; [|by exists e]. cbn in He'. apply in_m_set in He' as [[Hk Hs]|[Hin _]]; [|by exists e].
    apply m_get_in in En as (k & Hin & Hk'). exists (k, n). split; [done|]. cbn. rewrite Hs. split; [congruence|done].
  - left. exists e. split; [|done]. pose proof (dispatch_frames rl_registry ["node_register"; "node_heartbeat"] ms writable ws m r _ _ (registry_frames opts staleMs ms writable)) as H.
    rewrite Hrun in H. cbn in H. rewrite <- H; [done|]. by intros n [<-|[<-|[]]].
Qed.

Lemma registry_runs (h : list RelayInput) (r : Relay) : requirePairing opts = true -> runs h r ->
  forall e id, In e (rl_registry r) -> key_of (fst e) = KStr id -> registration_of id (ne_ws (snd e)) h.
Proof.
  intros Hreq. induction 1 as [|h r i r' Hr IH Hi Hs]; [by intros e id []|]. intros e id He Hk. destruct i as [presented|ws raw ms w|ws|ws ms].
  - apply registration_of_cons, IH; [|done]. cbn in Hs. destruct (verifyClient opts presented); cbn in Hs; by injection Hs as <-.
  - destruct (JSON_parse raw) as [msg|] eqn:Ep; [|rewrite frame_ignored in Hs by done; injection Hs as <-; by apply registration_of_cons, IH].
    rewrite (frame_step ws raw ms w r msg) in Hs by done. destruct (is_nullish msg); [done|].
    destruct (dispatch_registry ms w ws (message msg r) (counted r) r' e Hreq Hs He) as [(e0 & Hin & Hke & Hws)|(Ht & Hws & Hke & identity & Hp & Hv)].
    + rewrite <- Hws. apply registration_of_cons, IH; [done|congruence].
    + rewrite Hk in Hke. symmetry in Hke. pose proof Hke as Hid. apply string_key in Hid. exists [], raw, ms, w, h, msg, identity. rewrite Hws. repeat split; try done.
      rewrite <- (paired_runs h r Hr). rewrite <- Hp. apply m_get_key. cbn in Hke |- *. congruence.
  - injection Hs as <-. by apply registration_of_cons, IH.
  - apply registration_of_cons, IH; [|done]. rewrite closed_step in Hs by done. pose proof (close_frames rl_registry ms ws r _ (fun _ _ => eq_refl) (fun _ _ => eq_refl) (fun _ _ => eq_refl)) as Hf.
    rewrite Hs in Hf. cbn in Hf. rewrite Hf in He. destruct (registered_here _ _); [|done]. cbn in He. by apply in_m_delete in He as [He _].
Qed.

(** ** Guarantees *)

(** C38. Registered nodes have proved their key: with required pairing, a node id is
    registered to a socket only if that socket sent a registration of this id whose
    signature verifies with the key that was paired with the id at that moment: the key of
    the latest pairing request for it, or the one loaded from the pairings file. *)
Theorem registered_nodes_proved (h : list RelayInput) (r : Relay) (id : string) (e : NodeEntry) :
  requirePairing opts = true -> runs h r -> m_get (string_ref id) (rl_registry r) = Some e -> registration_of id (ne_ws e) h.
Proof. intros Hreq Hr (k & Hin & Hk)%m_get_in. by apply (registry_runs h r Hreq Hr (k, e) id). Qed.

(** C39. Answers reach the requester: an answer that arrives with req_id [s] is sent, as
    it is, to the socket whose request with that req_id was forwarded last and neither
    answered nor replaced since, if that socket is still open, and to nobody else; it is
    sent to nobody when no such socket waits.  Afterwards nobody waits, so a second
    answer is dropped. *)
Theorem answer_reaches_requester (h : list RelayInput) (r : Relay) (ws : nat) (raw : string) (ms : Z) (writable : bool) (msg : value) (t : PendingTable) (s : string) :
  runs h r -> ws ∈ rl_allConns r -> JSON_parse raw = Some msg -> answer_of msg = Some t -> get "req_id" msg = VStr s ->
  exists r', relay_step (K := K) opts staleMs (Frame ws raw ms writable) r = (Ok tt, r')
    /\ (forall w, awaits t s w h -> rl_sent r' = if bool_decide (w ∈ rl_open r) then (w, msg) :: rl_sent r else rl_sent r)
    /\ ((forall w, ~ awaits t s w h) -> rl_sent r' = rl_sent r)
    /\ (forall w, ~ awaits t s w (Frame ws raw ms writable :: h)).
Proof.
  intros Hr Hws Hp Ha Hid. rewrite (frame_step ws raw ms writable r msg) by done. assert (is_nullish msg = false) as -> by by destruct msg.
  destruct (answer_dispatched (K := K) opts staleMs ms writable t ws (message msg r) (counted r) Ha) as (r' & E & Hsent & Hpend). exists r'. split; [done|].
  unfold answered in Hsent, Hpend. change (rl_pending (counted r) t) with (rl_pending r t) in *.
  assert (key_of (string_ref s) = key_of (fld "req_id" (message msg r))) as Hk by (symmetry; by apply string_key). rewrite <- (m_get_key _ _ (rl_pending r t) Hk) in Hsent, Hpend.
  split; [|split].
  - intros w Hw. rewrite <- (pending_iff_awaits t s w h r Hr) in Hw. rewrite Hw in Hsent. rewrite Hsent. cbn. unfold delivered. cbn. by case_bool_decide.
  - intros Hno. destruct (m_get (string_ref s) (rl_pending r t)) as [w|] eqn:Eg; [|by rewrite Hsent]. apply (pending_iff_awaits t s w h r Hr) in Eg. by destruct (Hno w).
  - intros w Hw. assert (runs (Frame ws raw ms writable :: h) r') as Hr'.
    { apply (runs_step h r (Frame ws raw ms writable) r' Hr Hws). rewrite (frame_step ws raw ms writable r msg) by done. by destruct msg. }
    apply (pending_iff_awaits t s w _ r' Hr') in Hw. rewrite Hpend in Hw. destruct (m_get (string_ref s) (rl_pending r t)) as [x|] eqn:Eg.
    + rewrite unpended_pending, decide_True in Hw by done. by rewrite m_get_delete in Hw.
    + change (rl_pending (counted r) t) with (rl_pending r t) in Hw. congruence.
Qed.

(** C40. What becomes of a request.  A request from an open socket, where the id that a
    refusal would quote has a string form, is handled in one of two ways.  Where the node it
    addresses (by id, or as owner of the run) is registered, its sender waits under the
    req_id, and the message is sent as it is to that node's socket if that socket is open;
    if it is not, nothing is sent and the sender waits all the same.  Where no such node is
    registered, a refusal is sent to the sender at once, under the req_id of the request (the
    refusal of an encrypted_approval_response has none), and nobody waits under that req_id.  A plaintext
    message of a type the relay does not know that carries a non-empty req_id is refused
    with unsupported_request under that req_id, where its type has a string form. *)
Theorem request_forwarded_or_refused (r : Relay) (ws : nat) (raw : string) (ms : Z) (writable : bool) (msg : value) :
  ws ∈ rl_allConns r -> ws ∈ rl_open r -> JSON_parse raw = Some msg ->
  let m := message msg r in
  (forall t route, request_of msg = Some (t, route) -> is_Some (to_text (blamed route m r)) ->
   exists r', relay_step (K := K) opts staleMs (Frame ws raw ms writable) r = (Ok tt, r') /\
     match addressee route m r with
     | Some e => m_get (fld "req_id" m) (rl_pending r' t) = Some ws
                 /\ rl_sent r' = if bool_decide (ne_ws e ∈ rl_open r) then (ne_ws e, msg) :: rl_sent r else rl_sent r
     | None => m_get (fld "req_id" m) (rl_pending r' t) = None
               /\ exists refusal, rl_sent r' = (ws, refusal) :: rl_sent r /\ refuses msg refusal
     end)
  /\ (forall s, is_str_lit (get "kind" msg) "encrypted" = false -> case_of (K := K) opts staleMs ms writable (get "type" msg) = None ->
      get "req_id" msg = VStr s -> s <> "" -> is_Some (to_text (get "type" msg)) ->
      exists r' refusal, relay_step (K := K) opts staleMs (Frame ws raw ms writable) r = (Ok tt, r')
        /\ rl_sent r' = (ws, refusal) :: rl_sent r /\ get "type" refusal = VStr "relay_error" /\ get "req_id" refusal = VStr s
        /\ get "code" refusal = VStr "unsupported_request").
Proof.
  intros Hws Hopen Hp m. rewrite (frame_step ws raw ms writable r msg) by done. split.
  - intros t route Hq [x Hx]. assert (is_nullish msg = false) as -> by by destruct msg.
    destruct (request_dispatched (K := K) opts staleMs ms writable t route ws m (counted r) Hq) as [(r' & E & He)|(r' & _ & Hb)].
    2: { change (blamed route m (counted r)) with (blamed route m r) in Hb. congruence. }
    exists r'. split; [done|]. unfold request_effect in He. change (addressee route m (counted r)) with (addressee route m r) in He. destruct (addressee route m r) as [e|].
    + subst r'. rewrite delivered_pending, pended_pending, decide_True by done. rewrite m_get_set, decide_True by done. split; [done|]. unfold delivered. cbn. by case_bool_decide.
    + destruct He as (refusal & Href & ->). rewrite unpended_pending, decide_True, m_get_delete by done. split; [done|]. exists refusal. split; [|done].
      cbn. by rewrite delivered_open.
  - intros s Hkind Hc Hid Hs [x Hx]. assert (is_nullish msg = false) as -> by by destruct msg. unfold dispatch. change (fv "kind" (message msg r)) with (get "kind" msg). rewrite Hkind.
    unfold on_plaintext. change (fv "type" (message msg r)) with (get "type" msg). rewrite Hc. unfold on_default. change (fv "req_id" (message msg r)) with (get "req_id" msg). rewrite Hid.
    apply String.eqb_neq in Hs. rewrite Hs. change (fv "type" (message msg r)) with (get "type" msg). change (fv "from" (message msg r)) with (get "from" msg).
    assert (exists y, to_text (if is_nullish (get "type" msg) then VStr "unknown" else get "type" msg) = Some y) as [y Hy] by (destruct (is_nullish (get "type" msg)); eauto).
    unfold rendered, sendMsg, update, mbind, ST_bind. rewrite Hy. cbn [obtain]. eexists _, _. split; [reflexivity|]. cbn [counted rl_open set_rl_messages]. rewrite bool_decide_true by done.
    split; [reflexivity|]. repeat split.
Qed.

(** ** Executing a history *)

Definition possible_b (i : RelayInput) (r : Relay) : bool :=
  match i with Frame ws _ _ _ | Closed ws _ => bool_decide (ws ∈ rl_allConns r) | _ => true end.
Fixpoint exec (h : list RelayInput) : option Relay :=
  match h with
  | [] => Some (startRelayServer opts file)
  | i :: h => r ← exec h; if possible_b i r then match relay_step (K := K) opts staleMs i r with (Ok _, r') => Some r' | (Err _, _) => None end else None
  end.
Lemma exec_runs (h : list RelayInput) (r : Relay) : exec h = Some r -> runs h r.
Proof.
  revert r. induction h as [|i h IH]; intros r; cbn; [intros [= <-]; constructor|]. destruct (exec h) as [r0|]; [|done]. cbn. destruct (possible_b i r0) eqn:Ep; [|done].
  destruct (relay_step opts staleMs i r0) as [[[]|c] r1] eqn:Es; [|done]. intros [= <-]. apply (runs_step h r0 i r1); [by apply IH| |done].
  destruct i; cbn in *; try done; by apply bool_decide_eq_true in Ep.
Qed.
End Runs.

(** ** A run: a node pairs and registers, a client starts a run on it *)

Definition demo_opts : RelayServerOpts := {| token := "t"; tokens := []; staleOverride := None; requirePairing := true; pairingsFile := false |}.
Definition text (v : value) : string := default "" (JSON_stringify v).
Definition demo_node : value := VObj [("node_id", VStr "n1"); ("max_runs", VNum (NInt 2))].
Definition demo_register : value := VObj [("type", VStr "node_register"); ("from", VStr "n1"); ("node", demo_node)].
Definition demo_pair_raw : string :=
  text (VObj [("type", VStr "node_pair_request"); ("from", VStr "n1"); ("identity", VObj [("id", VStr "n1"); ("signing_public_key", VStr "k")])]).
Definition demo_register_raw : string :=
  text (VObj (entries demo_register ++ [("signature", default VNull (signEnvelope (K := toy_scheme) "k" "n1" demo_register))])).
Definition demo_start : value := VObj [("type", VStr "run_start"); ("from", VStr "cli"); ("to", VStr "n1"); ("req_id", VStr "q1")].
Definition demo_ack : value := VObj [("type", VStr "run_start_ack"); ("from", VStr "n1"); ("req_id", VStr "q1"); ("ok", VBool true)].

Definition demo_registered : list RelayInput :=
  [Upgrade (Some "t"); Frame 0 demo_register_raw 1000 true; Frame 0 demo_pair_raw 1000 true; Upgrade (Some "t")].
Definition demo_history : list RelayInput := Frame 1 (text demo_start) 2000 true :: demo_registered.
Definition demo_state (h : list RelayInput) : Relay := default (startRelayServer demo_opts None) (exec (K := toy_scheme) demo_opts 15000 None h).

Lemma demo_registered_runs : runs (K := toy_scheme) demo_opts 15000 None demo_registered (demo_state demo_registered).
Proof. apply exec_runs. vm_compute. reflexivity. Qed.
Lemma demo_runs : runs (K := toy_scheme) demo_opts 15000 None demo_history (demo_state demo_history).
Proof. apply exec_runs. vm_compute. reflexivity. Qed.
Lemma demo_awaits : awaits (K := toy_scheme) demo_opts 15000 None pendingReqs "q1" 1 demo_history.
Proof.
  eapply (awaits_forwarded _ _ _ _ _ _ demo_registered (demo_state demo_registered) (text demo_start) 2000 true demo_start ByTo); [exact demo_registered_runs|vm_compute; reflexivity..].
Qed.

Lemma registered_nodes_proved_witness : exists e,
  m_get (string_ref "n1") (rl_registry (demo_state demo_registered)) = Some e /\ registration_of (K := toy_scheme) demo_opts None "n1" (ne_ws e) demo_registered.
Proof.
  destruct (m_get (string_ref "n1") (rl_registry (demo_state demo_registered))) as [e|] eqn:E; [|vm_compute in E; discriminate E].
  exists e. split; [reflexivity|]. apply (registered_nodes_proved (K := toy_scheme) demo_opts 15000 None demo_registered (demo_state demo_registered)); [reflexivity|exact demo_registered_runs|exact E].
Defined.

Lemma answer_reaches_requester_witness : exists r',
  relay_step (K := toy_scheme) demo_opts 15000 (Frame 0 (text demo_ack) 3000 true) (demo_state demo_history) = (Ok tt, r')
  /\ rl_sent r' = (1%nat, demo_ack) :: rl_sent (demo_state demo_history).
Proof.
  destruct (answer_reaches_requester (K := toy_scheme) demo_opts 15000 None demo_history (demo_state demo_history) 0 (text demo_ack) 3000 true demo_ack pendingReqs "q1") as (r' & E & H & _);
    [exact demo_runs|apply (bool_decide_unpack _); vm_compute; exact I|vm_compute; reflexivity..|].
  exists r'. split; [exact E|]. rewrite (H 1%nat demo_awaits). rewrite bool_decide_true; [reflexivity|]. apply (bool_decide_unpack _). vm_compute. exact I.
Defined.

Lemma request_forwarded_or_refused_witness : exists r',
  relay_step (K := toy_scheme) demo_opts 15000 (Frame 1 (text demo_start) 2000 true) (demo_state demo_registered) = (Ok tt, r')
  /\ rl_sent r' = (0%nat, demo_start) :: rl_sent (demo_state demo_registered).
Proof.
  destruct (request_forwarded_or_refused (K := toy_scheme) demo_opts 15000 (demo_state demo_registered) 1 (text demo_start) 2000 true demo_start) as [H _];
    [apply (bool_decide_unpack _); vm_compute; exact I..|vm_compute; reflexivity|].
  destruct (H pendingReqs ByTo) as (r' & E & Hr); [reflexivity|vm_compute; eexists; reflexivity|]. exists r'. split; [exact E|].
  destruct (addressee _ _ _) as [e|] eqn:Ea; [|vm_compute in Ea; discriminate Ea]. vm_compute in Ea. injection Ea as <-. destruct Hr as [_ ->]. reflexivity.
Defined.
