(* ===== verification/Redact.v ===== *)
(** * Redaction of secrets (src/redact.ts)

    Every string that is written to a run record or an event log passes [redact].  A rule
    is a matcher at a position (with the character before it, for word boundaries) that
    returns the replacement and what follows the match; rules are applied one after the
    other, each to all leftmost matches. *)

From S2P Require Import Prelude Values Json.

Definition matcher : Type := option ascii -> chars -> option (chars * chars).

Fixpoint replace_all (m : matcher) (fuel : nat) (prev : option ascii) (l : chars) : chars :=
  match fuel with
  | O => l
  | S f =>
      match l with
      | [] => []
      | c :: r =>
          match m prev l with
          | Some (replacement, rest) => replacement ++ replace_all m f (last (take (List.length l - List.length rest) l)) rest
          | None => c :: replace_all m f (Some c) r
          end
      end
  end.

(** ** Character classes *)

Definition is_alnum (c : ascii) : bool := is_alpha c || is_digit c.
Definition is_word (c : ascii) : bool := is_alnum c || Ascii.eqb c "_".

Fixpoint span (p : ascii -> bool) (l : chars) : chars * chars :=
  match l with
  | c :: r => if p c then let '(a, b) := span p r in (c :: a, b) else ([], l)
  | [] => ([], [])
  end.
(** The rest after [p]{n,}, greedily. *)
Definition at_least (n : nat) (p : ascii -> bool) (l : chars) : option chars :=
  let '(run, rest) := span p l in if (n <=? List.length run)%nat then Some rest else None.

(** The number of bytes of a white-space code point at the head ([\s]). *)
Definition ws_width (l : chars) : option nat :=
  let b := map N_of_ascii (take 3 l) in (fun r => (List.length b - List.length r)%nat) <$> ws_head b.
Fixpoint span_ws (fuel : nat) (l : chars) : chars * chars :=
  match fuel with
  | O => ([], l)
  | S f => match ws_width l with
           | Some w => let '(a, b) := span_ws f (drop w l) in (take w l ++ a, b)
           | None => ([], l)
           end
  end.
(** The longest run of code points that are not white space and whose bytes satisfy [p]. *)
Fixpoint span_not_ws (p : ascii -> bool) (l : chars) : chars * chars :=
  match l with
  | c :: r =>
      match ws_width l with
      | Some _ => ([], l)
      | None => if p c then let '(a, b) := span_not_ws p r in (c :: a, b) else ([], l)
      end
  | [] => ([], [])
  end.
Definition any (c : ascii) : bool := true.

(** A literal, in any case of its ASCII letters. *)
Definition lower_char (c : ascii) : ascii := if is_upper c then ascii_of_N (N_of_ascii c + 32) else c.
Fixpoint strip_ci (p l : chars) : option (chars * chars) :=
  match p, l with
  | [], _ => Some ([], l)
  | a :: p, b :: l => if Ascii.eqb (lower_char a) (lower_char b) then '(x, y) ← strip_ci p l; Some (b :: x, y) else None
  | _ :: _, [] => None
  end.

Definition boundary (a b : option ascii) : bool := xorb (from_option is_word false a) (from_option is_word false b).

(** ** Rules *)

Definition mark : chars := lit "[REDACTED]".

Definition github_token : matcher := fun _ l =>
  r ← strip_lit "gh" l;
  match r with
  | c :: r => if is_one_of "posru" c then r ← strip_lit "_" r; rest ← at_least 20 is_alnum r; Some (mark, rest) else None
  | [] => None
  end.
Definition github_pat : matcher := fun _ l => r ← strip_lit "github_pat_" l; rest ← at_least 20 is_word r; Some (mark, rest).
Definition aws_key : matcher := fun _ l =>
  r ← strip_lit "AKIA" l;
  if (16 <=? List.length (fst (span (fun c => is_digit c || is_upper c) r)))%nat then Some (mark, drop 16 r) else None.
Definition openai_key : matcher := fun _ l => r ← strip_lit "sk-" l; rest ← at_least 20 (fun c => is_word c || Ascii.eqb c "-") r; Some (mark, rest).
Definition bearer : matcher := fun _ l =>
  r ← strip_lit "Bearer " l;
  rest ← at_least 1 (fun c => is_alnum c || is_one_of "-._~+/" c) r;
  Some (lit "Bearer " ++ mark, snd (span (Ascii.eqb "=") rest)).
Definition url_credentials : matcher := fun _ l =>
  scheme ← (match strip_lit "https://" l with Some _ => Some "https://" | None => match strip_lit "http://" l with Some _ => Some "http://" | None => None end end);
  r ← strip_lit scheme l;
  match span_not_ws (fun c => negb (is_one_of "/@" c)) r with
  | (_ :: _, c :: rest) => if Ascii.eqb c "@" then Some (lit scheme ++ mark ++ ["@"%char], rest) else None
  | _ => None
  end.

Definition SECRET_VARS : list string :=
  ["GH_TOKEN"; "GITHUB_TOKEN"; "GH_PAT"; "GITHUB_PAT"; "GHE_TOKEN"; "VIBE_RELAY_TOKEN"; "OPENAI_API_KEY"; "ANTHROPIC_API_KEY"; "LINEAR_API_KEY"].
Definition env_var (name : string) : matcher := fun prev l =>
  if negb (boundary prev (head l)) then None else
  '(name, r) ← strip_ci (lit name) l;
  if negb (boundary (last name) (head r)) then None else
  let '(w1, r1) := span_ws (List.length r) r in
  match r1 with
  | c :: r2 =>
      if is_one_of "=:" c then
        let '(w2, r3) := span_ws (List.length r2) r2 in
        match span_not_ws any r3 with
        | ([], _) => None
        | (_, rest) => Some (name ++ w1 ++ c :: w2 ++ mark, rest)
        end
      else None
  | [] => None
  end.
Definition env_assignment : matcher := fun prev l =>
  foldr (fun name k => match env_var name prev l with Some x => Some x | None => k end) None SECRET_VARS.

(** [=\s]+: the run and the rest. *)
Fixpoint span_eq_ws (fuel : nat) (l : chars) : chars * chars :=
  match fuel with
  | O => ([], l)
  | S f =>
      match l with
      | c :: r =>
          if Ascii.eqb c "=" then let '(a, b) := span_eq_ws f r in (c :: a, b)
          else match ws_width l with
               | Some w => let '(a, b) := span_eq_ws f (drop w l) in (take w l ++ a, b)
               | None => ([], l)
               end
      | [] => ([], [])
      end
  end.
(** The position after the first character of the last "=" in the run: where [\S+] starts
    when the run reaches the end of the text and the matcher has to give back. *)
Fixpoint last_eq (i : nat) (l : chars) (found : option nat) : option nat :=
  match l with
  | [] => found
  | c :: r => last_eq (S i) r (if Ascii.eqb c "=" && (0 <? i)%nat then Some i else found)
  end.
Definition token_arg : matcher := fun _ l =>
  r ← strip_lit "--token" l;
  match span_eq_ws (List.length r) r with
  | ([], _) => None
  | (run, (_ :: _) as rest) => Some (lit "--token" ++ run ++ mark, snd (span_not_ws any rest))
  | (run, []) => i ← last_eq 0 run None; Some (lit "--token" ++ take i run ++ mark, snd (span_not_ws any (drop i run)))
  end.
Definition token_query : matcher := fun _ l =>
  match l with
  | c :: l =>
      if is_one_of "?&" c then
        '(name, r) ← strip_ci (lit "token=") l;
        match span_not_ws (fun x => negb (is_one_of "&'" x || Ascii.eqb x dquote)) r with
        | ([], _) => None
        | (_, rest) => Some (c :: name ++ mark, rest)
        end
      else None
  | [] => None
  end.
Definition private_key : matcher := fun _ l =>
  r ← strip_lit "-----BEGIN " l;
  let tail k := rest ← strip_lit "PRIVATE KEY-----" k; Some (mark, rest) in
  match strip_lit "RSA " r, strip_lit "EC " r with
  | Some k, _ => match tail k with Some x => Some x | None => tail r end
  | None, Some k => match tail k with Some x => Some x | None => tail r end
  | None, None => tail r
  end.

Definition RULES : list matcher :=
  [github_token; github_pat; aws_key; openai_key; bearer; url_credentials; env_assignment; token_arg; token_query; private_key].

Definition redact_chars (l : chars) : chars := fold_left (fun l m => replace_all m (List.length l) None l) RULES l.
Definition redact (text : string) : string := string_of_list_ascii (redact_chars (lit text)).

Fixpoint redactDeep (v : value) : value :=
  match v with
  | VStr s => VStr (redact s)
  | VArr l => VArr (map redactDeep l)
  | VObj o => VObj (map (fun kv => (fst kv, redactDeep (snd kv))) o)
  | _ => v
  end.

Example redact_ex :
  redact "push https://x:y@github.com/a ghp_abcdefghij0123456789Z --token  s3cret Bearer abc== gh_token: v?token=q&k=1"
  = "push https://[REDACTED]@github.com/a [REDACTED] --token  [REDACTED] Bearer [REDACTED] gh_token: [REDACTED]".
Proof. vm_compute. reflexivity. Qed.
Example redact_ends : redact "--token==" = "--token=[REDACTED]" /\ redact "xAKIA0123456789ABCDEFG" = "x[REDACTED]G" /\ redact "my_gh_token=v" = "my_gh_token=v".
Proof. vm_compute. done. Qed.
