(* ===== verification/RunPolicy.v ===== *)
(** * Agent policies, failure classes and sandboxes (src/runtime/classify.ts, policy.ts,
      router.ts, codex-sandbox.ts, preauth.ts, agent-env.ts)

    The decisions the supervisor of a run takes, as pure functions: what a failure text
    means, which agents may take over, whether a pushing agent may run, and which sandbox
    Codex gets.  Messages are left out, except where the classifier reads them. *)

From S2P Require Import Prelude Values Json Contract Templates Verification Validator Outputs TaskContract Workspace Redact.

(** ** Failure classification *)

Record FailureClassification : Type := { fc_reason : string; fc_recoverable : bool }.

(** A pattern is a test of the text at a position: the character before it and the rest. *)
Definition pattern : Type := option ascii -> chars -> bool.
Fixpoint matches_from (p : pattern) (prev : option ascii) (l : chars) : bool :=
  p prev l || match l with [] => false | c :: r => matches_from p (Some c) r end.
Definition matches (p : pattern) (text : string) : bool := matches_from p None (lit text).

(** [/s/i]. *)
Definition ci (s : string) : pattern := fun _ l => is_some (strip_ci (lit s) l).
(** [/a(?:b|c)d/i]: the alternatives in turn. *)
Definition ci_any (l : list string) : pattern := fun prev t => existsb (fun s => ci s prev t) l.
(** [/\bs\b/] and [/\bs\b/i]. *)
Definition whole (s : string) : pattern := fun prev l =>
  match strip_lit s l with Some r => boundary prev (head l) && boundary (last (lit s)) (head r) | None => false end.
Definition whole_ci (s : string) : pattern := fun prev l =>
  match strip_ci (lit s) l with Some (m, r) => boundary prev (head l) && boundary (last m) (head r) | None => false end.
(** [/\d+ failing/i]: a match starts at a digit that is followed by more digits. *)
Definition digits_failing : pattern := fun _ l =>
  match span is_digit l with (_ :: _, r) => is_some (strip_ci (lit " failing") r) | _ => false end.

Record Rule : Type := { ru_reason : string; ru_recoverable : bool; ru_patterns : list pattern }.
Definition rule (reason : string) (recoverable : bool) (l : list pattern) : Rule := {| ru_reason := reason; ru_recoverable := recoverable; ru_patterns := l |}.

Definition FAILURE_RULES : list Rule :=
  [ rule "session_limit" true [ci "hit your session limit"; ci "session limit reached"; whole_ci "session limit"];
    rule "usage_limit" true [ci "usage limit"; ci "you've reached your usage"];
    rule "quota_exceeded" true [ci "quota exceeded"; ci "insufficient_quota"; ci "out of credits"];
    rule "rate_limited" true [ci "rate limit"; whole "429"; ci "too many requests"];
    rule "context_limit" true
      [ci_any ["context length limit"; "context length exceeded"; "context window limit"; "context window exceeded"]; ci "maximum context length"; ci "prompt is too long"];
    rule "auth_expired" true
      [ci "all credential paths are exhausted"; ci_any ["authentication failed"; "authentication expired"; "authentication required"]; whole "401"; ci "invalid api key";
       ci_any ["not logged in"; "not authenticated"]];
    rule "command_not_found" true [ci "cli not found in path"; ci "command not found"; whole "ENOENT"];
    rule "repo_not_allowed" false [ci "blocked by repo allowlist"; ci "repo_url_has_credentials"; ci "embedded credentials"];
    rule "auth_misconfigured" false [ci "auth preflight failed"; ci "not in the allowlist ["; ci "git credential manager"];
    rule "tests_failed" false [ci_any ["tests failed"; "test failed"]; ci "test suite failed"; digits_failing];
    rule "merge_conflict" false [ci "merge conflict"; ci "conflict markers"; ci "automatic merge failed"];
    rule "repo_not_found" false [ci "repository not found"; ci "could not read from remote repository"];
    rule "permission_denied" false [ci "permission denied"; ci "403 forbidden"; ci "access denied"];
    rule "unknown_repo" false [ci "workspace_repo_mismatch"; ci "does not match the requested repourl"; ci "is not a git checkout"];
    rule "invalid_task" false [ci "prompt file not found"; ci "invalid task"] ].

Definition classifyFailure (text : option string) : FailureClassification :=
  let haystack := default "" text in
  match List.find (fun r => existsb (fun p => matches p haystack) (ru_patterns r)) FAILURE_RULES with
  | Some r => {| fc_reason := ru_reason r; fc_recoverable := ru_recoverable r |}
  | None => {| fc_reason := "unknown"; fc_recoverable := false |}
  end.

Example classify_ex : classifyFailure (Some "HTTP 429: Too many requests") = {| fc_reason := "rate_limited"; fc_recoverable := true |}
  /\ classifyFailure (Some "error 4290") = {| fc_reason := "unknown"; fc_recoverable := false |}
  /\ classifyFailure (Some "12 failing") = {| fc_reason := "tests_failed"; fc_recoverable := false |}.
Proof. vm_compute. done. Qed.

(** ** Policies *)

Definition KNOWN_AGENTS : list string := ["mock"; "claude-code"; "codex"; "opencode"].
Definition KNOWN_REASONS : list string :=
  ["session_limit"; "usage_limit"; "quota_exceeded"; "rate_limited"; "context_limit"; "auth_expired"; "command_not_found";
   "tests_failed"; "merge_conflict"; "repo_not_found"; "permission_denied"; "unknown_repo"; "invalid_task"].
Definition DEFAULT_SWITCH_ON : list string := ["session_limit"; "usage_limit"; "quota_exceeded"; "rate_limited"].

Record AgentPolicy : Type := {
  ap_primary : string; ap_fallbacks : list string; ap_switchOn : list string; ap_preserveWorkspace : value; ap_handoffOnSwitch : value }.

Definition known_strings (known : list string) (l : list value) : list string :=
  flat_map (fun v => match v with VStr s => if s ∈b known then [s] else [] | _ => [] end) l.

(** [x.length > 0] of a value that is not an array; a numeral in a string is decimal. *)
Definition length_positive (v : value) : bool :=
  match v with
  | VStr s => negb (s =s "")
  | VObj _ => match get "length" v with
              | VNum (NInt z) => 0 <? z
              | VNum (NDec m _) => 0 <? m
              | VNum (NInf neg) => negb neg
              | VBool b => b
              | VStr s => match parse_num (lit (trim s)) with Some (NInt z, []) => 0 <? z | Some (NDec m _, []) => 0 <? m | _ => false end
              | _ => false
              end
  | _ => false
  end.

(** [None] where a [filter] that is not a function is called: metadata are not checked. *)
Definition resolveAgentPolicy (record : RunRecord) : option AgentPolicy :=
  let meta := get "agent_policy" (rec_metadata record) in
  fallbacks ← (match get "fallbacks" meta with
               | VUndef | VNull => Some []
               | VArr l => Some (known_strings KNOWN_AGENTS l)
               | _ => None
               end);
  switchOn ← (match get "switch_on" meta with
              | VArr [] => Some DEFAULT_SWITCH_ON
              | VArr l => Some (known_strings KNOWN_REASONS l)
              | v => if length_positive v then None else Some DEFAULT_SWITCH_ON
              end);
  let or_true k := let v := get k meta in if is_nullish v then VBool true else v in
  Some {| ap_primary := rec_agent record; ap_fallbacks := fallbacks; ap_switchOn := switchOn;
          ap_preserveWorkspace := or_true "preserve_workspace"; ap_handoffOnSwitch := or_true "handoff_on_switch" |}.

(** [input.flatMap(s => s.split(/[,\s]+/)).map(trim).filter(Boolean)]. *)
Fixpoint split_list (fuel : nat) (acc : chars) (l : chars) : list string :=
  match fuel with
  | O => [string_of_list_ascii (rev acc)]
  | S f =>
      match l with
      | [] => [string_of_list_ascii (rev acc)]
      | c :: r =>
          if Ascii.eqb c "," then string_of_list_ascii (rev acc) :: split_list f [] r
          else match ws_width l with
               | Some w => string_of_list_ascii (rev acc) :: split_list f [] (drop w l)
               | None => split_list f (c :: acc) r
               end
      end
  end.
Definition parseList (input : list string) : list string :=
  List.filter (fun s => negb (s =s "")) (map trim (flat_map (fun s => split_list (S (String.length s)) [] (lit s)) input)).

(** [None] when no fallback was requested: the record gets no policy. *)
Definition buildAgentPolicyMetadata (fallbackAgents switchOn : list string) (handoffOnFailure preserveWorkspace : option bool) : option value :=
  match List.filter (fun a => a ∈b KNOWN_AGENTS) (parseList fallbackAgents) with
  | [] => None
  | fallbacks =>
      let switch_on := List.filter (fun r => r ∈b KNOWN_REASONS) (parseList switchOn) in
      let flag k (o : option bool) := match o with Some b => [(k, VBool b)] | None => [] end in
      Some (VObj ([("fallbacks", VArr (map VStr fallbacks))]
        ++ match switch_on with [] => [] | _ => [("switch_on", VArr (map VStr switch_on))] end
        ++ flag "handoff_on_switch" handoffOnFailure ++ flag "preserve_workspace" preserveWorkspace))
  end.

(** ** The router *)

Definition DEFAULT_RUNNER_PRIORITY : list string := ["claude-code"; "codex"; "opencode"; "mock"].
Record RouterResult : Type := { rr_agent : option string; rr_tried : list string }.

Fixpoint select_auto (isAvailable : string -> bool) (priority tried : list string) : RouterResult :=
  match priority with
  | [] => {| rr_agent := None; rr_tried := tried |}
  | c :: r => if isAvailable c then {| rr_agent := Some c; rr_tried := tried ++ [c] |} else select_auto isAvailable r (tried ++ [c])
  end.
Definition selectRunner (requested : string) (isAvailable : string -> bool) (priority : list string) : RouterResult :=
  if negb (requested =s "auto") then {| rr_agent := Some requested; rr_tried := [] |} else select_auto isAvailable priority [].

Definition BACKEND_BINARY (agent : string) : option string :=
  if agent =s "claude-code" then Some "claude" else if agent =s "codex" then Some "codex" else if agent =s "opencode" then Some "opencode" else None.
Definition defaultAvailability (binaryExists : string -> bool) (agent : string) : bool :=
  match BACKEND_BINARY agent with Some b => binaryExists b | None => true end.

(** ** The Codex sandbox *)

Inductive CodexSandboxMode : Type := read_only | workspace_write.
Inductive LeaseDecisionState : Type := active_match | lease_none | lease_inactive | lease_mismatch | lease_invalid.

Definition DENY (l : LeaseDecisionState) : string :=
  match l with
  | active_match => ""
  | lease_none => "workspace_lease_required"
  | lease_inactive => "workspace_lease_inactive"
  | lease_mismatch => "workspace_lease_mismatch"
  | lease_invalid => "workspace_lease_invalid"
  end.

(** The mode with its writable root, or the code of the refusal. *)
Definition resolveCodexSandbox (writeRequested : bool) (lease : LeaseDecisionState) (workspacePath : string) : result string (CodexSandboxMode * option string) :=
  if negb writeRequested then Ok (read_only, None)
  else match lease with active_match => Ok (workspace_write, Some workspacePath) | _ => Err (DENY lease) end.

(** [lease]: the record of the Node's journal, a JSON value; [None] is null. *)
Definition deriveLeaseState (record : RunRecord) (lease : option value) : LeaseDecisionState :=
  match rec_workspace_lease_id record with
  | None => lease_none
  | Some id =>
      if id =s "" then lease_none else
      match lease with
      | None => lease_invalid
      | Some l =>
          if negb (strict_eq (get "status" l) (VStr "active")) then lease_inactive
          else if negb (strict_eq (get "node_id" l) (VStr (rec_node_id record)))
               || negb (strict_eq (get "workspace_key" l) (match rec_workspace_key record with Some k => VStr k | None => VUndef end)) then lease_mismatch
          else active_match
      end
  end.

(** ** GitHub credentials *)

Definition ALLOWED_GITHUB_ACCOUNTS : list string := ["JozzyAI"].

(** An environment flag that is 1/true or 0/false, or else the default. *)
Definition env_flag (flag : option string) (dflt : bool) : bool :=
  match flag with
  | Some f => if (f =s "1") || (f =s "true") then true else if (f =s "0") || (f =s "false") then false else dflt
  | None => dflt
  end.
Definition preauthEnabled (flag : option string) (isWsl : bool) : bool := env_flag flag isWsl.
Definition gitHardeningEnabled (flag : option string) (isWsl : bool) : bool := env_flag flag isWsl.

(** May a pushing agent run as the account the credential helper resolves to? *)
Definition evaluatePreauth (username : option string) (allowed : list string) : bool :=
  match username with Some u => negb (u =s "") && (u ∈b allowed) | None => false end.

(** [/github\.com/i.test(url)]. *)
Definition is_github (url : string) : bool := matches (ci "github.com") url.
Definition pushing (chain : list string) : bool := existsb (fun a => (a =s "claude-code") || (a =s "codex")) chain.
(** The condition of [shouldPreauth] and [shouldRepoGate], with their switch. *)
Definition gate_applies (enabled : bool) (record : RunRecord) (chain : list string) : bool :=
  enabled && match rec_repo_url record with Some u => negb (u =s "") && is_github u | None => false end && pushing chain.

(** ** The environment of agent processes (src/runtime/agent-env.ts) *)

Definition AGENT_GIT_CONFIG : list (string * string) :=
  [ ("credential.helper", ""); ("credential.https://github.com.helper", "!/usr/bin/gh auth git-credential");
    ("user.name", "JozzyAI Vibe Agent"); ("user.email", "actions@users.noreply.github.com") ].

(** A Windows directory of a Git installation, reachable from WSL. *)
Definition windows_git (entry : string) : bool := starts_with "/mnt/" entry && matches (ci "/git/") entry.
Definition core_bins : list string := ["/usr/bin"; "/bin"].

Definition sanitizePath (rawPath : option string) (isWslHost : bool) : string :=
  let raw := default "" rawPath in
  if negb isWslHost then raw else
  let entries := List.filter (fun e => negb (e =s "")) (split_char ":" raw) in
  let filtered := List.filter (fun e => negb (windows_git e)) entries in
  String.concat ":" (core_bins ++ List.filter (fun e => negb (e ∈b core_bins)) filtered).

Definition buildAgentEnv (baseEnv : gmap string string) (hardening : bool) : gmap string string :=
  if negb hardening then baseEnv else
  let env := <["GIT_TERMINAL_PROMPT" := "0"]> (<["PATH" := sanitizePath (baseEnv !! "PATH") true]> baseEnv) in
  let env := <["GIT_CONFIG_COUNT" := zstr (Z.of_nat (List.length AGENT_GIT_CONFIG))]> env in
  foldl (fun env '(i, (k, v)) => <["GIT_CONFIG_VALUE_" +:+ zstr (Z.of_nat i) := v]> (<["GIT_CONFIG_KEY_" +:+ zstr (Z.of_nat i) := k]> env)) env
    (imap pair AGENT_GIT_CONFIG).
