(* ===== verification/Supervisor.v ===== *)
(** * The supervisor of a run (src/runtime/supervisor.ts, handoff.ts, verifier.ts,
      src/store.ts, src/events.ts)

    [runSupervisor] owns the lifecycle of one run: it passes the gates, runs the agents of
    the policy's chain until one completes or a failure ends the run, has the result
    verified and writes the terminal status.  The run record and the event log are files
    other processes use too: before every access they may do anything to them ([ev_other]).
    Agents, git, the verifier's process and the credential helper are parameters.  What
    the supervisor itself does is recorded in [wd_acts].  The texts of its own diagnostics
    are abbreviated. *)

From S2P Require Import Prelude Machine Values Json Contract Templates Verification Validator Outputs TaskContract Workspace Redact RunPolicy.

(** ** Files *)

Record Files : Type := { fl_run : option RunRecord; fl_events : list RunEvent }.

Definition redact_opt (o : option string) : option string := redact <$> o.
(** [redactDeep] of a run record and of an event. *)
Definition redact_record (r : RunRecord) : RunRecord :=
  {| rec_run_id := redact (rec_run_id r); rec_session_id := redact (rec_session_id r); rec_node_id := redact (rec_node_id r);
     rec_node_selector := redact_opt (rec_node_selector r); rec_agent := redact (rec_agent r); rec_status := rec_status r;
     rec_workspace_path := redact (rec_workspace_path r); rec_session_url := redact_opt (rec_session_url r);
     rec_repo_url := redact_opt (rec_repo_url r); rec_branch := redact_opt (rec_branch r); rec_prompt_file := redact_opt (rec_prompt_file r);
     rec_permission_mode := redact_opt (rec_permission_mode r); rec_metadata := redactDeep (rec_metadata r); rec_child_pid := rec_child_pid r;
     rec_started_agent := redact_opt (rec_started_agent r); rec_final_agent := redact_opt (rec_final_agent r); rec_switched := rec_switched r;
     rec_switch_reason := redact_opt (rec_switch_reason r); rec_handoff_path := redact_opt (rec_handoff_path r);
     rec_failure_reason := redact_opt (rec_failure_reason r); rec_recoverable := rec_recoverable r; rec_exit_code := rec_exit_code r;
     rec_error := redact_opt (rec_error r); rec_result_status := redact_opt (rec_result_status r);
     rec_task_result := redactDeep (rec_task_result r); rec_workspace_lease_id := redact_opt (rec_workspace_lease_id r);
     rec_workspace_key := redact_opt (rec_workspace_key r); rec_workspace_write := rec_workspace_write r; rec_verify := redactDeep (rec_verify r);
     rec_event_aes_key := redact_opt (rec_event_aes_key r); rec_stop_aes_key := redact_opt (rec_stop_aes_key r);
     rec_approval_aes_key := redact_opt (rec_approval_aes_key r); rec_created_at := redact (rec_created_at r);
     rec_updated_at := redact (rec_updated_at r) |}.
Definition redact_body (b : RunEventBody) : RunEventBody :=
  match b with
  | StatusEvent s => StatusEvent s
  | LogEvent stream message => LogEvent (redact stream) (redact message)
  | ApprovalRequiredEvent id message => ApprovalRequiredEvent (redact id) (redact message)
  | ApprovalResponseEvent id decision message => ApprovalResponseEvent (redact id) (redact decision) (redact_opt message)
  | ToolCallEvent tool input => ToolCallEvent (redact tool) (redactDeep input)
  | PrCreatedEvent url => PrCreatedEvent (redact url)
  | ErrorEvent message code => ErrorEvent (redact message) (redact_opt code)
  end.

(** The fields the supervisor writes; [None] leaves a field as it is. *)
Record RunPatch : Type := {
  pt_status : option RunStatus; pt_started_agent : option string; pt_final_agent : option string; pt_switched : option bool;
  pt_failure_reason : option string; pt_recoverable : option bool; pt_switch_reason : option string; pt_handoff_path : option string;
  pt_exit_code : option Z; pt_error : option string; pt_result : option (string * option value); pt_clear_child : bool }.

Definition pick {A : Type} (new old : option A) : option A := match new with Some x => Some x | None => old end.
Definition apply_patch (p : RunPatch) (now : string) (r : RunRecord) : RunRecord :=
  {| rec_run_id := rec_run_id r; rec_session_id := rec_session_id r; rec_node_id := rec_node_id r; rec_node_selector := rec_node_selector r;
     rec_agent := rec_agent r; rec_status := default (rec_status r) (pt_status p); rec_workspace_path := rec_workspace_path r;
     rec_session_url := rec_session_url r; rec_repo_url := rec_repo_url r; rec_branch := rec_branch r; rec_prompt_file := rec_prompt_file r;
     rec_permission_mode := rec_permission_mode r; rec_metadata := rec_metadata r;
     rec_child_pid := if pt_clear_child p then None else rec_child_pid r;
     rec_started_agent := pick (pt_started_agent p) (rec_started_agent r); rec_final_agent := pick (pt_final_agent p) (rec_final_agent r);
     rec_switched := pick (pt_switched p) (rec_switched r); rec_switch_reason := pick (pt_switch_reason p) (rec_switch_reason r);
     rec_handoff_path := pick (pt_handoff_path p) (rec_handoff_path r); rec_failure_reason := pick (pt_failure_reason p) (rec_failure_reason r);
     rec_recoverable := pick (pt_recoverable p) (rec_recoverable r); rec_exit_code := pick (pt_exit_code p) (rec_exit_code r);
     rec_error := pick (pt_error p) (rec_error r); rec_result_status := pick (fst <$> pt_result p) (rec_result_status r);
     rec_task_result := match pt_result p with Some (_, Some v) => v | _ => rec_task_result r end;
     rec_workspace_lease_id := rec_workspace_lease_id r; rec_workspace_key := rec_workspace_key r; rec_workspace_write := rec_workspace_write r;
     rec_verify := rec_verify r; rec_event_aes_key := rec_event_aes_key r; rec_stop_aes_key := rec_stop_aes_key r;
     rec_approval_aes_key := rec_approval_aes_key r; rec_created_at := rec_created_at r; rec_updated_at := now |}.

(** ** The environment *)

Inductive outcome_result : Type := out_completed | out_failed.
Record AgentOutcome : Type := {
  oc_result : outcome_result; oc_failureMessage : option string; oc_tailOutput : option string; oc_exitCode : option Z; oc_finalOutput : option string }.
Record AgentAdapterContext : Type := { cx_promptOverridePath : option string; cx_codexSandbox : option CodexSandboxMode }.
Definition no_context : AgentAdapterContext := {| cx_promptOverridePath := None; cx_codexSandbox := None |}.

(** How the verifier's process ended, and what was captured of its output. *)
Inductive VerifierProcess : Type :=
  | spawn_threw (message : string)
  | process_error (message captured : string)
  | process_closed (code : option Z) (signal : option string) (timedOut killedForCap : bool) (captured : string).

(** [ev_listing]: the entries of a workspace, whether it has [.git], its origin;
    [ev_lease]: [resolveWorkspaceLease]; [ev_program]: [resolveProgram]; [ev_enforces]:
    [detectEnforcingSandbox]; [ev_wrap]: does [wrapVerifierCommand] succeed; [ev_git]: the
    trimmed output of a git command, or the empty string; [ev_read]: [None] where reading
    throws, [Some None] where there is no such file; [ev_write]: is a file written; [ev_io]:
    does an access to the run file or the event log succeed, or does it throw.  The entries
    of a listing are [None] where the directory cannot be read. *)
Record Environment (E : Type) : Type := {
  ev_other : E -> Files -> Files * E;
  ev_now : E -> string * E;
  ev_adapter : string -> RunRecord -> AgentAdapterContext -> E -> Files -> result string AgentOutcome * (Files * E);
  ev_username : E -> option string * E;
  ev_listing : string -> E -> (option (list string) * bool * option string) * E;
  ev_lease : string -> E -> option value * E;
  ev_program : string -> E -> option string * E;
  ev_enforces : E -> bool * E;
  ev_wrap : list string -> string -> E -> bool * E;
  ev_process : list string -> string -> E -> VerifierProcess * E;
  ev_git : string -> string -> E -> string * E;
  ev_read : string -> E -> option (option string) * E;
  ev_write : string -> string -> E -> bool * E;
  ev_io : E -> bool * E }.
Arguments ev_other {E}. Arguments ev_now {E}. Arguments ev_adapter {E}. Arguments ev_username {E}. Arguments ev_listing {E}. Arguments ev_lease {E}.
Arguments ev_program {E}. Arguments ev_enforces {E}. Arguments ev_wrap {E}. Arguments ev_process {E}. Arguments ev_git {E}. Arguments ev_read {E}. Arguments ev_write {E}. Arguments ev_io {E}.

(** What the supervisor learned and did: the record and policy it began with, the account
    and lease it was told, the workspace it last looked at, preflights that passed, events
    it appended, patches it wrote, agents it started and their outcomes, verifications, and
    the status of the run it read after an agent returned. *)
Inductive Act : Type :=
  | Began (initial : RunRecord) (policy : AgentPolicy)
  | Account (username : option string)
  | LeaseRead (id : string) (lease : option value)
  | Preflighted (config : value)
  | Emitted (body : RunEventBody)
  | Patched (p : RunPatch)
  | Launched (agent : string) (record : RunRecord) (ctx : AgentAdapterContext)
  | Returned (agent : string) (outcome : AgentOutcome)
  | Listed (workspace : string) (entries : list string) (isGit : bool) (origin : option string)
  | Verified (config : value) (process : VerifierProcess) (verification : TaskVerificationV1)
  | Checked (status : RunStatus).

Record World (E : Type) : Type := { wd_files : Files; wd_env : E; wd_acts : list Act }.
Arguments wd_files {E}. Arguments wd_env {E}. Arguments wd_acts {E}. Arguments Build_World {E}.

(** [process.exit(3)] of [readRun], or an error nothing catches. *)
Inductive Halt : Type := run_not_found | uncaught.

(** The configuration of the process: digest, repository policy, environment flags. *)
Record SupervisorConfig : Type := { sc_sha256 : string -> string; sc_policy : RepoPolicy; sc_preauth : option string; sc_wsl : bool; sc_vibeDir : string }.

Section Supervisor.
Context {E : Type} (env : Environment E) (cfg : SupervisorConfig) (run_id : string).

Definition SV (A : Type) : Type := ST (World E) Halt A.

Definition with_env {A : Type} (f : E -> A * E) : SV A := fun w =>
  let '(a, e) := f (wd_env w) in (Ok a, Build_World (wd_files w) e (wd_acts w)).
Definition acted (a : Act) : SV unit := update (fun w => Build_World (wd_files w) (wd_env w) (wd_acts w ++ [a])).
Definition interfere : SV unit := update (fun w =>
  let '(f, e) := ev_other env (wd_env w) (wd_files w) in Build_World f e (wd_acts w)).

(** ** Store and event log *)

(** An access to a file by [fs], which throws where it fails. *)
Definition accessed : SV unit := ok ← with_env (ev_io env); ensure ok uncaught.

Definition readRun : SV RunRecord := interfere;; o ← asks (fun w => fl_run (wd_files w)); r ← obtain o run_not_found; accessed;; mret r.

Definition writeRun (r : RunRecord) : SV unit := accessed;; update (fun w =>
  Build_World {| fl_run := Some (redact_record r); fl_events := fl_events (wd_files w) |} (wd_env w) (wd_acts w)).

(** Reading and writing are two accesses: another process may write in between. *)
Definition updateRun (p : RunPatch) : SV unit :=
  r ← readRun; now ← with_env (ev_now env); interfere;; writeRun (apply_patch p now r);; acted (Patched p).

Definition appendEvent (b : RunEventBody) : SV unit :=
  interfere;; now ← with_env (ev_now env); accessed;;
  update (fun w => Build_World {| fl_run := fl_run (wd_files w);
    fl_events := fl_events (wd_files w) ++ [{| re_run_id := redact run_id; re_ts := redact now; re_body := redact_body b |}] |} (wd_env w) (wd_acts w));;
  acted (Emitted b).

(** [appendEvent] as the last statement of a [try]: [false] where it throws. *)
Definition appended (b : RunEventBody) : SV bool := fun w =>
  match appendEvent b w with
  | (Ok _, w') => (Ok true, w')
  | (Err uncaught, w') => (Ok false, w')
  | (Err e, w') => (Err e, w')
  end.

(** ** The verifier (src/runtime/verifier.ts) *)

Inductive preflight_code : Type := pf_invalid_config | pf_unknown_profile | pf_program_not_found | pf_sandbox_unavailable.

Definition verifierPreflight (config : value) : SV (result preflight_code (string * list string)) :=
  match validateTaskVerifyConfig config with
  | Err vc_unknown_profile => mret (Err pf_unknown_profile)
  | Err _ => mret (Err pf_invalid_config)
  | Ok id =>
      match resolveVerifierProfile id with
      | None => mret (Err pf_unknown_profile)
      | Some profile =>
          match vp_argv profile with
          | [] => mret (Err pf_program_not_found)
          | program :: args =>
              path ← with_env (ev_program env program);
              match path with
              | None => mret (Err pf_program_not_found)
              | Some path =>
                  enforces ← with_env (ev_enforces env);
                  if enforces : bool then acted (Preflighted config);; mret (Ok (vp_id profile, path :: args)) else mret (Err pf_sandbox_unavailable)
              end
          end
      end
  end.

Definition MAX_VERIFY_OUTPUT_BYTES : Z := 256 * 1024.
Definition VERIFY_TIMEOUT_MS : Z := 10 * 60 * 1000.

(** The exit code and output the record is built from.  Where [spawn] throws, [finish]
    reads [timer] before its declaration, so that throws too. *)
Definition settle (p : VerifierProcess) : option (Z * string) :=
  let with_note note captured := note +:+ String "010" captured in
  match p with
  | spawn_threw _ => None
  | process_error m captured => Some (127, with_note ("verifier process error: " +:+ m) captured)
  | process_closed code signal timedOut killedForCap captured =>
      Some (if timedOut then (124, with_note ("verifier timed out after " +:+ zstr VERIFY_TIMEOUT_MS +:+ "ms") captured)
            else if killedForCap then (1, with_note ("verifier output exceeded " +:+ zstr MAX_VERIFY_OUTPUT_BYTES +:+ " bytes; killed") captured)
            else (default 1 code, match signal with Some s => with_note ("verifier killed by signal " +:+ s) captured | None => captured end))
  end.

(** [None] where it throws: the preflight, the sandbox or the spawn fails. *)
Definition runVerifier (config : value) (workspaceCwd : string) : SV (option TaskVerificationV1) :=
  pf ← verifierPreflight config;
  match pf with
  | Err _ => mret None
  | Ok (profile, argv) =>
      wrapped ← with_env (ev_wrap env argv workspaceCwd);
      if negb wrapped then mret None else
      startedAt ← with_env (ev_now env);
      p ← with_env (ev_process env argv workspaceCwd);
      match settle p with
      | None => mret None
      | Some (exitCode, output) =>
          finishedAt ← with_env (ev_now env);
          let v := buildTaskVerification (sc_sha256 cfg) profile argv exitCode startedAt finishedAt output in
          acted (Verified config p v);; mret (Some v)
      end
  end.

(** ** Handoffs (src/runtime/handoff.ts) *)

Definition handoffPath (id : string) : string := sc_vibeDir cfg +:+ "/handoff/" +:+ id +:+ ".md".
Definition metaString (record : RunRecord) (key : string) : option string :=
  match get key (rec_metadata record) with VStr s => if trim s =s "" then None else Some (trim s) | _ => None end.

Definition NEXT_ACTION (reason : string) : option string :=
  let tail := " Continue the in-progress work in this same workspace and branch." in
  if reason =s "session_limit" then Some "The primary agent hit its session limit. Resume the work in this same workspace and branch — do not restart from scratch."
  else if reason =s "usage_limit" then Some ("The primary agent hit a usage limit." +:+ tail)
  else if reason =s "quota_exceeded" then Some ("The primary agent ran out of quota/credits." +:+ tail)
  else if reason =s "rate_limited" then Some ("The primary agent was rate limited." +:+ tail)
  else if reason =s "context_limit" then Some "The primary agent exceeded its context window. Continue the work; summarize prior progress from the git state below rather than re-reading everything."
  else if reason =s "auth_expired" then Some "The primary agent lost authentication. Continue the work in this same workspace and branch."
  else None.

Definition or_text (s dflt : string) : string := if s =s "" then dflt else s.
Definition line_feed : string := String "010" "".

Definition handoff_lines (record : RunRecord) (prevAgent nextAgent reason : string) (failureMessage : option string) (branch status log : string) : list string :=
  let issueId := metaString record "issue_id" in
  let issueTitle := metaString record "issue_title" in
  [ "# Handoff — " +:+ rec_run_id record;
    "**From agent:** " +:+ prevAgent; "**To agent:** " +:+ nextAgent; "**Failure reason:** " +:+ reason;
    match truthy_string failureMessage with Some m => "**Primary diagnostic:** " +:+ m | None => "" end;
    "## Task";
    match issueId with
    | Some i => "- **Issue:** " +:+ i +:+ match issueTitle with Some t => " — " +:+ t | None => "" end
    | None => "- **Issue:** (none)" end;
    "- **Repo:** " +:+ default "(local workspace, no remote)" (rec_repo_url record);
    "- **Branch:** " +:+ branch; "- **Workspace:** " +:+ rec_workspace_path record;
    "## Work already in the workspace"; "### git status --porcelain"; "```"; status; "```";
    "### git log -5 --oneline"; "```"; log; "```"; "## Next action";
    default ("The primary agent (" +:+ prevAgent +:+ ") failed (" +:+ reason +:+ "). Continue the work in this same workspace and branch.") (NEXT_ACTION reason);
    "## Constraints";
    "- Continue in THIS workspace and branch. Do not delete, reset, or re-clone it.";
    "- Do not overwrite or force-push existing commits.";
    "- Do not embed tokens into git remotes or print secrets.";
    "- Pick up the original task below; the prior agent already made the changes shown above." ].

(** [None] where the file cannot be written. *)
Definition writeHandoff (record : RunRecord) (prevAgent nextAgent reason : string) (failureMessage : option string) : SV (option string) :=
  let ws := rec_workspace_path record in
  branch ← with_env (ev_git env ws "rev-parse --abbrev-ref HEAD");
  status ← with_env (ev_git env ws "status --porcelain");
  log ← with_env (ev_git env ws "log -5 --oneline");
  let doc := String.concat line_feed (List.filter (fun l => negb (l =s ""))
    (handoff_lines record prevAgent nextAgent reason failureMessage
       (or_text branch (or_text (default "" (rec_branch record)) "(unknown)")) (or_text status "(clean or not a git checkout)") (or_text log "(no commits)"))) in
  ok ← with_env (ev_write env (handoffPath (rec_run_id record)) (redact doc +:+ line_feed));
  mret (if ok : bool then Some (handoffPath (rec_run_id record)) else None).

(** [None] where reading or writing throws. *)
Definition buildFallbackPrompt (record : RunRecord) (handoffFile : string) : SV (option string) :=
  handoffText ← with_env (ev_read env handoffFile);
  original ← (match truthy_string (rec_prompt_file record) with
              | Some p => with_env (ev_read env p)
              | None => mret (Some None) end : SV (option (option string)));
  match handoffText, original with
  | Some h, Some o =>
      let out := sc_vibeDir cfg +:+ "/handoff/" +:+ rec_run_id record +:+ ".fallback.prompt.md" in
      ok ← with_env (ev_write env out (default "" h +:+ line_feed +:+ line_feed +:+ "---" +:+ line_feed +:+ line_feed +:+ default "" o));
      mret (if ok : bool then Some out else None)
  | _, _ => mret None
  end.

(** ** Gates *)

(** The code and the failure reason of an error of the repository gate. *)
Definition repo_refusal (err : repo_error) : string * string :=
  match err with
  | repo_url_has_credentials => ("repo_url_has_credentials", "repo_not_allowed")
  | repo_not_allowed => ("repo_not_allowed", "repo_not_allowed")
  | workspace_repo_mismatch => ("workspace_repo_mismatch", "unknown_repo")
  end.

(** [assertCleanRepoUrl(url); assertRepoAllowed(url, allowlist)]. *)
Definition url_error (url : string) (allowlist : list string) : option repo_error :=
  if negb (assertCleanRepoUrl url) then Some repo_url_has_credentials else if negb (isRepoAllowed url allowlist) then Some repo_not_allowed else None.

(** [None] when the gate passes. *)
Definition runRepoGate (repoUrl workspacePath : string) : SV (option (string * string)) :=
  let allowlist := resolveRepoAllowlist (rp_allowlist_env (sc_policy cfg)) [] in
  match url_error repoUrl allowlist with
  | Some err => mret (Some (repo_refusal err))
  | None =>
      first ← with_env (ev_listing env workspacePath);
      match (match snd first with Some origin => if nonempty origin then url_error origin allowlist else None | None => None end) with
      | Some err => mret (Some (repo_refusal err))
      | None =>
          '(entries, isGit, origin) ← with_env (ev_listing env workspacePath);
          match entries with
          | Some entries =>
              acted (Listed workspacePath entries isGit origin);;
              mret (match checkWorkspaceRepoMatch (sc_policy cfg) entries isGit origin repoUrl with Ok _ => None | Err err => Some (repo_refusal err) end)
          | None =>
              (* the checks before [readdirSync], which throws *)
              mret (Some (match checkWorkspaceRepoMatch (sc_policy cfg) [] isGit origin repoUrl with
                          | Ok _ => ("repo_gate_error", "repo_not_allowed")
                          | Err err => repo_refusal err end))
          end
      end
  end.

Definition shouldPreauth (record : RunRecord) (chain : list string) : bool := gate_applies (preauthEnabled (sc_preauth cfg) (sc_wsl cfg)) record chain.
Definition shouldRepoGate (record : RunRecord) (chain : list string) : bool := gate_applies (repoAllowlistEnabled (rp_enforce_env (sc_policy cfg)) None) record chain.

Definition started_patch (agent : string) : RunPatch :=
  {| pt_status := None; pt_started_agent := Some agent; pt_final_agent := None; pt_switched := None; pt_failure_reason := None; pt_recoverable := None;
     pt_switch_reason := None; pt_handoff_path := None; pt_exit_code := None; pt_error := None; pt_result := None; pt_clear_child := false |}.
(** The patch of a gate that fails before any agent runs. *)
Definition gate_patch (agent reason : string) : RunPatch :=
  {| pt_status := Some run_failed; pt_started_agent := Some agent; pt_final_agent := Some agent; pt_switched := Some false;
     pt_failure_reason := Some reason; pt_recoverable := Some false; pt_switch_reason := None; pt_handoff_path := None; pt_exit_code := None;
     pt_error := None; pt_result := None; pt_clear_child := true |}.

(** Report a gate's failure; [true] when the run has ended. *)
Definition gate_failed (agent reason message : string) (code : option string) : SV bool :=
  appendEvent (ErrorEvent message code);; updateRun (gate_patch agent reason);; appendEvent (StatusEvent run_failed);; mret true.

Definition preauth_gate (initial : RunRecord) (chain : list string) (agent : string) : SV bool :=
  if negb (shouldPreauth initial chain) then mret false else
  username ← with_env (ev_username env);
  acted (Account username);;
  if evaluatePreauth username ALLOWED_GITHUB_ACCOUNTS then mret false
  else gate_failed agent "auth_misconfigured" "auth preflight failed" (Some "auth_misconfigured").

Definition repo_gate (initial : RunRecord) (chain : list string) (agent : string) : SV bool :=
  if negb (shouldRepoGate initial chain) then mret false else
  refusal ← runRepoGate (default "" (rec_repo_url initial)) (rec_workspace_path initial);
  match refusal with
  | None => mret false
  | Some (code, reason) => gate_failed agent reason "repo gate failed" (Some code)
  end.

Definition verifier_gate (initial : RunRecord) (agent : string) : SV bool :=
  if negb (truthy (rec_verify initial)) then mret false else
  pf ← verifierPreflight (rec_verify initial);
  match pf with
  | Ok _ => mret false
  | Err _ => gate_failed agent "verifier_unavailable" "test verifier unavailable" (Some "verifier_unavailable")
  end.

(** ** The chain of agents *)

(** What the loop carries from one agent to the next. *)
Record Turn : Type := { tn_ctx : AgentAdapterContext; tn_switched : bool; tn_switchReason : option string; tn_handoff : option string }.
Definition first_turn : Turn := {| tn_ctx := no_context; tn_switched := false; tn_switchReason := None; tn_handoff := None |}.

(** A terminal patch: [...(switchReason && { switch_reason }), ...(handoffStr && { handoff_path })]. *)
Definition end_patch (status : RunStatus) (agent : string) (t : Turn) (failure : option (string * bool)) (exitCode : option Z) (error : option string)
    (res : option (string * option value)) : RunPatch :=
  {| pt_status := Some status; pt_started_agent := None; pt_final_agent := Some agent; pt_switched := Some (tn_switched t);
     pt_failure_reason := fst <$> failure; pt_recoverable := snd <$> failure; pt_switch_reason := truthy_string (tn_switchReason t);
     pt_handoff_path := truthy_string (tn_handoff t); pt_exit_code := exitCode; pt_error := truthy_string error; pt_result := res; pt_clear_child := true |}.

Definition end_run (status : RunStatus) (p : RunPatch) : SV unit := updateRun p;; appendEvent (StatusEvent status).
Definition fail_with (agent reason message : string) (code : option string) (t : Turn) : SV unit :=
  appendEvent (ErrorEvent message code);; end_run run_failed (end_patch run_failed agent t (Some (reason, false)) None None None).

(** The state of the lease a write-permitted task names. *)
Definition codex_lease (record : RunRecord) (writeRequested : bool) : SV LeaseDecisionState :=
  if negb writeRequested then mret lease_none else
  match truthy_string (rec_workspace_lease_id record) with
  | Some id => lease ← with_env (ev_lease env id); acted (LeaseRead id lease);; mret (deriveLeaseState record lease)
  | None => mret (deriveLeaseState record None)
  end.

(** The sandbox of a Codex task; [None] when it was refused and the run has ended. *)
Definition codex_gate (agent : string) (record : RunRecord) (t : Turn) : SV (option AgentAdapterContext) :=
  if negb (agent =s "codex") || bool_decide (rec_permission_mode record = Some "unsafe-skip") then mret (Some (tn_ctx t)) else
  let writeRequested := bool_decide (rec_workspace_write record = Some true) in
  lease ← codex_lease record writeRequested;
  let decision := resolveCodexSandbox writeRequested lease (rec_workspace_path record) in
  appendEvent (LogEvent "stdout" "codex sandbox");;
  match decision with
  | Err code => fail_with agent "permission_denied" ("codex workspace-write denied: " +:+ code) (Some code) t;; mret None
  | Ok (mode, _) => mret (Some {| cx_promptOverridePath := cx_promptOverridePath (tn_ctx t); cx_codexSandbox := Some mode |})
  end.

(** [adapter.run], with the outcome of an adapter that throws. *)
Definition run_adapter (agent : string) (record : RunRecord) (ctx : AgentAdapterContext) : SV AgentOutcome :=
  acted (Launched agent record ctx);;
  r ← (fun w => let '(r, (f, e)) := ev_adapter env agent record ctx (wd_env w) (wd_files w) in (Ok r, Build_World f e (wd_acts w)));
  outcome ← (match r with
             | Ok o => mret o
             | Err m =>
                 let message := agent +:+ " adapter crashed: " +:+ m in
                 appendEvent (ErrorEvent message None);;
                 mret {| oc_result := out_failed; oc_failureMessage := Some message; oc_tailOutput := Some message; oc_exitCode := None; oc_finalOutput := None |}
             end : SV AgentOutcome);
  acted (Returned agent outcome);; mret outcome.

Definition finalizeResult (outcome : AgentOutcome) (verification : option TaskVerificationV1) (now : string) : string * option value :=
  match oc_finalOutput outcome with
  | Some fo => if byteLen fo <=? MAX_FINAL_OUTPUT_BYTES
               then ("available", Some (result_json (buildTaskResult (sc_sha256 cfg) fo (oc_exitCode outcome) None now [] [] verification)))
               else ("missing", None)
  | None => ("missing", None)
  end.

(** The agent completed: verify where the task asks for it, record the result. *)
Definition complete_run (agent : string) (record : RunRecord) (t : Turn) (outcome : AgentOutcome) : SV unit :=
  let finish (verification : option TaskVerificationV1) : SV unit :=
    now ← with_env (ev_now env);
    end_run run_completed (end_patch run_completed agent t None (oc_exitCode outcome) None (Some (finalizeResult outcome verification now))) in
  if negb (truthy (rec_verify record)) then finish None else
  pf ← verifierPreflight (rec_verify record);
  match pf with
  | Err _ => fail_with agent "verifier_unavailable" "test verifier unavailable after agent run" (Some "verifier_unavailable") t
  | Ok _ =>
      v ← runVerifier (rec_verify record) (rec_workspace_path record);
      logged ← (match v with Some v => appended (LogEvent "stdout" ("verification: " +:+ tv_kind v)) | None => mret false end : SV bool);
      match v, logged with
      | Some v, true => finish (Some v)
      | _, _ => fail_with agent "verifier_unavailable" "test verifier error" (Some "verifier_error") t
      end
  end.

Definition will_switch (policy : AgentPolicy) (cls : FailureClassification) (rest : list string) : bool :=
  fc_recoverable cls && (fc_reason cls ∈b ap_switchOn policy) && match rest with [] => false | _ => true end.

Definition switch_patch (next reason : string) (handoff : option string) : RunPatch :=
  {| pt_status := None; pt_started_agent := None; pt_final_agent := Some next; pt_switched := Some true; pt_failure_reason := None; pt_recoverable := None;
     pt_switch_reason := Some reason; pt_handoff_path := truthy_string handoff; pt_exit_code := None; pt_error := None; pt_result := None; pt_clear_child := false |}.

(** Hand the work to the next agent. *)
Definition switch_agent (policy : AgentPolicy) (agent next : string) (record : RunRecord) (t : Turn) (cls : FailureClassification) (outcome : AgentOutcome) : SV Turn :=
  handoff ← (if truthy (ap_handoffOnSwitch policy) then
               h ← writeHandoff record agent next (fc_reason cls) (oc_failureMessage outcome);
               match h with
               | Some p => mret (Some p)
               | None => appendEvent (ErrorEvent "handoff generation failed" None);; mret None
               end
             else mret (tn_handoff t) : SV (option string));
  appendEvent (LogEvent "stdout" ("↪ switching agent: " +:+ agent +:+ " → " +:+ next +:+ " (reason: " +:+ fc_reason cls +:+ ")"));;
  updateRun (switch_patch next (fc_reason cls) handoff);;
  prompt ← (match truthy_string handoff with Some h => buildFallbackPrompt record h | None => mret None end : SV (option string));
  mret {| tn_ctx := {| cx_promptOverridePath := prompt; cx_codexSandbox := None |}; tn_switched := true; tn_switchReason := Some (fc_reason cls); tn_handoff := handoff |}.

Definition has_adapter (agent : string) : bool := agent ∈b ["mock"; "claude-code"; "codex"].

(** The loop over the chain. *)
Fixpoint try_agents (policy : AgentPolicy) (chain : list string) (t : Turn) : SV unit :=
  match chain with
  | [] => mret tt
  | agent :: rest =>
      record ← readRun;
      if negb (has_adapter agent) then fail_with agent "invalid_task" ("no adapter for agent: " +:+ agent) None t else
      ctx ← codex_gate agent record t;
      match ctx with
      | None => mret tt
      | Some ctx =>
          outcome ← run_adapter agent record ctx;
          current ← readRun;
          acted (Checked (rec_status current));;
          match rec_status current with
          | run_stopped => mret tt
          | _ =>
              match oc_result outcome with
              | out_completed => complete_run agent record t outcome
              | out_failed =>
                  let cls := classifyFailure (match oc_tailOutput outcome with Some s => Some s | None => oc_failureMessage outcome end) in
                  if will_switch policy cls rest then
                    t' ← switch_agent policy agent (default "" (head rest)) record t cls outcome;
                    try_agents policy rest t'
                  else
                    end_run run_failed (end_patch run_failed agent t (Some (fc_reason cls, fc_recoverable cls)) (oc_exitCode outcome) (oc_failureMessage outcome) None)
              end
          end
      end
  end.

Definition runSupervisor : SV unit :=
  initial ← readRun;
  policy ← obtain (resolveAgentPolicy initial) uncaught;
  acted (Began initial policy);;
  updateRun (started_patch (ap_primary policy));;
  appendEvent (StatusEvent run_running);;
  let chain := ap_primary policy :: ap_fallbacks policy in
  a ← preauth_gate initial chain (ap_primary policy);
  if a : bool then mret tt else
  b ← repo_gate initial chain (ap_primary policy);
  if b : bool then mret tt else
  c ← verifier_gate initial (ap_primary policy);
  if c : bool then mret tt else
  try_agents policy chain first_turn.
End Supervisor.
