(* ===== verification/SupervisorProps.v ===== *)
(** * The supervisor: what its log looks like

    A triple [logs P m Q] relates the log before and after a computation and its result.
    Most operations add only [quiet] acts; what remains is the life of the run ([life]:
    the statuses it wrote and announced) and the justification of every launch and of
    every completion by what the supervisor had done before ([legal]). *)

From S2P Require Import Prelude Machine Values Json Contract Templates Verification Validator Outputs TaskContract Workspace Redact RunPolicy Supervisor.

(** ** Projections of a log *)

(** Acts that neither end the run, start it, nor run an agent. *)
Definition quiet (a : Act) : bool :=
  match a with
  | Began _ _ | Emitted (StatusEvent _) | Launched _ _ _ | Returned _ _ | Checked run_stopped => false
  | Patched p => bool_decide (pt_status p = None)
  | _ => true
  end.

Inductive Life : Type := announced (s : RunStatus) | written (s : RunStatus) | seen_stopped.
Definition life_of (a : Act) : list Life :=
  match a with
  | Emitted (StatusEvent s) => [announced s]
  | Patched p => match pt_status p with Some s => [written s] | None => [] end
  | Checked run_stopped => [seen_stopped]
  | _ => []
  end.
Definition life (l : list Act) : list Life := flat_map life_of l.

Definition launches (l : list Act) : list string := flat_map (fun a => match a with Launched g _ _ => [g] | _ => [] end) l.
Definition outcomes (l : list Act) : list AgentOutcome := flat_map (fun a => match a with Returned _ o => [o] | _ => [] end) l.

Lemma life_app (l1 l2 : list Act) : life (l1 ++ l2) = life l1 ++ life l2.
Proof. apply flat_map_app. Qed.
Lemma launches_app (l1 l2 : list Act) : launches (l1 ++ l2) = launches l1 ++ launches l2.
Proof. apply flat_map_app. Qed.
Lemma outcomes_app (l1 l2 : list Act) : outcomes (l1 ++ l2) = outcomes l1 ++ outcomes l2.
Proof. apply flat_map_app. Qed.
Lemma life_quiet (l : list Act) (a : Act) : quiet a = true -> life (l ++ [a]) = life l.
Proof.
  intros Hq. rewrite life_app. enough (life [a] = []) as -> by apply app_nil_r.
  destruct a as [| | | |[]|p| | | | |[]]; try done. cbn in *. apply bool_decide_eq_true in Hq. by rewrite Hq.
Qed.
Lemma launches_quiet (l : list Act) (a : Act) : quiet a = true -> launches (l ++ [a]) = launches l.
Proof. intros Hq. rewrite launches_app. destruct a; try discriminate Hq; apply app_nil_r. Qed.
Lemma outcomes_quiet (l : list Act) (a : Act) : quiet a = true -> outcomes (l ++ [a]) = outcomes l.
Proof. intros Hq. rewrite outcomes_app. destruct a; try discriminate Hq; apply app_nil_r. Qed.

(** ** Triples *)

Section Triples.
Context {E : Type} (env : Environment E) (cfg : SupervisorConfig) (run_id : string).
Local Notation SV := (ST (World E) Halt).

Definition logs {A : Type} (P : list Act -> Prop) (m : SV A) (Q : result Halt A -> list Act -> Prop) : Prop :=
  forall w, P (wd_acts w) -> Q (fst (m w)) (wd_acts (snd (m w))).

Lemma logs_bind {A B : Type} (P : list Act -> Prop) (m : SV A) (Q : result Halt A -> list Act -> Prop) (k : A -> SV B) R :
  logs P m Q -> (forall a, logs (Q (Ok a)) (k a) R) -> (forall e l, Q (Err e) l -> R (Err e) l) -> logs P (m ≫= k) R.
Proof.
  intros Hm Hk He w Hw. unfold mbind, ST_bind. specialize (Hm w Hw). destruct (m w) as [[a|e] w']; cbn in *; [by apply Hk|by apply He].
Qed.
Lemma logs_ret {A : Type} (a : A) (P : list Act -> Prop) Q : (forall l, P l -> Q (Ok a) l) -> logs P (mret a : SV A) Q.
Proof. intros H w Hw. by apply H. Qed.
Lemma logs_acted (a : Act) (P : list Act -> Prop) Q : (forall l, P l -> Q (Ok tt) (l ++ [a])) -> logs P (acted a : SV unit) Q.
Proof. intros H w Hw. by apply H. Qed.
Lemma logs_weaken {A : Type} (m : SV A) (P P' : list Act -> Prop) Q Q' :
  logs P' m Q' -> (forall l, P l -> P' l) -> (forall r l, Q' r l -> Q r l) -> logs P m Q.
Proof. intros H HP HQ w Hw. by apply HQ, H, HP. Qed.
Lemma logs_pure {A : Type} (m : SV A) (F : Prop) (P : list Act -> Prop) Q : (F -> logs P m Q) -> logs (fun l => F /\ P l) m Q.
Proof. intros H w [HF Hw]. by apply H. Qed.

(** Operations that leave the log alone. *)
Class Silent {A : Type} (m : SV A) : Prop := silent : forall w, wd_acts (snd (m w)) = wd_acts w.
#[global] Instance silent_env {A : Type} (f : E -> A * E) : Silent (with_env f).
Proof. intros w. unfold with_env. by destruct (f _). Qed.
#[global] Instance silent_interfere : Silent (interfere env).
Proof. intros w. unfold interfere, update. cbn. by destruct (ev_other _ _ _). Qed.
#[global] Instance silent_asks {A : Type} (f : World E -> A) : Silent (asks f).
Proof. done. Qed.
#[global] Instance silent_obtain {A : Type} (o : option A) (e : Halt) : Silent (obtain o e : SV A).
Proof. by destruct o. Qed.
#[global] Instance silent_ret {A : Type} (a : A) : Silent (mret a : SV A).
Proof. done. Qed.
#[global] Instance silent_bind {A B : Type} (m : SV A) (k : A -> SV B) : Silent m -> (forall a, Silent (k a)) -> Silent (m ≫= k).
Proof. intros Hm Hk w. unfold mbind, ST_bind. specialize (Hm w). destruct (m w) as [[a|e] w']; cbn in *; [by rewrite Hk|done]. Qed.
#[global] Instance silent_accessed : Silent (accessed env).
Proof. unfold accessed. apply silent_bind; [apply _|]. by intros []. Qed.
#[global] Instance silent_read : Silent (readRun env).
Proof. unfold readRun. apply _. Qed.
#[global] Instance silent_write (r : RunRecord) : Silent (writeRun env r : SV unit).
Proof. unfold writeRun. apply silent_bind; [apply _|]. by intros []. Qed.

Lemma logs_silent {A : Type} (m : SV A) (P : list Act -> Prop) : Silent m -> logs P m (fun _ => P).
Proof. intros H w Hw. by rewrite H. Qed.
Lemma logs_silent_bind {A B : Type} (m : SV A) (k : A -> SV B) (P : list Act -> Prop) R :
  Silent m -> (forall a, logs P (k a) R) -> (forall e l, P l -> R (Err e) l) -> logs P (m ≫= k) R.
Proof. intros Hm Hk He. apply (logs_bind _ _ (fun _ => P)); [by apply logs_silent|done|done]. Qed.

(** ** The two operations on files *)

Lemma update_run_spec (p : RunPatch) (P : list Act -> Prop) :
  logs P (updateRun env p) (fun r l => match r with Ok _ => exists l0, P l0 /\ l = l0 ++ [Patched p] | Err _ => P l end).
Proof.
  unfold updateRun. do 4 (apply logs_silent_bind; [apply _| |done]; intros ?). apply logs_acted. by intros l Hl; exists l.
Qed.
Lemma append_event_spec (b : RunEventBody) (P : list Act -> Prop) :
  logs P (appendEvent env run_id b) (fun r l => match r with Ok _ => exists l0, P l0 /\ l = l0 ++ [Emitted b] | Err _ => P l end).
Proof.
  unfold appendEvent. do 3 (apply logs_silent_bind; [apply _| |done]; intros ?). apply logs_silent_bind; [by intros w| |done]. intros ?.
  apply logs_acted. by intros l Hl; exists l.
Qed.
Lemma appended_spec (b : RunEventBody) (P : list Act -> Prop) :
  logs P (appended env run_id b) (fun r l => match r with Ok true => exists l0, P l0 /\ l = l0 ++ [Emitted b] | _ => P l end).
Proof. intros w Hw. pose proof (append_event_spec b P w Hw) as H. unfold appended. by destruct (appendEvent env run_id b w) as [[u|[]] w']. Qed.

(** ** Quiet operations *)

(** A condition on logs that quiet acts keep. *)
Definition stable (P : list Act -> Prop) : Prop := forall l a, quiet a = true -> P l -> P (l ++ [a]).
Definition Quiet {A : Type} (m : SV A) : Prop := forall P, stable P -> logs P m (fun _ => P).

Lemma stable_and (P Q : list Act -> Prop) : stable P -> stable Q -> stable (fun l => P l /\ Q l).
Proof. intros HP HQ l a Ha [H1 H2]. split; [by apply HP|by apply HQ]. Qed.
Lemma stable_in (a : Act) : stable (fun l => a ∈ l).
Proof. intros l b _ H. set_solver. Qed.
Lemma stable_const (F : Prop) : stable (fun _ => F).
Proof. by intros l a _. Qed.

Lemma quiet_silent {A : Type} (m : SV A) : Silent m -> Quiet m.
Proof. intros H P _. by apply logs_silent. Qed.
Lemma quiet_bind {A B : Type} (m : SV A) (k : A -> SV B) : Quiet m -> (forall a, Quiet (k a)) -> Quiet (m ≫= k).
Proof. intros Hm Hk P HP. apply (logs_bind _ _ (fun _ => P)); [by apply Hm|intros a; by apply Hk|done]. Qed.
Lemma quiet_acted (a : Act) : quiet a = true -> Quiet (acted a).
Proof. intros Ha P HP. apply logs_acted. intros l. by apply HP. Qed.
Lemma quiet_event (b : RunEventBody) : quiet (Emitted b) = true -> Quiet (appendEvent env run_id b).
Proof. intros Hb P HP. eapply logs_weaken; [apply (append_event_spec b P)|done|]. intros [u|e] l; [|done]. intros (l0 & Hl & ->). by apply HP. Qed.
Lemma quiet_update (p : RunPatch) : quiet (Patched p) = true -> Quiet (updateRun env p).
Proof.
  intros Hp P HP. eapply logs_weaken; [apply (update_run_spec p P)|done|]. intros [u|e] l; [|done]. intros (l0 & Hl & ->). by apply HP.
Qed.
End Triples.

(** Quietness by structure: binds, case analyses, then the operations. *)
Ltac hush :=
  repeat first
    [ progress intros
    | apply quiet_silent; apply _
    | apply quiet_event; reflexivity
    | apply quiet_update; reflexivity
    | apply quiet_acted; reflexivity
    | lazymatch goal with
      | |- Quiet (_ ≫= _) => apply quiet_bind
      | |- Quiet (match ?x with _ => _ end) => destruct x
      | |- Quiet ?m => let h := head_sym m in unfold h
      end ].

Section Specs.
Context {E : Type} (env : Environment E) (cfg : SupervisorConfig) (run_id : string).
Local Notation SV := (ST (World E) Halt).
Implicit Types (P : list Act -> Prop).

Lemma preflight_quiet (config : value) : Quiet (verifierPreflight env config).
Proof. hush. Qed.
Lemma verifier_quiet (config : value) (ws : string) : Quiet (runVerifier env cfg config ws).
Proof. hush. Qed.
Lemma repo_gate_quiet (url ws : string) : Quiet (runRepoGate env cfg url ws).
Proof. hush. Qed.
Lemma switch_quiet (policy : AgentPolicy) (agent next : string) (record : RunRecord) (t : Turn) (cls : FailureClassification) (o : AgentOutcome) :
  Quiet (switch_agent env cfg run_id policy agent next record t cls o).
Proof. hush. Qed.

(** ** What the checks leave in the log *)

(** A quiet operation with what its result says about the log. *)
Lemma logs_quiet {A : Type} (m : SV A) P (Q : result Halt A -> list Act -> Prop) :
  Quiet m -> stable P -> logs (fun _ => True) m Q -> logs P m (fun r l => P l /\ Q r l).
Proof. intros Hm HP HQ w Hw. split; [by apply Hm|by apply HQ]. Qed.

Ltac silently := apply logs_silent_bind; [apply _| |done]; intros ?.

Lemma preflight_logged (config : value) :
  logs (fun _ => True) (verifierPreflight env config) (fun r l => forall x, r = Ok (Ok x) -> Preflighted config ∈ l).
Proof.
  unfold verifierPreflight. destruct (validateTaskVerifyConfig config) as [id|[]]; try by apply logs_ret.
  destruct (resolveVerifierProfile id) as [profile|]; [|by apply logs_ret]. destruct (vp_argv profile) as [|program args]; [by apply logs_ret|].
  silently. case_match; [|by apply logs_ret]. silently. case_match; [|by apply logs_ret].
  apply (logs_bind _ _ (fun _ l => Preflighted config ∈ l)); [apply logs_acted; set_solver| |done]. intros _. apply logs_ret. by intros l Hl x _.
Qed.

(** The record [v] is the verifier's report on a process that ended as [p]. *)
Definition reports (v : TaskVerificationV1) (p : VerifierProcess) : Prop :=
  exists profile argv code startedAt finishedAt out,
    settle p = Some (code, out) /\ v = buildTaskVerification (sc_sha256 cfg) profile argv code startedAt finishedAt out.
Lemma stable_extends (l0 : list Act) : stable (fun l => exists mid, l = l0 ++ mid).
Proof. intros l a _ [mid ->]. exists (mid ++ [a]). by rewrite app_assoc. Qed.
Lemma verifier_logged (config : value) (ws : string) (l0 : list Act) :
  logs (fun l => exists mid, l = l0 ++ mid) (runVerifier env cfg config ws)
    (fun r l => forall v, r = Ok (Some v) -> exists p mid, l = l0 ++ mid ++ [Verified config p v] /\ reports v p).
Proof.
  unfold runVerifier. eapply logs_bind; [apply preflight_quiet, stable_extends| |done]. intros [[profile argv]|]; [|by apply logs_ret].
  silently. destruct (negb _); [by apply logs_ret|]. silently. silently. rename a0 into t1, a1 into p.
  destruct (settle p) as [[code out]|] eqn:Es; [|by apply logs_ret]. silently. rename a0 into t2. set (v := buildTaskVerification _ _ _ _ _ _ _).
  apply (logs_bind _ _ (fun _ l => exists mid, l = l0 ++ mid ++ [Verified config p v])); [| |done].
  - apply logs_acted. intros l [mid ->]. exists mid. by rewrite app_assoc.
  - intros _. apply logs_ret. intros l [mid ->] v' [= <-]. exists p, mid. split; [done|]. by exists profile, argv, code, t1, t2, out.
Qed.

(** The repository is clean, allowed, and the one in the workspace. *)
Definition repo_checked (url ws : string) (l : list Act) : Prop :=
  assertCleanRepoUrl url = true /\ isRepoAllowed url (resolveRepoAllowlist (rp_allowlist_env (sc_policy cfg)) []) = true /\
  exists entries isGit origin, Listed ws entries isGit origin ∈ l /\ checkWorkspaceRepoMatch (sc_policy cfg) entries isGit origin url = Ok tt.
Lemma repo_gate_logged (url ws : string) :
  logs (fun _ => True) (runRepoGate env cfg url ws) (fun r l => r = Ok None -> repo_checked url ws l).
Proof.
  unfold runRepoGate. destruct (url_error url _) eqn:Eu; [by apply logs_ret|]. unfold url_error in Eu.
  destruct (assertCleanRepoUrl url) eqn:Ec; [|done]. destruct (isRepoAllowed url _) eqn:Ea; [|done]. silently.
  match goal with |- logs _ (match ?o with Some _ => _ | None => _ end) _ => destruct o end; [by apply logs_ret|]. silently. destruct a0 as [[[entries|] isGit] origin]; [|by apply logs_ret; destruct (checkWorkspaceRepoMatch _ _ _ _ _)].
  apply (logs_bind _ _ (fun _ l => Listed ws entries isGit origin ∈ l)); [apply logs_acted; set_solver| |done].
  intros _. apply logs_ret. intros l Hl [= Hr]. split; [done|]. split; [done|]. exists entries, isGit, origin. split; [done|].
  by destruct (checkWorkspaceRepoMatch _ _ _ _ _) as [[]|[]].
Qed.
End Specs.
