(* ===== verification/SupervisorSafety.v ===== *)
(** * The supervisor: one terminal status, gated launches, verified completions

    For every environment, and whatever other processes do to the run's files, the log of
    [runSupervisor] is [legal]: each launch and each completion is justified by the acts
    before it; and a supervisor that returns wrote and announced one terminal status, unless
    it saw the run stopped after an agent returned. *)

From S2P Require Import Prelude Machine Values Json Contract Templates Verification Validator Outputs TaskContract Workspace Redact RunPolicy Supervisor SupervisorProps.

Section Legal.
Context (cfg : SupervisorConfig).

(** ** Justifications *)

(** What the gates establish before the first agent runs. *)
Definition gates_passed (initial : RunRecord) (policy : AgentPolicy) (l : list Act) : Prop :=
  let chain := ap_primary policy :: ap_fallbacks policy in
  (shouldPreauth cfg initial chain = true -> exists u, Account (Some u) ∈ l /\ u ∈ ALLOWED_GITHUB_ACCOUNTS) /\
  (shouldRepoGate cfg initial chain = true -> repo_checked cfg (default "" (rec_repo_url initial)) (rec_workspace_path initial) l) /\
  (truthy (rec_verify initial) = true -> Preflighted (rec_verify initial) ∈ l).

Definition failure_class (o : AgentOutcome) : FailureClassification :=
  classifyFailure (match oc_tailOutput o with Some s => Some s | None => oc_failureMessage o end).

(** The next agent is due: none ran, or the last one failed in a way the policy hands over. *)
Definition turn_due (policy : AgentPolicy) (l : list Act) (rest : list string) : Prop :=
  match last (outcomes l) with
  | None => launches l = []
  | Some o => oc_result o = out_failed /\ will_switch policy (failure_class o) rest = true
  end.

(** The lease a write-permitted Codex task holds. *)
Definition leased (record : RunRecord) (l : list Act) : Prop :=
  exists id lease, rec_workspace_lease_id record = Some id /\ LeaseRead id (Some lease) ∈ l /\ deriveLeaseState record (Some lease) = active_match.

(** Codex is sandboxed, and writes only under an active lease of this node and workspace. *)
Definition sandboxed (l : list Act) (agent : string) (record : RunRecord) (ctx : AgentAdapterContext) : Prop :=
  if (agent =s "codex") && negb (bool_decide (rec_permission_mode record = Some "unsafe-skip")) then
    cx_codexSandbox ctx = Some read_only \/
    cx_codexSandbox ctx = Some workspace_write /\ rec_workspace_write record = Some true /\
    leased record l
  else cx_codexSandbox ctx = None.

Definition launch_ok (l : list Act) (agent : string) (record : RunRecord) (ctx : AgentAdapterContext) : Prop :=
  exists initial policy rest, Began initial policy ∈ l /\ resolveAgentPolicy initial = Some policy /\
    ap_primary policy :: ap_fallbacks policy = launches l ++ agent :: rest /\
    gates_passed initial policy l /\ turn_due policy l (agent :: rest) /\ sandboxed l agent record ctx.

(** The status and the result that are written for an agent that completed: its final
    output, exit code and the verification, or nothing where the output is missing or too
    long. *)
Definition recorded (o : AgentOutcome) (verification : option TaskVerificationV1) (written : option (string * option value)) : Prop :=
  (exists text v, oc_finalOutput o = Some text /\ byteLen text <= MAX_FINAL_OUTPUT_BYTES /\ written = Some ("available", Some v) /\
     get "text" (get "final_output" v) = VStr text /\
     get "process_exit_code" v = match oc_exitCode o with Some c => VNum (NInt c) | None => VNull end /\
     match verification with
     | Some r => get "kind" (get "verification" v) = VStr (tv_kind r) /\ get "exit_code" (get "verification" v) = VNum (NInt (tv_exit_code r))
     | None => get "verification" v = VUndef
     end) \/
  (forall text, oc_finalOutput o = Some text -> MAX_FINAL_OUTPUT_BYTES < byteLen text) /\ written = Some ("missing", None).
Lemma finalize_recorded (o : AgentOutcome) (verification : option TaskVerificationV1) (now : string) : recorded o verification (Some (finalizeResult cfg o verification now)).
Proof.
  unfold finalizeResult, recorded. destruct (oc_finalOutput o) as [text|]; [|by right]. destruct (byteLen text <=? MAX_FINAL_OUTPUT_BYTES) eqn:El.
  - left. eexists text, _. split; [done|]. split; [by apply Z.leb_le|]. split; [done|]. by destruct verification.
  - right. split; [|done]. intros x [= <-]. by apply Z.leb_gt.
Qed.

(** A completion rests on the last agent's outcome and, where the task asks for a
    verification, on the report of a verifier run after the agent returned. *)
Definition complete_ok (l : list Act) (p : RunPatch) : Prop :=
  exists agent record ctx outcome before between verification,
    l = before ++ Returned agent outcome :: between /\ Launched agent record ctx ∈ before /\
    last (launches l) = Some agent /\ outcomes between = [] /\ pt_final_agent p = Some agent /\ oc_result outcome = out_completed /\
    recorded outcome verification (pt_result p) /\
    if truthy (rec_verify record)
    then exists v process, verification = Some v /\ Verified (rec_verify record) process v ∈ between /\ reports cfg v process
    else verification = None.

(** What may come next: after an agent returned, the look at the run's status; after a
    look that found the run stopped, nothing. *)
Definition follows (l : list Act) (a : Act) : Prop :=
  match last l with Some (Returned _ _) => exists s, a = Checked s | Some (Checked run_stopped) => False | _ => True end.
Definition settled (l : list Act) : Prop := match last l with Some (Returned _ _) | Some (Checked run_stopped) => False | _ => True end.
Definition grounded (l : list Act) (a : Act) : Prop :=
  match a with
  | Launched agent record ctx => launch_ok l agent record ctx
  | Patched p => pt_status p = Some run_completed -> complete_ok l p
  | _ => True
  end.
Definition justified (l : list Act) (a : Act) : Prop := follows l a /\ grounded l a.
Definition legal (l : list Act) : Prop := forall pre a post, l = pre ++ a :: post -> justified pre a.

Lemma legal_nil : legal [].
Proof. intros pre a post H. by destruct pre. Qed.
Lemma legal_snoc (l : list Act) (a : Act) : legal l -> justified l a -> legal (l ++ [a]).
Proof.
  intros Hl Ha pre b post He. destruct post as [|c post] using rev_ind.
  - apply app_inj_tail in He as [-> ->]. done.
  - rewrite app_comm_cons, app_assoc in He. apply app_inj_tail in He as [He _]. by apply (Hl pre b post).
Qed.
Lemma settled_follows (l : list Act) (a : Act) : settled l -> follows l a.
Proof. unfold settled, follows. by destruct (last l) as [[| | | | | | | | | |[]]|]. Qed.
Lemma legal_next (l : list Act) (a : Act) : legal l /\ settled l -> grounded l a -> legal (l ++ [a]).
Proof. intros [Hl Hs] Ha. apply legal_snoc; [done|]. split; [by apply settled_follows|done]. Qed.
Lemma settled_snoc (l : list Act) (a : Act) : settled [a] -> settled (l ++ [a]).
Proof. unfold settled. by rewrite last_snoc. Qed.
Lemma quiet_grounded (l : list Act) (a : Act) : quiet a = true -> grounded l a.
Proof. destruct a; try done. cbn. intros H%bool_decide_eq_true. by rewrite H. Qed.
Lemma quiet_settled (a : Act) : quiet a = true -> settled [a].
Proof. by destruct a as [| | | | | | | | | |[]]. Qed.
Lemma stable_legal : stable (fun l => legal l /\ settled l).
Proof. intros l a Ha Hl. split; [apply legal_next; [done|by apply quiet_grounded]|by apply settled_snoc, quiet_settled]. Qed.

(** ** Open and closed runs *)

Definition terminal_status (s : RunStatus) : Prop := s = run_completed \/ s = run_failed.
Definition Open (l : list Act) : Prop := (legal l /\ settled l) /\ life l = [announced run_running].
Definition Closed (r : result Halt unit) (l : list Act) : Prop :=
  legal l /\
  match r with
  | Ok _ => (exists s, terminal_status s /\ life l = [announced run_running; written s; announced s] /\ last l = Some (Emitted (StatusEvent s)))
            \/ life l = [announced run_running; seen_stopped] /\ last l = Some (Checked run_stopped)
  | Err _ => life l = [] \/ life l = [announced run_running] \/ exists s, terminal_status s /\ life l = [announced run_running; written s]
  end.
Lemma stable_open : stable Open.
Proof. intros l a Ha [Hl Hf]. split; [by apply stable_legal|]. by rewrite life_quiet. Qed.
Lemma open_closed (e : Halt) (l : list Act) : Open l -> Closed (Err e) l.
Proof. intros [[? _] ?]. split; [done|by right; left]. Qed.
(** A terminal status is written, then announced. *)
Lemma open_written (s : RunStatus) (p : RunPatch) (l : list Act) : pt_status p = Some s -> (s = run_completed -> complete_ok l p) -> Open l ->
  (legal (l ++ [Patched p]) /\ settled (l ++ [Patched p])) /\ life (l ++ [Patched p]) = [announced run_running; written s].
Proof.
  intros Hp Hc [Hl Hf]. split; [split; [apply legal_next; [done|]|by apply settled_snoc]|].
  - intros Hs. apply Hc. congruence.
  - rewrite life_app, Hf. cbn. by rewrite Hp.
Qed.
Lemma written_closed (s : RunStatus) (l : list Act) : terminal_status s -> (legal l /\ settled l) /\ life l = [announced run_running; written s] ->
  Closed (Ok tt) (l ++ [Emitted (StatusEvent s)]).
Proof.
  intros Hs [Hl Hf]. split; [by apply legal_next|]. left. exists s. split; [done|]. split; [by rewrite life_app, Hf|apply last_snoc].
Qed.
Lemma written_cut (s : RunStatus) (e : Halt) (l : list Act) : terminal_status s -> (legal l /\ settled l) /\ life l = [announced run_running; written s] -> Closed (Err e) l.
Proof. intros Hs [[? _] ?]. split; [done|]. right. right. by exists s. Qed.

Lemma kept_gates (initial : RunRecord) (policy : AgentPolicy) (l : list Act) (a : Act) : gates_passed initial policy l -> gates_passed initial policy (l ++ [a]).
Proof.
  intros (H1 & H2 & H3). split; [|split].
  - intros H. destruct (H1 H) as (u & ? & ?). exists u. set_solver.
  - intros H. destruct (H2 H) as (? & ? & en & g & o & ? & ?). split; [done|]. split; [done|]. exists en, g, o. set_solver.
  - intros H. specialize (H3 H). set_solver.
Qed.
Lemma stable_gates (initial : RunRecord) (policy : AgentPolicy) : stable (gates_passed initial policy).
Proof. intros l a _. apply kept_gates. Qed.
Lemma stable_due (policy : AgentPolicy) (rest : list string) : stable (fun l => turn_due policy l rest).
Proof. intros l a Ha. unfold turn_due. by rewrite outcomes_quiet, launches_quiet. Qed.
Lemma stable_launches (d : list string) : stable (fun l => launches l = d).
Proof. intros l a Ha. by rewrite launches_quiet. Qed.
Lemma stable_outcome (o : option AgentOutcome) : stable (fun l => last (outcomes l) = o).
Proof. intros l a Ha. by rewrite outcomes_quiet. Qed.

(** The loop before agent number [length done] of the chain. *)
Definition Ready (initial : RunRecord) (policy : AgentPolicy) (done chain : list string) (l : list Act) : Prop :=
  Open l /\ Began initial policy ∈ l /\ gates_passed initial policy l /\ launches l = done /\ turn_due policy l chain.
Lemma stable_ready (initial : RunRecord) (policy : AgentPolicy) (done chain : list string) : stable (Ready initial policy done chain).
Proof.
  apply stable_and; [apply stable_open|]. apply stable_and; [apply stable_in|]. apply stable_and; [apply stable_gates|].
  apply stable_and; [apply stable_launches|apply stable_due].
Qed.
End Legal.

Create HintDb stability.
#[export] Hint Resolve stable_legal stable_open stable_gates stable_due stable_launches stable_outcome stable_ready stable_in stable_const stable_and : stability.

(** ** The operations *)

Section Operations.
Context {E : Type} (env : Environment E) (cfg : SupervisorConfig) (run_id : string).
Local Notation SV := (ST (World E) Halt).
Implicit Types (P : list Act -> Prop).

(** Writing a terminal status and announcing it closes an open run. *)
Lemma end_closes {A : Type} (s : RunStatus) (p : RunPatch) (k : SV A) P (Q : result Halt A -> list Act -> Prop) : pt_status p = Some s -> terminal_status s ->
  (forall l, P l -> s = run_completed -> complete_ok cfg l p) -> (forall e l, Closed cfg (Err e) l -> Q (Err e) l) -> logs (Closed cfg (Ok tt)) k Q ->
  logs (fun l => Open cfg l /\ P l) (updateRun env p;; appendEvent env run_id (StatusEvent s);; k) Q.
Proof.
  intros Hp Hs Hc HE Hk. eapply logs_bind; [apply update_run_spec| |intros e l [Ho _]; by apply HE, open_closed]. intros [].
  set (W l := (legal cfg l /\ settled l) /\ life l = [announced run_running; written s]).
  apply (logs_bind _ _ (fun r l => match r with Ok _ => Closed cfg (Ok tt) l | Err _ => W l end)).
  - eapply logs_weaken; [apply (append_event_spec _ _ _ W)| |].
    + intros l (l0 & [Ho HP] & ->). apply open_written; [done|by apply Hc|done].
    + intros [u|e] l; [|done]. intros (l0 & HW & ->). by apply written_closed.
  - intros []. exact Hk.
  - intros e l HW. by eapply HE, written_cut.
Qed.
Lemma end_run_closes (s : RunStatus) (p : RunPatch) P : pt_status p = Some s -> terminal_status s -> (forall l, P l -> s = run_completed -> complete_ok cfg l p) ->
  logs (fun l => Open cfg l /\ P l) (end_run env run_id s p) (Closed cfg).
Proof.
  intros Hp Hs Hc w Hw. pose proof (end_closes s p (mret tt) P (Closed cfg) Hp Hs Hc ltac:(done) ltac:(by apply logs_ret) w Hw) as H.
  unfold end_run, mbind, ST_bind in *. destruct (updateRun env p w) as [[[]|] w']; [|done]. by destruct (appendEvent env run_id (StatusEvent s) w') as [[[]|] w''].
Qed.
Lemma fail_with_closes (agent reason message : string) (code : option string) (t : Turn) :
  logs (Open cfg) (fail_with env run_id agent reason message code t) (Closed cfg).
Proof.
  unfold fail_with. eapply logs_bind; [apply quiet_event; [done|apply stable_open]| |apply open_closed]. intros ?.
  eapply logs_weaken; [apply (end_run_closes run_failed _ (fun _ => True)); [done|by right|done]|done|done].
Qed.

(** A gate either lets the run go on, with what it established, or closes it. *)
Definition gate_post (P : list Act -> Prop) (r : result Halt bool) (l : list Act) : Prop :=
  match r with Ok false => P l | Ok true => Closed cfg (Ok tt) l | Err e => Closed cfg (Err e) l end.
Lemma gate_failed_closes (agent reason message : string) (code : option string) P :
  logs (Open cfg) (gate_failed env run_id agent reason message code) (gate_post P).
Proof.
  unfold gate_failed. eapply logs_bind; [apply quiet_event; [done|apply stable_open]| |apply open_closed]. intros ?.
  eapply logs_weaken; [apply (end_closes run_failed _ _ (fun _ => True) (gate_post P)); [done|by right|done|done|by apply logs_ret]|done|done].
Qed.

Lemma preauth_gate_spec (initial : RunRecord) (chain : list string) (agent : string) P : stable P ->
  logs (fun l => Open cfg l /\ P l) (preauth_gate env cfg run_id initial chain agent)
    (gate_post (fun l => (Open cfg l /\ P l) /\ (shouldPreauth cfg initial chain = true -> exists u, Account (Some u) ∈ l /\ u ∈ ALLOWED_GITHUB_ACCOUNTS))).
Proof.
  intros HP. unfold preauth_gate. destruct (shouldPreauth cfg initial chain); cbn [negb]; [|by apply logs_ret].
  apply logs_silent_bind; [apply _| |intros e l [? _]; by apply open_closed]. intros username.
  apply (logs_bind _ _ (fun _ l => (Open cfg l /\ P l) /\ Account username ∈ l)); [|intros ?|intros e l [[? _] _]; by apply open_closed].
  - apply logs_acted. intros l [Ho Hl]. split; [split; [by apply stable_open|by apply HP]|set_solver].
  - destruct (evaluatePreauth username _) eqn:Ee.
    + apply logs_ret. intros l [Hl Hi]. split; [done|]. intros _. destruct username as [u|]; [|done]. exists u. split; [done|].
      cbn [evaluatePreauth] in Ee. apply andb_prop in Ee as [_ Ee]. by apply list_elem_of_In, str_in_spec.
    + eapply logs_weaken; [apply gate_failed_closes|by intros l [[? _] _]|done].
Qed.

Lemma repo_gate_spec (initial : RunRecord) (chain : list string) (agent : string) P : stable P ->
  logs (fun l => Open cfg l /\ P l) (repo_gate env cfg run_id initial chain agent)
    (gate_post (fun l => (Open cfg l /\ P l) /\
       (shouldRepoGate cfg initial chain = true -> repo_checked cfg (default "" (rec_repo_url initial)) (rec_workspace_path initial) l))).
Proof.
  intros HP. unfold repo_gate. destruct (shouldRepoGate cfg initial chain); cbn [negb]; [|by apply logs_ret].
  eapply logs_bind; [apply logs_quiet; [apply repo_gate_quiet|apply stable_and; [apply stable_open|exact HP]|apply repo_gate_logged]| |].
  - intros [[code reason]|]; cbn.
    + eapply logs_weaken; [apply gate_failed_closes|by intros l [[? _] _]|done].
    + apply logs_ret. intros l [Hl Hc]. split; [done|]. by intros _; apply Hc.
  - intros e l [[? _] _]. by apply open_closed.
Qed.

Lemma verifier_gate_spec (initial : RunRecord) (agent : string) P : stable P ->
  logs (fun l => Open cfg l /\ P l) (verifier_gate env run_id initial agent)
    (gate_post (fun l => (Open cfg l /\ P l) /\ (truthy (rec_verify initial) = true -> Preflighted (rec_verify initial) ∈ l))).
Proof.
  intros HP. unfold verifier_gate. destruct (truthy (rec_verify initial)) eqn:Et; cbn [negb]; [|by apply logs_ret].
  eapply logs_bind; [apply logs_quiet; [apply preflight_quiet|apply stable_and; [apply stable_open|exact HP]|apply preflight_logged]| |].
  - intros [x|code]; cbn.
    + apply logs_ret. intros l [Hl Hc]. split; [done|]. intros _. by apply (Hc x).
    + eapply logs_weaken; [apply gate_failed_closes|by intros l [[? _] _]|done].
  - intros e l [[? _] _]. by apply open_closed.
Qed.

(** ** One agent *)

Lemma stable_leased (record : RunRecord) : stable (leased record).
Proof. intros l a _ (id & lease & ? & ? & ?). exists id, lease. set_solver. Qed.
Lemma codex_lease_logged (record : RunRecord) (wr : bool) :
  logs (fun _ => True) (codex_lease env record wr) (fun r l => r = Ok active_match -> leased record l).
Proof.
  unfold codex_lease. destruct wr; cbn [negb]; [|by apply logs_ret]. unfold truthy_string, deriveLeaseState, leased.
  destruct (rec_workspace_lease_id record) as [id|] eqn:Ei; [|by apply logs_ret]. destruct (id =s "") eqn:Ee; [by apply logs_ret|].
  intros w _. unfold mbind, ST_bind, with_env. destruct (ev_lease env id (wd_env w)) as [[lease|] e]; cbn; [|done]. intros [= Hs].
  exists id, lease. split; [done|]. split; [set_solver|]. unfold deriveLeaseState. by rewrite Ei, Ee.
Qed.

(** The Codex gate closes the run or yields a context that is [sandboxed]. *)
Lemma codex_gate_spec (agent : string) (record : RunRecord) (t : Turn) P : stable P -> cx_codexSandbox (tn_ctx t) = None ->
  logs (fun l => Open cfg l /\ P l) (codex_gate env run_id agent record t)
    (fun r l => match r with
                | Ok (Some ctx) => (Open cfg l /\ P l) /\ sandboxed l agent record ctx
                | Ok None => Closed cfg (Ok tt) l
                | Err e => Closed cfg (Err e) l end).
Proof.
  intros HP Ht. unfold codex_gate, sandboxed. destruct (agent =s "codex"); cbn [negb orb andb]; [|by apply logs_ret].
  case_bool_decide as Hu; cbn [negb]; [by apply logs_ret|].
  assert (HS : stable (fun l => Open cfg l /\ P l)) by (apply stable_and; [apply stable_open|done]).
  eapply logs_bind; [apply logs_quiet; [hush|exact HS|apply codex_lease_logged]| |intros e l [[? _] _]; by apply open_closed].
  intros lease. cbn. eapply logs_bind; [apply quiet_event; [done|apply stable_and; [exact HS|]]| |intros e l [[? _] _]; by apply open_closed].
  - intros l a Ha Hl He. by apply stable_leased, Hl.
  - intros ?. unfold resolveCodexSandbox. destruct (bool_decide (rec_workspace_write record = Some true)) eqn:Ewr; cbn [negb];
      [|apply logs_ret; intros l [Hl _]; split; [done|by left]].
    apply bool_decide_eq_true in Ewr.
    destruct lease;
      try (eapply logs_bind; [eapply logs_weaken; [apply fail_with_closes|by intros l [[? _] _]|intros r l H; exact H]|by intros []; apply logs_ret|done]).
    apply logs_ret. intros l [Hl Ha]. split; [done|]. right. split; [done|]. split; [done|]. by apply Ha.
Qed.

(** After a launch: the agent is the last launched, its outcome the last returned. *)
Definition Went (initial : RunRecord) (policy : AgentPolicy) (past : list string) (agent : string) (record : RunRecord) (o : AgentOutcome) (l : list Act) : Prop :=
  Began initial policy ∈ l /\ gates_passed cfg initial policy l /\ launches l = past ++ [agent] /\
  exists ctx before between, l = before ++ Returned agent o :: between /\ Launched agent record ctx ∈ before /\ outcomes between = [].
(** The agent just returned. *)
Definition Back (initial : RunRecord) (policy : AgentPolicy) (past : list string) (agent : string) (record : RunRecord) (o : AgentOutcome) (l : list Act) : Prop :=
  (legal cfg l /\ last l = Some (Returned agent o) /\ life l = [announced run_running]) /\ Went initial policy past agent record o l.
(** The run was found not to be stopped since. *)
Definition Ran (initial : RunRecord) (policy : AgentPolicy) (past : list string) (agent : string) (record : RunRecord) (o : AgentOutcome) (l : list Act) : Prop :=
  Open cfg l /\ Went initial policy past agent record o l.
Lemma went_outcome (initial : RunRecord) (policy : AgentPolicy) (past : list string) (agent : string) (record : RunRecord) (o : AgentOutcome) (l : list Act) :
  Went initial policy past agent record o l -> last (outcomes l) = Some o.
Proof. intros (_ & _ & _ & ctx & before & between & -> & _ & Ho). rewrite outcomes_app. change (outcomes (_ :: between)) with (o :: outcomes between). by rewrite Ho, last_snoc. Qed.
Lemma went_next (initial : RunRecord) (policy : AgentPolicy) (past : list string) (agent : string) (record : RunRecord) (o : AgentOutcome) (l : list Act) (a : Act) :
  launches [a] = [] -> outcomes [a] = [] -> Went initial policy past agent record o l -> Went initial policy past agent record o (l ++ [a]).
Proof.
  intros Hl Ho (H2 & H3 & H4 & ctx & before & between & -> & H5 & H6). split; [set_solver|]. split; [by apply kept_gates|].
  split; [by rewrite launches_app, Hl, app_nil_r|]. exists ctx, before, (between ++ [a]). split; [by rewrite <- app_assoc|]. split; [done|].
  by rewrite outcomes_app, H6, Ho.
Qed.
Lemma stable_ran (initial : RunRecord) (policy : AgentPolicy) (past : list string) (agent : string) (record : RunRecord) (o : AgentOutcome) :
  stable (Ran initial policy past agent record o).
Proof.
  intros l a Ha [H1 H2]. split; [by apply stable_open|]. apply went_next; [|..|done].
  - by rewrite <- (app_nil_l [a]), launches_quiet.
  - by rewrite <- (app_nil_l [a]), outcomes_quiet.
Qed.
Lemma back_closed (initial : RunRecord) (policy : AgentPolicy) (past : list string) (agent : string) (record : RunRecord) (o : AgentOutcome) (e : Halt) (l : list Act) :
  Back initial policy past agent record o l -> Closed cfg (Err e) l.
Proof. intros [(? & _ & ?) _]. split; [done|]. by right; left. Qed.
(** The look at the status of the run. *)
Lemma back_checked (initial : RunRecord) (policy : AgentPolicy) (past : list string) (agent : string) (record : RunRecord) (o : AgentOutcome) (s : RunStatus) (l : list Act) :
  Back initial policy past agent record o l ->
  match s with run_stopped => Closed cfg (Ok tt) (l ++ [Checked s]) | _ => Ran initial policy past agent record o (l ++ [Checked s]) end.
Proof.
  intros [(Hl & Hla & Hf) Hw]. assert (HL : legal cfg (l ++ [Checked s])) by (apply legal_snoc; [done|]; split; [unfold follows; rewrite Hla; by eexists|done]).
  assert (HR : s <> run_stopped -> Ran initial policy past agent record o (l ++ [Checked s])).
  { intros Hs. split; [|by apply went_next]. split; [split; [done|apply settled_snoc; by destruct s]|]. rewrite life_app, Hf. by destruct s. }
  destruct s; try by apply HR. split; [done|]. right. split; [by rewrite life_app, Hf|apply last_snoc].
Qed.

Lemma run_adapter_spec (initial : RunRecord) (policy : AgentPolicy) (past rest : list string) (agent : string) (record : RunRecord) (ctx : AgentAdapterContext) :
  resolveAgentPolicy initial = Some policy -> ap_primary policy :: ap_fallbacks policy = past ++ agent :: rest ->
  logs (fun l => Ready cfg initial policy past (agent :: rest) l /\ sandboxed l agent record ctx) (run_adapter env run_id agent record ctx)
    (fun r l => match r with Ok o => Back initial policy past agent record o l | Err e => Closed cfg (Err e) l end).
Proof.
  intros Hp Hc. set (mid l := Open cfg l /\ Began initial policy ∈ l /\ gates_passed cfg initial policy l /\ launches l = past ++ [agent] /\ Launched agent record ctx ∈ l).
  assert (HM : stable mid) by (do 4 (apply stable_and; [solve [auto with stability]|]); auto with stability).
  unfold run_adapter. apply (logs_bind _ _ (fun _ => mid)); [| |intros e l [? _]; by apply open_closed].
  - apply logs_acted. intros l [([Hl Hf] & Hb & Hg & Hd & Ht) Hs]. split; [split; [split|]|].
    + apply legal_next; [done|]. exists initial, policy, rest. by rewrite Hd.
    + by apply settled_snoc.
    + by rewrite life_app, Hf.
    + split; [set_solver|]. split; [by apply kept_gates|]. split; [by rewrite launches_app, Hd|set_solver].
  - intros ?. apply logs_silent_bind; [intros w; by destruct (ev_adapter _ _ _ _ _ _) as [? [? ?]]| |intros e l [? _]; by apply open_closed].
    intros r. apply (logs_bind _ _ (fun _ => mid)); [| |intros e l [? _]; by apply open_closed].
    + assert (HQ : forall b, quiet (Emitted b) = true -> Quiet (appendEvent env run_id b)) by (intros b; apply quiet_event).
      destruct r; [by apply logs_ret|]. apply (logs_bind _ _ (fun _ => mid)); [by apply HQ|intros ?; by apply logs_ret|done].
    + intros o. apply (logs_bind _ _ (fun _ => Back initial policy past agent record o)); [|intros ?; by apply logs_ret|intros e l; by apply back_closed].
      apply logs_acted. intros l ([Hl Hf] & Hb & Hg & Hd & Hi). split; [split; [by apply legal_next|split; [apply last_snoc|by rewrite life_app, Hf]]|].
      split; [set_solver|]. split; [by apply kept_gates|]. split; [by rewrite launches_app, Hd, app_nil_r|]. by exists ctx, l, [].
Qed.

(** A completed agent closes the run, verified where the task asks for it. *)
Lemma complete_run_spec (initial : RunRecord) (policy : AgentPolicy) (past : list string) (agent : string) (record : RunRecord) (t : Turn) (o : AgentOutcome) :
  oc_result o = out_completed -> logs (Ran initial policy past agent record o) (complete_run env cfg run_id agent record t o) (Closed cfg).
Proof.
  intros Ho. set (ran := Ran initial policy past agent record o).
  assert (HE : forall e l, ran l -> Closed cfg (Err e) l) by (intros e l [? _]; by apply open_closed).
  assert (HF : forall reason message code, logs ran (fail_with env run_id agent reason message code t) (Closed cfg)).
  { intros ???. eapply logs_weaken; [apply fail_with_closes|by intros l [? _]|done]. }
  assert (HN : forall verification P, (forall l, P l -> ran l /\ exists ctx before between, l = before ++ Returned agent o :: between /\
      Launched agent record ctx ∈ before /\ outcomes between = [] /\ if truthy (rec_verify record)
      then exists v process, verification = Some v /\ Verified (rec_verify record) process v ∈ between /\ reports cfg v process else verification = None) ->
    logs P (now ← with_env (ev_now env);
      end_run env run_id run_completed (end_patch run_completed agent t None (oc_exitCode o) None (Some (finalizeResult cfg o verification now)))) (Closed cfg)).
  { intros v P HP. apply logs_silent_bind; [apply _| |intros e l Hl; by apply HE, HP]. intros now.
    eapply logs_weaken; [apply (end_run_closes run_completed _ P)|intros l Hl; by split; [apply HP|]|done]; [done|by left|].
    intros l Hl _. destruct (HP l Hl) as [(_ & _ & _ & Hla & _) (ctx & before & between & -> & Hi & Ho' & Hv)].
    exists agent, record, ctx, o, before, between, v. rewrite Hla, last_snoc. do 6 (split; [done|]). split; [apply finalize_recorded|done]. }
  unfold complete_run. destruct (truthy (rec_verify record)) eqn:Et; cbn [negb].
  2:{ apply HN. intros l Hl. split; [done|]. destruct Hl as (_ & _ & _ & _ & ctx & before & between & ? & ? & ?). by exists ctx, before, between. }
  eapply logs_bind; [apply preflight_quiet, stable_ran| |done]. intros [x|code]; [|apply HF].
  set (ver v l := ran l /\ exists ctx before between process, l = before ++ Returned agent o :: between /\ Launched agent record ctx ∈ before /\ outcomes between = [] /\
    Verified (rec_verify record) process v ∈ between /\ reports cfg v process).
  assert (HS : forall v, stable (ver v)).
  { intros v l a Ha [H1 (ctx & before & between & p & -> & H2 & H3 & H4 & H5)]. split; [by apply stable_ran|]. exists ctx, before, (between ++ [a]), p.
    split; [by rewrite <- app_assoc|]. split; [done|]. split; [by rewrite outcomes_quiet|]. split; [set_solver|done]. }
  apply (logs_bind _ _ (fun r l => match r with Ok (Some v) => ver v l | _ => ran l end)).
  { intros w Hw. pose proof (verifier_quiet env cfg (rec_verify record) (rec_workspace_path record) _ (stable_ran initial policy past agent record o) w Hw) as HR.
    pose proof (verifier_logged env cfg (rec_verify record) (rec_workspace_path record) (wd_acts w) w) as HV.
    assert (HO : outcomes (wd_acts (snd (runVerifier env cfg (rec_verify record) (rec_workspace_path record) w))) = outcomes (wd_acts w)).
    { apply (verifier_quiet env cfg (rec_verify record) (rec_workspace_path record) (fun l => outcomes l = outcomes (wd_acts w))); [|done].
      intros l a Ha. by rewrite outcomes_quiet. }
    destruct (runVerifier _ _ _ _ w) as [[[v|]|e] w']; cbn in *; [|done..]. split; [done|].
    destruct (HV (ex_intro _ [] (eq_sym (app_nil_r _))) v eq_refl) as (p & mid & Hl & Hr). destruct Hw as (_ & _ & _ & _ & ctx & before & between & Hb & Hi & Ho').
    exists ctx, before, (between ++ mid ++ [Verified (rec_verify record) p v]), p. split; [by rewrite Hl, Hb, <- app_assoc|]. split; [done|].
    split; [|split; [set_solver|done]]. rewrite outcomes_app, Ho'. cbn. assert (Hq : outcomes (wd_acts w') = outcomes (wd_acts w)) by apply HO.
    rewrite Hl, outcomes_app in Hq. by apply (app_inv_head (outcomes (wd_acts w))); rewrite app_nil_r. }
  2:{ intros e l Hl. by apply HE. }
  intros v. apply (logs_bind _ _ (fun r l => match v, r with Some v, Ok true => ver v l | _, _ => ran l end)).
  - destruct v as [v|]; [|by apply logs_ret]. eapply logs_weaken; [apply appended_spec|intros l H; exact H|]. intros [[]|e] l; [|by intros [? _]..].
    intros (l0 & H0 & ->). by apply HS.
  - intros [|]; destruct v as [v|]; try apply HF. apply HN. intros l [Hl (ctx & before & between & p & ? & ? & ? & ? & ?)]. split; [done|].
    exists ctx, before, between. naive_solver.
  - intros e l. destruct v; intros Hl; by apply HE.
Qed.

(** ** The chain *)

(** A turn handed over starts without a sandbox. *)
Lemma switch_resets (policy : AgentPolicy) (agent next : string) (record : RunRecord) (t : Turn) (cls : FailureClassification) (o : AgentOutcome) :
  logs (fun _ => True) (switch_agent env cfg run_id policy agent next record t cls o)
    (fun r _ => forall t', r = Ok t' -> cx_codexSandbox (tn_ctx t') = None).
Proof.
  unfold switch_agent. do 4 (apply (logs_bind _ _ (fun _ _ => True)); [done|intros ?|done]). apply logs_ret. by intros l _ t' [= <-].
Qed.

(** The failed last agent closes the run, or the next one is due. *)
Lemma failed_spec (initial : RunRecord) (policy : AgentPolicy) (past rest : list string) (agent : string) (record : RunRecord) (t : Turn) (o : AgentOutcome) (k : Turn -> SV unit) :
  oc_result o = out_failed -> (forall t', rest <> [] -> cx_codexSandbox (tn_ctx t') = None -> logs (Ready cfg initial policy (past ++ [agent]) rest) (k t') (Closed cfg)) ->
  logs (Ran initial policy past agent record o)
    (if will_switch policy (failure_class o) rest
     then t' ← switch_agent env cfg run_id policy agent (default "" (head rest)) record t (failure_class o) o; k t'
     else end_run env run_id run_failed
            (end_patch run_failed agent t (Some (fc_reason (failure_class o), fc_recoverable (failure_class o))) (oc_exitCode o) (oc_failureMessage o) None)) (Closed cfg).
Proof.
  intros Eo Hk. destruct (will_switch policy (failure_class o) rest) eqn:Ew.
  - eapply logs_bind; [apply logs_quiet; [apply switch_quiet|apply stable_ran|apply switch_resets]| |by intros e l [[? _] _]; apply open_closed].
    intros t'. cbn. intros w [[H1 Hw] Ht]. pose proof (went_outcome _ _ _ _ _ _ _ Hw) as H5. destruct Hw as (H2 & H3 & H4 & _). apply Hk; [|by apply Ht|].
    + intros ->. unfold will_switch in Ew. by rewrite andb_false_r in Ew.
    + split; [done|]. split; [done|]. split; [done|]. split; [done|]. unfold turn_due. by rewrite H5.
  - eapply logs_weaken; [apply (end_run_closes run_failed _ (fun _ => True)); [done|by right|done]|by intros l [? _]|done].
Qed.

Lemma try_agents_spec (initial : RunRecord) (policy : AgentPolicy) : resolveAgentPolicy initial = Some policy -> forall chain past t,
  ap_primary policy :: ap_fallbacks policy = past ++ chain -> chain <> [] -> cx_codexSandbox (tn_ctx t) = None ->
  logs (Ready cfg initial policy past chain) (try_agents env cfg run_id policy chain t) (Closed cfg).
Proof.
  intros Hp. induction chain as [|agent rest IH]; intros past t Hc Hne Ht; [done|]. cbn [try_agents].
  assert (HO : forall l, Ready cfg initial policy past (agent :: rest) l -> Open cfg l) by (by intros l [? _]).
  apply logs_silent_bind; [apply _| |intros e l Hl; by apply open_closed, HO]. intros record.
  destruct (has_adapter agent); cbn [negb]; [|eapply logs_weaken; [apply fail_with_closes|apply HO|done]].
  eapply logs_bind; [eapply logs_weaken; [apply (codex_gate_spec agent record t (Ready cfg initial policy past (agent :: rest))); [apply stable_ready|done]
    |intros l Hl; split; [by apply HO|done]|intros r l H; exact H]| |done].
  intros [ctx|]; [|by apply logs_ret].
  eapply logs_bind; [eapply logs_weaken; [by apply (run_adapter_spec initial policy past rest agent record ctx)|by intros l [[_ ?] ?]|intros r l H; exact H]| |done].
  intros o. apply logs_silent_bind; [apply _| |intros e l; by apply back_closed]. intros current.
  enough (HK : logs (Ran initial policy past agent record o) (match oc_result o with
      | out_completed => complete_run env cfg run_id agent record t o
      | out_failed => if will_switch policy (failure_class o) rest
          then t' ← switch_agent env cfg run_id policy agent (default "" (head rest)) record t (failure_class o) o; try_agents env cfg run_id policy rest t'
          else end_run env run_id run_failed
            (end_patch run_failed agent t (Some (fc_reason (failure_class o), fc_recoverable (failure_class o))) (oc_exitCode o) (oc_failureMessage o) None)
      end) (Closed cfg)).
  - apply (logs_bind _ _ (fun r => match rec_status current with run_stopped => Closed cfg r | _ => Ran initial policy past agent record o end)).
    + apply logs_acted. intros l Hl. apply (back_checked _ _ _ _ _ _ (rec_status current)) in Hl. by destruct (rec_status current).
    + intros []. destruct (rec_status current); try exact HK. by apply logs_ret.
    + intros e l. destruct (rec_status current); try (intros [? _]; by apply open_closed). done.
  - destruct (oc_result o) eqn:Eo; [by eapply complete_run_spec|]. apply (failed_spec initial); [done|].
    intros t' Hr Ht'. apply IH; [by rewrite <- app_assoc|done|done].
Qed.

(** ** The whole run *)

(** Before the first agent. *)
Definition fresh (initial : RunRecord) (policy : AgentPolicy) (l : list Act) : Prop := Began initial policy ∈ l /\ launches l = [] /\ last (outcomes l) = None.
Lemma stable_fresh (initial : RunRecord) (policy : AgentPolicy) : stable (fresh initial policy).
Proof. apply stable_and; [apply stable_in|]. apply stable_and; [apply stable_launches|apply stable_outcome]. Qed.

(** The run is announced. *)
Lemma begin_spec (initial : RunRecord) (policy : AgentPolicy) (k : SV unit) :
  logs (fun l => Open cfg l /\ fresh initial policy l) k (Closed cfg) ->
  logs (fun l => l = []) (acted (Began initial policy);; updateRun env (started_patch (ap_primary policy));; appendEvent env run_id (StatusEvent run_running);; k) (Closed cfg).
Proof.
  intros Hk. set (start l := ((legal cfg l /\ settled l) /\ fresh initial policy l) /\ life l = []).
  assert (HS : stable start).
  { apply stable_and; [apply stable_and; [apply stable_legal|apply stable_fresh]|]. intros l a Ha. by rewrite life_quiet. }
  assert (HE : forall e l, start l -> Closed cfg (Err e) l) by (intros e l [[[? _] _] ?]; split; [done|by left]).
  apply (logs_bind _ _ (fun _ => start)); [|intros ?|done].
  { apply logs_acted. intros l ->. split; [|done]. split; [split; [apply (legal_next cfg []); [split; [apply legal_nil|done]|done]|done]|]. split; [set_solver|done]. }
  apply (logs_bind _ _ (fun _ => start)); [by apply quiet_update|intros ?|done].
  eapply logs_bind; [apply append_event_spec| |done]. intros ? w (l0 & [[Hl Hf] Hn] & Hw). apply Hk. rewrite Hw. split; [split; [split|]|].
  - by apply legal_next.
  - by apply settled_snoc.
  - by rewrite life_app, Hn.
  - destruct Hf as (H1 & H2 & H3). split; [set_solver|]. rewrite launches_app, outcomes_app, H2. cbn. by rewrite app_nil_r.
Qed.

Lemma run_supervisor_spec : logs (fun l => l = []) (runSupervisor env cfg run_id) (Closed cfg).
Proof.
  unfold runSupervisor. assert (H0 : forall e l, l = [] -> Closed cfg (Err e) l) by (intros e l ->; split; [apply legal_nil|by left]).
  apply logs_silent_bind; [apply _| |done]. intros initial.
  destruct (resolveAgentPolicy initial) as [policy|] eqn:Hp; [|intros w Hw; by apply H0].
  change (obtain (Some policy) uncaught ≫= ?k) with (k policy). cbv beta. apply begin_spec. cbv zeta.
  set (chain := ap_primary policy :: ap_fallbacks policy).
  set (P1 (l : list Act) := shouldPreauth cfg initial chain = true -> exists u, Account (Some u) ∈ l /\ u ∈ ALLOWED_GITHUB_ACCOUNTS).
  set (P2 (l : list Act) := shouldRepoGate cfg initial chain = true -> repo_checked cfg (default "" (rec_repo_url initial)) (rec_workspace_path initial) l).
  assert (S1 : stable (fun l => fresh initial policy l /\ P1 l)).
  { apply stable_and; [apply stable_fresh|]. intros l a _ H1 H. destruct (H1 H) as (u & ? & ?). exists u. set_solver. }
  assert (S2 : stable (fun l => (fresh initial policy l /\ P1 l) /\ P2 l)).
  { apply stable_and; [done|]. intros l a _ H1 H. destruct (H1 H) as (? & ? & en & g & o & ? & ?). do 2 (split; [done|]). exists en, g, o. set_solver. }
  eapply logs_bind; [apply preauth_gate_spec, stable_fresh|intros [|]; [by apply logs_ret|]|intros e l H; exact H].
  eapply logs_bind; [eapply logs_weaken; [apply (repo_gate_spec initial chain (ap_primary policy)), S1|by intros l [[? ?] ?]|intros r l H; exact H]
    |intros [|]; [by apply logs_ret|]|intros e l H; exact H].
  eapply logs_bind; [eapply logs_weaken; [apply (verifier_gate_spec initial (ap_primary policy)), S2|by intros l [[? ?] ?]|intros r l H; exact H]
    |intros [|]; [by apply logs_ret|]|intros e l H; exact H].
  eapply logs_weaken; [apply (try_agents_spec initial policy Hp chain [] first_turn); done| |done].
  intros l [[Ho [[(H1 & H2 & H3) HP1] HP2]] HP3]. split; [done|]. split; [done|]. split; [done|]. split; [done|]. unfold turn_due. by rewrite H3.
Qed.
End Operations.

(** ** Guarantees *)


Section Guarantees.
Context {E : Type} (env : Environment E) (cfg : SupervisorConfig) (run_id : string) (files : Files) (e : E).

(** The world after a run that began with these files and an empty log. *)
Definition supervised : result Halt unit * World E := runSupervisor env cfg run_id (Build_World files e []).
Definition run_log : list Act := wd_acts (snd supervised).

Lemma run_log_legal : legal cfg run_log.
Proof. by destruct (run_supervisor_spec env cfg run_id (Build_World files e []) eq_refl). Qed.

(** C9: what the supervisor itself writes and announces, whatever agents, verifiers, the
    file system and other processes do.  A supervisor that returns announced [running] once,
    first, and ended the run in one of two ways: it wrote one status, [completed] or
    [failed], and its last act announced that same status; or its last act was to read that
    the run was stopped, and it wrote and announced no status.  One that is cut short (the
    run file is gone, the policy cannot be read, a file operation throws) wrote at most one
    terminal status and announced none.  After every agent that returned its next act is
    to look at the run's status, and a run it then finds stopped is left alone: it does
    nothing more and returns.  (A stop that arrives after that look is not seen.) *)
Theorem one_terminal_status :
  match fst supervised with
  | Ok _ => (exists s, (s = run_completed \/ s = run_failed) /\ life run_log = [announced run_running; written s; announced s] /\
               last run_log = Some (Emitted (StatusEvent s)))
            \/ life run_log = [announced run_running; seen_stopped] /\ last run_log = Some (Checked run_stopped)
  | Err _ => life run_log = [] \/ life run_log = [announced run_running] \/
             exists s, (s = run_completed \/ s = run_failed) /\ life run_log = [announced run_running; written s]
  end /\
  forall pre agent o post, run_log = pre ++ Returned agent o :: post ->
    (post = [] /\ exists h, fst supervised = Err h) \/
    exists s rest, post = Checked s :: rest /\ (s = run_stopped -> rest = [] /\ fst supervised = Ok tt).
Proof.
  destruct (run_supervisor_spec env cfg run_id (Build_World files e []) eq_refl) as [Hl Hc]. fold supervised in Hl, Hc. fold run_log in Hl, Hc.
  split; [exact Hc|]. intros pre agent o post He. destruct post as [|a rest].
  - left. split; [done|]. destruct (fst supervised) as [[]|h] eqn:Ef; [|by eexists]. rewrite He, !last_snoc in Hc. naive_solver.
  - right. destruct (Hl (pre ++ [Returned agent o]) a rest) as [Hf _]; [by rewrite He, <- app_assoc|]. unfold follows in Hf. rewrite last_snoc in Hf.
    destruct Hf as [s ->]. exists s, rest. split; [done|]. intros ->. destruct rest as [|b rest].
    + split; [done|]. destruct (fst supervised) as [[]|h] eqn:Ef; [done|]. exfalso. revert Hc. rewrite He, life_app. cbn.
      assert (Hin : seen_stopped ∈ life pre ++ [seen_stopped]) by set_solver. intros [H|[H|(s & _ & H)]]; rewrite H in Hin; set_solver.
    + destruct (Hl (pre ++ [Returned agent o; Checked run_stopped]) b rest) as [Hf _]; [by rewrite He, <- app_assoc|].
      unfold follows in Hf. change [Returned agent o; Checked run_stopped] with ([Returned agent o] ++ [Checked run_stopped]) in Hf. by rewrite app_assoc, last_snoc in Hf.
Qed.

(** C11: every agent that is launched is the next of the policy's chain, and is launched
    only after the gates that apply passed (the account is allowlisted, the repository is
    clean, allowed and the one in the workspace, the verifier can run), only when no agent
    ran before or the last one failed in a way the policy hands over, and, for Codex
    without a bypass, in a sandbox that is writable only under an active lease. *)
Theorem launches_gated (pre post : list Act) (agent : string) (record : RunRecord) (ctx : AgentAdapterContext) :
  run_log = pre ++ Launched agent record ctx :: post -> launch_ok cfg pre agent record ctx.
Proof. intros H. exact (proj2 (run_log_legal pre _ post H)). Qed.

End Guarantees.

(** ** A run *)

(** Claude Code is rate limited, Codex takes over with a lease and completes, the tests
    pass.  With [stop] a stop command arrives while the verifier runs. *)
Definition demo_record : RunRecord := {|
  rec_run_id := "run-1"; rec_session_id := "s"; rec_node_id := "node-1"; rec_node_selector := None; rec_agent := "claude-code";
  rec_status := run_queued; rec_workspace_path := "/ws/k"; rec_session_url := None; rec_repo_url := None; rec_branch := None; rec_prompt_file := None;
  rec_permission_mode := None; rec_metadata := VObj [("agent_policy", VObj [("fallbacks", VArr [VStr "codex"])])]; rec_child_pid := None;
  rec_started_agent := None; rec_final_agent := None; rec_switched := None; rec_switch_reason := None; rec_handoff_path := None;
  rec_failure_reason := None; rec_recoverable := None; rec_exit_code := None; rec_error := None; rec_result_status := None; rec_task_result := VUndef;
  rec_workspace_lease_id := Some "l-1"; rec_workspace_key := Some "k"; rec_workspace_write := Some true;
  rec_verify := VObj [("profile", VStr "node-test")]; rec_event_aes_key := None; rec_stop_aes_key := None; rec_approval_aes_key := None;
  rec_created_at := "t0"; rec_updated_at := "t0" |}.
Definition stopped_patch : RunPatch :=
  {| pt_status := Some run_stopped; pt_started_agent := None; pt_final_agent := None; pt_switched := None; pt_failure_reason := None; pt_recoverable := None;
     pt_switch_reason := None; pt_handoff_path := None; pt_exit_code := None; pt_error := None; pt_result := None; pt_clear_child := false |}.
Definition stop_files (f : Files) : Files :=
  {| fl_run := apply_patch stopped_patch "t" <$> fl_run f; fl_events := fl_events f ++ [{| re_run_id := "run-1"; re_ts := "t"; re_body := StatusEvent run_stopped |}] |}.

Definition demo_env (stop : bool) : Environment nat := {|
  ev_other := fun n f => if (n =? 1)%nat then (stop_files f, 2%nat) else (f, n);
  ev_now := fun n => ("t", n);
  ev_adapter := fun agent _ _ n f =>
    (Ok (if agent =s "codex" then {| oc_result := out_completed; oc_failureMessage := None; oc_tailOutput := None; oc_exitCode := Some 0; oc_finalOutput := Some "done" |}
         else {| oc_result := out_failed; oc_failureMessage := Some "HTTP 429"; oc_tailOutput := None; oc_exitCode := Some 1; oc_finalOutput := None |}), (f, n));
  ev_username := fun n => (None, n); ev_listing := fun _ n => ((Some [], false, None), n);
  ev_lease := fun _ n => (Some (VObj [("status", VStr "active"); ("node_id", VStr "node-1"); ("workspace_key", VStr "k")]), n);
  ev_program := fun _ n => (Some "/usr/bin/node", n); ev_enforces := fun n => (true, n); ev_wrap := fun _ _ n => (true, n);
  ev_process := fun _ _ n => (process_closed (Some 0) None false false "ok", if stop then 1%nat else n);
  ev_git := fun _ _ n => ("", n); ev_read := fun _ n => (Some None, n); ev_write := fun _ _ n => (true, n); ev_io := fun n => (true, n) |}.
Definition demo_config : SupervisorConfig :=
  {| sc_sha256 := fun s => s; sc_policy := {| rp_allowlist_env := None; rp_enforce_env := None |}; sc_preauth := None; sc_wsl := false; sc_vibeDir := "/v" |}.
Definition demo_files : Files := {| fl_run := Some demo_record; fl_events := [] |}.
Definition demo_log (stop : bool) : list Act := run_log (demo_env stop) demo_config "run-1" demo_files 0%nat.
Definition file_statuses (f : Files) : list RunStatus := flat_map (fun ev => match re_body ev with StatusEvent s => [s] | _ => [] end) (fl_events f).

(** A stop that arrives while the verifier runs is overwritten: the run file says
    completed, and the event log has two terminal statuses. *)
Example stop_during_verification :
  let f := wd_files (snd (supervised (demo_env true) demo_config "run-1" demo_files 0%nat)) in
  (rec_status <$> fl_run f) = Some run_completed /\ file_statuses f = [run_running; run_stopped; run_completed].
Proof. vm_compute. done. Qed.
Example demo_life : life (demo_log false) = [announced run_running; written run_completed; announced run_completed] /\ launches (demo_log false) = ["claude-code"; "codex"].
Proof. vm_compute. done. Qed.

Definition launched_as (o : option Act) : RunRecord * AgentAdapterContext := match o with Some (Launched _ r c) => (r, c) | _ => (demo_record, no_context) end.

Lemma launches_gated_witness : let l := demo_log false in let i := 11%nat in let record := fst (launched_as (l !! i)) in let ctx := snd (launched_as (l !! i)) in
  l = take i l ++ Launched "codex" record ctx :: drop (S i) l /\ cx_codexSandbox ctx = Some workspace_write /\
  launch_ok demo_config (take i l) "codex" record ctx.
Proof.
  cbv zeta. unfold demo_log. set (log := run_log _ _ _ _ _). set (r := launched_as (log !! 11%nat)).
  assert (Hl : log !! 11%nat = Some (Launched "codex" (fst r) (snd r))) by (vm_compute; reflexivity).
  assert (Hs : log = take 11 log ++ Launched "codex" (fst r) (snd r) :: drop 12 log) by (symmetry; apply take_drop_middle, Hl).
  split; [exact Hs|]. split; [vm_compute; reflexivity|].
  exact (launches_gated (demo_env false) demo_config "run-1" demo_files 0%nat _ _ "codex" _ _ Hs).
Defined.

