(* ===== verification/Drafts.v ===== *)
(** * Drafts and builder sessions of the control store
      (src/control/sqlite-store.ts, migrations.ts)

    The tables of the workflow compiler and of the conversational builder, next to the
    workflow tables [DB] they refer to.  Operations run in the state-and-error monad of
    [Machine]; [atomic] is a transaction. *)

From S2P Require Import Prelude Machine Values Json Contract Verification Outputs StoreRows Store StoreOps RuntimeEnv.

(** ** Tables *)

Record DraftRow : Type := {
  d_draft_id : string; d_idempotency_key : option string; d_request_fingerprint : string; d_compiler_task_id : option string;
  d_compiler_capability_json : option string; d_constraints_json : option string; d_inventory_snapshot_json : option string; d_inventory_hash : string;
  d_spec_json : option string; d_input_values_json : option string; d_spec_hash : option string; d_policy_summary_json : option string;
  d_policy_summary_hash : option string; d_preview_json : option string; d_rationale_json : option string; d_warnings_json : option string;
  d_questions_json : option string; d_compiler_status : string; d_validation_status : string; d_approval_status : string;
  d_materialized_workflow_id : option string; d_created_at : string; d_updated_at : string }.

Record BuilderSessionRow : Type := {
  b_builder_session_id : string; b_title : string; b_status : string; b_current_draft_id : option string; b_current_spec_hash : option string;
  b_revision : Z; b_source_workflow_id : option string; b_compiler_agent : option string; b_compiler_node_id : option string;
  b_pending_turn_key : option string; b_pending_turn_started_at : option string; b_created_at : string; b_updated_at : string }.

Record BuilderMessageRow : Type := {
  m_message_id : string; m_builder_session_id : string; m_role : string; m_content : string; m_sequence : Z; m_draft_id : option string;
  m_spec_hash : option string; m_metadata_json : option string; m_turn_key : option string; m_created_at : string }.

Record Library : Type := {
  lb_db : DB; lb_drafts : gmap string DraftRow; lb_sessions : gmap string BuilderSessionRow; lb_messages : list BuilderMessageRow }.

Definition set_lb_db (x : DB) (s : Library) : Library := {| lb_db := x; lb_drafts := lb_drafts s; lb_sessions := lb_sessions s; lb_messages := lb_messages s |}.
Definition set_lb_drafts (x : gmap string DraftRow) (s : Library) : Library :=
  {| lb_db := lb_db s; lb_drafts := x; lb_sessions := lb_sessions s; lb_messages := lb_messages s |}.
Definition set_lb_sessions (x : gmap string BuilderSessionRow) (s : Library) : Library :=
  {| lb_db := lb_db s; lb_drafts := lb_drafts s; lb_sessions := x; lb_messages := lb_messages s |}.
Definition set_lb_messages (x : list BuilderMessageRow) (s : Library) : Library :=
  {| lb_db := lb_db s; lb_drafts := lb_drafts s; lb_sessions := lb_sessions s; lb_messages := x |}.

Definition L (A : Type) : Type := ST Library err_code A.
(** An operation on the workflow tables. *)
Definition in_db {A : Type} (m : M A) : L A := fun s => let '(r, db) := m (lb_db s) in (r, set_lb_db db s).
Definition open : L unit := in_db opened.

(** ** Drafts *)

Record WorkflowDraftRecord : Type := {
  dr_row : DraftRow; dr_compiler_capability : value; dr_constraints : value; dr_inventory_snapshot : value; dr_spec : value; dr_input_values : value;
  dr_policy_summary : value; dr_preview : value; dr_rationale : value; dr_warnings : value; dr_questions : value }.

Definition draftRow (id : string) (s : Library) : option DraftRow := lb_drafts s !! id.
Definition theDraft (id : string) : L DraftRow := o ← asks (draftRow id); obtain o not_found.

Definition toDraft (r : DraftRow) : L WorkflowDraftRecord :=
  let col (c : option string) : L value := from (decodeJson c SIZE_LIMITS.metadata_json false) in
  cap ← col (d_compiler_capability_json r); con ← col (d_constraints_json r); inv ← col (d_inventory_snapshot_json r);
  spec ← from (decodeJson (d_spec_json r) SIZE_LIMITS.spec_json false); iv ← col (d_input_values_json r); ps ← col (d_policy_summary_json r);
  pv ← col (d_preview_json r); ra ← col (d_rationale_json r); wa ← col (d_warnings_json r); qu ← col (d_questions_json r);
  mret {| dr_row := r; dr_compiler_capability := cap; dr_constraints := con; dr_inventory_snapshot := inv; dr_spec := spec; dr_input_values := iv;
          dr_policy_summary := ps; dr_preview := pv; dr_rationale := ra; dr_warnings := wa; dr_questions := qu |}.
(** [this.toDraft(this.draftRow(id)!)]. *)
Definition draftRecord (id : string) : L WorkflowDraftRecord := o ← asks (draftRow id); r ← obtain o type_error; toDraft r.
Definition update_draft (id : string) (f : DraftRow -> DraftRow) : L unit := update (fun s => set_lb_drafts (alter f id (lb_drafts s)) s).

(** [x !== undefined ? encode(x) : null]. *)
Definition encodeGiven (v : value) (limit : Z) : result err_code (option string) :=
  if is_undef v then Ok None else try! t := encodeJson v limit in Ok (Some t).

Record CreateDraftInput : Type := {
  cd_draft_id : string; cd_idempotency_key : option string; cd_request_fingerprint : string; cd_constraints : value; cd_inventory_snapshot : value; cd_inventory_hash : string }.
(** A field that is not given is [VUndef]. *)
Record DraftPatch : Type := {
  df_compiler_status : string; df_validation_status : string; df_spec : value; df_input_values : value; df_spec_hash : option string;
  df_policy_summary : value; df_policy_summary_hash : option string; df_preview : value; df_rationale : value; df_warnings : value; df_questions : value }.

Section Now.
Context (now : string).

Definition new_draft_row (i : CreateDraftInput) (fingerprint constraints inventory hash : string) : DraftRow :=
  {| d_draft_id := cd_draft_id i; d_idempotency_key := cd_idempotency_key i; d_request_fingerprint := fingerprint; d_compiler_task_id := None;
     d_compiler_capability_json := None; d_constraints_json := Some constraints; d_inventory_snapshot_json := Some inventory; d_inventory_hash := hash;
     d_spec_json := None; d_input_values_json := None; d_spec_hash := None; d_policy_summary_json := None; d_policy_summary_hash := None;
     d_preview_json := None; d_rationale_json := None; d_warnings_json := None; d_questions_json := None; d_compiler_status := "pending";
     d_validation_status := "pending"; d_approval_status := "unapproved"; d_materialized_workflow_id := None; d_created_at := now; d_updated_at := now |}.

(** INSERT under the primary key and the unique idempotency key. *)
Definition insert_draft (r : DraftRow) : L unit :=
  dup ← asks (fun s => match d_idempotency_key r with
                       | Some k => is_some (find_row (fun x => opt_is (d_idempotency_key x) k) (lb_drafts s))
                       | None => false end);
  ensure (negb dup) sqlite_constraint;;
  update (fun s => set_lb_drafts (<[d_draft_id r := r]> (lb_drafts s)) s).

Definition createDraft (i : CreateDraftInput) : L (WorkflowDraftRecord * bool) :=
  open;; ensure (isSafeId (cd_draft_id i)) invalid_record;;
  atomic (
    existing ← asks (draftRow (cd_draft_id i));
    match existing with
    | Some r => d ← toDraft r; mret (d, false)
    | None =>
        rf ← from (boundString (cd_request_fingerprint i) 128);
        con ← from (encodeJson (null_payload (cd_constraints i)) SIZE_LIMITS.metadata_json);
        inv ← from (encodeJson (null_payload (cd_inventory_snapshot i)) SIZE_LIMITS.metadata_json);
        ih ← from (boundString (cd_inventory_hash i) 128);
        insert_draft (new_draft_row i rf con inv ih);;
        d ← draftRecord (cd_draft_id i); mret (d, true)
    end).

Definition with_task (task : string) (cap : option string) (r : DraftRow) : DraftRow :=
  {| d_draft_id := d_draft_id r; d_idempotency_key := d_idempotency_key r; d_request_fingerprint := d_request_fingerprint r; d_compiler_task_id := Some task;
     d_compiler_capability_json := cap; d_constraints_json := d_constraints_json r; d_inventory_snapshot_json := d_inventory_snapshot_json r;
     d_inventory_hash := d_inventory_hash r; d_spec_json := d_spec_json r; d_input_values_json := d_input_values_json r; d_spec_hash := d_spec_hash r;
     d_policy_summary_json := d_policy_summary_json r; d_policy_summary_hash := d_policy_summary_hash r; d_preview_json := d_preview_json r;
     d_rationale_json := d_rationale_json r; d_warnings_json := d_warnings_json r; d_questions_json := d_questions_json r;
     d_compiler_status := d_compiler_status r; d_validation_status := d_validation_status r; d_approval_status := d_approval_status r;
     d_materialized_workflow_id := d_materialized_workflow_id r; d_created_at := d_created_at r; d_updated_at := now |}.

Definition bindDraftCompilerTask (draftId taskId : string) (capability : value) : L unit :=
  open;; atomic (
    r ← theDraft draftId;
    ensure (match d_compiler_task_id r with Some t => t =s taskId | None => true end) invalid_transition;;
    match d_compiler_task_id r with
    | Some _ => mret tt
    | None => cap ← from (encodeGiven capability SIZE_LIMITS.metadata_json); update_draft draftId (with_task taskId cap)
    end).

(** The columns [finalizeDraft] writes. *)
Record DraftContent : Type := {
  dc_compiler_status : string; dc_validation_status : string; dc_spec : option string; dc_input_values : option string; dc_spec_hash : option string;
  dc_policy_summary : option string; dc_policy_summary_hash : option string; dc_preview : option string; dc_rationale : option string;
  dc_warnings : option string; dc_questions : option string }.
Definition with_content (c : DraftContent) (r : DraftRow) : DraftRow :=
  {| d_draft_id := d_draft_id r; d_idempotency_key := d_idempotency_key r; d_request_fingerprint := d_request_fingerprint r;
     d_compiler_task_id := d_compiler_task_id r; d_compiler_capability_json := d_compiler_capability_json r; d_constraints_json := d_constraints_json r;
     d_inventory_snapshot_json := d_inventory_snapshot_json r; d_inventory_hash := d_inventory_hash r; d_spec_json := dc_spec c;
     d_input_values_json := dc_input_values c; d_spec_hash := dc_spec_hash c; d_policy_summary_json := dc_policy_summary c;
     d_policy_summary_hash := dc_policy_summary_hash c; d_preview_json := dc_preview c; d_rationale_json := dc_rationale c;
     d_warnings_json := dc_warnings c; d_questions_json := dc_questions c; d_compiler_status := dc_compiler_status c;
     d_validation_status := dc_validation_status c; d_approval_status := d_approval_status r;
     d_materialized_workflow_id := d_materialized_workflow_id r; d_created_at := d_created_at r; d_updated_at := now |}.
Definition draft_content (p : DraftPatch) : result err_code DraftContent :=
  let col v := encodeGiven v SIZE_LIMITS.metadata_json in
  try! cs := boundString (df_compiler_status p) 32 in try! vs := boundString (df_validation_status p) 32 in
  try! spec := encodeGiven (df_spec p) SIZE_LIMITS.spec_json in try! iv := col (df_input_values p) in try! ps := col (df_policy_summary p) in
  try! pv := col (df_preview p) in try! ra := col (df_rationale p) in try! wa := col (df_warnings p) in try! qu := col (df_questions p) in
  Ok {| dc_compiler_status := cs; dc_validation_status := vs; dc_spec := spec; dc_input_values := iv; dc_spec_hash := df_spec_hash p; dc_policy_summary := ps;
        dc_policy_summary_hash := df_policy_summary_hash p; dc_preview := pv; dc_rationale := ra; dc_warnings := wa; dc_questions := qu |}.

(** The first finalization wins. *)
Definition finalizeDraft (draftId : string) (p : DraftPatch) : L WorkflowDraftRecord :=
  open;; atomic (
    r ← theDraft draftId;
    if negb (d_compiler_status r =s "pending") then toDraft r else
    c ← from (draft_content p); update_draft draftId (with_content c);; draftRecord draftId).

Definition getDraft (draftId : string) : L (option WorkflowDraftRecord) :=
  open;; o ← asks (draftRow draftId); match o with Some r => d ← toDraft r; mret (Some d) | None => mret None end.
Definition getDraftByIdempotencyKey (key : string) : L (option WorkflowDraftRecord) :=
  open;; o ← asks (fun s => find_row (fun x => opt_is (d_idempotency_key x) key) (lb_drafts s));
  match o with Some r => d ← toDraft r; mret (Some d) | None => mret None end.

Definition with_approval (workflowId : string) (r : DraftRow) : DraftRow :=
  {| d_draft_id := d_draft_id r; d_idempotency_key := d_idempotency_key r; d_request_fingerprint := d_request_fingerprint r;
     d_compiler_task_id := d_compiler_task_id r; d_compiler_capability_json := d_compiler_capability_json r; d_constraints_json := d_constraints_json r;
     d_inventory_snapshot_json := d_inventory_snapshot_json r; d_inventory_hash := d_inventory_hash r; d_spec_json := d_spec_json r;
     d_input_values_json := d_input_values_json r; d_spec_hash := d_spec_hash r; d_policy_summary_json := d_policy_summary_json r;
     d_policy_summary_hash := d_policy_summary_hash r; d_preview_json := d_preview_json r; d_rationale_json := d_rationale_json r;
     d_warnings_json := d_warnings_json r; d_questions_json := d_questions_json r; d_compiler_status := d_compiler_status r;
     d_validation_status := d_validation_status r; d_approval_status := "approved"; d_materialized_workflow_id := Some workflowId;
     d_created_at := d_created_at r; d_updated_at := now |}.

(** Under the foreign key of the materialized workflow. *)
Definition approveDraftWithWorkflow (draftId workflowId : string) : L WorkflowDraftRecord :=
  open;; atomic (
    r ← theDraft draftId;
    match d_materialized_workflow_id r with
    | Some _ => toDraft r
    | None =>
        fk ← asks (fun s => is_some (workflowRow workflowId (lb_db s))); ensure fk sqlite_constraint;;
        update_draft draftId (with_approval workflowId);; draftRecord draftId
    end).

(** ** Builder sessions *)

Definition builderSessionRow (id : string) (s : Library) : option BuilderSessionRow := lb_sessions s !! id.
Definition theSession (id : string) : L BuilderSessionRow := o ← asks (builderSessionRow id); obtain o not_found.
Definition sessionRecord (id : string) : L BuilderSessionRow := o ← asks (builderSessionRow id); obtain o type_error.
Definition update_session (id : string) (f : BuilderSessionRow -> BuilderSessionRow) : L unit := update (fun s => set_lb_sessions (alter f id (lb_sessions s)) s).

Record WorkflowBuilderMessageRecord : Type := { bm_row : BuilderMessageRow; bm_metadata : value }.
Definition toBuilderMessage (r : BuilderMessageRow) : L WorkflowBuilderMessageRecord :=
  md ← from (decodeJson (m_metadata_json r) SIZE_LIMITS.metadata_json true); mret {| bm_row := r; bm_metadata := md |}.

(** [WHERE builder_session_id = ? ORDER BY sequence ASC]. *)
Definition by_sequence (a b : BuilderMessageRow) : bool := m_sequence a <=? m_sequence b.
Definition session_messages (id : string) (s : Library) : list BuilderMessageRow :=
  sort_by by_sequence (List.filter (fun r => m_builder_session_id r =s id) (lb_messages s)).
Definition nextBuilderSeq (id : string) (s : Library) : Z :=
  fold_right (fun r m => Z.max (m_sequence r) m) (-1) (session_messages id s) + 1.
Definition builderTurnRow (id turnKey role : string) (s : Library) : option BuilderMessageRow :=
  List.find (fun r => opt_is (m_turn_key r) turnKey && (m_role r =s role)) (session_messages id s).

Fixpoint mapM_L {A B : Type} (f : A -> L B) (l : list A) : L (list B) :=
  match l with [] => mret [] | x :: r => y ← f x; ys ← mapM_L f r; mret (y :: ys) end.

Definition BUILDER_MESSAGE_ROLES : list string := ["user"; "assistant"; "system"].

Record CreateSessionRow : Type := {
  cb_builder_session_id : string; cb_title : string; cb_source_workflow_id : option string; cb_compiler_agent : option string; cb_compiler_node_id : option string }.
Definition new_session_row (i : CreateSessionRow) (title : string) : BuilderSessionRow :=
  {| b_builder_session_id := cb_builder_session_id i; b_title := title; b_status := "active"; b_current_draft_id := None; b_current_spec_hash := None;
     b_revision := 1; b_source_workflow_id := cb_source_workflow_id i; b_compiler_agent := cb_compiler_agent i; b_compiler_node_id := cb_compiler_node_id i;
     b_pending_turn_key := None; b_pending_turn_started_at := None; b_created_at := now; b_updated_at := now |}.

(** Under the foreign key of the source workflow. *)
Definition createBuilderSession (i : CreateSessionRow) : L BuilderSessionRow :=
  open;; ensure (isSafeId (cb_builder_session_id i)) invalid_record;;
  atomic (
    existing ← asks (builderSessionRow (cb_builder_session_id i));
    match existing with
    | Some r => mret r
    | None =>
        title ← from (boundString (cb_title i) 512);
        fk ← asks (fun s => match cb_source_workflow_id i with Some w => is_some (workflowRow w (lb_db s)) | None => true end);
        ensure fk sqlite_constraint;;
        update (fun s => set_lb_sessions (<[cb_builder_session_id i := new_session_row i title]> (lb_sessions s)) s);;
        sessionRecord (cb_builder_session_id i)
    end).

Definition getBuilderSession (id : string) : L (option BuilderSessionRow) := open;; asks (builderSessionRow id).
Definition listBuilderMessages (id : string) : L (list WorkflowBuilderMessageRecord) :=
  open;; rows ← asks (session_messages id); mapM_L toBuilderMessage rows.

Definition opt_record (o : option BuilderMessageRow) : L (option WorkflowBuilderMessageRecord) :=
  match o with Some r => m ← toBuilderMessage r; mret (Some m) | None => mret None end.
Definition findBuilderTurn (id turnKey : string) : L (option WorkflowBuilderMessageRecord * option WorkflowBuilderMessageRecord) :=
  open;; u ← asks (builderTurnRow id turnKey "user"); a ← asks (builderTurnRow id turnKey "assistant");
  u ← opt_record u; a ← opt_record a; mret (u, a).

(** INSERT under the primary key, the unique sequence and the foreign keys; [messageId] is
    random. *)
Definition insertBuilderMessageSync (messageId sessionId role content : string) (draft_id spec_hash : option string) (metadata : value) (turn_key : option string)
    : L WorkflowBuilderMessageRecord :=
  ensure (role ∈b BUILDER_MESSAGE_ROLES) invalid_record;;
  seq ← asks (nextBuilderSeq sessionId);
  content ← from (boundString content SIZE_LIMITS.input_text);
  meta ← from (encodeOpt metadata SIZE_LIMITS.metadata_json);
  taken ← asks (fun s => existsb (fun r => m_message_id r =s messageId) (lb_messages s)
                         || existsb (fun r => m_sequence r =? seq) (session_messages sessionId s));
  ensure (negb taken) sqlite_constraint;;
  fk ← asks (fun s => is_some (builderSessionRow sessionId s) && match draft_id with Some d => is_some (draftRow d s) | None => true end);
  ensure fk sqlite_constraint;;
  let r := {| m_message_id := messageId; m_builder_session_id := sessionId; m_role := role; m_content := content; m_sequence := seq; m_draft_id := draft_id;
              m_spec_hash := spec_hash; m_metadata_json := meta; m_turn_key := turn_key; m_created_at := now |} in
  update (fun s => set_lb_messages (lb_messages s ++ [r]) s);;
  toBuilderMessage r.

Definition with_pending (key : string) (r : BuilderSessionRow) : BuilderSessionRow :=
  {| b_builder_session_id := b_builder_session_id r; b_title := b_title r; b_status := b_status r; b_current_draft_id := b_current_draft_id r;
     b_current_spec_hash := b_current_spec_hash r; b_revision := b_revision r; b_source_workflow_id := b_source_workflow_id r;
     b_compiler_agent := b_compiler_agent r; b_compiler_node_id := b_compiler_node_id r; b_pending_turn_key := Some key;
     b_pending_turn_started_at := Some now; b_created_at := b_created_at r; b_updated_at := now |}.

(** The message of the turn, and whether it was there already. *)
Definition appendBuilderUserMessage (messageId id content : string) (turn_key : option string) : L (WorkflowBuilderMessageRecord * bool) :=
  open;; atomic (
    s ← theSession id;
    ensure (b_status s =s "active") invalid_transition;;
    ex ← asks (fun l => match turn_key with Some k => builderTurnRow id k "user" l | None => None end);
    match ex with
    | Some r => m ← toBuilderMessage r; mret (m, true)
    | None =>
        ensure (match b_pending_turn_key s with Some p => opt_is turn_key p | None => true end) builder_turn_in_progress;;
        m ← insertBuilderMessageSync messageId id "user" content None None VNull turn_key;
        match turn_key with Some k => update_session id (with_pending k) | None => mret tt end;;
        mret (m, false)
    end).

Definition with_turn (draft_id spec_hash : option string) (r : BuilderSessionRow) : BuilderSessionRow :=
  {| b_builder_session_id := b_builder_session_id r; b_title := b_title r; b_status := b_status r; b_current_draft_id := draft_id;
     b_current_spec_hash := spec_hash; b_revision := b_revision r + 1; b_source_workflow_id := b_source_workflow_id r;
     b_compiler_agent := b_compiler_agent r; b_compiler_node_id := b_compiler_node_id r; b_pending_turn_key := None;
     b_pending_turn_started_at := None; b_created_at := b_created_at r; b_updated_at := now |}.

Record AssistantInput : Type := { ai_content : string; ai_draft_id : option string; ai_spec_hash : option string; ai_metadata : value; ai_turn_key : option string }.
(** The session, the assistant's message, and whether the turn had been completed. *)
Definition completeBuilderTurn (messageId id : string) (expectedRevision : Z) (a : AssistantInput) (current_draft_id current_spec_hash : option string)
    : L (BuilderSessionRow * WorkflowBuilderMessageRecord * bool) :=
  open;; atomic (
    s ← theSession id;
    ex ← asks (fun l => match ai_turn_key a with Some k => builderTurnRow id k "assistant" l | None => None end);
    match ex with
    | Some r => m ← toBuilderMessage r; mret (s, m, true)
    | None =>
        ensure (b_status s =s "active") invalid_transition;;
        ensure (b_revision s =? expectedRevision) builder_revision_conflict;;
        m ← insertBuilderMessageSync messageId id "assistant" (ai_content a) (ai_draft_id a) (ai_spec_hash a) (ai_metadata a) (ai_turn_key a);
        fk ← asks (fun l => match current_draft_id with Some d => is_some (draftRow d l) | None => true end);
        ensure fk sqlite_constraint;;
        update_session id (with_turn current_draft_id current_spec_hash);;
        s' ← sessionRecord id; mret (s', m, false)
    end).

Definition with_archived (r : BuilderSessionRow) : BuilderSessionRow :=
  {| b_builder_session_id := b_builder_session_id r; b_title := b_title r; b_status := "archived"; b_current_draft_id := b_current_draft_id r;
     b_current_spec_hash := b_current_spec_hash r; b_revision := b_revision r; b_source_workflow_id := b_source_workflow_id r;
     b_compiler_agent := b_compiler_agent r; b_compiler_node_id := b_compiler_node_id r; b_pending_turn_key := b_pending_turn_key r;
     b_pending_turn_started_at := b_pending_turn_started_at r; b_created_at := b_created_at r; b_updated_at := now |}.
Definition archiveBuilderSession (id : string) : L BuilderSessionRow :=
  open;; atomic (
    s ← theSession id;
    if b_status s =s "archived" then mret s else update_session id with_archived;; sessionRecord id).

(** [ORDER BY updated_at DESC, builder_session_id DESC LIMIT ? OFFSET ?]. *)
Record WorkflowBuilderSessionSummary : Type := {
  bs_builder_session_id : string; bs_title : string; bs_status : string; bs_updated_at : string; bs_revision : Z; bs_draft_ready : bool; bs_processing : bool;
  bs_last_outcome : value; bs_last_message_preview : option string }.
Definition recent_first (a b : BuilderSessionRow) : bool :=
  negb (js_leb (b_updated_at a) (b_updated_at b)) || ((b_updated_at a =s b_updated_at b) && js_leb (b_builder_session_id b) (b_builder_session_id a)).
Definition summarize (r : BuilderSessionRow) : L WorkflowBuilderSessionSummary :=
  messages ← asks (session_messages (b_builder_session_id r));
  let lastA := last (List.filter (fun m => m_role m =s "assistant") messages) in
  md ← from (match lastA with
             | Some m => match m_metadata_json m with
                         | Some t => if t =s "" then Ok VNull else decodeJson (Some t) SIZE_LIMITS.metadata_json true
                         | None => Ok VNull end
             | None => Ok VNull end);
  let kind := get "kind" md in
  mret {| bs_builder_session_id := b_builder_session_id r; bs_title := b_title r; bs_status := b_status r; bs_updated_at := b_updated_at r; bs_revision := b_revision r;
          bs_draft_ready := is_some (b_current_spec_hash r); bs_processing := is_some (b_pending_turn_key r);
          bs_last_outcome := if is_nullish kind then VNull else kind; bs_last_message_preview := utf16_take 140 ∘ m_content <$> last messages |}.
Definition listBuilderSessions (limit offset : option Z) : L (list WorkflowBuilderSessionSummary) :=
  open;; rows ← asks (fun s => sort_by recent_first (map snd (map_to_list (lb_sessions s))));
  mapM_L summarize (take (Z.to_nat (Z.max 1 (Z.min (default 50 limit) 200))) (drop (Z.to_nat (Z.max 0 (default 0 offset))) rows)).
End Now.
