(* ===== verification/Compiler.v ===== *)
(** * The workflow compiler (src/workflow/compiler/)

    A compiler agent proposes a workflow as JSON text; trusted code parses it, validates it
    against the inventory and the system policy, and keeps it as a draft that never
    changes again.  A draft is approved by the hash of its specification, which creates
    one workflow.  The Agent Task client, the relay's node list, the clock, randomness and
    SHA-256 are parameters.  Before every access to the store other users may change it,
    and the process may die. *)

From S2P Require Import Prelude Machine Values Json Contract Conditions Templates Verification Validator Outputs StoreRows Store StoreOps RuntimeEnv Runtime TaskContract Drafts.

(** ** Results of the compiler agent (contract.ts) *)

Definition COMPILER_STATUSES : list string := ["ready"; "needs_input"; "impossible"; "policy_denied"].
Definition KNOWN_RESULT_FIELDS : list string := ["schema_version"; "status"; "workflow_spec"; "input_values"; "rationale"; "questions"; "warnings"].
Definition MAX_LIST : Z := 50.
Definition MAX_STR : Z := 4096.

Record CompilerResultV1 : Type := {
  kr_status : string; kr_workflow_spec : value; kr_input_values : value; kr_rationale : value; kr_questions : list value; kr_warnings : list value }.
Inductive result_code : Type := not_json | not_object | unknown_field | bad_schema_version | bad_status | bad_shape.
Definition code_text (c : result_code) : string :=
  match c with
  | not_json => "not_json" | not_object => "not_object" | unknown_field => "unknown_field" | bad_schema_version => "bad_schema_version"
  | bad_status => "bad_status" | bad_shape => "bad_shape"
  end.

Definition isStrList (v : value) : bool :=
  match v with
  | VArr l => (Z.of_nat (List.length l) <=? MAX_LIST) && forallb (fun x => match x with VStr s => js_length s <=? MAX_STR | _ => false end) l
  | _ => false
  end.
(** [x ?? dflt]. *)
Definition or_else (v dflt : value) : value := if is_nullish v then dflt else v.

Definition parseCompilerResult (text : string) : result result_code CompilerResultV1 :=
  let trimmed := trim text in
  if negb (starts_with "{" trimmed) then Err not_json else
  match JSON_parse trimmed with
  | None => Err not_json
  | Some parsed =>
      if negb (isObj parsed) then Err not_object else
      if existsb (fun k => negb (k ∈b KNOWN_RESULT_FIELDS)) (obj_keys parsed) then Err unknown_field else
      if negb (strict_eq (get "schema_version" parsed) (VStr "1")) then Err bad_schema_version else
      match get "status" parsed with
      | VStr status =>
          if negb (status ∈b COMPILER_STATUSES) then Err bad_status else
          let spec := or_else (get "workflow_spec" parsed) (VObj []) in
          let inputs := or_else (get "input_values" parsed) (VObj []) in
          let rationale := or_else (get "rationale" parsed) (VObj []) in
          let questions := or_else (get "questions" parsed) (VArr []) in
          let warnings := or_else (get "warnings" parsed) (VArr []) in
          if negb (isObj spec && isObj inputs && isObj rationale) then Err bad_shape else
          if negb (isStrList questions && isStrList warnings) then Err bad_shape else
          Ok {| kr_status := status; kr_workflow_spec := spec; kr_input_values := inputs; kr_rationale := rationale;
                kr_questions := take (Z.to_nat MAX_LIST) (elems questions); kr_warnings := take (Z.to_nat MAX_LIST) (elems warnings) |}
      | _ => Err bad_status
      end
  end.

(** ** The inventory (inventory.ts, inventory-gateway.ts) *)

Record InventoryAgent : Type := {
  ia_agent : string; ia_node_id : option string; ia_permission_modes : list string; ia_workspace_supported : bool; ia_capabilities : list string;
  ia_verifier_profiles : option (list string) }.
Record Inventory : Type := { iv_agents : list InventoryAgent; iv_observed_at : string }.

(** [node_id] is [None] for a local agent. *)
Definition findPlacement (inv : Inventory) (agent : string) (nodeId : option string) : option InventoryAgent :=
  List.find (fun a => (ia_agent a =s agent) && opt_str_eqb (ia_node_id a) nodeId) (iv_agents inv).

(** An inventory as it is persisted, and as it is read back: [None] where a field that is
    used has another type than a snapshot gives it. *)
Definition strings (l : list string) : value := VArr (map VStr l).
Definition agent_json (a : InventoryAgent) : value :=
  VObj ([("agent", VStr (ia_agent a))] ++ match ia_node_id a with Some n => [("node_id", VStr n)] | None => [] end
    ++ [("permission_modes", strings (ia_permission_modes a)); ("workspace_supported", VBool (ia_workspace_supported a)); ("capabilities", strings (ia_capabilities a))]
    ++ match ia_verifier_profiles a with Some l => [("verifier_profiles", strings l)] | None => [] end).
Definition inventory_json (i : Inventory) : value := VObj [("agents", VArr (map agent_json (iv_agents i))); ("observed_at", VStr (iv_observed_at i))].

Definition read_str (v : value) : option string := match v with VStr s => Some s | _ => None end.
Definition read_strings (v : value) : option (list string) := match v with VArr l => mapM read_str l | _ => None end.
(** An absent field is [Some None]. *)
Definition read_opt {A : Type} (f : value -> option A) (v : value) : option (option A) := if is_nullish v then Some None else Some <$> f v.
Definition read_agent (v : value) : option InventoryAgent :=
  agent ← read_str (get "agent" v); node ← read_opt read_str (get "node_id" v); modes ← read_strings (get "permission_modes" v);
  ws ← (match get "workspace_supported" v with VBool b => Some b | _ => None end); caps ← read_strings (get "capabilities" v);
  profiles ← read_opt read_strings (get "verifier_profiles" v);
  Some {| ia_agent := agent; ia_node_id := node; ia_permission_modes := modes; ia_workspace_supported := ws; ia_capabilities := caps; ia_verifier_profiles := profiles |}.
Definition read_inventory (v : value) : option Inventory :=
  agents ← (match get "agents" v with VArr l => mapM read_agent l | _ => None end); at_ ← read_str (get "observed_at" v);
  Some {| iv_agents := agents; iv_observed_at := at_ |}.

Definition VERIFY_SANDBOX_CAPABILITY : string := "verify-sandbox".
(** [ri_agents], [ri_capabilities]: [None] where they are not arrays. *)
Record RemoteNodeInfo : Type := { ri_node_id : string; ri_status : string; ri_agents : option (list string); ri_capabilities : option (list string) }.
Definition remote_agents (n : RemoteNodeInfo) : list InventoryAgent :=
  if negb (ri_status n =s "online") then [] else
  let caps := default [] (ri_capabilities n) in
  let profiles := if VERIFY_SANDBOX_CAPABILITY ∈b caps then VERIFIER_PROFILE_IDS else [] in
  map (fun a => {| ia_agent := a; ia_node_id := Some (ri_node_id n); ia_permission_modes := ["default"]; ia_workspace_supported := "workspace" ∈b caps;
                   ia_capabilities := caps; ia_verifier_profiles := Some profiles |}) (default [] (ri_agents n)).
Definition local_agent (a : string) : InventoryAgent :=
  {| ia_agent := a; ia_node_id := None; ia_permission_modes := ["default"]; ia_workspace_supported := false; ia_capabilities := []; ia_verifier_profiles := None |}.
Definition gateway_inventory (localAgents : list string) (nodes : list RemoteNodeInfo) (now : string) : Inventory :=
  {| iv_agents := map local_agent localAgents ++ flat_map remote_agents nodes; iv_observed_at := now |}.

(** ** Validation (validate.ts) *)

Record SystemPolicy : Type := { sy_max_tasks_cap : Z; sy_max_runtime_cap_seconds : Z; sy_max_rounds_cap : Z; sy_allowed_permission_modes : list string }.
Definition DEFAULT_SYSTEM_POLICY : SystemPolicy :=
  {| sy_max_tasks_cap := 200; sy_max_runtime_cap_seconds := 21600; sy_max_rounds_cap := 50; sy_allowed_permission_modes := ["default"] |}.

Definition SECRET_KEY_RE (key : string) : bool :=
  existsb (fun t => contains t (lower key))
    ["token"; "secret"; "password"; "passwd"; "apikey"; "api_key"; "api-key"; "credential"; "privatekey"; "private_key"; "private-key"; "bearer";
     "accesskey"; "access_key"; "access-key"].
Definition found (code path : string) : ValidationIssue := {| vi_code := code; vi_path := Some path |}.

(** Fields named like secrets, twelve levels deep; [depth]: the levels that remain. *)
Fixpoint scanSecrets (depth : nat) (path : string) (node : value) : list ValidationIssue :=
  match depth with
  | O => []
  | S d =>
      match node with
      | VArr l => List.concat (imap (fun i v => scanSecrets d (path +:+ "/" +:+ zstr (Z.of_nat i)) v) l)
      | VObj o => flat_map (fun '(k, v) => (if SECRET_KEY_RE k then [found "secret_field_rejected" (path +:+ "/" +:+ k)] else [])
                                           ++ scanSecrets d (path +:+ "/" +:+ k) v) o
      | _ => []
      end
  end.
Definition SCAN_DEPTH : nat := 13.

(** What the steps of a role ask for, each value once. *)
Definition steps_of_role (spec : value) (role : string) : list value := List.filter (fun s => is_str_lit (get "agent_role" s) role) (elems (get "steps" spec)).
Definition modes_of_role (spec : value) (role : string) : list string :=
  remove_dups (flat_map (fun s => match truthy_str (get "permission_mode" s) with Some m => [m] | None => [] end) (steps_of_role spec role)).
Definition profiles_of_role (spec : value) (role : string) : list string :=
  remove_dups (flat_map (fun s => match get "profile" (get "verify" s) with VStr p => [p] | _ => [] end) (steps_of_role spec role)).
Definition uses_workspace (spec : value) (role : string) : bool :=
  existsb (fun s => negb (is_undef (get "workspace_key_template" s))) (steps_of_role spec role).

Definition role_issues (inventory : Inventory) (policy : SystemPolicy) (spec : value) (entry : string * value) : list ValidationIssue :=
  let '(roleName, role) := entry in let path := "/agents/" +:+ roleName in
  match findPlacement inventory (str_of (get "agent" role)) (read_str (get "node_id" role)) with
  | None => [found "agent_not_in_inventory" path]
  | Some p =>
      flat_map (fun m => if negb (m ∈b ia_permission_modes p) || negb (m ∈b sy_allowed_permission_modes policy) then [found "permission_not_enforceable" path] else [])
        (modes_of_role spec roleName)
      ++ (if uses_workspace spec roleName && negb (ia_workspace_supported p) then [found "workspace_not_supported" path] else [])
      ++ flat_map (fun v => if negb (v ∈b default [] (ia_verifier_profiles p)) then [found "verifier_profile_not_advertised" path] else []) (profiles_of_role spec roleName)
  end.
Definition limit_issues (policy : SystemPolicy) (spec : value) : list ValidationIssue :=
  let over k cap := if cap <? limit_of spec k then [found "limit_exceeds_policy" ("/limits/" +:+ k)] else [] in
  over "max_tasks" (sy_max_tasks_cap policy) ++ over "max_runtime_seconds" (sy_max_runtime_cap_seconds policy) ++ over "max_rounds" (sy_max_rounds_cap policy).

(** The name a refusal of [normalizeInputValues] carries. *)
Definition refused_input (spec provided : value) : option string :=
  let defs := get "inputs" spec in
  if negb (is_undef provided) && negb (isObj provided) then None else
  match List.find (fun name => isSecretName name || negb (has_own name defs)) (obj_keys provided) with
  | Some name => Some name
  | None => fst <$> List.find (fun '(name, def) => if has_own name provided then negb (matchesDeclaredType (get name provided) (get "type" def))
                                                    else is_undef (get "default" def) && truthy (get "required" def)) (entries defs)
  end.

(** The specification and its normalized inputs, or the issues. *)
Definition validateReady (specInput inputValuesInput : value) (inventory : Inventory) (policy : SystemPolicy) : result (list ValidationIssue) (value * value) :=
  let secrets := scanSecrets SCAN_DEPTH "/workflow_spec" specInput ++ scanSecrets SCAN_DEPTH "/input_values" inputValuesInput in
  let v := validateWorkflowSpec specInput in
  if negb (vr_valid v) then Err (secrets ++ take 25 (vr_issues v)) else
  match normalizeInputValues specInput inputValuesInput with
  | Err _ => Err (secrets ++ [{| vi_code := "invalid_input_values"; vi_path := match refused_input specInput inputValuesInput with
                                                                                  | Some name => if name =s "" then None else Some ("/input_values/" +:+ name)
                                                                                  | None => None end |}])
  | Ok values =>
      let issues := secrets ++ flat_map (role_issues inventory policy specInput) (entries (get "agents" specInput)) ++ limit_issues policy specInput
        ++ (if isCompletableSpec specInput && is_undef (get "completion_policy" specInput) then [found "completion_policy_required" "/completion_policy"] else []) in
      match issues with [] => Ok (specInput, values) | _ => Err issues end
  end.

(** ** Preview (preview.ts) *)

Definition or_nil (v : value) : value := or_else v VNull.
Definition quoted (s : string) : string := String dquote s +:+ String dquote EmptyString.
Definition side_effects (spec : value) : list string :=
  js_sort (remove_dups (flat_map (fun s =>
    (if is_str_lit (get "permission_mode" s) "unsafe-skip"
     then ["step " +:+ quoted (str_of (get "id" s)) +:+ " runs with unsafe-skip permissions (bypasses approval prompts)"] else [])
    ++ (if is_undef (get "workspace_key_template" s) then []
        else ["step " +:+ quoted (str_of (get "id" s)) +:+ " writes a Node workspace (" +:+ match get "node_id" (role_of spec s) with VStr n => n | _ => "unrouted" end +:+ ")"]))
    (elems (get "steps" spec)))).
Definition policy_limits (spec : value) : value :=
  let lim k := get k (get "limits" spec) in
  VObj [("max_tasks", lim "max_tasks"); ("max_runtime_seconds", lim "max_runtime_seconds"); ("max_rounds", or_nil (lim "max_rounds"));
        ("max_step_attempts", lim "max_step_attempts"); ("max_failures", lim "max_failures")].
Definition buildPolicySummary (spec : value) : value :=
  let steps := elems (get "steps" spec) in
  let role_name s := or_else (get "agent_role" s) (VStr "") in
  let cp := or_nil (get "completion_policy" spec) in
  VObj [ ("roles", VArr (map (fun '(role, r) => VObj [("role", VStr role); ("agent", get "agent" r); ("node_id", or_nil (get "node_id" r))]) (entries (get "agents" spec))));
         ("permissions", VArr (flat_map (fun s => if truthy (get "permission_mode" s)
            then [VObj [("step", get "id" s); ("role", role_name s); ("permission_mode", get "permission_mode" s)]] else []) steps));
         ("workspace_access", VArr (flat_map (fun s => if is_undef (get "workspace_key_template" s) then []
            else [VObj [("step", get "id" s); ("role", role_name s); ("node_id", or_nil (get "node_id" (role_of spec s)))]]) steps));
         ("network_capable", VBool false); ("limits", policy_limits spec); ("completion_policy", cp);
         ("requires_verified_tests", VBool (truthy cp && strict_eq (get "require_tests_passed" cp) (VBool true)));
         ("stall_policy", or_nil (get "stall_policy" spec)); ("external_side_effect_warnings", strings (side_effects spec)) ].

Definition preview_step (spec s : value) : value :=
  let role := role_of spec s in
  VObj [ ("id", get "id" s); ("role", or_nil (get "agent_role" s)); ("agent", or_nil (get "agent" role)); ("node_id", or_nil (get "node_id" role));
         ("workspace", VBool (negb (is_undef (get "workspace_key_template" s)))); ("workspace_write", VBool (strict_eq (get "workspace_write" s) (VBool true)));
         ("verify", or_nil (get "profile" (get "verify" s))); ("permission_mode", or_nil (get "permission_mode" s)); ("pause", or_nil (get "kind" (get "pause_before" s))) ].
Definition condition_text (c : value) : value :=
  match get "path" c with
  | VStr p => VStr (trim (p +:+ " " +:+ str_of (get "op" c) +:+ " "
                          +:+ if is_undef (get "value" c) then "" else default "undefined" (JSON_stringify (get "value" c))))
  | _ => VNull
  end.
Definition preview_edge (e : value) : value :=
  VObj [ ("from", get "from" e); ("to", get "to" e); ("kind", get "kind" e); ("loop", VBool (is_str_lit (get "kind" e) "loop"));
         ("terminal", VBool (starts_with "$" (str_of (get "to" e)))); ("cond", condition_text (get "condition" e)) ].
Definition str_or (v : value) (dflt : string) : string := match v with VStr s => s | _ => dflt end.
Definition policy_text (v : value) : string := if truthy v then default "undefined" (JSON_stringify v) else "none".
Definition graph_lines (spec : value) (steps edges : list value) (summary : value) : list string :=
  let lim k := match get k (get "limits" summary) with VNum (NInt z) => zstr z | _ => "—" end in
  let tagged tag v := match truthy_str v with Some s => tag +:+ s | None => "" end in
  [ "workflow " +:+ str_of (get "name" spec) +:+ " (entry: " +:+ str_of (get "entry_step" spec) +:+ ")" ]
  ++ map (fun st => "  step " +:+ str_of (get "id" st) +:+ ": " +:+ str_or (get "agent" st) "—" +:+ tagged "@" (get "node_id" st)
                    +:+ (if truthy (get "workspace" st) then " [workspace]" else "") +:+ tagged " perm=" (get "permission_mode" st) +:+ tagged " pause=" (get "pause" st)) steps
  ++ map (fun e => "  edge " +:+ str_of (get "from" e) +:+ " -" +:+ (if truthy (get "loop" e) then "loop→" else "→") +:+ " " +:+ str_of (get "to" e)) edges
  ++ [ "  limits: tasks≤" +:+ lim "max_tasks" +:+ " runtime≤" +:+ lim "max_runtime_seconds" +:+ "s rounds≤" +:+ lim "max_rounds";
       "  completion_policy: " +:+ policy_text (get "completion_policy" summary) +:+ "  stall_policy: " +:+ policy_text (get "stall_policy" summary) ]
  ++ match side_effects spec with [] => [] | l => ["  warnings: " +:+ String.concat "; " l] end.
Definition buildPreview (spec : value) : value :=
  let summary := buildPolicySummary spec in
  let steps := map (preview_step spec) (elems (get "steps" spec)) in
  let edges := map preview_edge (elems (get "edges" spec)) in
  let routes := js_sort (remove_dups (map (fun e => str_of (get "to" e)) (List.filter (fun e => truthy (get "terminal" e)) edges))) in
  VObj [ ("name", get "name" spec); ("entry_step", get "entry_step" spec); ("policy_summary", summary); ("steps", VArr steps); ("edges", VArr edges);
         ("loop_edges", zval (Z.of_nat (List.length (List.filter (fun e => truthy (get "loop" e)) edges)))); ("terminal_routes", strings routes);
         ("graph_text", VStr (String.concat (String "010" EmptyString) (graph_lines spec steps edges summary))) ].

(** ** Canonical hashes (canonical.ts) *)

(** The arguments are objects, so [JSON.stringify] returns a text. *)
Definition canonicalJson (v : value) : string := default "" (JSON_stringify (canonicalize v)).

(** ** The environment *)

(** [ke_alive]: does the process live on; [ke_fetchNodes]: [None] where it throws;
    [ke_createTask], [ke_waitForTerminal]: the Agent Task client. *)
Record CompilerEnv (E : Type) : Type := {
  ke_other : E -> Library -> Library * E;
  ke_alive : E -> bool * E;
  ke_now : E -> string * E;
  ke_randomHex : E -> string * E;
  ke_localAgents : list string;
  ke_fetchNodes : option (E -> option (list RemoteNodeInfo) * E);
  ke_createTask : AgentTaskCreateRequest -> E -> result ClientError string * E;
  ke_waitForTerminal : string -> Z -> E -> result ClientError AgentTaskTerminalRead * E }.
Arguments ke_other {E}. Arguments ke_alive {E}. Arguments ke_now {E}. Arguments ke_randomHex {E}. Arguments ke_localAgents {E}. Arguments ke_fetchNodes {E}.
Arguments ke_createTask {E}. Arguments ke_waitForTerminal {E}.

Record KWorld (E : Type) : Type := { kw_lib : Library; kw_env : E }.
Arguments kw_lib {E}. Arguments kw_env {E}. Arguments Build_KWorld {E}.

(** The process died; a CompilerError; an error of the store; another error. *)
Inductive KFail : Type := Crashed | CompilerError (code : string) | StoreError (e : err_code) | OtherError.

Section Compiler.
Context {E : Type} (env : CompilerEnv E) (sha256_hex : string -> string) (policy : SystemPolicy) (maxWaits : nat).

Definition K (A : Type) : Type := ST (KWorld E) KFail A.

Definition with_world {A : Type} (f : E -> A * E) : K A := fun w => let '(a, e) := f (kw_env w) in (Ok a, Build_KWorld (kw_lib w) e).
Definition interfere : K unit := update (fun w => let '(l, e) := ke_other env (kw_env w) (kw_lib w) in Build_KWorld l e).
(** One call of the store: others act, the process may die, then the operation runs. *)
Definition in_store {A : Type} (m : L A) : K A := fun w =>
  let '(r, l) := m (kw_lib w) in (match r with Ok a => Ok a | Err e => Err (StoreError e) end, Build_KWorld l (kw_env w)).
Definition store {A : Type} (m : string -> L A) : K A :=
  interfere;; alive ← with_world (ke_alive env); ensure alive Crashed;; now ← with_world (ke_now env); in_store (m now).

Definition canonicalHash (v : value) : string := sha256_hex (canonicalJson v).

(** *** The compiler agent (model-client.ts) *)

Inductive CompilerModelOutcome : Type := model_available (task_id output_text : string) | model_unavailable (task_id status : string).
Definition outcome_task (o : CompilerModelOutcome) : string := match o with model_available t _ | model_unavailable t _ => t end.

Fixpoint await_model (waits : nat) (task : string) (cursor : Z) : K CompilerModelOutcome :=
  match waits with
  | O => mret (model_unavailable task "missing")
  | S n =>
      r ← with_world (ke_waitForTerminal env task cursor);
      match r with
      | Err ClientTransient => await_model n task cursor
      | Err ClientFatal => raise OtherError
      | Ok read =>
          if negb (rd_terminal read) then await_model n task (rd_next_event_id read) else
          mret (match rd_status read =s "completed", rd_result_status read, rd_result_text read with
                | true, Some rs, Some text => if rs =s "available" then model_available task text else model_unavailable task (if rs =s "invalid" then "invalid" else "missing")
                | true, Some rs, None => model_unavailable task (if rs =s "invalid" then "invalid" else "missing")
                | true, None, _ => model_unavailable task "missing"
                | false, _, _ => model_unavailable task "failed"
                end)
      end
  end.
Definition model_compile (prompt agent : string) (node_id : option string) (idempotency_key : string) : K CompilerModelOutcome :=
  r ← with_world (ke_createTask env
    {| rq_agent := agent; rq_node_id := truthy_string node_id; rq_text := prompt; rq_workspace_key := None; rq_permission_mode := Some "default";
       rq_workspace_write := false; rq_metadata := VUndef; rq_idempotency_key := idempotency_key; rq_workspace_lease_id := None; rq_verify := VUndef |});
  match r with Ok task => await_model maxWaits task (-1) | Err _ => raise OtherError end.

(** *** Compilation (compiler.ts) *)

Record CompileRequest : Type := {
  kq_nl_request : string; kq_constraints : value; kq_compiler_agent : string; kq_compiler_node_id : option string; kq_idempotency_key : option string }.

Definition COMPILER_CAPABILITY_PROFILE : list (string * value) :=
  [("permission_mode", VStr "default"); ("workspace_write", VBool false); ("git_push", VBool false); ("deploy", VBool false); ("secret_access", VBool false);
   ("external_side_effects", VBool false); ("network", VBool false)].
Definition SAFE_IDEM_KEY_RE : string -> bool := isSafeId.
Definition MAX_REQUEST_BYTES : Z := 16 * 1024.

(** Single quotes stand for double ones. *)
Definition dq (s : string) : string := string_of_list_ascii (map (fun c => if Ascii.eqb c "'" then dquote else c) (list_ascii_of_string s)).
Definition buildCompilerPrompt (nlRequest : string) (constraints : value) (inventory : Inventory) : string :=
  String.concat (String "010" EmptyString)
    [ "You are a Workflow Compiler. Output EXACTLY ONE JSON object and nothing else (no prose, no markdown).";
      dq "The object must match: { 'schema_version':'1', 'status':'ready|needs_input|impossible|policy_denied', 'workflow_spec':{}, 'input_values':{}, 'rationale':{}, 'questions':[], 'warnings':[] }.";
      "Assign roles to agents/nodes ONLY from the inventory. Do not invent agents. A completable workflow ($complete route) MUST include a completion_policy. Never include secrets or credentials.";
      "INVENTORY:"; canonicalJson (inventory_json inventory); "CONSTRAINTS:"; canonicalJson constraints; "REQUEST:"; nlRequest ].

Definition empty_patch (compiler_status validation_status : string) (rationale warnings questions : value) : DraftPatch :=
  {| df_compiler_status := compiler_status; df_validation_status := validation_status; df_spec := VUndef; df_input_values := VUndef; df_spec_hash := None;
     df_policy_summary := VUndef; df_policy_summary_hash := None; df_preview := VUndef; df_rationale := rationale; df_warnings := warnings; df_questions := questions |}.
Definition finalizeInvalid (draftId status : string) (warnings : list string) : K WorkflowDraftRecord :=
  store (fun now => finalizeDraft now draftId (empty_patch status "invalid" VUndef (strings warnings) VUndef)).
Definition finalizeNonReady (draftId status : string) (r : CompilerResultV1) : K WorkflowDraftRecord :=
  store (fun now => finalizeDraft now draftId (empty_patch status "invalid" (kr_rationale r) (VArr (kr_warnings r)) (VArr (kr_questions r)))).
Definition issue_text (i : ValidationIssue) : value :=
  VStr (vi_code i +:+ match vi_path i with Some p => if p =s "" then "" else " @ " +:+ p | None => "" end).

(** The patch of a validated specification. *)
Definition ready_patch (spec values : value) (r : CompilerResultV1) : DraftPatch :=
  {| df_compiler_status := "ready"; df_validation_status := "valid"; df_spec := spec; df_input_values := values; df_spec_hash := Some (canonicalHash spec);
     df_policy_summary := buildPolicySummary spec; df_policy_summary_hash := Some (canonicalHash (buildPolicySummary spec)); df_preview := buildPreview spec;
     df_rationale := kr_rationale r; df_warnings := VArr (kr_warnings r); df_questions := VArr (kr_questions r) |}.

Definition finish_compile (draftId : string) (inventory : Inventory) (output : CompilerModelOutcome) : K WorkflowDraftRecord :=
  match output with
  | model_unavailable _ _ => finalizeInvalid draftId "impossible" ["compiler produced no authoritative result"]
  | model_available _ text =>
      match parseCompilerResult text with
      | Err code => finalizeInvalid draftId "impossible" ["compiler output rejected: " +:+ code_text code]
      | Ok r =>
          if negb (kr_status r =s "ready") then finalizeNonReady draftId (kr_status r) r else
          match validateReady (kr_workflow_spec r) (kr_input_values r) inventory policy with
          | Err issues => store (fun now => finalizeDraft now draftId
              (empty_patch "ready" "invalid" (kr_rationale r) (VArr (take 100 (kr_warnings r ++ map issue_text issues))) (VArr (kr_questions r))))
          | Ok (spec, values) => store (fun now => finalizeDraft now draftId (ready_patch spec values r))
          end
      end
  end.

Definition unenforceable : string :=
  dq "compiler backend cannot enforce the minimum-capability profile (permission_mode 'default' unsupported)".
(** With the inventory the draft was created with. *)
Definition runCompile (draft : WorkflowDraftRecord) (req : CompileRequest) : K WorkflowDraftRecord :=
  let draftId := d_draft_id (dr_row draft) in
  inventory ← obtain (if is_nullish (dr_inventory_snapshot draft) then Some {| iv_agents := []; iv_observed_at := "" |} else read_inventory (dr_inventory_snapshot draft)) OtherError;
  let constraints := or_else (dr_constraints draft) (VObj []) in
  match findPlacement inventory (kq_compiler_agent req) (kq_compiler_node_id req) with
  | Some p =>
      if negb ("default" ∈b ia_permission_modes p) then finalizeInvalid draftId "impossible" [unenforceable] else
      let capability := VObj (COMPILER_CAPABILITY_PROFILE ++ [("agent", VStr (kq_compiler_agent req)); ("node_id", or_null (kq_compiler_node_id req)); ("enforced_by", VStr "node")]) in
      outcome ← model_compile (buildCompilerPrompt (kq_nl_request req) constraints inventory) (kq_compiler_agent req) (kq_compiler_node_id req) ("compile:" +:+ draftId);
      store (fun now => bindDraftCompilerTask now draftId (outcome_task outcome) capability);;
      finish_compile draftId inventory outcome
  | None => finalizeInvalid draftId "impossible" [unenforceable]
  end.

Definition snapshot : K Inventory :=
  nodes ← (match ke_fetchNodes env with Some f => r ← with_world f; mret (default [] r) | None => mret [] end : K (list RemoteNodeInfo));
  now ← with_world (ke_now env); mret (gateway_inventory (ke_localAgents env) nodes now).

Definition request_fingerprint (nl_request : string) (constraints : value) : string :=
  canonicalHash (VObj [("request", VStr (trim nl_request)); ("constraints", constraints)]).
Definition keyed_draft_id (key : string) : string := "wd_" +:+ utf16_take 24 (sha256_hex ("key:" +:+ key)).

Definition compile (req : CompileRequest) : K WorkflowDraftRecord :=
  let text := kq_nl_request req in
  ensure (negb (trim text =s "") && negb (MAX_REQUEST_BYTES <? byteLen text)) (CompilerError "invalid_request");;
  let constraints := or_else (kq_constraints req) (VObj []) in
  let fingerprint := request_fingerprint text constraints in
  ensure (match kq_idempotency_key req with Some k => SAFE_IDEM_KEY_RE k | None => true end) (CompilerError "invalid_request");;
  let create (draftId : string) : K WorkflowDraftRecord :=
    inventory ← snapshot;
    '(draft, _) ← store (fun now => createDraft now
      {| cd_draft_id := draftId; cd_idempotency_key := kq_idempotency_key req; cd_request_fingerprint := fingerprint; cd_constraints := constraints;
         cd_inventory_snapshot := inventory_json inventory; cd_inventory_hash := canonicalHash (inventory_json inventory) |});
    if negb (d_compiler_status (dr_row draft) =s "pending") then mret draft else runCompile draft req in
  match kq_idempotency_key req with
  | None => hex ← with_world (ke_randomHex env); create ("wd_" +:+ hex)
  | Some key =>
      existing ← store (fun _ => getDraft (keyed_draft_id key));
      match existing with
      | Some draft =>
          ensure (d_request_fingerprint (dr_row draft) =s fingerprint) (CompilerError "idempotency_conflict");;
          if negb (d_compiler_status (dr_row draft) =s "pending") then mret draft else runCompile draft req
      | None => create (keyed_draft_id key)
      end
  end.

(** *** Approval *)

Definition materialized_id (draftId : string) : string := "wf_" +:+ utf16_take 18 (sha256_hex ("materialize:" +:+ draftId)).

(** [try { m } catch (e) { h(e) }]; nothing catches the end of the process. *)
Definition attempt {A : Type} (m : K A) (h : KFail -> K A) : K A :=
  catch m (fun e => match e with Crashed => raise Crashed | _ => h e end).

Definition materializeWorkflow (workflowId : string) (spec inputValues : value) : K unit :=
  existing ← store (fun _ => in_db (getWorkflow workflowId));
  if is_some existing : bool then mret tt else
  ts ← with_world (ke_now env);
  let objective := match get "objective" inputValues with
                   | VStr s => s
                   | _ => match get "description" spec with VStr d => d | _ => str_of (get "name" spec) end
                   end in
  attempt (store (fun now => in_db (createWorkflowWithLifecycleEvents now
      {| cw_workflow_id := workflowId; cw_spec_version := str_of (get "version" spec); cw_workflow_name := str_of (get "name" spec); cw_spec := spec; cw_status := None;
         cw_current_step_id := None; cw_current_round := None; cw_input_values := inputValues |}
      (VObj [("objective", VStr (utf16_take 4096 objective)); ("current_round", zval 1)])
      (Runtime.draft "workflow.created" ts None [("name", get "name" spec); ("source", VStr "compiler")]) (Runtime.draft "workflow.validated" ts None [])));; mret tt)
    (fun e => again ← store (fun _ => in_db (getWorkflow workflowId)); if is_some again : bool then mret tt else raise e).

Definition approve (draftId inspectedSpecHash : string) : K (WorkflowDraftRecord * string) :=
  found ← store (fun _ => getDraft draftId);
  draft ← obtain found (CompilerError "draft_not_found");
  let row := dr_row draft in
  match truthy_string (d_materialized_workflow_id row) with
  | Some wf => ensure (opt_is (d_spec_hash row) inspectedSpecHash) (CompilerError "approval_hash_conflict");; mret (draft, wf)
  | None =>
      ensure ((d_compiler_status row =s "ready") && (d_validation_status row =s "valid") && is_some (truthy_string (d_spec_hash row))) (CompilerError "draft_not_approvable");;
      ensure (opt_is (d_spec_hash row) inspectedSpecHash) (CompilerError "approval_hash_conflict");;
      let workflowId := materialized_id draftId in
      materializeWorkflow workflowId (dr_spec draft) (or_else (dr_input_values draft) (VObj []));;
      updated ← store (fun now => approveDraftWithWorkflow now draftId workflowId);
      mret (updated, workflowId)
  end.
End Compiler.
