(* ===== verification/Builder.v ===== *)
(** * The conversational workflow builder (src/workflow/builder/service.ts)

    A session is a conversation in turns.  A turn appends the user's message, compiles it
    with the conversation so far, and completes: the assistant's message, the pointer to
    the current draft and the revision change together.  A turn is named by its key, so
    that it can be repeated and resumed. *)

From S2P Require Import Prelude Machine Values Json Contract Conditions Templates Verification Validator Outputs StoreRows Store StoreOps RuntimeEnv Runtime TaskContract Workspace Drafts Compiler.

Inductive BuilderTurnKind : Type := ready_for_review | draft_updated | clarification_required | compile_failed.
Definition kind_text (k : BuilderTurnKind) : string :=
  match k with ready_for_review => "ready_for_review" | draft_updated => "draft_updated" | clarification_required => "clarification_required" | compile_failed => "compile_failed" end.

Definition SAFE_KEY_RE : string -> bool := isSafeId.
Definition MAX_CONTENT_BYTES : Z := 32 * 1024.
Definition MAX_HISTORY : nat := 20.

Definition classifyDraft (d : DraftRow) : BuilderTurnKind :=
  if (d_compiler_status d =s "ready") && (d_validation_status d =s "valid") && is_some (truthy_string (d_spec_hash d)) then ready_for_review
  else if d_compiler_status d =s "needs_input" then clarification_required
  else if (d_compiler_status d =s "impossible") || (d_compiler_status d =s "policy_denied") || (d_validation_status d =s "invalid") then compile_failed
  else draft_updated.

(** The projection of a draft in a response. *)
Record BuilderDraftView : Type := { bv_row : DraftRow; bv_questions : list value; bv_warnings : list value; bv_preview : value }.
Definition draftView (d : WorkflowDraftRecord) : BuilderDraftView :=
  {| bv_row := dr_row d; bv_questions := elems (dr_questions d); bv_warnings := elems (dr_warnings d); bv_preview := or_nil (dr_preview d) |}.

Definition only_strings (l : list value) : list string := flat_map (fun v => match v with VStr s => [s] | _ => [] end) l.
Definition assistantText (kind : BuilderTurnKind) (d : WorkflowDraftRecord) : string :=
  let q := only_strings (elems (dr_questions d)) in let w := only_strings (elems (dr_warnings d)) in
  let name := match dr_spec d with VObj _ => truthy_str (get "name" (dr_spec d)) | _ => None end in
  match kind with
  | ready_for_review => "The workflow" +:+ match name with Some n => " " +:+ quoted n | None => "" end
      +:+ " is ready for review. Inspect the preview, then approve spec_hash " +:+ default "null" (d_spec_hash (dr_row d)) +:+ " to materialize it (nothing is started automatically)."
  | clarification_required => match q with
      | [] => "I need more information before I can compile this workflow."
      | _ => "I need a little more information before I can finish:" +:+ String "010" "- " +:+ String.concat (String "010" "- ") q end
  | compile_failed => match w with
      | [] => "I could not compile a valid workflow from that request."
      | _ => "I could not compile a valid workflow: " +:+ String.concat "; " (take 5 w) end
  | draft_updated => "The draft was updated" +:+ match name with Some n => " (" +:+ n +:+ ")" | None => "" end +:+ "."
  end.
Definition assistantMetadata (kind : BuilderTurnKind) (d : WorkflowDraftRecord) : value :=
  let q := take 50 (elems (dr_questions d)) in
  VObj [ ("kind", VStr (kind_text kind)); ("compiler_status", VStr (d_compiler_status (dr_row d))); ("validation_status", VStr (d_validation_status (dr_row d)));
         ("spec_hash", or_null (d_spec_hash (dr_row d))); ("questions", VArr q); ("missing", VArr (match kind with clarification_required => q | _ => [] end));
         ("warnings", VArr (take 50 (elems (dr_warnings d)))) ].

Record BuilderTurnResult : Type := {
  bt_session : BuilderSessionRow; bt_assistant : WorkflowBuilderMessageRecord; bt_kind : value; bt_draft : option BuilderDraftView; bt_replayed : bool }.

(** A BuilderError with its code, or an error of the layers below. *)
Inductive BFail : Type := BuilderError (code : string) | Below (e : KFail).

Section Builder.
Context {E : Type} (env : CompilerEnv E) (sha256_hex : string -> string) (policy : SystemPolicy) (maxWaits : nat).

Definition B (A : Type) : Type := ST (KWorld E) BFail A.
Definition below {A : Type} (m : ST (KWorld E) KFail A) : B A := fun w => let '(r, w') := m w in (match r with Ok a => Ok a | Err e => Err (Below e) end, w').
Definition db {A : Type} (m : string -> L A) : B A := below (store env m).
Definition refuse {A : Type} (code : string) : B A := raise (BuilderError code).
Definition getDraft' (id : string) : B (option WorkflowDraftRecord) := db (fun _ => getDraft id).
Definition random : B string := below (with_world (ke_randomHex env)).
Definition message_id : B string := hex ← random; mret ("bm_" +:+ hex).

(** [throw]s of the store that the service renames. *)
Definition renaming {A : Type} (names : err_code -> option string) (m : B A) : B A :=
  catch m (fun e => match e with Below (StoreError c) => match names c with Some code => refuse code | None => raise e end | _ => raise e end).
Definition append_names (c : err_code) : option string :=
  match c with builder_turn_in_progress => Some "builder_turn_in_progress" | invalid_transition => Some "builder_session_not_active" | _ => None end.
Definition complete_names (c : err_code) : option string :=
  match c with builder_revision_conflict => Some "builder_revision_conflict" | invalid_transition => Some "builder_session_not_active" | _ => None end.

(** The context a message is compiled with. *)
Definition history_entry (m : WorkflowBuilderMessageRecord) : value :=
  VObj [("role", VStr (m_role (bm_row m))); ("content", VStr (utf16_take 4000 (m_content (bm_row m))))].
Definition builder_constraints (prior : list WorkflowBuilderMessageRecord) (current : option WorkflowDraftRecord) : value :=
  VObj [("builder_context",
    VObj [ ("history", VArr (map history_entry (drop (List.length prior - MAX_HISTORY) prior)));
           ("current_spec", match current with Some d => if d_validation_status (dr_row d) =s "valid" then dr_spec d else VNull | None => VNull end);
           ("current_spec_hash", match current with Some d => or_null (d_spec_hash (dr_row d)) | None => VNull end) ])].

Definition complete (id turnKey content : string) (expectedRevision : Z) (draft_id spec_hash : option string) (metadata : value) (current_draft current_hash : option string)
    : B (BuilderSessionRow * WorkflowBuilderMessageRecord * bool) :=
  mid ← message_id;
  db (fun now => completeBuilderTurn now mid id expectedRevision
    {| ai_content := content; ai_draft_id := draft_id; ai_spec_hash := spec_hash; ai_metadata := metadata; ai_turn_key := Some turnKey |} current_draft current_hash).

(** The turn failed below the compiler: its pointer to the current draft stays. *)
Definition complete_failed (id turnKey : string) (session : BuilderSessionRow) (expectedRevision : Z) : B BuilderTurnResult :=
  '(s, m, replay) ← complete id turnKey "Compilation failed" expectedRevision None None (VObj [("kind", VStr "compile_failed")])
     (b_current_draft_id session) (b_current_spec_hash session);
  mret {| bt_session := s; bt_assistant := m; bt_kind := VStr "compile_failed"; bt_draft := None; bt_replayed := replay |}.

Definition complete_compiled (id turnKey : string) (session : BuilderSessionRow) (expectedRevision : Z) (draft : WorkflowDraftRecord) : B BuilderTurnResult :=
  let row := dr_row draft in let kind := classifyDraft row in
  let advance := (d_validation_status row =s "valid") && is_some (truthy_string (d_spec_hash row)) in
  '(s, m, replay) ← renaming complete_names (complete id turnKey (assistantText kind draft) expectedRevision (Some (d_draft_id row)) (d_spec_hash row) (assistantMetadata kind draft)
     (if advance then Some (d_draft_id row) else b_current_draft_id session) (if advance then d_spec_hash row else b_current_spec_hash session));
  mret {| bt_session := s; bt_assistant := m; bt_kind := VStr (kind_text kind); bt_draft := Some (draftView draft); bt_replayed := replay |}.

(** A turn that was completed before. *)
Definition replay_turn (session : BuilderSessionRow) (a : WorkflowBuilderMessageRecord) : B BuilderTurnResult :=
  draft ← (match truthy_string (m_draft_id (bm_row a)) with Some d => getDraft' d | None => mret None end : B (option WorkflowDraftRecord));
  let dflt := match draft with Some d => kind_text (classifyDraft (dr_row d)) | None => "compile_failed" end in
  mret {| bt_session := session; bt_assistant := a; bt_kind := or_else (get "kind" (bm_metadata a)) (VStr dflt); bt_draft := draftView <$> draft; bt_replayed := true |}.

(** Steps 1 to 3 of a new or resumed turn. *)
Definition run_turn (id content turnKey : string) (session : BuilderSessionRow) (agent : string) (expectedRevision : Z) : B BuilderTurnResult :=
  mid ← message_id;
  '(message, _) ← renaming append_names (db (fun now => appendBuilderUserMessage now mid id content (Some turnKey)));
  all ← db (fun _ => listBuilderMessages id);
  let prior := List.filter (fun m => negb (m_message_id (bm_row m) =s m_message_id (bm_row message))) all in
  current ← (match truthy_string (b_current_draft_id session) with Some d => getDraft' d | None => mret None end : B (option WorkflowDraftRecord));
  compiled ← catch (d ← below (compile env sha256_hex policy maxWaits
      {| kq_nl_request := m_content (bm_row message); kq_constraints := builder_constraints prior current; kq_compiler_agent := agent;
         kq_compiler_node_id := b_compiler_node_id session; kq_idempotency_key := Some ("builder:" +:+ id +:+ ":" +:+ turnKey) |}); mret (Some d))
    (fun e => match e with Below Crashed => raise e | _ => mret None end);
  match compiled with
  | None => complete_failed id turnKey session expectedRevision
  | Some draft => complete_compiled id turnKey session expectedRevision draft
  end.

Definition sendMessage (id content : string) (expected_revision : option Z) (idempotency_key : option string) : B BuilderTurnResult :=
  if (trim content =s "") || (MAX_CONTENT_BYTES <? byteLen content) then refuse "invalid_request" else
  match idempotency_key with
  | None => refuse "builder_idempotency_key_required"
  | Some turnKey =>
      if trim turnKey =s "" then refuse "builder_idempotency_key_required" else
      if negb (SAFE_KEY_RE turnKey) then refuse "invalid_request" else
      o ← db (fun _ => getBuilderSession id);
      session ← obtain o (BuilderError "builder_session_not_found");
      '(_, assistant) ← db (fun _ => findBuilderTurn id turnKey);
      match assistant with
      | Some a => replay_turn session a
      | None =>
          if match b_pending_turn_key session with Some p => negb (p =s turnKey) | None => false end then refuse "builder_turn_in_progress" else
          if negb (b_status session =s "active") then refuse "builder_session_not_active" else
          match truthy_string (b_compiler_agent session) with
          | None => refuse "invalid_request"
          | Some agent =>
              if match expected_revision with Some r => negb (r =? b_revision session) | None => false end then refuse "builder_revision_conflict" else
              run_turn id content turnKey session agent (default (b_revision session) expected_revision)
          end
      end
  end.

(** *** Sessions *)

Record CreateSessionInput : Type := {
  si_title : option string; si_initial_request : option string; si_compiler_agent : string; si_compiler_node_id : option string; si_source_workflow_id : option string;
  si_idempotency_key : option string }.

(** The first line that is not blank. *)
Definition deriveTitle (req : option string) : option string :=
  match truthy_string req with
  | None => None
  | Some r => utf16_take 80 <$> List.find (fun l => negb (l =s "")) (map trim (split_char "010" r))
  end.
Definition session_title (i : CreateSessionInput) : string :=
  match si_title i with
  | Some t => if negb (trim t =s "") then trim t else default "New workflow" (truthy_string (deriveTitle (si_initial_request i)))
  | None => default "New workflow" (truthy_string (deriveTitle (si_initial_request i)))
  end.
Definition session_id_of (key : string) : string := "bs_" +:+ utf16_take 24 (sha256_hex ("builder-session:" +:+ key)).
Definition initial_key (key : string) : string := "init_" +:+ utf16_take 32 (sha256_hex ("builder-init:" +:+ key)).

Definition createSession (i : CreateSessionInput) : B (BuilderSessionRow * list WorkflowBuilderMessageRecord * option BuilderTurnResult) :=
  if trim (si_compiler_agent i) =s "" then refuse "invalid_request" else
  if match si_idempotency_key i with Some k => negb (SAFE_KEY_RE k) | None => false end then refuse "invalid_request" else
  if match si_initial_request i with Some r => MAX_CONTENT_BYTES <? byteLen r | None => false end then refuse "invalid_request" else
  let prompt := match si_initial_request i with Some r => if trim r =s "" then None else Some r | None => None end in
  if is_some prompt && negb (is_some (si_idempotency_key i)) then refuse "builder_idempotency_key_required" else
  sessionId ← (match truthy_string (si_idempotency_key i) with Some k => mret (session_id_of k) | None => hex ← random; mret ("bs_" +:+ hex) end : B string);
  session ← db (fun now => createBuilderSession now
    {| cb_builder_session_id := sessionId; cb_title := session_title i; cb_source_workflow_id := si_source_workflow_id i; cb_compiler_agent := Some (si_compiler_agent i);
       cb_compiler_node_id := si_compiler_node_id i |});
  turn ← (match prompt, si_idempotency_key i with
          | Some r, Some k => t ← sendMessage sessionId r (Some (b_revision session)) (Some (initial_key k)); mret (Some t)
          | _, _ => mret None end : B (option BuilderTurnResult));
  fresh ← db (fun _ => getBuilderSession sessionId);
  fresh ← obtain fresh (Below OtherError);
  messages ← db (fun _ => listBuilderMessages sessionId);
  mret (fresh, messages, turn).

(** The session, its messages, its current draft, and since when a turn is pending. *)
Definition getSession (id : string) : B (BuilderSessionRow * list WorkflowBuilderMessageRecord * option BuilderDraftView * option (option string * option string)) :=
  o ← db (fun _ => getBuilderSession id);
  session ← obtain o (BuilderError "builder_session_not_found");
  messages ← db (fun _ => listBuilderMessages id);
  draft ← (match truthy_string (b_current_draft_id session) with Some d => getDraft' d | None => mret None end : B (option WorkflowDraftRecord));
  let pending := k ← b_pending_turn_key session;
    Some (b_pending_turn_started_at session,
          m_message_id ∘ bm_row <$> last (List.filter (fun m => (m_role (bm_row m) =s "user") && opt_is (m_turn_key (bm_row m)) k) messages)) in
  mret (session, messages, draftView <$> draft, pending).

Definition archiveSession (id : string) : B BuilderSessionRow :=
  o ← db (fun _ => getBuilderSession id);
  obtain o (BuilderError "builder_session_not_found");;
  db (fun now => archiveBuilderSession now id).
End Builder.
