(* ===== verification/BuilderApi.v ===== *)
(** * The REST controllers of the compiler and the builder
      (src/workflow/compiler/api.ts, src/workflow/builder/api.ts)

    A controller checks the JSON body, calls the service, and projects the result; errors
    become a status and a code.  Messages for people are left out. *)

From S2P Require Import Prelude Machine Values Json Contract Conditions Templates Verification Validator Outputs StoreRows Store StoreOps RuntimeEnv Runtime TaskContract Drafts Compiler Builder.

(** [ct_replayed]: the header idempotency-replayed is sent. *)
Record ControllerResult : Type := { ct_status : Z; ct_body : value; ct_replayed : bool }.
Definition answer (status : Z) (body : value) : ControllerResult := {| ct_status := status; ct_body := body; ct_replayed := false |}.
Definition err (code : string) (status : Z) (ts : string) : ControllerResult :=
  answer status (VObj [("error", VBool true); ("code", VStr code); ("ts", VStr ts)]).

(** ** Projections *)

Definition toDraftView (d : WorkflowDraftRecord) : value :=
  let r := dr_row d in
  VObj [ ("draft_id", VStr (d_draft_id r)); ("compiler_task_id", or_null (d_compiler_task_id r)); ("compiler_capability", dr_compiler_capability d);
         ("compiler_status", VStr (d_compiler_status r)); ("validation_status", VStr (d_validation_status r)); ("approval_status", VStr (d_approval_status r));
         ("inventory_hash", VStr (d_inventory_hash r)); ("spec_hash", or_null (d_spec_hash r)); ("policy_summary_hash", or_null (d_policy_summary_hash r));
         ("workflow_spec", dr_spec d); ("input_values", dr_input_values d); ("policy_summary", dr_policy_summary d); ("preview", dr_preview d);
         ("rationale", dr_rationale d); ("warnings", or_else (dr_warnings d) (VArr [])); ("questions", or_else (dr_questions d) (VArr []));
         ("materialized_workflow_id", or_null (d_materialized_workflow_id r)); ("created_at", VStr (d_created_at r)); ("updated_at", VStr (d_updated_at r)) ].

(** Sessions, messages and summaries as JSON. *)
Definition session_json (s : BuilderSessionRow) : value :=
  VObj [ ("builder_session_id", VStr (b_builder_session_id s)); ("title", VStr (b_title s)); ("status", VStr (b_status s)); ("created_at", VStr (b_created_at s));
         ("updated_at", VStr (b_updated_at s)); ("current_draft_id", or_null (b_current_draft_id s)); ("current_spec_hash", or_null (b_current_spec_hash s));
         ("revision", zval (b_revision s)); ("source_workflow_id", or_null (b_source_workflow_id s)); ("compiler_agent", or_null (b_compiler_agent s));
         ("compiler_node_id", or_null (b_compiler_node_id s)); ("pending_turn_key", or_null (b_pending_turn_key s));
         ("pending_turn_started_at", or_null (b_pending_turn_started_at s)) ].
Definition message_json (m : WorkflowBuilderMessageRecord) : value :=
  let r := bm_row m in
  VObj [ ("message_id", VStr (m_message_id r)); ("builder_session_id", VStr (m_builder_session_id r)); ("role", VStr (m_role r)); ("content", VStr (m_content r));
         ("created_at", VStr (m_created_at r)); ("sequence", zval (m_sequence r)); ("draft_id", or_null (m_draft_id r)); ("spec_hash", or_null (m_spec_hash r));
         ("metadata", bm_metadata m); ("turn_key", or_null (m_turn_key r)) ].
Definition view_json (v : BuilderDraftView) : value :=
  let r := bv_row v in
  VObj [ ("draft_id", VStr (d_draft_id r)); ("compiler_status", VStr (d_compiler_status r)); ("validation_status", VStr (d_validation_status r));
         ("approval_status", VStr (d_approval_status r)); ("spec_hash", or_null (d_spec_hash r)); ("questions", VArr (bv_questions v)); ("warnings", VArr (bv_warnings v));
         ("preview", bv_preview v); ("materialized_workflow_id", or_null (d_materialized_workflow_id r)) ].
Definition opt_json {A : Type} (f : A -> value) (o : option A) : value := match o with Some a => f a | None => VNull end.
Definition summary_json (s : WorkflowBuilderSessionSummary) : value :=
  VObj [ ("builder_session_id", VStr (bs_builder_session_id s)); ("title", VStr (bs_title s)); ("status", VStr (bs_status s)); ("updated_at", VStr (bs_updated_at s));
         ("revision", zval (bs_revision s)); ("draft_ready", VBool (bs_draft_ready s)); ("processing", VBool (bs_processing s)); ("last_outcome", bs_last_outcome s);
         ("last_message_preview", or_null (bs_last_message_preview s)) ].
Definition turnBody (t : BuilderTurnResult) : value :=
  VObj [ ("kind", bt_kind t); ("assistant_message", message_json (bt_assistant t)); ("draft", opt_json view_json (bt_draft t)); ("session", session_json (bt_session t));
         ("replayed", VBool (bt_replayed t)) ].

(** ** Errors *)

Definition compiler_status (code : string) : Z :=
  if code =s "draft_not_found" then 404 else if (code =s "approval_hash_conflict") || (code =s "idempotency_conflict") || (code =s "draft_not_approvable") then 409
  else if code =s "invalid_request" then 400 else 500.
Definition mapCompilerError (e : KFail) (ts : string) : ControllerResult :=
  match e with CompilerError code => err code (compiler_status code) ts | _ => err "internal_error" 500 ts end.
(** The status a BuilderError of this code is thrown with. *)
Definition httpStatus (code : string) : Z :=
  if code =s "builder_session_not_found" then 404 else if (code =s "invalid_request") || (code =s "builder_idempotency_key_required") then 400 else 409.
Definition mapError (e : BFail) (ts : string) : ControllerResult :=
  match e with BuilderError code => err code (httpStatus code) ts | Below _ => err "internal_error" 500 ts end.

(** ** Controllers *)

Section Controllers.
Context {E : Type} (env : CompilerEnv E) (sha256_hex : string -> string) (policy : SystemPolicy) (maxWaits : nat).
Local Notation K := (ST (KWorld E) KFail).

Definition refused (code : string) (status : Z) : K ControllerResult := ts ← with_world (ke_now env); mret (err code status ts).
(** [try { m } catch (e) { return mapCompilerError(e) }]; a process that died answers nothing. *)
Definition compiling (m : K ControllerResult) : K ControllerResult :=
  attempt m (fun e => ts ← with_world (ke_now env); mret (mapCompilerError e ts)).
Definition building (m : ST (KWorld E) BFail ControllerResult) : K ControllerResult := fun w =>
  match m w with
  | (Ok a, w') => (Ok a, w')
  | (Err (Below Crashed), w') => (Err Crashed, w')
  | (Err e, w') => (ts ← with_world (ke_now env); mret (mapError e ts) : K ControllerResult) w'
  end.

Definition blank (v : value) : bool := match v with VStr s => trim s =s "" | _ => true end.
Definition is_string (v : value) : bool := match v with VStr _ => true | _ => false end.

Definition compileWorkflowController (body : value) : K ControllerResult :=
  if negb (isObj body) then refused "invalid_request" 400 else
  match get "nl_request" body with
  | VStr text =>
      if negb (is_undef (get "constraints" body)) && negb (isObj (get "constraints" body)) then refused "invalid_request" 400 else
      if blank (get "compiler_agent" body) then refused "invalid_request" 400 else
      if negb (is_undef (get "idempotency_key" body)) && negb (is_string (get "idempotency_key" body)) then refused "invalid_request" 400 else
      compiling (d ← compile env sha256_hex policy maxWaits
        {| kq_nl_request := text; kq_constraints := get "constraints" body; kq_compiler_agent := str_of (get "compiler_agent" body);
           kq_compiler_node_id := read_str (get "compiler_node_id" body); kq_idempotency_key := read_str (get "idempotency_key" body) |};
        mret (answer 201 (toDraftView d)))
  | _ => refused "invalid_request" 400
  end.

Definition getWorkflowDraftController (draftId : string) : K ControllerResult :=
  compiling (o ← store env (fun _ => getDraft draftId);
    match o with Some d => mret (answer 200 (toDraftView d)) | None => refused "draft_not_found" 404 end).

Definition approveWorkflowDraftController (draftId : string) (body : value) : K ControllerResult :=
  if negb (isObj body) then refused "invalid_request" 400 else
  if blank (get "spec_hash" body) then refused "invalid_request" 400 else
  compiling ('(d, wf) ← approve env sha256_hex draftId (str_of (get "spec_hash" body));
    mret (answer 200 (VObj (entries (toDraftView d) ++ [("workflow_id", VStr wf);
      ("note", VStr "a ready workflow was created — it is NOT started; call vibe_start_workflow to begin")])))).

Definition createBuilderSessionController (body : value) : K ControllerResult :=
  if negb (isObj body) then refused "invalid_request" 400 else
  match get "compiler_agent" body with
  | VStr agent =>
      if negb (blank (get "initial_request" body)) && blank (get "idempotency_key" body) then refused "builder_idempotency_key_required" 400 else
      building ('(s, ms, t) ← createSession env sha256_hex policy maxWaits
        {| si_title := read_str (get "title" body); si_initial_request := read_str (get "initial_request" body); si_compiler_agent := agent;
           si_compiler_node_id := read_str (get "compiler_node_id" body); si_source_workflow_id := read_str (get "source_workflow_id" body);
           si_idempotency_key := read_str (get "idempotency_key" body) |};
        mret (answer 201 (VObj ([("session", session_json s); ("messages", VArr (map message_json ms))]
                                ++ match t with Some t => [("initial_turn", turnBody t)] | None => [] end))))
  | _ => refused "invalid_request" 400
  end.

Definition getBuilderSessionController (id : string) : K ControllerResult :=
  building ('(s, ms, d, p) ← getSession env id;
    mret (answer 200 (VObj [ ("session", session_json s); ("messages", VArr (map message_json ms)); ("draft", opt_json view_json d);
      ("pending_turn", opt_json (fun '(since, mid) => VObj [("since", or_null since); ("awaiting_user_message_id", or_null mid)]) p) ]))).

(** [svc.listSessions(query)]. *)
Definition listBuilderSessionsController (limit offset : option Z) : K ControllerResult :=
  building (l ← db env (fun _ => listBuilderSessions limit offset);
    mret (answer 200 (VObj [("sessions", VArr (map summary_json l)); ("count", zval (Z.of_nat (List.length l)))]))).

Definition sendBuilderMessageController (id : string) (body : value) : K ControllerResult :=
  if negb (isObj body) then refused "invalid_request" 400 else
  match get "content" body with
  | VStr content =>
      if match get "expected_revision" body with VUndef => false | VNum (NInt _) => false | _ => true end then refused "invalid_request" 400 else
      if blank (get "idempotency_key" body) then refused "builder_idempotency_key_required" 400 else
      building (t ← sendMessage env sha256_hex policy maxWaits id content (match get "expected_revision" body with VNum (NInt z) => Some z | _ => None end)
          (read_str (get "idempotency_key" body));
        mret {| ct_status := 200; ct_body := turnBody t; ct_replayed := bt_replayed t |})
  | _ => refused "invalid_request" 400
  end.

Definition archiveBuilderSessionController (id : string) : K ControllerResult :=
  building (s ← archiveSession env id; mret (answer 200 (VObj [("session", session_json s)]))).
End Controllers.
