(* ===== verification/LibraryProps.v ===== *)
(** * Drafts and conversations: the invariant of the store

    [Good]: a draft is valid only if trusted code validated it against the inventory it was
    created with; a session is a sequence of completed turns with at most one open turn at
    its end.  [library_evolves]: finalized drafts, approvals and messages never change.
    Every operation of the store the services use keeps both, under the precondition the
    services establish. *)

From S2P Require Import Prelude Machine Values Json JsonProps Contract Conditions Templates Verification Validator Outputs StoreRows Store StoreOps StoreProps RuntimeEnv Runtime TaskContract Drafts Compiler.

(** ** Evolution *)

(** What [finalizeDraft] writes. *)
Definition content_of (r : DraftRow) : DraftContent :=
  {| dc_compiler_status := d_compiler_status r; dc_validation_status := d_validation_status r; dc_spec := d_spec_json r; dc_input_values := d_input_values_json r;
     dc_spec_hash := d_spec_hash r; dc_policy_summary := d_policy_summary_json r; dc_policy_summary_hash := d_policy_summary_hash r; dc_preview := d_preview_json r;
     dc_rationale := d_rationale_json r; dc_warnings := d_warnings_json r; dc_questions := d_questions_json r |}.

Record draft_evolves (r r' : DraftRow) : Prop := {
  de_identity : d_draft_id r' = d_draft_id r /\ d_idempotency_key r' = d_idempotency_key r /\ d_request_fingerprint r' = d_request_fingerprint r
    /\ d_constraints_json r' = d_constraints_json r /\ d_inventory_snapshot_json r' = d_inventory_snapshot_json r /\ d_inventory_hash r' = d_inventory_hash r
    /\ d_created_at r' = d_created_at r;
  de_task : forall t, d_compiler_task_id r = Some t -> d_compiler_task_id r' = Some t;
  de_content : d_compiler_status r <> "pending" -> content_of r' = content_of r;
  de_approval : forall w, d_materialized_workflow_id r = Some w -> d_materialized_workflow_id r' = Some w }.

Record session_evolves (r r' : BuilderSessionRow) : Prop := {
  be_identity : b_builder_session_id r' = b_builder_session_id r /\ b_title r' = b_title r /\ b_source_workflow_id r' = b_source_workflow_id r
    /\ b_compiler_agent r' = b_compiler_agent r /\ b_compiler_node_id r' = b_compiler_node_id r /\ b_created_at r' = b_created_at r;
  be_archived : b_status r = "archived" -> b_status r' = "archived";
  be_revision : b_revision r <= b_revision r' }.

Record library_evolves (l l' : Library) : Prop := {
  le_db : evolves (lb_db l) (lb_db l');
  le_drafts : rows_evolve draft_evolves (lb_drafts l) (lb_drafts l');
  le_sessions : rows_evolve session_evolves (lb_sessions l) (lb_sessions l');
  le_messages : lb_messages l `prefix_of` lb_messages l' }.

#[global] Instance draft_evolves_preorder : PreOrder draft_evolves.
Proof.
  split.
  - intros r. constructor; [by repeat split|done..].
  - intros a b c [I1 T1 C1 A1] [I2 T2 C2 A2]. constructor; [intuition congruence|auto| |auto]. intros H. rewrite <- (C1 H). apply C2.
    specialize (C1 H). injection C1 as -> _. done.
Qed.
#[global] Instance session_evolves_preorder : PreOrder session_evolves.
Proof.
  split.
  - intros r. constructor; [by repeat split|done|lia].
  - intros a b c [I1 A1 R1] [I2 A2 R2]. constructor; [intuition congruence|auto|lia].
Qed.
#[global] Instance library_evolves_preorder : PreOrder library_evolves.
Proof.
  split.
  - intros l. constructor; reflexivity.
  - intros a b c [D1 F1 S1 M1] [D2 F2 S2 M2]. constructor; etransitivity; eassumption.
Qed.

(** ** The invariant *)

Section Invariant.
Context (sha256_hex : string -> string) (policy : SystemPolicy).

(** The content is a specification validated against this inventory, with its hash. *)
Definition validated (inventory_json : option string) (c : DraftContent) : Prop :=
  exists iv inventory spec inputs values text values_text,
    decodeJson inventory_json SIZE_LIMITS.metadata_json false = Ok iv /\ read_inventory iv = Some inventory /\
    validateReady spec inputs inventory policy = Ok (spec, values) /\
    encodeJson spec SIZE_LIMITS.spec_json = Ok text /\ dc_spec c = Some text /\ dc_spec_hash c = Some (canonicalHash sha256_hex spec) /\
    encodeJson values SIZE_LIMITS.metadata_json = Ok values_text /\ dc_input_values c = Some values_text /\
    dc_policy_summary_hash c = Some (canonicalHash sha256_hex (buildPolicySummary spec)) /\ dc_compiler_status c = "ready".

Record draft_ok (l : Library) (id : string) (r : DraftRow) : Prop := {
  dk_id : d_draft_id r = id;
  dk_valid : d_validation_status r = "valid" -> validated (d_inventory_snapshot_json r) (content_of r);
  dk_approved : forall w, d_materialized_workflow_id r = Some w ->
    d_validation_status r = "valid" /\ d_approval_status r = "approved" /\ is_some (workflowRow w (lb_db l)) = true }.

Definition messages_in (id : string) (l : Library) : list BuilderMessageRow := List.filter (fun r => m_builder_session_id r =s id) (lb_messages l).

(** A draft a session may point to, with its hash. *)
Definition pointer_ok (l : Library) (draft hash : option string) : Prop :=
  match draft with
  | None => hash = None
  | Some d => exists r, draftRow d l = Some r /\ d_validation_status r = "valid" /\ hash = d_spec_hash r
  end.

(** Role and key of the messages of completed turns and of the open turn. *)
Definition turn (k : string) : list (string * option string) := [("user", Some k); ("assistant", Some k)].
Definition opening (pending : option string) : list (string * option string) := match pending with Some k => [("user", Some k)] | None => [] end.
Record conversation (messages : list BuilderMessageRow) (pending : option string) (revision : Z) : Prop := {
  cv_turns : exists keys, map (fun m => (m_role m, m_turn_key m)) messages = flat_map turn keys ++ opening pending
    /\ NoDup (keys ++ option_list pending) /\ revision = 1 + Z.of_nat (List.length keys);
  cv_sequence : map m_sequence messages = seqZ 0 (Z.of_nat (List.length messages)) }.

Record session_ok (l : Library) (id : string) (r : BuilderSessionRow) : Prop := {
  sk_id : b_builder_session_id r = id;
  sk_conversation : conversation (messages_in id l) (b_pending_turn_key r) (b_revision r);
  sk_pointer : pointer_ok l (b_current_draft_id r) (b_current_spec_hash r) }.

Record Good (l : Library) : Prop := {
  gd_drafts : forall id r, lb_drafts l !! id = Some r -> draft_ok l id r;
  gd_sessions : forall id r, lb_sessions l !! id = Some r -> session_ok l id r;
  gd_messages : forall m, m ∈ lb_messages l -> is_some (lb_sessions l !! m_builder_session_id m) = true }.
End Invariant.

(** ** Conversations *)

Lemma in_user (keys : list string) (pending : option string) (k : string) :
  ("user", Some k) ∈ flat_map turn keys ++ opening pending <-> k ∈ keys \/ pending = Some k.
Proof.
  rewrite elem_of_app, list_elem_of_In, in_flat_map. split.
  - intros [(x & Hx & Hi)|Hp]; [left; apply list_elem_of_In; cbn in Hi; naive_solver|]. right. destruct pending; [|by apply list_elem_of_In in Hp]. apply list_elem_of_In in Hp as [[= ->]|[]]. done.
  - intros [Hk| ->]; [|right; apply list_elem_of_In; by left]. left. exists k. split; [by apply list_elem_of_In|by left].
Qed.
Lemma in_assistant (keys : list string) (pending : option string) (k : string) :
  ("assistant", Some k) ∈ flat_map turn keys ++ opening pending <-> k ∈ keys.
Proof.
  rewrite elem_of_app, list_elem_of_In, in_flat_map. split.
  - intros [(x & Hx & Hi)|Hp]; [apply list_elem_of_In; cbn in Hi; naive_solver|]. destruct pending; by apply list_elem_of_In in Hp as [].
  - intros Hk. left. exists k. split; [by apply list_elem_of_In|]. right. by left.
Qed.

(** A message of this role and turn. *)
Definition says (role k : string) (ms : list BuilderMessageRow) : Prop := (role, Some k) ∈ map (fun m => (m_role m, m_turn_key m)) ms.
Lemma says_app (role k : string) (ms ms' : list BuilderMessageRow) : says role k ms -> says role k (ms ++ ms').
Proof. unfold says. rewrite map_app, elem_of_app. by left. Qed.

Lemma open_turn (ms : list BuilderMessageRow) (pending : option string) (n : Z) (k : string) :
  conversation ms pending n -> says "user" k ms -> ~ says "assistant" k ms -> pending = Some k.
Proof.
  intros [(keys & Hm & _ & _) _] Hu Ha. unfold says in *. rewrite Hm, in_user in Hu. rewrite Hm, in_assistant in Ha. tauto.
Qed.
Lemma pending_says (ms : list BuilderMessageRow) (n : Z) (k : string) : conversation ms (Some k) n -> says "user" k ms.
Proof. intros [(keys & Hm & _ & _) _]. unfold says. rewrite Hm, in_user. by right. Qed.
Lemma conversation_nil : conversation [] None 1.
Proof. split; [|done]. exists []. split; [done|]. split; [constructor|done]. Qed.

Lemma seqZ_snoc (ms : list BuilderMessageRow) (m : BuilderMessageRow) : map m_sequence ms = seqZ 0 (Z.of_nat (List.length ms)) ->
  m_sequence m = Z.of_nat (List.length ms) -> map m_sequence (ms ++ [m]) = seqZ 0 (Z.of_nat (List.length (ms ++ [m]))).
Proof.
  intros H Hm. rewrite map_app, H, length_app. cbn. rewrite Hm, Nat2Z.inj_add, seqZ_app by lia. cbn. f_equal.
Qed.
Lemma conversation_opened (ms : list BuilderMessageRow) (n : Z) (k : string) (m : BuilderMessageRow) : conversation ms None n -> ~ says "user" k ms ->
  m_role m = "user" -> m_turn_key m = Some k -> m_sequence m = Z.of_nat (List.length ms) -> conversation (ms ++ [m]) (Some k) n.
Proof.
  intros [(keys & Hm & Hn & Hr) Hs] Hu Er Ek Es. split; [|by apply seqZ_snoc]. exists keys. split; [|split; [|done]].
  - rewrite map_app, Hm. cbn. rewrite Er, Ek, app_nil_r. done.
  - unfold says in Hu. rewrite Hm, in_user in Hu. cbn in *. rewrite app_nil_r in Hn. apply NoDup_app. split; [done|]. split; [set_solver|]. apply NoDup_singleton.
Qed.
Lemma conversation_closed (ms : list BuilderMessageRow) (n : Z) (k : string) (m : BuilderMessageRow) : conversation ms (Some k) n ->
  m_role m = "assistant" -> m_turn_key m = Some k -> m_sequence m = Z.of_nat (List.length ms) -> conversation (ms ++ [m]) None (n + 1).
Proof.
  intros [(keys & Hm & Hn & Hr) Hs] Er Ek Es. split; [|by apply seqZ_snoc]. exists (keys ++ [k]). split; [|split].
  - rewrite map_app, Hm. cbn. rewrite Er, Ek, flat_map_app, app_nil_r, <- app_assoc. done.
  - cbn in *. by rewrite app_nil_r.
  - rewrite length_app. cbn. lia.
Qed.

(** ** Queries over a conversation *)

Lemma session_messages_in (l : Library) (id : string) (pending : option string) (n : Z) : conversation (messages_in id l) pending n -> session_messages id l = messages_in id l.
Proof. intros [_ Hs]. by apply (sort_numbered m_sequence _ 0). Qed.
Lemma next_sequence (l : Library) (id : string) (pending : option string) (n : Z) :
  conversation (messages_in id l) pending n -> nextBuilderSeq id l = Z.of_nat (List.length (messages_in id l)).
Proof.
  intros Hc. unfold nextBuilderSeq. rewrite (session_messages_in _ _ _ _ Hc). destruct Hc as [_ Hs]. revert Hs. generalize (messages_in id l). intros ms.
  enough (H : forall ms n, map m_sequence ms = seqZ n (Z.of_nat (List.length ms)) -> -1 <= n - 1 ->
    Z.max (n - 1) (fold_right (fun r m => Z.max (m_sequence r) m) (-1) ms) = n - 1 + Z.of_nat (List.length ms)).
  { intros Hs. specialize (H ms 0 Hs). destruct ms as [|m ms]; [done|]. cbn [fold_right List.length] in *. rewrite Nat2Z.inj_succ, seqZ_cons in Hs by lia.
    injection Hs as Hm _. lia. }
  clear. intros ms. induction ms as [|m ms IH]; intros n Hs Hn; [cbn; lia|]. cbn [map List.length fold_right] in *. rewrite Nat2Z.inj_succ, seqZ_cons in Hs by lia.
  rewrite Z.pred_succ in Hs. injection Hs as Hm Hr. specialize (IH (Z.succ n) Hr). lia.
Qed.
Lemma turn_row (l : Library) (id k role : string) (pending : option string) (n : Z) : conversation (messages_in id l) pending n ->
  match builderTurnRow id k role l with Some r => says role k (messages_in id l) | None => ~ says role k (messages_in id l) end.
Proof.
  intros Hc. unfold builderTurnRow. rewrite (session_messages_in _ _ _ _ Hc). unfold says. destruct (List.find _ _) as [r|] eqn:Ef.
  - apply find_some in Ef as [Hi Hb]. apply andb_prop in Hb as [Hk Hr]. apply String.eqb_eq in Hr. apply list_elem_of_In, in_map_iff. exists r. split; [|done].
    destruct (m_turn_key r) as [x|] eqn:Ek; [|done]. cbn in Hk. apply String.eqb_eq in Hk. congruence.
  - intros (r & [= Hr Hk] & Hi)%list_elem_of_In%in_map_iff. assert (H := find_none _ _ Ef r Hi). cbn in H. rewrite Hk, Hr in H. cbn in H. by rewrite !String.eqb_refl in H.
Qed.

(** ** Stability *)

Section Operations.
Context (sha256_hex : string -> string) (policy : SystemPolicy).
Local Notation Good := (Good sha256_hex policy).
Local Notation draft_ok := (draft_ok sha256_hex policy).
Local Notation validated := (validated sha256_hex policy).

Lemma valid_not_pending (l : Library) (id : string) (r : DraftRow) : draft_ok l id r -> d_validation_status r = "valid" -> d_compiler_status r <> "pending".
Proof. intros [_ Hv _] H. destruct (Hv H) as (? & ? & ? & ? & ? & ? & ? & _ & _ & _ & _ & _ & _ & _ & _ & _ & Hs). cbn in Hs. by rewrite Hs. Qed.

(** A valid draft keeps its content. *)
Lemma valid_evolves (l : Library) (id : string) (r r' : DraftRow) : draft_ok l id r -> draft_evolves r r' -> d_validation_status r = "valid" ->
  content_of r' = content_of r /\ d_inventory_snapshot_json r' = d_inventory_snapshot_json r.
Proof. intros Hok Hev Hv. split; [apply Hev; by eapply valid_not_pending|apply Hev]. Qed.

Lemma pointer_evolves (l l' : Library) (d h : option string) : Good l -> library_evolves l l' -> pointer_ok l d h -> pointer_ok l' d h.
Proof.
  intros HG Hev. destruct d as [d|]; [|done]. intros (r & Hr & Hv & ->). destruct (le_drafts _ _ Hev d r Hr) as (r' & Hr' & He). exists r'. split; [done|].
  destruct (valid_evolves _ _ _ _ (gd_drafts _ _ _ HG d r Hr) He Hv) as [Hc _]. injection Hc as _ Hvs _ _ Hh _ _ _ _ _ _. by rewrite Hvs, Hh.
Qed.
Lemma workflow_stays (l l' : Library) (w : string) : library_evolves l l' -> is_some (workflowRow w (lb_db l)) = true -> is_some (workflowRow w (lb_db l')) = true.
Proof.
  intros Hev. unfold workflowRow. destruct (db_workflows (lb_db l) !! w) as [r|] eqn:Ew; [|done]. destruct (ev_workflows _ _ (le_db _ _ Hev) w r Ew) as (r' & -> & _). done.
Qed.
(** A row is as good in a later library. *)
Lemma draft_ok_evolves (l l' : Library) (id : string) (r : DraftRow) : library_evolves l l' -> draft_ok l id r -> draft_ok l' id r.
Proof. intros Hev [Hi Hv Ha]. split; [done|done|]. intros w Hw. destruct (Ha w Hw) as (? & ? & ?). split; [done|]. split; [done|]. by eapply workflow_stays. Qed.

(** ** Changes that keep the invariant *)

Lemma good_db (l : Library) (d : DB) : Good l -> evolves (lb_db l) d -> Good (set_lb_db d l) /\ library_evolves l (set_lb_db d l).
Proof.
  intros HG Hd. assert (Hev : library_evolves l (set_lb_db d l)) by (split; [done|reflexivity..]). split; [|done]. split.
  - intros id r Hr. apply (draft_ok_evolves l); [done|]. by apply HG.
  - intros id r Hr. destruct (gd_sessions _ _ _ HG id r Hr) as [? ? ?]. split; [done|done|]. by apply (pointer_evolves l).
  - apply HG.
Qed.

Lemma good_draft (l : Library) (id : string) (r : DraftRow) : Good l -> draft_ok l id r -> (forall r0, draftRow id l = Some r0 -> draft_evolves r0 r) ->
  let l' := set_lb_drafts (<[id := r]> (lb_drafts l)) l in Good l' /\ library_evolves l l'.
Proof.
  intros HG Hok He l'. assert (Hev : library_evolves l l').
  { split; [reflexivity| |reflexivity..]. intros k x Hx. cbn. destruct (decide (k = id)) as [->|Hne].
    - exists r. rewrite lookup_insert_eq. split; [done|]. by apply He.
    - exists x. rewrite lookup_insert_ne by done. by split. }
  split; [|done]. split.
  - intros k x. cbn. destruct (decide (k = id)) as [->|Hne]; [rewrite lookup_insert_eq; intros [= <-]; by apply (draft_ok_evolves l)|].
    rewrite lookup_insert_ne by done. intros Hx. apply (draft_ok_evolves l); [done|]. by apply HG.
  - intros k x Hx. destruct (gd_sessions _ _ _ HG k x Hx) as [? ? ?]. split; [done|done|]. by apply (pointer_evolves l).
  - apply HG.
Qed.

(** Messages [ms] of one session with the row [r] they lead to. *)
Lemma good_session (l : Library) (id : string) (r : BuilderSessionRow) (ms : list BuilderMessageRow) : Good l ->
  b_builder_session_id r = id -> Forall (fun m => m_builder_session_id m = id) ms ->
  conversation (messages_in id l ++ ms) (b_pending_turn_key r) (b_revision r) -> pointer_ok l (b_current_draft_id r) (b_current_spec_hash r) ->
  (forall r0, builderSessionRow id l = Some r0 -> session_evolves r0 r) ->
  let l' := set_lb_sessions (<[id := r]> (lb_sessions l)) (set_lb_messages (lb_messages l ++ ms) l) in Good l' /\ library_evolves l l'.
Proof.
  intros HG Hid Hms Hc Hp He l'. assert (Hev : library_evolves l l').
  { split; [reflexivity|reflexivity| |by apply prefix_app_r]. intros k x Hx. cbn. destruct (decide (k = id)) as [->|Hne].
    - exists r. rewrite lookup_insert_eq. split; [done|]. by apply He.
    - exists x. rewrite lookup_insert_ne by done. by split. }
  assert (Hin : forall k, messages_in k l' = messages_in k l ++ if k =s id then ms else []).
  { intros k. unfold messages_in, l'. cbn. rewrite List.filter_app. f_equal. clear -Hms. induction Hms as [|m ms Hm Hms IH]; [by destruct (k =s id)|].
    cbn. rewrite Hm, IH, String.eqb_sym. by destruct (k =s id). }
  split; [|done]. split.
  - intros k x Hx. apply (draft_ok_evolves l); [done|]. by apply HG.
  - intros k x. cbn. destruct (decide (k = id)) as [->|Hne].
    + rewrite lookup_insert_eq. intros [= <-]. split; [done| |by apply (pointer_evolves l)]. by rewrite Hin, String.eqb_refl.
    + rewrite lookup_insert_ne by done. intros Hx. destruct (gd_sessions _ _ _ HG k x Hx) as [? Hcv ?]. split; [done| |by apply (pointer_evolves l)].
      rewrite Hin. apply String.eqb_neq in Hne. by rewrite Hne, app_nil_r.
  - intros m. cbn. rewrite elem_of_app. intros [Hm|Hm].
    + assert (H := gd_messages _ _ _ HG m Hm). destruct (decide (m_builder_session_id m = id)) as [->|Hne]; [by rewrite lookup_insert_eq|by rewrite lookup_insert_ne].
    + rewrite Forall_forall in Hms. rewrite (Hms m Hm), lookup_insert_eq. done.
Qed.

(** ** Operations of the store *)

(** Under [P] the operation keeps the invariant, lets the library evolve, and yields [Q]. *)
Definition lop {A : Type} (P : Library -> Prop) (m : L A) (Q : result err_code A -> Library -> Prop) : Prop :=
  forall l, Good l -> P l -> Good (snd (m l)) /\ library_evolves l (snd (m l)) /\ Q (fst (m l)) (snd (m l)).

Lemma same_library (l : Library) : set_lb_db (lb_db l) l = l.
Proof. by destruct l. Qed.
Lemma run_open (l : Library) : open l = (Ok tt, l) \/ open l = (Err closed, l).
Proof. unfold open, in_db, opened, gets, check, mbind, M_bind. cbn. destruct (negb (db_closed (lb_db l))); cbn; rewrite same_library; auto. Qed.
Lemma alter_found {A : Type} (m : gmap string A) (k : string) (x : A) (f : A -> A) : m !! k = Some x -> alter f k m = <[k := f x]> m.
Proof.
  intros H. apply map_eq. intros i. destruct (decide (i = k)) as [->|Hne]; [by rewrite lookup_alter_eq, H, lookup_insert_eq|].
  by rewrite lookup_alter_ne, lookup_insert_ne.
Qed.

Lemma lop_err {A : Type} (P : Library -> Prop) (Q : result err_code A -> Library -> Prop) (e : err_code) (l : Library) :
  (forall e l, P l -> Q (Err e) l) -> Good l -> P l -> Good l /\ library_evolves l l /\ Q (Err e) l.
Proof. intros He HG HP. split; [done|]. split; [reflexivity|by apply He]. Qed.
Lemma lop_open {A : Type} (P : Library -> Prop) (m : L A) Q : (forall e l, P l -> Q (Err e) l) -> lop P m Q -> lop P (open;; m) Q.
Proof.
  intros He Hm l HG HP. unfold mbind, ST_bind. destruct (run_open l) as [-> | ->]; [by apply Hm|by apply (lop_err P)].
Qed.
Lemma lop_ensure {A : Type} (P : Library -> Prop) (b : bool) (e : err_code) (m : L A) Q : (forall e l, P l -> Q (Err e) l) -> lop P m Q -> lop P (ensure b e;; m) Q.
Proof. intros He Hm l HG HP. unfold mbind, ST_bind, ensure. destruct b; [by apply Hm|by apply (lop_err P)]. Qed.
Lemma lop_atomic {A : Type} (P : Library -> Prop) (m : L A) Q : (forall e l, P l -> Q (Err e) l) ->
  (forall l a l', Good l -> P l -> m l = (Ok a, l') -> Good l' /\ library_evolves l l' /\ Q (Ok a) l') -> lop P (atomic m) Q.
Proof.
  intros He Hm l HG HP. unfold atomic. destruct (m l) as [[a|e] l'] eqn:E; cbn; [by eapply Hm|by apply (lop_err P)].
Qed.
Lemma lop_weaken {A : Type} (P P' : Library -> Prop) (m : L A) Q Q' :
  lop P' m Q' -> (forall l, P l -> P' l) -> (forall r l, Q' r l -> Q r l) -> lop P m Q.
Proof. intros H HP HQ l HG Hl. destruct (H l HG (HP l Hl)) as (? & ? & ?). split; [done|]. split; [done|by apply HQ]. Qed.
(** Reads. *)
Lemma lop_read {A : Type} (P : Library -> Prop) (m : L A) (Q : result err_code A -> Library -> Prop) :
  (forall l, snd (m l) = l) -> (forall l, Good l -> P l -> Q (fst (m l)) l) -> lop P m Q.
Proof. intros Hs HQ l HG HP. rewrite Hs. split; [done|]. split; [reflexivity|]. by apply HQ. Qed.

(** *** Drafts *)

(** A record whose row is, or has become, a row of the library. *)
Definition known (d : WorkflowDraftRecord) (l : Library) : Prop :=
  (exists r, draftRow (d_draft_id (dr_row d)) l = Some r /\ draft_evolves (dr_row d) r) /\
  decodeJson (d_inventory_snapshot_json (dr_row d)) SIZE_LIMITS.metadata_json false = Ok (dr_inventory_snapshot d) /\
  decodeJson (d_spec_json (dr_row d)) SIZE_LIMITS.spec_json false = Ok (dr_spec d) /\
  decodeJson (d_input_values_json (dr_row d)) SIZE_LIMITS.metadata_json false = Ok (dr_input_values d) /\
  draft_ok l (d_draft_id (dr_row d)) (dr_row d).
Lemma known_evolves (d : WorkflowDraftRecord) (l l' : Library) : library_evolves l l' -> known d l -> known d l'.
Proof.
  intros Hev ((r & Hr & He) & Hi & Hs & Hv & Hok). destruct (le_drafts _ _ Hev _ r Hr) as (r' & Hr' & He'). split; [|split; [done|split; [done|split; [done|]]]].
  - exists r'. split; [done|by etransitivity].
  - by apply (draft_ok_evolves l).
Qed.
Lemma to_draft_ok (r : DraftRow) (l : Library) (d : WorkflowDraftRecord) (l' : Library) : toDraft r l = (Ok d, l') -> l' = l /\ dr_row d = r /\
  decodeJson (d_inventory_snapshot_json r) SIZE_LIMITS.metadata_json false = Ok (dr_inventory_snapshot d) /\
  decodeJson (d_spec_json r) SIZE_LIMITS.spec_json false = Ok (dr_spec d) /\
  decodeJson (d_input_values_json r) SIZE_LIMITS.metadata_json false = Ok (dr_input_values d).
Proof. unfold toDraft. intros H. invert_run H. done. Qed.
Lemma to_draft_known (r : DraftRow) (id : string) (l : Library) (d : WorkflowDraftRecord) (l' : Library) : Good l -> draftRow id l = Some r -> toDraft r l = (Ok d, l') ->
  l' = l /\ dr_row d = r /\ known d l.
Proof.
  intros HG Hr H. apply to_draft_ok in H as (-> & Hrow & Hi & Hs & Hv). split; [done|]. split; [done|]. assert (Hok := gd_drafts _ _ _ HG id r Hr).
  unfold known. rewrite Hrow, (dk_id _ _ _ _ _ Hok). split; [by exists r; split|]. by split.
Qed.
Lemma draft_record_known (id : string) (l : Library) (d : WorkflowDraftRecord) (l' : Library) : Good l -> draftRecord id l = (Ok d, l') ->
  l' = l /\ known d l /\ draftRow id l = Some (dr_row d).
Proof.
  intros HG H. unfold draftRecord in H. invert_run H. match goal with H : toDraft _ _ = _ |- _ => rename H into Hd end. apply (to_draft_known _ id) in Hd as (-> & Hr & Hk); [|done|done]. split; [done|]. split; [done|]. by rewrite Hr.
Qed.

Definition drafted (r : result err_code WorkflowDraftRecord) (l : Library) : Prop := forall d, r = Ok d -> known d l.

(** A transaction that returned without a change. *)
Lemma unchanged (l : Library) (X : Prop) : Good l -> X -> Good l /\ library_evolves l l /\ X.
Proof. by intros HG HX. Qed.

Lemma create_draft_spec (now : string) (i : CreateDraftInput) :
  lop (fun _ => True) (createDraft now i) (fun r l => forall d b, r = Ok (d, b) -> known d l).
Proof.
  unfold createDraft. apply lop_open; [done|]. apply lop_ensure; [done|]. apply lop_atomic; [done|]. intros l a l' HG _ H.
  invert_run H. follow Er.
  - match goal with H : toDraft _ _ = _ |- _ => apply (to_draft_known _ (cd_draft_id i)) in H as (-> & _ & Hk) end; [|done|done]. apply unchanged; [done|].
    by intros ? ? [= <- <-].
  - match goal with H : insert_draft _ _ = _ |- _ => rename H into Hi end. unfold insert_draft in Hi. invert_run Hi.
    match goal with H : draftRecord _ _ = _ |- _ => rename H into Hd end. set (row := new_draft_row _ _ _ _ _ _) in *.
    destruct (good_draft l (cd_draft_id i) row HG) as [HG' Hev]; [by split|by rewrite Er|].
    apply draft_record_known in Hd as (-> & Hk & _); [|done]. split; [done|]. split; [done|]. by intros ? ? [= <- <-].
Qed.

Lemma bind_task_spec (now draftId taskId : string) (capability : value) : lop (fun _ => True) (bindDraftCompilerTask now draftId taskId capability) (fun _ _ => True).
Proof.
  unfold bindDraftCompilerTask. apply lop_open; [done|]. apply lop_atomic; [done|]. intros l a l' HG _ H. unfold theDraft in H. invert_run H.
  match goal with H : draftRow _ _ = Some ?x |- _ => rename H into Hr, x into r end.
  follow Et; [by apply unchanged|]. match goal with H : update_draft _ _ _ = _ |- _ => rename H into Hu end. unfold update_draft in Hu. invert_run Hu. rewrite (alter_found _ _ _ _ Hr).
  destruct (good_draft l draftId (with_task now taskId a0 r) HG) as [HG' Hev]; [| |done].
  - destruct (gd_drafts _ _ _ HG draftId r Hr) as [? ? ?]. by split.
  - intros r0. rewrite Hr. intros [= <-]. split; [by repeat split|by rewrite Et|done|done].
Qed.

(** A patch that declares a draft valid carries a validated specification. *)
Definition patch_ok (draftId : string) (p : DraftPatch) (l : Library) : Prop :=
  df_validation_status p = "valid" -> forall r c, draftRow draftId l = Some r -> draft_content p = Ok c -> validated (d_inventory_snapshot_json r) c.
Lemma content_fields (p : DraftPatch) (c : DraftContent) : draft_content p = Ok c ->
  dc_compiler_status c = df_compiler_status p /\ dc_validation_status c = df_validation_status p /\
  encodeGiven (df_spec p) SIZE_LIMITS.spec_json = Ok (dc_spec c) /\ encodeGiven (df_input_values p) SIZE_LIMITS.metadata_json = Ok (dc_input_values c) /\
  dc_spec_hash c = df_spec_hash p /\ dc_policy_summary_hash c = df_policy_summary_hash p.
Proof.
  unfold draft_content, boundString. intros H. destruct (32 <? byteLen (df_compiler_status p)); [discriminate H|].
  destruct (32 <? byteLen (df_validation_status p)); [discriminate H|]. cbv beta iota zeta in H.
  repeat (match type of H with context [encodeGiven ?a ?b] => destruct (encodeGiven a b); [|discriminate H] end; cbv beta iota zeta in H).
  by injection H as <-.
Qed.
Lemma finalize_spec (now draftId : string) (p : DraftPatch) : lop (patch_ok draftId p) (finalizeDraft now draftId p) drafted.
Proof.
  unfold finalizeDraft. apply lop_open; [done|]. apply lop_atomic; [done|]. intros l a l' HG HP H. unfold theDraft in H. invert_run H.
  match goal with H : draftRow _ _ = Some ?x |- _ => rename H into Hr, x into r end. follow Ep.
  - match goal with H : toDraft _ _ = _ |- _ => apply (to_draft_known _ draftId) in H as (-> & _ & Hk) end; [|done|done]. apply unchanged; [done|]. by intros d [= <-].
  - match goal with H : update_draft _ _ _ = _ |- _ => rename H into Hu end. unfold update_draft in Hu. invert_run Hu. rename a0 into c.
    match goal with H : draft_content _ = _ |- _ => rename H into Hc end. apply negb_false_iff, String.eqb_eq in Ep.
    match goal with H : draftRecord _ _ = _ |- _ => rename H into Hd end. rewrite (alter_found _ _ _ _ Hr) in Hd.
    assert (Hok := gd_drafts _ _ _ HG draftId r Hr). destruct (good_draft l draftId (with_content now c r) HG) as [HG' Hev].
    + destruct (Hok) as [Hid _ Ha]. split; [done| |].
      * cbn. destruct (content_fields _ _ Hc) as (_ & Hvs & _). rewrite Hvs. intros Hv. replace (content_of _) with c by (by destruct c). by apply (HP Hv r c).
      * cbn. intros w Hw. destruct (Ha w Hw) as [Hv _]. by destruct (valid_not_pending _ _ _ Hok Hv).
    + intros r0. rewrite Hr. intros [= <-]. split; [by repeat split|done|done|done].
    + apply draft_record_known in Hd as (-> & Hk & _); [|done]. split; [done|]. split; [done|]. by intros d [= <-].
Qed.

Lemma to_draft_reads (r : DraftRow) (l : Library) : snd (toDraft r l) = l.
Proof. unfold toDraft, from, mbind, ST_bind, mret, ST_ret. by repeat (case_match; simplify_eq; try done). Qed.
Lemma get_draft_reads (draftId : string) (l : Library) : snd (getDraft draftId l) = l.
Proof.
  unfold getDraft, mbind at 1, ST_bind at 1. destruct (run_open l) as [-> | ->]; [|done]. unfold mbind, ST_bind, asks. destruct (draftRow draftId l) as [r|]; [|done].
  assert (H := to_draft_reads r l). by destruct (toDraft r l) as [[d|e] l'].
Qed.
Lemma get_draft_spec (draftId : string) (P : Library -> Prop) :
  lop P (getDraft draftId) (fun r l => forall d, r = Ok (Some d) -> known d l /\ draftRow draftId l = Some (dr_row d)).
Proof.
  unfold getDraft. apply lop_open; [done|]. intros l HG _. unfold mbind, ST_bind, asks. destruct (draftRow draftId l) as [r|] eqn:Er; [|by apply unchanged].
  destruct (toDraft r l) as [[d|e] l'] eqn:Ed; cbn.
  - apply (to_draft_known _ draftId) in Ed as (-> & Hrow & Hk); [|done|done]. apply unchanged; [done|]. intros d' [= <-]. by rewrite Hrow.
  - assert (H := to_draft_reads r l). rewrite Ed in H. cbn in H. subst l'. by apply unchanged.
Qed.

(** The two ends of a transaction. *)
Lemma library_transaction {A : Type} (m : L A) (l : Library) :
  (exists a l', m l = (Ok a, l') /\ (open;; atomic m) l = (Ok a, l')) \/ exists e, (open;; atomic m) l = (Err e, l).
Proof.
  unfold mbind, ST_bind, atomic. destruct (run_open l) as [-> | ->]; [|right; by eexists]. destruct (m l) as [[a|e] l']; [left; by exists a, l'|right; by exists e].
Qed.

Lemma approve_draft_run (now draftId workflowId : string) (l : Library) : let '(x, l') := approveDraftWithWorkflow now draftId workflowId l in
  (l' = l /\ forall d, x = Ok d -> exists r, draftRow draftId l = Some r /\ is_some (d_materialized_workflow_id r) = true) \/
  exists r, draftRow draftId l = Some r /\ d_materialized_workflow_id r = None /\ is_some (workflowRow workflowId (lb_db l)) = true
    /\ l' = set_lb_drafts (<[draftId := with_approval now workflowId r]> (lb_drafts l)) l.
Proof.
  unfold approveDraftWithWorkflow. match goal with |- context [open;; atomic ?m] => destruct (library_transaction m l) as [(d & l' & H & ->)|[e ->]] end; [|by left].
  unfold theDraft in H. invert_run H. match goal with H : draftRow _ _ = Some ?x |- _ => rename H into Hr, x into r end. follow Em.
  - match goal with H : toDraft _ _ = _ |- _ => apply to_draft_ok in H as (-> & _) end. left. split; [done|]. intros ? _. exists r. by rewrite Em.
  - match goal with H : update_draft _ _ _ = _ |- _ => rename H into Hu end. unfold update_draft in Hu. invert_run Hu.
    match goal with H : draftRecord _ _ = _ |- _ => rename H into Hd end. rewrite (alter_found _ _ _ _ Hr) in Hd. unfold draftRecord in Hd. invert_run Hd.
    match goal with H : toDraft _ _ = _ |- _ => apply to_draft_ok in H as (-> & _) end. right. by exists r.
Qed.
Lemma approve_draft_spec (now draftId workflowId : string) :
  lop (fun l => exists r, draftRow draftId l = Some r /\ d_validation_status r = "valid") (approveDraftWithWorkflow now draftId workflowId)
    (fun r l => forall d, r = Ok d -> exists x, draftRow draftId l = Some x /\ is_some (d_materialized_workflow_id x) = true).
Proof.
  intros l HG (r & Hr & Hv). assert (H := approve_draft_run now draftId workflowId l). destruct (approveDraftWithWorkflow _ _ _ _) as [x l']. cbn.
  destruct H as [[-> Hx]|(r0 & Hr0 & Hm & Hw & ->)]; [by apply unchanged|].
  assert (r0 = r) as -> by congruence. destruct (gd_drafts _ _ _ HG draftId r Hr) as [Hid Hva Ha].
  destruct (good_draft l draftId (with_approval now workflowId r) HG) as [HG' Hev].
  - split; [done|done|]. cbn. by intros w [= <-].
  - intros r0. rewrite Hr. intros [= <-]. split; [by repeat split|done|done|by rewrite Hm].
  - split; [done|]. split; [done|]. intros d _. exists (with_approval now workflowId r). unfold draftRow. cbn. by rewrite lookup_insert_eq.
Qed.

Lemma in_db_spec {A : Type} (m : M A) (P : Library -> Prop) : Preserves evolves m -> lop P (in_db m) (fun _ _ => True).
Proof. intros Hm l HG HP. unfold in_db. specialize (Hm (lb_db l)). destruct (m (lb_db l)) as [r d]. cbn in *. destruct (good_db l d HG Hm). done. Qed.

(** *** Sessions *)

Lemma create_session_spec (now : string) (i : CreateSessionRow) : lop (fun _ => True) (createBuilderSession now i) (fun _ _ => True).
Proof.
  unfold createBuilderSession. apply lop_open; [done|]. apply lop_ensure; [done|]. apply lop_atomic; [done|]. intros l a l' HG _ H. invert_run H.
  follow Er; [by apply unchanged|]. unfold sessionRecord in *. repeat match goal with H : _ = (Ok _, _) |- _ => progress invert_run H end.
  destruct (good_session l (cb_builder_session_id i) (new_session_row now i a0) [] HG) as [HG' Hev]; [done|constructor| |done|by rewrite Er|].
  - rewrite app_nil_r. enough (messages_in (cb_builder_session_id i) l = []) as -> by apply conversation_nil. unfold messages_in.
    destruct (List.filter _ _) as [|m ms] eqn:Ef; [done|]. assert (Hm : In m (m :: ms)) by by left. rewrite <- Ef in Hm. apply filter_In in Hm as [Hm Hid].
    apply String.eqb_eq in Hid. assert (Hin := gd_messages _ _ _ HG m (proj2 (list_elem_of_In _ _) Hm)). rewrite Hid in Hin. unfold builderSessionRow in Er. by rewrite Er in Hin.
  - cbn in HG', Hev. rewrite app_nil_r in HG', Hev. by destruct l.
Qed.

(** The row [insertBuilderMessageSync] adds. *)
Lemma insert_message_run (now mid id role content : string) (d h : option string) (md : value) (k : option string) (l l' : Library) (m : WorkflowBuilderMessageRecord) :
  insertBuilderMessageSync now mid id role content d h md k l = (Ok m, l') ->
  exists r, l' = set_lb_messages (lb_messages l ++ [r]) l /\ m_builder_session_id r = id /\ m_role r = role /\ m_turn_key r = k /\ m_sequence r = nextBuilderSeq id l.
Proof.
  unfold insertBuilderMessageSync, toBuilderMessage. intros H. invert_run H. cbn in *. eexists. split; [reflexivity|]. done.
Qed.

Lemma append_message_spec (now mid id content k : string) :
  lop (fun _ => True) (appendBuilderUserMessage now mid id content (Some k)) (fun r l => forall m b, r = Ok (m, b) -> says "user" k (messages_in id l)).
Proof.
  unfold appendBuilderUserMessage. apply lop_open; [done|]. apply lop_atomic; [done|]. intros l a l' HG _ H. unfold theSession in H. invert_run H.
  match goal with H : builderSessionRow _ _ = Some ?x |- _ => rename H into Hr, x into r end.
  assert (Hok := gd_sessions _ _ _ HG id r Hr). assert (Hc := sk_conversation _ _ _ Hok). assert (Ht := turn_row _ _ k "user" _ _ Hc). follow Ex.
  - match goal with H : toBuilderMessage _ _ = _ |- _ => unfold toBuilderMessage in H; rename H into Hm end. invert_run Hm. by apply unchanged.
  - match goal with H : insertBuilderMessageSync _ _ _ _ _ _ _ _ _ _ = _ |- _ => rename H into Hi end.
    apply insert_message_run in Hi as (m & -> & Hs & Hro & Hk & Hq). match goal with H : update_session _ _ _ = _ |- _ => rename H into Hu end.
    unfold update_session in Hu. invert_run Hu. cbn. rewrite (alter_found _ _ r) by exact Hr.
    assert (b_pending_turn_key r = None) as Hn.
    { destruct (b_pending_turn_key r) as [p|] eqn:Epd; [|done]. match goal with H : opt_is _ _ = true |- _ => cbn in H; apply String.eqb_eq in H as -> end.
      by destruct Ht; eapply pending_says. }
    rewrite Hn in Hc. rewrite (next_sequence _ _ _ _ Hc) in Hq.
    assert (Hc' := conversation_opened _ _ k m Hc Ht Hro Hk Hq).
    destruct (good_session l id (with_pending now k r) [m] HG) as [HG' Hev]; [apply Hok|by repeat constructor|done|apply Hok| |].
    + intros r0. rewrite Hr. intros [= <-]. split; [by repeat split|done|cbn; lia].
    + split; [done|]. split; [done|]. intros ? ? _. eapply pending_says. unfold messages_in. cbn. rewrite List.filter_app. cbn. rewrite Hs, String.eqb_refl. exact Hc'.
Qed.

Lemma complete_spec (now mid id : string) (rev : Z) (a : AssistantInput) (k : string) (cd ch : option string) : ai_turn_key a = Some k ->
  lop (fun l => says "user" k (messages_in id l) /\ pointer_ok l cd ch) (completeBuilderTurn now mid id rev a cd ch) (fun _ _ => True).
Proof.
  intros Ek. unfold completeBuilderTurn. rewrite Ek. apply lop_open; [done|]. apply lop_atomic; [done|]. intros l x l' HG [Hu Hp] H. unfold theSession in H. invert_run H.
  match goal with H : builderSessionRow _ _ = Some ?x |- _ => rename H into Hr, x into r end.
  assert (Hok := gd_sessions _ _ _ HG id r Hr). assert (Hc := sk_conversation _ _ _ Hok). assert (Ht := turn_row _ _ k "assistant" _ _ Hc). follow Ex.
  - match goal with H : toBuilderMessage _ _ = _ |- _ => unfold toBuilderMessage in H; rename H into Hm end. invert_run Hm. by apply unchanged.
  - match goal with H : insertBuilderMessageSync _ _ _ _ _ _ _ _ _ _ = _ |- _ => rename H into Hi end.
    apply insert_message_run in Hi as (m & -> & Hs & Hro & Hk & Hq). match goal with H : update_session _ _ _ = _ |- _ => rename H into Hup end.
    unfold update_session in Hup. invert_run Hup. match goal with H : sessionRecord _ _ = _ |- _ => rename H into Hsr end. unfold sessionRecord in Hsr. invert_run Hsr.
    cbn. rewrite (alter_found _ _ r) by exact Hr. assert (Hpd := open_turn _ _ _ k Hc Hu Ht). rewrite Hpd in Hc. rewrite (next_sequence _ _ _ _ Hc) in Hq.
    destruct (good_session l id (with_turn now cd ch r) [m] HG) as [HG' Hev]; [apply Hok|by repeat constructor| |done| |done].
    + by apply (conversation_closed _ _ k).
    + intros r0. rewrite Hr. intros [= <-]. split; [by repeat split|done|cbn; lia].
Qed.

Lemma archive_spec (now id : string) : lop (fun _ => True) (archiveBuilderSession now id) (fun _ _ => True).
Proof.
  unfold archiveBuilderSession. apply lop_open; [done|]. apply lop_atomic; [done|]. intros l x l' HG _ H. unfold theSession in H. invert_run H.
  match goal with H : builderSessionRow _ _ = Some ?x |- _ => rename H into Hr, x into r end. follow Ea; [by apply unchanged|].
  match goal with H : update_session _ _ _ = _ |- _ => rename H into Hup end. unfold update_session in Hup. invert_run Hup.
  match goal with H : sessionRecord _ _ = _ |- _ => rename H into Hsr end. unfold sessionRecord in Hsr. invert_run Hsr. rewrite (alter_found _ _ r) by exact Hr.
  assert (Hok := gd_sessions _ _ _ HG id r Hr). destruct (good_session l id (with_archived now r) [] HG) as [HG' Hev]; [apply Hok|constructor| |apply Hok| |].
  - rewrite app_nil_r. apply Hok.
  - intros r0. rewrite Hr. intros [= <-]. split; [by repeat split|done|cbn; lia].
  - cbn in HG', Hev. rewrite app_nil_r in HG', Hev. by destruct l.
Qed.

(** Reads leave the library as it is. *)
Lemma read_message (r : BuilderMessageRow) (l : Library) : snd (toBuilderMessage r l) = l.
Proof. unfold toBuilderMessage, from, mbind, ST_bind. cbn. by destruct (decodeJson _ _ _). Qed.
Lemma read_all {A B : Type} (f : A -> L B) (xs : list A) (l : Library) : (forall x, snd (f x l) = l) -> snd (mapM_L f xs l) = l.
Proof.
  intros Hf. induction xs as [|x xs IH]; [done|]. cbn. unfold mbind, ST_bind. specialize (Hf x). destruct (f x l) as [[y|e] l1]; cbn in *; [|done]. subst l1.
  destruct (mapM_L f xs l) as [[ys|e] l2]; cbn in *; done.
Qed.
Lemma read_open {A : Type} (m : L A) (l : Library) : snd (m l) = l -> snd ((open;; m) l) = l.
Proof. intros H. unfold mbind, ST_bind. by destruct (run_open l) as [-> | ->]. Qed.

Lemma get_session_spec (id : string) (P : Library -> Prop) :
  lop P (getBuilderSession id) (fun r l => forall s, r = Ok (Some s) -> pointer_ok l (b_current_draft_id s) (b_current_spec_hash s)).
Proof.
  apply lop_open; [done|]. intros l HG _. cbn. apply unchanged; [done|]. intros s [= Hs]. apply (sk_pointer _ _ _ (gd_sessions _ _ _ HG id s Hs)).
Qed.
Lemma list_messages_spec (id : string) (P : Library -> Prop) : lop P (listBuilderMessages id) (fun _ _ => True).
Proof. apply lop_read; [|done]. intros l. apply read_open, read_all. intros r. apply read_message. Qed.
Lemma find_turn_spec (id k : string) (P : Library -> Prop) : lop P (findBuilderTurn id k) (fun _ _ => True).
Proof.
  apply lop_read; [|done]. intros l. apply read_open. unfold mbind at 1 2, ST_bind at 1 2, asks.
  assert (H : forall o l0, snd (opt_record o l0) = l0).
  { intros [r|] l0; [|done]. unfold opt_record, mbind, ST_bind. assert (Hm := read_message r l0). by destruct (toBuilderMessage r l0) as [[?|?] ?]. }
  unfold mbind, ST_bind. assert (H1 := H (builderTurnRow id k "user" l) l). destruct (opt_record _ l) as [[u|?] l1]; cbn in *; [subst l1|done].
  assert (H2 := H (builderTurnRow id k "assistant" l) l). by destruct (opt_record _ l) as [[?|?] ?].
Qed.
End Operations.
