(* ===== verification/CompilerProps.v ===== *)
(** * The compiler and the builder keep the library

    Rely and guarantee: the other users of the store keep the invariant and only let the
    library evolve; so does every call of the services, wherever it ends, also when the
    process dies in the middle. *)

From S2P Require Import Prelude Machine Values Json JsonProps Contract Conditions Templates Verification Validator Outputs StoreRows Store StoreOps StoreProps RuntimeEnv Runtime TaskContract Drafts Compiler Builder LibraryProps.

(** ** Triples *)

Section Triples.
Context {E : Type} (env : CompilerEnv E) (sha256_hex : string -> string) (policy : SystemPolicy) (I : Library -> Prop).
Local Notation Good := (Good sha256_hex policy).

(** The other users keep the invariant, and [I]. *)
Definition rely : Prop := forall e l, Good l -> I l -> Good (fst (ke_other env e l)) /\ I (fst (ke_other env e l)) /\ library_evolves l (fst (ke_other env e l)).

(** Under [P] the call keeps the library, and [I]; what it returns satisfies [Q]. *)
Definition does {Er A : Type} (P : Library -> Prop) (m : ST (KWorld E) Er A) (Q : A -> Library -> Prop) : Prop :=
  forall w, Good (kw_lib w) -> I (kw_lib w) -> P (kw_lib w) ->
    Good (kw_lib (snd (m w))) /\ I (kw_lib (snd (m w))) /\ library_evolves (kw_lib w) (kw_lib (snd (m w))) /\ forall a, fst (m w) = Ok a -> Q a (kw_lib (snd (m w))).
(** Facts that later libraries keep. *)
Definition lasting (P : Library -> Prop) : Prop := forall l l', Good l -> library_evolves l l' -> P l -> P l'.

Lemma does_ret {Er A : Type} (a : A) (P : Library -> Prop) (Q : A -> Library -> Prop) : (forall l, P l -> Q a l) -> does P (mret a : ST (KWorld E) Er A) Q.
Proof. intros H w HG HI HP. split; [done|]. split; [done|]. split; [reflexivity|]. intros x [= <-]. by apply H. Qed.
Lemma does_raise {Er A : Type} (e : Er) (P : Library -> Prop) (Q : A -> Library -> Prop) : does P (raise e : ST (KWorld E) Er A) Q.
Proof. intros w HG HI HP. split; [done|]. split; [done|]. by split. Qed.
Lemma does_bind {Er A B : Type} (m : ST (KWorld E) Er A) (k : A -> ST (KWorld E) Er B) (P : Library -> Prop) (Q : A -> Library -> Prop) R :
  lasting P -> does P m Q -> (forall a, does (fun l => P l /\ Q a l) (k a) R) -> does P (m ≫= k) R.
Proof.
  intros HL Hm Hk w HG HI HP. unfold mbind, ST_bind. destruct (Hm w HG HI HP) as (HG1 & HI1 & Hev & HQ). destruct (m w) as [[a|e] w1]; cbn in *; [|done].
  destruct (Hk a w1 HG1 HI1) as (HG2 & HI2 & Hev2 & HR); [split; [by apply (HL (kw_lib w))|by apply HQ]|]. split; [done|]. split; [done|]. split; [by etransitivity|done].
Qed.
Lemma does_catch {Er A : Type} (m : ST (KWorld E) Er A) (h : Er -> ST (KWorld E) Er A) (P : Library -> Prop) (Q : A -> Library -> Prop) :
  lasting P -> does P m Q -> (forall e, does P (h e) Q) -> does P (catch m h) Q.
Proof.
  intros HL Hm Hh w HG HI HP. unfold catch. destruct (Hm w HG HI HP) as (HG1 & HI1 & Hev & HQ). destruct (m w) as [[a|e] w1]; cbn in *; [done|].
  destruct (Hh e w1 HG1 HI1) as (HG2 & HI2 & Hev2 & HR); [by apply (HL (kw_lib w))|]. split; [done|]. split; [done|]. split; [by etransitivity|done].
Qed.
Lemma does_weaken {Er A : Type} (m : ST (KWorld E) Er A) (P P' : Library -> Prop) (Q Q' : A -> Library -> Prop) :
  does P' m Q' -> (forall l, P l -> P' l) -> (forall a l, Q' a l -> Q a l) -> does P m Q.
Proof. intros H HP HQ w HG HI Hw. destruct (H w HG HI (HP _ Hw)) as (? & ? & ? & HA). do 3 (split; [done|]). intros a Ha. by apply HQ, HA. Qed.
Lemma does_ensure {Er : Type} (b : bool) (e : Er) (P : Library -> Prop) : does P (ensure b e : ST (KWorld E) Er unit) (fun _ _ => b = true).
Proof. destruct b; [by apply does_ret|apply does_raise]. Qed.
Lemma does_obtain {Er A : Type} (o : option A) (e : Er) (P : Library -> Prop) : does P (obtain o e : ST (KWorld E) Er A) (fun a _ => o = Some a).
Proof. destruct o; [by apply does_ret|apply does_raise]. Qed.
Lemma does_env {A : Type} (f : E -> A * E) (P : Library -> Prop) : does P (with_world f) (fun _ _ => True).
Proof. intros w HG HI HP. unfold with_world. destruct (f (kw_env w)). split; [done|]. split; [done|]. by split. Qed.

Lemma lasting_and (P Q : Library -> Prop) : lasting P -> lasting Q -> lasting (fun l => P l /\ Q l).
Proof. intros HP HQ l l' HG Hev [H1 H2]. split; [by apply (HP l)|by apply (HQ l)]. Qed.
Lemma lasting_const (F : Prop) : lasting (fun _ => F).
Proof. by intros l l' _ _. Qed.

(** One access to the store. *)
Lemma does_access {A : Type} (m : string -> L A) (P : Library -> Prop) (Q : A -> Library -> Prop) : rely -> lasting P ->
  (forall now, lop sha256_hex policy P (m now) (fun r l => forall a, r = Ok a -> Q a l)) -> (forall now l, Good l -> I l -> P l -> I (snd (m now l))) ->
  does P (store env m) Q.
Proof.
  intros Hrely HL Hm Hi. unfold store. apply (does_bind _ _ _ (fun _ _ => True)); [done| |].
  { intros w HG HI HP. unfold interfere, update. cbn. destruct (Hrely (kw_env w) (kw_lib w) HG HI) as (HG1 & HI1 & Hev). destruct (ke_other env _ _) as [l e].
    split; [done|]. split; [done|]. by split. }
  intros []. apply (does_bind _ _ _ (fun _ _ => True)); [apply lasting_and; [done|apply lasting_const]|apply does_env|]. intros alive.
  apply (does_bind _ _ _ (fun _ _ => alive = true)); [repeat (apply lasting_and; [|apply lasting_const]); done|apply does_ensure|].
  intros []. apply (does_bind _ _ _ (fun _ _ => True)); [repeat (apply lasting_and; [|apply lasting_const]); done|apply does_env|]. intros now.
  intros w HG HI [[[[HP _] _] _] _]. unfold in_store. destruct (Hm now (kw_lib w) HG HP) as (HG1 & Hev & HQ). specialize (Hi now (kw_lib w) HG HI HP).
  destruct (m now (kw_lib w)) as [[a|e] l']; cbn in *.
  - do 3 (split; [done|]). intros x [= <-]. by apply HQ.
  - do 3 (split; [done|]). done.
Qed.
End Triples.
Arguments does {E} sha256_hex policy I {Er A} P m Q : assert.
Arguments does_ret {E sha256_hex policy I Er A}.
Arguments does_raise {E sha256_hex policy I Er A}.
Arguments does_bind {E sha256_hex policy I Er A B}.
Arguments does_catch {E sha256_hex policy I Er A}.
Arguments does_weaken {E sha256_hex policy I Er A}.
Arguments does_ensure {E sha256_hex policy I Er}.
Arguments does_obtain {E sha256_hex policy I Er A}.
Arguments does_env {E sha256_hex policy I A}.
Arguments lasting_and {sha256_hex policy}.
Arguments lasting_const {sha256_hex policy}.
Arguments does_access {E env sha256_hex policy I A}.

(** ** Lasting facts *)

Section Lasting.
Context (sha256_hex : string -> string) (policy : SystemPolicy).
Local Notation known := (known sha256_hex policy).
Local Notation lasting := (lasting sha256_hex policy).

Lemma lasting_known (d : WorkflowDraftRecord) : lasting (known d).
Proof. intros l l' _ Hev. by apply known_evolves. Qed.
Lemma lasting_pointer (d h : option string) : lasting (fun l => pointer_ok l d h).
Proof. intros l l' HG Hev. by apply (pointer_evolves sha256_hex policy). Qed.
Lemma lasting_says (id role k : string) : lasting (fun l => says role k (messages_in id l)).
Proof. intros l l' _ Hev. destruct (le_messages _ _ Hev) as [ms Hms]. unfold messages_in. rewrite Hms, List.filter_app. apply says_app. Qed.
(** The draft was created with this inventory. *)
Definition drawn_from (draftId : string) (inventory : Inventory) (l : Library) : Prop := exists r iv, draftRow draftId l = Some r /\
  decodeJson (d_inventory_snapshot_json r) SIZE_LIMITS.metadata_json false = Ok iv /\ read_inventory iv = Some inventory.
Lemma lasting_drawn (draftId : string) (inventory : Inventory) : lasting (drawn_from draftId inventory).
Proof.
  intros l l' _ Hev (r & iv & Hr & Hd & Hi). destruct (le_drafts _ _ Hev _ r Hr) as (r' & Hr' & [(_ & _ & _ & _ & Hs & _) _ _ _]). exists r', iv. by rewrite Hs.
Qed.
End Lasting.
Ltac lasts := repeat first [assumption | apply lasting_const | apply lasting_known | apply lasting_pointer | apply lasting_says | apply lasting_drawn | apply lasting_and].

Section Services.
Context {E : Type} (env : CompilerEnv E) (sha256_hex : string -> string) (policy : SystemPolicy) (maxWaits : nat).
Local Notation Good := (Good sha256_hex policy).
Local Notation known := (known sha256_hex policy).
Local Notation validated := (validated sha256_hex policy).
Local Notation does := (does sha256_hex policy (fun _ => True)).
Local Notation lasting := (lasting sha256_hex policy).
Context (Hrely : rely env sha256_hex policy (fun _ => True)).

Lemma does_store {A : Type} (m : string -> L A) (P : Library -> Prop) (Q : A -> Library -> Prop) : lasting P ->
  (forall now, lop sha256_hex policy P (m now) (fun r l => forall a, r = Ok a -> Q a l)) -> does P (store env m) Q.
Proof. intros HL Hm. by apply does_access. Qed.

(** ** The compiler *)

Lemma await_keeps (waits : nat) (task : string) : forall cursor P, lasting P -> does P (await_model env waits task cursor) (fun _ _ => True).
Proof.
  induction waits as [|n IH]; intros cursor P HL; cbn [await_model]; [by apply does_ret|]. eapply does_bind; [done|apply does_env|]. intros [read|[]].
  - destruct (negb _); [|by apply does_ret]. apply IH. lasts.
  - apply IH. lasts.
  - apply does_raise.
Qed.
Lemma model_keeps (prompt agent : string) (node : option string) (key : string) (P : Library -> Prop) : lasting P ->
  does P (model_compile env maxWaits prompt agent node key) (fun _ _ => True).
Proof.
  intros HL. unfold model_compile. eapply does_bind; [done|apply does_env|]. intros [task|e]; [|apply does_raise]. apply await_keeps. lasts.
Qed.
Lemma snapshot_keeps (P : Library -> Prop) : lasting P -> does P (snapshot env) (fun _ _ => True).
Proof.
  intros HL. unfold snapshot. apply (does_bind _ _ _ (fun _ _ => True)); [done| |].
  - destruct (ke_fetchNodes env) as [f|]; [|by apply does_ret]. eapply does_bind; [done|apply does_env|]. intros r. by apply does_ret.
  - intros nodes. eapply does_bind; [lasts|apply does_env|]. intros now. by apply does_ret.
Qed.

(** What [validateReady] accepts. *)
Lemma validate_ready_objects (spec inputs : value) (inventory : Inventory) (spec' values : value) :
  validateReady spec inputs inventory policy = Ok (spec', values) -> spec' = spec /\ is_undef spec = false /\ is_undef values = false.
Proof.
  unfold validateReady. destruct (vr_valid (validateWorkflowSpec spec)) eqn:Ev; [|done]. cbn [negb]. destruct (normalizeInputValues spec inputs) as [vs|] eqn:En; [|done].
  case_match; [|done]. intros [= <- <-]. split; [done|]. split; [unfold validateWorkflowSpec in Ev; by destruct spec|].
  revert En. unfold normalizeInputValues. destruct (negb _ && negb _); [done|]. destruct (existsb _ _); [done|]. generalize (entries (get "inputs" spec)) ([] : list (string * value)). intros defs.
  induction defs as [|[name def] defs IH]; intros out; cbn; [by intros [= <-]|]. repeat case_match; try done; apply IH.
Qed.
Lemma encode_given (v : value) (limit : Z) (t : option string) : encodeGiven v limit = Ok t -> is_undef v = false -> exists x, t = Some x /\ encodeJson v limit = Ok x.
Proof. unfold encodeGiven. intros H Hu. rewrite Hu in H. cbn in H. destruct (encodeJson v limit) as [x|]; [|done]. injection H as <-. by exists x. Qed.
Lemma ready_patch_ok (draftId : string) (inventory : Inventory) (spec inputs values : value) (r : CompilerResultV1) (l : Library) : drawn_from draftId inventory l ->
  validateReady spec inputs inventory policy = Ok (spec, values) -> patch_ok sha256_hex policy draftId (ready_patch sha256_hex spec values r) l.
Proof.
  intros (x & iv & Hx & Hd & Hi) Hv _ r0 c Hr0 Hc. assert (r0 = x) as -> by congruence. destruct (validate_ready_objects _ _ _ _ _ Hv) as (_ & Hu & Hw).
  apply content_fields in Hc as (Hst & _ & Hs & Hvs & Hh & Hp). apply encode_given in Hs as (t & Ht & Het); [|done]. apply encode_given in Hvs as (t' & Ht' & Het'); [|done].
  by exists iv, inventory, spec, inputs, values, t, t'.
Qed.

Lemma finalize_keeps (draftId : string) (p : DraftPatch) (P : Library -> Prop) : lasting P -> (forall l, P l -> patch_ok sha256_hex policy draftId p l) ->
  does P (store env (fun now => finalizeDraft now draftId p)) (fun d l => known d l).
Proof. intros HL HP. apply does_store; [done|]. intros now. eapply lop_weaken; [apply finalize_spec|done|done]. Qed.
Lemma finish_keeps (draftId : string) (inventory : Inventory) (o : CompilerModelOutcome) :
  does (drawn_from draftId inventory) (finish_compile env sha256_hex policy draftId inventory o) (fun d l => known d l).
Proof.
  destruct o as [t text|t st]; cbn [finish_compile]; [|apply finalize_keeps; [apply lasting_drawn|done]].
  destruct (parseCompilerResult text) as [r|code]; [|apply finalize_keeps; [apply lasting_drawn|done]].
  destruct (negb _); [apply finalize_keeps; [apply lasting_drawn|done]|].
  destruct (validateReady _ _ _ _) as [[spec values]|issues] eqn:Ev; [|apply finalize_keeps; [apply lasting_drawn|done]].
  destruct (validate_ready_objects _ _ _ _ _ Ev) as (-> & _). apply finalize_keeps; [apply lasting_drawn|]. intros l Hl. by eapply ready_patch_ok.
Qed.

Lemma run_compile_keeps (d : WorkflowDraftRecord) (req : CompileRequest) : does (known d) (runCompile env sha256_hex policy maxWaits d req) (fun d' l => known d' l).
Proof.
  unfold runCompile. eapply does_bind; [lasts|apply does_obtain|]. intros inventory. cbv beta zeta.
  destruct (findPlacement inventory (kq_compiler_agent req) (kq_compiler_node_id req)) as [p|] eqn:Ep; [|apply finalize_keeps; [lasts|done]].
  destruct (negb _); [apply finalize_keeps; [lasts|done]|].
  apply (does_weaken _ _ (drawn_from (d_draft_id (dr_row d)) inventory) _ (fun d' l => known d' l)); [|intros l [Hk Hi]|done].
  - eapply does_bind; [lasts|apply model_keeps; lasts|]. intros outcome. eapply does_bind; [lasts|apply (does_store _ _ (fun _ _ => True)); [lasts|]|].
    + intros now. eapply lop_weaken; [apply bind_task_spec|done|done].
    + intros ?. eapply does_weaken; [apply finish_keeps|by intros l [[? _] _]|done].
  - destruct Hk as ((r & Hr & [(_ & _ & _ & _ & Hs & _) _ _ _]) & Hd & _). destruct (is_nullish (dr_inventory_snapshot d)) eqn:En; [by simplify_eq|].
    exists r, (dr_inventory_snapshot d). by rewrite Hs.
Qed.

Lemma compile_keeps (req : CompileRequest) (P : Library -> Prop) : lasting P -> does P (compile env sha256_hex policy maxWaits req) (fun d l => known d l).
Proof.
  intros HL. unfold compile. eapply does_bind; [lasts|apply does_ensure|]. intros ?. eapply does_bind; [lasts|apply does_ensure|]. intros ?. cbv zeta.
  assert (HC : forall draftId Q, lasting Q -> does Q (
    inventory ← snapshot env;
    '(draft, _) ← store env (fun now => createDraft now
      {| cd_draft_id := draftId; cd_idempotency_key := kq_idempotency_key req;
         cd_request_fingerprint := request_fingerprint sha256_hex (kq_nl_request req) (or_else (kq_constraints req) (VObj []));
         cd_constraints := or_else (kq_constraints req) (VObj []);
         cd_inventory_snapshot := inventory_json inventory; cd_inventory_hash := canonicalHash sha256_hex (inventory_json inventory) |});
    if negb (d_compiler_status (dr_row draft) =s "pending") then mret draft else runCompile env sha256_hex policy maxWaits draft req) (fun d l => known d l)).
  { intros draftId Q HQ. eapply does_bind; [lasts|by apply snapshot_keeps|]. intros inventory.
    apply (does_bind _ _ _ (fun db l => known (fst db) l)); [lasts|apply does_store; [lasts|]|].
    - intros now. eapply lop_weaken; [apply create_draft_spec|done|]. cbn. intros r l Hr [d b] Hd. by apply (Hr d b).
    - intros [d b]. cbn [fst]. destruct (negb _); [apply does_ret; by intros l [_ ?]|]. eapply does_weaken; [apply run_compile_keeps|by intros l [_ ?]|done]. }
  destruct (kq_idempotency_key req) as [key|]; [|eapply does_bind; [lasts|apply does_env|]; intros hex; apply HC; lasts].
  apply (does_bind _ _ _ (fun o l => forall d, o = Some d -> known d l)); [lasts|apply does_store; [lasts|]|].
  - intros now. eapply lop_weaken; [apply (get_draft_spec sha256_hex policy _ (fun _ => True))|done|]. cbn. intros r l Hr o Ho d ->. by apply Hr.
  - intros [d|]; [|apply HC; lasts; by intros ? ? ? ? ? ?].
    apply (does_weaken _ _ (known d) _ (fun d' l => known d' l)); [|intros l [_ Hk]; by apply Hk|done].
    eapply does_bind; [lasts|apply does_ensure|]. intros ?. destruct (negb _); [apply does_ret; by intros l [? _]|].
    eapply does_weaken; [apply run_compile_keeps|by intros l [? _]|done].
Qed.
End Services.

(** ** A concrete environment for the compiler and the builder

    One local agent whose task always ends with the same proposed workflow, no other user
    of the store.  It witnesses the hypotheses of the properties. *)

From S2P Require Import Examples RuntimeDemo Builder.

(** What the compiler agent answers. *)
Definition demo_proposal : string :=
  default "" (JSON_stringify (VObj [("schema_version", VStr "1"); ("status", VStr "ready"); ("workflow_spec", demo_spec); ("input_values", VObj []); ("questions", VArr [])])).
Definition demo_compiler : CompilerEnv nat :=
  {| ke_other := fun e l => (l, e); ke_alive := fun e => (true, e); ke_now := fun e => (T0, e); ke_randomHex := fun e => ("00" +:+ zstr (Z.of_nat e), S e);
     ke_localAgents := ["codex"]; ke_fetchNodes := None; ke_createTask := fun _ e => (Ok "t_1", e);
     ke_waitForTerminal := fun _ _ e => (Ok {| rd_task_id := "t_1"; rd_status := "completed"; rd_terminal := true; rd_history_complete := true; rd_result_status := Some "available"; rd_result_text := Some demo_proposal; rd_next_event_id := 1 |}, e) |}.
Definition empty_library : Library := {| lb_db := empty_db; lb_drafts := ∅; lb_sessions := ∅; lb_messages := [] |}.
Definition demo_world : KWorld nat := Build_KWorld empty_library 0%nat.

Definition demo_request : CompileRequest :=
  {| kq_nl_request := "do it once"; kq_constraints := VUndef; kq_compiler_agent := "codex"; kq_compiler_node_id := None; kq_idempotency_key := Some "k1" |}.
Definition demo_drafted : KWorld nat := snd (compile demo_compiler demo_sha DEFAULT_SYSTEM_POLICY 3 demo_request demo_world).
Definition demo_draft : string := keyed_draft_id demo_sha "k1".
Definition demo_hash : string := canonicalHash demo_sha demo_spec.

Lemma good_empty (sha256_hex : string -> string) (policy : SystemPolicy) : Good sha256_hex policy empty_library.
Proof. split; cbn; [intros ? ?; by rewrite lookup_empty..|]. intros m Hm. by apply elem_of_nil in Hm. Qed.
Lemma demo_alone (I : Library -> Prop) : rely demo_compiler demo_sha DEFAULT_SYSTEM_POLICY I.
Proof. by intros e l HG HI. Qed.
Lemma good_drafted : Good demo_sha DEFAULT_SYSTEM_POLICY (kw_lib demo_drafted).
Proof. by apply (compile_keeps demo_compiler demo_sha DEFAULT_SYSTEM_POLICY 3 (demo_alone _) demo_request (fun _ => True) ltac:(done) demo_world (good_empty _ _)). Qed.

Definition demo_session_id : string := session_id_of demo_sha "s1".
