(* ===== verification/ApprovalProps.v ===== *)
(** * Approval: the workflow is the inspected specification

    [approve] keeps the library, and what it materializes is the specification whose hash
    the caller inspected; [I] is an invariant of one draft that the other users keep. *)

From S2P Require Import Prelude Machine Values Json JsonProps Contract Conditions Templates Verification Validator Outputs StoreRows Store StoreOps StoreProps StoreRun StoreOnce RuntimeEnv Runtime TaskContract Drafts Compiler LibraryProps CompilerProps RuntimeDemo.

Section Approve.
Context {E : Type} (env : CompilerEnv E) (sha256_hex : string -> string) (policy : SystemPolicy) (I : Library -> Prop) (draftId : string).
Local Notation Good := (Good sha256_hex policy).
Local Notation known := (known sha256_hex policy).
Local Notation does := (does sha256_hex policy I).
Local Notation lasting := (lasting sha256_hex policy).
Local Notation workflowId := (materialized_id sha256_hex draftId).

(** A draft [approve] materializes, as the record it read. *)
Definition approvable (d : WorkflowDraftRecord) (l : Library) : Prop :=
  known d l /\ d_draft_id (dr_row d) = draftId /\ d_validation_status (dr_row d) = "valid".
Definition workflow_of (d : WorkflowDraftRecord) : CreateWorkflowInput :=
  {| cw_workflow_id := workflowId; cw_spec_version := str_of (get "version" (dr_spec d)); cw_workflow_name := str_of (get "name" (dr_spec d)); cw_spec := dr_spec d;
     cw_status := None; cw_current_step_id := None; cw_current_round := None; cw_input_values := or_else (dr_input_values d) (VObj []) |}.

Context (Hrely : rely env sha256_hex policy I)
  (Icreate : forall now c e1 e2 d l, Good l -> I l -> approvable d l -> I (snd (in_db (createWorkflowWithLifecycleEvents now (workflow_of d) c e1 e2) l)))
  (Iapprove : forall now l, Good l -> I l -> (exists r, draftRow draftId l = Some r /\ d_validation_status r = "valid") -> I (snd (approveDraftWithWorkflow now draftId workflowId l))).

Lemma lasting_approvable (d : WorkflowDraftRecord) : lasting (approvable d).
Proof. intros l l' _ Hev (Hk & ?). split; [by apply (known_evolves _ _ _ l)|done]. Qed.

Lemma in_db_read {A : Type} (m : M A) (l : Library) : Preserves eq m -> snd (in_db m l) = l.
Proof. intros Hm. unfold in_db. specialize (Hm (lb_db l)). destruct (m (lb_db l)) as [r x]. cbn in *. subst x. apply same_library. Qed.
Lemma get_workflow_keeps (id : string) (P : Library -> Prop) : lasting P -> does P (store env (fun _ => in_db (getWorkflow id))) (fun _ _ => True).
Proof.
  intros HL. apply does_access; [done|done| |].
  - intros _. eapply lop_weaken; [apply (in_db_spec _ _ _ (fun _ => True))|done|done]. unfold getWorkflow. preserve.
  - intros _ l _ HI _. rewrite in_db_read; [done|]. unfold getWorkflow. preserve.
Qed.

Lemma materialize_keeps (d : WorkflowDraftRecord) :
  does (approvable d) (materializeWorkflow env workflowId (dr_spec d) (or_else (dr_input_values d) (VObj []))) (fun _ _ => True).
Proof.
  assert (HL := lasting_approvable d). unfold materializeWorkflow. eapply does_bind; [done|by apply get_workflow_keeps|]. intros existing.
  destruct (is_some existing); [by apply does_ret|]. eapply does_bind; [apply lasting_and; [done|apply lasting_const]|apply does_env|]. intros ts. cbv zeta.
  apply (does_weaken _ _ (approvable d) _ (fun _ _ => True)); [|by intros l [[H _] _]|done]. unfold attempt. apply does_catch; [done| |].
  - eapply does_bind; [done|apply (does_access _ _ (fun _ _ => True)); [done|done| |]|by intros ?; apply does_ret].
    + intros now. eapply lop_weaken; [apply (in_db_spec _ _ _ (fun _ => True))|done|done]. intros s. apply store_step_evolves. constructor.
    + intros now l HG HI Hp. by apply (Icreate _ _ _ _ d).
  - intros e. destruct e; try apply does_raise;
      (eapply does_bind; [done|by apply get_workflow_keeps|]; intros again; destruct (is_some again); [by apply does_ret|apply does_raise]).
Qed.

(** The draft as it stands after an approval of [hash] that returned [wf]. *)
Definition approved (hash wf : string) (l : Library) : Prop := exists r, draftRow draftId l = Some r /\ d_validation_status r = "valid" /\ d_spec_hash r = Some hash
  /\ is_some (d_materialized_workflow_id r) = true /\ (wf = workflowId \/ d_materialized_workflow_id r = Some wf).

Lemma known_row (d : WorkflowDraftRecord) (l : Library) : known d l -> draft_ok sha256_hex policy l (d_draft_id (dr_row d)) (dr_row d).
Proof. by intros (_ & _ & _ & _ & H). Qed.
Lemma known_valid (d : WorkflowDraftRecord) (l : Library) : known d l -> d_validation_status (dr_row d) = "valid" ->
  exists r, draftRow (d_draft_id (dr_row d)) l = Some r /\ draft_evolves (dr_row d) r /\ d_validation_status r = "valid" /\ d_spec_hash r = d_spec_hash (dr_row d)
    /\ d_spec_json r = d_spec_json (dr_row d) /\ d_input_values_json r = d_input_values_json (dr_row d).
Proof.
  intros ((r & Hr & Hev) & _ & _ & _ & Hok) Hv. exists r. destruct (valid_evolves _ _ _ _ _ _ Hok Hev Hv) as [Hc _]. injection Hc as _ Hvs Hs Hi Hh _ _ _ _ _ _.
  split; [done|]. split; [done|]. split; [congruence|]. by split.
Qed.
Lemma approvable_row (d : WorkflowDraftRecord) (l : Library) : approvable d l -> exists r, draftRow draftId l = Some r /\ d_validation_status r = "valid".
Proof. intros (Hk & <- & Hv). destruct (known_valid d l Hk Hv) as (r & ? & _ & ? & _). by exists r. Qed.
Lemma opt_is_true (o : option string) (s : string) : opt_is o s = true -> o = Some s.
Proof. destruct o as [x|]; [|done]. cbn. intros H. apply String.eqb_eq in H. by subst. Qed.

Lemma approve_keeps (hash : string) (P : Library -> Prop) : lasting P -> does P (approve env sha256_hex draftId hash) (fun '(_, wf) l => approved hash wf l).
Proof.
  intros HL. unfold approve.
  apply (does_bind _ _ _ (fun o l => forall d, o = Some d -> known d l /\ d_draft_id (dr_row d) = draftId)); [done|apply does_access; [done|done| |]|].
  - intros _ l HG HP. destruct (get_draft_spec sha256_hex policy draftId P l HG HP) as (HG' & Hev & HQ). split; [done|]. split; [done|].
    intros o Ho d ->. destruct (HQ d Ho) as [Hk Hr]. split; [done|]. apply (gd_drafts _ _ _ HG' _ _ Hr).
  - intros _ l HG HI HP. by rewrite get_draft_reads.
  - intros [d|]; [|apply does_raise]. cbn [obtain]. unfold mbind at 1, ST_bind at 1. cbn [mret ST_ret].
    apply (does_weaken _ _ (fun l => known d l /\ d_draft_id (dr_row d) = draftId) _ (fun '(_, wf) l => approved hash wf l)); [|intros l [_ H]; by apply H|done].
    assert (HK : lasting (fun l => known d l /\ d_draft_id (dr_row d) = draftId)) by (apply lasting_and; [intros l l' _ Hev; by apply known_evolves|apply lasting_const]).
    destruct (truthy_string (d_materialized_workflow_id (dr_row d))) as [wf|] eqn:Em.
    + assert (d_materialized_workflow_id (dr_row d) = Some wf) as Hm.
      { revert Em. unfold truthy_string. destruct (d_materialized_workflow_id (dr_row d)) as [x|]; [|done]. by destruct (x =s ""). }
      eapply does_bind; [done|apply does_ensure|]. intros []. apply does_ret. intros l [[Hk Hid] Hh]. destruct (dk_approved _ _ _ _ _ (known_row _ _ Hk) wf Hm) as (Hv & _ & _).
      destruct (known_valid d l Hk Hv) as (r & Hr & Hev & Hvr & Hhr & _). rewrite Hid in Hr. exists r. split; [done|]. split; [done|]. split; [rewrite Hhr; by apply opt_is_true|].
      rewrite (de_approval _ _ Hev wf Hm). split; [done|by right].
    + eapply does_bind; [done|apply does_ensure|]. intros []. eapply does_bind; [apply lasting_and; [done|apply lasting_const]|apply does_ensure|]. intros []. cbv zeta.
      apply (does_weaken _ _ (fun l => approvable d l /\ opt_is (d_spec_hash (dr_row d)) hash = true) _ (fun '(_, wf) l => approved hash wf l)); [| |done].
      2: { intros l [[[Hk Hid] Hg] Hh]. apply andb_prop in Hg as [Hg _]. apply andb_prop in Hg as [_ Hg]. apply String.eqb_eq in Hg. split; [|done]. split; [done|]. by split. }
      assert (HA := lasting_approvable d).
      eapply does_bind; [apply lasting_and; [done|apply lasting_const]|eapply does_weaken; [apply (materialize_keeps d)|by intros l [H _]|done]|]. intros [].
      eapply (does_bind _ _ _ (fun _ l => exists x, draftRow draftId l = Some x /\ is_some (d_materialized_workflow_id x) = true)).
      * repeat first [assumption | apply lasting_const | apply lasting_and].
      * apply does_access; [done|repeat first [assumption | apply lasting_const | apply lasting_and]| |].
        -- intros now. eapply lop_weaken; [apply approve_draft_spec| |done]. intros l [[Ha _] _]. by apply (approvable_row d).
        -- intros now l HG HI [[Ha _] _]. apply Iapprove; [done|done|]. by apply (approvable_row d).
      * intros u. apply does_ret. intros l [[[(Hk & Hid & Hv) Hh] _] (x & Hx & Hm)]. destruct (known_valid d l Hk Hv) as (r & Hr & Hev & Hvr & Hhr & _). rewrite Hid in Hr.
        assert (x = r) as -> by congruence. exists r. split; [done|]. split; [done|]. split; [rewrite Hhr; by apply opt_is_true|]. split; [done|by left].
Qed.
End Approve.

(** ** The workflow of a draft *)

(** The workflow is the draft's specification with its input values, read back and written. *)
Definition carries (r : DraftRow) (wr : WorkflowRow) : Prop := exists spec values,
  decodeJson (d_spec_json r) SIZE_LIMITS.spec_json false = Ok spec /\ encodeJson spec SIZE_LIMITS.spec_json = Ok (w_spec_json wr) /\
  decodeJson (d_input_values_json r) SIZE_LIMITS.metadata_json false = Ok values /\ encodeOpt (or_else values (VObj [])) SIZE_LIMITS.metadata_json = Ok (w_input_values_json wr).

(** No one else puts a workflow under the id of the draft. *)
Definition owned (sha256_hex : string -> string) (draftId : string) (l : Library) : Prop := let workflowId := materialized_id sha256_hex draftId in
  (forall r w, draftRow draftId l = Some r -> d_materialized_workflow_id r = Some w -> w = workflowId) /\
  (forall wr, workflowRow workflowId (lb_db l) = Some wr -> exists r, draftRow draftId l = Some r /\ d_validation_status r = "valid" /\ carries r wr).

Section Owned.
Context {E : Type} (env : CompilerEnv E) (sha256_hex : string -> string) (policy : SystemPolicy) (draftId : string).
Local Notation Good := (Good sha256_hex policy).
Local Notation owned := (owned sha256_hex draftId).

Lemma owned_create (now : string) (c : value) (e1 e2 : WorkflowEventDraft) (d : WorkflowDraftRecord) (l : Library) : Good l -> owned l -> approvable sha256_hex policy draftId d l ->
  owned (snd (in_db (createWorkflowWithLifecycleEvents now (workflow_of sha256_hex draftId d) c e1 e2) l)).
Proof.
  intros HG [Hm Hw] (Hk & Hid & Hv). unfold in_db. assert (H := create_workflow_run now (workflow_of sha256_hex draftId d) c e1 e2 (lb_db l)).
  destruct (createWorkflowWithLifecycleEvents _ _ _ _ _ _) as [x d']. cbn in H |- *. destruct H as [->|(Hn & wr & Hwr & Hs & Hi)]; [by rewrite same_library|].
  split; [done|]. intros wr' Hwr'. assert (wr' = wr) as -> by (unfold workflowRow in *; cbn in *; congruence). destruct (known_valid _ _ d l Hk Hv) as (r & Hr & _ & Hvr & _ & Es & Ei). rewrite Hid in Hr. exists r. split; [done|]. split; [done|].
  destruct Hk as (_ & _ & Hds & Hdi & _). exists (dr_spec d), (dr_input_values d). by rewrite Es, Ei.
Qed.
Lemma owned_approve (now : string) (l : Library) : owned l -> owned (snd (approveDraftWithWorkflow now draftId (materialized_id sha256_hex draftId) l)).
Proof.
  intros [Hm Hw]. assert (H := approve_draft_run now draftId (materialized_id sha256_hex draftId) l). destruct (approveDraftWithWorkflow _ _ _ _) as [x l']. cbn in *.
  destruct H as [[-> _]|(r & Hr & Hn & _ & ->)]; [done|]. unfold owned, draftRow. cbn. rewrite lookup_insert_eq. split; [by intros ? ? [= <-] [= <-]|].
  intros wr Hwr. destruct (Hw wr Hwr) as (r' & Hr' & Hv & Hc). assert (r' = r) as -> by congruence. by eexists.
Qed.

(** What the inspected hash stands for in a library. *)
Definition materialized (hash wf : string) (l : Library) : Prop := exists r wr iv inventory spec inputs values text,
  draftRow draftId l = Some r /\ d_materialized_workflow_id r = Some wf /\ workflowRow wf (lb_db l) = Some wr /\ carries r wr /\
  decodeJson (d_inventory_snapshot_json r) SIZE_LIMITS.metadata_json false = Ok iv /\ read_inventory iv = Some inventory /\
  validateReady spec inputs inventory policy = Ok (spec, values) /\ hash = canonicalHash sha256_hex spec /\
  encodeJson spec SIZE_LIMITS.spec_json = Ok text /\ d_spec_json r = Some text /\ (json_data spec -> w_spec_json wr = text).
Lemma approved_materialized (hash wf : string) (l : Library) : Good l -> owned l -> approved sha256_hex draftId hash wf l -> wf = materialized_id sha256_hex draftId /\ materialized hash wf l.
Proof.
  intros HG [Hm Hw] (r & Hr & Hv & Hh & Hs & Hwf). destruct (d_materialized_workflow_id r) as [x|] eqn:Ex; [|done]. assert (x = materialized_id sha256_hex draftId) as -> by by apply (Hm r).
  assert (wf = materialized_id sha256_hex draftId) as -> by naive_solver. split; [done|]. assert (Hok := gd_drafts _ _ _ HG _ _ Hr).
  destruct (dk_approved _ _ _ _ _ Hok _ Ex) as (_ & _ & Hx). destruct (workflowRow _ (lb_db l)) as [wr|] eqn:Ew; [|done]. destruct (Hw wr eq_refl) as (r' & Hr' & _ & Hc). assert (r' = r) as -> by congruence.
  destruct (dk_valid _ _ _ _ _ Hok Hv) as (iv & inventory & spec & inputs & values & text & vt & Hd & Hi & Hva & He & Hds & Hsh & _). cbn in Hds, Hsh.
  exists r, wr, iv, inventory, spec, inputs, values, text. do 7 (split; [done|]). split; [congruence|]. split; [done|]. split; [done|].
  intros Hj. destruct Hc as (spec' & values' & Hds' & He' & _). rewrite Hds in Hds'. destruct (JSON_roundtrip spec Hj) as (t & Ht & Hp). revert He Hds' He'. unfold encodeJson at 1, decodeJson. rewrite Ht.
  destruct (SIZE_LIMITS.spec_json <? byteLen t) eqn:El; [done|]. intros [= ->]. rewrite El, Hp. intros [= ->]. unfold encodeJson. rewrite Ht, El. by intros [= ->].
Qed.
End Owned.

(** C26. What is approved is what was inspected: when [approve] returns, under any users
    of the store that do not put another workflow under the id derived from the draft, the
    returned workflow is the one of the draft, it exists, and the inspected hash is the
    hash of a specification that was validated against the inventory of the draft; the
    workflow row holds that specification, as the draft stores it (where its numbers are
    integers below 10^21), and its input values. *)
Theorem approved_spec_is_inspected {E : Type} (env : CompilerEnv E) (sha256_hex : string -> string) (policy : SystemPolicy) (draftId hash wf : string)
    (w w' : KWorld E) (record : WorkflowDraftRecord) :
  rely env sha256_hex policy (owned sha256_hex draftId) -> Good sha256_hex policy (kw_lib w) -> owned sha256_hex draftId (kw_lib w) ->
  approve env sha256_hex draftId hash w = (Ok (record, wf), w') ->
  wf = materialized_id sha256_hex draftId /\ materialized sha256_hex policy draftId hash wf (kw_lib w').
Proof.
  intros Hrely HG HI H.
  destruct (approve_keeps env sha256_hex policy (owned sha256_hex draftId) draftId Hrely (owned_create sha256_hex policy draftId) (fun now l _ HI _ => owned_approve sha256_hex draftId now l HI)
    hash (fun _ => True) ltac:(done) w HG HI Logic.I) as (HG' & HI' & _ & HQ). rewrite H in *. by apply approved_materialized; [| |apply (HQ _ eq_refl)].
Qed.

Definition demo_approved : result KFail (WorkflowDraftRecord * string) * KWorld nat := approve demo_compiler demo_sha demo_draft demo_hash demo_drafted.
Lemma owned_fresh (sha256_hex : string -> string) (draftId : string) (l : Library) : d_materialized_workflow_id <$> draftRow draftId l = Some None ->
  is_some (workflowRow (materialized_id sha256_hex draftId) (lb_db l)) = false -> owned sha256_hex draftId l.
Proof.
  intros Hd Hw. split.
  - intros r x Hr Hm. rewrite Hr in Hd. cbn in Hd. congruence.
  - intros wr Hwr. by rewrite Hwr in Hw.
Qed.
Lemma demo_owned : owned demo_sha demo_draft (kw_lib demo_drafted).
Proof. apply owned_fresh; vm_compute; reflexivity. Qed.
Lemma approved_spec_is_inspected_witness :
  match fst demo_approved with
  | Ok (_, wf) => wf = materialized_id demo_sha demo_draft /\ materialized demo_sha DEFAULT_SYSTEM_POLICY demo_draft demo_hash wf (kw_lib (snd demo_approved))
  | Err _ => False
  end.
Proof.
  destruct demo_approved as [[[record wf]|e] w'] eqn:H; cbn.
  - exact (approved_spec_is_inspected demo_compiler demo_sha DEFAULT_SYSTEM_POLICY demo_draft demo_hash wf demo_drafted w' record (demo_alone _) good_drafted demo_owned H).
  - assert (Hn : is_ok (fst demo_approved) = true) by (vm_compute; reflexivity). rewrite H in Hn. discriminate Hn.
Defined.
