(* ===== verification/BuilderProps.v ===== *)
(** * The builder keeps the library

    Every call of the compiler and of the builder keeps [Good] and lets the library evolve,
    whatever it returns and wherever the process dies; and no call but an approval changes a
    workflow or approves a draft. *)

From S2P Require Import Prelude Machine Values Json JsonProps Contract Conditions Templates Verification Validator Outputs StoreRows Store StoreOps StoreProps StoreInv RuntimeEnv Runtime TaskContract Drafts Compiler Builder BuilderApi LibraryProps CompilerProps RuntimeDemo ApprovalProps.

Section Builder.
Context {E : Type} (env : CompilerEnv E) (sha256_hex : string -> string) (policy : SystemPolicy) (maxWaits : nat).
Local Notation known := (known sha256_hex policy).
Local Notation does := (does sha256_hex policy (fun _ => True)).
Local Notation lasting := (lasting sha256_hex policy).
Context (Hrely : rely env sha256_hex policy (fun _ => True)).

Lemma does_below {A : Type} (m : ST (KWorld E) KFail A) (P : Library -> Prop) (Q : A -> Library -> Prop) : does P m Q -> does P (below m) Q.
Proof.
  intros H w HG HI HP. unfold below. destruct (H w HG HI HP) as (HG' & HI' & Hev & HQ). destruct (m w) as [[a|e] w']; cbn in *; [|done].
  do 3 (split; [done|]). intros x [= <-]. by apply HQ.
Qed.
Lemma does_db {A : Type} (m : string -> L A) (P : Library -> Prop) (Q : A -> Library -> Prop) : lasting P ->
  (forall now, lop sha256_hex policy P (m now) (fun r l => forall a, r = Ok a -> Q a l)) -> does P (db env m) Q.
Proof. intros HL Hm. apply does_below. by apply does_store. Qed.
Lemma random_keeps (P : Library -> Prop) : does P (random env) (fun _ _ => True).
Proof. apply does_below, does_env. Qed.
Lemma message_id_keeps (P : Library -> Prop) : lasting P -> does P (message_id env) (fun _ _ => True).
Proof. intros HL. eapply does_bind; [done|apply random_keeps|]. intros hex. by apply does_ret. Qed.
Lemma renaming_keeps {A : Type} (names : err_code -> option string) (m : ST (KWorld E) BFail A) (P : Library -> Prop) (Q : A -> Library -> Prop) : lasting P -> does P m Q -> does P (renaming names m) Q.
Proof. intros HL Hm. apply does_catch; [done|done|]. intros e. repeat case_match; apply does_raise. Qed.

Lemma get_draft_keeps (id : string) (P : Library -> Prop) : lasting P -> does P (getDraft' env id) (fun _ _ => True).
Proof. intros HL. apply does_db; [done|]. intros _. eapply lop_weaken; [apply (get_draft_spec _ _ _ P)|done|done]. Qed.
Lemma opt_draft_keeps (o : option string) (P : Library -> Prop) : lasting P ->
  does P (match o with Some d => getDraft' env d | None => mret None end : ST (KWorld E) BFail (option WorkflowDraftRecord)) (fun _ _ => True).
Proof. intros HL. destruct o; [by apply get_draft_keeps|by apply does_ret]. Qed.
Lemma get_session_keeps (id : string) (P : Library -> Prop) : lasting P ->
  does P (db env (fun _ => getBuilderSession id)) (fun o l => forall s, o = Some s -> pointer_ok l (b_current_draft_id s) (b_current_spec_hash s)).
Proof. intros HL. apply does_db; [done|]. intros _. eapply lop_weaken; [apply (get_session_spec _ _ _ P)|done|]. cbn. naive_solver. Qed.
Lemma list_messages_keeps (id : string) (P : Library -> Prop) : lasting P -> does P (db env (fun _ => listBuilderMessages id)) (fun _ _ => True).
Proof. intros HL. apply does_db; [done|]. intros _. eapply lop_weaken; [apply (list_messages_spec _ _ _ P)|done|done]. Qed.
Lemma find_turn_keeps (id k : string) (P : Library -> Prop) : lasting P -> does P (db env (fun _ => findBuilderTurn id k)) (fun _ _ => True).
Proof. intros HL. apply does_db; [done|]. intros _. eapply lop_weaken; [apply (find_turn_spec _ _ _ _ P)|done|done]. Qed.

(** ** Turns *)

Definition turn_open (id k : string) (draft hash : option string) (l : Library) : Prop := says "user" k (messages_in id l) /\ pointer_ok l draft hash.
Lemma lasting_turn (id k : string) (d h : option string) : lasting (turn_open id k d h).
Proof. unfold turn_open. lasts. Qed.

Lemma complete_keeps (id k content : string) (rev : Z) (d h : option string) (md : value) (cd ch : option string) :
  does (turn_open id k cd ch) (complete env id k content rev d h md cd ch) (fun _ _ => True).
Proof.
  assert (HL := lasting_turn id k cd ch). eapply does_bind; [done|by apply message_id_keeps|]. intros mid. apply does_db; [by lasts|]. intros now.
  eapply lop_weaken; [by apply (complete_spec _ _ now mid id rev _ k cd ch)|by intros l [H _]|done].
Qed.
Lemma complete_failed_keeps (id k : string) (s : BuilderSessionRow) (rev : Z) :
  does (turn_open id k (b_current_draft_id s) (b_current_spec_hash s)) (complete_failed env id k s rev) (fun _ _ => True).
Proof. eapply does_bind; [apply lasting_turn|apply complete_keeps|]. intros [[? ?] ?]. by apply does_ret. Qed.
Lemma complete_compiled_keeps (id k : string) (s : BuilderSessionRow) (rev : Z) (d : WorkflowDraftRecord) :
  does (fun l => turn_open id k (b_current_draft_id s) (b_current_spec_hash s) l /\ known d l) (complete_compiled env id k s rev d) (fun _ _ => True).
Proof.
  unfold complete_compiled. cbv zeta. eapply does_bind; [lasts; apply lasting_turn|apply renaming_keeps; [lasts; apply lasting_turn|]|intros [[? ?] ?]; by apply does_ret].
  eapply does_weaken; [apply complete_keeps| |done]. intros l [[Hs Hp] Hk]. split; [done|]. destruct (_ && _) eqn:Ea; [|done]. apply andb_prop in Ea as [Hv _].
  apply String.eqb_eq in Hv. destruct (known_valid _ _ d l Hk Hv) as (r & Hr & _ & Hvr & Hh & _). by exists r.
Qed.

Lemma run_turn_keeps (id content k : string) (s : BuilderSessionRow) (agent : string) (rev : Z) :
  does (fun l => pointer_ok l (b_current_draft_id s) (b_current_spec_hash s)) (run_turn env sha256_hex policy maxWaits id content k s agent rev) (fun _ _ => True).
Proof.
  unfold run_turn. eapply does_bind; [lasts|apply message_id_keeps; lasts|]. intros mid.
  apply (does_bind _ _ _ (fun _ l => says "user" k (messages_in id l))); [lasts|apply renaming_keeps; [lasts|apply does_db; [lasts|]]|].
  { intros now. eapply lop_weaken; [apply append_message_spec|done|]. cbn. intros r l Hr [m b] Hm. by apply (Hr m b). }
  intros [message b].
  apply (does_weaken _ _ (turn_open id k (b_current_draft_id s) (b_current_spec_hash s)) _ (fun _ _ => True)); [|by intros l [[? _] ?]|done].
  assert (HL := lasting_turn id k (b_current_draft_id s) (b_current_spec_hash s)).
  eapply does_bind; [done|by apply list_messages_keeps|]. intros all. cbv zeta. eapply does_bind; [lasts|by apply opt_draft_keeps; lasts|]. intros current.
  apply (does_bind _ _ _ (fun o l => forall d, o = Some d -> known d l)); [lasts| |].
  - apply does_catch; [lasts| |intros [c|[]]; try apply does_raise; by apply does_ret].
    eapply does_bind; [lasts|apply does_below, compile_keeps; [done|lasts]|]. intros d. apply does_ret. intros l [_ Hk] ? [= <-]. done.
  - intros [d|]; [|eapply does_weaken; [apply complete_failed_keeps|by intros l [[[? _] _] _]|done]].
    eapply does_weaken; [apply complete_compiled_keeps| |done]. intros l [[[? _] _] Hk]. split; [done|by apply Hk].
Qed.

Lemma replay_turn_keeps (s : BuilderSessionRow) (a : WorkflowBuilderMessageRecord) (P : Library -> Prop) : lasting P -> does P (replay_turn env s a) (fun _ _ => True).
Proof. intros HL. eapply does_bind; [done|by apply opt_draft_keeps|]. intros d. cbv zeta. by apply does_ret. Qed.

Lemma send_message_keeps (id content : string) (rev : option Z) (key : option string) (P : Library -> Prop) : lasting P ->
  does P (sendMessage env sha256_hex policy maxWaits id content rev key) (fun _ _ => True).
Proof.
  intros HL. unfold sendMessage, refuse. destruct (_ || _); [apply does_raise|]. destruct key as [k|]; [|apply does_raise]. do 2 (destruct (_ : bool); [apply does_raise|]).
  eapply does_bind; [done|by apply get_session_keeps|]. intros [s|]; [|apply does_raise].
  apply (does_weaken _ _ (fun l => pointer_ok l (b_current_draft_id s) (b_current_spec_hash s)) _ (fun _ _ => True)); [|intros l [_ H]; by apply H|done].
  cbn [obtain]. unfold mbind at 1, ST_bind at 1. cbn [mret ST_ret].
  eapply does_bind; [lasts|apply find_turn_keeps; lasts|]. intros [u [a|]]; [apply replay_turn_keeps; lasts|].
  do 2 (destruct (_ : bool); [apply does_raise|]). destruct (truthy_string _); [|apply does_raise]. destruct (_ : bool); [apply does_raise|].
  eapply does_weaken; [apply run_turn_keeps|by intros l [H _]|done].
Qed.

(** ** Sessions *)

Lemma create_session_keeps (i : CreateSessionInput) (P : Library -> Prop) : lasting P -> does P (createSession env sha256_hex policy maxWaits i) (fun _ _ => True).
Proof.
  intros HL. unfold createSession, refuse. do 3 (destruct (_ : bool); [apply does_raise|]). cbv zeta. destruct (_ && _); [apply does_raise|].
  apply (does_bind _ _ _ (fun _ _ => True)); [done| |].
  { destruct (truthy_string _); [by apply does_ret|]. eapply does_bind; [done|apply random_keeps|]. intros hex. by apply does_ret. }
  intros sessionId. apply (does_bind _ _ _ (fun _ _ => True)); [lasts|apply does_db; [lasts|]|].
  { intros now. eapply lop_weaken; [apply create_session_spec|done|done]. }
  intros session. apply (does_bind _ _ _ (fun _ _ => True)); [lasts| |].
  { repeat case_match; try by apply does_ret. all: eapply does_bind; [lasts|apply send_message_keeps; lasts|]; intros t; by apply does_ret. }
  intros turn. eapply does_bind; [lasts|apply get_session_keeps; lasts|]. intros [fresh|]; [|apply does_raise].
  apply (does_weaken _ _ P _ (fun _ _ => True)); [|by intros l [[[[H _] _] _] _]|done]. cbn [obtain]. unfold mbind at 1, ST_bind at 1. cbn [mret ST_ret].
  eapply does_bind; [lasts|apply list_messages_keeps; lasts|]. intros ms. by apply does_ret.
Qed.
Lemma archive_session_keeps (id : string) (P : Library -> Prop) : lasting P -> does P (archiveSession env id) (fun _ _ => True).
Proof.
  intros HL. unfold archiveSession. eapply does_bind; [done|apply get_session_keeps; lasts|]. intros [s|]; [|apply does_raise].
  apply (does_weaken _ _ P _ (fun _ _ => True)); [|by intros l [H _]|done]. cbn [obtain]. unfold mbind at 1, ST_bind at 1. cbn [mret ST_ret].
  apply does_db; [done|]. intros now. eapply lop_weaken; [apply archive_spec|done|done].
Qed.
Lemma list_sessions_keeps (limit offset : option Z) (P : Library -> Prop) : lasting P -> does P (db env (fun _ => listBuilderSessions limit offset)) (fun _ _ => True).
Proof.
  intros HL. apply does_db; [done|]. intros _. apply lop_read; [|done]. intros l. apply read_open, read_all. intros r. unfold summarize, mbind, ST_bind, asks, from. cbn. by repeat case_match.
Qed.
Lemma get_session_view_keeps (id : string) (P : Library -> Prop) : lasting P -> does P (getSession env id) (fun _ _ => True).
Proof.
  intros HL. unfold getSession. eapply does_bind; [done|apply get_session_keeps; lasts|]. intros [s|]; [|apply does_raise].
  apply (does_weaken _ _ P _ (fun _ _ => True)); [|by intros l [H _]|done]. cbn [obtain]. unfold mbind at 1, ST_bind at 1. cbn [mret ST_ret].
  eapply does_bind; [lasts|apply list_messages_keeps; lasts|]. intros ms. eapply does_bind; [lasts|apply opt_draft_keeps; lasts|]. intros d. cbv zeta. by apply does_ret.
Qed.
End Builder.

(** ** Requests *)

Section Wrapped.
Context {E : Type} (env : CompilerEnv E) (sha256_hex : string -> string) (policy : SystemPolicy).
Local Notation does := (does sha256_hex policy (fun _ => True)).
Local Notation any := (fun _ : Library => True).
Local Notation done_ := (fun (_ : ControllerResult) (_ : Library) => True).

Lemma refused_keeps (code : string) (status : Z) : does any (refused env code status) done_.
Proof. eapply does_bind; [done|apply does_env|]. intros ts. by apply does_ret. Qed.
Lemma compiling_keeps (m : ST (KWorld E) KFail ControllerResult) : does any m done_ -> does any (compiling env m) done_.
Proof. intros Hm. apply does_catch; [done|done|]. intros []; try apply does_raise; (eapply does_bind; [done|apply does_env|]; intros ts; by apply does_ret). Qed.
Lemma building_keeps (m : ST (KWorld E) BFail ControllerResult) : does any m done_ -> does any (building env m) done_.
Proof.
  intros Hm w HG HI HP. unfold building, mbind, ST_bind. destruct (Hm w HG HI HP) as (HG' & _ & Hev & _). destruct (m w) as [[a|e] w']; cbn in *; [by split; [|split; [|split]]|].
  destruct e as [c|[]]; unfold with_world; try destruct (ke_now env (kw_env w')); by split; [|split; [|split]].
Qed.
(** A call and the projection of its result. *)
Lemma projects {Er A : Type} (m : ST (KWorld E) Er A) (k : A -> ST (KWorld E) Er ControllerResult) Q :
  does any m Q -> (forall x, exists r, k x = mret r) -> does any (x ← m; k x) done_.
Proof. intros Hm Hk. eapply does_bind; [done|exact Hm|]. intros x. destruct (Hk x) as [r ->]. by apply does_ret. Qed.
End Wrapped.

(** What clients post to the compiler and the builder; bodies are any JSON values. *)
Inductive Call : Type :=
  | post_compile (body : value)
  | get_draft (draftId : string)
  | post_approve (draftId : string) (body : value)
  | post_session (body : value)
  | get_session (id : string)
  | list_sessions (limit offset : option Z)
  | post_message (id : string) (body : value)
  | post_archive (id : string).

Section Calls.
Context {E : Type} (env : CompilerEnv E) (sha256_hex : string -> string) (policy : SystemPolicy) (maxWaits : nat).

Definition respond (c : Call) : ST (KWorld E) KFail ControllerResult :=
  match c with
  | post_compile body => compileWorkflowController env sha256_hex policy maxWaits body
  | get_draft id => getWorkflowDraftController env id
  | post_approve id body => approveWorkflowDraftController env sha256_hex id body
  | post_session body => createBuilderSessionController env sha256_hex policy maxWaits body
  | get_session id => getBuilderSessionController env id
  | list_sessions limit offset => listBuilderSessionsController env limit offset
  | post_message id body => sendBuilderMessageController env sha256_hex policy maxWaits id body
  | post_archive id => archiveBuilderSessionController env id
  end.
Definition serve (c : Call) (w : KWorld E) : KWorld E := snd (respond c w).
(** One request after the other, each to its end or to the end of the process. *)
Definition serve_all (calls : list Call) (w : KWorld E) : KWorld E := fold_left (fun w c => serve c w) calls w.

Lemma respond_keeps (c : Call) : rely env sha256_hex policy (fun _ => True) -> does sha256_hex policy (fun _ => True) (fun _ => True) (respond c) (fun _ _ => True).
Proof.
  intros Hrely.
  destruct c as [body|id|id body|body|id|limit offset|id body|id]; cbn [respond];
    unfold compileWorkflowController, getWorkflowDraftController, approveWorkflowDraftController, createBuilderSessionController, getBuilderSessionController,
      listBuilderSessionsController, sendBuilderMessageController, archiveBuilderSessionController;
    repeat (case_match; try apply refused_keeps); first [apply compiling_keeps | apply building_keeps].
  2: { apply (does_bind _ _ _ (fun _ _ => True)); [done|apply does_store; [done|done|]|].
       - intros _. eapply lop_weaken; [apply (get_draft_spec _ _ _ (fun _ => True))|done|done].
       - intros [d|]; [by apply does_ret|]. eapply does_weaken; [apply refused_keeps|done|done]. }
  all: eapply projects; [|intros x; repeat (destruct x as [x ?]); by eexists].
  all: by first [apply compile_keeps | apply approve_keeps | apply create_session_keeps | apply get_session_view_keeps | apply list_sessions_keeps | apply send_message_keeps
                | apply archive_session_keeps].
Qed.
Lemma serve_keeps (c : Call) (w : KWorld E) : rely env sha256_hex policy (fun _ => True) -> Good sha256_hex policy (kw_lib w) ->
  Good sha256_hex policy (kw_lib (serve c w)) /\ library_evolves (kw_lib w) (kw_lib (serve c w)).
Proof. intros Hrely HG. destruct (respond_keeps c Hrely w HG Logic.I Logic.I) as (? & _ & ? & _). done. Qed.
End Calls.

(** ** Only [approve] materializes *)

(** The tables of workflows: all but those of tasks. *)
Definition workflow_tables (d : DB) : gmap string WorkflowRow * gmap string StepRow * list WorkflowEventRow * gmap string WorkspaceLeaseRow *
    gmap string HumanRequestRow * gmap string EvidenceRow * list StallRow :=
  (db_workflows d, db_steps d, db_workflow_events d, db_leases d, db_human_requests d, db_evidence d, db_stall_rounds d).
(** The approval status of a draft and the workflow it was materialized as; a draft that does
    not exist is unapproved. *)
Definition approval (id : string) (l : Library) : string * option string :=
  match draftRow id l with Some r => (d_approval_status r, d_materialized_workflow_id r) | None => ("unapproved", None) end.
(** No workflow and no approval is added, changed or removed. *)
Definition approves_nothing (l l' : Library) : Prop :=
  workflow_tables (lb_db l') = workflow_tables (lb_db l) /\ forall id, approval id l' = approval id l.
(** The library changes only by steps that approve nothing, and by the steps of the other
    users of the store. *)
Inductive beside {E : Type} (env : CompilerEnv E) : Library -> Library -> Prop :=
| beside_start l : beside env l l
| beside_own l0 l l' : beside env l0 l -> approves_nothing l l' -> beside env l0 l'
| beside_other l0 l e : beside env l0 l -> beside env l0 (fst (ke_other env e l)).

Lemma approves_nothing_trans (l0 l l' : Library) : approves_nothing l0 l -> approves_nothing l l' -> approves_nothing l0 l'.
Proof. intros [H1 H2] [H3 H4]. split; [congruence|]. intros id. by rewrite H4. Qed.
Lemma beside_quiet {E : Type} (env : CompilerEnv E) (l0 l : Library) : (forall e l, approves_nothing l (fst (ke_other env e l))) -> beside env l0 l -> approves_nothing l0 l.
Proof. intros Hq. induction 1; [done| |]; by eapply approves_nothing_trans. Qed.

(** Calls that only draft and talk. *)
Definition drafting (c : Call) : bool := match c with post_approve _ _ => false | _ => true end.

Section Drafting.
Context {E : Type} (env : CompilerEnv E) (sha256_hex : string -> string) (policy : SystemPolicy) (maxWaits : nat) (l0 : Library).
Local Notation J := (beside env l0).
Local Notation JW := (fun w : KWorld E => J (kw_lib w)).

#[local] Instance J_open : Holds J open.
Proof. intros l H. by destruct (run_open l) as [-> | ->]. Qed.
#[local] Instance J_sessions (f : Library -> gmap string BuilderSessionRow) : Holds J (update (fun s => set_lb_sessions (f s) s) : L unit).
Proof. intros l H. by apply (beside_own _ _ l). Qed.
#[local] Instance J_messages (f : Library -> list BuilderMessageRow) : Holds J (update (fun s => set_lb_messages (f s) s) : L unit).
Proof. intros l H. by apply (beside_own _ _ l). Qed.
Lemma insert_unapproved (r : DraftRow) (l : Library) : draftRow (d_draft_id r) l = None -> d_approval_status r = "unapproved" -> d_materialized_workflow_id r = None ->
  approves_nothing l (snd (insert_draft r l)).
Proof.
  intros Hnew Hs Hm. unfold insert_draft, mbind, ST_bind, asks, ensure. match goal with |- context [negb ?b] => destruct b end; cbn [negb]; [done|]. split; [done|]. intros id. unfold approval, draftRow. cbn.
  destruct (decide (id = d_draft_id r)) as [->|Hne]; [|by rewrite lookup_insert_ne by done].
  rewrite lookup_insert_eq, Hs, Hm. unfold draftRow in Hnew. by rewrite Hnew.
Qed.
Lemma J_from {X Y : Type} (r : result err_code X) (k : X -> L Y) (l : Library) : J l -> (forall x, J (snd (k x l))) -> J (snd ((from r ≫= k) l)).
Proof. intros HJ Hk. unfold mbind, ST_bind, from. destruct r; [apply Hk|done]. Qed.
Lemma J_insert_then {X : Type} (r : DraftRow) (k : unit -> L X) (l : Library) : J l -> draftRow (d_draft_id r) l = None -> d_approval_status r = "unapproved" ->
  d_materialized_workflow_id r = None -> (forall u, Holds J (k u)) -> J (snd ((insert_draft r ≫= k) l)).
Proof.
  intros HJ Hnew Hs Hm Hk. pose proof (beside_own env l0 l _ HJ (insert_unapproved r l Hnew Hs Hm)) as H. unfold mbind, ST_bind.
  destruct (insert_draft r l) as [[u|] l1]; [by apply Hk|done].
Qed.
Lemma J_update_draft (id : string) (f : DraftRow -> DraftRow) :
  (forall r, d_approval_status (f r) = d_approval_status r /\ d_materialized_workflow_id (f r) = d_materialized_workflow_id r) -> Holds J (update_draft id f).
Proof.
  intros Hf l HJ. apply (beside_own _ _ l); [done|]. split; [done|]. intros k. unfold approval, draftRow. cbn. destruct (decide (k = id)) as [->|Hne]; [|by rewrite lookup_alter_ne by done].
  rewrite lookup_alter_eq. destruct (lb_drafts l !! id) as [r|]; [|done]. cbn. by destruct (Hf r) as [-> ->].
Qed.
#[local] Instance J_with_task (now id t : string) (cap : option string) : Holds J (update_draft id (with_task now t cap)).
Proof. by apply J_update_draft. Qed.
#[local] Instance J_with_content (now id : string) (c : DraftContent) : Holds J (update_draft id (with_content now c)).
Proof. by apply J_update_draft. Qed.
#[local] Instance J_mapM {X Y : Type} (f : X -> L Y) (xs : list X) : (forall x, Holds J (f x)) -> Holds J (mapM_L f xs).
Proof. intros Hf. induction xs as [|x xs IH]; cbn; [apply _|]. apply holds_bind; [done|]. intros y. apply holds_bind; [done|]. apply _. Qed.

#[local] Instance J_createDraft (now : string) (i : CreateDraftInput) : Holds J (createDraft now i).
Proof.
  apply holds_bind; [apply _|]. intros _. apply holds_bind; [apply _|]. intros _. apply holds_atomic. intros l HJ. unfold mbind at 1, ST_bind at 1, asks at 1.
  destruct (draftRow (cd_draft_id i) l) as [r|] eqn:Er.
  { enough (H : Holds J (d ← toDraft r; mret (d, false) : L _)) by by apply H. hold. }
  do 4 (apply J_from; [done|]; intros ?). apply J_insert_then; try done. hold.
Qed.
#[local] Instance J_bind (now id t : string) (cap : value) : Holds J (bindDraftCompilerTask now id t cap).
Proof. hold. Qed.
#[local] Instance J_finalize (now id : string) (p : DraftPatch) : Holds J (finalizeDraft now id p).
Proof. hold. Qed.
#[local] Instance J_append (now mid id content : string) (k : option string) : Holds J (appendBuilderUserMessage now mid id content k).
Proof. hold. Qed.
#[local] Instance J_complete (now mid id : string) (rev : Z) (a : AssistantInput) (d h : option string) : Holds J (completeBuilderTurn now mid id rev a d h).
Proof. hold. Qed.
#[local] Instance J_getDraft (id : string) : Holds J (getDraft id).
Proof. hold. Qed.
#[local] Instance J_getSession (id : string) : Holds J (getBuilderSession id).
Proof. hold. Qed.
#[local] Instance J_list (id : string) : Holds J (listBuilderMessages id).
Proof. hold. Qed.
#[local] Instance J_find (id k : string) : Holds J (findBuilderTurn id k).
Proof. hold. Qed.
#[local] Instance J_archived (now id : string) : Holds J (archiveBuilderSession now id).
Proof. hold. Qed.
#[local] Instance J_new_session (now : string) (i : CreateSessionRow) : Holds J (createBuilderSession now i).
Proof. hold. Qed.

#[local] Instance J_with_world {X : Type} (f : E -> X * E) : Holds JW (with_world f).
Proof. intros w H. unfold with_world. by destruct (f (kw_env w)). Qed.
#[local] Instance J_store {X : Type} (m : string -> L X) : (forall now, Holds J (m now)) -> Holds JW (store env m).
Proof.
  intros Hm. unfold store. apply holds_bind.
  - intros w H. unfold interfere, update. cbn. pose proof (beside_other env l0 (kw_lib w) (kw_env w) H). by destruct (ke_other env _ _).
  - intros _. apply holds_bind; [apply _|]. intros alive. apply holds_bind; [apply _|]. intros _. apply holds_bind; [apply _|]. intros now w H. unfold in_store.
    specialize (Hm now (kw_lib w) H). by destruct (m now (kw_lib w)).
Qed.
#[local] Instance J_below {X : Type} (m : ST (KWorld E) KFail X) : Holds JW m -> Holds JW (below m).
Proof. intros Hm w H. unfold below. specialize (Hm w H). by destruct (m w). Qed.
#[local] Instance J_await (waits : nat) (task : string) (cursor : Z) : Holds JW (await_model env waits task cursor).
Proof. revert cursor. induction waits as [|n IH]; intros cursor; cbn [await_model]; [apply _|]. hold. Qed.

#[local] Instance J_compile (req : CompileRequest) : Holds JW (compile env sha256_hex policy maxWaits req).
Proof. hold. Qed.
#[local] Instance J_send (id content : string) (rev : option Z) (key : option string) : Holds JW (sendMessage env sha256_hex policy maxWaits id content rev key).
Proof. hold. Qed.
#[local] Instance J_create (i : CreateSessionInput) : Holds JW (createSession env sha256_hex policy maxWaits i).
Proof. hold. Qed.
#[local] Instance J_archive (id : string) : Holds JW (archiveSession env id).
Proof. hold. Qed.
#[local] Instance J_get (id : string) : Holds JW (getSession env id).
Proof. hold. Qed.

#[local] Instance J_listSessions (limit offset : option Z) : Holds J (listBuilderSessions limit offset).
Proof. hold. Qed.
#[local] Instance J_building (m : ST (KWorld E) BFail ControllerResult) : Holds JW m -> Holds JW (building env m).
Proof.
  intros Hm w H. unfold building, with_world, mbind, ST_bind. specialize (Hm w H). destruct (m w) as [[a|[c|[]]] w']; try done; by destruct (ke_now env (kw_env w')).
Qed.

Lemma drafting_keeps (c : Call) (w : KWorld E) : drafting c = true -> J (kw_lib w) -> J (kw_lib (serve env sha256_hex policy maxWaits c w)).
Proof.
  intros Hc H. unfold serve. enough (HJ : Holds JW (respond env sha256_hex policy maxWaits c)) by by apply HJ.
  destruct c; try discriminate Hc; cbn [respond];
    unfold compileWorkflowController, getWorkflowDraftController, createBuilderSessionController, getBuilderSessionController, listBuilderSessionsController,
      sendBuilderMessageController, archiveBuilderSessionController; repeat case_match; try apply J_building; hold.
Qed.
End Drafting.

(** C3. Drafting and talking never approve or start anything.  Whatever the compiler agent
    answers, a sequence of any requests but approvals to the compiler and the builder
    changes the library only by steps that add, change and remove no workflow, no step,
    event, lease, human request, evidence or stall record and no approval of a draft
    (neither its approval status nor its materialized workflow); every other change is one
    that another user of the store made.  So where the other users approve and start nothing
    either (they may write tasks), the workflow tables and all approvals are afterwards as they
    were. *)
Theorem drafting_never_approves {E : Type} (env : CompilerEnv E) (sha256_hex : string -> string) (policy : SystemPolicy) (maxWaits : nat) (calls : list Call) (w : KWorld E) :
  forallb drafting calls = true -> let l := kw_lib w in let l' := kw_lib (serve_all env sha256_hex policy maxWaits calls w) in
  beside env l l' /\
  ((forall e x, approves_nothing x (fst (ke_other env e x))) ->
   workflow_tables (lb_db l') = workflow_tables (lb_db l) /\ forall id, approval id l' = approval id l).
Proof.
  intros Hc l l'. enough (H : beside env l l') by (split; [done|]; intros Hq; by apply (beside_quiet env)).
  subst l'. enough (H : forall w0, beside env l (kw_lib w0) -> beside env l (kw_lib (serve_all env sha256_hex policy maxWaits calls w0))) by apply H, beside_start.
  induction calls as [|c calls IH]; intros w0 H0; [done|]. cbn in Hc. apply andb_prop in Hc as [Hc Hcs]. apply (IH Hcs). by apply drafting_keeps.
Qed.

(** C14. Drafts and conversations: under any users of the store that do so too, every
    sequence of requests to the compiler and the builder, whatever JSON they carry and
    wherever the process dies, keeps the library: a draft is valid only with a
    specification that was validated against the inventory it was created with, and with
    its hash; an approved draft has its workflow; a session is a sequence of turns, each
    with one question and one answer under its own key, numbered without gaps, with at most
    one open turn at the end, at a revision that counts the completed turns, and points to
    a valid draft with its hash.  Finalized drafts, approvals and messages never change. *)
Theorem library_kept {E : Type} (env : CompilerEnv E) (sha256_hex : string -> string) (policy : SystemPolicy) (maxWaits : nat) (calls : list Call) (w : KWorld E) :
  rely env sha256_hex policy (fun _ => True) -> Good sha256_hex policy (kw_lib w) ->
  Good sha256_hex policy (kw_lib (serve_all env sha256_hex policy maxWaits calls w)) /\
  library_evolves (kw_lib w) (kw_lib (serve_all env sha256_hex policy maxWaits calls w)).
Proof.
  intros Hrely. revert w. induction calls as [|c calls IH]; intros w HG; [done|]. cbn. destruct (serve_keeps env sha256_hex policy maxWaits c w Hrely HG) as [HG1 Hev].
  destruct (IH _ HG1) as [HG2 Hev2]. split; [done|by etransitivity].
Qed.

Definition demo_compile : Call := post_compile (VObj [("nl_request", VStr "do it once"); ("compiler_agent", VStr "codex"); ("idempotency_key", VStr "k1")]).
Definition demo_create : Call := post_session (VObj [("initial_request", VStr "do it once"); ("compiler_agent", VStr "codex"); ("idempotency_key", VStr "s1")]).
Definition demo_message (content key : string) : Call := post_message demo_session_id (VObj [("content", VStr content); ("idempotency_key", VStr key)]).
(** A compilation, its approval, a session with a first turn, that turn again, a second turn. *)
Definition demo_calls : list Call :=
  [ demo_compile; post_approve demo_draft (VObj [("spec_hash", VStr demo_hash)]); demo_create; demo_message "again" (initial_key demo_sha "s1"); demo_message "now something else" "turn2" ].
Definition demo_served : Library := kw_lib (serve_all demo_compiler demo_sha DEFAULT_SYSTEM_POLICY 3 demo_calls demo_world).
Lemma library_kept_witness :
  (Good demo_sha DEFAULT_SYSTEM_POLICY demo_served /\ library_evolves empty_library demo_served) /\
  map (fun m => (m_role m, m_turn_key m)) (lb_messages demo_served) = flat_map turn [initial_key demo_sha "s1"; "turn2"] /\
  d_approval_status <$> draftRow demo_draft demo_served = Some "approved".
Proof.
  split; [|split; vm_compute; reflexivity].
  exact (library_kept demo_compiler demo_sha DEFAULT_SYSTEM_POLICY 3 demo_calls demo_world (demo_alone _) (good_empty _ _)).
Defined.

Definition demo_talk : list Call := [demo_compile; demo_create; demo_message "now something else" "turn2"; list_sessions None None].
(** Beside the Gateway, which records the tasks of the compiler agent in the same store. *)
Definition recording_compiler : CompilerEnv nat :=
  {| ke_other := fun e l => (set_lb_db (set_db_tasks (<["t_1" := new_task_row T0 Demo.task_input None None None]> (db_tasks (lb_db l))) (lb_db l)) l, e);
     ke_alive := ke_alive demo_compiler; ke_now := ke_now demo_compiler; ke_randomHex := ke_randomHex demo_compiler; ke_localAgents := ke_localAgents demo_compiler;
     ke_fetchNodes := ke_fetchNodes demo_compiler; ke_createTask := ke_createTask demo_compiler; ke_waitForTerminal := ke_waitForTerminal demo_compiler |}.
Definition demo_talked : Library := kw_lib (serve_all recording_compiler demo_sha DEFAULT_SYSTEM_POLICY 3 demo_talk demo_world).
Lemma drafting_never_approves_witness :
  (workflow_tables (lb_db demo_talked) = workflow_tables empty_db /\ forall id, approval id demo_talked = ("unapproved", None)) /\
  d_validation_status <$> draftRow demo_draft demo_talked = Some "valid" /\ is_some (taskRow "t_1" (lb_db demo_talked)) = true.
Proof.
  split; [|split; vm_compute; reflexivity].
  apply (drafting_never_approves recording_compiler demo_sha DEFAULT_SYSTEM_POLICY 3 demo_talk demo_world eq_refl).
  intros e l. split; reflexivity.
Defined.

(** ** A turn that can never end *)

(** The questions are stored twice in the metadata of the answer, which is bounded like the
    questions themselves. *)
Definition long_question : string := String.concat "" (repeat "0123456789" 300).
Definition asking : string :=
  default "" (JSON_stringify (VObj [("schema_version", VStr "1"); ("status", VStr "needs_input"); ("questions", VArr (repeat (VStr long_question) 3))])).
Definition asking_compiler : CompilerEnv nat :=
  {| ke_other := ke_other demo_compiler; ke_alive := ke_alive demo_compiler; ke_now := ke_now demo_compiler; ke_randomHex := ke_randomHex demo_compiler;
     ke_localAgents := ["codex"]; ke_fetchNodes := None; ke_createTask := ke_createTask demo_compiler;
     ke_waitForTerminal := fun _ _ e => (Ok {| rd_task_id := "t_1"; rd_status := "completed"; rd_terminal := true; rd_history_complete := true;
                                               rd_result_status := Some "available"; rd_result_text := Some asking; rd_next_event_id := 1 |}, e) |}.
Definition stuck : KWorld nat := serve_all asking_compiler demo_sha DEFAULT_SYSTEM_POLICY 3 [demo_create] demo_world.
Definition status_of (c : Call) (w : KWorld nat) : option Z := match fst (respond asking_compiler demo_sha DEFAULT_SYSTEM_POLICY 3 c w) with Ok r => Some (ct_status r) | Err _ => None end.

(** The draft is final, yet the turn fails, again when it is resumed, and no other turn can
    start: the session can only be archived. *)
Example long_answer_blocks_session :
  (d_compiler_status <$> draftRow demo_draft (kw_lib stuck)) = Some "needs_input" /\
  status_of (demo_message "again" (initial_key demo_sha "s1")) stuck = Some 500 /\
  status_of (demo_message "something else" "turn2") stuck = Some 409.
Proof. vm_compute. auto. Qed.
