(* ===== verification/EventStream.v ===== *)
(** * The event stream of a workflow (src/workflow/event-stream.ts)

    A server-sent event stream replays the persisted events past a cursor and then polls
    the durable log.  A tick reads the events and then the workflow; other users of the
    store may act between the two reads and between ticks.  [throws n]: does the [n]-th
    write to the response throw. *)

From S2P Require Import Prelude Values Json Contract Verification Outputs StoreRows Store StoreOps StoreProps StoreInv StoreRun RuntimeEnv Runtime TaskContract.

(** ** Reading the log (control/sqlite-store.ts) *)

Record WorkflowEventRecord : Type := { er_row : WorkflowEventRow; er_payload : value }.
Definition toWorkflowEvent (r : WorkflowEventRow) : M WorkflowEventRecord :=
  p ← lift (decodeJson (Some (we_payload_json r)) SIZE_LIMITS.workflow_event_payload false); mret {| er_row := r; er_payload := p |}.
Definition event_order (a b : WorkflowEventRow) : bool := we_sequence a <=? we_sequence b.
Definition listWorkflowEvents (workflowId : string) (afterSequence limit : Z) : M (list WorkflowEventRecord) :=
  opened;; rows ← gets (workflow_events_of workflowId);
  mapM_M toWorkflowEvent (take (clampLimit (Some limit)) (sort_by event_order (List.filter (fun r => afterSequence <? we_sequence r) rows))).

(** ** Frames *)

Definition STREAM_END_EVENTS : list string := ["workflow.completed"; "workflow.failed"; "workflow.cancelled"; "workflow.blocked"].
Definition WF_TERMINAL : list string := ["completed"; "failed"; "cancelled"; "blocked"].

(** A header that repeats is an array, of which the first is taken. *)
Definition parseWorkflowCursor (header : option string) : Z :=
  match header with
  | Some raw => if negb (raw =s "") && forallb is_digit (lit raw) then Z.of_N (digits_val (lit raw)) else -1
  | None => -1
  end.

Inductive Frame : Type := Connected | KeepAlive | Truncated (earliest : Z) | Event (e : WorkflowEventRecord).
Definition nl : string := String "010" EmptyString.
Definition frame_data (e : WorkflowEventRecord) : value :=
  let r := er_row e in
  VObj ([("workflow_id", VStr (we_workflow_id r)); ("seq", zval (we_sequence r)); ("type", VStr (we_event_type r)); ("ts", VStr (we_ts r))]
        ++ match truthy_string (we_step_execution_id r) with Some s => [("step_execution_id", VStr s)] | None => [] end ++ [("payload", er_payload e)]).
Definition frame (e : WorkflowEventRecord) : string :=
  "id: " +:+ zstr (we_sequence (er_row e)) +:+ nl +:+ "event: " +:+ we_event_type (er_row e) +:+ nl +:+ "data: " +:+ default "undefined" (JSON_stringify (frame_data e)) +:+ nl +:+ nl.
Definition frame_text (f : Frame) : string :=
  match f with
  | Connected => ": connected" +:+ nl +:+ nl
  | KeepAlive => ": keep-alive" +:+ nl +:+ nl
  | Truncated n => ": warning: workflow event history is truncated (earliest_retained_sequence=" +:+ zstr n +:+ ")" +:+ nl +:+ nl
  | Event e => frame e
  end.

(** ** The stream *)

Record Stream : Type := { sm_cursor : Z; sm_closed : bool; sm_warned : bool; sm_written : list Frame }.
Definition cleanup (s : Stream) : Stream := {| sm_cursor := sm_cursor s; sm_closed := true; sm_warned := sm_warned s; sm_written := sm_written s |}.
Definition delivered (s : Stream) : list WorkflowEventRecord := flat_map (fun f => match f with Event e => [e] | _ => [] end) (sm_written s).

Section Stream.
Context (throws : nat -> bool) (workflowId : string).

(** [None]: the write threw. *)
Definition write (f : Frame) (s : Stream) : option Stream :=
  if throws (List.length (sm_written s)) then None
  else Some {| sm_cursor := sm_cursor s; sm_closed := sm_closed s; sm_warned := sm_warned s; sm_written := sm_written s ++ [f] |}.
Definition at_cursor (c : Z) (s : Stream) : Stream := {| sm_cursor := c; sm_closed := sm_closed s; sm_warned := sm_warned s; sm_written := sm_written s |}.
Definition warned (s : Stream) : Stream := {| sm_cursor := sm_cursor s; sm_closed := sm_closed s; sm_warned := true; sm_written := sm_written s |}.

(** [streamWorkflowEvents] up to its first tick. *)
Definition start (header : option string) : Stream :=
  {| sm_cursor := parseWorkflowCursor header; sm_closed := false; sm_warned := false; sm_written := [Connected] |}.

(** The loop over the events: [endReached], or [None] when a write threw. *)
Fixpoint send_events (events : list WorkflowEventRecord) (endReached : bool) (s : Stream) : option bool * Stream :=
  match events with
  | [] => (Some endReached, s)
  | e :: rest =>
      match write (Event e) s with
      | None => (None, cleanup s)
      | Some s' => send_events rest (endReached || (we_event_type (er_row e) ∈b STREAM_END_EVENTS)) (at_cursor (we_sequence (er_row e)) s')
      end
  end.

Definition truncated (rec : option WorkflowRecord) (s : Stream) : option Z :=
  match rec with
  | Some w => let earliest := w_earliest_retained_sequence (wf_row w) in
      if negb (sm_warned s) && (0 <? earliest) && (sm_cursor s + 1 <? earliest) then Some earliest else None
  | None => None
  end.
Definition finish (rec : option WorkflowRecord) (endReached : bool) (s : Stream) : Stream :=
  match rec with
  | Some w => if (endReached || (w_status (wf_row w) ∈b WF_TERMINAL)) && (w_last_event_sequence (wf_row w) <=? sm_cursor s) then cleanup s else s
  | None => s
  end.
Definition publish (events : list WorkflowEventRecord) (rec : option WorkflowRecord) (s : Stream) : Stream :=
  match send_events events false s with (Some e, s') => finish rec e s' | (None, s') => s' end.
(** The events are read from [d1], the workflow from [d2]; a read that throws ends the tick. *)
Definition tick (d1 d2 : DB) (s : Stream) : Stream :=
  if sm_closed s then s else
  match fst (listWorkflowEvents workflowId (sm_cursor s) 1000 d1), fst (getWorkflow workflowId d2) with
  | Ok events, Ok rec =>
      match truncated rec s with
      | Some n => match write (Truncated n) (warned s) with None => cleanup (warned s) | Some s' => publish events rec s' end
      | None => publish events rec s
      end
  | _, _ => s
  end.
Definition heartbeat (s : Stream) : Stream :=
  if sm_closed s then s else match write KeepAlive s with None => cleanup s | Some s' => s' end.

(** A stream and the store it reads. *)
Inductive stream_step : DB * Stream -> DB * Stream -> Prop :=
  | stream_store d d' s : store_step d d' -> stream_step (d, s) (d', s)
  | stream_tick d d' s : rtc store_step d d' -> stream_step (d, s) (d', tick d d' s)
  | stream_heartbeat d s : stream_step (d, s) (d, heartbeat s)
  | stream_close d s : stream_step (d, s) (d, cleanup s).
End Stream.
