(* ===== verification/EventStreamProps.v ===== *)
(** * A workflow's event stream is an exact tail of its log *)

From S2P Require Import Prelude Values Json Contract Verification Outputs StoreRows Store StoreOps StoreProps StoreInv StoreRun RuntimeEnv Runtime TaskContract EventStream.

(** ** The log *)

Lemma log_numbered (d : DB) (id : string) : store_ok d -> map we_sequence (workflow_events_of id d) = seqZ 0 (Z.of_nat (List.length (workflow_events_of id d))).
Proof.
  intros [[Hrow Hown] _ _ _ _ _]. destruct (db_workflows d !! id) as [w|] eqn:Ew.
  - destruct (Hrow id w Ew) as [_ [Hl Hn]]. change (events_of we_workflow_id id (db_workflow_events d)) with (workflow_events_of id d) in Hn. rewrite Hn at 1.
    apply (f_equal List.length) in Hn. rewrite length_map, length_seqZ in Hn. rewrite Hn. f_equal. lia.
  - assert (workflow_events_of id d = []) as ->; [|done]. apply filter_nil. intros e He. destruct (is_wf_event id e) eqn:Ee; [|done].
    destruct (Hown e He) as [w Hw]. unfold is_wf_event in Ee. bsimpl. congruence.
Qed.
Lemma log_last (d : DB) (id : string) (w : WorkflowRow) : store_ok d -> workflowRow id d = Some w -> w_last_event_sequence w = Z.of_nat (List.length (workflow_events_of id d)) - 1.
Proof.
  intros [[Hrow _] _ _ _ _ _] Hw. destruct (Hrow id w Hw) as [_ [Hl Hn]]. change (events_of we_workflow_id id (db_workflow_events d)) with (workflow_events_of id d) in Hn.
  apply (f_equal List.length) in Hn. rewrite length_map, length_seqZ in Hn. lia.
Qed.
Lemma log_grows (d d' : DB) (id : string) : rtc store_step d d' -> workflow_events_of id d `prefix_of` workflow_events_of id d'.
Proof. intros H. apply store_run_evolves in H. destruct (ev_events _ _ H) as [l Hl]. unfold workflow_events_of. rewrite Hl, List.filter_app. by apply prefix_app_r. Qed.

Lemma getWorkflow_reads (id : string) (d : DB) (w : WorkflowRecord) : fst (getWorkflow id d) = Ok (Some w) -> workflowRow id d = Some (wf_row w).
Proof.
  unfold getWorkflow, opened, check, gets, mbind, M_bind. destruct (negb (db_closed d)); cbn; [|done]. destruct (workflowRow id d) as [r|]; [|done]. cbn.
  unfold mbind, M_bind. destruct (toWorkflow r d) as [[w'|] d'] eqn:E; cbn; [|done]. intros [= ->]. by destruct (toWorkflow_row _ _ _ _ E) as [<- _].
Qed.

(** What is past a cursor. *)
Definition past (c : Z) (l : list WorkflowEventRow) : list WorkflowEventRow := drop (Z.to_nat (c + 1)) l.
Definition numbered_from (n : Z) (l : list WorkflowEventRow) : Prop := map we_sequence l = seqZ n (Z.of_nat (List.length l)).

Lemma numbered_cons (n : Z) (r : WorkflowEventRow) (l : list WorkflowEventRow) : numbered_from n (r :: l) <-> we_sequence r = n /\ numbered_from (n + 1) l.
Proof.
  unfold numbered_from. cbn [map List.length]. rewrite Nat2Z.inj_succ, seqZ_cons by lia. rewrite Z.pred_succ, <- Z.add_1_r. split; [by intros [= -> ->]|by intros [-> ->]].
Qed.
Lemma numbered_drop (k : nat) (n : Z) (l : list WorkflowEventRow) : numbered_from n l -> numbered_from (n + Z.of_nat k) (drop k l).
Proof.
  revert n l. induction k as [|k IH]; intros n l H; [by rewrite drop_0, Z.add_0_r|]. destruct l as [|r l]; [done|]. apply numbered_cons in H as [_ H]. cbn [drop].
  replace (n + Z.of_nat (S k)) with (n + 1 + Z.of_nat k) by lia. by apply IH.
Qed.
Lemma numbered_take (k : nat) (n : Z) (l : list WorkflowEventRow) : numbered_from n l -> numbered_from n (take k l).
Proof.
  revert n l. induction k as [|k IH]; intros n [|r l] H; try done. apply numbered_cons in H as [Hr H]. cbn [take]. apply numbered_cons. split; [done|by apply IH].
Qed.
Lemma filter_past (l : list WorkflowEventRow) (n c : Z) : numbered_from n l -> List.filter (fun r => c <? we_sequence r) l = drop (Z.to_nat (c + 1 - n)) l.
Proof.
  revert n. induction l as [|r l IH]; intros n H; [by rewrite drop_nil|]. apply numbered_cons in H as [Hr H]. cbn [List.filter]. rewrite (IH _ H), Hr.
  destruct (c <? n) eqn:E; [apply Z.ltb_lt in E|apply Z.ltb_ge in E].
  - replace (Z.to_nat (c + 1 - n)) with 0%nat by lia. by replace (Z.to_nat (c + 1 - (n + 1))) with 0%nat by lia.
  - by replace (Z.to_nat (c + 1 - n)) with (S (Z.to_nat (c + 1 - (n + 1)))) by lia.
Qed.
Lemma cursor_bound (header : option string) : -1 <= parseWorkflowCursor header.
Proof. unfold parseWorkflowCursor. destruct header; [|lia]. case_match; lia. Qed.

(** ** Reads *)

Lemma map_events (rows : list WorkflowEventRow) (d : DB) (evs : list WorkflowEventRecord) : fst (mapM_M toWorkflowEvent rows d) = Ok evs -> map er_row evs = rows.
Proof.
  revert evs. induction rows as [|r rows IH]; intros evs; cbn; [by intros [= <-]|]. unfold mbind, M_bind, toWorkflowEvent, lift, mret, M_ret, mbind, M_bind.
  destruct (decodeJson _ _ _) as [p|]; cbn; [|done]. destruct (mapM_M _ rows d) as [[es|] d'] eqn:E; cbn; [|done]. intros [= <-]. cbn. f_equal. apply IH. done.
Qed.
Lemma stream_listed_rows (d : DB) (id : string) (c : Z) : store_ok d -> db_closed d = false -> -1 <= c ->
  fst (listWorkflowEvents id c 1000 d) = fst (mapM_M toWorkflowEvent (take 1000 (past c (workflow_events_of id d))) d).
Proof.
  intros Hok Hop Hc. assert (Hn := log_numbered d id Hok). unfold listWorkflowEvents, opened, check, gets, mbind, M_bind. rewrite Hop. cbn [negb mret M_ret throw].
  rewrite (filter_past _ 0 c Hn), Z.sub_0_r. unfold event_order. fold (past c (workflow_events_of id d)).
  by rewrite (sort_numbered we_sequence _ (0 + Z.of_nat (Z.to_nat (c + 1)))) by by apply numbered_drop.
Qed.
Lemma listed_events (d : DB) (id : string) (c : Z) (evs : list WorkflowEventRecord) : store_ok d -> -1 <= c -> fst (listWorkflowEvents id c 1000 d) = Ok evs ->
  map er_row evs = take 1000 (past c (workflow_events_of id d)).
Proof.
  intros Hok Hc H. destruct (db_closed d) eqn:Hop.
  - unfold listWorkflowEvents, opened, check, gets, mbind, M_bind in H. by rewrite Hop in H.
  - rewrite stream_listed_rows in H by done. by apply map_events in H.
Qed.


Lemma past_grows (c : Z) (l l' : list WorkflowEventRow) : l `prefix_of` l' -> past c l `prefix_of` past c l'.
Proof. intros [k ->]. unfold past. rewrite drop_app. by eexists. Qed.

(** ** Sending *)

Section Stream.
Context (throws : nat -> bool) (id : string).

Lemma write_sends (f : Frame) (s s' : Stream) : write throws f s = Some s' ->
  delivered s' = delivered s ++ match f with Event e => [e] | _ => [] end /\ sm_cursor s' = sm_cursor s /\ sm_closed s' = sm_closed s.
Proof. unfold write. case_match; [done|]. intros [= <-]. unfold delivered. cbn. rewrite flat_map_app. cbn. by rewrite app_nil_r. Qed.

Definition ends_stream (e : WorkflowEventRecord) : bool := we_event_type (er_row e) ∈b STREAM_END_EVENTS.

(** A prefix of the events is delivered and the cursor is on its last; all of them unless a write throws, which closes the stream. *)
Lemma send_events_sends (evs : list WorkflowEventRecord) (b : bool) (s s' : Stream) (r : option bool) :
  numbered_from (sm_cursor s + 1) (map er_row evs) -> send_events throws evs b s = (r, s') ->
  exists k, (k <= List.length evs)%nat /\ delivered s' = delivered s ++ take k evs /\ sm_cursor s' = sm_cursor s + Z.of_nat k
    /\ match r with Some b' => k = List.length evs /\ b' = b || existsb ends_stream evs /\ sm_closed s' = sm_closed s | None => sm_closed s' = true /\ exists n, throws n = true end.
Proof.
  revert b s. induction evs as [|e evs IH]; intros b s Hn; cbn [send_events].
  - intros [= <- <-]. exists 0%nat. cbn. rewrite app_nil_r, orb_false_r. repeat split; lia.
  - cbn [map] in Hn. apply numbered_cons in Hn as [He Hn]. destruct (write throws (Event e) s) as [s1|] eqn:W.
    + destruct (write_sends _ _ _ W) as (Hd & Hc & Hcl). intros H. apply IH in H as (k & Hk & Hd' & Hc' & Hr); [|cbn; by rewrite He].
      exists (S k). cbn [List.length take existsb]. split; [lia|]. split; [|split].
      * rewrite Hd'. change (delivered (at_cursor _ s1)) with (delivered s1). by rewrite Hd, <- app_assoc.
      * rewrite Hc'. cbn. lia.
      * destruct r; [|done]. destruct Hr as (-> & -> & Hcl'). cbn in Hcl'. rewrite Hcl', orb_assoc. done.
    + intros [= <- <-]. exists 0%nat. cbn. unfold write in W. rewrite app_nil_r, Z.add_0_r. repeat split; [lia|]. case_match; [eauto|done].
Qed.

(** ** What a stream has sent *)

Definition exact (c : Z) (log : list WorkflowEventRow) (s : Stream) : Prop :=
  map er_row (delivered s) `prefix_of` past c log /\ sm_cursor s = c + Z.of_nat (List.length (delivered s)).

Lemma exact_grows (c : Z) (l l' : list WorkflowEventRow) (s : Stream) : l `prefix_of` l' -> exact c l s -> exact c l' s.
Proof. intros Hl [Hp Hc]. split; [|done]. etransitivity; [exact Hp|]. by apply past_grows. Qed.
Lemma exact_same (c : Z) (l : list WorkflowEventRow) (s s' : Stream) : delivered s' = delivered s -> sm_cursor s' = sm_cursor s -> exact c l s -> exact c l s'.
Proof. unfold exact. by intros -> ->. Qed.

(** What is past the cursor of a stream is what is left to deliver. *)
Lemma exact_left (c : Z) (l : list WorkflowEventRow) (s : Stream) : -1 <= c -> exact c l s -> past c l = map er_row (delivered s) ++ past (sm_cursor s) l.
Proof.
  intros Hc [[k Hk] Hs]. rewrite Hs. unfold past in *. replace (Z.to_nat (c + Z.of_nat (List.length (delivered s)) + 1)) with (Z.to_nat (c + 1) + List.length (map er_row (delivered s)))%nat by (rewrite length_map; lia).
  by rewrite <- drop_drop, Hk, drop_app_length.
Qed.

(** Why a stream was closed by the server: the workflow has ended and nothing of its log is left. *)
Definition ended (rec : option WorkflowRecord) (s : Stream) : Prop :=
  exists w, rec = Some w /\ (existsb ends_stream (delivered s) || (w_status (wf_row w) ∈b WF_TERMINAL)) = true /\ w_last_event_sequence (wf_row w) <= sm_cursor s.
Definition never_throws : Prop := forall n, throws n = false.

Section Tick.
Context (c : Z) (log : list WorkflowEventRow) (Hc : -1 <= c) (Hn : numbered_from 0 log).

Lemma finish_sends (rec : option WorkflowRecord) (b : bool) (s : Stream) : delivered (finish rec b s) = delivered s /\ sm_cursor (finish rec b s) = sm_cursor s
  /\ (sm_closed s = false -> sm_closed (finish rec b s) = true -> exists w, rec = Some w /\ (b || (w_status (wf_row w) ∈b WF_TERMINAL)) = true /\ w_last_event_sequence (wf_row w) <= sm_cursor s).
Proof.
  unfold finish. destruct rec as [w|]; [|by repeat split; [..|congruence]]. destruct (_ && _) eqn:E; [|by repeat split; [..|congruence]].
  repeat split. intros _ _. bsimpl. exists w. repeat split; [done|lia].
Qed.
Lemma publish_sends (evs : list WorkflowEventRecord) (rec : option WorkflowRecord) (s : Stream) :
  map er_row evs = take 1000 (past (sm_cursor s) log) -> exact c log s ->
  exact c log (publish throws evs rec s)
  /\ (never_throws -> sm_closed s = false -> map er_row (delivered (publish throws evs rec s)) = take (List.length (delivered s) + 1000) (past c log)
      /\ (sm_closed (publish throws evs rec s) = true -> ended rec (publish throws evs rec s))).
Proof.
  intros Hev Hs. assert (Hleft := exact_left c log s Hc Hs). destruct Hs as [_ Hcur]. assert (Hnum : numbered_from (sm_cursor s + 1) (map er_row evs)).
  { rewrite Hev. apply numbered_take. replace (sm_cursor s + 1) with (0 + Z.of_nat (Z.to_nat (sm_cursor s + 1))) by lia. by apply numbered_drop. }
  unfold publish. destruct (send_events throws evs false s) as [r s'] eqn:E. destruct (send_events_sends _ _ _ _ _ Hnum E) as (k & Hk & Hd & Hc' & Hr).
  assert (Hex : exact c log s').
  { split; [|rewrite Hc', Hd, length_app, length_take; lia]. rewrite Hd, map_app, Hleft. apply prefix_app. rewrite <- firstn_map, Hev, take_take. apply prefix_take. }
  destruct r as [b|]; [|destruct Hr as (_ & n & Ht); split; [done|]; intros H; congruence].
  destruct (finish_sends rec b s') as (Hd2 & Hc2 & Hf). split; [by apply (exact_same _ _ s')|]. destruct Hr as (-> & -> & Hcl). intros _ Hopen. rewrite Hd2. split.
  - rewrite Hd, take_ge, map_app, Hleft, Hev by done. rewrite <- (length_map er_row (delivered s)), take_app_add. done.
  - intros Hx. rewrite Hcl in Hf. destruct (Hf Hopen Hx) as (w & -> & Hw & Hle). exists w. rewrite Hd2, Hc2. repeat split; [|done].
    rewrite Hd, take_ge, existsb_app by done. rewrite orb_false_l in Hw. by rewrite <- orb_assoc, Hw, orb_true_r.
Qed.
Lemma tick_sends (d1 d2 : DB) (s : Stream) : log = workflow_events_of id d1 -> store_ok d1 -> exact c log s ->
  exact c log (tick throws id d1 d2 s)
  /\ (never_throws -> sm_closed s = false -> forall evs rec, fst (listWorkflowEvents id (sm_cursor s) 1000 d1) = Ok evs -> fst (getWorkflow id d2) = Ok rec ->
      map er_row (delivered (tick throws id d1 d2 s)) = take (List.length (delivered s) + 1000) (past c log)
      /\ (sm_closed (tick throws id d1 d2 s) = true -> ended rec (tick throws id d1 d2 s))).
Proof.
  intros Hlog Hok Hs. unfold tick. destruct (sm_closed s) eqn:Hop; [done|]. destruct (fst (listWorkflowEvents id _ 1000 d1)) as [evs|] eqn:El; [|by split; [|intros; congruence]].
  destruct (fst (getWorkflow id d2)) as [rec|] eqn:Eg; [|by split; [|intros; congruence]].
  assert (Hev : map er_row evs = take 1000 (past (sm_cursor s) log)) by (rewrite Hlog; apply (listed_events _ _ _ _ Hok); [destruct Hs; lia|done]).
  destruct (truncated rec s) as [n|].
  - destruct (write throws (Truncated n) (warned s)) as [s'|] eqn:W.
    + destruct (write_sends _ _ _ W) as (Hd & Hc' & Hcl). change (delivered (warned s)) with (delivered s) in Hd. cbn in Hc', Hcl. rewrite app_nil_r in Hd.
      rewrite <- Hc' in Hev. destruct (publish_sends evs rec s' Hev) as [Hex Hp]; [by apply (exact_same _ _ s)|]. split; [done|].
      intros Ht _ evs' rec' _ [= <-]. rewrite <- Hd. apply Hp; congruence.
    + split; [by apply (exact_same _ _ s)|]. intros Ht. unfold write in W. by rewrite Ht in W.
  - destruct (publish_sends evs rec s Hev Hs) as [Hex Hp]. split; [done|]. intros Ht _ evs' rec' _ [= <-]. by apply Hp.
Qed.

(** With the workflow at its end, a tick that reaches the end of the log closes the stream. *)
Lemma publish_closes (evs : list WorkflowEventRecord) (w : WorkflowRecord) (s : Stream) : never_throws -> (w_status (wf_row w) ∈b WF_TERMINAL) = true ->
  w_last_event_sequence (wf_row w) <= sm_cursor (publish throws evs (Some w) s) -> sm_closed (publish throws evs (Some w) s) = true.
Proof.
  intros Ht Hw. unfold publish. assert (Hall : forall b s, exists b' s', send_events throws evs b s = (Some b', s')).
  { induction evs as [|e es IH]; intros b s1; cbn [send_events]; [eauto|]. unfold write. rewrite Ht. apply IH. }
  destruct (Hall false s) as (b & s' & ->). destruct (finish_sends (Some w) b s') as (_ & -> & _). unfold finish. rewrite Hw, orb_true_r. cbn [andb]. intros Hle.
  by rewrite (proj2 (Z.leb_le _ _) Hle).
Qed.
Lemma tick_closes (d1 d2 : DB) (s : Stream) (evs : list WorkflowEventRecord) (w : WorkflowRecord) : never_throws -> (w_status (wf_row w) ∈b WF_TERMINAL) = true ->
  fst (listWorkflowEvents id (sm_cursor s) 1000 d1) = Ok evs -> fst (getWorkflow id d2) = Ok (Some w) ->
  w_last_event_sequence (wf_row w) <= sm_cursor (tick throws id d1 d2 s) -> sm_closed (tick throws id d1 d2 s) = true.
Proof.
  intros Ht Hw He Hg. unfold tick. destruct (sm_closed s) eqn:Hop; [done|]. rewrite He, Hg.
  destruct (truncated (Some w) s) as [n|]; [|by apply publish_closes]. unfold write. rewrite Ht. by apply publish_closes.
Qed.
End Tick.

(** ** Runs *)

Definition tail_of (header : option string) (d : DB) : list WorkflowEventRow := past (parseWorkflowCursor header) (workflow_events_of id d).

Lemma heartbeat_exact (c : Z) (l : list WorkflowEventRow) (s : Stream) : exact c l s -> exact c l (heartbeat throws s).
Proof.
  unfold heartbeat. destruct (sm_closed s); [done|]. destruct (write throws KeepAlive s) as [s'|] eqn:W; [|by apply (exact_same _ _ s)].
  destruct (write_sends _ _ _ W) as (Hd & Hc & _). rewrite app_nil_r in Hd. by apply (exact_same _ _ s).
Qed.
Lemma stream_step_exact (c : Z) (p q : DB * Stream) : -1 <= c -> store_ok (fst p) -> exact c (workflow_events_of id (fst p)) (snd p) -> stream_step throws id p q ->
  store_ok (fst q) /\ exact c (workflow_events_of id (fst q)) (snd q).
Proof.
  intros Hc Hok Hex Hst. destruct Hst as [d d' s Hst|d d' s Hst|d s|d s]; cbn [fst snd] in *.
  - assert (Hr : rtc store_step d d') by by apply rtc_once. split; [by apply (store_ok_run _ _ Hr)|]. eapply exact_grows; [by apply log_grows|done].
  - split; [by apply (store_ok_run _ _ Hst)|]. eapply exact_grows; [by apply log_grows|]. by apply tick_sends; [..|apply log_numbered| | |].
  - split; [done|]. by apply heartbeat_exact.
  - split; [done|]. by apply (exact_same _ _ s).
Qed.
Lemma stream_run_exact (header : option string) (d0 d : DB) (s : Stream) : rtc store_step empty_db d0 -> rtc (stream_step throws id) (d0, start header) (d, s) ->
  store_ok d /\ exact (parseWorkflowCursor header) (workflow_events_of id d) s.
Proof.
  intros H0 Hrun. assert (Hok := store_ok_run _ _ H0 store_ok_empty). assert (Hc := cursor_bound header).
  assert (Hst : store_ok (fst (d0, start header)) /\ exact (parseWorkflowCursor header) (workflow_events_of id (fst (d0, start header))) (snd (d0, start header))).
  { split; [done|]. split; cbn; [apply prefix_nil|lia]. }
  change (store_ok (fst (d, s)) /\ exact (parseWorkflowCursor header) (workflow_events_of id (fst (d, s))) (snd (d, s))).
  induction Hrun as [|p q r Hpq _ IH]; [done|]. apply IH. destruct Hst. by apply (stream_step_exact _ p).
Qed.

Lemma stream_run_store (p q : DB * Stream) : rtc (stream_step throws id) p q -> rtc store_step (fst p) (fst q).
Proof.
  induction 1 as [|p q r Hpq _ IH]; [done|]. etransitivity; [|exact IH]. destruct Hpq; cbn [fst]; [by apply rtc_once|done..].
Qed.

(** A stream whose workflow ended has sent the whole tail. *)
Lemma ended_all (header : option string) (d : DB) (rec : option WorkflowRecord) (s : Stream) : store_ok d -> fst (getWorkflow id d) = Ok rec -> ended rec s ->
  exact (parseWorkflowCursor header) (workflow_events_of id d) s -> map er_row (delivered s) = tail_of header d.
Proof.
  intros Hok Hg (w & -> & _ & Hle) [[k Hk] Hcur]. apply getWorkflow_reads in Hg as Hrow.
  rewrite (log_last _ _ _ Hok Hrow) in Hle. unfold tail_of. rewrite Hk.
  assert (Hlen := f_equal List.length Hk). unfold past in Hlen. rewrite length_drop, length_app, length_map in Hlen. assert (Hc := cursor_bound header).
  destruct k; [by rewrite app_nil_r|]. cbn in Hlen. lia.
Qed.

(** On a store at rest every tick delivers a thousand events more, and the one that reaches the end closes the stream. *)
Definition readable (d : DB) : Prop := forall c, -1 <= c -> exists evs, fst (listWorkflowEvents id c 1000 d) = Ok evs.
Lemma readable_log (d : DB) : store_ok d -> db_closed d = false -> forallb (fun r => is_ok (fst (toWorkflowEvent r d))) (workflow_events_of id d) = true -> readable d.
Proof.
  intros Hok Hop Hall c Hc. rewrite forallb_forall, <- List.Forall_forall in Hall. rewrite (stream_listed_rows d id c Hok Hop Hc).
  assert (Hall' : Forall (fun r => is_ok (fst (toWorkflowEvent r d)) = true) (take 1000 (past c (workflow_events_of id d)))) by by apply Forall_take, Forall_drop.
  revert Hall'. generalize (take 1000 (past c (workflow_events_of id d))). intros rows. induction rows as [|r rows IH]; intros Hall'; [by eexists|].
  inversion Hall' as [|? ? He Hrows]; subst. destruct (IH Hrows) as [es Hes]. cbn. unfold mbind, M_bind.
  assert (Hpure : snd (toWorkflowEvent r d) = d) by (unfold toWorkflowEvent, lift, mbind, M_bind; by destruct (decodeJson _ _ _)).
  destruct (toWorkflowEvent r d) as [[e|] d1]; [|done]. cbn in *. subst d1. destruct (mapM_M _ rows d) as [[es'|] d2]; simplify_eq/=. by eexists.
Qed.
Lemma tick_closed (d1 d2 : DB) (s : Stream) (n : nat) : sm_closed s = true -> Nat.iter n (tick throws id d1 d2) s = s.
Proof. intros H. induction n as [|n IH]; [done|]. rewrite Nat.iter_succ, IH. unfold tick. by rewrite H. Qed.
Lemma stream_drains (header : option string) (d : DB) (w : WorkflowRecord) (n : nat) (s : Stream) :
  store_ok d -> exact (parseWorkflowCursor header) (workflow_events_of id d) s -> sm_closed s = false -> never_throws -> readable d ->
  fst (getWorkflow id d) = Ok (Some w) -> (w_status (wf_row w) ∈b WF_TERMINAL) = true -> (List.length (tail_of header d) <= List.length (delivered s) + 1000 * n)%nat -> (0 < n)%nat ->
  sm_closed (Nat.iter n (tick throws id d d) s) = true /\ map er_row (delivered (Nat.iter n (tick throws id d d) s)) = tail_of header d.
Proof.
  intros Hok Hex Hop Ht Hr Hg Hw. revert s Hex Hop. induction n as [|n IH]; intros s Hex Hop Hlen Hn; [lia|]. rewrite Nat.iter_succ_r.
  assert (Hc := cursor_bound header).
  destruct (Hr (sm_cursor s)) as [evs He]; [destruct Hex; lia|].
  destruct (tick_sends _ _ Hc (log_numbered d id Hok) d d s eq_refl Hok Hex) as [Hex' Hp]. destruct (Hp Ht Hop _ _ He Hg) as [Hd Hend].
  destruct (sm_closed (tick throws id d d s)) eqn:Hcl.
  { rewrite tick_closed by done. split; [done|]. apply (ended_all header d (Some w)); auto. }
  assert (Hmore : (List.length (delivered s) + 1000 < List.length (tail_of header d))%nat).
  { apply Nat.nle_gt. intros Hle. fold (tail_of header d) in Hd. rewrite take_ge in Hd by done. apply not_true_iff_false in Hcl. apply Hcl.
    apply (tick_closes d d s evs w); try done. apply getWorkflow_reads in Hg. rewrite (log_last _ _ _ Hok Hg). destruct Hex' as [_ ->].
    apply (f_equal List.length) in Hd. rewrite length_map in Hd. rewrite Hd. unfold tail_of, past. rewrite length_drop. lia. }
  assert (Hd2 := f_equal List.length Hd). rewrite length_map, length_take in Hd2. fold (tail_of header d) in Hd2. apply IH; try done; lia.
Qed.
End Stream.

(** C4. A workflow's event stream delivers exactly a tail of its durable log.  Whatever users of the store do in between, however the ticks, heartbeats,
    disconnects and failing writes are ordered and whatever cursor the client sent, the events delivered are a prefix of the events past the cursor, in
    order, none missing and none twice.  A tick of an open stream whose reads and writes succeed delivers the next thousand of them; if it closes the
    stream, the whole log at the time of its second read has been delivered and the workflow has ended.  Once the workflow has ended and its log is at
    rest, one tick for every thousand events left (and at least one) delivers all of them and closes the stream. *)
Theorem workflow_stream_exact (throws : nat -> bool) (id : string) (header : option string) (d0 d : DB) (s : Stream) :
  rtc store_step empty_db d0 -> rtc (stream_step throws id) (d0, start header) (d, s) ->
  map er_row (delivered s) `prefix_of` tail_of id header d
  /\ (never_throws throws -> sm_closed s = false ->
      (forall d' evs rec, rtc store_step d d' -> fst (listWorkflowEvents id (sm_cursor s) 1000 d) = Ok evs -> fst (getWorkflow id d') = Ok rec ->
        map er_row (delivered (tick throws id d d' s)) = take (List.length (delivered s) + 1000) (tail_of id header d)
        /\ (sm_closed (tick throws id d d' s) = true -> map er_row (delivered (tick throws id d d' s)) = tail_of id header d' /\ ended rec (tick throws id d d' s)))
      /\ (forall w n, readable id d -> fst (getWorkflow id d) = Ok (Some w) -> (w_status (wf_row w) ∈b WF_TERMINAL) = true ->
          (List.length (tail_of id header d) <= List.length (delivered s) + 1000 * n)%nat -> (0 < n)%nat ->
          sm_closed (Nat.iter n (tick throws id d d) s) = true /\ map er_row (delivered (Nat.iter n (tick throws id d d) s)) = tail_of id header d)).
Proof.
  intros H0 Hrun. destruct (stream_run_exact _ _ _ _ _ _ H0 Hrun) as [Hok Hex]. split; [exact (proj1 Hex)|]. intros Ht Hop. split.
  - intros d' evs rec Hd He Hg. assert (Hc := cursor_bound header). destruct (tick_sends throws id _ _ Hc (log_numbered d id Hok) d d' s eq_refl Hok Hex) as [Hex' Hp].
    destruct (Hp Ht Hop _ _ He Hg) as [Hs Hend]. split; [exact Hs|]. intros Hcl. split; [|auto]. apply (ended_all id header d' rec); auto.
    + by apply (store_ok_run _ _ Hd).
    + eapply exact_grows; [by apply log_grows|exact Hex'].
  - intros w n Hr Hg Hw Hlen Hn. by eapply stream_drains.
Qed.

(** A client that saw the events up to 1 reconnects; the workflow blocks; the next tick delivers the rest and closes the stream. *)
Module Demo.
Definition db6 : DB := snd (terminalizeWorkflow StoreInv.Demo.T "wf" "blocked" None (StoreInv.Demo.draft "workflow.blocked" None) StoreInv.Demo.db5).
Definition reliable (n : nat) : bool := false.
Definition seen : Stream := tick reliable "wf" StoreInv.Demo.db5 db6 (start (Some "1")).
Lemma db6_step : rtc store_step StoreInv.Demo.db5 db6.
Proof. apply rtc_once, do_terminalizeWorkflow. Qed.
Lemma db6_readable : readable "wf" db6.
Proof.
  apply readable_log; [|by vm_compute|by vm_compute].
  eapply store_ok_run; [|apply store_ok_empty]. etransitivity; [apply StoreInv.Demo.db5_reachable|apply db6_step].
Qed.
Lemma seen_run : rtc (stream_step reliable "wf") (StoreInv.Demo.db5, start (Some "1")) (db6, seen).
Proof. apply rtc_once, stream_tick, db6_step. Qed.
End Demo.

Lemma workflow_stream_exact_witness : sm_closed (tick Demo.reliable "wf" Demo.db6 Demo.db6 Demo.seen) = true
  /\ map (fun e => we_sequence (er_row e)) (delivered (tick Demo.reliable "wf" Demo.db6 Demo.db6 Demo.seen)) = [2; 3; 4; 5].
Proof.
  destruct (workflow_stream_exact Demo.reliable "wf" (Some "1") StoreInv.Demo.db5 Demo.db6 Demo.seen StoreInv.Demo.db5_reachable Demo.seen_run) as [_ H].
  destruct (H (fun _ => eq_refl) ltac:(vm_compute; reflexivity)) as [_ Hdrain].
  assert (Hw : exists w, fst (getWorkflow "wf" Demo.db6) = Ok (Some w) /\ (w_status (wf_row w) ∈b WF_TERMINAL) = true) by (eexists; split; vm_compute; reflexivity).
  destruct Hw as (w & Hw & Ht). destruct (Hdrain w 1%nat Demo.db6_readable Hw Ht) as [Hc Hd]; [vm_compute; lia|lia|]. split; [exact Hc|].
  rewrite <- (map_map er_row we_sequence). change (Nat.iter 1 (tick Demo.reliable "wf" Demo.db6 Demo.db6) Demo.seen) with (tick Demo.reliable "wf" Demo.db6 Demo.db6 Demo.seen) in Hd. rewrite Hd. vm_compute. reflexivity.
Defined.
