(* ===== verification/WorkflowApi.v ===== *)
(** * The workflow REST API (src/workflow/api-contract.ts, src/workflow/api.ts)

    Request bodies, list queries, projections of durable records, error envelopes, and the
    controllers over the runtime.  A store read outside a [try] that throws is an error of
    the controller.  Messages for people and the details of a thrown error (its issues or
    the name of an input) are left out. *)

From S2P Require Import Prelude Machine Values Json Contract Conditions Verification Validator Outputs StoreRows Store StoreOps StoreProps StoreInv StoreRun RuntimeEnv Runtime TaskContract EventStream.

(** ** Errors *)

Inductive WorkflowApiErrorCode : Type :=
  | invalid_request | workflow_not_found | human_request_not_found | invalid_workflow_spec | invalid_workflow_inputs | workflow_state_conflict
  | workspace_lease_conflict | workspace_lease_pending | workspace_lease_unsupported | workspace_lease_unavailable
  | workflow_storage_failure | workflow_runtime_unavailable | internal_error.
Definition api_code (c : WorkflowApiErrorCode) : string :=
  match c with
  | invalid_request => "invalid_request" | workflow_not_found => "workflow_not_found" | human_request_not_found => "human_request_not_found"
  | invalid_workflow_spec => "invalid_workflow_spec" | invalid_workflow_inputs => "invalid_workflow_inputs" | workflow_state_conflict => "workflow_state_conflict"
  | workspace_lease_conflict => "workspace_lease_conflict" | workspace_lease_pending => "workspace_lease_pending"
  | workspace_lease_unsupported => "workspace_lease_unsupported" | workspace_lease_unavailable => "workspace_lease_unavailable"
  | workflow_storage_failure => "workflow_storage_failure" | workflow_runtime_unavailable => "workflow_runtime_unavailable" | internal_error => "internal_error"
  end.
Definition RETRYABLE (c : WorkflowApiErrorCode) : bool :=
  match c with
  | workspace_lease_pending | workspace_lease_unavailable | workflow_storage_failure | workflow_runtime_unavailable | internal_error => true
  | _ => false
  end.
Definition workflowErrorHttpStatus (c : WorkflowApiErrorCode) : Z :=
  match c with
  | invalid_request | invalid_workflow_spec | invalid_workflow_inputs => 400
  | workflow_not_found | human_request_not_found => 404
  | workflow_state_conflict | workspace_lease_conflict => 409
  | workspace_lease_pending | workspace_lease_unavailable | workflow_runtime_unavailable => 503
  | workspace_lease_unsupported => 422
  | workflow_storage_failure | internal_error => 500
  end.

(** An error before the time is stamped on it: its code and details. *)
Definition ApiError : Type := WorkflowApiErrorCode * list (string * value).
Definition workflowApiError (e : ApiError) (ts : string) : value :=
  VObj ([("error", VBool true); ("code", VStr (api_code (fst e))); ("retryable", VBool (RETRYABLE (fst e))); ("ts", VStr ts)]
        ++ match snd e with [] => [] | d => [("details", VObj d)] end).

Definition runtime_error_code (code : string) : WorkflowApiErrorCode :=
  if code =s "invalid_spec" then invalid_workflow_spec
  else if code =s "completion_policy_required" then invalid_workflow_spec
  else if code =s "invalid_input_values" then invalid_workflow_inputs
  else if code =s "invalid_transition" then workflow_state_conflict
  else if code =s "workspace_lease_conflict" then workspace_lease_conflict
  else if code =s "workspace_lease_pending" then workspace_lease_pending
  else if code =s "workspace_lease_unsupported" then workspace_lease_unsupported
  else if code =s "workspace_lease_unavailable" then workspace_lease_unavailable
  else if code =s "workspace_node_ambiguous" then invalid_workflow_spec
  else internal_error.
(** A violated constraint of the schema and a TypeError are not ControlStoreErrors. *)
Definition store_error_code (e : ControlStoreErrorCode) : WorkflowApiErrorCode :=
  match e with
  | not_found => workflow_not_found
  | invalid_transition | revision_conflict => workflow_state_conflict
  | sqlite_constraint | type_error => internal_error
  | _ => workflow_storage_failure
  end.
Definition mapThrownError (e : rt_error) : WorkflowApiErrorCode :=
  match e with RRuntime code => runtime_error_code code | RStore c => store_error_code c | _ => internal_error end.

(** ** Requests *)

Definition only_keys (allowed : list string) (b : value) : bool := forallb (fun kv => fst kv ∈b allowed) (entries b).
Definition bad : ApiError := (invalid_request, []).

Definition parseCreateWorkflowBody (body : value) : result ApiError (value * value) :=
  if negb (isObj body) then Err bad else
  if negb (isObj (get "spec" body)) then Err bad else
  if negb (is_undef (get "input_values" body)) && negb (isObj (get "input_values" body)) then Err bad else
  if negb (only_keys ["spec"; "input_values"] body) then Err bad else
  Ok (get "spec" body, get "input_values" body).

Definition lower_hex (c : ascii) : bool := is_digit c || is_one_of "abcdef" c.
(** /^hr_[0-9a-f]{32}$/ *)
Definition SAFE_REQUEST_ID_RE (s : string) : bool :=
  starts_with "hr_" s && (String.length s =? 35)%nat && forallb lower_hex (drop 3 (lit s)).
Definition MAX_ANSWER_BYTES : Z := 8192.
Definition safe_request_id (b : value) : bool := match get "request_id" b with VStr s => SAFE_REQUEST_ID_RE s | _ => false end.

Definition parseAnswerBody (body : value) : result ApiError (string * string) :=
  if negb (isObj body) then Err bad else
  if negb (safe_request_id body) then Err bad else
  match get "value" body with
  | VStr v => if (v =s "") || (MAX_ANSWER_BYTES <? byteLen v) then Err bad else
              if negb (only_keys ["request_id"; "value"] body) then Err bad else Ok (str_of (get "request_id" body), v)
  | _ => Err bad
  end.
Definition parseDecisionBody (body : value) : result ApiError (string * bool) :=
  if negb (isObj body) then Err bad else
  if negb (safe_request_id body) then Err bad else
  match get "approved" body with
  | VBool a => if negb (only_keys ["request_id"; "approved"] body) then Err bad else Ok (str_of (get "request_id" body), a)
  | _ => Err bad
  end.

Definition specValidationError (l : issues) : ApiError :=
  (invalid_workflow_spec, [("issues", VArr (map (fun i => VObj ([("code", VStr (vi_code i)); ("severity", VStr "error")]
     ++ match truthy_string (vi_path i) with Some p => [("path", VStr p)] | None => [] end)) (take 25 l)))]).
Definition preflightSpec (spec : value) : option ApiError :=
  let v := validateWorkflowSpec spec in if vr_valid v then None else Some (specValidationError (vr_issues v)).

(** *** Number(s), exactly: beyond 15 significant digits JavaScript rounds *)

Definition radix_digit (c : ascii) : option N :=
  let n := N_of_ascii c in
  if is_digit c then Some (n - 48)%N else if ((97 <=? n) && (n <=? 102))%N then Some (n - 87)%N else if ((65 <=? n) && (n <=? 70))%N then Some (n - 55)%N else None.
Fixpoint radix_val (radix acc : N) (l : chars) : option N :=
  match l with
  | [] => Some acc
  | c :: r => match radix_digit c with Some d => if (d <? radix)%N then radix_val radix (acc * radix + d) r else None | None => None end
  end.
Definition radix_literal (l : chars) : option num :=
  match l with
  | z :: x :: c :: r =>
      if negb (Ascii.eqb z "0") then None else
      let radix := if is_one_of "xX" x then 16%N else if is_one_of "oO" x then 8%N else if is_one_of "bB" x then 2%N else 0%N in
      NInt ∘ Z.of_N <$> radix_val radix 0 (c :: r)
  | _ => None
  end.
(** Digits with an optional point: at least one digit. *)
Definition decimal_literal (neg : bool) (l : chars) : num :=
  if bool_decide (l = lit "Infinity") then NInf neg else
  let (ip, l1) := span_digits l in
  let (f, l2) := match expect "." l1 with Some r => span_digits r | None => ([], l1) end in
  match ip ++ f, parse_exp l2 with
  | _ :: _, Some (x, []) =>
      let m := Z.of_N (digits_val (ip ++ f)) in let e := Z.of_nat (List.length f) - x in
      if 2 ^ 1024 * 10 ^ Z.max 0 e <=? m * 10 ^ Z.max 0 (- e) then NInf neg else mk_dec (S (Z.to_nat e)) (if neg then - m else m) e
  | _, _ => NNaN
  end.
Definition Number (s : string) : num :=
  let l := lit (trim s) in
  match l with
  | [] => NInt 0
  | _ => match radix_literal l with
         | Some n => n
         | None => match expect "-" l, expect "+" l with
                   | Some r, _ => decimal_literal true r
                   | None, Some r => decimal_literal false r
                   | None, None => decimal_literal false l
                   end
         end
  end.

Definition MAX_LIST_LIMIT : Z := 200.
Definition DEFAULT_LIST_LIMIT : Z := 50.
Definition WORKFLOW_STATUSES : list string := ["draft"; "ready"; "running"; "blocked"; "completed"; "failed"; "cancelled"].

(** A query parameter read as an integer of an interval, or its default. *)
Definition int_param (p : string -> option string) (name : string) (dflt lo : Z) (hi : option Z) : result ApiError Z :=
  match p name with
  | None => Ok dflt
  | Some raw => match Number raw with
                | NInt n => if (n <? lo) || match hi with Some h => h <? n | None => false end then Err bad else Ok n
                | _ => Err bad
                end
  end.
Record ListQuery : Type := { lq_status : option string; lq_limit : Z; lq_offset : Z }.
Definition parseListQuery (search : string -> option string) : result ApiError ListQuery :=
  if match search "status" with Some s => negb (s ∈b WORKFLOW_STATUSES) | None => false end then Err bad else
  try! limit := int_param search "limit" DEFAULT_LIST_LIMIT 1 (Some MAX_LIST_LIMIT) in
  try! offset := int_param search "offset" 0 0 None in
  Ok {| lq_status := search "status"; lq_limit := limit; lq_offset := offset |}.

(** ** Projections *)

Definition toWorkflowSummary (w : WorkflowRecord) : list (string * value) :=
  let r := wf_row w in
  [ ("workflow_id", VStr (w_workflow_id r)); ("name", VStr (w_workflow_name r)); ("status", VStr (w_status r)); ("current_step_id", or_null (w_current_step_id r));
    ("current_round", zval (w_current_round r)); ("total_tasks", zval (w_total_tasks r)); ("total_failures", zval (w_total_failures r));
    ("created_at", VStr (w_created_at r)); ("started_at", or_null (w_started_at r)); ("updated_at", VStr (w_updated_at r)); ("terminal_at", or_null (w_terminal_at r));
    ("cancel_requested", VBool (w_cancel_requested r)) ].

Definition string_or_null (v : value) : value := match v with VStr s => VStr s | _ => VNull end.
Definition toRevisionView (rev : value) : value :=
  match get "state_hash" rev, get "revision_kind" rev with
  | VStr h, VStr k =>
      VObj ([("revision_kind", VStr k); ("state_hash", VStr h)]
            ++ (if k =s "git" then (if isBool (get "dirty" rev) then [("dirty", get "dirty" rev)] else []) ++ [("head_commit", string_or_null (get "head_commit" rev))] else [])
            ++ (if isStr (get "observed_at" rev) then [("observed_at", get "observed_at" rev)] else []))
  | _, _ => VNull
  end.
Definition toWorkspaceLeaseView (l : LeaseRecord) : value :=
  let r := lr_row l in
  VObj [ ("workspace_lease_id", VStr (l_workspace_lease_id r)); ("node_id", VStr (l_node_id r)); ("workspace_key", VStr (l_workspace_key r)); ("status", VStr (l_status r));
         ("acquire_reason", or_null (l_acquire_reason r)); ("base_revision", toRevisionView (lr_base_revision l)); ("current_revision", toRevisionView (lr_current_revision l));
         ("acquired_at", or_null (l_acquired_at r)); ("release_requested_at", or_null (l_release_requested_at r)); ("released_at", or_null (l_released_at r)) ].
Definition toStepExecutionView (s : StepExecutionRecord) : value :=
  let r := st_row s in
  VObj [ ("step_execution_id", VStr (s_step_execution_id r)); ("step_id", VStr (s_step_id r)); ("round", zval (s_round r)); ("attempt", zval (s_attempt r));
         ("status", VStr (s_status r)); ("task_id", or_null (s_task_id r)); ("output", st_output s); ("error", st_error s);
         ("revision_before", toRevisionView (st_revision_before s)); ("revision_after", toRevisionView (st_revision_after s)); ("created_at", VStr (s_created_at r));
         ("started_at", or_null (s_started_at r)); ("updated_at", VStr (s_updated_at r)); ("terminal_at", or_null (s_terminal_at r)) ].
Definition toHumanRequestView (q : HumanRecord) : value :=
  let r := hr_row q in
  VObj [ ("request_id", VStr (h_request_id r)); ("workflow_id", VStr (h_workflow_id r)); ("step_execution_id", VStr (h_step_execution_id r)); ("kind", VStr (h_kind r));
         ("prompt", VStr (h_prompt r)); ("choices", hr_choices q); ("status", VStr (h_status r)); ("response_value", or_null (h_response_value r));
         ("created_at", VStr (h_created_at r)); ("responded_at", or_null (h_responded_at r)) ].

Definition is_current (r : WorkflowRow) (s : StepExecutionRecord) : bool := opt_is (w_current_step_id r) (s_step_id (st_row s)) && (s_round (st_row s) =? w_current_round r).
Definition toWorkflowSnapshotView (record : WorkflowRecord) (context : value) (contextRevision : Z) (steps : list StepExecutionRecord) (reason : option string)
    (leases : list LeaseRecord) (completionVerification : value) : value :=
  let r := wf_row record in
  let task := currentStep ← List.find (is_current r) steps; t ← truthy_string (s_task_id (st_row currentStep)); Some (currentStep, t) in
  VObj (toWorkflowSummary record
    ++ [ ("description", match get "description" (wf_spec record) with VStr d => VStr d | _ => VUndef end); ("spec", wf_spec record); ("input_values", wf_input_values record);
         ("context", context); ("context_revision", zval contextRevision); ("step_executions", VArr (map toStepExecutionView steps));
         ("current_task", match task with Some (s, t) => VObj [("task_id", VStr t); ("step_execution_id", VStr (s_step_execution_id (st_row s)))] | None => VUndef end);
         ("workspace_leases", VArr (map toWorkspaceLeaseView leases)); ("release_pending", VBool (existsb (fun l => l_status (lr_row l) =s "release_requested") leases));
         ("completion_verification", completionVerification);
         ("history", VObj [("complete", VBool (w_earliest_retained_sequence r =? 0)); ("earliest_retained_sequence", zval (w_earliest_retained_sequence r))]) ]
    ++ match truthy_string reason with Some x => [("reason", VStr x)] | None => [] end).

Definition completed_mark (p : value) : value := if strict_eq (get "verified" p) (VBool true) then VStr "verified" else VStr "legacy_unverified".
(** The loops run from the last event back. *)
Definition completionVerificationFromEvents (events : list WorkflowEventRecord) : value :=
  match List.find (fun e => we_event_type (er_row e) =s "workflow.completed") (rev events) with
  | Some e => completed_mark (er_payload e)
  | None => VNull
  end.
Definition payload_reason (p : value) : option string :=
  match get "reason" p, get "limit" p with VStr r, _ => Some r | _, VStr l => Some ("limit_" +:+ l) | _, _ => None end.
Definition reasonFromEvents (events : list WorkflowEventRecord) : option string :=
  match List.find (fun e => we_event_type (er_row e) ∈b ["workflow.failed"; "workflow.blocked"; "workflow.completed"; "workflow.cancelled"]) (rev events) with
  | Some e => if we_event_type (er_row e) ∈b ["workflow.failed"; "workflow.blocked"] then payload_reason (er_payload e) else None
  | None => None
  end.

(** ** Controllers *)

Definition listWorkflows (status : option string) (limit offset : Z) : M (list WorkflowRecord) :=
  opened;; rows ← gets (fun s => map snd (map_to_list (db_workflows s)));
  mapM_M toWorkflow (take (clampLimit (Some limit)) (drop (Z.to_nat offset) (sort_by workflow_order
    (List.filter (fun r => match status with Some st => w_status r =s st | None => true end) rows)))).

Record ControllerResult : Type := { cr_status : Z; cr_body : value }.
Definition END_STATES : list string := ["completed"; "failed"; "cancelled"; "blocked"].

Section Controllers.
Context {E : Type} (env : Env E).

Definition ok (status : Z) (body : value) : R E ControllerResult := mret {| cr_status := status; cr_body := body |}.
Definition refuse (e : ApiError) : R E ControllerResult :=
  ts ← iso env; mret {| cr_status := workflowErrorHttpStatus (fst e); cr_body := workflowApiError e ts |}.
(** [try { m } catch (err) { return mapThrownError(err) }]. *)
Definition guarded (m : R E ControllerResult) : R E ControllerResult := try_catch m (fun e => refuse (mapThrownError e, [])).
Definition parsed {A : Type} (r : result ApiError A) (k : A -> R E ControllerResult) : R E ControllerResult :=
  match r with Err e => refuse e | Ok a => k a end.
Definition existing (workflowId : string) (k : WorkflowRecord -> R E ControllerResult) : R E ControllerResult :=
  rec ← read env (getWorkflow workflowId);
  match rec with None => refuse (workflow_not_found, []) | Some w => k w end.

Definition buildSnapshotView (workflowId : string) : R E (option value) :=
  snap ← read env (getWorkflowSnapshot workflowId);
  match snap with
  | None => mret None
  | Some (rec, context, revision) =>
      steps ← read env (listStepExecutions workflowId);
      let status := w_status (wf_row rec) in
      events ← (if status ∈b END_STATES then es ← read env (listWorkflowEvents workflowId (-1) 1000); mret (Some es) else mret None);
      let reason := es ← events; reasonFromEvents es in
      let completion := match events with Some es => if status =s "completed" then completionVerificationFromEvents es else VNull | None => VNull end in
      leases ← read env (listWorkspaceLeaseProjections workflowId);
      mret (Some (toWorkflowSnapshotView rec context revision steps reason leases completion))
  end.
Definition buildSnapshotViewFromRuntime (workflowId : string) : R E value :=
  snap ← read env (getWorkflowSnapshot workflowId);
  match snap with
  | None => mret VNull
  | Some (rec, context, revision) => mret (toWorkflowSnapshotView rec context revision [] None [] VNull)
  end.
Definition snapshot_answer (workflowId : string) : R E ControllerResult := view ← buildSnapshotView workflowId; ok 200 (default VNull view).

Definition listWorkflowsController (search : string -> option string) : R E ControllerResult :=
  parsed (parseListQuery search) (fun q => guarded (
    rows ← read env (listWorkflows (lq_status q) (lq_limit q) (lq_offset q));
    ok 200 (VObj [("workflows", VArr (map (fun r => VObj (toWorkflowSummary r)) rows)); ("limit", zval (lq_limit q)); ("offset", zval (lq_offset q));
                  ("count", zval (Z.of_nat (List.length rows)))]))).
Definition createWorkflowController (body : value) : R E ControllerResult :=
  parsed (parseCreateWorkflowBody body) (fun '(spec, inputs) =>
    match preflightSpec spec with
    | Some e => refuse e
    | None => guarded (r ← Runtime.createWorkflow env spec inputs; view ← buildSnapshotViewFromRuntime (fst r); ok 201 view)
    end).
Definition startWorkflowController (workflowId : string) : R E ControllerResult :=
  existing workflowId (fun rec =>
    if w_status (wf_row rec) =s "blocked" then refuse (workflow_state_conflict, []) else
    guarded (startWorkflow env workflowId;; snapshot_answer workflowId)).
Definition getWorkflowController (workflowId : string) : R E ControllerResult :=
  guarded (view ← buildSnapshotView workflowId; match view with Some v => ok 200 v | None => refuse (workflow_not_found, []) end).
Definition cancelWorkflowController (workflowId : string) : R E ControllerResult :=
  existing workflowId (fun _ => guarded (cancelWorkflow env workflowId;; snapshot_answer workflowId)).

Definition getPendingRequest (workflowId : string) : R E (option HumanRecord) := read env (getPendingHumanRequest workflowId).
Definition getPendingRequestController (workflowId : string) : R E ControllerResult :=
  existing workflowId (fun rec => guarded (
    req ← getPendingRequest workflowId;
    ok 200 (VObj [("workflow_id", VStr workflowId); ("status", VStr (w_status (wf_row rec))); ("request", match req with Some q => toHumanRequestView q | None => VNull end)]))).
Definition requireRequest (workflowId requestId : string) (k : R E ControllerResult) : R E ControllerResult :=
  existing workflowId (fun _ =>
    q ← read env (getHumanRequest requestId);
    match q with
    | Some h => if h_workflow_id (hr_row h) =s workflowId then k else refuse (human_request_not_found, [])
    | None => refuse (human_request_not_found, [])
    end).
Definition answerInputController (workflowId : string) (body : value) : R E ControllerResult :=
  parsed (parseAnswerBody body) (fun '(requestId, val) => requireRequest workflowId requestId (guarded (
    r ← answerInput env requestId val; ok 200 (toHumanRequestView r)))).
Definition decideApprovalController (workflowId : string) (body : value) : R E ControllerResult :=
  parsed (parseDecisionBody body) (fun '(requestId, approved) => requireRequest workflowId requestId (guarded (
    r ← decideApproval env requestId approved; ok 200 (toHumanRequestView r)))).
Definition resumeWorkflowController (workflowId : string) : R E ControllerResult :=
  existing workflowId (fun _ => guarded (resumeWorkflow env workflowId;; snapshot_answer workflowId)).

(** The requests, as the routes dispatch them. *)
Inductive ApiRequest : Type :=
  | ListWorkflows (search : string -> option string) | CreateWorkflow (body : value) | StartWorkflow (id : string) | GetWorkflow (id : string) | CancelWorkflow (id : string)
  | PendingRequest (id : string) | AnswerInput (id : string) (body : value) | DecideApproval (id : string) (body : value) | ResumeWorkflow (id : string).
Definition control (q : ApiRequest) : R E ControllerResult :=
  match q with
  | ListWorkflows search => listWorkflowsController search
  | CreateWorkflow body => createWorkflowController body
  | StartWorkflow id => startWorkflowController id
  | GetWorkflow id => getWorkflowController id
  | CancelWorkflow id => cancelWorkflowController id
  | PendingRequest id => getPendingRequestController id
  | AnswerInput id body => answerInputController id body
  | DecideApproval id body => decideApprovalController id body
  | ResumeWorkflow id => resumeWorkflowController id
  end.
End Controllers.
