(* ===== verification/WorkflowApiProps.v ===== *)
(** * What a request to the workflow API can do

    A request addressed to one workflow leaves every other workflow alone, reads change
    nothing, execution begins only by starting or resuming, and the only requests it sends
    to the Agent Task service cancel tasks of the addressed workflow. *)

From S2P Require Import Prelude Machine Values Json Contract Conditions Templates Verification Validator Outputs ValidatorProps OutputProps StoreRows Store StoreOps StoreProps StoreInv StoreRun StoreOnce RuntimeEnv Runtime RuntimeProps RuntimeDemo RuntimeSafety RuntimeLimits RuntimeCalls RuntimeTurns TaskContract EventStream WorkflowApi.

(** ** Leaving a workflow alone *)

(** Workflow [j], its step executions and its human requests are as before. *)
Record spared (j : string) (d d' : DB) : Prop := {
  sp_workflow : forall r, workflowRow j d = Some r -> workflowRow j d' = Some r;
  sp_steps : forall k s, stepRow k d = Some s -> s_workflow_id s = j -> stepRow k d' = Some s;
  sp_requests : forall k h, humanRow k d = Some h -> h_workflow_id h = j -> humanRow k d' = Some h }.
Definition spares (j : string) : relation DB := spared j.
#[global] Instance spares_preorder (j : string) : PreOrder (spares j).
Proof. split; [by intros d; split|]. intros a b c [] []. split; eauto. Qed.

Section Spares.
Context (j : string).

Lemma spares_same (d d' : DB) : db_workflows d' = db_workflows d -> db_steps d' = db_steps d -> db_human_requests d' = db_human_requests d -> spares j d d'.
Proof. intros E1 E2 E3. split; unfold workflowRow, stepRow, humanRow; rewrite ?E1, ?E2, ?E3; done. Qed.
Lemma spares_modify (f : DB -> DB) :
  (forall d, db_workflows (f d) = db_workflows d /\ db_steps (f d) = db_steps d /\ db_human_requests (f d) = db_human_requests d) -> Preserves (spares j) (modify f).
Proof. intros H d. destruct (H d) as (E1 & E2 & E3). by apply spares_same. Qed.
Lemma spares_workflow (id : string) (f : WorkflowRow -> WorkflowRow) : id <> j -> Preserves (spares j) (update_workflow id f).
Proof. intros Hne d. split; try done. unfold workflowRow. cbn. intros r. by rewrite lookup_alter_ne. Qed.
Lemma spares_step (k : string) (f : StepRow -> StepRow) (d : DB) : (forall s, stepRow k d = Some s -> s_workflow_id s <> j) -> spares j d (set_db_steps (alter f k (db_steps d)) d).
Proof.
  intros H. split; try done. unfold stepRow in *. cbn. intros i s Hs Hj. destruct (decide (k = i)) as [->|Hne]; [by destruct (H s)|]. by rewrite lookup_alter_ne.
Qed.
Lemma spares_human (k : string) (f : HumanRequestRow -> HumanRequestRow) (d : DB) :
  (forall h, humanRow k d = Some h -> h_workflow_id h <> j) -> spares j d (set_db_human_requests (alter f k (db_human_requests d)) d).
Proof.
  intros H. split; try done. unfold humanRow in *. cbn. intros i h Hs Hj. destruct (decide (k = i)) as [->|Hne]; [by destruct (H h)|]. by rewrite lookup_alter_ne.
Qed.
End Spares.
#[local] Hint Extern 5 (Preserves (spares _) (modify _)) => (apply spares_modify; done) : typeclass_instances.
#[local] Hint Extern 5 (Preserves (spares _) (update_workflow _ _)) => (apply spares_workflow; assumption) : typeclass_instances.

Section Leases.
#[local] Hint Constants Opaque : typeclass_instances.
#[global] Instance spares_lease_ops (j : string) : LeaseOps (spares j).
Proof. split; preserve. Qed.

End Leases.

Section Ops.
#[local] Hint Constants Opaque : typeclass_instances.
Context (j id : string) (Hne : id <> j).
#[global] Instance spares_intent (now : string) : Preserves (spares j) (recordCancellationIntent now id).
Proof. preserve. Qed.
#[global] Instance spares_start (now : string) (e : WorkflowEventDraft) : Preserves (spares j) (startWorkflowDurably now id e).
Proof. preserve. Qed.
#[global] Instance spares_resume (now : string) (e : WorkflowEventDraft) : Preserves (spares j) (resumeWorkflowRunning now id e).
Proof. preserve. Qed.
#[global] Instance spares_append (now : string) (e : WorkflowEventDraft) : Preserves (spares j) (appendWorkflowEventAuto now id e).
Proof. preserve. Qed.
#[global] Instance spares_update (now : string) (rev : Z) (p : WorkflowPatch) : Preserves (spares j) (updateWorkflowSync now id rev p).
Proof. preserve. Qed.
End Ops.

(** A new workflow replaces none. *)
Definition same_rows : relation DB := fun d d' => db_steps d' = db_steps d /\ db_human_requests d' = db_human_requests d.
#[global] Instance same_rows_preorder : PreOrder same_rows.
Proof. split; [done|]. intros a b c [E1 E2] [E3 E4]. split; congruence. Qed.
#[local] Hint Extern 5 (Preserves same_rows (modify _)) => (intros ?; done) : typeclass_instances.

Lemma spares_insert (j id : string) (r : WorkflowRow) : id <> j -> Preserves (spares j) (modify (fun d => set_db_workflows (<[id := r]> (db_workflows d)) d)).
Proof. intros Hne d. split; try done. unfold workflowRow. cbn. intros q. by rewrite lookup_insert_ne. Qed.
#[local] Hint Extern 4 (Preserves (spares _) (modify (fun d => set_db_workflows (<[_ := _]> _) d))) => (apply spares_insert; assumption) : typeclass_instances.

Section Create.
#[local] Hint Constants Opaque : typeclass_instances.
#[global] Instance spares_create (j now : string) (i : CreateWorkflowInput) (c : value) (e1 e2 : WorkflowEventDraft) :
  Preserves (spares j) (createWorkflowWithLifecycleEvents now i c e1 e2).
Proof.
  destruct (decide (cw_workflow_id i = j)) as [Ej|Hne]; [|preserve]. intros d.
  assert (Hrows : Preserves same_rows (createWorkflowWithLifecycleEvents now i c e1 e2)) by preserve. destruct (Hrows d) as [E1 E2].
  destruct (workflowRow j d) as [r|] eqn:Er; [|split; unfold stepRow, humanRow; rewrite ?E1, ?E2; try done; congruence].
  destruct (create_workflow_run now i c e1 e2 d) as [-> |[Hn _]]; [reflexivity|congruence].
Qed.
End Create.

(** ** Responses and cancellation touch the rows they are about *)

Lemma opened_transaction (Rel : relation DB) `{!PreOrder Rel} {A : Type} (m : M A) (d : DB) : Rel d (snd (m d)) -> Rel d (snd ((opened;; transaction m) d)).
Proof.
  unfold opened, check, gets, transaction, mbind, M_bind. intros H. destruct (negb (db_closed d)); [|reflexivity]. cbn. destruct (m d) as [[a|e] d']; [exact H|reflexivity].
Qed.

Lemma run_then (Rel : relation DB) `{!PreOrder Rel} {A B : Type} (m : M A) (k : A -> M B) (d : DB) :
  Rel d (snd (m d)) -> (forall a, Preserves Rel (k a)) -> Rel d (snd ((m ≫= k) d)).
Proof. intros Hm Hk. unfold mbind, M_bind. destruct (m d) as [[a|e] d']; [|exact Hm]. etransitivity; [exact Hm|apply Hk]. Qed.

Section Rows.
Context (j : string).
Definition foreign_request (k : string) (d : DB) : Prop := forall h, humanRow k d = Some h -> h_workflow_id h <> j.
Definition foreign_step (k : option string) (d : DB) : Prop := forall i s, k = Some i -> stepRow i d = Some s -> s_workflow_id s <> j.

Lemma spares_answer (now k v : string) (d : DB) : foreign_request k d -> spares j d (snd (answerHumanRequestInput now k v d)).
Proof.
  intros Hf. unfold answerHumanRequestInput. apply (opened_transaction (spares j)). unfold theHuman, update_human. run.
  destruct (h_status a =s "answered"); [apply StoreProps.run_last; [preserve|reflexivity]|]. run. apply StoreProps.run_last; [apply _|]. by apply spares_human.
Qed.
Lemma spares_approve (now k : string) (d : DB) : foreign_request k d -> spares j d (snd (approveHumanRequest now k d)).
Proof.
  intros Hf. unfold approveHumanRequest. apply (opened_transaction (spares j)). unfold theHuman, respond, update_human. run.
  destruct (h_status a =s "approved"); [apply StoreProps.run_last; [preserve|reflexivity]|]. run. apply StoreProps.run_last; [apply _|]. by apply spares_human.
Qed.
Lemma spares_reject (now k : string) (e : WorkflowEventDraft) (d : DB) : foreign_request k d -> spares j d (snd (rejectHumanRequestAndFailWorkflow now k e d)).
Proof.
  intros Hf. unfold rejectHumanRequestAndFailWorkflow. apply (opened_transaction (spares j)). unfold theHuman. run. match goal with H : _ = Some a |- _ => assert (Hne := Hf a H) end.
  apply (run_then (spares j)); [|intros []; preserve]. unfold unless. destruct (h_status a =s "rejected"); [reflexivity|]. unfold respond, update_human. run. by apply spares_human.
Qed.
Lemma spares_updateStep (now k : string) (rev : Z) (p : StepExecutionPatch) (d : DB) :
  (forall s, stepRow k d = Some s -> s_workflow_id s <> j) -> spares j d (snd (updateStepSync now k rev p d)).
Proof.
  intros Hf. unfold updateStepSync, theStep, update_step. run. do 3 (apply run_read; [by preserve|reflexivity|intros ? _]). run. apply StoreProps.run_last; [apply _|]. by apply spares_step.
Qed.
Lemma spares_cancel (now : string) (k : option string) (id : string) (e : WorkflowEventDraft) (d : DB) :
  id <> j -> foreign_step k d -> spares j d (snd (cancelStepAndWorkflow now k id e d)).
Proof.
  intros Hne Hf. unfold cancelStepAndWorkflow. apply (opened_transaction (spares j)). unfold theWorkflow. run. destruct (wf_terminal (w_status a)); [run; apply StoreProps.run_last; [preserve|reflexivity]|]. run.
  apply (run_then (spares j)); [|intros []; preserve]. destruct k as [i|]; [|reflexivity]. destruct (i =s ""); [reflexivity|].
  destruct (stepRow i d) as [s|] eqn:Es; [|reflexivity]. unfold unless. destruct (step_terminal (s_status s)); [reflexivity|].
  apply (run_then (spares j)); [|intros; apply _]. cbn [patched]. apply spares_updateStep. intros q. by apply (Hf i q).
Qed.
End Rows.

#[local] Hint Constants Opaque : typeclass_instances.
#[local] Hint Extern 5 (Preserves (spares _) (recordCancellationIntent _ _)) => (apply spares_intent; assumption) : typeclass_instances.
#[local] Hint Extern 5 (Preserves (spares _) (startWorkflowDurably _ _ _)) => (apply spares_start; assumption) : typeclass_instances.
#[local] Hint Extern 5 (Preserves (spares _) (resumeWorkflowRunning _ _ _)) => (apply spares_resume; assumption) : typeclass_instances.

(** ** Pumps and requests to the Agent Task service *)

Definition grows {A : Type} (P : A -> Prop) : relation (list A) := fun l l' => exists k, l' = l ++ k /\ Forall P k.
#[global] Instance grows_preorder {A : Type} (P : A -> Prop) : PreOrder (grows P).
Proof.
  split; [intros l; exists []; by rewrite app_nil_r|]. intros a b c (k1 & -> & F1) (k2 & -> & F2). exists (k1 ++ k2). rewrite app_assoc. split; [done|]. by apply Forall_app.
Qed.
(** Only requests in [P] were sent, and pumps began only for [ids]. *)
Definition still {E : Type} (P : client_call -> Prop) (ids : list string) : relation (World E) := fun w w' =>
  grows P (wd_calls w) (wd_calls w') /\ grows (fun x => x ∈ ids) (wd_pumps w) (wd_pumps w').
#[global] Instance still_preorder {E : Type} (P : client_call -> Prop) (ids : list string) : PreOrder (still (E := E) P ids).
Proof. split; [by intros w; split|]. intros a b c [] []. split; by etransitivity. Qed.
Class Still {E A : Type} (P : client_call -> Prop) (ids : list string) (m : R E A) : Prop := stays : forall w, still P ids w (snd (m w)).

Section Still.
Context {E : Type} (env : Env E) (P : client_call -> Prop) (ids : list string).
Lemma still_same (w w' : World E) : wd_calls w' = wd_calls w -> wd_pumps w' = wd_pumps w -> still P ids w w'.
Proof. intros Hc Hp. split; [by rewrite Hc|by rewrite Hp]. Qed.
#[global] Instance still_ret {A : Type} (a : A) : Still (E := E) P ids (mret a).
Proof. intros w. reflexivity. Qed.
#[global] Instance still_throw {A : Type} (e : rt_error) : Still P ids (@rthrow E A e).
Proof. intros w. reflexivity. Qed.
#[global] Instance still_require {A : Type} (o : option A) (e : rt_error) : Still (E := E) P ids (rrequire o e).
Proof. intros w. by destruct o. Qed.
#[global] Instance still_bind {A B : Type} (m : R E A) (k : A -> R E B) : Still P ids m -> (forall a, Still P ids (k a)) -> Still P ids (m ≫= k).
Proof.
  intros Hm Hk w. unfold mbind, R_bind. specialize (Hm w). destruct (m w) as [[a|e] w1]; [|exact Hm]. etransitivity; [exact Hm|apply Hk].
Qed.
#[global] Instance still_try {A : Type} (m : R E A) (h : rt_error -> R E A) : Still P ids m -> (forall e, Still P ids (h e)) -> Still P ids (try_catch m h).
Proof.
  intros Hm Hh w. unfold try_catch. specialize (Hm w). destruct (m w) as [[a|e] w1]; [exact Hm|]. destruct e; [..|exact Hm]; (etransitivity; [exact Hm|apply Hh]).
Qed.
#[global] Instance still_from_env {A : Type} (f : E -> A * E) : Still P ids (from_env f).
Proof. intros w. unfold from_env. destruct (f (wd_env w)). by apply still_same. Qed.
#[global] Instance still_read_env {A : Type} (f : E -> A) : Still P ids (read_env f).
Proof. intros w. reflexivity. Qed.
#[global] Instance still_lease {A : Type} (f : E -> result LeaseError A * E) : Still P ids (lease f).
Proof. intros w. unfold lease. destruct (f (wd_env w)) as [[|] e]; by apply still_same. Qed.
#[global] Instance still_store {A : Type} (m : string -> M A) : Still P ids (store env m).
Proof.
  intros w. unfold store. destruct (en_interfere env (wd_env w) (wd_db w)) as [e1 d1]. destruct (en_iso env e1) as [now e2].
  destruct (m now d1) as [[a|x] d2]; by apply still_same.
Qed.
#[global] Instance still_timer (id : string) : Still P ids (scheduleLeaseReconcile env id).
Proof. intros w. by apply still_same. Qed.
Lemma still_pump (id : string) : id ∈ ids -> Still (E := E) P ids (ensurePump id).
Proof.
  intros Hid w. unfold ensurePump. cbn. destruct (id ∈b wd_pumps w); [by apply still_same|]. split; [reflexivity|]. exists [id]. split; [done|]. by constructor.
Qed.
Lemma still_log (c : client_call) : P c -> Still (E := E) P ids (log_call c).
Proof. intros Hc w. split; [|reflexivity]. exists [c]. split; [done|]. by constructor. Qed.
#[global] Instance still_client {A : Type} (f : E -> result ClientError A * E) : Still P ids (client f).
Proof. intros w. unfold client. destruct (f (wd_env w)) as [[|] e]; by apply still_same. Qed.
End Still.
Definition is_cancel (c : client_call) : Prop := match c with CallCancel _ => True | CallCreate _ => False end.
#[local] Hint Extern 5 (Still _ _ (log_call (CallCancel _))) => (apply still_log; exact I) : typeclass_instances.
#[local] Hint Extern 5 (Still _ _ (ensurePump _)) => (apply still_pump, list_elem_of_here) : typeclass_instances.

Ltac still :=
  repeat first
    [ progress intros
    | apply _
    | lazymatch goal with
      | |- Still _ _ (_ ≫= _) => apply still_bind
      | |- Still _ _ (try_catch _ _) => apply still_try
      | |- Still _ _ (match ?x with _ => _ end) => destruct x
      | |- Still _ _ (let _ := _ in _) => cbv zeta
      | |- Still _ _ ?m => let h := head_of m in unfold h
      end ].

Section Methods.
Context {E : Type} (env : Env E) (P : client_call -> Prop) (ids : list string).
#[global] Instance still_release_loop (n : nat) (lc : WorkspaceLeaseClient E) (node l : string) : Still P ids (release_loop env n lc node l).
Proof. induction n; cbn [release_loop]; still. Qed.
#[global] Instance still_release_all (lc : WorkspaceLeaseClient E) (b : bool) (ls : list LeaseRecord) : Still P ids (release_all env lc b ls).
Proof. induction ls; cbn [release_all]; still. Qed.
#[global] Instance still_rollback (lc : WorkspaceLeaseClient E) (ts : list WorkspaceTarget) : Still P ids (rollbackAcquired env lc ts).
Proof. induction ts; cbn [rollbackAcquired]; still. Qed.
#[global] Instance still_targets (lc : WorkspaceLeaseClient E) (id : string) (ts act : list WorkspaceTarget) : Still P ids (acquire_targets env lc id ts act).
Proof. revert act. induction ts; intros act; cbn [acquire_targets]; still. Qed.
#[global] Instance still_create (spec inputs : value) : Still P ids (Runtime.createWorkflow env spec inputs).
Proof. still. Qed.
#[global] Instance still_decide (k : string) (b : bool) : Still P ids (decideApproval env k b).
Proof. still. Qed.
End Methods.
Section Starting.
Context {E : Type} (env : Env E) (P : client_call -> Prop).
#[global] Instance still_start (id : string) : Still P [id] (startWorkflow env id).
Proof. still. Qed.
#[global] Instance still_resume (id : string) : Still P [id] (resumeWorkflow env id).
Proof. still. Qed.
#[global] Instance still_cancel (id : string) (ids : list string) : Still is_cancel ids (cancelWorkflow env id).
Proof. still. Qed.
#[global] Instance still_snapshot (id : string) (ids : list string) : Still P ids (snapshot_answer env id).
Proof. still. Qed.
End Starting.

(** What a request may begin, and send. *)
Definition may_pump (q : ApiRequest) : list string := match q with StartWorkflow id | ResumeWorkflow id => [id] | _ => [] end.
Definition may_send (q : ApiRequest) : client_call -> Prop := match q with CancelWorkflow _ => is_cancel | _ => fun _ => False end.
Lemma control_still {E : Type} (env : Env E) (q : ApiRequest) : Still (may_send q) (may_pump q) (control env q).
Proof. destruct q; cbn [control may_send may_pump]; still. Qed.

(** ** The database *)

Section Reads.
Context {E : Type} (env : Env E) (Rel : relation DB) `{!PreOrder Rel} {Hrely : Rely env Rel}.
#[global] Instance reads_listed (st : option string) (l o : Z) : Preserves Rel (listWorkflows st l o).
Proof. preserve. Qed.
#[global] Instance reads_toEvent (r : WorkflowEventRow) : Preserves Rel (toWorkflowEvent r).
Proof. preserve. Qed.
#[global] Instance reads_events (id : string) (c l : Z) : Preserves Rel (listWorkflowEvents id c l).
Proof. preserve. Qed.
#[global] Instance reads_pending (id : string) : Preserves Rel (getPendingHumanRequest id).
Proof. preserve. Qed.
#[global] Instance rp_snapshot_answer (id : string) : RPreserves Rel (snapshot_answer env id).
Proof. rpreserve. Qed.
Definition read_only (q : ApiRequest) : bool := match q with ListWorkflows _ | GetWorkflow _ | PendingRequest _ => true | _ => false end.
Lemma control_reads (q : ApiRequest) : read_only q = true -> RPreserves Rel (control env q).
Proof. destruct q; intros [=]; cbn [control]; rpreserve. Qed.
End Reads.

Lemma control_runs {E : Type} (env : Env E) `{!Rely env store_run} (q : ApiRequest) : RPreserves store_run (control env q).
Proof. destruct q; cbn [control]; rpreserve. Qed.

(** ** Other workflows *)

Definition owned_request (id k : string) (d : DB) : Prop := exists h, humanRow k d = Some h /\ h_workflow_id h = id.
Lemma owned_run (id k : string) (d d' : DB) : store_run d d' -> owned_request id k d -> owned_request id k d'.
Proof.
  intros He%store_run_evolves (h & Hh & Hw). destruct (ev_human _ _ He _ h Hh) as (h' & Hh' & E1). exists h'. split; [done|]. by destruct (he_identity _ _ E1) as (_ & -> & _).
Qed.
Lemma owned_foreign (id j k : string) (d : DB) : id <> j -> owned_request id k d -> foreign_request j k d.
Proof. intros Hne (h & Hh & Hw) h' Hh'. congruence. Qed.

Section Sparing.
Context {E : Type} (env : Env E) (j id : string) (Hne : id <> j) {Hrun : Rely env store_run} {Hsp : Rely env (spares j)}.
Implicit Types (w : World E).

Definition leaves {A : Type} (m : R E A) (w : World E) : Prop := spares j (wd_db w) (wd_db (snd (m w))).

Lemma leaves_rp {A : Type} (m : R E A) w : RPreserves (spares j) m -> leaves m w.
Proof. intros H. apply H. Qed.
Lemma leaves_bind {A B : Type} (m : R E A) (k : A -> R E B) w : leaves m w -> (forall a w1, m w = (Ok a, w1) -> leaves (k a) w1) -> leaves (m ≫= k) w.
Proof.
  unfold leaves. intros Hm Hk. destruct (rbind_inv m k w) as [(a & w1 & E1 & ->)|(e & w1 & E1 & ->)]; rewrite E1 in Hm; [|exact Hm].
  etransitivity; [exact Hm|by apply Hk].
Qed.
Lemma leaves_try {A : Type} (m : R E A) (h : rt_error -> R E A) w : leaves m w -> (forall e, RPreserves (spares j) (h e)) -> leaves (try_catch m h) w.
Proof.
  unfold leaves, try_catch. intros Hm Hh. destruct (m w) as [[a|e] w1]; [exact Hm|]. cbn in Hm. assert (spares j (wd_db w) (wd_db (snd (h e w1)))) by (etransitivity; [exact Hm|apply Hh]).
  by destruct e.
Qed.
(** A store call on rows that stay what they are. *)
Lemma leaves_store {A : Type} (m : string -> M A) (I : DB -> Prop) w :
  (forall d d', store_run d d' -> I d -> I d') -> (forall now d, I d -> spares j d (snd (m now d))) -> I (wd_db w) -> leaves (store env m) w.
Proof.
  intros Hmono Hm HI. unfold leaves, store. specialize (Hrun (wd_env w) (wd_db w)). specialize (Hsp (wd_env w) (wd_db w)).
  destruct (en_interfere env (wd_env w) (wd_db w)) as [e1 d1]. cbn in Hrun, Hsp. destruct (en_iso env e1) as [now e2]. specialize (Hm now d1 (Hmono _ _ Hrun HI)).
  destruct (m now d1) as [[a|x] d2]; cbn in *; by etransitivity.
Qed.

Lemma leaves_existing (k : WorkflowRecord -> R E ControllerResult) w : (forall r w1, read env (getWorkflow id) w = (Ok (Some r), w1) -> leaves (k r) w1) -> leaves (existing env id k) w.
Proof.
  intros Hk. apply leaves_bind; [apply leaves_rp; rpreserve|]. intros [r|] w1 E1; [by apply Hk|]. apply leaves_rp. rpreserve.
Qed.
Lemma leaves_require (k : string) (m : R E ControllerResult) w : (forall w1, owned_request id k (wd_db w1) -> leaves m w1) -> leaves (requireRequest env id k m) w.
Proof.
  intros Hm. apply leaves_existing. intros r w1 _. apply leaves_bind; [apply leaves_rp; rpreserve|]. intros [h|] w2 E2; [|apply leaves_rp; rpreserve].
  destruct (h_workflow_id (hr_row h) =s id) eqn:Eh; [|apply leaves_rp; rpreserve]. apply Hm. apply String.eqb_eq in Eh.
  destruct (read_inv env store_run _ _ _ _ Hrun (reads_human eq _) E2) as (d & _ & -> & [(a & Ha & [= <-])|(e & _ & [=])]).
  unfold getHumanRequest in Ha. inv_run Ha. destruct (humanRow k d) as [q|] eqn:Eq; [|done]. cbn in *. exists q. split; [done|].
  match goal with H : _ = (Ok _, _) |- _ => inv_run H end. match goal with H : toHumanRequest _ _ = _ |- _ => by apply bind_ok in H as (c & d1 & [_ ->]%lift_ok & [= <-]) end.
Qed.

Lemma leaves_answer (k v : string) w : owned_request id k (wd_db w) -> leaves (answerInput env k v) w.
Proof. apply leaves_store; [intros; by eapply owned_run|]. intros now d Ho. by eapply spares_answer, owned_foreign. Qed.
Lemma leaves_decide (k : string) (b : bool) w : owned_request id k (wd_db w) -> leaves (decideApproval env k b) w.
Proof.
  intros Ho. unfold decideApproval. destruct b; [apply (leaves_store _ (owned_request id k)); [intros; by eapply owned_run| |done]; intros now d Hd; by eapply spares_approve, owned_foreign|].
  apply leaves_bind; [apply leaves_rp; rpreserve|]. intros ts w1 E1. apply leaves_bind; [|intros; apply leaves_rp; rpreserve].
  apply (leaves_store _ (owned_request id k)); [intros; by eapply owned_run|intros now d Hd; by eapply spares_reject, owned_foreign|].
  eapply owned_run; [|exact Ho]. eapply run_of; [|exact E1]. rpreserve.
Qed.

(** Cancelling ends the current step, one of the workflow's. *)
Lemma leaves_performCancellation w : steps_filed (wd_db w) -> leaves (performCancellation env id) w.
Proof.
  intros Hf. unfold performCancellation. apply leaves_bind; [apply leaves_rp; rpreserve|]. intros [wf|] w1 E1; [|apply leaves_rp; rpreserve].
  eapply filed_rp in E1; [|rpreserve|exact Hf].
  destruct (isTerminalWorkflowStatus (wf_status wf)); [apply leaves_rp; rpreserve|].
  apply leaves_bind; [apply leaves_rp; rpreserve|]. intros ? w2 E2. eapply filed_rp in E2; [|rpreserve|exact E1].
  apply leaves_bind; [apply leaves_rp; rpreserve|]. intros se w3 E3.
  apply leaves_bind; [apply leaves_rp; rpreserve|]. intros ts w4 E4.
  apply leaves_bind; [|intros; apply leaves_rp; rpreserve].
  apply (leaves_store _ (fun d => forall i, se = Some i -> exists s, stepRow i d = Some s /\ s_workflow_id s = id)).
  - intros d d' Hd Hi i Hs. destruct (Hi i Hs) as (s & Hr & Hw). apply store_run_evolves in Hd. destruct (ev_steps _ _ Hd _ s Hr) as (s' & Hr' & Hev). exists s'. split; [done|].
    by destruct (se_identity _ _ Hev) as (_ & -> & _).
  - intros now d Hd. apply spares_cancel; [done|]. intros i s Hi Hs. destruct (Hd i Hi) as (s' & Hs' & Hw). congruence.
  - intros i ->. assert (wd_db w4 = wd_db w3) as -> by (unfold iso, from_env in E4; destruct (en_iso env (wd_env w3)); by injection E4 as _ <-).
    destruct (w_current_step_id (wf_row wf)) as [sid|]; [|by injection E3]. destruct (sid =s ""); [by injection E3|].
    apply rbind_ok in E3 as ([step|] & w5 & E5 & E3); [|by injection E3].
    assert (Hf5 : steps_filed (wd_db w5)) by (eapply filed_rp; [|exact E5|exact E2]; rpreserve). destruct (read_own env id _ _ _ _ _ Hf5 E5) as [Ho _].
    apply rbind_ok in E3 as (u & w6 & E6 & E3). injection E3 as <- <-.
    eapply own_rp in E6; [|rpreserve|exact Ho]. destruct E6 as (row & Hr & Hw & _). eauto.
Qed.
Lemma leaves_cancel w : steps_filed (wd_db w) -> leaves (cancelWorkflow env id) w.
Proof.
  intros Hf. unfold cancelWorkflow. apply leaves_bind; [apply leaves_rp; rpreserve|]. intros o w1 E1. eapply filed_rp in E1; [|rpreserve|exact Hf].
  apply leaves_bind; [apply leaves_rp; rpreserve|]. intros wf w2 E2. eapply filed_rp in E2; [|rpreserve|exact E1].
  destruct (isTerminalWorkflowStatus (wf_status wf)); [apply leaves_rp; rpreserve|].
  apply leaves_bind; [apply leaves_rp; rpreserve|]. intros ? w3 E3. eapply filed_rp in E3; [|rpreserve|exact E2].
  apply leaves_bind; [apply leaves_rp; rpreserve|]. intros ? w4 E4. eapply filed_rp in E4; [|rpreserve|exact E3].
  apply leaves_bind; [by apply leaves_performCancellation|]. intros. apply leaves_rp. rpreserve.
Qed.
End Sparing.

Section Control.
Context {E : Type} (env : Env E) {Hrun : Rely env store_run}.
Implicit Types (w : World E).

Definition addressed (q : ApiRequest) : option string :=
  match q with
  | ListWorkflows _ | CreateWorkflow _ => None
  | StartWorkflow id | GetWorkflow id | CancelWorkflow id | PendingRequest id | AnswerInput id _ | DecideApproval id _ | ResumeWorkflow id => Some id
  end.

Ltac rest := intros; apply leaves_rp; rpreserve.
Lemma control_leaves (j : string) {Hsp : Rely env (spares j)} (q : ApiRequest) w : addressed q <> Some j -> steps_filed (wd_db w) -> leaves j (control env q) w.
Proof.
  intros Hq Hf. destruct (read_only q) eqn:Er; [apply leaves_rp; exact (control_reads env (spares j) q Er)|].
  destruct q as [search|body|id|id|id|id|id body|id body|id]; try done; cbn [addressed] in Hq; try assert (Hne : id <> j) by congruence; cbn [control].
  - rest.
  - rest.
  - apply leaves_existing; try done. intros r w1 E1. assert (Hf1 : steps_filed (wd_db w1)) by (eapply filed_rp; [|exact E1|exact Hf]; rpreserve).
    apply leaves_try; [|intros; rpreserve]. apply leaves_bind; [by apply leaves_cancel|rest].
  - unfold answerInputController, parsed. destruct (parseAnswerBody body) as [[k v]|e]; [|rest]. apply leaves_require; try done. intros w1 Ho.
    apply leaves_try; [|intros; rpreserve]. apply leaves_bind; [by eapply leaves_answer|rest].
  - unfold decideApprovalController, parsed. destruct (parseDecisionBody body) as [[k v]|e]; [|rest]. apply leaves_require; try done. intros w1 Ho.
    apply leaves_try; [|intros; rpreserve]. apply leaves_bind; [by eapply leaves_decide|rest].
  - rest.
Qed.

Ltac quiet := apply silent; [solve [rpreserve]|solve [nocalls]].
Ltac skip := apply calls_skip; [solve [rpreserve]|solve [nocalls]|].
Lemma cancel_calls (id : string) w : steps_filed (wd_db w) -> calls_ok id w (snd (control env (CancelWorkflow id) w)).
Proof.
  intros Hf. cbn [control]. unfold cancelWorkflowController, existing. skip. intros [r|] w1 E1; [|quiet]. eapply filed_rp in E1; [|rpreserve|exact Hf].
  apply calls_try; [|intros; quiet]. apply calls_bind; [|intros; quiet]. unfold cancelWorkflow.
  skip. intros o w2 E2. eapply filed_rp in E2; [|rpreserve|exact E1]. skip. intros wf w3 E3. eapply filed_rp in E3; [|rpreserve|exact E2].
  destruct (isTerminalWorkflowStatus (wf_status wf)); [quiet|]. skip. intros ? w4 E4. eapply filed_rp in E4; [|rpreserve|exact E3].
  skip. intros ? w5 E5. eapply filed_rp in E5; [|rpreserve|exact E4]. apply calls_bind; [by apply performCancellation_calls|intros; quiet].
Qed.
End Control.

(** C24. A request to the workflow API does what it is addressed to and no more, whatever the clients answer, whatever the body holds and whoever
    else uses the store.  It changes the database only by store operations.  A workflow other than the addressed one keeps its row, its step executions
    and its human requests: an answer or a decision that names a request of another workflow changes nothing of it.  A read changes nothing.
    Execution begins only by starting or resuming the addressed workflow: creating one never does.  No request creates a task, and only a cancellation
    cancels one, bound to a step of its workflow. *)
Theorem api_requests_contained {E : Type} (env : Env E) (q : ApiRequest) (w w' : World E) :
  Rely env store_run -> store_run empty_db (wd_db w) -> w' = snd (control env q w) ->
  store_run (wd_db w) (wd_db w')
  /\ (forall j, addressed q <> Some j -> Rely env (spares j) -> spares j (wd_db w) (wd_db w'))
  /\ (read_only q = true -> forall Rel, PreOrder Rel -> Rely env Rel -> Rel (wd_db w) (wd_db w'))
  /\ grows (fun id => q = StartWorkflow id \/ q = ResumeWorkflow id) (wd_pumps w) (wd_pumps w')
  /\ grows (fun c => exists id t, q = CancelWorkflow id /\ c = CallCancel t /\ call_ok id (wd_db w') c) (wd_calls w) (wd_calls w').
Proof.
  intros Hrun Hw ->. assert (Hf : steps_filed (wd_db w)) by (eapply filed_run; [exact Hw|by intros ??]).
  split; [by apply control_runs|]. split; [intros j Hq Hsp; by apply (control_leaves env j)|]. split; [intros Hr Rel HR Hrel; by apply control_reads|].
  destruct (control_still env q w) as [(cs & Ec & Fc) (l & Ep & Fp)]. split.
  - exists l. split; [done|]. eapply Forall_impl; [exact Fp|]. intros x Hx. destruct q; cbn in Hx; set_solver.
  - exists cs. split; [done|]. destruct q as [ | | | |id| | | | ]; try (eapply Forall_impl; [exact Fc|]; by intros ? []). 
    destruct (cancel_calls env id w Hf) as [_ (cs' & Ec' & Fc')]. rewrite Ec in Ec'. apply app_inv_head in Ec' as <-.
    apply Forall_forall. intros c Hc. rewrite Forall_forall in Fc, Fc'. specialize (Fc c Hc). specialize (Fc' c Hc). destruct c as [|t]; [done|]. by exists id, t.
Qed.

#[global] Instance demo_rely_spares (j : string) : Rely demo_env (spares j).
Proof. apply demo_rely; [apply _|preserve..]. Qed.

(** The running workflow of the demonstration is cancelled through the API. *)
Definition cancelled_demo : result rt_error ControllerResult * World demo_state := control demo_env (CancelWorkflow demo_id) one_step.
Lemma api_requests_contained_witness :
  match fst cancelled_demo with Ok r => cr_status r | Err _ => 0 end = 200 /\ spares "wf_other" (wd_db one_step) (wd_db (snd cancelled_demo)) /\ status_of demo_id (wd_db (snd cancelled_demo)) = Some "cancelled".
Proof.
  assert (Hr : store_run empty_db (wd_db one_step)).
  { change empty_db with (wd_db (demo_start [done_answer])). apply (runtime_run demo_env); [apply demo_rely_run|]. eapply rtc_l; [apply rt_create|]. apply rtc_once, rt_start. }
  destruct (api_requests_contained demo_env (CancelWorkflow demo_id) one_step _ demo_rely_run Hr eq_refl) as (_ & Hs & _).
  split; [vm_compute; reflexivity|]. split; [by apply Hs; [|apply demo_rely_spares]|]. vm_compute. reflexivity.
Defined.
