(* ===== verification/Router.v ===== *)
(** * Routing and authentication of the Agent Gateway (src/lib/agent-gateway.ts)

    What a request is dispatched to: a handler, a controller, or an error.  [hq_pathname]
    and [hq_search] are the path and the query of the request as the URL parser returns
    them; [hq_body] is all that was received.  Messages for people and the headers of the
    pages are left out. *)

From S2P Require Import Prelude Machine Values Json Contract Verification Validator Outputs StoreRows Store StoreOps RuntimeEnv Runtime TaskContract Workspace GatewayState Gateway GatewayApi EventStream WorkflowApi.

(** ** encodeURIComponent and decodeURIComponent, on the bytes of a string *)

Definition unreserved (c : ascii) : bool := is_alpha c || is_digit c || is_one_of "-_.!~*'()" c.
Definition upper_hex (d : N) : ascii := if (d <? 10)%N then ascii_of_N (48 + d) else ascii_of_N (55 + d).
Definition percent (c : ascii) : chars := let n := N_of_ascii c in ["%"%char; upper_hex (n / 16); upper_hex (n mod 16)].
Definition encode_char (c : ascii) : chars := if unreserved c then [c] else percent c.
Definition encodeURIComponent (s : string) : string := string_of_list_ascii (flat_map encode_char (lit s)).

(** The length of the UTF-8 sequence a byte opens; 0 for a byte that opens none. *)
Definition utf8_len (b : N) : nat :=
  if (b <? 128)%N then 1 else if ((194 <=? b) && (b <=? 223))%N then 2 else if ((224 <=? b) && (b <=? 239))%N then 3 else if ((240 <=? b) && (b <=? 244))%N then 4 else 0.
(** The second byte excludes overlong forms, surrogates and what is past U+10FFFF. *)
Definition utf8_second (b c : N) : bool :=
  ((if b =? 224 then 160 <=? c else if b =? 240 then 144 <=? c else 128 <=? c) && (if b =? 237 then c <=? 159 else if b =? 244 then c <=? 143 else c <=? 191))%N.
Definition utf8_tail (c : N) : bool := ((128 <=? c) && (c <=? 191))%N.
Definition utf8_seq (l : list N) : bool :=
  match l with
  | [] => false
  | b :: r => (List.length l =? utf8_len b)%nat && match r with [] => true | c :: t => utf8_second b c && forallb utf8_tail t end
  end.

Definition octet (l : chars) : option (N * chars) :=
  match l with
  | p :: h :: k :: r => if Ascii.eqb p "%" then match hex_val h, hex_val k with Some x, Some y => Some ((x * 16 + y)%N, r) | _, _ => None end else None
  | _ => None
  end.
Fixpoint octets (n : nat) (l : chars) : option (list N * chars) :=
  match n with
  | O => Some ([], l)
  | S m => match octet l with Some (b, r) => match octets m r with Some (bs, t) => Some (b :: bs, t) | None => None end | None => None end
  end.
(** [None]: URIError. *)
Fixpoint decode_chars (fuel : nat) (l : chars) : option chars :=
  match fuel, l with
  | _, [] => Some []
  | O, _ => None
  | S f, c :: r =>
      if negb (Ascii.eqb c "%") then d ← decode_chars f r; Some (c :: d) else
      match octet l with
      | None => None
      | Some (b, _) =>
          match octets (utf8_len b) l with
          | Some (bs, t) => if utf8_seq bs then d ← decode_chars f t; Some (map ascii_of_N bs ++ d) else None
          | None => None
          end
      end
  end.
Definition decodeURIComponent (s : string) : option string := string_of_list_ascii <$> decode_chars (String.length s) (lit s).

(** ** Requests *)

Record Request : Type := {
  hq_method : string; hq_pathname : string; hq_search : string -> option string; hq_authorization : option string; hq_cookie : option string; hq_body : string }.
(** What the Gateway is configured with; the runtime, the compiler and the builder are wired after the server listens. *)
Record Services : Type := { sv_apiToken : string; sv_shuttingDown : bool; sv_store : bool; sv_runtime : bool; sv_compiler : bool; sv_builder : bool }.

(** ** Authentication *)

Definition constEq (a b : string) : bool := a =s b.
Definition GW_COOKIE : string := "vibe_gw".
Definition cookie_pair (part : string) : string * string := match split_at_char "=" (trim part) with Some (k, v) => (k, v) | None => (trim part, "") end.
(** The first cookie of that name; [None]: its value does not decode. *)
Definition cookieToken (cookie : option string) : option (option string) :=
  match cookie with
  | None => Some None
  | Some raw => match List.find (fun kv => fst kv =s GW_COOKIE) (map cookie_pair (split_char ";" raw)) with
                | Some (_, v) => Some <$> decodeURIComponent v
                | None => Some None
                end
  end.
Definition bearerMatches (q : Request) (apiToken : string) : option bool :=
  if match (h ← hq_authorization q; strip_prefix "Bearer " h) with Some t => constEq t apiToken | None => false end then Some true else
  ck ← cookieToken (hq_cookie q); Some (match ck with Some t => constEq t apiToken | None => false end).

(** ** Targets *)

Inductive Target : Type :=
  | Refused (status : Z) (code : string)
  | MethodNotAllowed (allow : list string)
  | Redirect (location : string) | Page (builder : bool)
  | ListAgents | CreateTask | GetTask (id : string) | TaskEvents (id : string) | CancelTask (id : string)
  | Workflow (q : ApiRequest) | WorkflowEvents (id : string)
  | CompileDraft (body : value) | GetDraft (id : string) | ApproveDraft (id : string) (body : value)
  | ListSessions (limit offset : option num) | CreateSession (body : value) | GetSession (id : string) | SendMessage (id : string) (body : value) | ArchiveSession (id : string).

Definition internal : Target := Refused 500 "internal_error".
Definition not_here : Target := Refused 404 "task_not_found".
Definition on_method (q : Request) (m : string) (t : Target) : Target := if hq_method q =s m then t else MethodNotAllowed [m].
Definition available (b : bool) (code : string) (t : Target) : Target := if b then t else Refused 503 code.
(** The JSON body: 413 when it is too large, 400 when it does not parse. *)
Definition with_json (q : Request) (k : value -> Target) : Target :=
  match readBody MAX_BODY_BYTES (hq_body q) with
  | None => Refused 413 "invalid_request"
  | Some text => match JSON_parse text with Some v => k v | None => Refused 400 "invalid_request" end
  end.
(** An identifier of the path. *)
Definition with_id (part : string) (k : string -> Target) : Target :=
  match decodeURIComponent part with None => internal | Some id => if id =s "" then Refused 400 "invalid_request" else k id end.

Section Routes.
Context (sv : Services) (q : Request).

Definition handleWorkflows (parts : list string) : Target :=
  if negb (sv_store sv) then not_here else
  let runtime := available (sv_runtime sv) "workflow_runtime_unavailable" in
  match parts with
  | [_; _] =>
      if hq_method q =s "GET" then Workflow (ListWorkflows (hq_search q))
      else if hq_method q =s "POST" then runtime (with_json q (fun v => Workflow (CreateWorkflow v)))
      else MethodNotAllowed ["GET"; "POST"]
  | _ :: _ :: part :: rest => with_id part (fun id =>
      match rest with
      | [] => on_method q "GET" (Workflow (GetWorkflow id))
      | [sub] =>
          if sub =s "start" then on_method q "POST" (runtime (Workflow (StartWorkflow id)))
          else if sub =s "events" then on_method q "GET" (WorkflowEvents id)
          else if sub =s "cancel" then on_method q "POST" (runtime (Workflow (CancelWorkflow id)))
          else if sub =s "pending-request" then on_method q "GET" (runtime (Workflow (PendingRequest id)))
          else if (sub =s "answer") || (sub =s "decision") then on_method q "POST" (runtime (with_json q (fun v =>
            if sub =s "answer" then Workflow (AnswerInput id v) else Workflow (DecideApproval id v))))
          else if sub =s "resume" then on_method q "POST" (runtime (Workflow (ResumeWorkflow id)))
          else not_here
      | _ => not_here
      end)
  | _ => internal
  end.

Definition handleWorkflowDrafts (parts : list string) : Target :=
  if negb (sv_store sv) then not_here else
  let compiler := available (sv_compiler sv) "compiler_unavailable" in
  match parts with
  | [_; _] => on_method q "POST" (compiler not_here)
  | _ :: _ :: part :: rest =>
      if match rest with [] => part =s "compile" | _ => false end then on_method q "POST" (compiler (with_json q CompileDraft)) else
      with_id part (fun id =>
        match rest with
        | [] => on_method q "GET" (compiler (GetDraft id))
        | [sub] => if sub =s "approve" then on_method q "POST" (compiler (with_json q (ApproveDraft id))) else not_here
        | _ => not_here
        end)
  | _ => internal
  end.

Definition numParam (name : string) : option num :=
  v ← hq_search q name; let n := Number v in if num_isFinite n then Some n else None.
Definition handleWorkflowBuilder (parts : list string) : Target :=
  if negb (sv_store sv) then not_here else
  let builder := available (sv_builder sv) "builder_unavailable" in
  match parts with
  | _ :: _ :: sessions :: rest =>
      if negb (sessions =s "sessions") then not_here else
      match rest with
      | [] =>
          if hq_method q =s "GET" then builder (ListSessions (numParam "limit") (numParam "offset"))
          else if hq_method q =s "POST" then builder (with_json q CreateSession)
          else MethodNotAllowed ["GET"; "POST"]
      | part :: sub => with_id part (fun id =>
          match sub with
          | [] => on_method q "GET" (builder (GetSession id))
          | [s] => if s =s "messages" then on_method q "POST" (builder (with_json q (SendMessage id)))
                   else if s =s "archive" then on_method q "POST" (builder (ArchiveSession id)) else not_here
          | _ => not_here
          end)
      end
  | _ => not_here
  end.

Definition ui (parts : list string) : Target :=
  if negb (hq_method q =s "GET") then MethodNotAllowed ["GET"] else
  let isBuilder := match parts with _ :: p :: _ => p =s "builder" | _ => false end in
  if match hq_search q "token" with Some t => constEq t (sv_apiToken sv) | None => false end then
    let name := if isBuilder then "session" else "draft" in
    let query := match truthy_string (hq_search q name) with Some v => "?" +:+ name +:+ "=" +:+ encodeURIComponent v | None => "" end in
    Redirect ((if isBuilder then "/ui/builder" else "/ui") +:+ query)
  else Page isBuilder.

Definition task_routes (parts : list string) : Target :=
  match parts with
  | _ :: _ :: part :: rest => with_id part (fun id =>
      match rest with
      | [] => on_method q "GET" (GetTask id)
      | [sub] => if sub =s "events" then on_method q "GET" (TaskEvents id) else if sub =s "cancel" then on_method q "POST" (CancelTask id) else not_here
      | _ => not_here
      end)
  | _ => not_here
  end.

Definition path_parts : list string := List.filter (fun p => negb (p =s "")) (split_char "/" (hq_pathname q)).
Definition dispatch : Target :=
  match path_parts with
  | v1 :: name :: rest =>
      if negb (v1 =s "v1") then not_here
      else if (name =s "agents") && match rest with [] => true | _ => false end then on_method q "GET" ListAgents
      else if (name =s "tasks") && match rest with [] => true | _ => false end then on_method q "POST" CreateTask
      else if name =s "workflows" then handleWorkflows path_parts
      else if name =s "workflow-drafts" then handleWorkflowDrafts path_parts
      else if name =s "workflow-builder" then handleWorkflowBuilder path_parts
      else if name =s "tasks" then task_routes path_parts
      else not_here
  | _ => not_here
  end.
(** The listener of the server. *)
Definition route : Target :=
  if sv_shuttingDown sv then Refused 503 "service_unavailable" else
  if match path_parts with p :: _ => p =s "ui" | [] => false end then ui path_parts else
  match bearerMatches q (sv_apiToken sv) with
  | None => internal
  | Some false => Refused 401 "unauthorized"
  | Some true => dispatch
  end.
End Routes.
