(* ===== verification/GatewayClient.v ===== *)
(** * The client of the Agent Gateway (src/mcp/gateway-client.ts)

    The requests of the MCP server, the parser of server-sent events, and the bounded
    waits.  [fetch], the clock and the timers are the environment [ClientEnv]: a request
    returns a status and a text or fails, a stream returns chunks of text and how it
    ended.  Messages for people are left out. *)

From S2P Require Import Prelude Machine Values Json TaskContract Workspace WorkflowApi Router.

Definition EVENT_WAIT_MIN_MS : Z := 500.
Definition EVENT_WAIT_MAX_MS : Z := 30000.
Definition DEFAULT_EVENT_WAIT_MS : Z := 10000.
Definition OVERALL_WAIT_MIN_MS : Z := 500.
Definition OVERALL_WAIT_MAX_MS : Z := 120000.
Definition DEFAULT_OVERALL_WAIT_MS : Z := 30000.
Definition OUTPUT_PREVIEW_MAX_CHARS : Z := 4000.
Definition TERMINAL_TASK_EVENTS : list string := ["task.completed"; "task.failed"; "task.cancelled"].
Definition WORKFLOW_END_EVENTS : list string := ["workflow.completed"; "workflow.failed"; "workflow.cancelled"; "workflow.blocked"].

(** ** The token file *)

(** What lstat returned: absent, a link, a file with its mode, or something else. *)
Inductive FileStat : Type := Absent | SymbolicLink | RegularFile (mode : Z) | OtherFile.
Definition is_token_char (c : ascii) : bool := is_alpha c || is_digit c || is_one_of "_-" c.
(** /^[A-Za-z0-9_-]{16,}$/ *)
Definition TOKEN_RE (s : string) : bool := (16 <=? String.length s)%nat && all_chars is_token_char s.
Definition readGatewayToken (st : FileStat) (win32 : bool) (contents : option string) : result string string :=
  match st with
  | Absent => Err "token_file_missing"
  | SymbolicLink => Err "token_file_symlink"
  | OtherFile => Err "token_file_not_regular"
  | RegularFile mode =>
      if negb win32 && negb (Z.land mode 63 =? 0) then Err "token_file_insecure_perms" else
      match contents with
      | None => Err "token_file_read_failed"
      | Some raw => if TOKEN_RE (trim raw) then Ok (trim raw) else Err "token_file_invalid"
      end
  end.

(** ** Requests *)

Record ApiCall : Type := { ac_method : string; ac_path : string; ac_query : list (string * string); ac_body : value }.
Definition GET (path : string) : ApiCall := {| ac_method := "GET"; ac_path := path; ac_query := []; ac_body := VUndef |}.
Definition POST (path : string) (body : value) : ApiCall := {| ac_method := "POST"; ac_path := path; ac_query := []; ac_body := body |}.

Definition listAgents : ApiCall := GET "/v1/agents".
Definition startTask (body : value) : ApiCall := POST "/v1/tasks" body.
Definition getTask (taskId : string) : ApiCall := GET ("/v1/tasks/" +:+ encodeURIComponent taskId).
Definition cancelTask (taskId : string) : ApiCall := POST ("/v1/tasks/" +:+ encodeURIComponent taskId +:+ "/cancel") VUndef.
Definition taskEvents (taskId : string) : ApiCall := GET ("/v1/tasks/" +:+ encodeURIComponent taskId +:+ "/events").
Definition num_string (n : num) : string := string_of_list_ascii (print_num n).
Definition listWorkflows (status : option string) (limit offset : option num) : ApiCall :=
  {| ac_method := "GET"; ac_path := "/v1/workflows"; ac_body := VUndef;
     ac_query := match truthy_string status with Some s => [("status", s)] | None => [] end
                 ++ match limit with Some n => [("limit", num_string n)] | None => [] end ++ match offset with Some n => [("offset", num_string n)] | None => [] end |}.
Definition createWorkflow (body : value) : ApiCall := POST "/v1/workflows" body.
Definition startWorkflow (workflowId : string) : ApiCall := POST ("/v1/workflows/" +:+ encodeURIComponent workflowId +:+ "/start") VUndef.
Definition getWorkflow (workflowId : string) : ApiCall := GET ("/v1/workflows/" +:+ encodeURIComponent workflowId).
Definition cancelWorkflow (workflowId : string) : ApiCall := POST ("/v1/workflows/" +:+ encodeURIComponent workflowId +:+ "/cancel") VUndef.
Definition workflowEvents (workflowId : string) : ApiCall := GET ("/v1/workflows/" +:+ encodeURIComponent workflowId +:+ "/events").
Definition getPendingRequest (workflowId : string) : ApiCall := GET ("/v1/workflows/" +:+ encodeURIComponent workflowId +:+ "/pending-request").
Definition answerWorkflowInput (workflowId : string) (body : value) : ApiCall := POST ("/v1/workflows/" +:+ encodeURIComponent workflowId +:+ "/answer") body.
Definition decideWorkflowApproval (workflowId : string) (body : value) : ApiCall := POST ("/v1/workflows/" +:+ encodeURIComponent workflowId +:+ "/decision") body.
Definition resumeWorkflow (workflowId : string) : ApiCall := POST ("/v1/workflows/" +:+ encodeURIComponent workflowId +:+ "/resume") VUndef.
Definition compileWorkflow (body : value) : ApiCall := POST "/v1/workflow-drafts/compile" body.
Definition getWorkflowDraft (draftId : string) : ApiCall := GET ("/v1/workflow-drafts/" +:+ encodeURIComponent draftId).
Definition approveWorkflowDraft (draftId : string) (body : value) : ApiCall := POST ("/v1/workflow-drafts/" +:+ encodeURIComponent draftId +:+ "/approve") body.

Definition authHeader (token : string) : string := "Bearer " +:+ token.
(** The request as the Gateway receives it; dot segments of the path, which URL parsers remove, are left as they are. *)
Definition sent (token : string) (c : ApiCall) : Request :=
  {| hq_method := ac_method c; hq_pathname := ac_path c; hq_search := fun k => snd <$> List.find (fun kv => fst kv =s k) (ac_query c);
     hq_authorization := Some (authHeader token); hq_cookie := None; hq_body := default "" (JSON_stringify (ac_body c)) |}.

(** ** Server-sent events *)

(** [Math.max] of finite numbers. *)
Definition num_parts (n : num) : Z * Z := match n with NInt z => (z, 0) | NDec m e => (m, Zpos e) | _ => (0, 0) end.
Definition num_max (a b : num) : num :=
  let '(m, e) := num_parts a in let '(m', e') := num_parts b in if m * 10 ^ e' <? m' * 10 ^ e then b else a.

Record Collecting : Type := { cg_events : list value; cg_last : num; cg_truncated : bool }.

(** Up to the first empty line, and what follows it. *)
Fixpoint next_frame (l : chars) : option (chars * chars) :=
  match l with
  | a :: t => match t with
              | b :: r => if (Ascii.eqb a "010" && Ascii.eqb b "010")%char then Some ([], r)
                          else match next_frame t with Some (f, rest) => Some (a :: f, rest) | None => None end
              | [] => None
              end
  | [] => None
  end.
Record Lines : Type := { ln_type : string; ln_data : string; ln_id : string }.
Definition on_line (x : Lines) (line : string) : Lines :=
  match strip_prefix "event: " line, strip_prefix "data: " line, strip_prefix "id: " line with
  | Some v, _, _ => {| ln_type := v; ln_data := ln_data x; ln_id := ln_id x |}
  | None, Some v, _ => {| ln_type := ln_type x; ln_data := v; ln_id := ln_id x |}
  | None, None, Some v => {| ln_type := ln_type x; ln_data := ln_data x; ln_id := v |}
  | None, None, None => x
  end.
Definition frame_lines (f : string) : Lines := fold_left on_line (split_char "010" f) {| ln_type := ""; ln_data := ""; ln_id := "" |}.

Section Frames.
Context (warning : string) (ends : list string).

(** One frame; [true]: the reader stops. *)
Definition on_frame (f : string) (c : Collecting) : bool * Collecting :=
  if f =s "" then (false, c) else
  if starts_with ":" f then (false, {| cg_events := cg_events c; cg_last := cg_last c; cg_truncated := cg_truncated c || contains warning f |}) else
  let x := frame_lines f in
  if ln_type x =s "" then (false, c) else
  let payload := default (VStr (ln_data x)) (JSON_parse (ln_data x)) in
  let seq := Number (ln_id x) in
  (ln_type x ∈b ends, {| cg_events := cg_events c ++ [payload]; cg_last := if num_isFinite seq then num_max (cg_last c) seq else cg_last c; cg_truncated := cg_truncated c |}).
(** The frames of the buffer: stop, the rest of the buffer, what was collected. *)
Fixpoint drain (fuel : nat) (buf : chars) (c : Collecting) : bool * chars * Collecting :=
  match fuel with
  | O => (false, buf, c)
  | S n => match next_frame buf with
           | None => (false, buf, c)
           | Some (f, rest) => match on_frame (string_of_list_ascii f) c with (true, c') => (true, rest, c') | (false, c') => drain n rest c' end
           end
  end.
(** Every frame takes two characters off the buffer. *)
Fixpoint read_chunks (chunks : list string) (buf : chars) (c : Collecting) : bool * Collecting :=
  match chunks with
  | [] => (false, c)
  | s :: rest => let b := buf ++ lit s in match drain (List.length b) b c with (true, _, c') => (true, c') | (false, buf', c') => read_chunks rest buf' c' end
  end.
End Frames.

(** ** Answers *)

(** A [GatewayApiError], by its error object, a TypeError of the client, or the model out of fuel. *)
Inductive ClientFailure : Type := GatewayApiError (api : value) | ClientTypeError | OutOfFuel.
Definition api_failure (code : string) (extra : list (string * value)) : ClientFailure := GatewayApiError (VObj ([("error", VBool true); ("code", VStr code)] ++ extra)).
(** How a fetch that returned no response failed. *)
Inductive FetchError : Type := Aborted | Unreachable.

(** The error of a response with a status of 400 or more. *)
Definition error_of (status : Z) (json : value) : ClientFailure :=
  match json with
  | VObj o => if strict_eq (get "error" json) (VBool true) then GatewayApiError (VObj (obj_set "http_status" (VNum (NInt status)) o))
              else api_failure "gateway_error" [("http_status", VNum (NInt status))]
  | _ => api_failure "gateway_error" [("http_status", VNum (NInt status))]
  end.
Definition json_of (text : string) : value := if text =s "" then VUndef else default VUndef (JSON_parse text).

(** A stream: refused, or its chunks and how it ended. *)
Inductive StreamEnd : Type := StreamDone | StreamFailed (e : FetchError).
Inductive StreamAnswer : Type := StreamRefused (status : Z) (text : string) | StreamOpen (chunks : list string) (e : StreamEnd).

Record ClientEnv (E : Type) : Type := {
  cl_fetch : ApiCall -> E -> result FetchError (Z * string) * E;
  cl_stream : ApiCall -> option num -> Z -> E -> StreamAnswer * E;          (* Last-Event-ID and the wait *)
  cl_now : E -> Z * E }.
Arguments cl_fetch {E}.
Arguments cl_stream {E}.
Arguments cl_now {E}.

Definition C (E A : Type) : Type := E -> result ClientFailure A * E.
#[global] Instance C_ret (E : Type) : MRet (C E) := fun A a e => (Ok a, e).
#[global] Instance C_bind (E : Type) : MBind (C E) := fun A B k m e => match m e with (Ok a, e') => k a e' | (Err x, e') => (Err x, e') end.
Definition fails {E A : Type} (x : ClientFailure) : C E A := fun e => (Err x, e).

Record CollectedEvents : Type := { ce_task : value; ce_events : list value; ce_next_event_id : num; ce_terminal : bool; ce_blocked : bool; ce_truncated : bool }.
Definition ended_by (r : CollectedEvents) : string := if ce_terminal r then "terminal" else if ce_blocked r then "blocked" else "timeout".

Section Client.
Context {E : Type} (env : ClientEnv E).
Local Notation C := (C E).

Definition request (c : ApiCall) : C value := fun e =>
  match cl_fetch env c e with
  | (Err Aborted, e') => (Err (api_failure "gateway_timeout" [("retryable", VBool true)]), e')
  | (Err Unreachable, e') => (Err (api_failure "gateway_unreachable" [("retryable", VBool true)]), e')
  | (Ok (status, text), e') => (if 400 <=? status then Err (error_of status (json_of text)) else Ok (json_of text), e')
  end.

Definition clamp_wait (waitMs : option Z) : Z := Z.min (Z.max (default DEFAULT_EVENT_WAIT_MS waitMs) EVENT_WAIT_MIN_MS) EVENT_WAIT_MAX_MS.
(** The wait that elapsed is no error; the frames read until then count. *)
Definition read_stream (warning : string) (ends : list string) (c : ApiCall) (afterId : option num) (waitMs : Z) : C Collecting := fun e =>
  let c0 := {| cg_events := []; cg_last := default (NInt (-1)) afterId; cg_truncated := false |} in
  match cl_stream env c afterId waitMs e with
  | (StreamRefused status text, e') => (Err (error_of status (default VUndef (JSON_parse text))), e')
  | (StreamOpen chunks how, e') =>
      match read_chunks warning ends chunks [] c0, how with
      | (false, _), StreamFailed Unreachable => (Err (api_failure "gateway_unreachable" [("retryable", VBool true)]), e')
      | (_, r), _ => (Ok r, e')
      end
  end.
Definition collected (projection : value) (blocking : bool) (r : Collecting) : CollectedEvents :=
  let status := get "status" projection in
  {| ce_task := projection; ce_events := cg_events r; ce_next_event_id := cg_last r;
     ce_terminal := existsb (is_str_lit status) ["completed"; "failed"; "cancelled"]; ce_blocked := blocking && is_str_lit status "blocked"; ce_truncated := cg_truncated r |}.
Definition collectEvents (taskId : string) (afterId : option num) (waitMs : option Z) : C CollectedEvents :=
  r ← read_stream "predates the retained buffer" TERMINAL_TASK_EVENTS (taskEvents taskId) afterId (clamp_wait waitMs);
  task ← request (getTask taskId);
  mret (collected task false r).
Definition collectWorkflowEvents (workflowId : string) (afterId : option num) (waitMs : option Z) : C CollectedEvents :=
  r ← read_stream "truncated" WORKFLOW_END_EVENTS (workflowEvents workflowId) afterId (clamp_wait waitMs);
  workflow ← request (getWorkflow workflowId);
  mret (collected workflow true r).

(** ** Waits *)

Definition clamp_overall (overallWaitMs : option Z) : Z := Z.min (Z.max (default DEFAULT_OVERALL_WAIT_MS overallWaitMs) OVERALL_WAIT_MIN_MS) OVERALL_WAIT_MAX_MS.
Record Waiting : Type := { wa_cursor : num; wa_events : list value; wa_truncated : bool; wa_last : option CollectedEvents }.
(** [poll cursor waitMs]: one collection. *)
Fixpoint wait_loop (fuel : nat) (poll : num -> Z -> C CollectedEvents) (deadline : Z) (x : Waiting) : C Waiting :=
  match fuel with
  | O => fails OutOfFuel
  | S n => fun e =>
      let '(now, e1) := cl_now env e in
      let remaining := deadline - now in
      if remaining <? EVENT_WAIT_MIN_MS then (Ok x, e1) else
      (r ← poll (wa_cursor x) (Z.min remaining EVENT_WAIT_MAX_MS);
       let x' := {| wa_cursor := ce_next_event_id r; wa_events := wa_events x ++ ce_events r; wa_truncated := wa_truncated x || ce_truncated r; wa_last := Some r |} in
       if ce_terminal r || ce_blocked r then mret x' else wait_loop n poll deadline x') e1
  end.
Definition wait_for (fuel : nat) (poll : num -> Z -> C CollectedEvents) (afterId : option num) (overallWaitMs : option Z) : C CollectedEvents := fun e =>
  let '(now, e1) := cl_now env e in
  (x ← wait_loop fuel poll (now + clamp_overall overallWaitMs) {| wa_cursor := default (NInt (-1)) afterId; wa_events := []; wa_truncated := false; wa_last := None |};
   match wa_last x with
   | None => fails ClientTypeError                                            (* last!.task *)
   | Some r => mret {| ce_task := ce_task r; ce_events := wa_events x; ce_next_event_id := wa_cursor x; ce_terminal := ce_terminal r; ce_blocked := ce_blocked r; ce_truncated := wa_truncated x |}
   end) e1.

(** A compact preview of the output, from the delta events in order. *)
Definition delta_text (ev : value) : string := if is_str_lit (get "type" ev) "agent.output.delta" then str_of (get "text" (get "payload" ev)) else "".
Fixpoint preview_go (texts : list string) (maxChars : Z) (text : string) : string * bool :=
  match texts with
  | [] => (text, false)
  | t :: rest =>
      if t =s "" then preview_go rest maxChars text
      else if maxChars <? js_length text + js_length t then (text +:+ utf16_take (Z.max 0 (maxChars - js_length text)) t, true)
      else preview_go rest maxChars (text +:+ t)
  end.
Definition summarizeDeltaEvents (events : list value) (maxChars : Z) : option (string * bool) :=
  let texts := map delta_text events in
  if forallb (fun t => t =s "") texts then None else Some (preview_go texts maxChars "").

Definition waitForTask (fuel : nat) (taskId : string) (afterId : option num) (overallWaitMs : option Z) : C (CollectedEvents * option (string * bool)) :=
  r ← wait_for fuel (fun cursor waitMs => collectEvents taskId (Some cursor) (Some waitMs)) afterId overallWaitMs;
  mret (r, summarizeDeltaEvents (ce_events r) OUTPUT_PREVIEW_MAX_CHARS).
Definition waitForWorkflow (fuel : nat) (workflowId : string) (afterId : option num) (overallWaitMs : option Z) : C CollectedEvents :=
  wait_for fuel (fun cursor waitMs => collectWorkflowEvents workflowId (Some cursor) (Some waitMs)) afterId overallWaitMs.
End Client.
