(* ===== verification/RouterProps.v ===== *)
(** * What reaches the Agent Gateway, and where it goes

    The percent-encoding of identifiers round-trips, every call of the client is routed to
    the handler it is meant for, and no handler is reached without the token. *)

From S2P Require Import Prelude Machine Values Json JsonProps Verification TaskContract Workspace WorkspaceProps GatewayState Gateway GatewayApi WorkflowApi Router GatewayClient.

(** ** Identifiers in paths *)

(** A well-formed UTF-8 text, as a sequence of characters. *)
Inductive utf8_text : chars -> Prop :=
  | utf8_nil : utf8_text []
  | utf8_char (c r : chars) : utf8_seq (map N_of_ascii c) = true -> utf8_text r -> utf8_text (c ++ r).

Lemma octet_percent (c : ascii) (r : chars) : octet (percent c ++ r) = Some (N_of_ascii c, r).
Proof. destruct c as [[][][][][][][][]]; reflexivity. Qed.
Lemma octets_percent (l r : chars) : octets (List.length l) (flat_map percent l ++ r) = Some (map N_of_ascii l, r).
Proof. induction l as [|c l IH]; [done|]. cbn [flat_map List.length octets map]. by rewrite <- app_assoc, octet_percent, IH. Qed.
Lemma unreserved_ascii (c : ascii) : unreserved c = true -> (N_of_ascii c <? 128)%N = true /\ Ascii.eqb c "%" = false /\ Ascii.eqb c "/" = false.
Proof. destruct c as [[][][][][][][][]]; by vm_compute. Qed.
Lemma encode_no_slash (c : ascii) : forallb (fun a => negb (Ascii.eqb a "/")) (encode_char c) = true.
Proof. destruct c as [[][][][][][][][]]; reflexivity. Qed.

(** A character is one plain byte, or the percent codes of all its bytes. *)
Lemma encode_seq (l : chars) : utf8_seq (map N_of_ascii l) = true ->
  (exists c, l = [c] /\ unreserved c = true) \/ (flat_map encode_char l = flat_map percent l /\ l <> []).
Proof.
  destruct l as [|b r]; [done|]. intros H. unfold encode_char. destruct (unreserved b) eqn:Eb.
  - destruct (unreserved_ascii _ Eb) as [Hb _]. left. exists b. split; [|done]. cbn in H. unfold utf8_len in H. rewrite Hb in H. destruct r; [done|]. by cbn in H.
  - right. split; [|done]. cbn [flat_map]. rewrite Eb. f_equal. cbn [map utf8_seq] in H. apply andb_prop in H as [_ H]. destruct r as [|c t]; [done|].
    assert (Hlow : forall x, (128 <=? N_of_ascii x)%N = true -> unreserved x = false).
    { intros x Hx. destruct (unreserved x) eqn:E; [|done]. apply unreserved_ascii in E as [E _]. apply N.leb_le in Hx. apply N.ltb_lt in E. lia. }
    cbn [map] in H. apply andb_prop in H as [Hc Ht]. cbn [flat_map]. rewrite (Hlow c).
    + f_equal. clear Hc. induction t as [|x t IH]; [done|]. cbn in Ht. apply andb_prop in Ht as [Hx Ht]. cbn. apply andb_prop in Hx as [Hx _]. by rewrite (Hlow x Hx), (IH Ht).
    + unfold utf8_second in Hc. apply andb_prop in Hc as [Hc _]. apply N.leb_le. repeat case_match; apply N.leb_le in Hc; lia.
Qed.

Lemma decode_seq (l r : chars) (n : nat) : utf8_seq (map N_of_ascii l) = true -> (List.length (flat_map encode_char l ++ r) <= n)%nat ->
  exists m, (List.length r <= m)%nat /\ decode_chars n (flat_map encode_char l ++ r) = (d ← decode_chars m r; Some (l ++ d)).
Proof.
  intros H Hn. destruct (encode_seq l H) as [(c & -> & Hc)|[E Hl]].
  - revert Hn. cbn [flat_map]. unfold encode_char. rewrite Hc. cbn. intros Hn. destruct n as [|m]; [lia|]. exists m. split; [lia|]. cbn [decode_chars].
    destruct (unreserved_ascii _ Hc) as (_ & -> & _). done.
  - rewrite E in *. destruct l as [|b l]; [done|]. destruct n as [|m]; [cbn in Hn; lia|]. exists m. split; [cbn in Hn; rewrite length_app in Hn; lia|].
    assert (Ho := octets_percent (b :: l) r). assert (Hlen : utf8_len (N_of_ascii b) = List.length (b :: l)).
    { cbn [map utf8_seq] in H. apply andb_prop in H as [H _]. apply Nat.eqb_eq in H. rewrite <- H. cbn. by rewrite length_map. }
    cbn [flat_map] in *. rewrite <- app_assoc in *. change (percent b ++ ?x) with ("%"%char :: tl (percent b) ++ x) at 1. cbn [decode_chars app].
    change (Ascii.eqb "%" "%") with true. cbn [negb]. change ("%"%char :: tl (percent b) ++ ?x) with (percent b ++ x).
    rewrite octet_percent, Hlen, Ho, H. rewrite map_map. erewrite map_ext; [|intros; apply ascii_N_embedding]. by rewrite map_id.
Qed.
Lemma decode_text (l : chars) : utf8_text l -> forall n, (List.length (flat_map encode_char l) <= n)%nat -> decode_chars n (flat_map encode_char l) = Some l.
Proof.
  induction 1 as [|c r Hc Hr IH]; intros n Hn; [by destruct n|]. rewrite flat_map_app in *. destruct (decode_seq c (flat_map encode_char r) n Hc Hn) as (m & Hm & ->).
  by rewrite IH.
Qed.
Lemma uri_roundtrip (s : string) : utf8_text (lit s) -> decodeURIComponent (encodeURIComponent s) = Some s.
Proof.
  intros H. unfold decodeURIComponent, encodeURIComponent, lit. rewrite list_ascii_of_string_of_list_ascii, decode_text; [|done|].
  - cbn. by rewrite string_of_list_ascii_of_string.
  - generalize (flat_map encode_char (list_ascii_of_string s)). intros l. induction l as [|c l IH]; cbn; lia.
Qed.

(** ** Paths *)

Definition segment (p : string) : Prop := p <> "" /\ contains "/" p = false.
Fixpoint path_of (l : list string) : string := match l with [] => "" | p :: r => "/" +:+ p +:+ path_of r end.
Lemma segments_of (p : string) (l : list string) : contains "/" p = false -> Forall segment l -> split_char "/" (p +:+ path_of l) = p :: l.
Proof.
  intros Hp H. revert p Hp. induction H as [|x l [_ Hx] Hl IH]; intros p Hp; cbn [path_of].
  - rewrite append_empty. by apply split_char_none.
  - change ("/" +:+ x +:+ path_of l) with (String "/" (x +:+ path_of l)). by rewrite split_char_app, split_char_none, IH.
Qed.
Lemma path_parts_of (q : Request) (l : list string) : hq_pathname q = path_of l -> Forall segment l -> path_parts q = l.
Proof.
  intros E H. unfold path_parts. rewrite E. change (path_of l) with ("" +:+ path_of l). rewrite segments_of by done. change (List.filter ?f ("" :: l)) with (List.filter f l). clear E.
  induction H as [|p r [Hp _] Hr IH]; [done|]. cbn. apply String.eqb_neq in Hp. by rewrite Hp, IH.
Qed.

(** Identifiers that a path can carry: well-formed texts, no dot segments, which URL parsers remove, and not the name of a sibling route. *)
Definition addressable (id : string) : Prop := utf8_text (lit id) /\ id ∉ [""; "."; ".."; "compile"].
Lemma encoded_segment (id : string) : addressable id -> segment (encodeURIComponent id).
Proof.
  intros [Hu Hn]. split.
  - intros E. assert (Hd := uri_roundtrip id Hu). rewrite E in Hd. injection Hd as <-. set_solver.
  - unfold encodeURIComponent. generalize (lit id). clear. intros l.
    assert (H : forallb (fun a => negb (Ascii.eqb a "/")) (flat_map encode_char l) = true).
    { induction l as [|c l IH]; [done|]. cbn [flat_map]. by rewrite forallb_app, encode_no_slash, IH. }
    revert H. generalize (flat_map encode_char l). clear l. intros l. induction l as [|c l IH]; [done|]. cbn [forallb string_of_list_ascii]. intros H. apply andb_prop in H as [Hc Hl].
    cbn. unfold starts_with. cbn. rewrite (Ascii.eqb_sym "/" c). apply negb_true_iff in Hc. by rewrite Hc, IH.
Qed.

(** ** The calls of the client *)

(** The client and the Gateway it is configured for, with everything wired. *)
Definition wired (token : string) (sv : Services) : Prop :=
  sv_apiToken sv = token /\ sv_shuttingDown sv = false /\ sv_store sv = true /\ sv_runtime sv = true /\ sv_compiler sv = true /\ sv_builder sv = true.
(** A body the Gateway takes. *)
Definition postable (body : value) : Prop := json_data body /\ byteLen (default "" (JSON_stringify body)) <= MAX_BODY_BYTES.

Lemma sent_dispatched (token : string) (sv : Services) (c : ApiCall) (l : list string) : wired token sv -> ac_path c = path_of l -> Forall segment l -> head l = Some "v1" ->
  route sv (sent token c) = dispatch sv (sent token c) /\ path_parts (sent token c) = l.
Proof.
  intros (E & Hd & _) Hp Hs Hh. assert (Hl : path_parts (sent token c) = l) by by apply path_parts_of. split; [|done]. unfold route. rewrite Hd, Hl. destruct l as [|p l]; [done|]. injection Hh as ->.
  change ("v1" =s "ui") with false. unfold bearerMatches. cbn [sent hq_authorization mbind option_bind]. unfold authHeader. rewrite strip_prefix_app. unfold constEq. by rewrite E, String.eqb_refl.
Qed.
Lemma sent_json (token : string) (c : ApiCall) (k : value -> Target) : postable (ac_body c) -> with_json (sent token c) k = k (ac_body c).
Proof.
  intros [Hj Hb]. unfold with_json, readBody, sent. cbn [hq_body]. apply Z.ltb_ge in Hb. rewrite Hb. destruct (JSON_roundtrip _ Hj) as (t & Ht & Hp). rewrite Ht. cbn. by rewrite Hp.
Qed.
Lemma sent_id (id : string) (k : string -> Target) : addressable id -> with_id (encodeURIComponent id) k = k id.
Proof.
  intros [Hu Hn]. unfold with_id. rewrite uri_roundtrip by done. assert (H : id <> "") by set_solver. apply String.eqb_neq in H. by rewrite H.
Qed.
Lemma not_compile (id : string) : addressable id -> (encodeURIComponent id =s "compile") = false.
Proof.
  intros [Hu Hn]. apply String.eqb_neq. intros E. assert (Hd := uri_roundtrip id Hu). rewrite E in Hd. injection Hd as <-. set_solver.
Qed.

(** What each call of the client is meant for. *)
Definition calls (id : string) (body : value) (status : option string) (limit offset : option num) : list (ApiCall * Target) :=
  [(listAgents, ListAgents); (startTask body, CreateTask); (getTask id, GetTask id); (cancelTask id, CancelTask id); (taskEvents id, TaskEvents id);
   (listWorkflows status limit offset, Workflow (ListWorkflows (hq_search (sent "" (listWorkflows status limit offset)))));
   (createWorkflow body, Workflow (CreateWorkflow body)); (startWorkflow id, Workflow (StartWorkflow id)); (getWorkflow id, Workflow (GetWorkflow id));
   (cancelWorkflow id, Workflow (CancelWorkflow id)); (workflowEvents id, WorkflowEvents id); (getPendingRequest id, Workflow (PendingRequest id));
   (answerWorkflowInput id body, Workflow (AnswerInput id body)); (decideWorkflowApproval id body, Workflow (DecideApproval id body)); (resumeWorkflow id, Workflow (ResumeWorkflow id));
   (compileWorkflow body, CompileDraft body); (getWorkflowDraft id, GetDraft id); (approveWorkflowDraft id body, ApproveDraft id body)].

(** Comparisons of literals. *)
Ltac compare_literals := repeat match goal with |- context [?a =s ?b] => let v := eval vm_compute in (a =s b) in first [constr_eq v true|constr_eq v false]; change (a =s b) with v end; cbv beta iota.
(** The path of the call is that of the segments [l]; the tests of the route compute. *)
Ltac routed l :=
  match goal with Hw : wired ?t ?sv |- route _ (sent _ ?c) = _ => let H1 := fresh in let H2 := fresh in
    destruct (sent_dispatched t sv c l Hw) as [H1 H2];
      [cbn -[append encodeURIComponent]; rewrite ?append_empty; reflexivity|repeat (apply List.Forall_cons; [first [assumption|by split]|]); apply List.Forall_nil|reflexivity|];
    rewrite H1; unfold dispatch; rewrite H2; clear H1 H2; destruct Hw as (_ & _ & Hst & Hrt & Hcp & _); 
    compare_literals; cbn [negb andb]; unfold handleWorkflows, handleWorkflowDrafts, task_routes, available, on_method; rewrite ?Hst, ?Hrt, ?Hcp; cbn [negb hq_method sent ac_method GET POST] end.

(** C34. The client and the Gateway agree on the API: whatever the identifier, percent-encoded in the path, and whatever the JSON body within the limit
    (with integers below 10^21 as numbers), each of the eighteen calls of the client is authenticated, routed to the handler it is meant for, and handed the same identifier and
    the same body (the route of a task creation carries none). *)
Theorem client_calls_routed (token : string) (sv : Services) (id : string) (body : value) (status : option string) (limit offset : option num) :
  wired token sv -> addressable id -> postable body ->
  Forall (fun p => route sv (sent token (fst p)) = snd p) (calls id body status limit offset).
Proof.
  intros Hw Hi Hb. assert (Hs := encoded_segment id Hi). unfold calls. repeat (apply List.Forall_cons; [cbn [fst snd]|]); [..|apply List.Forall_nil].
  - routed ["v1"; "agents"]. done.
  - routed ["v1"; "tasks"]. done.
  - routed ["v1"; "tasks"; encodeURIComponent id]. rewrite sent_id by done. by compare_literals.
  - routed ["v1"; "tasks"; encodeURIComponent id; "cancel"]. rewrite sent_id by done. by compare_literals.
  - routed ["v1"; "tasks"; encodeURIComponent id; "events"]. rewrite sent_id by done. by compare_literals.
  - routed ["v1"; "workflows"]. done.
  - routed ["v1"; "workflows"]. by rewrite sent_json.
  - routed ["v1"; "workflows"; encodeURIComponent id; "start"]. rewrite sent_id by done. by compare_literals.
  - routed ["v1"; "workflows"; encodeURIComponent id]. rewrite sent_id by done. by compare_literals.
  - routed ["v1"; "workflows"; encodeURIComponent id; "cancel"]. rewrite sent_id by done. by compare_literals.
  - routed ["v1"; "workflows"; encodeURIComponent id; "events"]. rewrite sent_id by done. by compare_literals.
  - routed ["v1"; "workflows"; encodeURIComponent id; "pending-request"]. rewrite sent_id by done. by compare_literals.
  - routed ["v1"; "workflows"; encodeURIComponent id; "answer"]. rewrite sent_id by done. compare_literals. by rewrite sent_json.
  - routed ["v1"; "workflows"; encodeURIComponent id; "decision"]. rewrite sent_id by done. compare_literals. by rewrite sent_json.
  - routed ["v1"; "workflows"; encodeURIComponent id; "resume"]. rewrite sent_id by done. by compare_literals.
  - routed ["v1"; "workflow-drafts"; "compile"]. by rewrite sent_json.
  - routed ["v1"; "workflow-drafts"; encodeURIComponent id]. rewrite not_compile, sent_id by done. by compare_literals.
  - routed ["v1"; "workflow-drafts"; encodeURIComponent id; "approve"]. rewrite sent_id by done. compare_literals. by rewrite sent_json.
Qed.

Module RouterDemo.
Definition services : Services := {| sv_apiToken := "secret"; sv_shuttingDown := false; sv_store := true; sv_runtime := true; sv_compiler := true; sv_builder := true |}.
(** "wf/1 ü" *)
Definition id : string := "wf/1 " +:+ String "195" (String "188" "").
Lemma id_addressable : addressable id.
Proof.
  split; [|rewrite list_elem_of_In; intros H; by repeat destruct H as [H|H]].
  do 5 (apply (utf8_char [_]); [reflexivity|]). apply (utf8_char [_; _]); [reflexivity|]. apply utf8_nil.
Qed.
Definition body : value := VObj [("value", VStr "yes")].
End RouterDemo.

Lemma client_calls_routed_witness : Forall (fun p => route RouterDemo.services (sent "secret" (fst p)) = snd p) (calls RouterDemo.id RouterDemo.body None (Some (NInt 5)) None).
Proof. apply client_calls_routed; [by repeat split|apply RouterDemo.id_addressable|split; [by repeat split|by vm_compute]]. Defined.

(** ** No handler without the token *)

(** Targets that read or change what the Gateway serves, and those that change it. *)
Definition handled (t : Target) : bool := match t with Refused _ _ | MethodNotAllowed _ | Redirect _ | Page _ => false | _ => true end.
Definition changes (t : Target) : bool :=
  match t with
  | CreateTask | CancelTask _ | CompileDraft _ | ApproveDraft _ _ | CreateSession _ | SendMessage _ _ | ArchiveSession _ => true
  | Workflow (CreateWorkflow _ | StartWorkflow _ | CancelWorkflow _ | AnswerInput _ _ | DecideApproval _ _ | ResumeWorkflow _) => true
  | _ => false
  end.
(** The token is in the header, or percent-encoded in a cookie of the Gateway. *)
Definition presents (q : Request) (token : string) : Prop :=
  hq_authorization q = Some ("Bearer " +:+ token) \/
  exists raw part v, hq_cookie q = Some raw /\ In part (split_char ";" raw) /\ (trim part = "vibe_gw=" +:+ v \/ trim part = "vibe_gw" /\ v = "") /\
    decodeURIComponent v = Some token.

Lemma split_at_char_Some (c : ascii) (s a b : string) : split_at_char c s = Some (a, b) -> s = a +:+ String c b.
Proof.
  revert a. induction s as [|x s IH]; intros a; cbn [split_at_char]; [done|]. destruct (Ascii.eqb_spec x c) as [->|]; [by intros [= <- <-]|].
  destruct (split_at_char c s) as [[l r]|]; [|done]. intros [= <- <-]. by rewrite append_cons, (IH l eq_refl).
Qed.
Lemma cookie_presents (cookie : option string) (token : string) : cookieToken cookie = Some (Some token) ->
  exists raw part v, cookie = Some raw /\ In part (split_char ";" raw) /\ (trim part = "vibe_gw=" +:+ v \/ trim part = "vibe_gw" /\ v = "") /\ decodeURIComponent v = Some token.
Proof.
  unfold cookieToken. destruct cookie as [raw|]; [|done]. destruct (List.find _ _) as [[k v]|] eqn:Ef; [|done]. apply List.find_some in Ef as [Hin Hk].
  cbn in Hk. apply String.eqb_eq in Hk as ->. apply in_map_iff in Hin as (part & Hp & Hin). intros H. destruct (decodeURIComponent v) as [t|] eqn:Ed; [|done].
  injection H as ->. exists raw, part, v. split; [done|]. split; [done|]. split; [|done]. unfold cookie_pair in Hp.
  destruct (split_at_char "=" (trim part)) as [[a b]|] eqn:Es; injection Hp as Hp Hv.
  - left. rewrite (split_at_char_Some _ _ _ _ Es), Hp, Hv. reflexivity.
  - right. rewrite Hp, <- Hv. split; reflexivity.
Qed.
Lemma bearer_presents (q : Request) (token : string) : bearerMatches q token = Some true -> presents q token.
Proof.
  unfold bearerMatches, presents, constEq. destruct (match _ with Some t => _ | None => false end) eqn:E.
  - intros _. left. destruct (hq_authorization q) as [h|]; [|done]. cbn [mbind option_bind] in E. destruct (strip_prefix "Bearer " h) as [t|] eqn:Es; [|done].
    apply String.eqb_eq in E as ->. by rewrite (strip_prefix_Some _ _ _ Es).
  - destruct (cookieToken (hq_cookie q)) as [[t|]|] eqn:Ec; cbn; [|done|done]. intros [= H]. apply String.eqb_eq in H as ->. right. by apply cookie_presents.
Qed.
Definition by_post (q : Request) (t : Target) : Prop := (changes t = true -> hq_method q = "POST") /\ (forall location, t <> Redirect location).
Lemma post_if (q : Request) (m : string) (a b : Target) : (hq_method q = m -> by_post q a) -> by_post q b -> by_post q (if hq_method q =s m then a else b).
Proof. destruct (hq_method q =s m) eqn:E; [|done]. apply String.eqb_eq in E. auto. Qed.
Lemma with_json_post (q : Request) (k : value -> Target) : (forall v, by_post q (k v)) -> by_post q (with_json q k).
Proof. intros H. unfold with_json. repeat case_match; first [by apply H|by split]. Qed.
Lemma with_id_post (q : Request) (p : string) (k : string -> Target) : (forall v, by_post q (k v)) -> by_post q (with_id p k).
Proof. intros H. unfold with_id. repeat case_match; first [by apply H|by split]. Qed.
Lemma available_post (q : Request) (b : bool) (code : string) (t : Target) : by_post q t -> by_post q (available b code t).
Proof. intros H. destruct b; [exact H|by split]. Qed.
Lemma dispatch_post (sv : Services) (q : Request) : by_post q (dispatch sv q).
Proof.
  unfold dispatch, handleWorkflows, handleWorkflowDrafts, handleWorkflowBuilder, task_routes, on_method. generalize (path_parts q). intros parts.
  repeat first [by split | apply post_if; [intros ?|] | apply with_json_post; intros ? | apply with_id_post; intros ? | apply available_post | case_match].
Qed.

(** C27. Whatever is sent, a request reaches a handler only when the Gateway is not stopping
    and the request presents the token, in its Authorization header or percent-encoded in a
    cookie of the Gateway; it reaches a handler that changes something only when it is
    moreover a POST.  A request without the token to anything but the UI is answered 401 (500
    where its cookie cannot be decoded).  The redirect that hands out the cookie goes only
    to a request that has the token in its query. *)
Theorem requests_authenticated (sv : Services) (q : Request) :
  (handled (route sv q) = true -> sv_shuttingDown sv = false /\ presents q (sv_apiToken sv))
  /\ (changes (route sv q) = true -> hq_method q = "POST")
  /\ (sv_shuttingDown sv = false -> head (path_parts q) <> Some "ui" -> ~ presents q (sv_apiToken sv) ->
      route sv q = Refused 401 "unauthorized" \/ route sv q = Refused 500 "internal_error" /\ cookieToken (hq_cookie q) = None)
  /\ (forall location, route sv q = Redirect location -> hq_search q "token" = Some (sv_apiToken sv)).
Proof.
  unfold route. destruct (sv_shuttingDown sv); [done|]. destruct (path_parts q) as [|p parts] eqn:Ep; [|destruct (p =s "ui") eqn:Eu].
  2:{ unfold ui, constEq. apply String.eqb_eq in Eu as ->. destruct (negb (hq_method q =s "GET")); [done|]. destruct (hq_search q "token") as [t|]; [|done].
      destruct (t =s sv_apiToken sv) eqn:E; [|done]. apply String.eqb_eq in E as ->. done. }
  all: destruct (bearerMatches q (sv_apiToken sv)) as [[]|] eqn:E; (split; [intros Hh; first [done|split; [done|by apply bearer_presents]]|]);
    destruct (dispatch_post sv q) as [Hp Hr]; (split; [first [exact Hp|done]|]); (split; [intros _ _ Hn; first [by destruct Hn; apply bearer_presents|by left|right; split; [done|]]|]);
    try (intros l Hl; by first [destruct (Hr l)|discriminate]).
  all: unfold bearerMatches in E; destruct (match _ with Some t => _ | None => false end); [done|]; by destruct (cookieToken (hq_cookie q)).
Qed.
