(* ===== verification/StreamClient.v ===== *)
(** * The client reads the stream: from the durable log to the caller

    The events a client collects, however its polls end and however the text of a stream
    is cut into chunks, are an exact tail of the durable log of the workflow. *)

From S2P Require Import Prelude Machine Values Json JsonProps OutputProps Contract Verification Outputs StoreRows Store StoreOps StoreProps StoreInv StoreRun RuntimeEnv Runtime RuntimeProps TaskContract Workspace EventStream EventStreamProps WorkflowApi Router GatewayClient.

(** ** Server-sent events survive any chunking *)

Definition NL : ascii := "010"%char.

(** ** Splitting a text into frames *)

Lemma next_frame_cons (a b : ascii) (r : chars) : next_frame (a :: b :: r) =
  if (Ascii.eqb a NL && Ascii.eqb b NL)%bool then Some ([], r) else match next_frame (b :: r) with Some (f, rest) => Some (a :: f, rest) | None => None end.
Proof. done. Qed.
Lemma next_frame_app (b s f r : chars) : next_frame b = Some (f, r) -> next_frame (b ++ s) = Some (f, r ++ s).
Proof.
  revert f r. induction b as [|a t IH]; intros f r; [done|]. destruct t as [|b' t']; [done|]. cbn [app]. rewrite !next_frame_cons. intros H.
  destruct (_ && _)%bool; [injection H as <- <-; done|]. destruct (next_frame (b' :: t')) as [[f' r']|]; [|done]. injection H as <- <-.
  cbn [app] in IH. by rewrite (IH f' r' eq_refl).
Qed.
Lemma next_frame_shorter (b f r : chars) : next_frame b = Some (f, r) -> (List.length r + 2 <= List.length b)%nat.
Proof.
  revert f r. induction b as [|a t IH]; intros f r; [done|]. destruct t as [|b' t']; [done|]. rewrite next_frame_cons. intros H.
  destruct (_ && _)%bool; [injection H as <- <-; cbn; lia|]. destruct (next_frame (b' :: t')) as [[f' r']|] eqn:E; [|done]. injection H as <- <-. specialize (IH _ _ eq_refl). cbn in *. lia.
Qed.

Fixpoint frames_of (fuel : nat) (b : chars) : list string * chars :=
  match fuel with
  | O => ([], b)
  | S n => match next_frame b with None => ([], b) | Some (f, r) => let (fs, t) := frames_of n r in (string_of_list_ascii f :: fs, t) end
  end.
Lemma frames_fuel (n m : nat) (b : chars) : (List.length b <= n)%nat -> (List.length b <= m)%nat -> frames_of n b = frames_of m b.
Proof.
  revert m b. induction n as [|n IH]; intros m b Hn Hm; [destruct b; [|cbn in Hn; lia]; by destruct m|]. destruct m as [|m]; [destruct b; [done|cbn in Hm; lia]|]. cbn.
  destruct (next_frame b) as [[f r]|] eqn:E; [|done]. apply next_frame_shorter in E. by rewrite (IH m r) by lia.
Qed.
Definition frames (b : chars) : list string * chars := frames_of (List.length b) b.
Lemma frames_step (b : chars) : frames b = match next_frame b with None => ([], b) | Some (f, r) => let (fs, t) := frames r in (string_of_list_ascii f :: fs, t) end.
Proof.
  unfold frames at 1. destruct (List.length b) as [|n] eqn:L; [by destruct b|]. cbn. destruct (next_frame b) as [[f r]|] eqn:E; [|done]. apply next_frame_shorter in E.
  unfold frames. by rewrite (frames_fuel n (List.length r)) by lia.
Qed.
Lemma frames_app (b s : chars) : frames (b ++ s) = let (fs, t) := frames b in let (fs', t') := frames (t ++ s) in (fs ++ fs', t').
Proof.
  remember (List.length b) as n eqn:Hn. assert (Hle : (List.length b <= n)%nat) by lia. clear Hn. revert b Hle. induction n as [|n IH]; intros b Hle.
  - destruct b; [|cbn in Hle; lia]. change (frames []) with (@nil string, @nil ascii). cbv beta iota. cbn [app]. by destruct (frames s).
  - rewrite (frames_step b). destruct (next_frame b) as [[f r]|] eqn:E; [|cbn; by destruct (frames (b ++ s))].
    rewrite frames_step, (next_frame_app _ s _ _ E). apply next_frame_shorter in E. rewrite (IH r) by lia. destruct (frames r) as [fs t]. by destruct (frames (t ++ s)).
Qed.

(** ** The reader *)

Section Reader.
Context (warning : string) (ends : list string).

Fixpoint run_frames (fs : list string) (c : Collecting) : bool * Collecting :=
  match fs with [] => (false, c) | f :: rest => match on_frame warning ends f c with (true, c') => (true, c') | (false, c') => run_frames rest c' end end.
Lemma run_frames_app (l l' : list string) (c : Collecting) : run_frames (l ++ l') c = match run_frames l c with (true, c') => (true, c') | (false, c') => run_frames l' c' end.
Proof. revert c. induction l as [|f l IH]; intros c; [done|]. cbn. destruct (on_frame warning ends f c) as [[] c']; [done|apply IH]. Qed.

Lemma drain_frames (n : nat) (b : chars) (c : Collecting) : (List.length b <= n)%nat ->
  match drain warning ends n b c with (stop, rest, c') => run_frames (fst (frames b)) c = (stop, c') /\ (stop = false -> rest = snd (frames b)) end.
Proof.
  revert b c. induction n as [|n IH]; intros b c Hn; [destruct b; [by split|cbn in Hn; lia]|]. cbn. rewrite frames_step.
  destruct (next_frame b) as [[f r]|] eqn:E; [|by split]. apply next_frame_shorter in E. specialize (IH r). destruct (frames r) as [fs t]. cbn.
  destruct (on_frame warning ends (string_of_list_ascii f) c) as [[] c']; [by split|]. specialize (IH c'). apply IH. lia.
Qed.
(** However the text is cut into chunks, the reader runs through its frames. *)
Lemma read_chunks_frames (chunks : list string) (buf : chars) (c : Collecting) : frames buf = ([], buf) ->
  read_chunks warning ends chunks buf c = run_frames (fst (frames (buf ++ flat_map lit chunks))) c.
Proof.
  revert buf c. induction chunks as [|s chunks IH]; intros buf c Hb; cbn [read_chunks flat_map]; [by rewrite app_nil_r, Hb|].
  assert (H := drain_frames (List.length (buf ++ lit s)) (buf ++ lit s) c (le_n _)). rewrite app_assoc, frames_app.
  destruct (drain warning ends (List.length (buf ++ lit s)) (buf ++ lit s) c) as [[stop rest] c']. destruct H as [Hr Hrest].
  destruct (frames (buf ++ lit s)) as [fs t] eqn:E. cbn in Hr, Hrest. destruct stop.
  - destruct (frames (t ++ flat_map lit chunks)) as [fs' t']. cbn [fst]. by rewrite run_frames_app, Hr.
  - rewrite (Hrest eq_refl). rewrite IH; [|].
    + destruct (frames (t ++ flat_map lit chunks)) as [fs' t']. cbn [fst]. by rewrite run_frames_app, Hr.
    + assert (Hx := frames_app (buf ++ lit s) []). rewrite app_nil_r, E, app_nil_r in Hx. destruct (frames t) as [fs' t']. injection Hx as Hfs <-.
      assert (fs' = []) as -> by (apply (f_equal List.length) in Hfs; rewrite length_app in Hfs; destruct fs'; [done|cbn in Hfs; lia]). done.
Qed.
End Reader.

(** ** Text without newlines *)

Definition no_nl (l : chars) : bool := forallb (fun c => negb (Ascii.eqb c NL)) l.
Lemma no_nl_app (a b : chars) : no_nl (a ++ b) = no_nl a && no_nl b.
Proof. apply forallb_app. Qed.
Lemma no_nl_digits (l : chars) : forallb (fun c => is_digit c || Ascii.eqb c "-") l = true -> no_nl l = true.
Proof.
  unfold no_nl. rewrite !forallb_forall. intros H c Hc. specialize (H c Hc). apply negb_true_iff, Ascii.eqb_neq. by intros ->.
Qed.
Lemma no_nl_zstr (z : Z) : no_nl (lit (zstr z)) = true.
Proof. apply no_nl_digits, zstr_digits. Qed.
Lemma no_nl_flat {A : Type} (f : A -> chars) (l : list A) : (forall x, In x l -> no_nl (f x) = true) -> no_nl (flat_map f l) = true.
Proof.
  intros H. induction l as [|x l IH]; [done|]. cbn [flat_map]. rewrite no_nl_app, (H x) by by left. apply IH. intros y Hy. apply H. by right.
Qed.
Lemma no_nl_escape (c : ascii) : no_nl (escape c) = true.
Proof. destruct c as [[] [] [] [] [] [] [] []]; vm_compute; reflexivity. Qed.
Lemma no_nl_quote (s : string) : no_nl (quote s) = true.
Proof. unfold quote. change (dquote :: ?l) with ([dquote] ++ l). rewrite !no_nl_app, no_nl_flat; [done|]. intros. apply no_nl_escape. Qed.
Lemma no_nl_join (l : list chars) : Forall (fun x => no_nl x = true) l -> no_nl (join_comma l) = true.
Proof.
  induction 1 as [|x l Hx _ IH]; [done|]. destruct l as [|y l]; [done|]. rewrite join_two, no_nl_app, Hx. exact IH.
Qed.

Lemma print_num_zstr (z : Z) : Z.abs z < 10 ^ 21 -> print_num (NInt z) = lit (zstr z).
Proof.
  intros Hz. unfold print_num. assert (Z.of_nat (List.length (digits_of (Z.to_N (Z.abs z)))) <=? 21 = true) as ->.
  { apply Z.leb_le. assert (List.length (digits_of (Z.to_N (Z.abs z))) <= 21)%nat; [|lia]. apply digits_go_len. cbn. lia. }
  unfold zstr, lit at 2. rewrite list_ascii_of_string_of_list_ascii. destruct (z <? 0) eqn:E; bsimpl; [by rewrite Z.abs_neq by lia|by rewrite Z.abs_eq by lia].
Qed.
Lemma pr_no_nl (v : value) : json_data v -> no_nl (pr v) = true.
Proof.
  induction v as [| |b|n|s|l IH|o IH] using value_ind'; intros Hv; [done|done|by destruct b|..].
  - destruct n as [z| | |]; try done. cbn in Hv. unfold pr. cbn [print]. rewrite print_num_zstr by done. apply no_nl_zstr.
  - apply no_nl_quote.
  - rewrite json_data_arr in Hv. rewrite print_arr. change ("["%char :: ?x) with (["["%char] ++ x). rewrite !no_nl_app, no_nl_join; [done|].
    apply Forall_map. rewrite Forall_forall in *. intros x Hx. by apply IH, Hv.
  - rewrite json_data_obj in Hv. destruct Hv as [_ Hv]. rewrite print_obj by done. change ("{"%char :: ?x) with (["{"%char] ++ x). rewrite !no_nl_app, no_nl_join; [done|].
    apply Forall_map. rewrite Forall_forall in *. intros kv Hkv. unfold member. change (":"%char :: ?x) with ([":"%char] ++ x). rewrite !no_nl_app, no_nl_quote, IH by auto. done.
Qed.
Lemma stringify_no_nl (v : value) (j : string) : json_data v -> JSON_stringify v = Some j -> no_nl (lit j) = true.
Proof.
  intros Hv. unfold JSON_stringify. destruct (pr_opener v Hv) as [-> _]. intros H. assert (j = string_of_list_ascii (pr v)) as -> by (by injection H).
  unfold lit. rewrite list_ascii_of_string_of_list_ascii. by apply pr_no_nl.
Qed.

(** ** Frames that end where they should *)

Definition sealed (f : chars) : Prop := next_frame (f ++ [NL]) = None.
Lemma sealed_next (f r : chars) : sealed f -> next_frame (f ++ NL :: NL :: r) = Some (f, r).
Proof.
  unfold sealed. induction f as [|a f IH]; [done|]. cbn [app]. destruct f as [|b f]; cbn [app] in *.
  - rewrite !next_frame_cons. destruct (Ascii.eqb a NL); done.
  - rewrite !next_frame_cons. destruct (_ && _)%bool; [done|]. intros H. destruct (next_frame (b :: f ++ [NL])) as [[? ?]|] eqn:E; [done|]. by rewrite (IH eq_refl).
Qed.
Lemma sealed_line (l : chars) : no_nl l = true -> sealed l.
Proof.
  unfold sealed. induction l as [|a l IH]; [done|]. cbn [no_nl forallb]. intros [Ha Hl]%andb_prop. apply negb_true_iff in Ha. cbn [app]. destruct l as [|b l]; cbn [app] in *.
  - rewrite next_frame_cons, Ha. done.
  - rewrite next_frame_cons, Ha, (IH Hl). done.
Qed.
Lemma sealed_more (l : chars) (c : ascii) (r : chars) : no_nl l = true -> Ascii.eqb c NL = false -> sealed (c :: r) -> sealed (l ++ NL :: c :: r).
Proof.
  unfold sealed. intros Hl Hc Hr. induction l as [|a l IH]; cbn [app] in *; [by rewrite next_frame_cons, Hc, andb_false_r, Hr|].
  cbn [no_nl forallb] in Hl. apply andb_prop in Hl as [Ha Hl]. apply negb_true_iff in Ha. specialize (IH Hl). destruct l as [|b l]; cbn [app] in *; by rewrite next_frame_cons, Ha, IH.
Qed.
Lemma frames_sealed (f r : chars) : sealed f -> frames (f ++ NL :: NL :: r) = let (fs, t) := frames r in (string_of_list_ascii f :: fs, t).
Proof. intros H. by rewrite frames_step, sealed_next. Qed.
(** The frames of a prefix of a text are a prefix of its frames. *)
Lemma frames_prefix (b t : chars) : b `prefix_of` t -> fst (frames b) `prefix_of` fst (frames t).
Proof. intros [s ->]. rewrite frames_app. destruct (frames b) as [fs r]. destruct (frames (r ++ s)) as [fs' r']. by exists fs'. Qed.

(** ** The lines of a frame *)

Lemma split_line (l r : string) : no_nl (lit l) = true -> split_char NL (l +:+ String NL r) = l :: split_char NL r.
Proof.
  induction l as [|a l IH]; intros H; [done|]. cbn in H. apply andb_prop in H as [Ha Hl]. apply negb_true_iff in Ha. rewrite append_cons. cbn [split_char]. rewrite Ha, (IH Hl). done.
Qed.
Lemma split_last_line (l : string) : no_nl (lit l) = true -> split_char NL l = [l].
Proof.
  induction l as [|a l IH]; intros H; [done|]. cbn in H. apply andb_prop in H as [Ha Hl]. apply negb_true_iff in Ha. cbn [split_char]. rewrite Ha, (IH Hl). done.
Qed.
Definition event_body (id ty data : string) : string := "id: " +:+ id +:+ String NL ("event: " +:+ ty +:+ String NL ("data: " +:+ data)).
Lemma event_lines (id ty data : string) : no_nl (lit id) = true -> no_nl (lit ty) = true -> no_nl (lit data) = true ->
  frame_lines (event_body id ty data) = {| ln_type := ty; ln_data := data; ln_id := id |}.
Proof.
  intros Hi Ht Hd. unfold frame_lines, event_body. rewrite <- (append_assoc "id: "), split_line by (rewrite lit_app, no_nl_app, Hi; done).
  rewrite <- (append_assoc "event: "), split_line by (rewrite lit_app, no_nl_app, Ht; done). rewrite split_last_line by (rewrite lit_app, no_nl_app, Hd; done).
  reflexivity.
Qed.
Lemma sealed_lines (l : string) (c : ascii) (r : string) : no_nl (lit l) = true -> Ascii.eqb c NL = false -> sealed (lit (String c r)) -> sealed (lit (l +:+ String NL (String c r))).
Proof. intros Hl Hc Hr. rewrite lit_app. by apply sealed_more. Qed.
Lemma event_sealed (id ty data : string) : no_nl (lit id) = true -> no_nl (lit ty) = true -> no_nl (lit data) = true -> sealed (lit (event_body id ty data)).
Proof.
  intros Hi Ht Hd. unfold event_body. rewrite <- (append_assoc "id: "), <- (append_assoc "event: ").
  apply (sealed_lines _ "e"); [by rewrite lit_app, no_nl_app, Hi|done|].
  change (sealed (lit (("event: " +:+ ty) +:+ String NL (String "d" ("ata: " +:+ data))))). apply sealed_lines; [by rewrite lit_app, no_nl_app, Ht|done|].
  apply sealed_line. change (no_nl (lit ("data: " +:+ data)) = true). by rewrite lit_app, no_nl_app, Hd.
Qed.

(** ** Number(String(n)) *)

Lemma digit_cases (c : ascii) : is_digit c = true -> In c (lit "0123456789").
Proof. destruct c as [[] [] [] [] [] [] [] []]; vm_compute; intros H; try discriminate H; tauto. Qed.
Lemma ws_head_digit (c : ascii) (r : list N) : is_digit c = true -> ws_head (N_of_ascii c :: r) = None.
Proof. intros H%digit_cases. by repeat destruct H as [<-|H]. Qed.
Lemma ws_tail_digit (c : ascii) (l : chars) : is_digit c = true -> forallb is_digit l = true -> ws_tail (map N_of_ascii (c :: l)) = None.
Proof.
  intros Hc Hl. destruct l as [|d l]; [apply digit_cases in Hc; by repeat destruct Hc as [<-|Hc]|]. cbn in Hl. apply andb_prop in Hl as [Hd _].
  apply digit_cases in Hc, Hd. by repeat destruct Hc as [<-|Hc]; repeat destruct Hd as [<-|Hd].
Qed.
Lemma trim_digits (l : chars) : forallb is_digit l = true -> trim (string_of_list_ascii l) = string_of_list_ascii l.
Proof.
  intros Hl. assert (Hrev : forallb is_digit (rev l) = true) by (rewrite forallb_forall in *; intros c Hc; apply Hl; by apply in_rev).
  unfold trim, bytes_of. rewrite list_ascii_of_string_of_list_ascii.
  assert (Hh : forall n, drop_while_opt ws_head n (map N_of_ascii l) = map N_of_ascii l).
  { intros [|n]; [done|]. cbn [drop_while_opt]. destruct l as [|c l]; [done|]. cbn in Hl. apply andb_prop in Hl as [Hc _]. cbn [map]. by rewrite ws_head_digit. }
  rewrite Hh, <- map_rev.
  assert (Ht : forall n, drop_while_opt ws_tail n (map N_of_ascii (rev l)) = map N_of_ascii (rev l)).
  { intros [|n]; [done|]. cbn [drop_while_opt]. destruct (rev l) as [|c r]; [done|]. cbn in Hrev. apply andb_prop in Hrev as [Hc Hr]. by rewrite ws_tail_digit. }
  rewrite Ht, <- map_rev, rev_involutive. unfold of_bytes. rewrite map_map. f_equal. rewrite <- (map_id l) at 2. apply map_ext. apply ascii_N_embedding.
Qed.
Lemma radix_digits (l : chars) : forallb is_digit l = true -> radix_literal l = None.
Proof.
  destruct l as [|z [|x [|c r]]]; try done. cbn [forallb]. intros [_ [Hx [Hc _]%andb_prop]%andb_prop]%andb_prop. unfold radix_literal. destruct (negb (Ascii.eqb z "0")); [done|].
  apply digit_cases in Hx, Hc. by repeat destruct Hx as [<-|Hx]; repeat destruct Hc as [<-|Hc].
Qed.
Lemma decimal_digits (n : N) : Z.of_N n < 10 ^ 21 -> decimal_literal false (digits_of n) = NInt (Z.of_N n).
Proof.
  intros Hn. destruct (digits_of_cons n) as (c & r & E & Hc). assert (Hd := digits_of_digits n). unfold decimal_literal.
  rewrite bool_decide_false by (rewrite E; intros [= -> _]; done). rewrite <- (app_nil_r (digits_of n)) at 1. rewrite span_digits_app by done. cbn [expect].
  rewrite app_nil_r, digits_of_val, E. cbn [parse_exp List.length]. change (Z.of_nat 0 - 0) with 0. cbn [Z.max Z.opp]. rewrite Z.pow_0_r, !Z.mul_1_r.
  rewrite (proj2 (Z.leb_gt _ _)); [|]. 2: { etransitivity; [exact Hn|]. by apply Z.ltb_lt. }
  cbn. f_equal. lia.
Qed.
Lemma Number_zstr (z : Z) : 0 <= z < 10 ^ 21 -> Number (zstr z) = NInt z.
Proof.
  intros Hz. unfold Number, zstr. rewrite (proj2 (Z.ltb_ge z 0)) by lia. set (n := Z.to_N z). assert (Hd := digits_of_digits n). rewrite (trim_digits _ Hd).
  unfold lit. rewrite list_ascii_of_string_of_list_ascii, radix_digits by done. rewrite decimal_digits by lia. replace (Z.of_N n) with z by lia.
  destruct (digits_of_cons n) as (c & r & -> & Hc). unfold expect. by rewrite !(digit_not c) by done.
Qed.

(** ** The types of the events in the log *)

Definition types_known (d : DB) : Prop := forall e, In e (db_workflow_events d) -> isWorkflowEventType (we_event_type e) = true.
Lemma types_modify (f : DB -> DB) : (forall d, db_workflow_events (f d) = db_workflow_events d) -> Preserves (keeps types_known) (modify f).
Proof. intros H. apply keeps_modify. intros d Hd e. rewrite H. apply Hd. Qed.
#[local] Hint Extern 5 (Preserves (keeps types_known) (modify _)) => (apply types_modify; done) : typeclass_instances.
#[global] Instance types_append (now id : string) (n : Z) (ev : WorkflowEventDraft) : Preserves (keeps types_known) (appendWorkflowEventSync now id n ev).
Proof.
  intros d. unfold appendWorkflowEventSync, theWorkflow. run. destruct (n <=? w_last_event_sequence a); [apply run_last; [apply _|reflexivity]|].
  run. unfold insert_workflow_event, update_workflow. run. cbn. intros Hd e. cbn. intros [He|[<-|[]]]%in_app_iff; [by apply Hd|done].
Qed.
Section Steps.
#[local] Hint Constants Opaque : typeclass_instances.
Lemma types_step (d d' : DB) : store_step d d' -> keeps types_known d d'.
Proof. destruct 1; by_preservation; preserve. Qed.
End Steps.
Lemma types_run (d : DB) : store_run empty_db d -> types_known d.
Proof.
  intros H. assert (Hk : forall a b, store_run a b -> types_known a -> types_known b); [|apply (Hk empty_db); [done|by intros ?]].
  induction 1 as [|a b c Hab _ IH]; [done|]. intros Ha. apply IH. by eapply types_step.
Qed.
Lemma known_type (t : string) : isWorkflowEventType t = true -> no_nl (lit t) = true /\ t <> "".
Proof.
  intros H. apply str_in_spec in H. assert (Hall : Forall (fun t => no_nl (lit t) = true /\ t <> "") WORKFLOW_EVENT_TYPES) by (repeat constructor; done).
  rewrite List.Forall_forall in Hall. by apply Hall.
Qed.

(** ** Delivered payloads are those of the rows *)

Definition decoded (e : WorkflowEventRecord) : Prop := decodeJson (Some (we_payload_json (er_row e))) SIZE_LIMITS.workflow_event_payload false = Ok (er_payload e).
Lemma mapM_decoded (rows : list WorkflowEventRow) (d : DB) (evs : list WorkflowEventRecord) : fst (mapM_M toWorkflowEvent rows d) = Ok evs -> Forall decoded evs.
Proof.
  revert evs. induction rows as [|r rows IH]; intros evs; cbn; [by intros [= <-]|]. unfold mbind, M_bind, toWorkflowEvent, lift, mret, M_ret, mbind, M_bind.
  destruct (decodeJson _ _ _) as [p|] eqn:Ep; cbn; [|done]. destruct (mapM_M _ rows d) as [[es|] d'] eqn:E; cbn; [|done]. intros [= <-]. constructor; [done|]. by apply IH.
Qed.
Lemma listed_decoded (id : string) (c n : Z) (d : DB) (evs : list WorkflowEventRecord) : fst (listWorkflowEvents id c n d) = Ok evs -> Forall decoded evs.
Proof. unfold listWorkflowEvents, opened, check, gets, mbind, M_bind. destruct (negb (db_closed d)); cbn [mret M_ret throw]; [apply mapM_decoded|done]. Qed.

Section Decoded.
Context (throws : nat -> bool) (id : string).
Definition all_decoded (s : Stream) : Prop := Forall decoded (delivered s).
Lemma write_decoded (f : Frame) (s s' : Stream) : write throws f s = Some s' -> match f with Event e => decoded e | _ => True end -> all_decoded s -> all_decoded s'.
Proof. intros W Hf Hs. destruct (write_sends _ _ _ _ W) as (Hd & _). unfold all_decoded. rewrite Hd. apply Forall_app. split; [done|]. destruct f; repeat constructor. done. Qed.
Lemma send_decoded (evs : list WorkflowEventRecord) (b : bool) (s : Stream) : Forall decoded evs -> all_decoded s -> all_decoded (snd (send_events throws evs b s)).
Proof.
  revert b s. induction evs as [|e evs IH]; intros b s He Hs; [done|]. cbn [send_events]. inversion He as [|? ? H1 H2]; subst.
  destruct (write throws (Event e) s) as [s'|] eqn:W; [|done]. apply IH; [done|]. by apply (write_decoded _ _ _ W).
Qed.
Lemma publish_decoded (evs : list WorkflowEventRecord) (rec : option WorkflowRecord) (s : Stream) : Forall decoded evs -> all_decoded s -> all_decoded (publish throws evs rec s).
Proof.
  intros He Hs. assert (H := send_decoded evs false s He Hs). unfold publish. destruct (send_events throws evs false s) as [[b|] s']; [|exact H].
  unfold all_decoded. by rewrite (proj1 (finish_sends rec b s')).
Qed.
Lemma step_decoded (p q : DB * Stream) : stream_step throws id p q -> all_decoded (snd p) -> all_decoded (snd q).
Proof.
  intros [d d' s _|d d' s _|d s|d s] Hs; cbn [snd] in *; try done.
  - unfold tick. destruct (sm_closed s); [done|]. destruct (fst (listWorkflowEvents _ _ _ _)) as [evs|] eqn:El; [|done]. destruct (fst (RuntimeEnv.getWorkflow id d')) as [rec|]; [|done].
    apply listed_decoded in El. destruct (truncated rec s) as [n|]; [|by apply publish_decoded].
    destruct (write throws (Truncated n) (warned s)) as [s'|] eqn:W; [|done]. apply publish_decoded; [done|]. by apply (write_decoded _ _ _ W).
  - unfold heartbeat. destruct (sm_closed s); [done|]. destruct (write throws KeepAlive s) as [s'|] eqn:W; [|done]. by apply (write_decoded _ _ _ W).
Qed.
Lemma run_decoded (header : option string) (d0 d : DB) (s : Stream) : rtc (stream_step throws id) (d0, start header) (d, s) -> all_decoded s.
Proof.
  intros H. assert (Hk : forall p q, rtc (stream_step throws id) p q -> all_decoded (snd p) -> all_decoded (snd q)); [|exact (Hk _ _ H ltac:(constructor))].
  induction 1 as [|p q r Hpq _ IH]; [done|]. intros Hp. apply IH. by eapply step_decoded.
Qed.
End Decoded.

(** ** What one frame does to the client *)

Definition good_event (e : WorkflowEventRecord) : Prop :=
  json_data (er_payload e) /\ 0 <= we_sequence (er_row e) < 10 ^ 21 /\ isWorkflowEventType (we_event_type (er_row e)) = true.
Definition good_frame (f : Frame) : Prop := match f with Event e => good_event e | _ => True end.
Definition effect (f : Frame) (c : Collecting) : bool * Collecting :=
  match f with
  | Event e => (ends_stream e, {| cg_events := cg_events c ++ [frame_data e]; cg_last := num_max (cg_last c) (NInt (we_sequence (er_row e))); cg_truncated := cg_truncated c |})
  | Truncated _ => (false, {| cg_events := cg_events c; cg_last := cg_last c; cg_truncated := true |})
  | _ => (false, c)
  end.
Lemma frame_data_json (e : WorkflowEventRecord) : good_event e -> json_data (frame_data e).
Proof.
  intros (Hp & Hs & _). unfold frame_data. destruct (truthy_string (we_step_execution_id (er_row e))); apply json_data_obj; split; cbn; repeat split; try reflexivity; repeat constructor; try done; cbn; lia.
Qed.
Lemma frame_parsed (f : Frame) : good_frame f -> exists b, frame_text f = b +:+ nl +:+ nl /\ sealed (lit b) /\ forall c, on_frame "truncated" WORKFLOW_END_EVENTS b c = effect f c.
Proof.
  destruct f as [| |n|e]; intros Hf.
  - exists ": connected". split; [done|]. split; [by apply sealed_line|]. intros [ev l []]; reflexivity.
  - exists ": keep-alive". split; [done|]. split; [by apply sealed_line|]. intros [ev l []]; reflexivity.
  - exists (": warning: workflow event history is truncated (earliest_retained_sequence=" +:+ zstr n +:+ ")"). split; [cbn [frame_text]; by rewrite !append_assoc|].
    split; [apply sealed_line; by rewrite !lit_app, !no_nl_app, no_nl_zstr|]. intros [ev l []]; reflexivity.
  - destruct (JSON_roundtrip _ (frame_data_json e Hf)) as (j & Ej & Hj). destruct Hf as (Hp & Hs & Ht). destruct (known_type _ Ht) as [Hnl Hne].
    exists (event_body (zstr (we_sequence (er_row e))) (we_event_type (er_row e)) j).
    assert (Hz := no_nl_zstr (we_sequence (er_row e))). assert (Hjl := stringify_no_nl _ j (frame_data_json e (conj Hp (conj Hs Ht))) Ej).
    split; [|split; [by apply event_sealed|]].
    + unfold frame_text, frame, event_body. rewrite Ej. cbn [default]. change (String NL ?x) with (nl +:+ x). by rewrite !append_assoc.
    + intros c. unfold on_frame. rewrite event_lines by done. cbn [ln_type ln_data ln_id]. change (event_body _ _ _ =s "") with false. change (starts_with ":" (event_body _ _ _)) with false.
      rewrite (proj2 (String.eqb_neq _ _) Hne), Hj, Number_zstr by done. reflexivity.
Qed.

(** ** What a stream does to the client *)

Definition text (fs : list Frame) : chars := flat_map (fun f => lit (frame_text f)) fs.
Definition events_in (fs : list Frame) : list WorkflowEventRecord := flat_map (fun f => match f with Event e => [e] | _ => [] end) fs.
(** The reader stops at the first event that ends a workflow. *)
Fixpoint upto_end (l : list WorkflowEventRecord) : list WorkflowEventRecord := match l with [] => [] | e :: r => e :: if ends_stream e then [] else upto_end r end.
Lemma upto_end_prefix (l : list WorkflowEventRecord) : upto_end l `prefix_of` l.
Proof. induction l as [|e l IH]; [done|]. cbn [upto_end]. apply prefix_cons. destruct (ends_stream e); [apply prefix_nil|done]. Qed.

Fixpoint effects (fs : list Frame) (c : Collecting) : bool * Collecting :=
  match fs with [] => (false, c) | f :: r => match effect f c with (true, c') => (true, c') | (false, c') => effects r c' end end.
Lemma text_frames (fs : list Frame) : Forall good_frame fs ->
  exists bs, frames (text fs) = (bs, []) /\ forall k c, run_frames "truncated" WORKFLOW_END_EVENTS (take k bs) c = effects (take k fs) c.
Proof.
  induction 1 as [|f fs Hf _ IH]; [exists []; split; [done|]; intros k c; by rewrite !take_nil|].
  destruct IH as (bs & Hbs & Hrun). destruct (frame_parsed f Hf) as (b & Hb & Hs & Heff). exists (b :: bs). split.
  - cbn [text flat_map]. fold (text fs). rewrite Hb, !lit_app, <- app_assoc. change ((lit nl ++ lit nl) ++ text fs) with (NL :: NL :: text fs).
    rewrite frames_sealed, Hbs by done. by rewrite lit_id.
  - intros [|k] c; [done|]. cbn [take run_frames effects]. rewrite Heff. by destruct (effect f c) as [[] c'].
Qed.
Lemma effects_events (fs : list Frame) (c : Collecting) (n : Z) : cg_last c = NInt n -> numbered_from (n + 1) (map er_row (events_in fs)) ->
  let c' := snd (effects fs c) in
  cg_events c' = cg_events c ++ map frame_data (upto_end (events_in fs)) /\ cg_last c' = NInt (n + Z.of_nat (List.length (upto_end (events_in fs)))).
Proof.
  revert c n. induction fs as [|f fs IH]; intros c n Hn Hnum; [cbn; by rewrite app_nil_r, Hn, Z.add_0_r|].
  destruct f as [| |m|e]; cbn [effects effect events_in flat_map app] in *; try by apply IH.
  { destruct (IH {| cg_events := cg_events c; cg_last := cg_last c; cg_truncated := true |} n Hn Hnum) as [E1 E2]. by split. }
  fold (events_in fs) in *. cbn [map upto_end] in *. apply numbered_cons in Hnum as [He Hnum]. rewrite Hn, He.
  assert (num_max (NInt n) (NInt (n + 1)) = NInt (n + 1)) as -> by (cbn; by rewrite !Z.mul_1_r, (proj2 (Z.ltb_lt n (n + 1)) ltac:(lia))).
  destruct (ends_stream e); cbn [snd].
  - cbn. split; [done|]. f_equal.
  - destruct (IH {| cg_events := cg_events c ++ [frame_data e]; cg_last := NInt (n + 1); cg_truncated := cg_truncated c |} (n + 1) eq_refl Hnum) as [E1 E2].
    cbn [cg_events] in E1. cbn [map List.length]. split; [by rewrite E1, <- app_assoc|]. rewrite E2. f_equal. lia.
Qed.
Lemma events_take (k : nat) (fs : list Frame) : events_in (take k fs) `prefix_of` events_in fs.
Proof. rewrite <- (take_drop k fs) at 2. unfold events_in. rewrite flat_map_app. by apply prefix_app_r. Qed.
Lemma numbered_prefix (n : Z) (a b : list WorkflowEventRow) : a `prefix_of` b -> numbered_from n b -> numbered_from n a.
Proof. intros [k ->] H. apply (numbered_take (List.length a)) in H. by rewrite take_app_length in H. Qed.

(** A client that reads any part of the text of a stream collects the first events it delivered, with the cursor on the last one. *)
Lemma client_reads (s : Stream) (chunks : list string) (c : Z) : Forall good_event (delivered s) -> numbered_from (c + 1) (map er_row (delivered s)) ->
  flat_map lit chunks `prefix_of` text (sm_written s) ->
  exists es, es `prefix_of` delivered s
    /\ cg_events (snd (read_chunks "truncated" WORKFLOW_END_EVENTS chunks [] {| cg_events := []; cg_last := NInt c; cg_truncated := false |})) = map frame_data es
    /\ cg_last (snd (read_chunks "truncated" WORKFLOW_END_EVENTS chunks [] {| cg_events := []; cg_last := NInt c; cg_truncated := false |})) = NInt (c + Z.of_nat (List.length es)).
Proof.
  intros Hg Hn Hpre. assert (Hfs : Forall good_frame (sm_written s)).
  { apply List.Forall_forall. intros [| | |e] Hf; try done. rewrite List.Forall_forall in Hg. apply Hg. apply in_flat_map. exists (Event e). split; [done|by left]. }
  destruct (text_frames _ Hfs) as (bs & Hbs & Hrun). rewrite read_chunks_frames by done. cbn [app].
  apply frames_prefix in Hpre. rewrite Hbs in Hpre. cbn [fst] in Hpre. destruct Hpre as [rest Hrest]. set (got := fst (frames (flat_map lit chunks))) in *.
  assert (got = take (List.length got) bs) as -> by (by rewrite Hrest, take_app_length). rewrite Hrun. set (k := List.length got).
  assert (Hp := events_take k (sm_written s)). change (events_in (sm_written s)) with (delivered s) in Hp.
  destruct (effects_events (take k (sm_written s)) {| cg_events := []; cg_last := NInt c; cg_truncated := false |} c eq_refl) as [E1 E2].
  { eapply numbered_prefix; [|exact Hn]. destruct Hp as [r ->]. rewrite map_app. by apply prefix_app_r. }
  exists (upto_end (events_in (take k (sm_written s)))). split; [etransitivity; [apply upto_end_prefix|exact Hp]|]. by split.
Qed.

(** ** A Gateway that serves the stream *)

Lemma header_cursor (c : Z) : -1 <= c < 10 ^ 21 -> parseWorkflowCursor (Some (num_string (NInt c))) = c.
Proof.
  intros Hc. unfold num_string. rewrite print_num_zstr, lit_id by lia. unfold parseWorkflowCursor. destruct (decide (c = -1)) as [->|Hne]; [done|].
  unfold zstr. rewrite (proj2 (Z.ltb_ge c 0)) by lia. unfold lit. rewrite list_ascii_of_string_of_list_ascii, digits_of_digits, digits_of_val, andb_true_r.
  destruct (digits_of_cons (Z.to_N c)) as (x & r & -> & _). change (string_of_list_ascii (x :: r) =s "") with false. cbv iota beta delta [negb]. lia.
Qed.

(** The payloads of the log are plain data: what JSON gives back as it was. *)
Definition plain_log (id : string) (d : DB) : Prop :=
  Z.of_nat (List.length (workflow_events_of id d)) < 10 ^ 21
  /\ forall r p, In r (workflow_events_of id d) -> decodeJson (Some (we_payload_json r)) SIZE_LIMITS.workflow_event_payload false = Ok p -> json_data p.
Lemma plain_before (id : string) (d d' : DB) : store_run d d' -> plain_log id d' -> plain_log id d.
Proof.
  intros H [Hl Hp]. apply (log_grows _ _ id) in H as [l Hg]. rewrite Hg in Hl, Hp. rewrite length_app in Hl. split; [lia|]. intros r p Hr. apply Hp, in_app_iff. by left.
Qed.

Section Client.
Context {E : Type} (env : ClientEnv E) (db : E -> DB) (id : string).

(** The text a stream request returns is a part, from the beginning, of what a stream that started with its Last-Event-ID wrote, over a store others use. *)
Record serves : Prop := {
  sv_fetch_run : forall c e, store_run (db e) (db (snd (cl_fetch env c e)));
  sv_now_run : forall e, store_run (db e) (db (snd (cl_now env e)));
  sv_stream_run : forall c a n e, store_run (db e) (db (snd (cl_stream env c a n e)));
  sv_stream_text : forall c n e chunks how e', cl_stream env (workflowEvents id) (Some (NInt c)) n e = (StreamOpen chunks how, e') ->
    exists throws d0 d s, store_run (db e) d0 /\ rtc (stream_step throws id) (d0, start (Some (num_string (NInt c)))) (d, s) /\ store_run d (db e')
      /\ flat_map lit chunks `prefix_of` text (sm_written s) }.
Context (Hserves : serves).

(** What a client holds of the log past [c]. *)
Definition holds (c : Z) (d : DB) (es : list WorkflowEventRecord) : Prop := Forall decoded es /\ map er_row es `prefix_of` past c (workflow_events_of id d).

Lemma in_past (c : Z) (l : list WorkflowEventRow) (r : WorkflowEventRow) : In r (past c l) -> In r l.
Proof. unfold past. intros H. rewrite <- (take_drop (Z.to_nat (c + 1)) l). apply in_app_iff. by right. Qed.
Lemma stream_good (c : Z) (d d' : DB) (s : Stream) : store_run empty_db d -> store_run d d' -> plain_log id d' -> holds c d (delivered s) -> Forall good_event (delivered s).
Proof.
  intros Hr Hd Hpl [Hdec [k Hk]]. apply (plain_before _ d) in Hpl as [Hlen Hp]; [|done]. rewrite List.Forall_forall in *. intros e He.
  assert (Hin : In (er_row e) (workflow_events_of id d)) by (apply (in_past c); rewrite Hk; apply in_app_iff; left; by apply in_map).
  split; [by apply (Hp (er_row e)), Hdec|]. split; [|apply (types_run d Hr); by apply filter_In in Hin as [? _]].
  assert (Hn := log_numbered d id (store_ok_run _ _ Hr store_ok_empty)). assert (Hs : In (we_sequence (er_row e)) (map we_sequence (workflow_events_of id d))) by by apply in_map.
  rewrite Hn in Hs. apply list_elem_of_In, elem_of_seqZ in Hs. lia.
Qed.

Lemma stream_collects (c n : Z) (e e' : E) (chunks : list string) (how : StreamEnd) : store_run empty_db (db e) -> -1 <= c < 10 ^ 21 ->
  cl_stream env (workflowEvents id) (Some (NInt c)) n e = (StreamOpen chunks how, e') -> plain_log id (db e') ->
  exists es, holds c (db e') es
    /\ cg_events (snd (read_chunks "truncated" WORKFLOW_END_EVENTS chunks [] {| cg_events := []; cg_last := NInt c; cg_truncated := false |})) = map frame_data es
    /\ cg_last (snd (read_chunks "truncated" WORKFLOW_END_EVENTS chunks [] {| cg_events := []; cg_last := NInt c; cg_truncated := false |})) = NInt (c + Z.of_nat (List.length es)).
Proof.
  intros He Hc Hst Hpl. destruct (sv_stream_text Hserves _ _ _ _ _ _ Hst) as (throws & d0 & d & s & H0 & Hrun & Hd & Htext).
  assert (H0' : store_run empty_db d0) by by etransitivity. destruct (stream_run_exact _ _ _ _ _ _ H0' Hrun) as [Hok [Hpre _]]. rewrite header_cursor in Hpre by done.
  assert (Hdec := run_decoded _ _ _ _ _ _ Hrun). assert (Hrd : store_run empty_db d).
  { etransitivity; [exact H0'|]. exact (stream_run_store _ _ _ _ Hrun). }
  assert (Hholds : holds c d (delivered s)) by done. destruct (client_reads s chunks c) as (es & Hes & E1 & E2).
  - by apply (stream_good c d (db e')).
  - eapply numbered_prefix; [exact Hpre|]. replace (c + 1) with (0 + Z.of_nat (Z.to_nat (c + 1))) by lia. apply numbered_drop. by apply log_numbered.
  - done.
  - exists es. split; [|by split]. destruct Hes as [k Hk]. unfold all_decoded in Hdec. rewrite Hk in Hdec, Hpre. split; [by apply Forall_app in Hdec as [? _]|].
    etransitivity; [|apply past_grows; by apply (log_grows d (db e'))]. rewrite map_app in Hpre. etransitivity; [by apply prefix_app_r|exact Hpre].
Qed.

Lemma read_stream_returns (warning : string) (ends : list string) (c : ApiCall) (a : option num) (n : Z) (e e' : E) (x : Collecting) :
  read_stream env warning ends c a n e = (Ok x, e') ->
  exists chunks how, cl_stream env c a n e = (StreamOpen chunks how, e')
    /\ x = snd (read_chunks warning ends chunks [] {| cg_events := []; cg_last := default (NInt (-1)) a; cg_truncated := false |}).
Proof.
  unfold read_stream. destruct (cl_stream env c a n e) as [[st t|chunks how] e1]; [done|]. intros H. exists chunks, how.
  destruct (read_chunks _ _ _ _ _) as [[] y], how as [|[]]; by simplify_eq.
Qed.
Lemma request_runs (c : ApiCall) (e : E) : store_run (db e) (db (snd (request env c e))).
Proof. unfold request. assert (H := sv_fetch_run Hserves c e). destruct (cl_fetch env c e) as [[[st t]|[]] e']; exact H. Qed.
Lemma collect_returns (c : num) (n : option Z) (e e' : E) (r : CollectedEvents) : collectWorkflowEvents env id (Some c) n e = (Ok r, e') ->
  exists x w e1, read_stream env "truncated" WORKFLOW_END_EVENTS (workflowEvents id) (Some c) (clamp_wait n) e = (Ok x, e1) /\ store_run (db e1) (db e') /\ r = collected w true x.
Proof.
  unfold collectWorkflowEvents, mbind, C_bind. destruct (read_stream _ _ _ _ _ _ e) as [[x|] e1]; [|done]. assert (H := request_runs (GatewayClient.getWorkflow id) e1).
  destruct (request env _ e1) as [[w|] e2]; [|done]. intros [= <- <-]. by exists x, w, e1.
Qed.
Lemma collect_runs (c : num) (n : option Z) (e e' : E) (r : CollectedEvents) : collectWorkflowEvents env id (Some c) n e = (Ok r, e') -> store_run (db e) (db e').
Proof.
  intros (x & w & e1 & H1 & H2 & _)%collect_returns. apply read_stream_returns in H1 as (chunks & how & Hst & _).
  assert (H := sv_stream_run Hserves (workflowEvents id) (Some c) (clamp_wait n) e). rewrite Hst in H. by etransitivity.
Qed.
Lemma poll_exact (c : Z) (n : option Z) (e e' : E) (r : CollectedEvents) : store_run empty_db (db e) -> -1 <= c < 10 ^ 21 ->
  collectWorkflowEvents env id (Some (NInt c)) n e = (Ok r, e') -> plain_log id (db e') ->
  exists es, holds c (db e') es /\ ce_events r = map frame_data es /\ ce_next_event_id r = NInt (c + Z.of_nat (List.length es)).
Proof.
  intros He Hc (x & w & e1 & H1 & H2 & ->)%collect_returns Hpl. apply read_stream_returns in H1 as (chunks & how & Hst & ->). apply (plain_before _ (db e1)) in Hpl; [|done].
  destruct (stream_collects _ _ _ _ _ _ He Hc Hst Hpl) as (es & [Hd Hp] & E1 & E2). exists es. split; [|done]. split; [done|].
  etransitivity; [exact Hp|]. by apply past_grows, log_grows.
Qed.

(** ** Waiting *)

(** Between two polls: the events so far and the cursor on the last of them. *)
Definition waited (c : Z) (d : DB) (x : Waiting) : Prop :=
  exists es, holds c d es /\ wa_events x = map frame_data es /\ wa_cursor x = NInt (c + Z.of_nat (List.length es)).
Lemma holds_run (c : Z) (d d' : DB) (es : list WorkflowEventRecord) : store_run d d' -> holds c d es -> holds c d' es.
Proof. intros H [Hd Hp]. split; [done|]. etransitivity; [exact Hp|]. by apply past_grows, log_grows. Qed.
(** A poll resumes where the last one stopped. *)
Lemma holds_more (c : Z) (d : DB) (es more : list WorkflowEventRecord) : -1 <= c -> holds c d es -> holds (c + Z.of_nat (List.length es)) d more -> holds c d (es ++ more).
Proof.
  intros Hc [Hd [k Hk]] [Hd' Hp']. split; [by apply Forall_app|]. rewrite map_app, Hk. apply prefix_app.
  assert (Hl : past (c + Z.of_nat (List.length es)) (workflow_events_of id d) = k); [|by rewrite Hl in Hp'].
  unfold past in *. replace (Z.to_nat (c + Z.of_nat (List.length es) + 1)) with (Z.to_nat (c + 1) + List.length (map er_row es))%nat by (rewrite length_map; lia).
  by rewrite <- drop_drop, Hk, drop_app_length.
Qed.
Lemma holds_bound (c : Z) (d : DB) (es : list WorkflowEventRecord) : -1 <= c < 10 ^ 21 -> plain_log id d -> holds c d es -> c + Z.of_nat (List.length es) < 10 ^ 21.
Proof.
  intros Hc [Hl _] [_ Hp]. apply prefix_length in Hp. rewrite length_map in Hp. unfold past in Hp. rewrite length_drop in Hp. destruct es; cbn in *; lia.
Qed.

Lemma wait_loop_exact (c : Z) (fuel : nat) (deadline : Z) (x x' : Waiting) (e e' : E) : -1 <= c < 10 ^ 21 -> store_run empty_db (db e) ->
  wait_loop env fuel (fun cursor waitMs => collectWorkflowEvents env id (Some cursor) (Some waitMs)) deadline x e = (Ok x', e') ->
  store_run (db e) (db e') /\ (plain_log id (db e') -> waited c (db e) x -> waited c (db e') x').
Proof.
  intros Hc. revert x e. induction fuel as [|n IH]; intros x e He; [done|]. cbn [wait_loop]. assert (Hnow := sv_now_run Hserves e). destruct (cl_now env e) as [now e1]. cbn [snd] in Hnow.
  destruct (deadline - now <? EVENT_WAIT_MIN_MS).
  { intros [= <- <-]. split; [done|]. intros _ (es & Hh & E1 & E2). exists es. split; [by eapply holds_run|done]. }
  unfold mbind, C_bind. destruct (collectWorkflowEvents env id _ _ e1) as [[r|f] e2] eqn:Er; [|done]. assert (H12 := collect_runs _ _ _ _ _ Er).
  set (y := {| wa_cursor := ce_next_event_id r; wa_events := wa_events x ++ ce_events r; wa_truncated := wa_truncated x || ce_truncated r; wa_last := Some r |}).
  assert (He2 : store_run empty_db (db e2)) by (do 2 (etransitivity; [eassumption|]); done).
  assert (Hy : plain_log id (db e2) -> waited c (db e) x -> waited c (db e2) y).
  { intros Hpl (es & Hh & E1 & E2). assert (Hh1 : holds c (db e1) es) by by eapply holds_run. rewrite E2 in Er.
    assert (Hpl1 : plain_log id (db e1)) by by apply (plain_before _ _ (db e2)). assert (Hb := holds_bound _ _ _ Hc Hpl1 Hh1).
    assert (Hcur : -1 <= c + Z.of_nat (List.length es) < 10 ^ 21) by lia. assert (He1 : store_run empty_db (db e1)) by (etransitivity; [exact He|exact Hnow]).
    destruct (poll_exact _ _ _ _ _ He1 Hcur Er Hpl) as (more & Hm & F1 & F2). exists (es ++ more). split; [|split].
    - apply holds_more; [lia| |done]. by apply (holds_run c (db e1)).
    - cbn. by rewrite E1, F1, map_app.
    - cbn. rewrite F2, length_app. f_equal. lia. }
  destruct (ce_terminal r || ce_blocked r).
  - intros [= <- <-]. split; [etransitivity; [exact Hnow|exact H12]|done].
  - intros Hw. destruct (IH y e2 He2 Hw) as [Hr Hx]. split; [etransitivity; [exact Hnow|]; etransitivity; [exact H12|exact Hr]|]. intros Hpl Hx0. apply Hx; [done|]. apply Hy; [|done]. by apply (plain_before _ _ (db e')).
Qed.
End Client.

(** C29. What a caller of the workflow wait gets is an exact tail of the durable log.  The Gateway streams the log to the client, over a store that others use,
    with streams that end, time out or break at any point and texts cut into arbitrary chunks; the client reads frames, stops at an event that ends the
    workflow, and polls again from its cursor.  Whatever happens, the events returned are, in order, the first events of the log past the cursor the
    caller gave, with their payloads, none missing and none twice across polls; the returned cursor is the sequence number of the last of them.
    The payloads of the log are taken to have integers below 10^21 as numbers. *)
Theorem waited_events_exact {E : Type} (env : ClientEnv E) (db : E -> DB) (id : string) (fuel : nat) (c : Z) (overall : option Z) (e e' : E) (r : CollectedEvents) :
  serves env db id -> store_run empty_db (db e) -> -1 <= c < 10 ^ 21 -> plain_log id (db e') ->
  waitForWorkflow env fuel id (Some (NInt c)) overall e = (Ok r, e') ->
  exists es, ce_events r = map frame_data es /\ Forall decoded es /\ map er_row es `prefix_of` past c (workflow_events_of id (db e'))
    /\ ce_next_event_id r = NInt (c + Z.of_nat (List.length es)).
Proof.
  intros Hs He Hc Hpl. unfold waitForWorkflow, wait_for. assert (Hnow := sv_now_run _ _ _ Hs e). destruct (cl_now env e) as [now e1]. cbn [snd] in Hnow.
  unfold mbind, C_bind. cbn [default]. match goal with |- context [wait_loop env fuel ?p ?dl ?x0 e1] => destruct (wait_loop env fuel p dl x0 e1) as [[x|] e2] eqn:Ew; [|done] end.
  apply (wait_loop_exact env db id Hs c) in Ew as [_ Hx]; [|done|etransitivity; [exact He|exact Hnow]]. destruct (wa_last x) as [l|]; [|done]. intros [= <- <-]. cbn.
  destruct (Hx Hpl) as (es & [Hd Hp] & E1 & E2); [|by exists es]. exists []. split; [split; [done|apply prefix_nil]|]. split; [done|]. cbn. f_equal. lia.
Qed.

(** A Gateway over the blocked workflow of the demonstration. *)
Module ClientDemo.
Definition served (a : option num) : Stream := tick EventStreamProps.Demo.reliable "wf" EventStreamProps.Demo.db6 EventStreamProps.Demo.db6 (start (num_string <$> a)).
Definition env : ClientEnv unit := {|
  cl_fetch := fun _ e => (Ok (200, default "" (JSON_stringify (VObj [("status", VStr "blocked")]))), e);
  cl_stream := fun _ a _ e => (StreamOpen [string_of_list_ascii (text (sm_written (served a)))] StreamDone, e);
  cl_now := fun e => (0, e) |}.
Definition db (_ : unit) : DB := EventStreamProps.Demo.db6.
Lemma opened {E : Type} (t : string) (chunks : list string) (how : StreamEnd) (e e' : E) : (StreamOpen [t] StreamDone, e) = (StreamOpen chunks how, e') -> chunks = [t].
Proof. by intros [= <- _ _]. Qed.
Lemma env_serves : serves env db "wf".
Proof.
  split; try reflexivity. intros c n e chunks how e' H. apply opened in H as ->. exists EventStreamProps.Demo.reliable, EventStreamProps.Demo.db6, EventStreamProps.Demo.db6, (served (Some (NInt c))).
  split; [reflexivity|]. split; [by apply rtc_once, stream_tick|]. split; [reflexivity|]. cbn [flat_map]. unfold lit. by rewrite list_ascii_of_string_of_list_ascii, app_nil_r.
Qed.
Lemma db_reachable : store_run empty_db (db tt).
Proof. etransitivity; [apply StoreInv.Demo.db5_reachable|apply EventStreamProps.Demo.db6_step]. Qed.
Lemma db_plain : plain_log "wf" (db tt).
Proof.
  assert (H0 : forallb (fun r => we_payload_json r =s "{}") (workflow_events_of "wf" (db tt)) = true) by (vm_compute; reflexivity).
  split; [vm_compute; reflexivity|]. intros r p Hr. rewrite forallb_forall in H0. assert (He : we_payload_json r = "{}") by (apply String.eqb_eq; exact (H0 r Hr)).
  rewrite He. intros H. vm_compute in H. injection H as <-. by split.
Qed.
Definition waited_demo : result ClientFailure CollectedEvents * unit := waitForWorkflow env 3 "wf" (Some (NInt 1)) None tt.
End ClientDemo.

Lemma waited_events_exact_witness : exists r es, ClientDemo.waited_demo = (Ok r, tt) /\ ce_events r = map frame_data es /\ Forall decoded es
  /\ map er_row es `prefix_of` past 1 (workflow_events_of "wf" (ClientDemo.db tt)) /\ ce_next_event_id r = NInt (1 + Z.of_nat (List.length es)) /\ ce_blocked r = true.
Proof.
  assert (Hr : exists r, ClientDemo.waited_demo = (Ok r, tt) /\ ce_blocked r = true) by (eexists; split; [vm_compute; reflexivity|reflexivity]).
  destruct Hr as (r & Hr & Hb).
  destruct (waited_events_exact ClientDemo.env ClientDemo.db "wf" 3 1 None tt tt r ClientDemo.env_serves ClientDemo.db_reachable ltac:(lia) ClientDemo.db_plain Hr) as (es & H1 & H2 & H3 & H4).
  exact (ex_intro _ r (ex_intro _ es (conj Hr (conj H1 (conj H2 (conj H3 (conj H4 Hb))))))).
Defined.

(** ** The wait can end before its first poll

    With the least wait, a millisecond between the two readings of the clock leaves no
    time for a poll, and the field of a collection that never was is read. *)
Definition slow_clock : ClientEnv Z := {| cl_fetch := fun _ e => (Err Unreachable, e); cl_stream := fun _ _ _ e => (StreamOpen [] StreamDone, e); cl_now := fun e => (e, e + 1) |}.
Lemma least_wait_throws (fuel : nat) (taskId : string) (now : Z) : fst (waitForTask slow_clock (S fuel) taskId None (Some 500) now) = Err ClientTypeError.
Proof.
  unfold waitForTask, wait_for, mbind, C_bind. cbn [slow_clock cl_now wait_loop]. change (clamp_overall (Some 500)) with 500.
  replace (now + 500 - (now + 1)) with 499 by lia. reflexivity.
Qed.
