(* ===== verification/Mcp.v ===== *)
(** * The MCP server (src/mcp/server.ts, workflow-tools.ts)

    Twenty-one tools over the client of the Agent Gateway, JSON-RPC dispatch, and the lines
    of standard input.  Messages for people, descriptions, input schemas and the version of
    the server are left out; the text of an answer is the JSON of [tc_text]. *)

From S2P Require Import Prelude Machine Values Json TaskContract Workspace WorkflowApi Router GatewayClient.

Definition SUPPORTED_PROTOCOL : string := "2025-11-25".
Definition KNOWN_PROTOCOLS : list string := ["2025-11-25"; "2025-06-18"; "2025-03-26"; "2024-11-05"].
Definition MAX_CURSOR : Z := 2147483647.

(** ** Answers of tools *)

Record ToolContent : Type := { tc_text : value; tc_isError : bool; tc_structuredContent : option value }.
Definition ok (result : value) : ToolContent := {| tc_text := result; tc_isError := false; tc_structuredContent := Some result |}.
Definition errors (body : value) : ToolContent := {| tc_text := body; tc_isError := true; tc_structuredContent := Some body |}.
Definition toolError (code : string) : ToolContent := errors (VObj [("error", VBool true); ("code", VStr code)]).
Definition invalid : ToolContent := toolError "invalid_request".
Definition fromGatewayError (x : ClientFailure) : ToolContent := match x with GatewayApiError api => errors api | _ => toolError "mcp_internal_error" end.

(** ** Arguments *)

Definition reqString (args : value) (key : string) : option string := match get key args with VStr s => if trim s =s "" then None else Some s | _ => None end.
(** [None]: rejected; [Some None]: absent. *)
Definition parseCursor (args : value) : option (option num) :=
  match get "after_event_id" args with
  | VUndef => Some None
  | VNum (NInt n) => if (n <? 0) || (MAX_CURSOR <? n) then None else Some (Some (NInt n))
  | _ => None
  end.
(** Half a second to [max] seconds, in milliseconds; timers take whole ones. *)
Definition parseWaitMs (args : value) (max : Z) : option (option Z) :=
  match get "wait_seconds" args with
  | VUndef => Some None
  | VNum ((NInt _ | NDec _ _) as n) =>
      let '(m, e) := num_parts n in
      if (2 * m <? 10 ^ e) || (max * 10 ^ e <? m) then None else Some (Some (m * 1000 / 10 ^ e))
  | _ => None
  end.
Definition RUN_WAIT_DEFAULT_S : Z := 30.
Definition parseWaitBudgetMs (args : value) : option Z := w ← parseWaitMs args 120; Some (default (RUN_WAIT_DEFAULT_S * 1000) w).
Definition optional (p : value -> bool) (v : value) : bool := is_undef v || p v.

(** The body of a task creation. *)
Definition buildStartBody (args : value) : option value :=
  agent ← reqString args "agent"; text ← reqString args "input_text";
  if negb (optional isStr (get "node_id" args)) || negb (optional isStr (get "workspace_key" args))
     || negb (optional (fun v => is_str_lit v "default" || is_str_lit v "unsafe-skip") (get "permission_mode" args)) || negb (optional isObj (get "metadata" args)) then None else
  Some (VObj ([("agent", VStr agent); ("input", VObj [("text", VStr text)])]
    ++ (if isStr (get "node_id" args) then [("node_id", get "node_id" args)] else [])
    ++ (if isStr (get "workspace_key" args) then [("workspace", VObj [("workspace_key", get "workspace_key" args)])] else [])
    ++ (if truthy (get "permission_mode" args) then [("execution", VObj [("permission_mode", get "permission_mode" args)])] else [])
    ++ (if truthy (get "metadata" args) then [("metadata", get "metadata" args)] else []))).

(** ** Results as values *)

Definition next_call (tool : string) (args : list (string * value)) : value := VObj [("tool", VStr tool); ("arguments", VObj args)].
Definition preview_fields (p : option (string * bool)) : list (string * value) :=
  match p with Some (t, truncated) => [("output_preview", VStr t); ("output_preview_truncated", VBool truncated)] | None => [] end.
Definition task_fields (r : CollectedEvents) : list (string * value) :=
  [("task", ce_task r); ("events", VArr (ce_events r)); ("next_event_id", VNum (ce_next_event_id r)); ("terminal", VBool (ce_terminal r));
   ("truncated", VBool (ce_truncated r)); ("ended_by", VStr (ended_by r))].
Definition workflow_fields (r : CollectedEvents) : list (string * value) :=
  [("workflow", ce_task r); ("events", VArr (ce_events r)); ("next_event_id", VNum (ce_next_event_id r)); ("terminal", VBool (ce_terminal r));
   ("blocked", VBool (ce_blocked r)); ("truncated", VBool (ce_truncated r)); ("ended_by", VStr (ended_by r))].

Inductive Hint : Type := NoHint | ReadOnly | Destructive.

Section Server.
Context {E : Type} (env : ClientEnv E) (fuel : nat).
Local Notation C := (C E).

(** A property of a value that may be undefined. *)
Definition prop (k : string) (v : value) : C value := match v with VUndef | VNull => fails ClientTypeError | _ => mret (get k v) end.
(** [try { ... } catch (e) { ... }]; the model running out of fuel is no exception. *)
Definition caught {A : Type} (m : C A) (h : ClientFailure -> C A) : C A := fun e =>
  match m e with (Err OutOfFuel, e') => (Err OutOfFuel, e') | (Err x, e') => h x e' | r => r end.
Definition answering (m : C ToolContent) : C ToolContent := caught m (fun x => mret (fromGatewayError x)).
Definition with_string (args : value) (key : string) (k : string -> C ToolContent) : C ToolContent := match reqString args key with None => mret invalid | Some v => k v end.
Definition plain (c : ApiCall) : C ToolContent := answering (r ← request env c; mret (ok r)).

(** ** Task tools *)

Definition startTaskTool (args : value) : C ToolContent :=
  match buildStartBody args with
  | None => mret invalid
  | Some body => answering (
      task ← request env (startTask body); id ← prop "task_id" task;
      mret (ok (VObj [("task", task); ("next", if truthy id then next_call "vibe_get_task_events" [("task_id", id)] else VUndef)])))
  end.
(** A wait that did not end tells how to resume it. *)
Definition waited_task (taskId : string) (r : CollectedEvents * option (string * bool)) : ToolContent :=
  let fields := task_fields (fst r) ++ preview_fields (snd r) in
  ok (VObj (if ce_terminal (fst r) then fields else
    fields ++ [("task_id", VStr taskId); ("resume", next_call "vibe_wait_task" [("task_id", VStr taskId); ("after_event_id", VNum (ce_next_event_id (fst r)))])])).
(** The task was created and may still be running. *)
Definition wait_failed (taskId : string) (x : ClientFailure) : ToolContent :=
  let base := match x with GatewayApiError (VObj o) => o | _ => [("error", VBool true); ("code", VStr "mcp_internal_error")] end in
  {| tc_text := VObj (fold_left (fun o kv => obj_set (fst kv) (snd kv) o)
       [("task_id", VStr taskId); ("terminal", VBool false); ("resume", next_call "vibe_wait_task" [("task_id", VStr taskId)])] base);
     tc_isError := true; tc_structuredContent := None |}.
Definition runTaskTool (args : value) : C ToolContent :=
  match buildStartBody args with
  | None => mret invalid
  | Some body =>
      match parseWaitBudgetMs args with
      | None => mret invalid
      | Some ms =>
          started ← caught (created ← request env (startTask body); id ← prop "task_id" created;
                            mret (match id with
                                  | VStr s => if s =s "" then Err (ok (VObj [("task", created); ("terminal", VBool false); ("ended_by", VStr "timeout")])) else Ok s
                                  | _ => Err (ok (VObj [("task", created); ("terminal", VBool false); ("ended_by", VStr "timeout")]))
                                  end))
                           (fun x => mret (Err (fromGatewayError x)));
          match started with
          | Err answer => mret answer
          | Ok taskId => caught (r ← waitForTask env fuel taskId None (Some ms); mret (waited_task taskId r)) (fun x => mret (wait_failed taskId x))
          end
      end
  end.
Definition getTaskEventsTool (args : value) : C ToolContent :=
  with_string args "task_id" (fun id =>
  match parseCursor args, parseWaitMs args 30 with
  | Some afterId, Some waitMs => answering (r ← collectEvents env id afterId waitMs; mret (ok (VObj (task_fields r))))
  | _, _ => mret invalid
  end).
Definition waitTaskTool (args : value) : C ToolContent :=
  with_string args "task_id" (fun id =>
  match parseCursor args, parseWaitBudgetMs args with
  | Some afterId, Some ms => answering (r ← waitForTask env fuel id afterId (Some ms); mret (waited_task id r))
  | _, _ => mret invalid
  end).

Definition listAgentsTool (_ : value) : C ToolContent := plain listAgents.
Definition getTaskTool (args : value) : C ToolContent := with_string args "task_id" (fun id => plain (getTask id)).
Definition cancelTaskTool (args : value) : C ToolContent := with_string args "task_id" (fun id => plain (cancelTask id)).

(** ** Workflow tools *)

Definition listWorkflowsTool (args : value) : C ToolContent :=
  let num_arg k := match get k args with VNum n => Some n | _ => None end in
  plain (listWorkflows (match get "status" args with VStr s => Some s | _ => None end) (num_arg "limit") (num_arg "offset")).
Definition createWorkflowTool (args : value) : C ToolContent :=
  if negb (isObj (get "spec" args)) || negb (optional isObj (get "input_values" args)) then mret invalid else
  answering (
    wf ← request env (createWorkflow (VObj [("spec", get "spec" args); ("input_values", get "input_values" args)])); id ← prop "workflow_id" wf;
    mret (ok (VObj [("workflow", wf); ("next", if truthy id then next_call "vibe_start_workflow" [("workflow_id", id)] else VUndef)]))).
Definition startWorkflowTool (args : value) : C ToolContent :=
  with_string args "workflow_id" (fun id => answering (
    wf ← request env (startWorkflow id); mret (ok (VObj [("workflow", wf); ("next", next_call "vibe_wait_workflow" [("workflow_id", VStr id)])])))).
Definition getWorkflowEventsTool (args : value) : C ToolContent :=
  with_string args "workflow_id" (fun id =>
  match parseCursor args, parseWaitMs args 30 with
  | Some afterId, Some waitMs => answering (r ← collectWorkflowEvents env id afterId waitMs; mret (ok (VObj (workflow_fields r))))
  | _, _ => mret invalid
  end).
Definition waitWorkflowTool (args : value) : C ToolContent :=
  with_string args "workflow_id" (fun id =>
  match parseCursor args, parseWaitBudgetMs args with
  | Some afterId, Some ms => answering (
      r ← waitForWorkflow env fuel id afterId (Some ms);
      mret (ok (VObj (if ce_terminal r || ce_blocked r then workflow_fields r else
        workflow_fields r ++ [("workflow_id", VStr id); ("resume", next_call "vibe_wait_workflow" [("workflow_id", VStr id); ("after_event_id", VNum (ce_next_event_id r))])]))))
  | _, _ => mret invalid
  end).
Definition answerInputTool (args : value) : C ToolContent :=
  with_string args "workflow_id" (fun id => with_string args "request_id" (fun rid => with_string args "value" (fun val => answering (
    r ← request env (answerWorkflowInput id (VObj [("request_id", VStr rid); ("value", VStr val)]));
    mret (ok (VObj [("request", r); ("next", next_call "vibe_resume_workflow" [("workflow_id", VStr id)])])))))).
Definition decideApprovalTool (args : value) : C ToolContent :=
  with_string args "workflow_id" (fun id => with_string args "request_id" (fun rid =>
  match get "approved" args with
  | VBool approved => answering (
      r ← request env (decideWorkflowApproval id (VObj [("request_id", VStr rid); ("approved", VBool approved)]));
      mret (ok (VObj (("request", r) :: if approved then [("next", next_call "vibe_resume_workflow" [("workflow_id", VStr id)])] else []))))
  | _ => mret invalid
  end)).
Definition resumeWorkflowTool (args : value) : C ToolContent :=
  with_string args "workflow_id" (fun id => answering (
    wf ← request env (resumeWorkflow id); mret (ok (VObj [("workflow", wf); ("next", next_call "vibe_wait_workflow" [("workflow_id", VStr id)])])))).
Definition compileWorkflowTool (args : value) : C ToolContent :=
  with_string args "nl_request" (fun nl => with_string args "compiler_agent" (fun agent =>
  if negb (optional isObj (get "constraints" args)) then mret invalid else answering (
    draft ← request env (compileWorkflow (VObj ([("nl_request", VStr nl); ("constraints", get "constraints" args); ("compiler_agent", VStr agent)]
      ++ (if isStr (get "compiler_node_id" args) then [("compiler_node_id", get "compiler_node_id" args)] else [])
      ++ (if isStr (get "idempotency_key" args) then [("idempotency_key", get "idempotency_key" args)] else []))));
    draft_id ← prop "draft_id" draft; spec_hash ← prop "spec_hash" draft;
    mret (ok (VObj [("draft", draft); ("next", next_call "vibe_approve_workflow_draft" [("draft_id", draft_id); ("spec_hash", spec_hash)])]))))).
Definition approveDraftTool (args : value) : C ToolContent :=
  with_string args "draft_id" (fun id => with_string args "spec_hash" (fun hash => answering (
    r ← request env (approveWorkflowDraft id (VObj [("spec_hash", VStr hash)])); workflow_id ← prop "workflow_id" r;
    mret (ok (VObj [("draft", r); ("next", next_call "vibe_start_workflow" [("workflow_id", workflow_id)])]))))).
Definition getWorkflowTool (args : value) : C ToolContent := with_string args "workflow_id" (fun id => plain (getWorkflow id)).
Definition cancelWorkflowTool (args : value) : C ToolContent := with_string args "workflow_id" (fun id => plain (cancelWorkflow id)).
Definition getPendingRequestTool (args : value) : C ToolContent := with_string args "workflow_id" (fun id => plain (getPendingRequest id)).
Definition getDraftTool (args : value) : C ToolContent := with_string args "draft_id" (fun id => plain (getWorkflowDraft id)).

(** ** The tools *)

Record ToolDef : Type := { td_name : string; td_hint : Hint; td_handler : value -> C ToolContent }.
Definition tool (name : string) (hint : Hint) (h : value -> C ToolContent) : ToolDef := {| td_name := name; td_hint := hint; td_handler := h |}.
Definition createGatewayTools : list ToolDef :=
  [tool "vibe_list_agents" ReadOnly listAgentsTool; tool "vibe_start_task" NoHint startTaskTool; tool "vibe_run_task" NoHint runTaskTool;
   tool "vibe_get_task" ReadOnly getTaskTool;
   tool "vibe_get_task_events" ReadOnly getTaskEventsTool; tool "vibe_wait_task" ReadOnly waitTaskTool;
   tool "vibe_cancel_task" Destructive cancelTaskTool].
Definition createWorkflowTools : list ToolDef :=
  [tool "vibe_list_workflows" ReadOnly listWorkflowsTool; tool "vibe_create_workflow" NoHint createWorkflowTool; tool "vibe_start_workflow" NoHint startWorkflowTool;
   tool "vibe_get_workflow" ReadOnly getWorkflowTool;
   tool "vibe_get_workflow_events" ReadOnly getWorkflowEventsTool; tool "vibe_wait_workflow" ReadOnly waitWorkflowTool;
   tool "vibe_cancel_workflow" Destructive cancelWorkflowTool;
   tool "vibe_get_pending_request" ReadOnly getPendingRequestTool;
   tool "vibe_answer_workflow_input" NoHint answerInputTool; tool "vibe_decide_workflow_approval" NoHint decideApprovalTool; tool "vibe_resume_workflow" NoHint resumeWorkflowTool;
   tool "vibe_compile_workflow" NoHint compileWorkflowTool;
   tool "vibe_get_workflow_draft" ReadOnly getDraftTool;
   tool "vibe_approve_workflow_draft" NoHint approveDraftTool].
Definition tools : list ToolDef := createGatewayTools ++ createWorkflowTools.

(** ** JSON-RPC *)

Definition response (id : value) (field : string) (v : value) : value := VObj [("jsonrpc", VStr "2.0"); ("id", id); (field, v)].
Definition rpcError (id : value) (code : Z) : value := response id "error" (VObj [("code", VNum (NInt code))]).
Definition rpcResult (id result : value) : value := response id "result" result.
Definition annotations (h : Hint) : list (string * value) :=
  match h with NoHint => [] | ReadOnly => [("annotations", VObj [("readOnlyHint", VBool true)])] | Destructive => [("annotations", VObj [("destructiveHint", VBool true)])] end.
Definition content_value (t : ToolContent) : value :=
  VObj ([("content", tc_text t)] ++ (if tc_isError t then [("isError", VBool true)] else []) ++ match tc_structuredContent t with Some v => [("structuredContent", v)] | None => [] end).
Definition callTool (id params : value) : C value :=
  match (match get "name" params with VStr n => List.find (fun t => td_name t =s n) tools | _ => None end) with
  | None => mret (rpcError id (-32602))
  | Some t =>
      let rawArgs := get "arguments" params in
      if negb (optional isObj rawArgs) then mret (rpcError id (-32602)) else
      caught (r ← td_handler t (if is_undef rawArgs then VObj [] else rawArgs); mret (rpcResult id (content_value r))) (fun _ => mret (rpcError id (-32603)))
  end.
(** [None]: no response; a method that is not a string has no [startsWith]. *)
Definition handle (msg : value) : C (option value) :=
  let id := get "id" msg in
  let answer (m : C value) : C (option value) := r ← m; mret (Some r) in
  match get "method" msg with
  | (VUndef | VStr _) as method =>
      if match method with VStr s => starts_with "notifications/" s | _ => false end then mret None else
      match id with
      | VUndef | VNull => mret None
      | VStr _ | VNum _ =>
          answer (if negb (is_str_lit (get "jsonrpc" msg) "2.0") then mret (rpcError id (-32600)) else
          match method with
          | VStr s =>
              if s =s "" then mret (rpcError id (-32600))
              else if s =s "initialize" then
                let requested := get "protocolVersion" (get "params" msg) in
                mret (rpcResult id (VObj [("protocolVersion", match requested with VStr v => VStr (if v ∈b KNOWN_PROTOCOLS then v else SUPPORTED_PROTOCOL) | _ => VStr SUPPORTED_PROTOCOL end);
                  ("capabilities", VObj [("tools", VObj [("listChanged", VBool false)])])]))
              else if s =s "ping" then mret (rpcResult id (VObj []))
              else if s =s "tools/list" then mret (rpcResult id (VObj [("tools", VArr (map (fun t => VObj (("name", VStr (td_name t)) :: annotations (td_hint t))) tools))]))
              else if s =s "tools/call" then callTool id (get "params" msg)
              else mret (rpcError id (-32601))
          | _ => mret (rpcError id (-32600))
          end)
      | _ => mret (Some (rpcError VNull (-32600)))
      end
  | _ => fails ClientTypeError
  end.

(** ** Standard input *)

(** What a line comes to: nothing, a response, or the end of the process (a property of null is read outside any handler). *)
Inductive LineOutcome : Type := Silent | Reply (v : value) | Crash.
Definition on_line (line : string) : C LineOutcome :=
  if trim line =s "" then mret Silent else
  match JSON_parse (trim line) with
  | None => mret (Reply (rpcError VNull (-32700)))
  | Some VNull => mret Crash
  | Some msg =>
      r ← caught (handle msg) (fun _ => mret (match get "id" msg with (VStr _ | VNum _) as id => Some (rpcError id (-32603)) | _ => None end));
      mret (match r with Some v => Reply v | None => Silent end)
  end.
End Server.

(** The lines of a chunk, and what is left in the buffer. *)
Fixpoint take_lines (fuel : nat) (buf : string) : list string * string :=
  match fuel with
  | O => ([], buf)
  | S n => match split_at_char "010" buf with Some (line, rest) => let (ls, b) := take_lines n rest in (line :: ls, b) | None => ([], buf) end
  end.
Definition on_data (buf chunk : string) : list string * string := take_lines (String.length (buf +:+ chunk)) (buf +:+ chunk).
