(* ===== verification/McpProps.v ===== *)
(** * What the MCP server may do

    A tool that is declared read-only changes nothing at the Gateway, only the tools that are
    declared destructive cancel, and no tool posts twice.  Every request is answered under
    its id. *)

From S2P Require Import Prelude Machine Values Json Workspace WorkspaceProps GatewayState WorkflowApi Router GatewayClient RouterProps Mcp.

(** ** The calls of a run *)

(** The environment that keeps the calls made, in order. *)
Definition logged {E : Type} (env : ClientEnv E) : ClientEnv (list ApiCall * E) := {|
  cl_fetch := fun c w => let (r, e) := cl_fetch env c (snd w) in (r, (fst w ++ [c], e));
  cl_stream := fun c a n w => let (r, e) := cl_stream env c a n (snd w) in (r, (fst w ++ [c], e));
  cl_now := fun w => let (t, e) := cl_now env (snd w) in (t, (fst w, e)) |}.
Definition posts (k : list ApiCall) : nat := List.length (List.filter (fun c => negb (ac_method c =s "GET")) k).

Section Calls.
Context {E : Type} (env : ClientEnv E) (P : ApiCall -> Prop).
Local Notation W := (list ApiCall * E)%type.

(** The calls are of [P], at most [n] of them posts. *)
Definition Sends (n : nat) {A : Type} (m : C W A) : Prop := forall w, exists k, fst (snd (m w)) = fst w ++ k /\ Forall P k /\ (posts k <= n)%nat.

Lemma sends_weaken {A : Type} (n n' : nat) (m : C W A) : (n <= n')%nat -> Sends n m -> Sends n' m.
Proof. intros Hn H w. destruct (H w) as (k & ? & ? & ?). exists k. repeat split; [done|done|lia]. Qed.
Lemma sends_ret {A : Type} (n : nat) (a : A) : Sends n (mret a : C W A).
Proof. intros w. exists []. rewrite app_nil_r. repeat split; [done|]. cbn. lia. Qed.
Lemma sends_fails {A : Type} (n : nat) (x : ClientFailure) : Sends n (fails x : C W A).
Proof. intros w. exists []. rewrite app_nil_r. repeat split; [done|]. cbn. lia. Qed.
Lemma posts_app (k k' : list ApiCall) : posts (k ++ k') = (posts k + posts k')%nat.
Proof. unfold posts. by rewrite List.filter_app, length_app. Qed.
Lemma sends_then (n n' : nat) (w w1 w2 : W) (k : list ApiCall) : fst w1 = fst w ++ k -> Forall P k -> (posts k <= n)%nat ->
  (exists k', fst w2 = fst w1 ++ k' /\ Forall P k' /\ (posts k' <= n')%nat) -> exists k0, fst w2 = fst w ++ k0 /\ Forall P k0 /\ (posts k0 <= n + n')%nat.
Proof. intros H1 H2 H3 (k' & H4 & H5 & H6). exists (k ++ k'). rewrite H4, H1, app_assoc, posts_app. repeat split; [by apply Forall_app|lia]. Qed.
Lemma sends_bind {A B : Type} (n n' : nat) (m : C W A) (f : A -> C W B) : Sends n m -> (forall a, Sends n' (f a)) -> Sends (n + n') (m ≫= f).
Proof.
  intros Hm Hf w. destruct (Hm w) as (k & H1 & H2 & H3). unfold mbind, C_bind. destruct (m w) as [[a|x] w1]; cbn in H1.
  - exact (sends_then n n' w w1 _ k H1 H2 H3 (Hf a w1)).
  - exists k. repeat split; [done|done|lia].
Qed.
Lemma sends_caught {A : Type} (n n' : nat) (m : C W A) (h : ClientFailure -> C W A) : Sends n m -> (forall x, Sends n' (h x)) -> Sends (n + n') (caught m h).
Proof.
  intros Hm Hh w. destruct (Hm w) as (k & H1 & H2 & H3). unfold caught. destruct (m w) as [[a|x] w1]; cbn in H1.
  - exists k. repeat split; [done|done|lia].
  - destruct x; [exact (sends_then n n' w w1 _ k H1 H2 H3 (Hh _ w1))..|]. exists k. repeat split; [done|done|lia].
Qed.
Lemma sends_answering (n : nat) (m : C W ToolContent) : Sends n m -> Sends n (answering m).
Proof. intros H. rewrite <- (Nat.add_0_r n). apply sends_caught; [done|intros; apply sends_ret]. Qed.
Lemma sends_prop (n : nat) (k : string) (v : value) : Sends n (prop k v : C W value).
Proof. unfold prop. destruct v; (apply sends_ret || apply sends_fails). Qed.
Lemma sends_string (n : nat) (args : value) (key : string) (f : string -> C W ToolContent) : (forall s, trim s <> "" -> Sends n (f s)) -> Sends n (with_string args key f).
Proof.
  intros H. unfold with_string, reqString. destruct (get key args); try apply sends_ret. destruct (trim s =s "") eqn:Es; [apply sends_ret|]. apply H. by apply String.eqb_neq.
Qed.

Lemma sends_request (c : ApiCall) : P c -> Sends (posts [c]) (request (logged env) c).
Proof.
  intros H w. exists [c]. unfold request, logged. cbn -[posts]. destruct (cl_fetch env c (snd w)) as [[[st t]|x] e]; [|destruct x]; (split; [done|]); (split; [apply List.Forall_cons; [exact H|apply List.Forall_nil]|done]).
Qed.
Lemma sends_stream (warning : string) (ends : list string) (c : ApiCall) (a : option num) (n : Z) : P c -> ac_method c = "GET" -> Sends 0 (read_stream (logged env) warning ends c a n).
Proof.
  intros H Hm w. exists [c]. unfold read_stream, logged. cbn -[posts]. assert (Hp : (posts [c] <= 0)%nat) by (unfold posts; cbn; by rewrite Hm).
  destruct (cl_stream env c a n (snd w)) as [r e]. repeat case_match; (split; [done|]); (split; [apply List.Forall_cons; [exact H|apply List.Forall_nil]|done]).
Qed.
Lemma sends_collect (taskId : string) (a : option num) (n : option Z) : P (taskEvents taskId) -> P (getTask taskId) -> Sends 0 (collectEvents (logged env) taskId a n).
Proof.
  intros H1 H2. apply (sends_bind 0 0); [by apply sends_stream|intros r]. apply (sends_bind 0 0); [by apply (sends_request (getTask taskId))|intros; apply sends_ret].
Qed.
Lemma sends_collect_workflow (id : string) (a : option num) (n : option Z) : P (workflowEvents id) -> P (getWorkflow id) -> Sends 0 (collectWorkflowEvents (logged env) id a n).
Proof.
  intros H1 H2. apply (sends_bind 0 0); [by apply sends_stream|intros r]. apply (sends_bind 0 0); [by apply (sends_request (getWorkflow id))|intros; apply sends_ret].
Qed.
Lemma sends_now {A : Type} (n : nat) (f : Z -> C W A) : (forall t, Sends n (f t)) -> Sends n (fun w => let '(t, w1) := cl_now (logged env) w in f t w1).
Proof.
  intros H w. cbn. destruct (cl_now env (snd w)) as [t e]. exact (H t (fst w, e)).
Qed.
Lemma sends_loop (fuel : nat) (poll : num -> Z -> C W CollectedEvents) (deadline : Z) : (forall c n, Sends 0 (poll c n)) -> forall x, Sends 0 (wait_loop (logged env) fuel poll deadline x).
Proof.
  intros Hp. induction fuel as [|n IH]; intros x; [apply sends_fails|]. cbn [wait_loop]. apply sends_now. intros t. cbv zeta. destruct (deadline - t <? EVENT_WAIT_MIN_MS).
  - apply (sends_ret 0 x).
  - apply (sends_bind 0 0 (poll (wa_cursor x) (Z.min (deadline - t) EVENT_WAIT_MAX_MS))); [apply Hp|]. intros r. destruct (ce_terminal r || ce_blocked r); [apply sends_ret|apply IH].
Qed.
Lemma sends_wait (fuel : nat) (poll : num -> Z -> C W CollectedEvents) (a : option num) (o : option Z) : (forall c n, Sends 0 (poll c n)) -> Sends 0 (wait_for (logged env) fuel poll a o).
Proof.
  intros Hp. unfold wait_for. apply sends_now. intros t. eapply (sends_bind 0 0); [by apply sends_loop|]. intros x. destruct (wa_last x); [apply sends_ret|apply sends_fails].
Qed.
End Calls.

(** ** Where the calls go *)

Definition cancelling (t : Target) : bool := match t with CancelTask _ | Workflow (CancelWorkflow _) => true | _ => false end.
(** A call that changes nothing, and one that cancels nothing, wherever it is sent. *)
Definition spares (c : ApiCall) : Prop := forall sv token, changes (route sv (sent token c)) = false.
Definition cancels_not (c : ApiCall) : Prop := forall sv token, cancelling (route sv (sent token c)) = false.

Lemma get_spares (c : ApiCall) : ac_method c = "GET" -> spares c.
Proof.
  intros Hm sv token. destruct (requests_authenticated sv (sent token c)) as (_ & Hp & _). destruct (changes (route sv (sent token c))); [|done].
  specialize (Hp eq_refl). cbn in Hp. congruence.
Qed.
Lemma spares_cancels_not (c : ApiCall) : spares c -> cancels_not c.
Proof. intros H sv token. specialize (H sv token). destruct (route sv (sent token c)) as [| | | | | | | | |[]| | | | | | | | |]; done. Qed.

Definition by_cancel (q : Request) (t : Target) : Prop := cancelling t = true -> last (path_parts q) = Some "cancel".
Lemma with_json_cancel (q : Request) (k : value -> Target) : (forall v, cancelling (k v) = false) -> cancelling (with_json q k) = false.
Proof. intros H. unfold with_json. repeat case_match; first [by apply H|done]. Qed.
Lemma cancel_routed (sv : Services) (q : Request) : cancelling (route sv q) = true -> last (path_parts q) = Some "cancel".
Proof.
  unfold route, dispatch, handleWorkflows, handleWorkflowDrafts, handleWorkflowBuilder, task_routes, ui, on_method, available, with_id. generalize (path_parts q). intros parts.
  repeat (first [done | rewrite with_json_cancel by done; done | case_match]); intros _; simplify_eq; cbn;
    repeat match goal with H : (_ =s _) = true |- _ => apply String.eqb_eq in H; subst end; done.
Qed.
Lemma last_named (c : ApiCall) (a b : string) : ac_path c = a +:+ "/" +:+ b -> b <> "" -> contains "/" b = false -> b <> "cancel" -> cancels_not c.
Proof.
  intros Hp Hb Hs Hc sv token. destruct (cancelling (route sv (sent token c))) eqn:E; [|done]. apply cancel_routed in E. revert E. unfold path_parts. cbn [sent hq_pathname].
  rewrite Hp. change ("/" +:+ b) with (String "/" b). rewrite split_char_app, (split_char_none b), List.filter_app by done. cbn [List.filter]. apply String.eqb_neq in Hb. rewrite Hb. cbn [negb].
  rewrite last_snoc. congruence.
Qed.

(** ** The tools *)

Definition allowed (h : Hint) (c : ApiCall) : Prop := match h with ReadOnly => spares c | NoHint => cancels_not c | Destructive => True end.
Definition budget (h : Hint) : nat := match h with ReadOnly => 0 | _ => 1 end.

Section Tools.
Context {E : Type} (env : ClientEnv E) (fuel : nat).
Local Notation W := (list ApiCall * E)%type.

(** A request, then what uses its answer. *)
Lemma sends_first {B : Type} (h : Hint) (c : ApiCall) (f : value -> C W B) : allowed h c -> (posts [c] <= budget h)%nat -> (forall v, Sends (allowed h) 0 (f v)) ->
  Sends (allowed h) (budget h) (request (logged env) c ≫= f).
Proof. intros Hc Hp Hf. rewrite <- (Nat.add_0_r (budget h)). apply sends_bind; [|done]. apply (sends_weaken _ (posts [c])); [done|by apply sends_request]. Qed.
Lemma sends_plain (h : Hint) (c : ApiCall) : allowed h c -> (posts [c] <= budget h)%nat -> Sends (allowed h) (budget h) (plain (logged env) c).
Proof. intros Hc Hp. apply sends_answering, sends_first; [done|done|intros; apply sends_ret]. Qed.

Lemma named_under (c : ApiCall) (pre x b : string) : ac_path c = pre +:+ x +:+ "/" +:+ b -> b <> "" -> contains "/" b = false -> b <> "cancel" -> cancels_not c.
Proof. intros H. apply (last_named c (pre +:+ x)). by rewrite H, append_assoc. Qed.

(** Posts of the tools that may post. *)
Lemma post_first {B : Type} (c : ApiCall) (f : value -> C W B) : cancels_not c -> (forall v, Sends (allowed NoHint) 0 (f v)) ->
  Sends (allowed NoHint) 1 (request (logged env) c ≫= f).
Proof. intros Hc. apply (sends_first NoHint c); [done|]. unfold posts. cbn. by destruct (negb _); cbn; lia. Qed.
Lemma reads_task (id : string) (a : option num) (n : option Z) (h : Hint) : Sends (allowed h) 0 (collectEvents (logged env) id a n).
Proof. apply sends_collect; destruct h; try done; try (apply spares_cancels_not); by apply get_spares. Qed.
Lemma reads_workflow (id : string) (a : option num) (n : option Z) (h : Hint) : Sends (allowed h) 0 (collectWorkflowEvents (logged env) id a n).
Proof. apply sends_collect_workflow; destruct h; try done; try (apply spares_cancels_not); by apply get_spares. Qed.
Lemma waits_task (id : string) (a : option num) (n : option Z) (h : Hint) : Sends (allowed h) 0 (waitForTask (logged env) fuel id a n).
Proof. apply (sends_bind _ 0 0); [|intros; apply sends_ret]. apply sends_wait. intros. apply reads_task. Qed.
Lemma waits_workflow (id : string) (a : option num) (n : option Z) (h : Hint) : Sends (allowed h) 0 (waitForWorkflow (logged env) fuel id a n).
Proof. apply sends_wait. intros. apply reads_workflow. Qed.

Ltac sends := cbv beta; repeat first
  [ apply (sends_plain ReadOnly); [by apply get_spares|done] | apply (sends_plain Destructive); [done|done]
  | apply sends_ret | apply sends_fails | apply sends_prop | apply reads_task | apply reads_workflow | apply waits_task | apply waits_workflow
  | apply sends_string; intros ? _ | apply sends_answering
  | match goal with
    | |- Sends _ 1 (request _ _ ≫= _) => apply post_first; [|intros ?]
    | |- Sends _ 0 (_ ≫= _) => apply (sends_bind _ 0 0); [|intros ?]
    | |- Sends _ _ (match ?x with _ => _ end) => destruct x
    end ].

Lemma sends_run_task (args : value) : Sends (allowed NoHint) 1 (runTaskTool (logged env) fuel args).
Proof.
  unfold runTaskTool. destruct (buildStartBody args) as [body|]; [|sends]. destruct (parseWaitBudgetMs args) as [ms|]; [|sends]. apply (sends_bind _ 1 0).
  - apply (sends_caught _ 1 0); [|intros; sends]. sends. by apply (last_named _ "/v1" "tasks").
  - intros [taskId|answer]; [|sends]. apply (sends_caught _ 0 0); intros; sends.
Qed.
Lemma gateway_tools_send : Forall (fun t => forall args, Sends (allowed (td_hint t)) (budget (td_hint t)) (td_handler t args)) (createGatewayTools (logged env) fuel).
Proof.
  unfold createGatewayTools. repeat (apply List.Forall_cons; [intros args; cbn [td_hint td_handler tool budget]|]); [..|apply List.Forall_nil];
    unfold listAgentsTool, startTaskTool, getTaskTool, getTaskEventsTool, waitTaskTool, cancelTaskTool; sends.
  - by apply (last_named _ "/v1" "tasks").
  - apply sends_run_task.
Qed.
Lemma workflow_tools_send : Forall (fun t => forall args, Sends (allowed (td_hint t)) (budget (td_hint t)) (td_handler t args)) (createWorkflowTools (logged env) fuel).
Proof.
  unfold createWorkflowTools. repeat (apply List.Forall_cons; [intros args; cbn [td_hint td_handler tool budget]|]); [..|apply List.Forall_nil];
    unfold listWorkflowsTool, getWorkflowTool, cancelWorkflowTool, getPendingRequestTool, getDraftTool, createWorkflowTool, startWorkflowTool, getWorkflowEventsTool, waitWorkflowTool, answerInputTool, decideApprovalTool, resumeWorkflowTool, compileWorkflowTool, approveDraftTool; sends.
  - by apply (last_named _ "/v1" "workflows").
  - by apply (named_under _ "/v1/workflows/" (encodeURIComponent s) "start").
  - by apply (named_under _ "/v1/workflows/" (encodeURIComponent s) "answer").
  - by apply (named_under _ "/v1/workflows/" (encodeURIComponent s) "decision").
  - by apply (named_under _ "/v1/workflows/" (encodeURIComponent s) "resume").
  - by apply (last_named _ "/v1/workflow-drafts" "compile").
  - by apply (named_under _ "/v1/workflow-drafts/" (encodeURIComponent s) "approve").
Qed.
Lemma tools_send (t : ToolDef) (args : value) : In t (tools (logged env) fuel) -> Sends (allowed (td_hint t)) (budget (td_hint t)) (td_handler t args).
Proof.
  intros H. apply in_app_iff in H. destruct H as [H|H]; [assert (Hs := gateway_tools_send)|assert (Hs := workflow_tools_send)]; rewrite List.Forall_forall in Hs; by apply Hs.
Qed.

(** ** Messages *)

Definition after {A : Type} (m : C W A) (w : W) : list ApiCall := fst (snd (m w)).
Lemma after_caught {A : Type} (m : C W A) (h : ClientFailure -> A) (w : W) : after (caught m (fun x => mret (h x))) w = after m w.
Proof. unfold after, caught. destruct (m w) as [[a|[]] w']; done. Qed.
Lemma after_then {A B : Type} (m : C W A) (f : A -> B) (w : W) : after (a ← m; mret (f a)) w = after m w.
Proof. unfold after, mbind, C_bind. by destruct (m w) as [[a|x] w']. Qed.

Lemma message_calls (msg : value) (w : W) : after (handle (logged env) fuel msg) w = fst w
  \/ (get "method" msg = VStr "tools/call" /\ after (handle (logged env) fuel msg) w = after (callTool (logged env) fuel (get "id" msg) (get "params" msg)) w).
Proof.
  unfold handle. destruct (get "method" msg) as [| | | |s| | ] eqn:Em; try (by left); [left; destruct (get "id" msg); try done; rewrite after_then; by destruct (negb (is_str_lit (get "jsonrpc" msg) "2.0"))|].
  destruct (starts_with "notifications/" s); [by left|]. destruct (get "id" msg) eqn:Ei; try (by left); rewrite after_then;
    (destruct (negb (is_str_lit (get "jsonrpc" msg) "2.0")); [by left|]); repeat match goal with |- context [if ?x =s ?y then _ else _] => destruct (x =s y) eqn:? end; try (by left);
    right; match goal with H : (s =s "tools/call") = true |- _ => apply String.eqb_eq in H as -> end; done.
Qed.
Lemma line_calls (line : string) (w : W) : after (on_line (logged env) fuel line) w = fst w
  \/ exists msg, JSON_parse (trim line) = Some msg /\ get "method" msg = VStr "tools/call"
    /\ after (on_line (logged env) fuel line) w = after (callTool (logged env) fuel (get "id" msg) (get "params" msg)) w.
Proof.
  unfold on_line. destruct (trim line =s ""); [by left|]. destruct (JSON_parse (trim line)) as [msg|]; [|by left].
  destruct (message_calls msg w) as [H|[Hm H]]; destruct msg; try (by left); rewrite after_then, after_caught, H; first [by left|right; by eexists].
Qed.

(** C10. What a line of standard input makes the server do.  It calls the Gateway only when the line is a call of one of its tools; a tool that is declared
    read-only changes nothing at the Gateway, whichever calls it makes and however they are routed; a task or a workflow is cancelled only by a tool that is declared
    destructive, so a wait that times out or fails cancels nothing; and no line posts twice. *)
Theorem mcp_calls_contained (line : string) (e : E) :
  let k := after (on_line (logged env) fuel line) ([], e) in
  k = [] \/ exists msg t, JSON_parse (trim line) = Some msg /\ get "method" msg = VStr "tools/call" /\ In t (tools (logged env) fuel) /\ get "name" (get "params" msg) = VStr (td_name t)
    /\ (td_hint t = ReadOnly -> Forall spares k) /\ (td_hint t <> Destructive -> Forall cancels_not k) /\ (posts k <= 1)%nat.
Proof.
  cbv zeta. destruct (line_calls line ([], e)) as [H|(msg & Hp & Hm & H)]; [by left|]. rewrite H. clear H. unfold callTool. destruct (get "name" (get "params" msg)) as [| | | |n| | ] eqn:En; try (by left).
  destruct (List.find (fun t => td_name t =s n) (tools (logged env) fuel)) as [t|] eqn:Et; [|by left]. apply find_some in Et as [Ht Hn]. apply String.eqb_eq in Hn as <-.
  destruct (negb (optional isObj (get "arguments" (get "params" msg)))); [by left|]. rewrite after_caught, after_then. right. exists msg, t.
  match goal with |- context [td_handler t ?args] => destruct (tools_send t args Ht ([], e)) as (k & Hk & Ha & Hb) end. unfold after. rewrite Hk. cbn [app fst].
  repeat split; try done.
  - intros Hr. by rewrite Hr in Ha.
  - intros Hd. destruct (td_hint t); [exact Ha| |done]. eapply Forall_impl; [exact Ha|]. intros c. apply spares_cancels_not.
  - destruct (td_hint t); cbn in Hb; lia.
Qed.
End Tools.

(** ** Answers *)

Section Answers.
Context {E : Type} (env : ClientEnv E) (fuel : nat).

Definition answers (id : value) (r : value) : Prop := exists field v, r = response id field v /\ (field = "result" \/ field = "error").
Lemma error_answers (id : value) (code : Z) : answers id (rpcError id code).
Proof. do 2 eexists. split; [reflexivity|by right]. Qed.
Lemma result_answers (id v : value) : answers id (rpcResult id v).
Proof. do 2 eexists. split; [reflexivity|by left]. Qed.

Lemma call_answered (id params : value) (e : E) : fst (callTool env fuel id params e) = Err OutOfFuel \/ exists r, fst (callTool env fuel id params e) = Ok r /\ answers id r.
Proof.
  assert (Herr : forall code, exists r, Ok (A := value) (E := ClientFailure) (rpcError id code) = Ok r /\ answers id r) by (intros; eexists; split; [done|apply error_answers]).
  unfold callTool. destruct (match get "name" params with VStr n => _ | _ => None end) as [t|]; [|right; apply Herr].
  destruct (negb (optional isObj (get "arguments" params))); [right; apply Herr|]. unfold caught, mbind, C_bind. match goal with |- context [td_handler t ?args e] => destruct (td_handler t args e) as [[r|[]] e'] end; cbn.
  all: first [right; apply Herr|right; eexists; split; [done|apply result_answers]|by left].
Qed.
Lemma handle_answered (msg : value) (e : E) : (isStr (get "id" msg) || isNumber (get "id" msg)) = true ->
  match get "method" msg with VStr s => starts_with "notifications/" s | _ => false end = false ->
  fst (handle env fuel msg e) = Err OutOfFuel \/ fst (handle env fuel msg e) = Err ClientTypeError \/ exists r, fst (handle env fuel msg e) = Ok (Some r) /\ answers (get "id" msg) r.
Proof.
  intros Hid Hn. unfold handle. assert (Herr : forall code, exists r, Ok (A := option value) (E := ClientFailure) (Some (rpcError (get "id" msg) code)) = Ok (Some r) /\ answers (get "id" msg) r)
    by (intros; eexists; split; [done|apply error_answers]).
  destruct (get "method" msg) as [| | | |s| |]; try (by right; left).
  - destruct (get "id" msg) eqn:Ei; try done; unfold mbind, C_bind; destruct (negb (is_str_lit (get "jsonrpc" msg) "2.0")); right; right; apply Herr.
  - rewrite Hn. destruct (get "id" msg) eqn:Ei; try done; unfold mbind, C_bind; (destruct (negb (is_str_lit (get "jsonrpc" msg) "2.0")); [right; right; apply Herr|]);
      repeat match goal with |- context [if ?x =s ?y then _ else _] => destruct (x =s y) end; try (right; right; first [apply Herr|eexists; split; [done|apply result_answers]]).
    all: match goal with |- context [callTool _ _ ?i ?p ?e0] => destruct (call_answered i p e0) as [H|(r & H & Hr)]; destruct (callTool _ _ i p e0) as [out e']; cbn in H; subst out end;
      [by left|right; right; eexists; split; [done|exact Hr]].
Qed.

(** Every request is answered once, under its own id, by a result or an error, unless a wait never ends. *)
Theorem requests_answered (line : string) (msg : value) (e : E) :
  JSON_parse (trim line) = Some msg -> (isStr (get "id" msg) || isNumber (get "id" msg)) = true -> match get "method" msg with VStr s => starts_with "notifications/" s | _ => false end = false ->
  fst (on_line env fuel line e) = Err OutOfFuel \/ exists r, fst (on_line env fuel line e) = Ok (Reply r) /\ answers (get "id" msg) r.
Proof.
  intros Hp Hid Hn. unfold on_line. destruct (trim line =s "") eqn:Et; [apply String.eqb_eq in Et; rewrite Et in Hp; by vm_compute in Hp|]. rewrite Hp.
  assert (Hh := handle_answered msg e Hid Hn). unfold mbind, C_bind, caught.
  destruct msg; try done; destruct (handle env fuel _ e) as [out e']; cbn [fst] in Hh; destruct Hh as [->|[->|(r & -> & Hr)]]; cbn -[get]; try (by left); right.
  all: try (eexists; split; [reflexivity|exact Hr]).
  all: match goal with |- context [get "id" ?m] => destruct (get "id" m) eqn:Ei end; try done; eexists; (split; [reflexivity|apply error_answers]).
Qed.
End Answers.

(** The line "null" ends the process: its id is read before anything can answer. *)
Lemma null_line_crashes {E : Type} (env : ClientEnv E) (fuel : nat) (e : E) : fst (on_line env fuel "null" e) = Ok Crash.
Proof. reflexivity. Qed.

Module McpDemo.
Definition env : ClientEnv unit := {| cl_fetch := fun _ e => (Ok (200, "{}"), e); cl_stream := fun _ _ _ e => (StreamOpen [] StreamDone, e); cl_now := fun e => (0, e) |}.
Definition call (name : string) (args : list (string * value)) : string := default "" (JSON_stringify (VObj
  [("jsonrpc", VStr "2.0"); ("id", VNum (NInt 7)); ("method", VStr "tools/call"); ("params", VObj [("name", VStr name); ("arguments", VObj args)])])).
Example cancel_sends : after (on_line (logged env) 3 (call "vibe_cancel_task" [("task_id", VStr "t 1")])) ([], tt) = [cancelTask "t 1"].
Proof. vm_compute. reflexivity. Qed.
Example run_sends : let text := call "vibe_run_task" [("agent", VStr "mock"); ("input_text", VStr "hi")] in
  after (on_line (logged env) 3 text) ([], tt) = [startTask (VObj [("agent", VStr "mock"); ("input", VObj [("text", VStr "hi")])])].
Proof. vm_compute. reflexivity. Qed.
End McpDemo.
