(* ===== verification/TaskClient.v ===== *)
(** * The clients of the runtime (src/workflow/task-client.ts, workspace-lease-client.ts)

    The adapter of the runtime's task interface over the client of the Gateway: the body of
    a task creation, what is read off a task, and which failures are transient; and the
    adapter of its lease interface over the relay, whose remote calls are a parameter.  At
    the end the remote calls themselves (src/relay/client.ts), as they settle. *)

From S2P Require Import Prelude Machine Values Json JsonProps Contract Templates Verification Validator Outputs StoreRows Store StoreOps RuntimeEnv Runtime TaskContract Workspace WorkflowApi Router GatewayClient.

Definition TERMINAL : list string := ["completed"; "failed"; "cancelled"].
Definition RETRYABLE_CODES : list string := ["gateway_unreachable"; "gateway_error"; "service_unavailable"; "node_offline"; "internal_error"].
Definition isTerminalStatus (s : string) : bool := s ∈b TERMINAL.
Definition historyComplete (task : value) : bool := strict_eq (get "complete" (get "history" task)) (VBool true).
Definition string_or (v : value) (o : option string) : option string := match v with VStr s => Some s | _ => o end.
Definition resultStatusOf (task : value) : option string := string_or (get "result_status" task) None.
Definition resultTextOf (task : value) : option string := string_or (get "text" (get "final_output" (get "result" task))) None.
Definition statusOf (task : value) : string := match get "status" task with VStr s => s | _ => "unknown" end.
Definition taskIdOf (task : value) (fallback : string) : string := match get "task_id" task with VStr s => s | _ => fallback end.

(** A failure as the runtime sees it, or the model out of fuel. *)
Inductive AdapterFailure : Type := TaskFailed (e : ClientError) | TaskFuel.
Definition classify (x : ClientFailure) : AdapterFailure :=
  match x with
  | GatewayApiError api => TaskFailed (if strict_eq (get "retryable" api) (VBool true) || existsb (is_str_lit (get "code" api)) RETRYABLE_CODES then ClientTransient else ClientFatal)
  | ClientTypeError => TaskFailed ClientTransient
  | OutOfFuel => TaskFuel
  end.

Definition field (k : string) (o : option value) : list (string * value) := match o with Some v => [(k, v)] | None => [] end.
Definition create_body (req : AgentTaskCreateRequest) : value :=
  let mode := VStr <$> truthy_string (rq_permission_mode req) in
  let write := if rq_workspace_write req then Some (VBool true) else None in
  VObj ([("agent", VStr (rq_agent req))] ++ field "node_id" (VStr <$> truthy_string (rq_node_id req)) ++ [("input", VObj [("text", VStr (rq_text req))])]
    ++ field "workspace" ((fun k => VObj [("workspace_key", VStr k)]) <$> truthy_string (rq_workspace_key req))
    ++ field "execution" (match mode, write with None, None => None | _, _ => Some (VObj (field "permission_mode" mode ++ field "workspace_write" write)) end)
    ++ (if truthy (rq_metadata req) then [("metadata", rq_metadata req)] else []) ++ [("idempotency_key", VStr (rq_idempotency_key req))]
    ++ field "workspace_lease_id" (VStr <$> truthy_string (rq_workspace_lease_id req)) ++ (if truthy (rq_verify req) then [("verify", rq_verify req)] else [])).

Record TaskState : Type := { ts_task_id : string; ts_status : string; ts_terminal : bool; ts_history_complete : bool; ts_result_status : option string; ts_result_text : option string }.
Definition task_state (task : value) (taskId : string) : TaskState :=
  {| ts_task_id := taskIdOf task taskId; ts_status := statusOf task; ts_terminal := isTerminalStatus (statusOf task); ts_history_complete := historyComplete task;
     ts_result_status := resultStatusOf task; ts_result_text := resultTextOf task |}.
Record TaskRead : Type := { tr_state : TaskState; tr_terminal : bool; tr_events : list value; tr_next_event_id : num }.

Section Adapter.
Context {E : Type} (env : ClientEnv E) (fuel : nat).

Definition adapted {A B : Type} (m : C E A) (k : A -> result AdapterFailure B) : E -> result AdapterFailure B * E := fun e =>
  match m e with (Ok a, e') => (k a, e') | (Err x, e') => (Err (classify x), e') end.
Definition createTask (req : AgentTaskCreateRequest) : E -> result AdapterFailure string * E :=
  adapted (request env (startTask (create_body req))) (fun task => if taskIdOf task "" =s "" then Err (TaskFailed ClientTransient) else Ok (taskIdOf task "")).
Definition getTask (taskId : string) : E -> result AdapterFailure TaskState * E := adapted (request env (GatewayClient.getTask taskId)) (fun task => Ok (task_state task taskId)).
Definition waitForTerminal (taskId : string) (afterId : option num) (budgetMs : Z) (aborted : bool) : E -> result AdapterFailure TaskRead * E :=
  if aborted then fun e => (Err (TaskFailed ClientTransient), e) else
  adapted (waitForTask env fuel taskId afterId (Some budgetMs)) (fun r =>
    Ok {| tr_state := task_state (ce_task (fst r)) taskId; tr_terminal := ce_terminal (fst r) || isTerminalStatus (statusOf (ce_task (fst r)));
          tr_events := ce_events (fst r); tr_next_event_id := ce_next_event_id (fst r) |}).
Definition cancelTask (taskId : string) : E -> result AdapterFailure unit * E := adapted (request env (GatewayClient.cancelTask taskId)) (fun _ => Ok tt).
End Adapter.

(** ** Leases over the relay *)

(** The remote calls; a failure is a [RemoteLeaseError] with its code, or another error. *)
Record RemoteLease (E : Type) : Type := {
  rl_acquire : string -> string -> string -> E -> result (option string) WorkspaceLeaseV1 * E;
  rl_get : string -> string -> E -> result (option string) (option WorkspaceLeaseV1) * E;
  rl_observe : string -> string -> E -> result (option string) value * E;
  rl_release : string -> string -> E -> result (option string) unit * E }.
Arguments rl_acquire {E}.
Arguments rl_get {E}.
Arguments rl_observe {E}.
Arguments rl_release {E}.
Definition TRANSIENT_LEASE_CODES : list string := ["workspace_lease_in_use"; "workspace_lease_unavailable"; "workspace_revision_unavailable"; "internal_error"].
Definition rethrow (code : option string) : LeaseError :=
  match code with
  | Some c => if c =s "workspace_lease_conflict" then LeaseVerdict "workspace_lease_conflict" else if c =s "" then LeaseTransient else if c ∈b TRANSIENT_LEASE_CODES then LeaseTransient else LeaseVerdict c
  | None => LeaseTransient
  end.
Definition lease_call {E A : Type} (m : E -> result (option string) A * E) : E -> result LeaseError A * E := fun e =>
  match m e with (Ok a, e') => (Ok a, e') | (Err c, e') => (Err (rethrow c), e') end.
Definition RelayWorkspaceLeaseClient {E : Type} (remote : RemoteLease E) : WorkspaceLeaseClient E := {|
  lc_acquire := fun nodeId workflowId key => lease_call (rl_acquire remote nodeId workflowId key);
  lc_get := fun nodeId leaseId e =>
    match rl_get remote nodeId leaseId e with
    | (Err (Some c), e') => if c =s "workspace_lease_invalid" then (Ok None, e') else (Err (rethrow (Some c)), e')
    | (Err None, e') => (Err (rethrow None), e')
    | (Ok l, e') => (Ok l, e')
    end;
  lc_observeRevision := fun nodeId key => lease_call (rl_observe remote nodeId key);
  lc_release := fun nodeId leaseId => lease_call (rl_release remote nodeId leaseId) |}.

(** ** What the runtime asks for is what the Gateway accepts *)

(** The requests of the runtime, with the conditions the validator and the renderers establish. *)
Record sendable (r : AgentTaskCreateRequest) : Prop := {
  sd_agent : nonblank (VStr (rq_agent r)) = true; sd_text : nonblank (VStr (rq_text r)) = true;
  sd_key : match rq_workspace_key r with Some k => k <> "" /\ WORKSPACE_KEY_RE k = true | None => True end;
  sd_mode : match rq_permission_mode r with Some m => m = "default" \/ m = "unsafe-skip" | None => True end;
  sd_node : rq_node_id r <> Some "";
  sd_metadata : isObj (rq_metadata r) = true /\ json_data (rq_metadata r);
  sd_idempotency : IDEMPOTENCY_KEY_RE (rq_idempotency_key r) = true;
  sd_lease : match rq_workspace_lease_id r with Some l => l <> "" /\ IDEMPOTENCY_KEY_RE l = true | None => True end;
  sd_verify : match rq_verify r with VUndef => True | v => is_ok (validateTaskVerifyConfig v) = true /\ json_data v end }.
(** The same request, as the Gateway has it. *)
Definition received (r : AgentTaskCreateRequest) : CreateTaskRequest :=
  {| cr_agent := rq_agent r; cr_node_id := rq_node_id r; cr_input_text := rq_text r; cr_workspace_key := rq_workspace_key r; cr_workspace_path := None;
     cr_permission_mode := rq_permission_mode r; cr_workspace_write := if rq_workspace_write r then Some true else None; cr_metadata := rq_metadata r;
     cr_idempotency_key := Some (rq_idempotency_key r); cr_workspace_lease_id := rq_workspace_lease_id r;
     cr_verify := match validateTaskVerifyConfig (rq_verify r) with Ok p => Some p | Err _ => None end |}.

(** The optional fields, and the [execution] object of a mode and a write permission. *)
Definition maybe (o : option value) : value := default VUndef o.
Definition execution (mode : option string) (write : bool) : option value :=
  match mode, write with
  | None, false => None
  | Some m, false => Some (VObj [("permission_mode", VStr m)])
  | None, true => Some (VObj [("workspace_write", VBool true)])
  | Some m, true => Some (VObj [("permission_mode", VStr m); ("workspace_write", VBool true)])
  end.
Definition body_of (r : AgentTaskCreateRequest) : value :=
  VObj ([("agent", VStr (rq_agent r))] ++ field "node_id" (VStr <$> rq_node_id r) ++ [("input", VObj [("text", VStr (rq_text r))])]
    ++ field "workspace" ((fun k => VObj [("workspace_key", VStr k)]) <$> rq_workspace_key r) ++ field "execution" (execution (rq_permission_mode r) (rq_workspace_write r))
    ++ [("metadata", rq_metadata r); ("idempotency_key", VStr (rq_idempotency_key r))] ++ field "workspace_lease_id" (VStr <$> rq_workspace_lease_id r)
    ++ field "verify" (if is_undef (rq_verify r) then None else Some (rq_verify r))).

Lemma truthy_named (o : option string) : o <> Some "" -> truthy_string o = o.
Proof. destruct o as [s|]; [|done]. intros H. cbn. destruct (s =s "") eqn:E; [|done]. apply String.eqb_eq in E. congruence. Qed.
Lemma verify_object (v : value) : is_ok (validateTaskVerifyConfig v) = true -> exists o, v = VObj o.
Proof. destruct v; try done. by eexists. Qed.
Lemma body_of_request (r : AgentTaskCreateRequest) : sendable r -> create_body r = body_of r.
Proof.
  intros []. unfold create_body, body_of. rewrite (truthy_named (rq_node_id r)) by done.
  rewrite (truthy_named (rq_workspace_key r)) by (destruct (rq_workspace_key r); [destruct sd_key0; congruence|done]).
  rewrite (truthy_named (rq_permission_mode r)) by (destruct (rq_permission_mode r); [destruct sd_mode0; congruence|done]).
  rewrite (truthy_named (rq_workspace_lease_id r)) by (destruct (rq_workspace_lease_id r); [destruct sd_lease0; congruence|done]).
  destruct (rq_metadata r) as [| | | | | |m]; try (by destruct sd_metadata0). cbn [truthy].
  assert (Hv : (if truthy (rq_verify r) then [("verify", rq_verify r)] else []) = field "verify" (if is_undef (rq_verify r) then None else Some (rq_verify r))).
  { destruct (rq_verify r) as [| | | | | |v]; try done; destruct sd_verify0 as [Hv _]; by apply verify_object in Hv as []. }
  rewrite Hv. by destruct (rq_permission_mode r), (rq_workspace_write r).
Qed.

Lemma body_get (r : AgentTaskCreateRequest) : let b := body_of r in
  get "agent" b = VStr (rq_agent r) /\ get "node_id" b = maybe (VStr <$> rq_node_id r) /\ get "input" b = VObj [("text", VStr (rq_text r))]
  /\ get "workspace" b = maybe ((fun k => VObj [("workspace_key", VStr k)]) <$> rq_workspace_key r) /\ get "execution" b = maybe (execution (rq_permission_mode r) (rq_workspace_write r))
  /\ get "metadata" b = rq_metadata r /\ get "idempotency_key" b = VStr (rq_idempotency_key r) /\ get "workspace_lease_id" b = maybe (VStr <$> rq_workspace_lease_id r)
  /\ get "verify" b = rq_verify r.
Proof.
  unfold body_of. destruct (rq_node_id r), (rq_workspace_key r), (execution (rq_permission_mode r) (rq_workspace_write r)), (rq_workspace_lease_id r), (rq_verify r); by repeat split.
Qed.
Lemma body_json (r : AgentTaskCreateRequest) : sendable r -> json_data (body_of r).
Proof.
  intros []. destruct sd_metadata0 as [_ Hm]. assert (Hv : is_undef (rq_verify r) = false -> json_data (rq_verify r)) by (destruct (rq_verify r); try done; by destruct sd_verify0).
  unfold body_of. apply json_data_obj. destruct (is_undef (rq_verify r)) eqn:Ev.
  all: split; [by destruct (rq_node_id r), (rq_workspace_key r), (rq_permission_mode r), (rq_workspace_write r), (rq_workspace_lease_id r); repeat split|].
  all: repeat (apply Forall_app; split); destruct (rq_node_id r), (rq_workspace_key r), (rq_permission_mode r), (rq_workspace_write r), (rq_workspace_lease_id r).
  all: repeat first [apply List.Forall_nil|apply List.Forall_cons|by apply Hv|exact Hm|by cbn].
Qed.

Lemma all_pass (tests : list (bool * string)) : Forall (fun t => fst t = true) tests -> first_failure tests = None.
Proof. induction 1 as [|[ok f] tests Hok _ IH]; [done|]. cbn in *. by rewrite Hok. Qed.
Lemma body_passes (r : AgentTaskCreateRequest) : sendable r -> Forall (fun t => fst t = true) (request_tests (body_of r)).
Proof.
  intros []. destruct (body_get r) as (H1 & H2 & H3 & H4 & H5 & H6 & H7 & H8 & H9). unfold request_tests. rewrite H1, H2, H3, H4, H5, H6, H7, H9. destruct sd_metadata0 as [Hm _].
  apply Forall_app. split; [repeat apply List.Forall_cons; try done; by destruct (rq_node_id r)|]. apply Forall_app. split.
  { destruct (rq_permission_mode r) as [m|], (rq_workspace_write r); try apply List.Forall_nil; unfold execution_tests; cbn [maybe default is_undef execution];
      repeat apply List.Forall_cons; try done; destruct sd_mode0 as [->| ->]; done. }
  apply Forall_app. split.
  { destruct (rq_workspace_key r) as [k|]; [|apply List.Forall_nil]. destruct sd_key0 as [_ Hk]. unfold workspace_tests. cbn. repeat apply List.Forall_cons; try done. }
  repeat apply List.Forall_cons; try done.
  - destruct (rq_metadata r); done.
  - rewrite H8. destruct (rq_workspace_lease_id r) as [l|]; [|done]. by destruct sd_lease0.
  - destruct (rq_verify r); try done; by destruct sd_verify0.
Qed.

(** What the runtime asks for reaches the Gateway unchanged: the body the adapter sends, through JSON, passes the validation of the Gateway and is the same request. *)
Theorem runtime_request_accepted (r : AgentTaskCreateRequest) : sendable r ->
  exists text body, JSON_stringify (create_body r) = Some text /\ JSON_parse text = Some body /\ validateCreateTaskRequest body = Ok (received r).
Proof.
  intros H. rewrite (body_of_request r H). destruct (JSON_roundtrip _ (body_json r H)) as (text & Ht & Hp). exists text, (body_of r). split; [done|]. split; [done|].
  unfold validateCreateTaskRequest. rewrite (all_pass _ (body_passes r H)). destruct (body_get r) as (H1 & H2 & H3 & H4 & H5 & H6 & H7 & H8 & H9).
  rewrite H1, H2, H3, H4, H5, H6, H7, H8, H9. unfold received. f_equal. destruct H. f_equal.
  - by destruct (rq_node_id r).
  - by destruct (rq_workspace_key r).
  - by destruct (rq_workspace_key r).
  - by destruct (rq_permission_mode r), (rq_workspace_write r).
  - by destruct (rq_permission_mode r), (rq_workspace_write r).
  - unfold isPlainObject. by rewrite (proj1 sd_metadata0).
  - by destruct (rq_workspace_lease_id r).
Qed.

(** A request the runtime builds for a step is such a request. *)
Lemma task_request_sendable (workflowId : string) (role specStep : value) (step : StepExecutionRecord) (text : string) (ws leaseId : option string) :
  nonblank (get "agent" role) = true -> nonblank (VStr text) = true -> match ws with Some k => k <> "" /\ WORKSPACE_KEY_RE k = true | None => True end ->
  opt_test mode_ok (get "permission_mode" specStep) = true -> IDEMPOTENCY_KEY_RE (st_id step) = true -> Z.abs (st_round step) < 10 ^ 21 -> Z.abs (s_attempt (st_row step)) < 10 ^ 21 ->
  match leaseId with Some l => l <> "" /\ IDEMPOTENCY_KEY_RE l = true | None => True end ->
  match get "verify" specStep with VUndef => True | v => is_ok (validateTaskVerifyConfig v) = true /\ json_data v end ->
  sendable (task_request workflowId role specStep step text ws leaseId).
Proof.
  intros Ha Ht Hw Hm Hi Hr Hat Hl Hv. split; try done; cbn [task_request rq_agent rq_permission_mode rq_node_id rq_metadata rq_verify].
  - by destruct (get "agent" role).
  - unfold opt_test, mode_ok, is_str_lit in Hm. destruct (get "permission_mode" specStep) as [| | | |m| |]; try done. cbn in *. destruct (m =s "") eqn:E; [done|].
    apply orb_prop in Hm as [Hm|Hm]; apply String.eqb_eq in Hm; auto.
  - unfold truthy_str. destruct (get "node_id" role) as [| | | |n| |]; try done. destruct (n =s "") eqn:E; [done|]. intros [= ->]. done.
  - destruct (get "verify" specStep); try done; destruct Hv as [Hv Hj]; by apply verify_object in Hv as [].
Qed.

(** ** Requests over the relay (src/relay/client.ts: remoteStop, remoteRunStatus, remoteRunResult,
      remoteTerminalList, remoteTerminalKill, oneShotLease and the lease calls,
      remoteWorkspaceRevisionObserve, remoteApprovalRespond)

    Each call opens a socket, sends one request under a fresh id and settles with the first
    of: its answer, an error of the relay, a timeout, the socket failing or closing.  A call
    is a step function over what happens to its socket.  Times and the text of errors are
    left out, except the codes. *)

(** A value, or an error with its code. *)
Inductive Outcome : Type := Resolved (v : value) | Rejected (code : value).
Inductive Happening : Type := Opened | Message (raw : string) | Closed | Failed | TimedOut.

Record OneShot : Type := {
  os_request : value;                              (* what is sent when the socket opens *)
  os_on_message : value -> option Outcome;         (* [None]: ignored *)
  os_unavailable : value }.                        (* the code of a timeout, a failure or a close *)
Record CallState : Type := { cs_sent : list value; cs_settled : option Outcome }.
Definition settle (o : Outcome) (s : CallState) : CallState := match cs_settled s with Some _ => s | None => {| cs_sent := cs_sent s; cs_settled := Some o |} end.
Definition happen (c : OneShot) (h : Happening) (s : CallState) : CallState :=
  match h with
  | Opened => {| cs_sent := cs_sent s ++ [os_request c]; cs_settled := cs_settled s |}
  | Message raw => match (m ← JSON_parse raw; os_on_message c m) with Some o => settle o s | None => s end
  | Closed | Failed | TimedOut => settle (Rejected (os_unavailable c)) s
  end.
Definition call (c : OneShot) (hs : list Happening) : CallState := fold_left (fun s h => happen c h s) hs {| cs_sent := []; cs_settled := None |}.

(** ** Requests and answers *)

Definition or_else (v : value) (code : string) : value := if is_nullish v then VStr code else v.
Definition answers_to (reqId type : string) (m : value) : bool := is_str_lit (get "type" m) type && is_str_lit (get "req_id" m) reqId.
Definition relay_request (reqId to : string) (fields : list (string * value)) : value :=
  VObj ([("version", VNum (NInt 1)); ("kind", VStr "plaintext"); ("from", VStr "cli"); ("to", VStr to); ("req_id", VStr reqId)] ++ fields).
Definition relay_error (m : value) : option Outcome := if is_str_lit (get "type" m) "relay_error" then Some (Rejected (get "code" m)) else None.
(** An ack that carries what was asked for, or an error. *)
Definition acked (field fallback : string) (ack : value) : Outcome :=
  if truthy (get "ok" ack) && truthy (get field ack) then Resolved (get field ack) else Rejected (or_else (get "code" ack) fallback).

Section Calls.
(** decryptEvent, [None] when it throws, and validateTaskResult. *)
Context (decryptEvent : string -> value -> option value) (sha256_hex : string -> string).

Definition remoteRunStatus (reqId runId : string) : OneShot :=
  {| os_request := relay_request reqId "relay" [("type", VStr "run_status_request"); ("run_id", VStr runId)]; os_unavailable := VUndef;
     os_on_message := fun m => if answers_to reqId "run_status_ack" m then Some (acked "record" "status_failed" m) else relay_error m |}.
(** [request]: the encrypted request of a run with a stop key. *)
Definition remoteStop (reqId runId : string) (stopKey : option (string * value)) : OneShot :=
  {| os_request := match stopKey with Some (_, request) => request | None => relay_request reqId "relay" [("type", VStr "run_stop_request"); ("run_id", VStr runId); ("reason", VStr "requested_by_user")] end;
     os_unavailable := VUndef;
     os_on_message := fun m =>
       match stopKey with
       | Some (key, _) =>
           if is_str_lit (get "type" m) "encrypted_run_stop_ack" then
             if is_str_lit (get "req_id" m) reqId then Some (match decryptEvent key m with Some r => if is_nullish r then Rejected VUndef else acked "record" "stop_failed" r | None => Rejected VUndef end) else None
           else if answers_to reqId "run_stop_ack" m then Some (acked "record" "stop_failed" m) else relay_error m
       | None => if answers_to reqId "run_stop_ack" m then Some (acked "record" "stop_failed" m) else relay_error m
       end |}.
Definition result_of (v : value) : value := match validateTaskResult sha256_hex v with Ok _ => v | Err _ => VNull end.
Definition remoteRunResult (reqId runId : string) (eventKey : option string) : OneShot :=
  {| os_request := relay_request reqId "relay" [("type", VStr "run_result_request"); ("run_id", VStr runId)]; os_unavailable := VUndef;
     os_on_message := fun m =>
       if answers_to reqId "run_result_ack" m then Some (
         if negb (truthy (get "ok" m)) then Rejected (or_else (get "code" m) "result_failed") else
         let result := match eventKey with
                       | Some key => if truthy (get "encrypted" m) then match decryptEvent key (get "encrypted" m) with Some d => result_of d | None => VNull end
                                     else if truthy (get "result" m) then result_of (get "result" m) else VNull
                       | None => if truthy (get "result" m) then result_of (get "result" m) else VNull
                       end in
         let status := or_else (get "result_status" m) "missing" in
         Resolved (VObj [("result_status", if is_str_lit status "available" && negb (truthy result) then VStr "invalid" else status); ("result", result)]))
       else relay_error m |}.
Definition remoteTerminalList (reqId nodeId : string) : OneShot :=
  {| os_request := relay_request reqId nodeId [("type", VStr "terminal_session_list")]; os_unavailable := VUndef;
     os_on_message := fun m =>
       if answers_to reqId "terminal_session_list_ack" m then
         Some (if truthy (get "ok" m) then Resolved (if is_nullish (get "sessions" m) then VArr [] else get "sessions" m) else Rejected (or_else (get "code" m) "error"))
       else relay_error m |}.
Definition remoteTerminalKill (reqId nodeId session : string) : OneShot :=
  {| os_request := relay_request reqId nodeId [("type", VStr "terminal_session_kill"); ("session", VStr session)]; os_unavailable := VUndef;
     os_on_message := fun m =>
       if answers_to reqId "terminal_session_kill_ack" m then
         Some (Resolved (VObj [("ok", get "ok" m); ("result", get "result" m); ("message", get "message" m); ("code", get "code" m)]))
       else relay_error m |}.

(** Lease calls take only the relay's errors about their own request. *)
Definition own_error (reqId fallback : string) (m : value) : option Outcome := if answers_to reqId "relay_error" m then Some (Rejected (or_else (get "code" m) fallback)) else None.
Definition oneShotLease (reqId : string) (request : list (string * value)) : OneShot :=
  {| os_request := relay_request reqId "relay" request; os_unavailable := VStr "workspace_lease_unavailable";
     os_on_message := fun m => if answers_to reqId "workspace_lease_ack" m then Some (Resolved m) else own_error reqId "workspace_lease_unavailable" m |}.
Definition unwrapLease (o : Outcome) : Outcome := match o with Resolved ack => acked "lease" "workspace_lease_invalid" ack | Rejected code => Rejected code end.
Definition remoteWorkspaceLeaseAcquire (reqId nodeId workflowId workspaceKey : string) : OneShot :=
  oneShotLease reqId [("type", VStr "workspace_lease_acquire"); ("node_id", VStr nodeId); ("workflow_id", VStr workflowId); ("workspace_key", VStr workspaceKey); ("mode", VStr "exclusive")].
Definition remoteWorkspaceLeaseGet (reqId nodeId leaseId : string) : OneShot :=
  oneShotLease reqId [("type", VStr "workspace_lease_get"); ("node_id", VStr nodeId); ("workspace_lease_id", VStr leaseId)].
Definition remoteWorkspaceLeaseRelease (reqId nodeId leaseId : string) : OneShot :=
  oneShotLease reqId [("type", VStr "workspace_lease_release"); ("node_id", VStr nodeId); ("workspace_lease_id", VStr leaseId)].
Definition remoteWorkspaceRevisionObserve (reqId nodeId workspaceKey : string) : OneShot :=
  {| os_request := relay_request reqId "relay" [("type", VStr "workspace_revision_observe"); ("node_id", VStr nodeId); ("workspace_key", VStr workspaceKey)];
     os_unavailable := VStr "workspace_revision_unavailable";
     os_on_message := fun m => if answers_to reqId "workspace_revision_ack" m then Some (acked "revision" "workspace_revision_unavailable" m) else own_error reqId "workspace_revision_unavailable" m |}.
(** [request]: the decision, encrypted under the key of the run. *)
Definition remoteApprovalRespond (reqId key : string) (request : value) : OneShot :=
  {| os_request := request; os_unavailable := VUndef;
     os_on_message := fun m =>
       if is_str_lit (get "type" m) "encrypted_approval_response_ack" then
         if is_str_lit (get "req_id" m) reqId then
           Some (match decryptEvent key m with
                 | Some r => if is_nullish r then Rejected VUndef else if truthy (get "ok" r) then Resolved VUndef else Rejected (or_else (get "code" r) "approval_failed")
                 | None => Rejected VUndef
                 end)
         else None
       else relay_error m |}.

(** ** A call settles once, and succeeds only by its own answer *)

(** What a happening comes to for a call that is still waiting. *)
Definition outcome (c : OneShot) (h : Happening) : option Outcome :=
  match h with Opened => None | Message raw => m ← JSON_parse raw; os_on_message c m | Closed | Failed | TimedOut => Some (Rejected (os_unavailable c)) end.
Fixpoint first_outcome (c : OneShot) (hs : list Happening) : option Outcome := match hs with [] => None | h :: r => match outcome c h with Some o => Some o | None => first_outcome c r end end.

Lemma happen_settled (c : OneShot) (h : Happening) (s : CallState) : cs_settled (happen c h s) = match cs_settled s with Some o => Some o | None => outcome c h end.
Proof. destruct h; cbn; unfold settle; repeat case_match; simplify_eq/=; congruence. Qed.
Lemma run_settled (c : OneShot) (hs : list Happening) : forall s, cs_settled (fold_left (fun s h => happen c h s) hs s) = match cs_settled s with Some o => Some o | None => first_outcome c hs end.
Proof.
  induction hs as [|h hs IH]; intros s; cbn [fold_left first_outcome]; [by destruct (cs_settled s)|]. rewrite IH, happen_settled. destruct (cs_settled s); [done|]. by destruct (outcome c h).
Qed.

Definition calls_of (reqId a b d : string) (stopKey : option (string * value)) (eventKey : option string) (request : value) : list OneShot :=
  [remoteRunStatus reqId a; remoteStop reqId a stopKey; remoteRunResult reqId a eventKey; remoteTerminalList reqId a; remoteTerminalKill reqId a b; remoteWorkspaceLeaseAcquire reqId a b d;
   remoteWorkspaceLeaseGet reqId a b; remoteWorkspaceLeaseRelease reqId a b; remoteWorkspaceRevisionObserve reqId a b; remoteApprovalRespond reqId a request].
Lemma own_req (reqId type : string) (m : value) : answers_to reqId type m = true -> get "req_id" m = VStr reqId.
Proof. unfold answers_to, is_str_lit. intros H. apply andb_prop in H as [_ H]. destruct (get "req_id" m); try done. cbn in H. by apply String.eqb_eq in H as ->. Qed.
Lemma lit_req (reqId : string) (m : value) : is_str_lit (get "req_id" m) reqId = true -> get "req_id" m = VStr reqId.
Proof. unfold is_str_lit. destruct (get "req_id" m); try done. cbn. intros H. by apply String.eqb_eq in H as ->. Qed.
Lemma resolved_by_own (reqId a b d : string) (stopKey : option (string * value)) (eventKey : option string) (request : value) :
  Forall (fun c => forall m v, os_on_message c m = Some (Resolved v) -> get "req_id" m = VStr reqId) (calls_of reqId a b d stopKey eventKey request).
Proof.
  unfold calls_of. repeat (apply List.Forall_cons; [intros m v; cbn [os_on_message remoteRunStatus remoteStop remoteRunResult remoteTerminalList remoteTerminalKill remoteWorkspaceLeaseAcquire remoteWorkspaceLeaseGet
    remoteWorkspaceLeaseRelease oneShotLease remoteWorkspaceRevisionObserve remoteApprovalRespond]; unfold relay_error, own_error|]); [..|apply List.Forall_nil].
  all: repeat case_match; intros; try done; first [by eapply own_req|by eapply lit_req].
Qed.
End Calls.

(** A call over the relay settles with the first of its answer, an error, a timeout, or the end of its socket, and keeps that outcome whatever happens later; and what it returns
    to its caller was in an answer under its own request id. *)
Theorem remote_calls_settle (decryptEvent : string -> value -> option value) (sha256_hex : string -> string) (reqId a b d : string) (stopKey : option (string * value)) (eventKey : option string)
    (request : value) (c : OneShot) (hs : list Happening) : In c (calls_of decryptEvent sha256_hex reqId a b d stopKey eventKey request) ->
  cs_settled (call c hs) = first_outcome c hs
  /\ (forall v, cs_settled (call c hs) = Some (Resolved v) -> exists raw m, In (Message raw) hs /\ JSON_parse raw = Some m /\ get "req_id" m = VStr reqId /\ os_on_message c m = Some (Resolved v)).
Proof.
  intros Hc. assert (Hf : cs_settled (call c hs) = first_outcome c hs) by apply run_settled. split; [done|]. rewrite Hf. clear Hf.
  assert (Ho := resolved_by_own decryptEvent sha256_hex reqId a b d stopKey eventKey request). rewrite List.Forall_forall in Ho. specialize (Ho c Hc). intros v. induction hs as [|h hs IH]; [done|].
  cbn [first_outcome]. destruct (outcome c h) as [o|] eqn:E.
  - intros [= ->]. destruct h as [|raw| | |]; try done. cbn in E. destruct (JSON_parse raw) as [m|] eqn:Ep; [|done]. cbn in E. exists raw, m. split; [by left|]. split; [done|]. split; [by eapply Ho|done].
  - intros H. destruct (IH H) as (raw & m & Hi & H'). exists raw, m. split; [by right|done].
Qed.

(** When the relay or the Node cannot be reached, the runtime retries. *)
Lemma unreachable_transient (reqId : string) (request : list (string * value)) : os_unavailable (oneShotLease reqId request) = VStr "workspace_lease_unavailable"
  /\ rethrow (Some "workspace_lease_unavailable") = LeaseTransient /\ rethrow (Some "workspace_revision_unavailable") = LeaseTransient.
Proof. done. Qed.
