(* ===== verification/NodeTail.v ===== *)
(** * Forwarding the events of a run (src/relay/client.ts: tailRunEvents, persistTerminalResult,
      resolveNodeRunResult)

    The Node follows the event file of a run, journals each event and then sends it to the
    relay.  [flush] is one look at the file: its contents so far, the journal and the state
    of the socket are inputs, the frames sent are its result; the idle timeout ends the
    looks. *)

From S2P Require Import Prelude Machine Values Json JsonProps Contract Templates Verification Validator Outputs TaskContract Journal JournalProps Workspace WorkspaceProps.

Section Tail.
Context (sha256_hex : string -> string) (runId now : string).
(** The record of the run, as the supervisor left it. *)
Context (rec : value).
(** The run is encrypted; the socket is open. *)
Context (encrypted wsOpen : bool).

Definition isTerminal (event : value) : bool := is_str_lit (get "type" event) "status" && existsb (is_str_lit (get "status" event)) TERMINAL_STATUSES.
Definition journalStatusOf (event : value) : option string := if is_str_lit (get "type" event) "status" then str_field (get "status" event) else None.

Definition persistTerminalResult : J bool :=
  let rs := match get "result_status" rec with VStr s => s | _ => "missing" end in
  if rs =s "available" then
    if truthy (get "task_result" rec) then
      match validateTaskResult sha256_hex (get "task_result" rec) with
      | Ok v => persistRunResult now runId "available" (Some v)
      | Err _ => persistRunResult now runId "invalid" None
      end
    else persistRunResult now runId "missing" None
  else persistRunResult now runId rs None.
(** The journal first, then the record of the run. *)
Definition resolveNodeRunResult (journal : option Journal) : result journal_error (string * option AgentTaskResultV1) * option Journal :=
  match journal with
  | None => (Ok ("missing", None), None)
  | Some j =>
      match getRunResult sha256_hex runId j with
      | (Err e, j1) => (Err e, Some j1)
      | (Ok (Some r), j1) => (Ok r, Some j1)
      | (Ok None, j1) =>
          match persistTerminalResult j1 with
          | (Err _, j2) => (Ok ("missing", None), Some j2)
          | (Ok _, j2) => match getRunResult sha256_hex runId j2 with (Ok (Some r), j3) => (Ok r, Some j3) | (_, j3) => (Ok ("missing", None), Some j3) end
          end
      end
  end.

(** ** Events *)

Inductive Forwarded : Type := RunEvent (event : value) (source_sequence : option Z) | EncryptedRunEvent (event : value).
Definition event_input (event : value) : NodeRunEventInput :=
  {| ni_type := str_of (get "type" event); ni_timestamp := match get "ts" event with VStr ts => if isIsoUtc ts then ts else now | _ => now end;
     ni_payload := event; ni_terminal := isTerminal event; ni_status := journalStatusOf event |}.
Definition send (event : value) (seq : option Z) : list Forwarded := if wsOpen then [if encrypted then EncryptedRunEvent event else RunEvent event seq] else [].

(** One event: whether it ends the run, what is sent, the journal.  An event the journal does not take is not published. *)
Definition on_event (journal : option Journal) (event : value) : bool * list Forwarded * option Journal :=
  match journal with
  | None => (isTerminal event, send event None, None)
  | Some j =>
      match event with
      | VNull => (false, [], Some j)                                          (* event.type *)
      | _ =>
          match append now runId (event_input event) j with
          | (Err _, j1) => (false, [], Some j1)
          | (Ok ev, j1) => (isTerminal event, send event (Some (ne_sequence ev)), Some (if isTerminal event then snd (persistTerminalResult j1) else j1))
          end
      end
  end.
Fixpoint on_lines (journal : option Journal) (lines : list string) : bool * list Forwarded * option Journal :=
  match lines with
  | [] => (false, [], journal)
  | line :: rest =>
      match JSON_parse line with
      | None => on_lines journal rest
      | Some event =>
          match on_event journal event with
          | (true, sent, j) => (true, sent, j)
          | (false, sent, j) => let '(fin, more, j') := on_lines j rest in (fin, sent ++ more, j')
          end
      end
  end.
Definition lines_of (s : string) : list string := List.filter nonempty (split_char "010" s).

Record Tail : Type := { tl_offset : nat; tl_finished : bool }.
Definition flush (contents : string) (t : Tail) (journal : option Journal) : Tail * list Forwarded * option Journal :=
  if tl_finished t || (String.length contents <=? tl_offset t)%nat then (t, [], journal) else
  let fresh := string_of_list_ascii (skipn (tl_offset t) (lit contents)) in
  let '(fin, sent, j) := on_lines journal (lines_of fresh) in
  ({| tl_offset := String.length contents; tl_finished := fin |}, sent, j).
Definition start : Tail := {| tl_offset := 0; tl_finished := false |}.
(** Successive looks at a growing file. *)
Fixpoint tail (looks : list string) (t : Tail) (journal : option Journal) : Tail * list Forwarded * option Journal :=
  match looks with
  | [] => (t, [], journal)
  | c :: rest => let '(t1, sent, j1) := flush c t journal in let '(t2, more, j2) := tail rest t1 j1 in (t2, sent ++ more, j2)
  end.

(** ** Journal before publish *)

Lemma ensured_events (id : string) (j j' : Journal) : ensured now id j j' -> j_events j' = j_events j.
Proof. by intros [[-> _]|[_ [st ->]]]. Qed.
Lemma persist_keeps_events (j : Journal) : j_events (snd (persistTerminalResult j)) = j_events j.
Proof.
  assert (H : forall st r, j_events (snd (persistRunResult now runId st r j)) = j_events j).
  { intros st r. unfold persistRunResult. run_journal. destruct (j_closed j); [done|]. cbn. destruct (RUN_ID_RE runId); [|done]. cbn. pose proof (ensureRun_spec now runId "running" j) as He.
    destruct (ensureRun now runId "running" j) as [[r0|c] j1]; cbn; [|done]. destruct He as [He _]. apply ensured_events in He.
    destruct (resultRow runId j1); repeat (case_match; cbn; try done); by simplify_eq. }
  unfold persistTerminalResult. repeat case_match; apply H.
Qed.

(** The row of an event that was published. *)
Definition journaled (j : Journal) (event : value) (n : Z) : Prop :=
  exists row, In row (j_events j) /\ er_remote_run_id row = runId /\ er_sequence row = n /\ encodeJson event JOURNAL_LIMITS.event_payload_bytes = Ok (er_payload_json row).
Lemma journaled_more (j j' : Journal) (event : value) (n : Z) : j_events j `prefix_of` j_events j' -> journaled j event n -> journaled j' event n.
Proof. intros [l Hl] (row & Hr & H). exists row. rewrite Hl. split; [|done]. apply in_app_iff. by left. Qed.

Definition published (j : Journal) (f : Forwarded) : Prop := match f with RunEvent e o => exists n, o = Some n /\ journaled j e n | EncryptedRunEvent _ => True end.
Lemma published_more (j j' : Journal) (f : Forwarded) : j_events j `prefix_of` j_events j' -> published j f -> published j' f.
Proof. intros Hp. destruct f as [e o|]; [|done]. intros (n & -> & H). exists n. split; [done|by eapply journaled_more]. Qed.

Lemma append_events (event : value) (j : Journal) :
  match append now runId (event_input event) j with
  | (Ok ev, j') => j_events j `prefix_of` j_events j' /\ journaled j' event (ne_sequence ev)
  | (Err _, j') => j_events j' = j_events j
  end.
Proof.
  pose proof (append_spec now runId (event_input event) j) as H. destruct (append now runId (event_input event) j) as [[ev|c] j']; [|destruct H as [->|H]; [done|by apply ensured_events in H]].
  destruct H as (j1 & r & t & He & _ & _ & -> & Hv & ->). apply ensured_events in He. cbn. rewrite He. split; [by eexists|]. eexists. split; [apply in_app_iff; right; by left|].
  cbn. split; [done|]. split; [done|]. revert Hv. unfold validate. cbn [ni_type ni_timestamp ni_payload event_input]. destruct event; try done; by repeat case_match.
Qed.
Lemma on_event_journals (event : value) (j : Journal) (fin : bool) (sent : list Forwarded) (j' : option Journal) : on_event (Some j) event = (fin, sent, j') ->
  exists j1, j' = Some j1 /\ j_events j `prefix_of` j_events j1 /\ Forall (published j1) sent.
Proof.
  intros H. assert (Ha := append_events event j). unfold on_event in H. destruct (append now runId (event_input event) j) as [[ev|c] j1].
  - destruct Ha as [Hp Hj]. assert (Hk : j_events (if isTerminal event then snd (persistTerminalResult j1) else j1) = j_events j1) by (destruct (isTerminal event); [apply persist_keeps_events|done]).
    assert (Hall : Forall (published (if isTerminal event then snd (persistTerminalResult j1) else j1)) (send event (Some (ne_sequence ev)))).
    { unfold send. destruct wsOpen; [|done]. apply Forall_singleton. destruct encrypted; [done|]. cbn. eexists. split; [done|]. eapply journaled_more; [|exact Hj]. by rewrite Hk. }
    destruct event; injection H as _ <- <-; eexists; (split; [reflexivity|]); first [by split|split; [by rewrite Hk|done]].
  - destruct event; injection H as _ <- <-; eexists; (split; [reflexivity|]); rewrite ?Ha; by split.
Qed.
Lemma on_lines_journal (lines : list string) : forall (j : Journal) (fin : bool) (sent : list Forwarded) (j' : option Journal), on_lines (Some j) lines = (fin, sent, j') ->
  exists j1, j' = Some j1 /\ j_events j `prefix_of` j_events j1 /\ Forall (published j1) sent.
Proof.
  induction lines as [|line rest IH]; intros j fin sent j' H; cbn [on_lines] in H; [injection H as _ <- <-; by eexists|]. destruct (JSON_parse line) as [event|]; [|exact (IH _ _ _ _ H)].
  destruct (on_event (Some j) event) as [[[] s1] j1] eqn:E; apply on_event_journals in E as (k & -> & Hp & Hs); [injection H as _ <- <-; by eexists|].
  destruct (on_lines (Some k) rest) as [[fin2 s2] j2] eqn:E2. injection H as _ <- <-. apply IH in E2 as (k2 & -> & Hp2 & Hs2). exists k2. split; [done|]. split; [by etransitivity|].
  apply Forall_app. split; [|done]. eapply Forall_impl; [exact Hs|]. intros f. by apply published_more.
Qed.
Lemma tail_journal (looks : list string) : forall (t t' : Tail) (j : Journal) (sent : list Forwarded) (j' : option Journal), tail looks t (Some j) = (t', sent, j') ->
  exists j1, j' = Some j1 /\ j_events j `prefix_of` j_events j1 /\ Forall (published j1) sent.
Proof.
  induction looks as [|c rest IH]; intros t t' j sent j' H; cbn [tail] in H; [injection H as _ <- <-; by eexists|]. destruct (flush c t (Some j)) as [[t1 s1] j1] eqn:E.
  assert (Hf : exists k, j1 = Some k /\ j_events j `prefix_of` j_events k /\ Forall (published k) s1).
  { revert E. unfold flush. destruct (_ || _); [intros [= _ <- <-]; by eexists|]. destruct (on_lines (Some j) _) as [[fin s2] j2] eqn:El. intros [= _ <- <-]. by apply on_lines_journal in El. }
  destruct Hf as (k & -> & Hp & Hs). destruct (tail rest t1 (Some k)) as [[t2 s2] j2] eqn:E2. injection H as _ <- <-. apply IH in E2 as (k2 & -> & Hp2 & Hs2).
  exists k2. split; [done|]. split; [by etransitivity|]. apply Forall_app. split; [|done]. eapply Forall_impl; [exact Hs|]. intros f. by apply published_more.
Qed.

(** ** Looking often is looking once *)

Definition whole (s : string) : Prop := s = "" \/ exists r, s = r +:+ String "010" "".
(** Each look finds the file grown by whole lines. *)
Fixpoint grows (c : string) (looks : list string) : Prop := match looks with [] => True | c' :: rest => (exists d, c' = c +:+ d /\ whole d) /\ grows c' rest end.

Lemma lines_app (a b : string) : whole a -> lines_of (a +:+ b) = lines_of a ++ lines_of b.
Proof.
  unfold lines_of. intros [->|[r ->]]; [done|]. rewrite append_assoc. change (String "010" "" +:+ b) with (String "010" b). rewrite !split_char_app, !List.filter_app.
  change (List.filter nonempty (split_char "010" "")) with (@nil string). by rewrite app_nil_r.
Qed.
Lemma on_lines_app (l1 l2 : list string) : forall j, on_lines j (l1 ++ l2) =
  match on_lines j l1 with (true, s, j1) => (true, s, j1) | (false, s, j1) => let '(fin, more, j2) := on_lines j1 l2 in (fin, s ++ more, j2) end.
Proof.
  induction l1 as [|line l1 IH]; intros j; [cbn; by destruct (on_lines j l2) as [[]]|]. cbn. destruct (JSON_parse line) as [event|]; [|apply IH].
  destruct (on_event j event) as [[[] s] j1]; [done|]. rewrite IH. destruct (on_lines j1 l1) as [[[] s1] j2]; [done|]. destruct (on_lines j2 l2) as [[fin s2] j3]. by rewrite app_assoc.
Qed.
Lemma drop_app (a b : string) : string_of_list_ascii (skipn (String.length a) (lit (a +:+ b))) = b.
Proof. induction a as [|x a IH]; [apply string_of_list_ascii_of_string|]. rewrite append_cons. exact IH. Qed.

Lemma finished_tail (looks : list string) (n : nat) (j : option Journal) : exists t, tail looks {| tl_offset := n; tl_finished := true |} j = (t, [], j) /\ tl_finished t = true.
Proof. induction looks as [|c rest IH]; [by eexists|]. cbn. destruct IH as (t & -> & Ht). by eexists. Qed.
Lemma last_default {A : Type} (l : list A) (x d : A) : List.last (x :: l) d = List.last l x.
Proof. revert x d. induction l as [|y l IH]; intros x d; [done|]. rewrite (IH y x). exact (IH y d). Qed.
Lemma length_more (a b : string) : b <> "" -> (String.length (a +:+ b) <=? String.length a)%nat = false.
Proof. intros H. apply Nat.leb_gt. induction a as [|x a IH]; [destruct b as [|y b]; [done|]; change ("" +:+ String y b) with (String y b); cbn; lia|]. rewrite append_cons. cbn. lia. Qed.
Lemma tail_pieces (looks : list string) : forall c j, grows c looks -> exists t sent j' d,
  tail looks {| tl_offset := String.length c; tl_finished := false |} j = (t, sent, j') /\ List.last looks c = c +:+ d /\ on_lines j (lines_of d) = (tl_finished t, sent, j').
Proof.
  induction looks as [|c' rest IH]; intros c j Hg; [exists {| tl_offset := String.length c; tl_finished := false |}, [], j, ""; split; [done|]; split; [cbn; by rewrite append_empty|done]|].
  destruct Hg as [(d & -> & Hd) Hg]. rewrite last_default. cbn [tail]. unfold flush. cbn [tl_finished tl_offset orb]. rewrite drop_app. destruct (decide (d = "")) as [->|Hne].
  - rewrite append_empty in *. rewrite Nat.leb_refl. destruct (IH c j Hg) as (t & sent & j' & x & Ht & Hl & Ho). rewrite Ht. by exists t, sent, j', x.
  - rewrite length_more by done. destruct (on_lines j (lines_of d)) as [[fin s1] j1] eqn:E. destruct (IH (c +:+ d) j1 Hg) as (t & sent & j' & x & Ht & Hl & Ho). rewrite Hl, append_assoc.
    destruct fin.
    + destruct (finished_tail rest (String.length (c +:+ d)) j1) as (t1 & -> & Hf). exists t1, (s1 ++ []), j1, (d +:+ x). split; [done|]. split; [done|]. by rewrite lines_app, on_lines_app, E, Hf, app_nil_r.
    + rewrite Ht. exists t, (s1 ++ sent), j', (d +:+ x). split; [done|]. split; [done|]. by rewrite lines_app, on_lines_app, E, Ho.
Qed.

(** What a look at the finished file would forward: the events up to the one that ends the run. *)
Fixpoint until_terminal (events : list value) : list value := match events with [] => [] | e :: rest => e :: if isTerminal e then [] else until_terminal rest end.
Definition parsed (lines : list string) : list value := flat_map (fun l => match JSON_parse l with Some e => [e] | None => [] end) lines.
Lemma on_lines_live (lines : list string) : encrypted = false -> wsOpen = true ->
  snd (fst (on_lines None lines)) = map (fun e => RunEvent e None) (until_terminal (parsed lines)).
Proof.
  intros He Hw. induction lines as [|line rest IH]; [done|]. unfold parsed in *. cbn. destruct (JSON_parse line) as [event|]; [|exact IH]. cbn. unfold send. rewrite He, Hw.
  destruct (isTerminal event); [done|]. destruct (on_lines None rest) as [[fin s] j]. cbn in *. by rewrite IH.
Qed.
End Tail.

(** However often and whenever the Node looks at the event file, as long as it is written in whole lines: what it forwards is what one look at the whole file would
    forward, each event of the run in order up to the one that ends it, none twice; with a journal, each event sent in the clear is a row of the journal, under the sequence
    number it is sent with, before it is sent. *)
Theorem tail_forwards_exactly (sha256_hex : string -> string) (runId now : string) (rec : value) (encrypted wsOpen : bool) (looks : list string) (journal : option Journal) :
  grows "" looks ->
  let '(t, sent, journal') := tail sha256_hex runId now rec encrypted wsOpen looks start journal in
  on_lines sha256_hex runId now rec encrypted wsOpen journal (lines_of (List.last looks "")) = (tl_finished t, sent, journal')
  /\ (journal = None -> encrypted = false -> wsOpen = true -> sent = map (fun e => RunEvent e None) (until_terminal (parsed (lines_of (List.last looks "")))))
  /\ (forall j j', journal = Some j -> journal' = Some j' -> Forall (published runId j') sent).
Proof.
  intros Hg. destruct (tail_pieces sha256_hex runId now rec encrypted wsOpen looks "" journal Hg) as (t & sent & j' & d & Ht & Hl & Ho).
  change {| tl_offset := String.length ""; tl_finished := false |} with start in Ht. rewrite Ht. change ("" +:+ d) with d in Hl. rewrite Hl. split; [done|]. split.
  - intros -> He Hw. assert (H := on_lines_live sha256_hex runId now rec encrypted wsOpen (lines_of d) He Hw). by rewrite Ho in H.
  - intros j jr -> ->. apply tail_journal in Ht as (j1 & [= <-] & _ & H). done.
Qed.

(** A look that finds half a line loses its event for good. *)
Example half_line_lost : let event := default "" (JSON_stringify (VObj [("type", VStr "status"); ("status", VStr "completed")])) in
  snd (fst (tail (fun s => s) "run" "now" VUndef false true [substring 0 10 event; event +:+ String "010" ""] start None)) = [].
Proof. vm_compute. reflexivity. Qed.
